(* ===== verification/_CoqProject ===== *)
-Q . S2P
Prelude.v
GoIO.v
Text.v
Protocol.v
Identifiers.v
Sha256.v
Names.v
LeaseWire.v
LeaseConn.v
LeaseSafety.v
SessionGuard.v
RelayService.v
RelayInvariant.v
RelaySafety.v
Limits.v
Connector.v
ConnectorSafety.v
PairToken.v
PairWire.v
PairRelay.v
PairRelayLegs.v
PairRelayPools.v
PairRelaySafety.v
Base64.v
Signing.v
Identity.v
Mailbox.v
MailboxSafety.v
SafetyWords.v
Phrase.v
Toy.v
Runes.v
StrictJson.v
StrictJsonSafety.v
JsonText.v
EnrollRequest.v
Invitation.v
InvitationSafety.v
Exchange.v
ExchangeSafety.v
TargetSession.v
OperatorSession.v
SessionDemo.v
SessionSafety.v
CeremonySafety.v
Issue.v
Syscalls.v
SecureFS.v
CrashLogic.v
SecureFSSafety.v
DirectoryView.v
SessionStore.v
SessionStoreSafety.v
Release.v
ReleaseBundle.v
PackageData.v
PackageStorage.v
PackageTxn.v
ReleaseSafety.v
PackageSafety.v
TraceLogic.v
PackageCalls.v
KernelDemo.v
RunDemo.v
PackageRun.v
PackageCopy.v
PairOffer.v
PairingData.v
PairingWire.v
PairingWireSafety.v
PairingClient.v
PairingClientSafety.v
PairingReceiver.v
PairingMessages.v
PairingDemo.v
PairingStore.v
PairingHistory.v
PairingExchange.v
