(* ===== verification/Prelude.v ===== *)
(** * OwnTransit: a verification library

    OwnTransit lets an SSH client reach a host behind NAT through a relay that neither side
    trusts. A connector keeps an outbound control connection to a relay; clients open
    sessions through the relay; every end-to-end stream runs inside mutually authenticated
    TLS. A newer "pairing" relay delivers signed advertisements and tokens, and paired
    endpoints keep a lease on each other's authorization while a stream is open. Machines are
    enrolled by a ceremony over a relay mailbox in which two people compare words, or, newer,
    by pairing with a receiver under a private one-use code. Its releases are signed
    manifests, installed by a journaled transaction behind a monotonic policy anchor. This
    development models the core of these programs, the state machines, codecs, limits,
    durable stores and transactions under [internal/], and proves the properties they are
    built to have.

    ** Files and the code they model

    Shared:
    - [Prelude]: Go results ([result]), bytes, big-endian words, fixed arrays [arr n],
      [int64]/[uint64] wrap-around, counters in maps, record update, tactics and hints.
    - [GoIO]: readers as chunk lists, [io.ReadFull], writers as lists of [Write] outcomes.
    - [Text], [Runes], [Sha256], [Base64]: what the sources use of [strings], UTF-8,
      [encoding/hex], [strconv], SHA-256, HMAC and [encoding/base64], computable, so that
      digests, words and tokens evaluate. [Toy]: lawful codecs for the witnesses.

    The rendezvous system:
    - [Protocol]: [protocol/protocol.go], [ready.go]. [Identifiers]: [protocol/id.go].
    - [Names], [Limits]: the certificate names and the limits of [config/config.go].
    - [RelayService], [RelayInvariant], [RelaySafety]: [relay/service.go]. The state is
      [Service] under [Service.mu]; objects shared by pointer live in heaps and are
      compared by address. Each definition is one critical section, [step] lists them all,
      and [reachable] is every interleaving of handlers from [newService].
    - [Connector], [ConnectorSafety]: [connector/limits.go], [session.go], [service.go].
      A worker carries its program counter and the deferred calls it still owes.
    - [SessionGuard]: [sessionguard/sessionguard.go]. [Identity]: [identity/*.go], the
      verdict on the certificate of a TLS peer.

    The paired system:
    - [LeaseWire], [LeaseConn], [LeaseSafety]: [leasewire/wire.go], [conn.go]. [conn] is
      [Conn]; [step] interleaves its reader, writer, watch and policy goroutines and the
      application's calls. An [instant] has a monotonic and a wall reading.
    - [PairToken], [PairWire]: [pairrelay/token.go], [types.go], [wire.go] and the bodies
      of [offer.go].
    - [PairRelay], [PairRelayLegs], [PairRelayPools], [PairRelaySafety]: the state of
      [pairrelay/relay.go], [advertisement_cache.go], [inventory.go], [offer.go].
      [carrier_step] pairs the relay with the carriers that owe [releaseActive].

    Enrollment ([enrollmentexchange] and what it uses of [enrollment], [pki], [signing]):
    - [Signing]: [signing/signing.go]. [EnrollRequest]: [enrollment/request.go],
      [pki/csr.go], [pki/pin.go].
    - [Mailbox], [MailboxSafety]: [mailbox_store.go]. [Exchange], [ExchangeSafety]:
      [exchange_wire.go], [exchange_handler.go], [courier.go]; the endpoint dispatches to
      the mailbox, the courier calls the endpoint.
    - [SafetyWords], [Phrase]: [phrase.go] with its vocabulary, and the padding.
    - [Invitation], [InvitationSafety], [Issue]: [invitation.go], [mailbox.go],
      [registration.go], [issue.go], [client_bootstrap.go].
    - [TargetSession], [OperatorSession]: [session.go], [operator_session.go],
      [transcript.go], [request_envelope.go], [response_binding.go]; [SessionDemo] is a
      concrete ceremony, [SessionSafety] and [CeremonySafety] the proofs.
    - [SessionStore], [SessionStoreSafety]: [store.go].

    Receiver pairing ([receiverpairing], [pairoffer]):
    - [PairOffer]: [pairoffer/offer.go], short codes and public offers.
    - [PairingData], [PairingWire], [PairingClient], [PairingReceiver]: the records with their
      JSON; the messages, signed, padded and sealed, of [pairing.go] and [exchange.go]; the
      client's half of [exchange.go], [private.go], [renewal_status.go], [short_code.go]; the
      receiver's, with [store.go] and [pending_code.go], every method a program over
      [SecureFS].
    - [PairingWireSafety], [PairingClientSafety], [PairingMessages]: round trips and inversions
      of the messages. [PairingExchange]: a whole first exchange. [PairingStore],
      [PairingHistory]: the durable state at every crash point and over any sequence of
      methods. [PairingDemo]: a concrete pairing.

    Files on disk:
    - [Syscalls]: programs that make system calls; the kernel is the script of its replies,
      and a process that is killed is a script that ends.
    - [SecureFS]: [securefs/securefs.go].
    - [CrashLogic]: what is assumed of the kernel (the effect of a successful call on one
      directory, [allowed] replies) and Hoare triples with a crash condition.
    - [SecureFSSafety], [DirectoryView]: the operations against that logic, and a
      directory as a map from names to contents.
    - [TraceLogic]: triples over the history of calls, for what must precede what.

    Releases and packages:
    - [StrictJson], [StrictJsonSafety]: [strictjson/decode.go] over an executable model of
      what it uses of [encoding/json]; the class [Field] says how a type is written, its zero
      value and how a member is assigned, [LawfulField] that reading gives back what was
      written. [JsonText]: the texts and integers that JSON keeps, shared by all records.
    - [Release], [ReleaseSafety]: [release/manifest.go], [policy.go]. [ReleaseBundle]:
      [evidence.go], [bundle_unix.go].
    - [PackageData], [PackageStorage], [PackageTxn]: [internal/packagetxn]. The records with
      their JSON and validation and [decision.go]; [storage_unix.go], [acl_linux.go],
      [running_unix.go] and the files of [transaction_unix.go]; the transaction itself,
      [package_anchor_unix.go], [lifecycle_unix.go], [runtime_identity_unix.go].
    - [PackageSafety], [PackageCalls], [PackageRun], [PackageCopy]: the proofs. [KernelDemo]
      is a small kernel and [RunDemo] an installation played against it, for the witnesses.

    The components meet in the model as they do in the code: the relay and the connector
    dispatch on [Protocol.Frame]; the connector reads a client's identity with
    [Names.ParseClientCapabilityDNSName] and guards its copies with [SessionGuard]; the
    limits that [Limits] validates are the ones [RelayService] enforces; the pairing relay
    opens its tokens with [PairToken]; sessions are built from [Invitation] and
    [EnrollRequest], compare the words of [Phrase], seal with its padding, and are stored
    through [SecureFS]; the exchange creates mailboxes from parsed registrations; [apply]
    verifies a policy and a manifest of [Release], decides with [verifyDecision], and hands
    [install] the gate that replaces the anchor.

    ** What the theorems show

    - Lease ([LeaseSafety]): application bytes move only under a live mutual lease, only a
      fresh matching grant moves the deadline, expiry is terminal, the exchange completes.
    - Connector ([ConnectorSafety]): the local dial is gated by a complete authentication
      and by slots, all slots come back, reconnection is paced.
    - Rendezvous relay ([RelaySafety], [Limits]): exact accounting over all interleavings,
      joins only for the pinned connector of a live open, roles never mix, validated
      limits keep every client from starving another.
    - Pairing relay ([PairRelayLegs], [PairRelayPools], [PairRelaySafety], [PairToken]):
      removal is final, counters are exact, a promoted leg is owned once, pools stay sound,
      tokens have one encoding.
    - Mailbox and exchange ([MailboxSafety], [ExchangeSafety], [InvitationSafety]): the
      store implements a map of one-use slots, a courier that calls an endpoint gets what
      the store answers, only a registered invitation opens a mailbox.
    - Ceremony ([SessionSafety], [CeremonySafety], [Issue]): nothing is activated without
      the comparison and the operator's signed response, the comparison is exact, an honest
      ceremony completes, a session is recovered from what it stored, whatever is issued is
      accepted by its readers.
    - Files and stores ([DirectoryView], [SessionStoreSafety]): replacing a file is atomic
      and durable at every crash point; the stored generation is a compare-and-swap.
    - Releases and packages ([ReleaseSafety], [PackageSafety], [PackageRun], [PackageCopy]):
      what an installation is authorized by, documents and records with one encoding, floors
      that no policy advance and no transaction lowers, commits in the order anchor, selector,
      link, retirement at every crash point, and no payload in place but authenticated bytes.
    - Receiver pairing ([PairingExchange], [PairingHistory], [PairingStore], [PairOffer]): an
      honest exchange completes and both ends agree, unless the client asked for the full hour
      and the receiver's clock is behind, when the response can never be opened; a receiver's
      state is changed atomically and only along its transitions, a peer once paired is never
      replaced; an offer is accepted exactly under the code of its secret.
    - Codecs and requests ([Protocol], [Phrase], [Signing], [EnrollRequest], [Identity]):
      round trips, canonical forms, exact verdicts, separation of signature domains.

    ** Conventions and bounds

    Machine integers are [Z] with the wrap-around written where the code can reach it
    ([wrap64], [wrapu64], [sat_sub]); instants and durations are nanoseconds. Map iteration
    is by [map_to_list] where the code's result does not depend on the order; where it could
    (the route of a connector, the pending entry evicted among equal expiries) the
    theorems hold for whichever entry is chosen. Random bytes, clock readings, outcomes of
    I/O and of durable saves are arguments, so a theorem covers all of them. Fuel occurs
    only in [write_pieces], SHA-256's block loop, the JSON reader and the copy of a payload.
    They are given the length of their input, and [Write_pieces_exact], the round trips of
    [StrictJsonSafety] and [copy_turns_enough] show it suffices. The other loops over system
    calls recurse on the replies: they stop only where the process does. Digest collisions are
    never excluded by assumption. The JSON of releases, packages and pairing is concrete; a slice
    that is assigned a third time through aliased keys is the one thing left out of it. The
    JSON of the enrollment files, PEM, X.509, URLs, age and Ed25519 are records of
    functions with their documented laws ([env_law], [session_law], [issue_law], [pairing_law],
    [ed25519_law]), and the witnesses instantiate them. The JSON laws are of the values that
    JSON represents: texts of valid UTF-8, integers of their type, named roles and phases; that
    the code only encodes such values is proved where a theorem needs it. A signature is
    assumed to verify only for a key that the package generated. The three words of a comparison are a list; a list of
    another length never matches. [strings.ToLower] is exact on the letters that the words
    can contain and on the two code points that fold to ASCII.

    ** What is not modelled

    Sockets, TLS handshakes, X.509 parsing and HTTP: the operations take the verdict or the
    verified value. The byte copies, the application's own read and write deadlines on a
    lease connection, the connector's heartbeat. Calls on nil receivers. Of [securefs], the
    read-only and publication views; of a directory, other users of the same process and
    what happens when a lock file is unlinked while it is held. Of [packagetxn], the access
    control lists of macOS, the mutex and the copy check of a manager, and the test-only
    entry without a gate. The per-peer admission buckets and ingress of the pairing relay,
    the pairing runtime, deployments and policies of [enrollment], relay setup, local state
    and the commands. That a lock keeps two processes apart is assumed where a history of
    several critical sections is considered ([PairingHistory]). *)

From stdpp Require Export base decidable countable list gmap fin_maps strings option.
From Stdlib Require Export ZArith Lia Bool.
From Stdlib Require Strings.Byte.

(** ** Go results

    A Go function that returns [(T, error)] is a function to [result E T]. *)

Inductive result (E A : Type) : Type :=
| Ok (a : A)
| Err (e : E).
Arguments Ok {E A} a.
Arguments Err {E A} e.

#[export] Instance result_ret E : MRet (result E) := λ A a, Ok a.
#[export] Instance result_bind E : MBind (result E) :=
  λ A B f m, match m with Ok a => f a | Err e => Err e end.
#[export] Instance result_eq_dec {E A} `{EqDecision E, EqDecision A} :
  EqDecision (result E A).
Proof. solve_decision. Defined.

(** [is_ok r] is the Go test [err == nil]. *)
Definition is_ok {E A} (r : result E A) : bool :=
  match r with Ok _ => true | Err _ => false end.

(** [reject b with e ;; k] is the guard [if b { return e }; k]. *)
Declare Scope go_scope.
Delimit Scope go_scope with go.
Notation "'reject' b 'with' e ;; k" := (if b then Err e else k)
  (at level 100, b at level 99, e at level 99, k at level 200, right associativity,
   format "'[v' 'reject'  b  'with'  e  ;; '/' k ']'") : go_scope.
Open Scope go_scope.
Open Scope Z_scope.

(** ** Bytes *)

Abbreviation byte := Byte.byte.
#[export] Instance byte_eq_dec : EqDecision byte := Byte.byte_eq_dec.
#[export] Instance byte_countable : Countable byte :=
  inj_countable Byte.to_N Byte.of_N Byte.of_to_N.

Definition b2z (b : byte) : Z := Z.of_N (Byte.to_N b).
(** Conversion to [byte] keeps the low eight bits. *)
Definition z2b (z : Z) : byte :=
  match Byte.of_N (Z.to_N (z mod 256)) with Some b => b | None => Byte.x00 end.

Lemma b2z_range b : 0 <= b2z b < 256.
Proof. unfold b2z. pose proof (Byte.to_N_bounded b). lia. Qed.

Lemma b2z_z2b z : b2z (z2b z) = z mod 256.
Proof.
  pose proof (Z.mod_pos_bound z 256 ltac:(lia)) as Hb.
  unfold b2z, z2b.
  destruct (Byte.of_N (Z.to_N (z mod 256))) as [b|] eqn:E.
  - apply Byte.to_of_N in E. rewrite E. lia.
  - apply Byte.of_N_None_iff in E. lia.
Qed.

Lemma b2z_inj b c : b2z b = b2z c → b = c.
Proof.
  unfold b2z. intros H%N2Z.inj.
  pose proof (Byte.of_to_N b) as Eb. pose proof (Byte.of_to_N c) as Ec. congruence.
Qed.

Lemma z2b_b2z b : z2b (b2z b) = b.
Proof. apply b2z_inj. rewrite b2z_z2b. apply Z.mod_small, b2z_range. Qed.

Lemma z2b_add_mul z k : z2b (z * 256 + k) = z2b k.
Proof.
  apply b2z_inj. rewrite !b2z_z2b, Z.add_comm. apply Z_mod_plus_full.
Qed.

(** ** Big-endian words: [binary.BigEndian.PutUintN] and [UintN] *)

Fixpoint be_put (n : nat) (z : Z) : list byte :=
  match n with
  | O => []
  | S m => be_put m (z / 256) ++ [z2b z]
  end.

Definition be_get (l : list byte) : Z := foldl (λ acc b, acc * 256 + b2z b) 0 l.

Lemma be_get_snoc l b : be_get (l ++ [b]) = be_get l * 256 + b2z b.
Proof. unfold be_get. by rewrite foldl_app. Qed.

Lemma length_be_put n z : length (be_put n z) = n.
Proof. revert z. induction n; intros z; simpl; [done|]. rewrite length_app, IHn. simpl. lia. Qed.

Lemma be_get_put n z : be_get (be_put n z) = z mod 256 ^ Z.of_nat n.
Proof.
  revert z. induction n as [|n IH]; intros z.
  - simpl. by rewrite Z.mod_1_r.
  - cbn [be_put]. rewrite be_get_snoc, IH, b2z_z2b, Nat2Z.inj_succ, Z.pow_succ_r by lia.
    rewrite Z.rem_mul_r by lia. lia.
Qed.

Lemma be_put_get l : be_put (length l) (be_get l) = l.
Proof.
  induction l as [|b l IH] using rev_ind; [done|].
  rewrite length_app, Nat.add_comm. cbn [length Nat.add be_put].
  rewrite be_get_snoc, z2b_add_mul, z2b_b2z.
  rewrite Z.div_add_l, Z.div_small, Z.add_0_r by (lia || apply b2z_range).
  by rewrite IH.
Qed.

Lemma be_get_range l : 0 <= be_get l < 256 ^ Z.of_nat (length l).
Proof.
  pose proof (be_get_put (length l) (be_get l)) as E. rewrite be_put_get in E. rewrite E.
  apply Z.mod_pos_bound, Z.pow_pos_nonneg; lia.
Qed.

Lemma be_get_inj l k : length l = length k → be_get l = be_get k → l = k.
Proof. intros Hl He. rewrite <-(be_put_get l), <-(be_put_get k). by rewrite Hl, He. Qed.

(** ** Fixed-size arrays: Go's [[n]byte]

    The length proof is a boolean, so equality of arrays is equality of their
    bytes and arrays can key finite maps. *)

Definition arr (n : nat) : Type := dsig (λ l : list byte, length l = n).
#[export] Instance arr_eq_dec n : EqDecision (arr n).
Proof. unfold arr, dsig. apply _. Defined.
#[export] Instance arr_countable n : Countable (arr n).
Proof. unfold arr, dsig. apply _. Defined.

Definition arr_bytes {n} (a : arr n) : list byte := `a.

(** [copy(a[:], l)] on a zeroed array: the first [n] bytes of [l], zero padded. *)
Definition arr_fill (n : nat) (l : list byte) : list byte := take n (l ++ replicate n Byte.x00).
Lemma length_arr_fill n l : length (arr_fill n l) = n.
Proof. unfold arr_fill. rewrite length_take, length_app, length_replicate. lia. Qed.
(** Replaces a proof of a boolean that computes to [true] by [I], so that closed
    arrays evaluate to a normal form. *)
Definition lock_true (b : bool) : Is_true b → Is_true b :=
  match b with true => λ _, I | false => λ p, p end.
Definition arr_copy (n : nat) (l : list byte) : arr n :=
  exist _ (arr_fill n l) (lock_true _ (bool_decide_pack _ (length_arr_fill n l))).
(** The zero value [[n]byte{}]. *)
Definition arr_zero (n : nat) : arr n := arr_copy n [].

Lemma length_arr_bytes {n} (a : arr n) : length (arr_bytes a) = n.
Proof. exact (proj2_dsig a). Qed.

Lemma arr_eq {n} (a b : arr n) : arr_bytes a = arr_bytes b → a = b.
Proof. intros H. by apply dsig_eq. Qed.

Lemma arr_bytes_copy n l : length l = n → arr_bytes (arr_copy n l) = l.
Proof.
  intros <-. unfold arr_bytes, arr_copy, arr_fill; simpl.
  by rewrite take_app_length.
Qed.

Lemma arr_copy_bytes {n} (a : arr n) : arr_copy n (arr_bytes a) = a.
Proof. apply arr_eq, arr_bytes_copy, length_arr_bytes. Qed.

Lemma arr_bytes_zero n : arr_bytes (arr_zero n) = replicate n Byte.x00.
Proof.
  unfold arr_zero, arr_copy, arr_bytes, arr_fill; simpl.
  rewrite take_ge by (rewrite length_replicate; lia). done.
Qed.

(** ** Slices of byte lists *)

(** [l[i:i+n]] *)
Definition slice (i n : nat) (l : list byte) : list byte := take n (drop i l).

Lemma length_slice i n l : (i + n <= length l)%nat → length (slice i n l) = n.
Proof. intros. unfold slice. rewrite length_take, length_drop. lia. Qed.

Lemma slice_app_l i n (l k : list byte) :
  (i + n <= length l)%nat → slice i n (l ++ k) = slice i n l.
Proof.
  intros. unfold slice. rewrite drop_app_le by lia.
  apply take_app_le. rewrite length_drop. lia.
Qed.

Lemma slice_app_r i n (l k : list byte) :
  (length l <= i)%nat → slice i n (l ++ k) = slice (i - length l) n k.
Proof. intros. unfold slice. by rewrite drop_app_ge by lia. Qed.

Lemma slice_all (l : list byte) n : length l = n → slice 0 n l = l.
Proof. intros <-. unfold slice. rewrite drop_0. apply take_ge. lia. Qed.

Lemma slice_at (l m k : list byte) i n :
  length l = i → length m = n → slice i n (l ++ m ++ k) = m.
Proof.
  intros <- <-. unfold slice. by rewrite drop_app_length, take_app_length.
Qed.

Lemma slice_split i n m (l : list byte) : slice i n l ++ slice (i + n) m l = slice i (n + m) l.
Proof. unfold slice. rewrite <-drop_drop. apply take_take_drop. Qed.

Lemma slice_drop i n l k : slice i n (drop k l) = slice (k + i) n l.
Proof. unfold slice. by rewrite drop_drop. Qed.

Lemma drop_slice_all i l : drop i l = slice i (length l - i) l.
Proof. unfold slice. rewrite take_ge; [done|]. rewrite length_drop. lia. Qed.

Lemma nth_slice i l d : (i < length l)%nat → [nth i l d] = slice i 1 l.
Proof.
  intros Hi. unfold slice. destruct (drop i l) as [|x k] eqn:E.
  - apply (f_equal length) in E. rewrite length_drop in E. cbn in E. lia.
  - pose proof (take_drop i l) as Ht. rewrite E in Ht. rewrite <-Ht at 1.
    rewrite app_nth2; rewrite length_take; [|lia]. replace (i - _)%nat with 0%nat by lia. by destruct k.
Qed.

(** Cutting a string into the first bytes and the rest. *)
Lemma cut_slices i l : (i <= length l)%nat → l = slice 0 i l ++ drop i l.
Proof. intros. unfold slice. rewrite drop_0. by rewrite take_drop. Qed.

Lemma be_put_slice i n l : (i + n <= length l)%nat → be_put n (be_get (slice i n l)) = slice i n l.
Proof. intros H. rewrite <-(length_slice i n l H) at 1. apply be_put_get. Qed.

(** Adjacent slices. *)
Lemma slice_glue i n j m l : j = (i + n)%nat → slice i n l ++ slice j m l = slice i (n + m) l.
Proof. intros ->. apply slice_split. Qed.
Lemma slice_glue_app i n j m l r :
  j = (i + n)%nat → slice i n l ++ slice j m l ++ r = slice i (n + m) l ++ r.
Proof. intros ->. by rewrite app_assoc, slice_split. Qed.
(** A list is the concatenation of its consecutive slices. *)
Ltac glue_slices :=
  repeat first [rewrite slice_glue_app by lia | rewrite slice_glue by lia]; apply slice_all; lia.

Lemma length_slice_z i z l :
  0 <= z → Z.of_nat i + z <= Z.of_nat (length l) → Z.of_nat (length (slice i (Z.to_nat z) l)) = z.
Proof. intros. rewrite length_slice by lia. lia. Qed.

(** ** ASCII literals as bytes *)
Definition ascii_bytes (s : string) : list byte := String.list_byte_of_string s.

(** ** Machine integers: two's-complement wrap-around of [int64] and [uint64] *)
Definition wrap64 (z : Z) : Z := (z + 2^63) mod 2^64 - 2^63.
Definition wrapu64 (z : Z) : Z := z mod 2^64.
Definition max_int64 : Z := 2^63 - 1.

Lemma wrap64_id z : - 2^63 <= z <= max_int64 → wrap64 z = z.
Proof. unfold wrap64, max_int64. intros. rewrite Z.mod_small; lia. Qed.

(** ** Durations: [time.Duration] is an [int64] count of nanoseconds *)
Definition Nanosecond : Z := 1.
Definition Millisecond : Z := 1000000.
Definition Second : Z := 1000000000.
Definition Minute : Z := 60 * Second.
Definition Hour : Z := 60 * Minute.

(** [t.Sub(u)] saturates. *)
Definition sat_sub (a b : Z) : Z := Z.max (- 2^63) (Z.min max_int64 (a - b)).

(** ** Association-free update of functions and counters *)

(** Go's [m[k]++] and [m[k]--] on a [map[K]int]; an absent key reads as zero. *)
Section Counters.
Context {K : Type} `{Countable K}.
Definition cnt (m : gmap K Z) (k : K) : Z := default 0 (m !! k).
Definition incr (k : K) (m : gmap K Z) : gmap K Z := <[k := cnt m k + 1]> m.
(** [m[k]--] followed by [if m[k] == 0 { delete(m, k) }]. *)
Definition decr_del (k : K) (m : gmap K Z) : gmap K Z :=
  if cnt m k - 1 =? 0 then delete k m else <[k := cnt m k - 1]> m.

Lemma cnt_empty k : cnt ∅ k = 0.
Proof. unfold cnt. by rewrite lookup_empty. Qed.
Lemma cnt_insert m k k' z : cnt (<[k := z]> m) k' = if decide (k = k') then z else cnt m k'.
Proof. unfold cnt. rewrite lookup_insert. by case_decide. Qed.
Lemma cnt_delete m k k' : cnt (delete k m) k' = if decide (k = k') then 0 else cnt m k'.
Proof. unfold cnt. rewrite lookup_delete. by case_decide. Qed.
Lemma cnt_incr m k k' : cnt (incr k m) k' = cnt m k' + if decide (k = k') then 1 else 0.
Proof. unfold incr. rewrite cnt_insert. case_decide; subst; lia. Qed.
Lemma cnt_decr_del m k k' : cnt (decr_del k m) k' = cnt m k' - if decide (k = k') then 1 else 0.
Proof.
  unfold decr_del. destruct (Z.eqb_spec (cnt m k - 1) 0).
  - rewrite cnt_delete. case_decide; subst; lia.
  - rewrite cnt_insert. case_decide; subst; lia.
Qed.
End Counters.
#[global] Arguments cnt : simpl never.
#[global] Arguments incr : simpl never.
#[global] Arguments decr_del : simpl never.

(** ** Counting the entries of a map that satisfy a boolean test *)

Section MapCount.
Context {K A : Type} `{Countable K} (P : A → bool).
Definition count_if (m : gmap K A) : Z := Z.of_nat (size (filter (λ kv, P kv.2 = true) m)).
Definition b2i (b : bool) : Z := if b then 1 else 0.

Lemma count_if_empty : count_if ∅ = 0.
Proof. unfold count_if. by rewrite map_filter_empty, map_size_empty. Qed.

Lemma count_if_fresh m k x :
  m !! k = None → count_if (<[k := x]> m) = count_if m + b2i (P x).
Proof.
  intros Hk. unfold count_if, b2i. destruct (P x) eqn:E.
  - rewrite map_filter_insert_True by done. rewrite map_size_insert_None; [lia|].
    rewrite map_lookup_filter_None. by left.
  - rewrite map_filter_insert_False by (cbn; congruence). rewrite delete_id by done. lia.
Qed.

Lemma count_if_delete m k x :
  m !! k = Some x → count_if (delete k m) = count_if m - b2i (P x).
Proof.
  intros Hk. rewrite <-(insert_id m k x) at 2 by done.
  rewrite <-insert_delete_eq, count_if_fresh by apply lookup_delete_eq. lia.
Qed.

Lemma count_if_update m k x y :
  m !! k = Some x → count_if (<[k := y]> m) = count_if m - b2i (P x) + b2i (P y).
Proof.
  intros Hk. rewrite <-insert_delete_eq, count_if_fresh by apply lookup_delete_eq.
  by rewrite (count_if_delete m k x).
Qed.

Lemma count_if_nonneg m : 0 <= count_if m.
Proof. unfold count_if. lia. Qed.

Lemma count_if_member m k x : m !! k = Some x → P x = true → 1 <= count_if m.
Proof.
  intros Hk Hx. pose proof (count_if_delete m k x Hk) as Hd. rewrite Hx in Hd. unfold b2i in Hd.
  pose proof (count_if_nonneg (delete k m)). lia.
Qed.
End MapCount.

(** ** Total length of a map of lists *)

Section SumLength.
Context {K A : Type} `{Countable K}.
Definition sum_len (m : gmap K (list A)) : Z := map_fold (λ _ l acc, Z.of_nat (length l) + acc) 0 m.

Lemma sum_len_empty : sum_len ∅ = 0.
Proof. apply map_fold_empty. Qed.
Lemma sum_len_fresh m k l : m !! k = None → sum_len (<[k := l]> m) = Z.of_nat (length l) + sum_len m.
Proof. intros Hk. unfold sum_len. rewrite map_fold_insert_L; [done| |done]. intros. lia. Qed.
Lemma sum_len_delete m k : sum_len (delete k m) = sum_len m - Z.of_nat (length (default [] (m !! k))).
Proof.
  destruct (m !! k) as [l|] eqn:Hk; cbn.
  - rewrite <-(insert_delete_id m k l Hk) at 2. rewrite sum_len_fresh by apply lookup_delete_eq. lia.
  - rewrite delete_id by done. lia.
Qed.
Lemma sum_len_insert m k l :
  sum_len (<[k := l]> m) = sum_len m - Z.of_nat (length (default [] (m !! k))) + Z.of_nat (length l).
Proof.
  rewrite <-insert_delete_eq, sum_len_fresh by apply lookup_delete_eq. rewrite sum_len_delete. lia.
Qed.
Lemma sum_len_nonneg m : 0 <= sum_len m.
Proof.
  unfold sum_len. apply (map_fold_weak_ind (λ r _, 0 <= r)); [done|]. intros. lia.
Qed.
End SumLength.

(** ** Record update: [r <| field := v |>] is Go's [r.field = v]

    A record declares its fields once, as an [Eta] instance; the setter of a field is
    then found by replacing that field in the expansion. *)

Class Eta (R : Type) := eta : R → R.
Class Setter {R E : Type} (proj : R → E) := setter : E → R → R.
Definition set_field {R E} (proj : R → E) {S : Setter proj} (v : E) (r : R) : R := S v r.
Ltac solve_setter R E proj :=
  let e := eval hnf in (@eta R _) in
  exact (fun (v : E) (r : R) => ltac:(
    let b := eval cbv beta in (e r) in
    match b with context C [proj r] => let b' := context C [v] in exact b' end)).
#[export] Hint Extern 1 (@Setter ?R ?E ?proj) => solve_setter R E proj : typeclass_instances.
Notation "r <| proj := v |>" := (set_field proj v r)
  (at level 1, left associativity, proj at level 99, v at level 99,
   format "r <| proj  :=  v |>") : go_scope.

(** An outcome paired with the state it leaves. *)
Lemma pair_outcome {A B} (x : A * B) (b : B) : x.2 = b → x = (x.1, b).
Proof. by destruct x; cbn; intros ->. Qed.

(** ** Automation *)

Create HintDb owntransit.
Create Rewrite HintDb len.
#[export] Hint Resolve length_arr_bytes length_be_put : owntransit.
#[export] Hint Rewrite @length_arr_bytes @length_be_put @length_app @length_take @length_drop
  @length_replicate @length_cons @length_nil @length_fmap : len.

(** Lengths of concatenated fields. *)
Ltac len := autorewrite with len in *; cbn [length] in *; lia.

(** Split every guard of a hypothesis [f x = Ok y] or [f x = Err e]. *)
Ltac go_cases H :=
  repeat (first
    [ progress simplify_eq/=
    | match type of H with
      | context [match ?x with _ => _ end] => destruct x eqn:?
      end ]).

(** Case analysis on the first guard of the goal. *)
Tactic Notation "case_guard" ident(H) :=
  match goal with |- context [if ?b then _ else _] => destruct b eqn:H end.

(** Boolean guards to propositions. *)
Ltac bool_prop :=
  repeat match goal with
  | H : orb _ _ = false |- _ => apply orb_false_iff in H as [? ?]
  | H : andb _ _ = true |- _ => apply andb_true_iff in H as [? ?]
  | H : negb _ = true |- _ => apply negb_true_iff in H
  | H : negb _ = false |- _ => apply negb_false_iff in H
  | H : bool_decide _ = true |- _ => apply bool_decide_eq_true in H
  | H : bool_decide _ = false |- _ => apply bool_decide_eq_false in H
  | H : (_ <? _) = true |- _ => apply Z.ltb_lt in H
  | H : (_ <? _) = false |- _ => apply Z.ltb_ge in H
  | H : (_ <=? _) = true |- _ => apply Z.leb_le in H
  | H : (_ <=? _) = false |- _ => apply Z.leb_gt in H
  | H : (_ =? _) = true |- _ => apply Z.eqb_eq in H
  | H : (_ =? _) = false |- _ => apply Z.eqb_neq in H
  end.

(** Refutes a guard disjunct by disjunct. *)
Ltac absurd_guard G := exfalso; repeat (apply orb_true_iff in G as [G|G]); bool_prop; (congruence || lia).

Lemma Ok_inj {E A} (a b : A) : @Ok E A a = Ok b → a = b.
Proof. congruence. Qed.

(** A bind that succeeds. *)
Lemma bind_inv {E A B} (m : result E A) (f : A → result E B) b : (m ≫= f) = Ok b → ∃ a, m = Ok a ∧ f a = Ok b.
Proof. destruct m as [a|]; [by exists a|done]. Qed.
(** A guard that does not fire. *)
Lemma guard_inv {E A} (c : bool) (e : E) (k : result E A) b : (reject c with e;; k) = Ok b → c = false ∧ k = Ok b.
Proof. by destruct c. Qed.
(** The guards and binds that a successful call went through. *)
Ltac ok_inv H :=
  repeat match type of H with
  | (if _ then Err _ else _) = Ok _ => apply guard_inv in H; let G := fresh "G" in destruct H as [G H]; cbv beta in G
  | (_ ≫= _) = Ok _ => apply bind_inv in H; let a := fresh "a" in let E := fresh "E" in destruct H as (a & E & H)
  end.
