(* ===== verification/GoIO.v ===== *)
(** * Go byte streams

    [io.Reader] and [io.Writer] as the sequence of results their [Read] and
    [Write] calls give, and the two loops the program drives them with:
    [io.ReadFull] (the standard library) and the write-everything loop that
    [internal/protocol], [internal/leasewire] and [internal/pairrelay] share. *)

From S2P Require Import Prelude.

Inductive io_err :=
| EOF
| ErrUnexpectedEOF
| ErrShortWrite
| ErrNetClosed
| ErrDeadlineExceeded
| ErrOther (code : nat).
#[export] Instance io_err_eq_dec : EqDecision io_err.
Proof. solve_decision. Defined.

(** ** Readers

    One element per [Read]: the bytes ready and the error reported with the last
    of them. A [Read] with a smaller buffer leaves the rest of the element; a
    reader with no element left reports [EOF]. An element may be empty. *)

Definition reader : Type := list (list byte * option io_err).

(** The bytes a reader still holds. *)
Definition rbytes (r : reader) : list byte := concat (r.*1).
(** No [Read] reports an error before the end of the stream. *)
Definition rclean (r : reader) : Prop := Forall (λ c, c.2 = None) r.

(** The loop of [io.ReadAtLeast] with [need] bytes still missing. *)
Fixpoint read_loop (need : nat) (r : reader) : list byte * option io_err * reader :=
  match need with
  | O => ([], None, r)
  | S _ =>
      match r with
      | [] => ([], Some EOF, [])
      | (d, e) :: r' =>
          if (need <? length d)%nat then (take need d, None, (drop need d, e) :: r')
          else match e with
               | Some x => (d, Some x, r')
               | None => let '(d2, e2, r2) := read_loop (need - length d) r' in (d ++ d2, e2, r2)
               end
      end
  end.

(** [io.ReadFull] into a buffer of [n] bytes. *)
Definition read_full (n : nat) (r : reader) : result io_err (list byte) * reader :=
  let '(d, e, r') := read_loop n r in
  if (n <=? length d)%nat then (Ok d, r')
  else (Err (match e with
             | Some EOF => match d with [] => EOF | _ => ErrUnexpectedEOF end
             | Some x => x
             | None => ErrUnexpectedEOF
             end), r').

Lemma rbytes_cons d e r : rbytes ((d, e) :: r) = d ++ rbytes r.
Proof. done. Qed.

(** Nothing is lost or invented, and never more than [need] bytes are taken. *)
Lemma read_loop_prefix need r d e r' :
  read_loop need r = (d, e, r') → rbytes r = d ++ rbytes r' ∧ (length d <= need)%nat.
Proof.
  revert need d e r'. induction r as [|[c x] r IH]; intros need d e r'.
  - destruct need; simpl; intros ?; simplify_eq; split; simpl; (done || lia).
  - destruct need as [|need]; [simpl; intros ?; simplify_eq; split; [done|simpl; lia]|].
    cbn [read_loop]. destruct (Nat.ltb_spec (S need) (length c)).
    + intros ?; simplify_eq. rewrite !rbytes_cons, app_assoc, take_drop.
      split; [done|]. rewrite length_take. lia.
    + destruct x as [x|]; [intros ?; simplify_eq; rewrite rbytes_cons; split; [done|lia]|].
      destruct (read_loop _ r) as [[d2 e2] r2] eqn:E. intros ?; simplify_eq.
      apply IH in E as [E1 E2]. rewrite rbytes_cons, E1, app_assoc, length_app. split; [done|lia].
Qed.

(** On a clean stream the loop stops with the bytes asked for, or at the end. *)
Lemma read_loop_clean need r d e r' :
  rclean r → read_loop need r = (d, e, r') →
  rclean r' ∧ ((length d = need ∧ e = None)
               ∨ (d = rbytes r ∧ (length d < need)%nat ∧ e = Some EOF ∧ r' = [])).
Proof.
  revert need d e r'. induction r as [|[c x] r IH]; intros need d e r' Hc.
  - destruct need; simpl; intros H; simplify_eq; (split; [done|]).
    + left. done.
    + right. split_and!; simpl; (done || lia).
  - apply Forall_cons_1 in Hc as [Hx Hr]; simpl in Hx; subst x.
    destruct need as [|need].
    { simpl. intros ?; simplify_eq. split; [by constructor|by left]. }
    cbn [read_loop]. destruct (Nat.ltb_spec (S need) (length c)).
    + intros ?; simplify_eq. split; [by constructor|left]. split; [|done].
      rewrite length_take. lia.
    + destruct (read_loop _ r) as [[d2 e2] r2] eqn:E. intros ?; simplify_eq.
      apply IH in E as [Hr2 [[Hl ->]|(Hd & Hl & -> & ->)]]; [| |done]; (split; [done|]).
      * left. rewrite length_app. split; [lia|done].
      * right. rewrite rbytes_cons, Hd. rewrite Hd in Hl. split_and!; [done| |done|done].
        rewrite length_app. lia.
Qed.

Lemma read_full_ok n r d r' :
  read_full n r = (Ok d, r') → length d = n ∧ rbytes r = d ++ rbytes r'.
Proof.
  unfold read_full. destruct (read_loop n r) as [[d0 e0] r0] eqn:E.
  apply read_loop_prefix in E as [E1 E2].
  destruct (Nat.leb_spec n (length d0)); [|by intros]. intros [= <- <-]. split; [lia|done].
Qed.

(** Whatever the chunking, [read_full] returns exactly the first [n] bytes. *)
Lemma read_full_enough n r :
  rclean r → (n <= length (rbytes r))%nat →
  ∃ r', read_full n r = (Ok (take n (rbytes r)), r') ∧ rbytes r' = drop n (rbytes r) ∧ rclean r'.
Proof.
  intros Hc Hn. unfold read_full. destruct (read_loop n r) as [[d e] r'] eqn:E.
  pose proof (read_loop_prefix _ _ _ _ _ E) as [Hp Hle].
  pose proof (read_loop_clean _ _ _ _ _ Hc E) as [Hc' [[Hl ->]|(Hd & Hl & _)]].
  - exists r'. rewrite (proj2 (Nat.leb_le n (length d))) by lia.
    rewrite Hp, <-Hl, take_app_length, drop_app_length. done.
  - subst d. lia.
Qed.

(** A stream that ends early gives [EOF] before the first byte and
    [ErrUnexpectedEOF] after it. *)
Lemma read_full_short n r :
  rclean r → (length (rbytes r) < n)%nat →
  read_full n r = (Err (match rbytes r with [] => EOF | _ => ErrUnexpectedEOF end), []).
Proof.
  intros Hc Hn. unfold read_full. destruct (read_loop n r) as [[d e] r'] eqn:E.
  pose proof (read_loop_prefix _ _ _ _ _ E) as [Hp Hle].
  pose proof (read_loop_clean _ _ _ _ _ Hc E) as [_ [[Hl ->]|(Hd & Hl & -> & ->)]].
  - apply (f_equal length) in Hp. rewrite length_app in Hp. lia.
  - rewrite (proj2 (Nat.leb_gt n (length d))) by lia. rewrite <-Hd. done.
Qed.

(** ** Writers

    One element per [Write]: the count and the error it returns. With no element
    left every [Write] accepts its whole buffer. *)

Definition writer : Type := list (Z * option io_err).

(** The loop
    [for len(data) > 0 { n, err := w.Write(data); ... }]: the bytes the writer
    took, the error, and the writer afterwards. *)
Fixpoint write_full (w : writer) (data : list byte) : list byte * option io_err * writer :=
  match data with
  | [] => ([], None, w)
  | _ =>
      match w with
      | [] => (data, None, [])
      | (n, e) :: w' =>
          if (n <? 0) || (Z.of_nat (length data) <? n) then ([], Some ErrShortWrite, w')
          else let taken := take (Z.to_nat n) data in
               match e with
               | Some x => (taken, Some x, w')
               | None =>
                   if n =? 0 then (taken, Some ErrShortWrite, w')
                   else let '(out, e', w'') := write_full w' (drop (Z.to_nat n) data) in
                        (taken ++ out, e', w'')
               end
      end
  end.

(** Success means every byte was taken, in order; an error leaves a prefix. *)
Lemma write_full_spec w data out e w' :
  write_full w data = (out, e, w') → out `prefix_of` data ∧ (e = None → out = data).
Proof.
  revert data out e w'. induction w as [|[n x] w IH]; intros data out e w' H;
    (destruct data as [|b data]; [simplify_eq/=; by split; [exists []|]|]).
  - simplify_eq/=. split; [by exists []; rewrite app_nil_r|done].
  - cbn [write_full] in H. remember (b :: data) as l eqn:El; clear El.
    destruct (_ || _); [simplify_eq; split; [apply prefix_nil|done]|].
    destruct x as [x|]; [simplify_eq; split; [eexists; symmetry; apply take_drop|done]|].
    destruct (n =? 0); [simplify_eq; split; [eexists; symmetry; apply take_drop|done]|].
    destruct (write_full w _) as [[o2 e2] w2] eqn:E. simplify_eq.
    apply IH in E as [[k Hk] Ho]. split.
    + exists k. by rewrite <-app_assoc, <-Hk, take_drop.
    + intros ->. by rewrite Ho, take_drop.
Qed.
