(* ===== verification/Text.v ===== *)
(** * Text helpers of Go's standard library

    [strings.Split], [strings.CutPrefix], [strings.CutSuffix], fixed-width hexadecimal
    ([%0nx], [hex.EncodeToString]) and [strconv.ParseUint(s, 16, 64)], on ASCII text. *)

From S2P Require Import Prelude.

(** ** Splitting and cutting *)

(** [strings.Split(s, sep)] for a one-byte separator. *)
Fixpoint Split (sep : byte) (s : list byte) : list (list byte) :=
  match s with
  | [] => [[]]
  | c :: rest =>
      if bool_decide (c = sep) then [] :: Split sep rest
      else match Split sep rest with
           | [] => [[c]]
           | label :: labels => (c :: label) :: labels
           end
  end.

Lemma Split_label sep label rest :
  sep ∉ label → Split sep (label ++ sep :: rest) = label :: Split sep rest.
Proof.
  induction label as [|c label IH]; intros Hs; cbn.
  - by rewrite bool_decide_eq_true_2.
  - apply not_elem_of_cons in Hs as [Hc Hs]. rewrite bool_decide_eq_false_2 by congruence.
    by rewrite IH.
Qed.

Lemma Split_last sep label : sep ∉ label → Split sep label = [label].
Proof.
  induction label as [|c label IH]; intros Hs; cbn; [done|].
  apply not_elem_of_cons in Hs as [Hc Hs]. rewrite bool_decide_eq_false_2 by congruence. by rewrite IH.
Qed.

(** [strings.CutPrefix(s, prefix)] *)
Definition CutPrefix (s prefix : list byte) : option (list byte) :=
  if bool_decide (take (length prefix) s = prefix) then Some (drop (length prefix) s) else None.
Definition CutSuffix (s suffix : list byte) : option (list byte) :=
  let n := (length s - length suffix)%nat in
  if (length suffix <=? length s)%nat && bool_decide (drop n s = suffix) then Some (take n s) else None.

Lemma CutPrefix_Some s prefix rest : CutPrefix s prefix = Some rest ↔ s = prefix ++ rest.
Proof.
  unfold CutPrefix. split.
  - case_bool_decide as H; [|done]. intros [= <-]. rewrite <-H at 1. by rewrite take_drop.
  - intros ->. rewrite take_app_length, bool_decide_eq_true_2, drop_app_length; done.
Qed.

Lemma CutSuffix_Some s suffix rest : CutSuffix s suffix = Some rest ↔ s = rest ++ suffix.
Proof.
  unfold CutSuffix. split.
  - destruct (Nat.leb_spec (length suffix) (length s)); cbn; [|done].
    case_bool_decide as H'; [|done]. intros [= <-]. rewrite <-H' at 2. by rewrite take_drop.
  - intros ->. rewrite length_app. replace (_ - _)%nat with (length rest) by lia.
    rewrite drop_app_length, bool_decide_eq_true_2, take_app_length by done.
    by replace (_ <=? _)%nat with true by (symmetry; apply Nat.leb_le; lia).
Qed.

(** ** Positional digits *)

(** [digits B m z]: the [m] low base-[B] digits of [z], most significant first. *)
Fixpoint digits (B : Z) (m : nat) (z : Z) : list Z :=
  match m with
  | O => []
  | S m' => digits B m' (z / B) ++ [z mod B]
  end.
Definition undigits (B : Z) (ds : list Z) : Z := foldl (λ acc d, acc * B + d) 0 ds.

Lemma length_digits B m z : length (digits B m z) = m.
Proof. revert z. induction m; intros z; simpl; [done|]. rewrite length_app, IHm. simpl. lia. Qed.

Lemma digits_range B m z : 0 < B → Forall (λ d, 0 <= d < B) (digits B m z).
Proof.
  intros HB. revert z. induction m as [|m IH]; intros z; [constructor|].
  apply Forall_app. split; [apply IH|]. repeat constructor; apply Z.mod_pos_bound; lia.
Qed.

Lemma undigits_digits B m z : 0 < B → undigits B (digits B m z) = z mod B ^ Z.of_nat m.
Proof.
  intros HB. revert z. induction m as [|m IH]; intros z; [by rewrite Z.mod_1_r|].
  cbn [digits]. unfold undigits in *. rewrite foldl_app, IH. cbn [foldl].
  rewrite Nat2Z.inj_succ, Z.pow_succ_r, Z.rem_mul_r by lia. lia.
Qed.

(** ** Hexadecimal *)

Definition hex_char (d : Z) : byte := z2b (if d <? 10 then 48 + d else 87 + d).
(** The digit values of [strconv]: either case. *)
Definition hex_digit (c : byte) : option Z :=
  let z := b2z c in
  if (48 <=? z) && (z <=? 57) then Some (z - 48)
  else if (97 <=? z) && (z <=? 102) then Some (z - 87)
  else if (65 <=? z) && (z <=? 70) then Some (z - 55)
  else None.

(** [fmt.Sprintf("%0nx", z)] for [0 <= z < 16^n]. *)
Fixpoint hex_put (n : nat) (z : Z) : list byte :=
  match n with
  | O => []
  | S m => hex_put m (z / 16) ++ [hex_char (z mod 16)]
  end.
Definition hex_get (ds : list Z) : Z := foldl (λ acc d, acc * 16 + d) 0 ds.
Definition ParseUint16 (s : list byte) : option Z :=
  match s with
  | [] => None
  | _ => ds ← mapM hex_digit s; if hex_get ds <? 2 ^ 64 then Some (hex_get ds) else None
  end.

Lemma length_hex_put n z : length (hex_put n z) = n.
Proof. revert z. induction n; intros z; cbn; [done|]. rewrite length_app, IHn. cbn. lia. Qed.

Lemma hex_cases (P : Z → Prop) : Forall P (seqZ 0 16) → ∀ d, 0 <= d < 16 → P d.
Proof. rewrite list.Forall_forall. intros H d Hd. apply H, elem_of_seqZ. lia. Qed.
Lemma hex_digit_char d : 0 <= d < 16 → hex_digit (hex_char d) = Some d.
Proof. revert d. apply hex_cases. by repeat constructor. Qed.
Lemma hex_char_range d : 0 <= d < 16 →
  (48 <= b2z (hex_char d) <= 57) ∨ (97 <= b2z (hex_char d) <= 102).
Proof. revert d. apply hex_cases. repeat apply Forall_cons_2; try apply Forall_nil_2;
  vm_compute; (left; split; discriminate) || (right; split; discriminate).
Qed.

Lemma hex_put_get n z :
  ∃ ds, mapM hex_digit (hex_put n z) = Some ds ∧ hex_get ds = z mod 16 ^ Z.of_nat n.
Proof.
  revert z. induction n as [|n IH]; intros z; cbn [hex_put].
  - exists []. by rewrite Z.mod_1_r.
  - destruct (IH (z / 16)) as (ds & Hd & Hg). exists (ds ++ [z mod 16]). split.
    + apply mapM_Some, Forall2_app; [by apply mapM_Some|]. apply Forall2_cons_2; [|apply Forall2_nil_2].
      apply hex_digit_char, Z.mod_pos_bound. lia.
    + unfold hex_get in *. rewrite foldl_app, Hg. cbn [foldl].
      rewrite Nat2Z.inj_succ, Z.pow_succ_r, Z.rem_mul_r by lia. lia.
Qed.

Lemma ParseUint16_put n z :
  (0 < n <= 16)%nat → 0 <= z < 16 ^ Z.of_nat n → ParseUint16 (hex_put n z) = Some z.
Proof.
  intros Hn Hz. pose proof (length_hex_put n z) as Hl. unfold ParseUint16.
  destruct (hex_put_get n z) as (ds & Hd & Hg). rewrite Z.mod_small in Hg by lia.
  destruct (hex_put n z); [cbn in Hl; lia|]. rewrite Hd. cbn [mbind option_bind]. rewrite Hg.
  assert (16 ^ Z.of_nat n <= 16 ^ 16) by (apply Z.pow_le_mono_r; lia).
  rewrite (proj2 (Z.ltb_lt z (2 ^ 64))); [done|]. change (16 ^ 16) with (2 ^ 64) in *. lia.
Qed.

Lemma hex_put_no_char c n z :
  b2z c < 48 → c ∉ hex_put n z.
Proof.
  intros Hc. revert z. induction n as [|n IH]; intros z; cbn; [apply not_elem_of_nil|].
  rewrite elem_of_app, list_elem_of_singleton. intros [?| ->]; [by eapply IH|].
  destruct (hex_char_range (z mod 16) ltac:(apply Z.mod_pos_bound; lia)); lia.
Qed.

Lemma ParseUint16_range s z : ParseUint16 s = Some z → 0 <= z < 2 ^ 64.
Proof.
  unfold ParseUint16. destruct s as [|c s]; [done|].
  destruct (mapM hex_digit (c :: s)) as [ds|] eqn:E; [|done]. cbn [mbind option_bind].
  destruct (Z.ltb_spec (hex_get ds) (2 ^ 64)); [|done]. intros [= <-]. split; [|done].
  apply mapM_Some in E. assert (Forall (λ d, 0 <= d) ds) as Hd.
  { clear -E. revert E. generalize (c :: s). intros l E. induction E as [|x d l k Hx _ IH]; constructor; [|done].
    unfold hex_digit in Hx. repeat case_match; simplify_eq; bool_prop; lia. }
  clear - Hd. unfold hex_get. assert (∀ a, 0 <= a → 0 <= foldl (λ acc d, acc * 16 + d) a ds); [|auto with lia].
  induction Hd as [|d ds Hd _ IH]; intros a Ha; cbn; [done|]. apply IH. lia.
Qed.

#[global] Arguments Split : simpl never.
#[global] Arguments CutPrefix : simpl never.
#[global] Arguments CutSuffix : simpl never.
#[global] Arguments ParseUint16 : simpl never.
#[global] Arguments hex_put : simpl never.

(** ** [hex.EncodeToString] and [hex.DecodeString] *)
Definition hex_encode (l : list byte) : list byte := concat ((λ c, hex_put 2 (b2z c)) <$> l).
Fixpoint hex_pairs (ds : list Z) : option (list byte) :=
  match ds with
  | [] => Some []
  | [_] => None
  | h :: l :: rest => k ← hex_pairs rest; Some (z2b (h * 16 + l) :: k)
  end.
Definition hex_decode (s : list byte) : option (list byte) := ds ← mapM hex_digit s; hex_pairs ds.

Lemma hex_put_2 z : hex_put 2 z = [hex_char (z / 16 mod 16); hex_char (z mod 16)].
Proof. done. Qed.

Lemma hex_decode_encode l : hex_decode (hex_encode l) = Some l.
Proof.
  unfold hex_decode. assert (mapM hex_digit (hex_encode l)
    = Some (concat ((λ c, [b2z c / 16 mod 16; b2z c mod 16]) <$> l))) as ->.
  { apply mapM_Some. unfold hex_encode. induction l as [|c l IH]; [constructor|]. cbn [fmap list_fmap concat].
    rewrite hex_put_2. cbn [app]. repeat constructor; try (apply hex_digit_char, Z.mod_pos_bound; lia). done. }
  cbn [mbind option_bind]. induction l as [|c l IH]; [done|]. cbn [fmap list_fmap concat app hex_pairs].
  rewrite IH. cbn [mbind option_bind]. do 2 f_equal. apply b2z_inj. rewrite b2z_z2b.
  pose proof (b2z_range c). rewrite (Z.mod_small (b2z c / 16)) by (split; [apply Z.div_pos; lia|apply Z.div_lt_upper_bound; lia]).
  rewrite Z.mul_comm, <-Z.div_mod by lia. apply Z.mod_small. lia.
Qed.

Lemma hex_encode_inj l k : hex_encode l = hex_encode k → l = k.
Proof. intros H. pose proof (hex_decode_encode l) as Hl. rewrite H, hex_decode_encode in Hl. congruence. Qed.
#[global] Arguments hex_encode : simpl never.
#[global] Arguments hex_decode : simpl never.
