(* ===== verification/Protocol.v ===== *)
(** * The rendezvous protocol: [internal/protocol]

    The fixed-size frames the relay parses, their reader and writer, and the READY
    marker of the inner stream. *)

From S2P Require Import Prelude GoIO.

(** ** Identifiers

    [ID], [RouteID], [BootNonce], [EpochID] and [SessionID] are distinct named types
    over [[IDSize]byte]. *)
Definition IDSize : nat := 32.
Definition RouteID : Type := arr IDSize.
Definition BootNonce : Type := arr IDSize.
Definition EpochID : Type := arr IDSize.
Definition SessionID : Type := arr IDSize.
Definition ID : Type := arr IDSize.

Definition HeaderSize : nat := 8.
Definition Version : byte := Byte.x01.
Definition ControlRegisterSize : nat := HeaderSize + 2 * IDSize.
Definition RegisteredSize : nat := HeaderSize + IDSize.
Definition ClientOpenSize : nat := HeaderSize + IDSize.
Definition OpenSize : nat := HeaderSize + 2 * IDSize.
Definition DataJoinSize : nat := HeaderSize + 3 * IDSize.
Definition CancelSize : nat := HeaderSize + 2 * IDSize.
Definition PingSize : nat := HeaderSize.
Definition PongSize : nat := HeaderSize.
Definition maxFrameSize : nat := DataJoinSize.

Inductive proto_err :=
| ErrInvalidMagic
| ErrUnsupportedVersion
| ErrUnknownType
| ErrNonzeroReserved
| ErrUnsupportedFrame
| ErrInvalidReady
| ErrIO (e : io_err).
#[export] Instance proto_err_eq_dec : EqDecision proto_err.
Proof. solve_decision. Defined.

Definition frameMagic : list byte := ascii_bytes "FGAT".

Definition TypeControlRegister : byte := Byte.x01.
Definition TypeRegistered : byte := Byte.x02.
Definition TypeClientOpen : byte := Byte.x03.
Definition TypeOpen : byte := Byte.x04.
Definition TypeDataJoin : byte := Byte.x05.
Definition TypeCancel : byte := Byte.x06.
Definition TypePing : byte := Byte.x07.
Definition TypePong : byte := Byte.x08.

(** The closed set of frames. *)
Inductive Frame :=
| ControlRegister (Route : RouteID) (Nonce : BootNonce)
| Registered (Epoch : EpochID)
| ClientOpen (Route : RouteID)
| Open (Epoch : EpochID) (Session : SessionID)
| DataJoin (Route : RouteID) (Epoch : EpochID) (Session : SessionID)
| Cancel (Epoch : EpochID) (Session : SessionID)
| Ping
| Pong.
#[export] Instance Frame_eq_dec : EqDecision Frame.
Proof. solve_decision. Defined.

Definition frame_type (f : Frame) : byte :=
  match f with
  | ControlRegister _ _ => TypeControlRegister
  | Registered _ => TypeRegistered
  | ClientOpen _ => TypeClientOpen
  | Open _ _ => TypeOpen
  | DataJoin _ _ _ => TypeDataJoin
  | Cancel _ _ => TypeCancel
  | Ping => TypePing
  | Pong => TypePong
  end.

(** ** Reading *)

Definition payloadSize (frameType : byte) : option nat :=
  match frameType with
  | Byte.x01 => Some (2 * IDSize)%nat
  | Byte.x02 | Byte.x03 => Some IDSize
  | Byte.x04 | Byte.x06 => Some (2 * IDSize)%nat
  | Byte.x05 => Some (3 * IDSize)%nat
  | Byte.x07 | Byte.x08 => Some 0%nat
  | _ => None
  end.

(** [header[i]] of an [[8]byte]. *)
Definition byte_at (l : list byte) (i : nat) : byte := nth i l Byte.x00.

Definition parseHeader (header : list byte) : result proto_err (byte * nat) :=
  reject bool_decide (slice 0 4 header ≠ frameMagic) with ErrInvalidMagic;;
  reject bool_decide (byte_at header 4 ≠ Version) with ErrUnsupportedVersion;;
  reject bool_decide (byte_at header 6 ≠ Byte.x00 ∨ byte_at header 7 ≠ Byte.x00)
    with ErrNonzeroReserved;;
  let frameType := byte_at header 5 in
  match payloadSize frameType with
  | None => Err ErrUnknownType
  | Some size => Ok (frameType, size)
  end.

(** [copy(field[:], payload[i*IDSize:(i+1)*IDSize])] *)
Definition field (i : nat) (payload : list byte) : arr IDSize :=
  arr_copy IDSize (slice (i * IDSize) IDSize payload).

(** The final [switch] of [ReadFrame], on the payload it has read. *)
Definition decodePayload (frameType : byte) (payload : list byte) : result proto_err Frame :=
  match frameType with
  | Byte.x01 => Ok (ControlRegister (field 0 payload) (field 1 payload))
  | Byte.x02 => Ok (Registered (field 0 payload))
  | Byte.x03 => Ok (ClientOpen (field 0 payload))
  | Byte.x04 => Ok (Open (field 0 payload) (field 1 payload))
  | Byte.x05 => Ok (DataJoin (field 0 payload) (field 1 payload) (field 2 payload))
  | Byte.x06 => Ok (Cancel (field 0 payload) (field 1 payload))
  | Byte.x07 => Ok Ping
  | Byte.x08 => Ok Pong
  | _ => Err ErrUnknownType
  end.

Definition ReadFrame (r : reader) : result proto_err Frame * reader :=
  match read_full HeaderSize r with
  | (Err e, r1) => (Err (ErrIO e), r1)
  | (Ok header, r1) =>
      match parseHeader header with
      | Err e => (Err e, r1)
      | Ok (frameType, size) =>
          match read_full size r1 with
          | (Err e, r2) => (Err (ErrIO e), r2)
          | (Ok payload, r2) => (decodePayload frameType payload, r2)
          end
      end
  end.

(** ** Writing *)

(** The argument of [WriteFrame]: a frame value, a pointer to one, a nil pointer
    of a frame type, or anything else. *)
Inductive frame_arg :=
| ByValue (f : Frame)
| ByPointer (f : Frame)
| NilPointer
| OtherValue.

(** The bytes copied after the header. *)
Definition frame_payload (f : Frame) : list byte :=
  match f with
  | ControlRegister route nonce => arr_bytes route ++ arr_bytes nonce
  | Registered epoch => arr_bytes epoch
  | ClientOpen route => arr_bytes route
  | Open epoch session => arr_bytes epoch ++ arr_bytes session
  | DataJoin route epoch session => arr_bytes route ++ arr_bytes epoch ++ arr_bytes session
  | Cancel epoch session => arr_bytes epoch ++ arr_bytes session
  | Ping | Pong => []
  end.

(** [encoded[:size]]. *)
Definition encodeFrame (f : Frame) : list byte :=
  frameMagic ++ [Version; frame_type f; Byte.x00; Byte.x00] ++ frame_payload f.

Definition frame_size (f : Frame) : nat :=
  match f with
  | ControlRegister _ _ => ControlRegisterSize
  | Registered _ => RegisteredSize
  | ClientOpen _ => ClientOpenSize
  | Open _ _ => OpenSize
  | DataJoin _ _ _ => DataJoinSize
  | Cancel _ _ => CancelSize
  | Ping => PingSize
  | Pong => PongSize
  end.

(** The bytes the writer took and the error. *)
Definition WriteFrame (w : writer) (frame : frame_arg) : list byte * option proto_err :=
  match frame with
  | ByValue f | ByPointer f =>
      let '(out, e, _) := write_full w (encodeFrame f) in (out, ErrIO <$> e)
  | NilPointer | OtherValue => ([], Some ErrUnsupportedFrame)
  end.

(** ** READY marker *)

Definition ReadySize : nat := 8.
Definition ReadyVersion : byte := Byte.x01.
Definition readyMarker : list byte :=
  ascii_bytes "FGRD" ++ [ReadyVersion; Byte.x00; Byte.x00; Byte.x00].

Definition WriteReady (w : writer) : list byte * option proto_err :=
  let '(out, e, _) := write_full w readyMarker in (out, ErrIO <$> e).

Definition ReadReady (r : reader) : result proto_err unit * reader :=
  match read_full ReadySize r with
  | (Err e, r1) => (Err (ErrIO e), r1)
  | (Ok marker, r1) =>
      (if bool_decide (marker = readyMarker) then Ok tt else Err ErrInvalidReady, r1)
  end.

(** ** Lemmas *)

Lemma length_frame_payload f : length (frame_payload f) = (frame_size f - HeaderSize)%nat.
Proof. destruct f; simpl; autorewrite with len; reflexivity. Qed.

Lemma length_encodeFrame f : length (encodeFrame f) = frame_size f.
Proof.
  unfold encodeFrame. rewrite !length_app, length_frame_payload. by destruct f.
Qed.

Lemma header_le_frame f : (HeaderSize <= frame_size f)%nat.
Proof. apply Nat.leb_le. by destruct f. Qed.

Lemma field_app0 (a : arr IDSize) l : field 0 (arr_bytes a ++ l) = a.
Proof.
  apply arr_eq. unfold field. rewrite slice_app_l by (rewrite length_arr_bytes; simpl; lia).
  rewrite slice_all by apply length_arr_bytes. by rewrite arr_copy_bytes.
Qed.

Lemma field_appS i (a : arr IDSize) l : field (S i) (arr_bytes a ++ l) = field i l.
Proof.
  unfold field. rewrite slice_app_r by (rewrite length_arr_bytes; lia).
  rewrite length_arr_bytes. do 2 f_equal. lia.
Qed.

Lemma field0 (a : arr IDSize) : field 0 (arr_bytes a) = a.
Proof. by rewrite <-(app_nil_r (arr_bytes a)), field_app0. Qed.

Lemma payloadSize_frame f : payloadSize (frame_type f) = Some (length (frame_payload f)).
Proof. rewrite length_frame_payload. by destruct f. Qed.

Lemma parseHeader_encode f l :
  parseHeader (take HeaderSize (encodeFrame f ++ l))
  = Ok (frame_type f, length (frame_payload f)).
Proof.
  change (take HeaderSize (encodeFrame f ++ l))
    with (frameMagic ++ [Version; frame_type f; Byte.x00; Byte.x00]).
  unfold parseHeader. change (byte_at _ 5) with (frame_type f).
  rewrite payloadSize_frame. done.
Qed.

Lemma decodePayload_frame f : decodePayload (frame_type f) (frame_payload f) = Ok f.
Proof.
  destruct f; simpl; rewrite ?field_appS, ?field_app0, ?field0; done.
Qed.

(** The eight header bytes [parseHeader] accepts are exactly the canonical ones. *)
Lemma parseHeader_inv header ty n :
  length header = HeaderSize → parseHeader header = Ok (ty, n) →
  header = frameMagic ++ [Version; ty; Byte.x00; Byte.x00] ∧ payloadSize ty = Some n.
Proof.
  intros Hl. do 8 (destruct header as [|? header]; [done|]).
  destruct header; [|done]. unfold parseHeader.
  do 3 (case_bool_decide; [done|]). unfold byte_at in *; simpl in *.
  destruct (payloadSize _) eqn:Ep; [|done]. intros [= <- <-].
  split; [|done].
  change (slice 0 4 _) with [b; b0; b1; b2] in H.
  injection H as -> -> -> ->.
  assert (b5 = Byte.x00 ∧ b6 = Byte.x00) as [-> ->]; [|by subst].
  split; apply dec_stable; tauto.
Qed.

(** A payload of the right size decodes to the frame it is the payload of. *)
Lemma decodePayload_inv ty p n f :
  payloadSize ty = Some n → length p = n → decodePayload ty p = Ok f →
  frame_type f = ty ∧ frame_payload f = p.
Proof.
  assert (∀ i, (i * IDSize + IDSize <= length p)%nat →
               arr_bytes (field i p) = slice (i * IDSize) IDSize p) as Hf.
  { intros i Hi. by apply arr_bytes_copy, length_slice. }
  unfold payloadSize, decodePayload.
  destruct ty; try done; intros [= <-] Hl [= <-]; (split; [done|]); cbn [frame_payload];
    rewrite ?Hf by (rewrite Hl; unfold IDSize; lia); unfold IDSize in *; simpl Nat.mul;
    rewrite ?(slice_split 32 32 32), ?(slice_split 0 32 32), ?(slice_split 0 32 64);
    try (apply slice_all; lia).
  all: destruct p; [done|simpl in Hl; lia].
Qed.

Lemma ReadFrame_complete f rest r :
  rclean r → rbytes r = encodeFrame f ++ rest →
  ∃ r', ReadFrame r = (Ok f, r') ∧ rbytes r' = rest ∧ rclean r'.
Proof.
  intros Hc Hr.
  destruct (read_full_enough HeaderSize r Hc) as (r1 & E1 & R1 & C1).
  { rewrite Hr, length_app, length_encodeFrame. pose proof (header_le_frame f). lia. }
  assert (rbytes r1 = frame_payload f ++ rest) as Hr1 by (rewrite R1, Hr; done).
  destruct (read_full_enough (length (frame_payload f)) r1 C1) as (r2 & E2 & R2 & C2).
  { rewrite Hr1, length_app. lia. }
  exists r2. unfold ReadFrame. rewrite E1, Hr, parseHeader_encode, E2, Hr1.
  rewrite take_app_length, decodePayload_frame.
  rewrite R2, Hr1, drop_app_length. done.
Qed.

Lemma ReadFrame_sound r f r' :
  ReadFrame r = (Ok f, r') → rbytes r = encodeFrame f ++ rbytes r'.
Proof.
  unfold ReadFrame. destruct (read_full HeaderSize r) as [[h|e] r1] eqn:E1; [|done].
  apply read_full_ok in E1 as [Hl ->].
  destruct (parseHeader h) as [[ty n]|e] eqn:Eh; [|done].
  apply parseHeader_inv in Eh as [-> Hn]; [|done].
  destruct (read_full n r1) as [[p|e] r2] eqn:E2; [|done].
  apply read_full_ok in E2 as [Hp ->]. intros [= Hd <-].
  eapply decodePayload_inv in Hd as [<- <-]; [|done|done].
  unfold encodeFrame. by rewrite <-!app_assoc.
Qed.

(** ** Properties *)

(** Frames are read exactly, whatever the chunking. Whenever [ReadFrame] returns a
    frame, on any stream, the bytes it consumed are exactly that frame's one encoding, so
    it accepts only canonical frames and never over-reads; and from any error-free stream
    that starts with the encoding of [f] it returns [f] and leaves what follows. *)
Theorem ReadFrame_exact r f :
  (∀ r', ReadFrame r = (Ok f, r') → rbytes r = encodeFrame f ++ rbytes r')
  ∧ (rclean r → ∀ rest, rbytes r = encodeFrame f ++ rest →
     ∃ r', ReadFrame r = (Ok f, r') ∧ rbytes r' = rest ∧ rclean r').
Proof. split; [intros r'; apply ReadFrame_sound|intros Hc rest; by apply ReadFrame_complete]. Qed.

(** [WriteFrame] writes exactly one fixed-size frame or reports an error: on
    success the writer has taken precisely the frame's [frame_size] bytes, and a
    failed write has taken only a prefix of them. *)
Theorem WriteFrame_exact w f :
  let '(out, e) := WriteFrame w (ByValue f) in
  out `prefix_of` encodeFrame f
  ∧ (e = None → out = encodeFrame f ∧ length out = frame_size f).
Proof.
  unfold WriteFrame. destruct (write_full w _) as [[out e] w'] eqn:E.
  apply write_full_spec in E as [Hp Ho]. split; [done|].
  intros He. rewrite Ho by (by destruct e). split; [done|apply length_encodeFrame].
Qed.

(** ** Witnesses *)

Definition demo_epoch : EpochID := arr_copy IDSize [Byte.x2a].
Definition demo_session : SessionID := arr_copy IDSize [Byte.x07; Byte.x09].
(** An OPEN frame delivered in three pieces, with one byte of inner TLS behind it. *)
Definition demo_reader : reader :=
  let b := encodeFrame (Open demo_epoch demo_session) in
  [(take 3 b, None); ([], None); (drop 3 b ++ [Byte.x16], None)].

Lemma ReadFrame_exact_witness :
  ∃ r', ReadFrame demo_reader = (Ok (Open demo_epoch demo_session), r') ∧ rbytes r' = [Byte.x16]
        ∧ rclean r'.
Proof.
  apply (ReadFrame_exact demo_reader (Open demo_epoch demo_session)).
  - repeat constructor.
  - vm_compute. reflexivity.
Defined.
