(* ===== verification/Identifiers.v ===== *)
(** * Identifier text: [internal/protocol/id.go]

    Canonical lowercase, unpadded base32 of the 32-byte identifiers. The
    RFC 4648 codec ([encoding/base32]) is the big-endian bit string of the input,
    zero padded on the right to a multiple of five bits, one character per group. *)

From S2P Require Import Prelude GoIO Text Protocol.

Definition EncodedIDSize : nat := 52.

Inductive id_err := ErrInvalidID | ErrRandom (e : io_err).
#[export] Instance id_err_eq_dec : EqDecision id_err.
Proof. solve_decision. Defined.

(** ** [base32.StdEncoding.WithPadding(base32.NoPadding)] *)

(** The alphabet [A-Z2-7]. *)
Definition b32_char (d : Z) : byte := z2b (if d <? 26 then 65 + d else 24 + d).
Definition b32_digit (c : byte) : option Z :=
  let z := b2z c in
  if (65 <=? z) && (z <=? 90) then Some (z - 65)
  else if (50 <=? z) && (z <=? 55) then Some (z - 24)
  else None.

Definition b32_chars_of (n : nat) : nat := (8 * n + 4) / 5.
Definition b32_bytes_of (m : nat) : nat := (5 * m) / 8.
(** The zero bits added to [n] bytes. *)
Definition b32_pad (n m : nat) : Z := 5 * Z.of_nat m - 8 * Z.of_nat n.

Definition EncodeToString (src : list byte) : list byte :=
  let n := length src in
  let m := b32_chars_of n in
  b32_char <$> digits 32 m (be_get src * 2 ^ b32_pad n m).

(** Trailing bits that do not fill a byte are dropped, whatever their value. *)
Definition DecodeString (text : list byte) : option (list byte) :=
  ds ← mapM b32_digit text;
  let m := length text in
  let n := b32_bytes_of m in
  Some (be_put n (undigits 32 ds / 2 ^ b32_pad n m)).

(** [strings.ToLower] and [strings.ToUpper] on ASCII text. *)
Definition to_lower (c : byte) : byte :=
  if (65 <=? b2z c) && (b2z c <=? 90) then z2b (b2z c + 32) else c.
Definition to_upper (c : byte) : byte :=
  if (97 <=? b2z c) && (b2z c <=? 122) then z2b (b2z c - 32) else c.

(** ** [formatID], [parseID], [randomID] *)

Definition formatID (id : list byte) : list byte := to_lower <$> EncodeToString id.

(** [(c >= 'a' && c <= 'z') || (c >= '2' && c <= '7')] *)
Definition id_char (c : byte) : bool :=
  ((97 <=? b2z c) && (b2z c <=? 122)) || ((50 <=? b2z c) && (b2z c <=? 55)).

Definition parseID (text : list byte) : result id_err (arr IDSize) :=
  reject bool_decide (length text ≠ EncodedIDSize) with ErrInvalidID;;
  reject negb (forallb id_char text) with ErrInvalidID;;
  match DecodeString (to_upper <$> text) with
  | None => Err ErrInvalidID
  | Some decoded =>
      reject bool_decide (length decoded ≠ IDSize) with ErrInvalidID;;
      let id := arr_copy IDSize decoded in
      reject bool_decide (formatID (arr_bytes id) ≠ text) with ErrInvalidID;;
      Ok id
  end.

(** The exported instances of [parseID] and [String]. *)
Definition ParseID (text : list byte) : result id_err ID := parseID text.
Definition ParseRouteID (text : list byte) : result id_err RouteID := parseID text.
Definition ID_String (id : ID) : list byte := formatID (arr_bytes id).
Definition RouteID_String (id : RouteID) : list byte := formatID (arr_bytes id).

(** [io.ReadFull(rand.Reader, id[:])]: the identifier holds whatever was read. *)
Definition randomID (rand : reader) : result id_err (arr IDSize) * reader :=
  match read_full IDSize rand with
  | (Ok b, r) => (Ok (arr_copy IDSize b), r)
  | (Err e, r) => (Err (ErrRandom e), r)
  end.

(** ** Lemmas *)

(** A fact about all 32 digits is checked digit by digit. *)
Lemma digit_cases (P : Z → Prop) : Forall P (seqZ 0 32) → ∀ d, 0 <= d < 32 → P d.
Proof. rewrite list.Forall_forall. intros H d Hd. apply H, elem_of_seqZ. lia. Qed.

Lemma b32_digit_char d : 0 <= d < 32 → b32_digit (b32_char d) = Some d.
Proof.
  revert d. apply digit_cases. by repeat constructor.
Qed.

Lemma to_upper_lower_char d : 0 <= d < 32 → to_upper (to_lower (b32_char d)) = b32_char d.
Proof.
  revert d. apply digit_cases. by repeat constructor.
Qed.

Lemma id_char_lower d : 0 <= d < 32 → id_char (to_lower (b32_char d)) = true.
Proof.
  revert d. apply digit_cases. by repeat constructor.
Qed.

Lemma mapM_b32_digit ds :
  Forall (λ d, 0 <= d < 32) ds → mapM b32_digit (b32_char <$> ds) = Some ds.
Proof.
  intros Hd. apply mapM_Some, Forall2_fmap_l, Forall_Forall2_diag.
  eapply Forall_impl; [|exact Hd]. intros d. apply b32_digit_char.
Qed.

(** The two sizes the program uses: 32 bytes and 52 characters. *)
Lemma DecodeString_EncodeToString b :
  length b = IDSize → DecodeString (EncodeToString b) = Some b.
Proof.
  intros Hb. unfold DecodeString, EncodeToString. rewrite Hb.
  change (b32_chars_of IDSize) with EncodedIDSize.
  rewrite mapM_b32_digit by (by apply digits_range). cbn [mbind option_bind]. cbv zeta.
  rewrite length_fmap, length_digits.
  change (b32_bytes_of EncodedIDSize) with IDSize.
  change (b32_pad IDSize EncodedIDSize) with 4.
  rewrite undigits_digits by done. rewrite Z.mod_small.
  - rewrite Z.div_mul by lia. by rewrite <-Hb, be_put_get.
  - pose proof (be_get_range b) as Hr. rewrite Hb in Hr. unfold IDSize, EncodedIDSize in *. lia.
Qed.

Lemma length_formatID b : length b = IDSize → length (formatID b) = EncodedIDSize.
Proof.
  intros Hb. unfold formatID, EncodeToString. rewrite !length_fmap, length_digits, Hb. done.
Qed.

(** Every character of a formatted identifier is the lowercase form of a digit. *)
Lemma formatID_chars b :
  ∃ ds, Forall (λ d, 0 <= d < 32) ds ∧ EncodeToString b = b32_char <$> ds
        ∧ formatID b = (λ d, to_lower (b32_char d)) <$> ds.
Proof.
  eexists. split_and!; [by apply digits_range|reflexivity|].
  unfold formatID, EncodeToString. by rewrite <-list_fmap_compose.
Qed.

Lemma formatID_id_chars b : forallb id_char (formatID b) = true.
Proof.
  destruct (formatID_chars b) as (ds & Hd & _ & ->).
  induction Hd as [|d ds Hd _ IH]; [done|].
  rewrite fmap_cons. cbn [forallb]. by rewrite id_char_lower, IH.
Qed.

Lemma formatID_upper b : to_upper <$> formatID b = EncodeToString b.
Proof.
  destruct (formatID_chars b) as (ds & Hd & -> & ->). rewrite <-list_fmap_compose.
  apply list_fmap_ext. intros i d Hi. simpl.
  apply to_upper_lower_char. by eapply Forall_lookup_1 in Hd.
Qed.

Lemma parseID_spec text id : parseID text = Ok id ↔ text = formatID (arr_bytes id).
Proof.
  unfold parseID. split.
  - intros H. go_cases H. bool_prop. apply dec_stable in Heqb2. done.
  - intros ->. rewrite length_formatID by apply length_arr_bytes.
    rewrite formatID_id_chars, formatID_upper, DecodeString_EncodeToString
      by apply length_arr_bytes.
    rewrite length_arr_bytes, arr_copy_bytes.
    rewrite !bool_decide_eq_false_2 by (intros Hn; by apply Hn). done.
Qed.

(** The text can key a map in place of the bytes. *)
Lemma ID_String_inj (a b : ID) : ID_String a = ID_String b → a = b.
Proof.
  unfold ID_String. intros H.
  assert (parseID (formatID (arr_bytes b)) = Ok a) as Ha by by apply parseID_spec.
  assert (parseID (formatID (arr_bytes b)) = Ok b) as Hb by by apply parseID_spec.
  congruence.
Qed.

(** ** Properties *)

(** The accepted text of an identifier is exactly its canonical form: [parseID]
    returns [id] on a text if and only if the text is [formatID] of that identifier, so
    every identifier parses back and no alias (uppercase, padding, stray trailing bits,
    another length) is accepted. *)
Theorem parseID_canonical text id : parseID text = Ok id ↔ text = formatID (arr_bytes id).
Proof. apply parseID_spec. Qed.

(** The text of a concrete identifier, and an alias of it that is refused. *)
Example demo_epoch_text :
  ID_String demo_epoch = ascii_bytes "fiaaaaaaaaaaaaaaaaaaaaaaaaaaaaaaaaaaaaaaaaaaaaaaaaaa".
Proof. vm_compute. reflexivity. Qed.

Example alias_refused :
  parseID (ascii_bytes "fiaaaaaaaaaaaaaaaaaaaaaaaaaaaaaaaaaaaaaaaaaaaaaaaaab") = Err ErrInvalidID.
Proof. vm_compute. reflexivity. Qed.
