(* ===== verification/Sha256.v ===== *)
(** * [crypto/sha256] and [crypto/hmac]

    The two standard-library primitives the program seals its public records
    with, as FIPS 180-4 and RFC 2104 define them, on bytes. Nothing in the
    development assumes a cryptographic property of them: the theorems that
    use them hold for the functions themselves. *)

From S2P Require Import Prelude.

Definition Size : nat := 32.
Definition BlockSize : nat := 64.

(** ** 32-bit words *)
Definition mask : Z := 0xffffffff.
Definition word (z : Z) : Z := Z.land z mask.
Definition add32 (a b : Z) : Z := word (a + b).
Definition rotr (n x : Z) : Z := Z.lor (Z.shiftr x n) (word (Z.shiftl x (32 - n))).
Definition not32 (x : Z) : Z := Z.lxor x mask.

Definition Ch (x y z : Z) : Z := Z.lxor (Z.land x y) (Z.land (not32 x) z).
Definition Maj (x y z : Z) : Z := Z.lxor (Z.lxor (Z.land x y) (Z.land x z)) (Z.land y z).
Definition Sigma0 (x : Z) : Z := Z.lxor (Z.lxor (rotr 2 x) (rotr 13 x)) (rotr 22 x).
Definition Sigma1 (x : Z) : Z := Z.lxor (Z.lxor (rotr 6 x) (rotr 11 x)) (rotr 25 x).
Definition sigma0 (x : Z) : Z := Z.lxor (Z.lxor (rotr 7 x) (rotr 18 x)) (Z.shiftr x 3).
Definition sigma1 (x : Z) : Z := Z.lxor (Z.lxor (rotr 17 x) (rotr 19 x)) (Z.shiftr x 10).

(** The constants are the leading fractional bits of roots of the first primes. *)
Definition is_prime (p : Z) : bool := forallb (λ d, negb (p mod d =? 0)) (seqZ 2 (p - 2)).
Definition primes (n : Z) : list Z := filter (λ p, is_prime p = true) (seqZ 2 n).
(** The integer cube root, bit by bit from [n] down. *)
Fixpoint cube_root (n : nat) (z r : Z) : Z :=
  match n with
  | O => r
  | S n' =>
      let r' := r + 2 ^ Z.of_nat n' in
      cube_root n' z (if r' * r' * r' <=? z then r' else r)
  end.
Definition K256 : list Z := Eval vm_compute in
  (λ p, word (cube_root 36 (p * 2 ^ 96) 0)) <$> primes 310.

(** The eight chaining variables, kept as a record so that rounds stay readable. *)
Record hstate := HState { h_a : Z; h_b : Z; h_c : Z; h_d : Z; h_e : Z; h_f : Z; h_g : Z; h_h : Z }.

Definition H256 : hstate := Eval vm_compute in
  match (λ p, word (Z.sqrt (p * 2 ^ 64))) <$> primes 18 with
  | [a; b; c; d; e; f; g; h] => HState a b c d e f g h
  | _ => HState 0 0 0 0 0 0 0 0
  end.

(** The message schedule, newest word first: [16] block words extended [n] times. *)
Fixpoint schedule (n : nat) (w : list Z) : list Z :=
  match n with
  | O => w
  | S n' =>
      let at' i := nth i w 0 in
      schedule n' (add32 (add32 (sigma1 (at' 1%nat)) (at' 6%nat))
                         (add32 (sigma0 (at' 14%nat)) (at' 15%nat)) :: w)
  end.

Definition round (s : hstate) (kw : Z * Z) : hstate :=
  let '(k, w) := kw in
  let t1 := add32 (add32 (add32 (h_h s) (Sigma1 (h_e s))) (add32 (Ch (h_e s) (h_f s) (h_g s)) k)) w in
  let t2 := add32 (Sigma0 (h_a s)) (Maj (h_a s) (h_b s) (h_c s)) in
  HState (add32 t1 t2) (h_a s) (h_b s) (h_c s) (add32 (h_d s) t1) (h_e s) (h_f s) (h_g s).

(** Four-byte words of a block. *)
Fixpoint words (n : nat) (block : list byte) : list Z :=
  match n with
  | O => []
  | S n' => be_get (take 4 block) :: words n' (drop 4 block)
  end.

Definition compress (s : hstate) (block : list byte) : hstate :=
  let w := rev (schedule 48 (rev (words 16 block))) in
  let r := foldl round s (zip K256 w) in
  HState (add32 (h_a s) (h_a r)) (add32 (h_b s) (h_b r)) (add32 (h_c s) (h_c r)) (add32 (h_d s) (h_d r))
         (add32 (h_e s) (h_e r)) (add32 (h_f s) (h_f r)) (add32 (h_g s) (h_g r)) (add32 (h_h s) (h_h r)).

Definition pad (msg : list byte) : list byte :=
  let n := Z.of_nat (length msg) in
  msg ++ [Byte.x80] ++ replicate (Z.to_nat ((55 - n) mod 64)) Byte.x00 ++ be_put 8 (8 * n).

Fixpoint blocks (n : nat) (s : hstate) (l : list byte) : hstate :=
  match n with
  | O => s
  | S n' => blocks n' (compress s (take 64 l)) (drop 64 l)
  end.

Definition output (s : hstate) : list byte :=
  be_put 4 (h_a s) ++ be_put 4 (h_b s) ++ be_put 4 (h_c s) ++ be_put 4 (h_d s) ++
  be_put 4 (h_e s) ++ be_put 4 (h_f s) ++ be_put 4 (h_g s) ++ be_put 4 (h_h s).

(** [sha256.Sum256]; also the [Sum] of a [sha256.New()] that was written the
    concatenation of its inputs. *)
Definition Sum256 (msg : list byte) : list byte :=
  let p := pad msg in output (blocks (length p / 64) H256 p).

(** [hmac.New(sha256.New, key)] written [msg]. *)
Definition xor_bytes (c : byte) (l : list byte) : list byte :=
  (λ b, z2b (Z.lxor (b2z b) (b2z c))) <$> l.
Definition hmac_sha256 (key msg : list byte) : list byte :=
  let k := if (BlockSize <? length key)%nat then Sum256 key else key in
  let k := k ++ replicate (BlockSize - length k) Byte.x00 in
  Sum256 (xor_bytes Byte.x5c k ++ Sum256 (xor_bytes Byte.x36 k ++ msg)).

Lemma length_Sum256 msg : length (Sum256 msg) = Size.
Proof. unfold Sum256, output. rewrite !length_app, !length_be_put. done. Qed.

Lemma length_hmac key msg : length (hmac_sha256 key msg) = Size.
Proof. apply length_Sum256. Qed.

#[export] Hint Resolve length_Sum256 length_hmac : owntransit.
#[export] Hint Rewrite length_Sum256 length_hmac : len.
#[global] Opaque Sum256 hmac_sha256.

(** ** Published vectors: FIPS 180-4 "abc", the empty message, RFC 4231 case 2 *)

Example Sum256_abc : be_get (Sum256 (ascii_bytes "abc")) =
  0xba7816bf8f01cfea414140de5dae2223b00361a396177a9cb410ff61f20015ad.
Proof. vm_compute. reflexivity. Qed.

Example Sum256_empty : be_get (Sum256 []) =
  0xe3b0c44298fc1c149afbf4c8996fb92427ae41e4649b934ca495991b7852b855.
Proof. vm_compute. reflexivity. Qed.

Example hmac_jefe :
  be_get (hmac_sha256 (ascii_bytes "Jefe") (ascii_bytes "what do ya want for nothing?")) =
  0x5bdcc146bf60754e6a042426089575c75a003f089d2739839dec58b964ec3843.
Proof. vm_compute. reflexivity. Qed.
