(* ===== verification/Names.v ===== *)
(** * TLS identity names: [internal/config/config.go], lines 926-1045

    The DNS names that bind a certificate to an installation, a route and a credential
    epoch, and their parsers. The compatibility suffixes are those of
    [internal/wireprofile]. *)

From S2P Require Import Prelude GoIO Protocol Identifiers Text.

Definition LegacyV1IdentityPrefix : list byte := ascii_bytes "fg-".
Definition LegacyV1ConnectorSuffix : list byte := ascii_bytes ".connector.forthgate.invalid".
Definition LegacyV1OuterConnectorSuffix : list byte := ascii_bytes ".outer-connector.forthgate.invalid".
Definition LegacyV1ClientSuffix : list byte := ascii_bytes ".client.forthgate.invalid".
Definition LegacyV1OuterClientSuffix : list byte := ascii_bytes ".outer-client.forthgate.invalid".

Definition dot : byte := Byte.x2e.
(** The labels that end a capability name. *)
Definition cap_suffix : list byte := ascii_bytes ".client-cap.v1.owntransit.invalid".

Definition ConnectorDNSName (route : RouteID) : list byte :=
  LegacyV1IdentityPrefix ++ RouteID_String route ++ LegacyV1ConnectorSuffix.
Definition CapabilityConnectorDNSName (connectorID : ID) (route : RouteID) : list byte :=
  ascii_bytes "i-" ++ ID_String connectorID ++ ascii_bytes ".r-" ++ RouteID_String route
  ++ ascii_bytes ".connector.v1.owntransit.invalid".
Definition ClientCapabilityDNSName (clientID connectorID : ID) (route : RouteID) (epoch : Z) : list byte :=
  ascii_bytes "i-" ++ ID_String clientID ++ ascii_bytes ".r-" ++ RouteID_String route
  ++ ascii_bytes ".c-" ++ ID_String connectorID ++ ascii_bytes ".e-" ++ hex_put 16 epoch ++ cap_suffix.

Inductive name_err := ErrSuffix | ErrClientID | ErrRoute | ErrConnectorID | ErrEpoch | ErrNotCanonical
  | ErrOuterClient | ErrInnerClient | ErrInstallationMismatch.
#[export] Instance name_err_eq_dec : EqDecision name_err.
Proof. solve_decision. Defined.

(** [parseNonzeroInstallationID] *)
Definition parseNonzeroInstallationID (encoded : list byte) : option ID :=
  match ParseID encoded with
  | Ok id => if bool_decide (id = arr_zero IDSize) then None else Some id
  | Err _ => None
  end.
Definition parseCapabilityIDLabel (label prefix : list byte) : option ID :=
  match CutPrefix label prefix with
  | None => None
  | Some encoded => parseNonzeroInstallationID encoded
  end.
Definition parseCapabilityRouteLabel (label : list byte) : option RouteID :=
  match CutPrefix label (ascii_bytes "r-") with
  | None => None
  | Some encoded =>
      match ParseRouteID encoded with
      | Ok route => if bool_decide (route = arr_zero IDSize) then None else Some route
      | Err _ => None
      end
  end.

Definition ParseClientCapabilityDNSName (name : list byte) : result name_err (ID * ID * RouteID * Z) :=
  match Split dot name with
  | [l0; l1; l2; l3; l4; l5; l6; l7] =>
      reject negb (bool_decide ([l4; l5; l6; l7] = [ascii_bytes "client-cap"; ascii_bytes "v1";
                                                    ascii_bytes "owntransit"; ascii_bytes "invalid"]))
        with ErrSuffix;;
      match parseCapabilityIDLabel l0 (ascii_bytes "i-") with
      | None => Err ErrClientID
      | Some clientID =>
          match parseCapabilityRouteLabel l1 with
          | None => Err ErrRoute
          | Some route =>
              match parseCapabilityIDLabel l2 (ascii_bytes "c-") with
              | None => Err ErrConnectorID
              | Some connectorID =>
                  match CutPrefix l3 (ascii_bytes "e-") with
                  | None => Err ErrEpoch
                  | Some encoded =>
                      reject negb (length encoded =? 16)%nat with ErrEpoch;;
                      match ParseUint16 encoded with
                      | None => Err ErrEpoch
                      | Some epoch =>
                          reject (epoch =? 0) || negb (bool_decide (hex_put 16 epoch = encoded))
                            with ErrEpoch;;
                          reject negb (bool_decide
                            (ClientCapabilityDNSName clientID connectorID route epoch = name))
                            with ErrNotCanonical;;
                          Ok (clientID, connectorID, route, epoch)
                      end
                  end
              end
          end
      end
  | _ => Err ErrSuffix
  end.

Definition OuterConnectorDNSName (route : RouteID) : list byte :=
  LegacyV1IdentityPrefix ++ RouteID_String route ++ LegacyV1OuterConnectorSuffix.
Definition ClientDNSName (id : ID) : list byte :=
  LegacyV1IdentityPrefix ++ ID_String id ++ LegacyV1ClientSuffix.
Definition OuterClientDNSName (id : ID) : list byte :=
  LegacyV1IdentityPrefix ++ ID_String id ++ LegacyV1OuterClientSuffix.

Definition parseClientDNSName (name suffix : list byte) : option ID :=
  match CutPrefix name LegacyV1IdentityPrefix with
  | None => None
  | Some encoded =>
      match CutSuffix encoded suffix with
      | None => None
      | Some encoded => parseNonzeroInstallationID encoded
      end
  end.

Definition ParseClientInstallationID (outerDNSName innerDNSName : list byte) : result name_err ID :=
  match parseClientDNSName outerDNSName LegacyV1OuterClientSuffix with
  | None => Err ErrOuterClient
  | Some outer =>
      match parseClientDNSName innerDNSName LegacyV1ClientSuffix with
      | None => Err ErrInnerClient
      | Some inner =>
          reject bool_decide (outer ≠ inner) with ErrInstallationMismatch;;
          Ok outer
      end
  end.

(** ** Lemmas *)

Lemma parseNonzeroInstallationID_Some text id :
  parseNonzeroInstallationID text = Some id ↔ text = ID_String id ∧ id ≠ arr_zero IDSize.
Proof.
  unfold parseNonzeroInstallationID, ParseID, ID_String. split.
  - destruct (parseID text) as [i|] eqn:E; [|done]. case_bool_decide; [done|]. intros [= <-].
    by apply parseID_spec in E.
  - intros [-> Hz]. rewrite (proj2 (parseID_spec _ id) eq_refl). by rewrite bool_decide_eq_false_2.
Qed.

Lemma id_char_dot : id_char dot = false.
Proof. reflexivity. Qed.
Lemma ID_String_no_dot (id : arr IDSize) : dot ∉ formatID (arr_bytes id).
Proof.
  intros Hd. pose proof (formatID_id_chars (arr_bytes id)) as Hf.
  rewrite forallb_forall in Hf. specialize (Hf dot). rewrite id_char_dot in Hf.
  discriminate Hf. by apply list_elem_of_In.
Qed.

Lemma route_label_Some label route :
  parseCapabilityRouteLabel label = Some route ↔
  label = ascii_bytes "r-" ++ RouteID_String route ∧ route ≠ arr_zero IDSize.
Proof.
  unfold parseCapabilityRouteLabel, ParseRouteID, RouteID_String. split.
  - destruct (CutPrefix _ _) as [e|] eqn:Ec; [|done]. apply CutPrefix_Some in Ec as ->.
    destruct (parseID e) as [i|] eqn:E; [|done]. case_bool_decide; [done|]. intros [= <-].
    by apply parseID_spec in E as ->.
  - intros [-> Hz]. rewrite (proj2 (CutPrefix_Some _ _ _) eq_refl).
    rewrite (proj2 (parseID_spec _ route) eq_refl). by rewrite bool_decide_eq_false_2.
Qed.

Lemma id_label_Some label prefix id :
  parseCapabilityIDLabel label prefix = Some id ↔ label = prefix ++ ID_String id ∧ id ≠ arr_zero IDSize.
Proof.
  unfold parseCapabilityIDLabel. split.
  - destruct (CutPrefix _ _) as [e|] eqn:Ec; [|done]. apply CutPrefix_Some in Ec as ->.
    by intros [-> ?]%parseNonzeroInstallationID_Some.
  - intros [-> Hz]. rewrite (proj2 (CutPrefix_Some _ _ _) eq_refl).
    by apply parseNonzeroInstallationID_Some.
Qed.

Lemma no_dot_app (l k : list byte) : dot ∉ l → dot ∉ k → dot ∉ l ++ k.
Proof. rewrite elem_of_app. tauto. Qed.

(** The labels of a capability name. *)
Lemma Split_capability clientID connectorID route epoch :
  Split dot (ClientCapabilityDNSName clientID connectorID route epoch)
  = [ascii_bytes "i-" ++ ID_String clientID; ascii_bytes "r-" ++ RouteID_String route;
     ascii_bytes "c-" ++ ID_String connectorID; ascii_bytes "e-" ++ hex_put 16 epoch;
     ascii_bytes "client-cap"; ascii_bytes "v1"; ascii_bytes "owntransit"; ascii_bytes "invalid"].
Proof.
  assert (∀ p (id : arr IDSize), dot ∉ p → dot ∉ p ++ formatID (arr_bytes id)) as Hid
    by (intros; apply no_dot_app; [done|apply ID_String_no_dot]).
  unfold ClientCapabilityDNSName, ID_String, RouteID_String.
  transitivity (Split dot ((ascii_bytes "i-" ++ formatID (arr_bytes clientID)) ++ dot ::
    (ascii_bytes "r-" ++ formatID (arr_bytes route)) ++ dot ::
    (ascii_bytes "c-" ++ formatID (arr_bytes connectorID)) ++ dot ::
    (ascii_bytes "e-" ++ hex_put 16 epoch) ++ cap_suffix)).
  { f_equal. }
  assert (∀ p, forallb (λ c, negb (bool_decide (c = dot))) p = true → dot ∉ p) as Hlit.
  { intros p Hp Hd. rewrite forallb_forall in Hp. apply list_elem_of_In, Hp in Hd. by bool_prop. }
  rewrite !Split_label by (apply Hid, Hlit; reflexivity). unfold cap_suffix.
  assert (dot ∉ ascii_bytes "e-" ++ hex_put 16 epoch) as He
    by (apply no_dot_app; [by apply Hlit|by apply hex_put_no_char]).
  change (ascii_bytes ".client-cap.v1.owntransit.invalid") with
    (dot :: ascii_bytes "client-cap.v1.owntransit.invalid").
  rewrite Split_label by done. reflexivity.
Qed.

Lemma ParseClientCapabilityDNSName_spec name clientID connectorID route epoch :
  ParseClientCapabilityDNSName name = Ok (clientID, connectorID, route, epoch) ↔
  name = ClientCapabilityDNSName clientID connectorID route epoch
  ∧ clientID ≠ arr_zero IDSize ∧ connectorID ≠ arr_zero IDSize ∧ route ≠ arr_zero IDSize
  ∧ 0 < epoch < 2 ^ 64.
Proof.
  split.
  - unfold ParseClientCapabilityDNSName. intros H. go_cases H. bool_prop.
    repeat match goal with
    | H : parseCapabilityIDLabel _ _ = Some _ |- _ => apply id_label_Some in H as [? ?]
    | H : parseCapabilityRouteLabel _ = Some _ |- _ => apply route_label_Some in H as [? ?]
    end.
    match goal with H : ParseUint16 ?e = Some epoch |- _ =>
      assert (0 <= epoch < 2 ^ 64) as Hr by (by eapply ParseUint16_range) end.
    bool_prop. split_and!; try done; try lia.
  - intros (-> & Hc & Hk & Hr & He). unfold ParseClientCapabilityDNSName. rewrite Split_capability.
    rewrite bool_decide_eq_true_2 by done. cbn [negb].
    rewrite (proj2 (id_label_Some _ (ascii_bytes "i-") clientID)) by done.
    rewrite (proj2 (route_label_Some _ route)) by done.
    rewrite (proj2 (id_label_Some _ (ascii_bytes "c-") connectorID)) by done.
    rewrite (proj2 (CutPrefix_Some _ _ _) eq_refl), length_hex_put. cbn [Nat.eqb negb].
    rewrite ParseUint16_put by (split; lia || (change (16 ^ Z.of_nat 16) with (2 ^ 64); lia)).
    rewrite !bool_decide_eq_true_2 by done.
    destruct (Z.eqb_spec epoch 0); [lia|done].
Qed.

(** ** Properties *)

(** A capability name is accepted exactly when it is the one name that
    [ClientCapabilityDNSName] emits for nonzero identifiers and a nonzero 64-bit epoch: a
    name has one reading, and nothing but the emitted spelling is read. *)
Theorem ParseClientCapabilityDNSName_canonical name clientID connectorID route epoch :
  ParseClientCapabilityDNSName name = Ok (clientID, connectorID, route, epoch) ↔
  name = ClientCapabilityDNSName clientID connectorID route epoch
  ∧ clientID ≠ arr_zero IDSize ∧ connectorID ≠ arr_zero IDSize ∧ route ≠ arr_zero IDSize
  ∧ 0 < epoch < 2 ^ 64.
Proof. apply ParseClientCapabilityDNSName_spec. Qed.

(** The two role names of a client bind one installation: they are accepted together
    exactly when both are the canonical names of the same nonzero identifier, and neither
    role's name is ever read as the other's. *)
Theorem ParseClientInstallationID_binds outer inner id :
  (ParseClientInstallationID outer inner = Ok id ↔
     outer = OuterClientDNSName id ∧ inner = ClientDNSName id ∧ id ≠ arr_zero IDSize)
  ∧ ParseClientInstallationID (ClientDNSName id) inner = Err ErrOuterClient.
Proof.
  assert (∀ n s i, parseClientDNSName n s = Some i ↔
    n = LegacyV1IdentityPrefix ++ ID_String i ++ s ∧ i ≠ arr_zero IDSize) as Hp.
  { intros n s i. unfold parseClientDNSName. split.
    - destruct (CutPrefix n _) as [e|] eqn:E1; [|done]. apply CutPrefix_Some in E1 as ->.
      destruct (CutSuffix e s) as [t|] eqn:E2; [|done]. apply CutSuffix_Some in E2 as ->.
      by intros [-> ?]%parseNonzeroInstallationID_Some.
    - intros [-> Hz]. rewrite (proj2 (CutPrefix_Some _ _ _) eq_refl).
      rewrite (proj2 (CutSuffix_Some _ _ _) eq_refl). by apply parseNonzeroInstallationID_Some. }
  split; [split|].
  - unfold ParseClientInstallationID. intros H. go_cases H.
    repeat match goal with H : parseClientDNSName _ _ = Some _ |- _ => apply Hp in H as [-> ?] end.
    bool_prop. match goal with H : ¬ (_ ≠ _) |- _ => apply dec_stable in H end. by subst.
  - intros (-> & -> & Hz). unfold ParseClientInstallationID.
    rewrite !(proj2 (Hp _ _ id)) by done. by rewrite bool_decide_eq_false_2 by (intros Hn; by apply Hn).
  - unfold ParseClientInstallationID. destruct (parseClientDNSName _ _) as [i|] eqn:E; [|done].
    apply Hp in E as [E _]. apply (f_equal length) in E.
    unfold ClientDNSName, ID_String in E. revert E.
    rewrite !length_app, !length_formatID by apply length_arr_bytes. discriminate.
Qed.
