(* ===== verification/LeaseWire.v ===== *)
(** * Lease frames: [internal/leasewire/wire.go]

    DATA and authorization controls inside the authenticated inner TLS stream,
    and the digest that binds every control to one session and direction. *)

From S2P Require Import Prelude GoIO Sha256.

Definition ALPN : list byte := ascii_bytes "owntransit-paired-lease/1".

Definition wireVersion : byte := Byte.x01.
Definition headerSize : nat := 8.
Definition maxData : Z := 16 * 1024.
Definition challengeSize : Z := 80.
Definition grantSize : Z := 88.
Definition lockSize : Z := 40.
Definition kindData : byte := Byte.x01.
Definition kindChallenge : byte := Byte.x02.
Definition kindGrant : byte := Byte.x03.
Definition kindLock : byte := Byte.x04.

Inductive lease_err :=
| ErrProtocol
| ErrExpired
| ErrLocked
| ErrPeerLock
| ErrPolicy
| ErrClock
| ErrIO (e : io_err)
| ErrContext.
#[export] Instance lease_err_eq_dec : EqDecision lease_err.
Proof. solve_decision. Defined.

(** ** Context *)

Record Context := MkContext {
  PairID : list byte;
  LocalID : list byte;
  PeerID : list byte;
  SessionBinding : list byte }.

Definition id_char (ch : byte) : bool :=
  ((97 <=? b2z ch) && (b2z ch <=? 122)) || ((48 <=? b2z ch) && (b2z ch <=? 57))
  || bool_decide (ch = Byte.x2d).

Definition validID (value : list byte) : bool :=
  let n := Z.of_nat (length value) in
  if (n =? 0) || (128 <? n) then false else forallb id_char value.

Definition validate (value : Context) : option lease_err :=
  if negb (validID (PairID value)) || negb (validID (LocalID value)) || negb (validID (PeerID value))
     || bool_decide (LocalID value = PeerID value)
     || negb (Nat.eqb (length (SessionBinding value)) Size)
  then Some ErrProtocol else None.

(** [size[0:2] = uint16(len(item))] followed by the item. *)
Definition counted (item : list byte) : list byte :=
  be_put 2 (Z.of_nat (length item)) ++ item.

(** The bytes hashed for one direction of a session. *)
Definition contextInput (value : Context) (outbound : bool) : list byte :=
  let '(sender, recipient) :=
    if outbound then (LocalID value, PeerID value) else (PeerID value, LocalID value) in
  ascii_bytes "OwnTransit lease context v1" ++ [Byte.x00]
  ++ concat (counted <$> [ALPN; PairID value; sender; recipient])
  ++ SessionBinding value.

Definition contextDigest (value : Context) (outbound : bool) : arr 32 :=
  arr_copy 32 (Sum256 (contextInput value outbound)).

(** ** Frames *)

Record frame := MkFrame { kind : byte; data : list byte }.
#[export] Instance frame_eq_dec : EqDecision frame.
Proof. solve_decision. Defined.

Definition validSize (k : byte) (size : Z) : bool :=
  match k with
  | Byte.x01 => (0 <? size) && (size <=? maxData)
  | Byte.x02 => size =? challengeSize
  | Byte.x03 => size =? grantSize
  | Byte.x04 => size =? lockSize
  | _ => false
  end.

(** A frame the writer would accept. *)
Definition frame_ok (f : frame) : bool := validSize (kind f) (Z.of_nat (length (data f))).

Definition readFrame (r : reader) : result lease_err frame * reader :=
  match read_full headerSize r with
  | (Err e, r1) => (Err (ErrIO e), r1)
  | (Ok header, r1) =>
      let size := be_get (drop 6 header) in
      let k := nth 5 header Byte.x00 in
      if bool_decide (take 4 header ≠ ascii_bytes "OTLW")
         || bool_decide (nth 4 header Byte.x00 ≠ wireVersion) || negb (validSize k size)
      then (Err ErrProtocol, r1)
      else match read_full (Z.to_nat size) r1 with
           | (Err e, r2) => (Err (ErrIO e), r2)
           | (Ok d, r2) => (Ok (MkFrame k d), r2)
           end
  end.

Definition frame_header (f : frame) : list byte :=
  ascii_bytes "OTLW" ++ [wireVersion; kind f] ++ be_put 2 (Z.of_nat (length (data f))).

(** The bytes taken from the header, then from the data, and the error. *)
Definition writeFrame (w : writer) (f : frame) : list byte * option lease_err * writer :=
  if negb (frame_ok f) then ([], Some ErrProtocol, w)
  else match write_full w (frame_header f) with
       | (out, Some e, w1) => (out, Some (ErrIO e), w1)
       | (out, None, w1) =>
           let '(out2, e, w2) := write_full w1 (data f) in (out ++ out2, ErrIO <$> e, w2)
       end.

(** ** Lemmas *)

Definition encode (f : frame) : list byte := frame_header f ++ data f.

Lemma length_frame_header f : length (frame_header f) = headerSize.
Proof. unfold frame_header. by rewrite !length_app, length_be_put. Qed.

(** A valid size fits the two-byte length field. *)
Lemma validSize_range k n : validSize k n = true → 0 < n <= maxData.
Proof.
  unfold validSize, maxData, challengeSize, grantSize, lockSize.
  destruct k; try done; intros H; bool_prop; lia.
Qed.

Lemma readFrame_header f l :
  frame_ok f = true →
  let h := take headerSize (encode f ++ l) in
  h = frame_header f ∧ be_get (drop 6 h) = Z.of_nat (length (data f)).
Proof.
  intros Hf%validSize_range h. unfold h, encode.
  rewrite <-app_assoc, take_app_le by (by rewrite length_frame_header).
  rewrite take_ge by (by rewrite length_frame_header). split; [done|].
  unfold frame_header. change (drop 6 _) with (be_put 2 (Z.of_nat (length (data f)))).
  rewrite be_get_put. apply Z.mod_small. unfold maxData in Hf. lia.
Qed.

(** An accepted header is the canonical header of its kind and size. *)
Lemma readFrame_header_inv header d :
  length header = headerSize →
  take 4 header = ascii_bytes "OTLW" → nth 4 header Byte.x00 = wireVersion →
  length d = Z.to_nat (be_get (drop 6 header)) →
  header = frame_header (MkFrame (nth 5 header Byte.x00) d).
Proof.
  intros Hl Hm Hv Hd. do 8 (destruct header as [|? header]; [done|]).
  destruct header; [|done]. cbn in Hm, Hv. injection Hm as -> -> -> ->. subst.
  cbn [drop nth] in *. unfold frame_header; cbn [kind data]. rewrite Hd.
  pose proof (be_get_range [b5; b6]). rewrite Z2Nat.id by lia.
  change (be_put 2 (be_get [b5; b6])) with (be_put (length [b5; b6]) (be_get [b5; b6])).
  by rewrite be_put_get.
Qed.

(** [counted] fields can be cut off the front of a byte string: they are a
    prefix code as long as the items fit the two-byte length. *)
Lemma counted_inj a b x y :
  Z.of_nat (length a) < 65536 → Z.of_nat (length b) < 65536 →
  counted a ++ x = counted b ++ y → a = b ∧ x = y.
Proof.
  unfold counted. rewrite <-!app_assoc. intros Ha Hb H.
  apply app_inj_1 in H as [Hl H]; [|by rewrite !length_be_put].
  apply (f_equal be_get) in Hl. rewrite !be_get_put, !Z.mod_small in Hl by lia.
  apply app_inj_1 in H as [-> ->]; [done|lia].
Qed.

Lemma validID_length id : validID id = true → Z.of_nat (length id) < 65536.
Proof. unfold validID. case_match; [done|]. bool_prop. lia. Qed.

Lemma validate_ok c :
  validate c = None → validID (PairID c) = true ∧ validID (LocalID c) = true
  ∧ validID (PeerID c) = true ∧ LocalID c ≠ PeerID c ∧ length (SessionBinding c) = Size.
Proof.
  unfold validate. case_match eqn:E; [done|]. intros _. bool_prop.
  apply Nat.eqb_eq in H0. done.
Qed.

(** The same session seen from the other endpoint. *)
Definition swap (c : Context) : Context :=
  MkContext (PairID c) (PeerID c) (LocalID c) (SessionBinding c).

Lemma readFrame_complete f rest r :
  frame_ok f = true → rclean r → rbytes r = encode f ++ rest →
  ∃ r', readFrame r = (Ok f, r') ∧ rbytes r' = rest ∧ rclean r'.
Proof.
  intros Hf Hc Hr. pose proof (readFrame_header f rest Hf) as [Hh Hs].
  destruct (read_full_enough headerSize r Hc) as (r1 & E1 & R1 & C1).
  { rewrite Hr. unfold encode. rewrite !length_app, length_frame_header. lia. }
  rewrite Hr in E1, R1. rewrite Hh in Hs, E1.
  assert (rbytes r1 = data f ++ rest) as Hr1.
  { rewrite R1. unfold encode. by rewrite <-app_assoc, <-(length_frame_header f), drop_app_length. }
  destruct (read_full_enough (length (data f)) r1 C1) as (r2 & E2 & R2 & C2).
  { rewrite Hr1, length_app. lia. }
  exists r2. unfold readFrame. rewrite E1, Hs, Nat2Z.id, E2.
  change (nth 5 (frame_header f) Byte.x00) with (kind f). unfold frame_ok in Hf. rewrite Hf.
  rewrite R2, Hr1, take_app_length, drop_app_length. by destruct f.
Qed.

Lemma readFrame_sound r f r' :
  readFrame r = (Ok f, r') → frame_ok f = true ∧ rbytes r = encode f ++ rbytes r'.
Proof.
  unfold readFrame. destruct (read_full headerSize r) as [[h|e] r1] eqn:E1; [|done].
  apply read_full_ok in E1 as [Hl ->].
  destruct (_ || _) eqn:Eb; [done|]. bool_prop.
  apply dec_stable in H, H1.
  destruct (read_full _ r1) as [[d|e] r2] eqn:E2; [|done].
  apply read_full_ok in E2 as [Hd ->]. intros [= <- <-].
  pose proof (readFrame_header_inv h d Hl H H1 Hd) as Hh.
  split.
  - unfold frame_ok; cbn [kind data]. rewrite Hd, Z2Nat.id; [done|]. apply be_get_range.
  - unfold encode. by rewrite app_assoc, <-Hh.
Qed.

(** ** Properties *)

(** Lease frames are read exactly: when [readFrame] returns a frame, its kind and size
    are admissible and the bytes consumed are exactly its encoding; and from any error-free
    stream that starts with the encoding of an admissible frame it returns that frame and
    leaves the following bytes. *)
Theorem readFrame_exact r f :
  (∀ r', readFrame r = (Ok f, r') → frame_ok f = true ∧ rbytes r = encode f ++ rbytes r')
  ∧ (rclean r → frame_ok f = true → ∀ rest, rbytes r = encode f ++ rest →
     ∃ r', readFrame r = (Ok f, r') ∧ rbytes r' = rest ∧ rclean r').
Proof.
  split; [intros r'; apply readFrame_sound|]. intros Hc Hf rest. by apply readFrame_complete.
Qed.

(** Direction separation: what one endpoint hashes for its outbound direction is what
    the other hashes for its inbound direction, and for a valid context the two directions
    of one endpoint never hash the same input. So a control cannot be reflected to its
    sender without a SHA-256 collision. *)
Theorem contextDigest_directions c :
  validate c = None →
  contextDigest c true = contextDigest (swap c) false
  ∧ contextDigest c false = contextDigest (swap c) true
  ∧ contextInput c true ≠ contextInput c false.
Proof.
  intros Hv. apply validate_ok in Hv as (_ & Hl & Hp & Hne & _).
  split; [done|]. split; [done|]. unfold contextInput. intros H.
  apply app_inv_head, app_inv_head in H. cbn [fmap list_fmap concat] in H.
  rewrite <-!app_assoc in H. do 2 apply app_inv_head in H.
  apply counted_inj in H as [H _]; [done|by apply validID_length..].
Qed.

(** ** Witnesses *)

Definition demo_context : Context :=
  MkContext (ascii_bytes "pair-1") (ascii_bytes "client-a") (ascii_bytes "target-b")
    (replicate 32 Byte.x5a).

Lemma contextDigest_directions_witness :
  validate demo_context = None ∧ contextInput demo_context true ≠ contextInput demo_context false.
Proof.
  assert (validate demo_context = None) as H by (vm_compute; reflexivity).
  split; [exact H|]. apply (contextDigest_directions demo_context H).
Defined.

Definition demo_frame : frame := MkFrame kindData (ascii_bytes "SSH-2.0").
Definition demo_wire : reader := [(take 5 (encode demo_frame), None); (drop 5 (encode demo_frame), None)].

Lemma readFrame_exact_witness :
  ∃ r', readFrame demo_wire = (Ok demo_frame, r') ∧ rbytes r' = [] ∧ rclean r'.
Proof.
  apply (readFrame_exact demo_wire demo_frame).
  - repeat constructor.
  - vm_compute. reflexivity.
  - vm_compute. reflexivity.
Defined.
