(* ===== verification/LeaseConn.v ===== *)
(** * Leased connections: [internal/leasewire/conn.go]

    The authorization state machine around one authenticated inner stream. Every
    function below is one critical section of [Conn] (the code between [mu.Lock] and
    [mu.Unlock], with the calls it makes); the goroutines [readLoop], [writeLoop],
    [watchLoop] and [policyLoop] and the application's [Read] and [Write] are sequences
    of such sections, and [step] interleaves them. Clock readings, policy results,
    random nonces and received frames are inputs of a step. *)

From S2P Require Import Prelude GoIO Sha256 LeaseWire.

(** ** Time

    [time.Now] carries a monotonic and a wall reading; [Add] moves both, [Sub] and
    [Before] compare the monotonic one, [UnixNano] reads the wall. *)
Record instant := Instant { mono : Z; unixNano : Z }.
Definition after (t : instant) (d : Z) : instant := Instant (mono t + d) (unixNano t + d).
Definition before (a b : instant) : bool := mono a <? mono b.
Definition sat64 (z : Z) : Z := Z.max (- 2^63) (Z.min max_int64 z).
Definition sub (a b : instant) : Z := sat64 (mono a - mono b).

Definition MaxLeaseDuration : Z := 60 * Second.
Definition MaxRenewEvery : Z := 20 * Second.
Definition clockTolerance : Z := 250 * Millisecond.

(** What one call of [options.Policy] returns. *)
Record policy := Policy { generation : Z; locked : bool; failed : bool }.

(** A queued frame; DATA requests carry the identity of their result channel. *)
Record request := Request { rframe : frame; result_id : option nat }.

(** Where the reader and writer goroutines stand between critical sections. *)
Inductive reader_pc :=
| RIdle
| RGotData (d : list byte)    (* read from the transport *)
| RPoliced (d : list byte)    (* checkPolicy passed *)
| RWaiting (d : list byte)    (* a lease was present *)
| RReady (d : list byte)      (* c.ready was closed *)
| RDeliver (d : list byte)    (* authorized passed *)
| RStopped.
Inductive writer_pc :=
| WIdle
| WTaken (q : request)
| WPoliced (q : request)
| WAuthorized (q : request)
| WArmed (q : request) (deadline : instant)  (* SetWriteDeadline(deadline) *)
| WSent (q : request)
| WStopped.

Record conn := Conn {
  leaseDuration : Z;
  renewEvery : Z;
  outbound : arr 32;
  inbound : arr 32;
  localGeneration : Z;
  err : option lease_err;                  (* done is closed iff this is set *)
  lastClock : instant;
  lastWall : Z;
  initialDeadline : instant;
  leaseDeadline : option instant;          (* None: the zero time *)
  nextRenew : option instant;
  pending : bool;
  nonce : arr 32;
  challengeIssued : option instant;
  peerGeneration : Z;
  lastPeerNonce : option (arr 32);         (* with havePeerNonce *)
  grantSent : bool;
  readyClosed : bool;
  control : list request;
  writes : list request;
  data_ch : list (list byte);
  readBuffer : list byte;
  rpc : reader_pc;
  wpc : writer_pc }.

#[export] Instance eta_conn : Eta conn := λ c,
  Conn (leaseDuration c) (renewEvery c) (outbound c) (inbound c) (localGeneration c) (err c)
    (lastClock c) (lastWall c) (initialDeadline c) (leaseDeadline c) (nextRenew c) (pending c)
    (nonce c) (challengeIssued c) (peerGeneration c) (lastPeerNonce c) (grantSent c)
    (readyClosed c) (control c) (writes c) (data_ch c) (readBuffer c) (rpc c) (wpc c).

Definition control_cap : nat := 4.
Definition writes_cap : nat := 8.
Definition data_cap : nat := 8.

(** ** Critical sections *)

(** The first error wins; [done] is closed once. *)
Definition stop (e : lease_err) (c : conn) : conn :=
  match err c with
  | Some _ => c
  | None => c <| err := Some e |>
  end.

Definition checkPolicy (p : policy) (c : conn) : option lease_err :=
  if locked p then Some ErrLocked
  else if failed p || negb (generation p =? localGeneration c) then Some ErrPolicy
  else None.

Definition clockLocked (now : instant) (c : conn) : conn * option lease_err :=
  let elapsed := sub now (lastClock c) in
  let wall := wrap64 (unixNano now - lastWall c) in
  if (elapsed <? 0) || (wall <? 0) || (clockTolerance <? wrap64 (wall - elapsed))
     || (clockTolerance <? wrap64 (elapsed - wall))
  then (c, Some ErrClock)
  else (c <| lastClock := now |> <| lastWall := unixNano now |>, None).

(** The deadline in force: the granted lease, or the opening budget before one. *)
Definition deadline_of (c : conn) : instant := default (initialDeadline c) (leaseDeadline c).

Definition liveLocked (now : instant) (c : conn) : conn * option lease_err :=
  match err c with
  | Some e => (c, Some e)
  | None =>
      match clockLocked now c with
      | (c, Some e) => (c, Some e)
      | (c, None) =>
          let deadline := deadline_of c in
          if negb (before now deadline) || (unixNano deadline <=? unixNano now)
          then (c, Some ErrExpired) else (c, None)
      end
  end.

Definition authorized (now : instant) (c : conn) : conn * option lease_err :=
  let '(c, e) := liveLocked now c in
  let e := match e with
           | Some e => Some e
           | None => if negb (readyClosed c) || bool_decide (leaseDeadline c = None)
                     then Some ErrProtocol else None
           end in
  match e with
  | Some e => (stop e c, Some e)
  | None => (c, None)
  end.

Definition markReadyLocked (c : conn) : conn :=
  if negb (readyClosed c) && grantSent c && bool_decide (leaseDeadline c ≠ None)
  then c <| readyClosed := true |> else c.

(** Non-blocking send on the control channel. *)
Definition enqueueControl (f : frame) (c : conn) : conn * option lease_err :=
  match err c with
  | Some e => (c, Some e)
  | None =>
      if (length (control c) <? control_cap)%nat
      then (c <| control := control c ++ [Request f None] |>, None)
      else (c, Some ErrProtocol)
  end.

(** context || generation || nonce || requested nanoseconds *)
Definition challenge_frame (c : conn) (n : arr 32) : frame :=
  MkFrame kindChallenge (arr_bytes (outbound c) ++ be_put 8 (localGeneration c)
                         ++ arr_bytes n ++ be_put 8 (leaseDuration c)).

(** context || own generation || requester's generation || nonce || granted nanoseconds *)
Definition grant_frame (c : conn) (gen : Z) (n : arr 32) (granted : Z) : frame :=
  MkFrame kindGrant (arr_bytes (outbound c) ++ be_put 8 (localGeneration c) ++ be_put 8 gen
                     ++ arr_bytes n ++ be_put 8 granted).

(** [rand] is [None] when the random source fails. *)
Definition beginChallenge (rand : option (arr 32)) (now : instant) (c : conn)
    : conn * option lease_err :=
  match rand with
  | None => (c, Some (ErrIO (ErrOther 0)))
  | Some n =>
      match liveLocked now c with
      | (c, Some e) => (c, Some e)
      | (c, None) =>
          if pending c then (c, None)
          else
            let c := c <| pending := true |> <| nonce := n |> <| challengeIssued := Some now |>
                       <| nextRenew := Some (after now (renewEvery c)) |> in
            enqueueControl (challenge_frame c n) c
      end
  end.

(** [on_peer] is [options.OnPeerGeneration]; it returns true on error. *)
Definition observePeer (on_peer : option (Z → bool)) (gen : Z) (c : conn) : conn * option lease_err :=
  if (gen =? 0) || (gen <? peerGeneration c) then (c, Some ErrProtocol)
  else if gen =? peerGeneration c then (c, None)
  else match on_peer with
       | Some f => if f gen then (c, Some ErrProtocol) else (c <| peerGeneration := gen |>, None)
       | None => (c <| peerGeneration := gen |>, None)
       end.

Definition receiveChallenge (gen : Z) (value : frame) (c : conn) : conn * option lease_err :=
  let n := arr_copy 32 (slice 40 32 (data value)) in
  let requested := be_get (drop 72 (data value)) in
  if (requested =? 0) || (MaxLeaseDuration <? requested) || bool_decide (lastPeerNonce c = Some n)
  then (c, Some ErrProtocol)
  else
    let granted := if leaseDuration c <? requested then leaseDuration c else requested in
    let c := c <| lastPeerNonce := Some n |> in
    enqueueControl (grant_frame c gen n granted) c.

Definition receiveGrant (now : instant) (value : frame) (c : conn) : conn * option lease_err :=
  let granted := be_get (drop 80 (data value)) in
  if (granted =? 0) || (leaseDuration c <? granted) then (c, Some ErrProtocol)
  else match challengeIssued c with
       | None => (c, Some ErrProtocol)
       | Some issued =>
           let deadline := after issued granted in
           if negb (pending c) || negb (be_get (slice 40 8 (data value)) =? localGeneration c)
              || negb (bool_decide (slice 48 32 (data value) = arr_bytes (nonce c)))
              || negb (before now deadline) || (unixNano deadline <=? unixNano now)
           then (c, Some ErrProtocol)
           else
             let next := after issued (granted / 3) in
             let c := c <| leaseDeadline := Some deadline |> in
             let c := match nextRenew c with
                      | Some r => if before next r then c <| nextRenew := Some next |> else c
                      | None => c
                      end in
             (markReadyLocked (c <| pending := false |>), None)
       end.

Definition receiveControl (on_peer : option (Z → bool)) (p : policy) (now : instant) (value : frame)
    (c : conn) : conn * option lease_err :=
  if negb (bool_decide (take 32 (data value) = arr_bytes (inbound c))) then (c, Some ErrProtocol)
  else
    let gen := be_get (slice 32 8 (data value)) in
    match observePeer on_peer gen c with
    | (c, Some e) => (c, Some e)
    | (c, None) =>
        if bool_decide (kind value = kindLock) then (c, Some ErrPeerLock)
        else match checkPolicy p c with
             | Some e => (c, Some e)
             | None =>
                 match liveLocked now c with
                 | (c, Some e) => (c, Some e)
                 | (c, None) =>
                     if bool_decide (kind value = kindChallenge) then receiveChallenge gen value c
                     else if bool_decide (kind value = kindGrant) then receiveGrant now value c
                     else (c, Some ErrProtocol)
                 end
             end
    end.

(** [wrapWithClock] up to the start of the goroutines. [args] says that no argument is
    nil; [start] and [now] are the readings for the record and for [beginChallenge]. *)
Definition wrapWithClock (args ctx_done : bool) (binding : Context) (lease renew : Z) (p : policy)
    (start : instant) (rand : option (arr 32)) (now : instant) : result lease_err conn :=
  if negb args then Err ErrPolicy
  else match validate binding with
       | Some e => Err e
       | None =>
           let lease := if lease =? 0 then MaxLeaseDuration else lease in
           let renew := if renew =? 0 then MaxRenewEvery else renew in
           if (lease <=? 0) || (MaxLeaseDuration <? lease) || (renew <=? 0) || (MaxRenewEvery <? renew)
              || (lease <=? renew) then Err ErrPolicy
           else if ctx_done then Err ErrContext
           else if failed p || (generation p =? 0) then Err ErrPolicy
           else if locked p then Err ErrLocked
           else
             let c := Conn lease renew (contextDigest binding true) (contextDigest binding false)
                        (generation p) None start (unixNano start) (after start lease) None None false
                        (arr_zero 32) None 0 None false false [] [] [] [] RIdle WIdle in
             match beginChallenge rand now c with
             | (c, None) => Ok c
             | (_, Some e) => Err e
             end
       end.

(** ** Goroutine sections *)

(** The reader stops on an error, as [c.stop(err); return]. *)
Definition reader_fail (e : lease_err) (c : conn) : conn := (stop e c) <| rpc := RStopped |>.
Definition writer_fail (e : lease_err) (c : conn) : conn := (stop e c) <| wpc := WStopped |>.

(** [readLoop]: one received frame, or the error of [readFrame]. *)
Definition readLoop_frame (on_peer : option (Z → bool)) (p : policy) (now : instant)
    (received : result lease_err frame) (c : conn) : conn :=
  match received with
  | Err e => reader_fail e c
  | Ok value =>
      if negb (bool_decide (kind value = kindData)) then
        match receiveControl on_peer p now value c with
        | (c, Some e) => reader_fail e c
        | (c, None) => c
        end
      else c <| rpc := RGotData (data value) |>
  end.
Definition readLoop_policy (p : policy) (d : list byte) (c : conn) : conn :=
  match checkPolicy p c with
  | Some e => reader_fail e c
  | None => c <| rpc := RPoliced d |>
  end.
Definition readLoop_lease (d : list byte) (c : conn) : conn :=
  if bool_decide (leaseDeadline c = None) then reader_fail ErrProtocol c
  else c <| rpc := RWaiting d |>.
Definition readLoop_authorized (now : instant) (d : list byte) (c : conn) : conn :=
  match authorized now c with
  | (c, Some _) => c <| rpc := RStopped |>
  | (c, None) => c <| rpc := RDeliver d |>
  end.
Definition readLoop_deliver (d : list byte) (c : conn) : conn :=
  c <| data_ch := data_ch c ++ [d] |> <| rpc := RIdle |>.

(** [writeLoop] *)
Definition is_data (q : request) : bool := bool_decide (kind (rframe q) = kindData).
Definition writeLoop_policy (p : policy) (q : request) (c : conn) : conn :=
  match checkPolicy p c with
  | Some e => writer_fail e c
  | None => if is_data q then c <| wpc := WPoliced q |> else c <| wpc := WAuthorized q |>
  end.
Definition writeLoop_authorized (now : instant) (q : request) (c : conn) : conn :=
  match authorized now c with
  | (c, Some e) => writer_fail e c
  | (c, None) => c <| wpc := WAuthorized q |>
  end.
Definition writeLoop_live (now : instant) (q : request) (c : conn) : conn :=
  match liveLocked now c with
  | (c, Some e) => writer_fail e c
  | (c, None) => c <| wpc := WArmed q (deadline_of c) |>
  end.
(** [res] is the error of [SetWriteDeadline] or [writeFrame]. *)
Definition writeLoop_write (res : option lease_err) (q : request) (c : conn) : conn :=
  match res with
  | Some e => writer_fail e c
  | None => c <| wpc := WSent q |>
  end.
Definition writeLoop_mark (q : request) (c : conn) : conn :=
  let c := if bool_decide (kind (rframe q) = kindGrant)
           then markReadyLocked (c <| grantSent := true |>) else c in
  c <| wpc := WIdle |>.

(** [watchLoop] on a tick; [now2] and [rand] are used only when a renewal is due. *)
Definition watchLoop_tick (now : instant) (rand : option (arr 32)) (now2 : instant) (c : conn) : conn :=
  let '(c, e) := liveLocked now c in
  let renew := match nextRenew c with
               | Some t => bool_decide (e = None) && negb (pending c) && negb (before now t)
               | None => bool_decide (e = None) && negb (pending c)
               end in
  let '(c, e) := if renew then beginChallenge rand now2 c else (c, e) in
  match e with
  | Some e => stop e c
  | None => c
  end.

(** [policyLoop] on a tick. *)
Definition policyLoop_tick (p : policy) (c : conn) : conn :=
  match checkPolicy p c with
  | Some e => stop e c
  | None => c
  end.

(** [Read] with bytes buffered: [authorized], then [copy]. *)
Definition read_copy (now : instant) (n : nat) (c : conn) : conn * result lease_err (list byte) :=
  match authorized now c with
  | (c, Some e) => (c, Err e)
  | (c, None) => (c <| readBuffer := drop n (readBuffer c) |>, Ok (take n (readBuffer c)))
  end.
(** [Read] with an empty buffer takes the next DATA payload. *)
Definition read_fill (c : conn) : conn :=
  match readBuffer c, data_ch c with
  | [], d :: rest => c <| readBuffer := d |> <| data_ch := rest |>
  | _, _ => c
  end.

(** [Write]: the pieces [waitWritable] and [submitData] are called with. *)
Fixpoint write_pieces (fuel : nat) (buffer : list byte) : list (list byte) :=
  match fuel, buffer with
  | S fuel, _ :: _ =>
      take (Z.to_nat maxData) buffer :: write_pieces fuel (drop (Z.to_nat maxData) buffer)
  | _, _ => []
  end.
Definition data_request (id : nat) (piece : list byte) : request :=
  Request (MkFrame kindData piece) (Some id).

(** ** Interleaving *)

(** What a step shows outside the connection. *)
Inductive event :=
| Internal
| Transmit (f : frame) (deadline : instant)  (* writeFrame succeeded under this deadline *)
| Expose (b : list byte) (now : instant).    (* Read returned these bytes *)

Inductive step : conn → event → conn → Prop :=
| S_frame c on_peer p now received :
    rpc c = RIdle → (∀ f, received = Ok f → frame_ok f = true) →
    step c Internal (readLoop_frame on_peer p now received c)
| S_read_policy c p d : rpc c = RGotData d → step c Internal (readLoop_policy p d c)
| S_read_lease c d : rpc c = RPoliced d → step c Internal (readLoop_lease d c)
| S_read_ready c d : rpc c = RWaiting d → readyClosed c = true →
    step c Internal (c <| rpc := RReady d |>)
| S_read_auth c now d : rpc c = RReady d → step c Internal (readLoop_authorized now d c)
| S_read_push c d : rpc c = RDeliver d → (length (data_ch c) < data_cap)%nat →
    step c Internal (readLoop_deliver d c)
| S_read_done c : err c ≠ None → step c Internal (c <| rpc := RStopped |>)
| S_take_control c q rest : wpc c = WIdle → control c = q :: rest →
    step c Internal (c <| control := rest |> <| wpc := WTaken q |>)
| S_take_write c q rest : wpc c = WIdle → writes c = q :: rest →
    step c Internal (c <| writes := rest |> <| wpc := WTaken q |>)
| S_write_policy c p q : wpc c = WTaken q → step c Internal (writeLoop_policy p q c)
| S_write_auth c now q : wpc c = WPoliced q → step c Internal (writeLoop_authorized now q c)
| S_write_live c now q : wpc c = WAuthorized q → step c Internal (writeLoop_live now q c)
| S_write_error c q d e : wpc c = WArmed q d → step c Internal (writeLoop_write (Some e) q c)
| S_write_sent c q d : wpc c = WArmed q d → step c (Transmit (rframe q) d) (writeLoop_write None q c)
| S_write_mark c q : wpc c = WSent q → step c Internal (writeLoop_mark q c)
| S_write_done c : err c ≠ None → wpc c = WIdle → step c Internal (c <| wpc := WStopped |>)
| S_watch c now rand now2 : step c Internal (watchLoop_tick now rand now2 c)
| S_policy c p : step c Internal (policyLoop_tick p c)
| S_stop c e : step c Internal (stop e c)    (* Close, Lock, a cancelled context, a write timeout *)
| S_submit c id piece : frame_ok (MkFrame kindData piece) = true →
    (length (writes c) < writes_cap)%nat →
    step c Internal (c <| writes := writes c ++ [data_request id piece] |>)
| S_fill c : step c Internal (read_fill c)
| S_read c now n : readBuffer c ≠ [] → ∀ b, (read_copy now n c).2 = Ok b →
    step c (Expose b now) (read_copy now n c).1
| S_read_refused c now n : readBuffer c ≠ [] → ∀ e, (read_copy now n c).2 = Err e →
    step c Internal (read_copy now n c).1.

Inductive reachable : conn → Prop :=
| R_wrap args cd b l r p start rand now c :
    wrapWithClock args cd b l r p start rand now = Ok c → reachable c
| R_step c ev c' : reachable c → step c ev c' → reachable c'.
