(* ===== verification/LeaseSafety.v ===== *)
(** * Safety of leased connections

    The invariant of [LeaseConn.step], and what follows from it: no application byte
    moves without mutual readiness and an unexpired lease, and DATA never extends
    a lease. *)

From S2P Require Import Prelude GoIO Sha256 LeaseWire LeaseConn.

(** ** What a clock check may change

    [live_frame c c']: [c'] is [c] with a later clock reading. [stop_frame] also allows
    [err] to be set. Every function below that takes a clock reading is described by one
    of them and its verdict. *)

Definition live_frame (c c' : conn) : Prop :=
  ∃ t w, c' = c <| lastClock := t |> <| lastWall := w |> ∧ mono (lastClock c) <= mono t.
Definition stop_frame (c c' : conn) : Prop :=
  ∃ t w x, c' = c <| lastClock := t |> <| lastWall := w |> <| err := x |>
           ∧ mono (lastClock c) <= mono t ∧ (err c ≠ None → x = err c).

(** A check that let the caller proceed at [now]. *)
Definition live_at (now : instant) (c : conn) : Prop :=
  err c = None ∧ lastClock c = now
  ∧ mono now < mono (deadline_of c) ∧ unixNano now < unixNano (deadline_of c).

Lemma live_frame_refl c : live_frame c c.
Proof. exists (lastClock c), (lastWall c). split; [by destruct c|lia]. Qed.

Lemma live_stop c c' : live_frame c c' → stop_frame c c'.
Proof. intros (t & w & -> & H). exists t, w, (err c). split; [by destruct c|done]. Qed.

Lemma stop_frame_stop e c c' : stop_frame c c' → stop_frame c (stop e c').
Proof.
  intros (t & w & x & -> & H & Hx). exists t, w, (match x with Some x => Some x | None => Some e end).
  unfold stop. cbn. split; [by destruct x|]. split; [done|].
  intros Hn. specialize (Hx Hn). subst. by destruct (err c).
Qed.

Lemma clockLocked_spec now c c' e :
  clockLocked now c = (c', e) →
  live_frame c c' ∧ (e = None → lastClock c' = now).
Proof.
  unfold clockLocked. destruct (_ || _) eqn:E; intros [= <- <-].
  - split; [apply live_frame_refl|done].
  - bool_prop. split; [|done]. exists now, (unixNano now). split; [done|].
    unfold sub, sat64, max_int64 in *. lia.
Qed.

Lemma liveLocked_spec now c c' e :
  liveLocked now c = (c', e) → live_frame c c' ∧ (e = None → live_at now c').
Proof.
  unfold liveLocked. destruct (err c) eqn:Ee; [intros [= <- <-]; split; [apply live_frame_refl|done]|].
  destruct (clockLocked now c) as [c1 [e1|]] eqn:Ec; apply clockLocked_spec in Ec as [Hf Hn].
  { intros [= <- <-]. by split. }
  destruct (_ || _) eqn:E; intros [= <- <-]; (split; [done|]); [done|intros _].
  bool_prop. unfold before in *. bool_prop. unfold live_at. split_and!; auto.
  destruct Hf as (t & w & -> & _). done.
Qed.

Lemma authorized_spec now c c' e :
  authorized now c = (c', e) →
  stop_frame c c' ∧ (e = None → live_at now c' ∧ readyClosed c' = true ∧ leaseDeadline c' ≠ None).
Proof.
  unfold authorized. destruct (liveLocked now c) as [c1 e1] eqn:El.
  apply liveLocked_spec in El as [Hf Hl]. apply live_stop in Hf.
  destruct e1 as [e1|]; [intros [= <- <-]; split; [by apply stop_frame_stop|done]|].
  destruct (_ || _) eqn:E; intros [= <- <-]; (split; [by try apply stop_frame_stop|]); [done|].
  intros _. bool_prop. split; [by apply Hl|done].
Qed.

(** ** The invariant *)

(** A goroutine holding a payload that it may only hold once the stream is ready. *)
Definition reader_cleared (r : reader_pc) : bool :=
  match r with RReady _ | RDeliver _ => true | _ => false end.
Definition writer_cleared (w : writer_pc) : bool :=
  match w with WAuthorized q | WArmed q _ | WSent q => is_data q | _ => false end.

Record inv (c : conn) : Prop := {
  inv_ready : readyClosed c = true → grantSent c = true ∧ leaseDeadline c ≠ None;
  inv_data : data_ch c ≠ [] ∨ readBuffer c ≠ [] ∨ reader_cleared (rpc c) = true → readyClosed c = true;
  inv_writer : writer_cleared (wpc c) = true → readyClosed c = true;
  inv_armed : ∀ q d, wpc c = WArmed q d → is_data q = true →
    mono d <= mono (lastClock c) + leaseDuration c;
  inv_issued : ∀ t, challengeIssued c = Some t → mono t <= mono (lastClock c);
  inv_lease : ∀ d, leaseDeadline c = Some d → mono d <= mono (lastClock c) + leaseDuration c;
  inv_caps : (length (control c) <= control_cap)%nat ∧ (length (writes c) <= writes_cap)%nat
             ∧ (length (data_ch c) <= data_cap)%nat;
  inv_duration : 0 < leaseDuration c <= MaxLeaseDuration }.

Ltac inv_solve :=
  split; unfold stop, markReadyLocked in *; cbn in *;
  repeat (case_match; cbn in *); naive_solver lia.

Lemma inv_stop_frame c c' : inv c → stop_frame c c' → inv c'.
Proof.
  intros [] (t & w & x & -> & Hm & _). split; cbn; try done.
  - intros q d Hq Hd. specialize (inv_armed0 q d Hq Hd). lia.
  - intros u Hu. specialize (inv_issued0 u Hu). lia.
  - intros d Hd. specialize (inv_lease0 d Hd). lia.
Qed.

Lemma inv_stop e c : inv c → inv (stop e c).
Proof. intros H. eapply inv_stop_frame; [exact H|]. apply stop_frame_stop, live_stop, live_frame_refl. Qed.

Lemma inv_reader_pc r c : inv c → reader_cleared r = false ∨ readyClosed c = true → inv (c <| rpc := r |>).
Proof. intros [] Hr. split; cbn; try done. destruct Hr as [Hr|Hr]; [|by intros _].
  intros [?|[?|?]]; [apply inv_data0; auto..|congruence]. Qed.

Lemma inv_writer_pc w c :
  inv c → writer_cleared w = false ∨ readyClosed c = true →
  (∀ q d, w = WArmed q d → is_data q = true → mono d <= mono (lastClock c) + leaseDuration c) →
  inv (c <| wpc := w |>).
Proof. intros [] Hr Ha. split; cbn; try done. destruct Hr as [->|Hr]; [done|by intros _]. Qed.

Lemma inv_enqueueControl f c c' e : inv c → enqueueControl f c = (c', e) → inv c'.
Proof.
  intros Hi. unfold enqueueControl. destruct (err c); [by intros [= <- <-]|].
  destruct (Nat.ltb_spec (length (control c)) control_cap); intros [= <- <-]; [|done].
  destruct Hi. split; cbn; try done. rewrite length_app. cbn. lia.
Qed.

Lemma inv_live now c c' e : inv c → liveLocked now c = (c', e) → inv c'.
Proof. intros Hi [Hf _]%liveLocked_spec. eapply inv_stop_frame; [done|by apply live_stop]. Qed.

Lemma inv_beginChallenge rand now c c' e : inv c → beginChallenge rand now c = (c', e) → inv c'.
Proof.
  intros Hi. unfold beginChallenge. destruct rand as [n|]; [|by intros [= <- <-]].
  destruct (liveLocked now c) as [c1 [e1|]] eqn:El; pose proof (inv_live _ _ _ _ Hi El) as Hi1;
    [by intros [= <- <-]|].
  apply liveLocked_spec in El as [_ Hl]. specialize (Hl eq_refl) as (_ & Hc & _).
  destruct (pending c1); [by intros [= <- <-]|]. intros He.
  eapply inv_enqueueControl; [|exact He].
  destruct Hi1. split; cbn; try done. intros t [= <-]. rewrite Hc. lia.
Qed.

Lemma inv_observePeer op g c c' e : inv c → observePeer op g c = (c', e) → inv c'.
Proof.
  intros Hi. unfold observePeer. destruct (_ || _); [by intros [= <- <-]|].
  destruct (_ =? _); [by intros [= <- <-]|].
  destruct op as [f|]; [destruct (f g)|]; intros [= <- <-]; try done; destruct Hi; by split.
Qed.

Lemma inv_markReady c : inv c → inv (markReadyLocked c).
Proof.
  intros Hi. unfold markReadyLocked. destruct (_ && _) eqn:E; [|done].
  bool_prop. destruct Hi. split; cbn; try done.
Qed.

(** What a grant that is accepted does, and exactly when it is. *)
Lemma receiveGrant_spec now f c c' e :
  receiveGrant now f c = (c', e) →
  (e ≠ None ∧ c' = c)
  ∨ (e = None ∧ ∃ issued granted next,
       challengeIssued c = Some issued ∧ granted = be_get (drop 80 (data f))
       ∧ 0 < granted <= leaseDuration c ∧ pending c = true
       ∧ slice 48 32 (data f) = arr_bytes (nonce c)
       ∧ be_get (slice 40 8 (data f)) = localGeneration c
       ∧ mono now < mono issued + granted ∧ unixNano now < unixNano issued + granted
       ∧ c' = markReadyLocked (c <| leaseDeadline := Some (after issued granted) |>
                                 <| nextRenew := next |> <| pending := false |>)).
Proof.
  unfold receiveGrant. cbv zeta. pose proof (be_get_range (drop 80 (data f))) as Hr.
  case_guard Eg; [intros [= <- <-]; by left|].
  destruct (challengeIssued c) as [issued|] eqn:Ei; [|intros [= <- <-]; by left].
  case_guard Ed; [intros [= <- <-]; by left|].
  bool_prop. intros [= <- <-]. right. split; [done|].
  set (g := be_get (drop 80 (data f))) in *.
  exists issued, g, (match nextRenew c with
    | Some r => if before (after issued (g / 3)) r then Some (after issued (g / 3)) else Some r
    | None => None end).
  unfold before in *; cbn in *. bool_prop. split_and!; try done; try lia.
  f_equal. destruct (nextRenew c) as [r|] eqn:En.
  - cbn. destruct (_ <? _); [done|]. by destruct c; cbn in *; subst.
  - by destruct c; cbn in *; subst.
Qed.

Lemma inv_receiveControl op p now f c c' e :
  inv c → receiveControl op p now f c = (c', e) → inv c'.
Proof.
  intros Hi. unfold receiveControl. destruct (negb _); [by intros [= <- <-]|].
  destruct (observePeer _ _ c) as [c1 [e1|]] eqn:Eo;
    pose proof (inv_observePeer _ _ _ _ _ Hi Eo) as Hi1; [by intros [= <- <-]|].
  destruct (bool_decide _); [by intros [= <- <-]|].
  destruct (checkPolicy p c1); [by intros [= <- <-]|].
  destruct (liveLocked now c1) as [c2 [e2|]] eqn:El;
    pose proof (inv_live _ _ _ _ Hi1 El) as Hi2; [by intros [= <- <-]|].
  destruct (bool_decide _).
  { unfold receiveChallenge. destruct (_ || _); [by intros [= <- <-]|].
    intros He. eapply inv_enqueueControl; [|exact He]. destruct Hi2. by split. }
  destruct (bool_decide _); [|by intros [= <- <-]].
  intros [[_ ->]|(_ & issued & g & nx & Hci & -> & Hg & _ & _ & _ & _ & _ & ->)]%receiveGrant_spec; [done|].
  apply inv_markReady. destruct Hi2. split; cbn; try done.
  { intros Hr. by destruct (inv_ready0 Hr). }
  intros d [= <-]. cbn. specialize (inv_issued0 _ Hci). lia.
Qed.

#[local] Hint Resolve inv_stop inv_markReady : owntransit.

(** [inv] is kept by every goroutine section. *)

Lemma inv_reader_fail e c : inv c → inv (reader_fail e c).
Proof. intros Hi. apply inv_reader_pc; [by apply inv_stop|by left]. Qed.
Lemma inv_writer_fail e c : inv c → inv (writer_fail e c).
Proof. intros Hi. apply inv_writer_pc; [by apply inv_stop|by left|done]. Qed.

Lemma inv_authorized now c c' e :
  inv c → authorized now c = (c', e) → inv c' ∧ (e = None → readyClosed c' = true).
Proof.
  intros Hi [Hf Hn]%authorized_spec. split; [by eapply inv_stop_frame|].
  intros He. by destruct (Hn He) as (_ & ? & _).
Qed.

#[local] Hint Resolve inv_reader_fail inv_writer_fail : owntransit.

Lemma inv_reader op p now d received c :
  inv c →
  inv (readLoop_frame op p now received c) ∧ inv (readLoop_policy p d c)
  ∧ inv (readLoop_lease d c) ∧ inv (readLoop_authorized now d c).
Proof.
  intros Hi. split_and!.
  - unfold readLoop_frame. destruct received as [f|e]; [|auto with owntransit].
    case_match; [|apply inv_reader_pc; [done|by left]].
    destruct (receiveControl _ _ _ _ _) as [c1 [e|]] eqn:E; apply inv_receiveControl in E;
      auto with owntransit.
  - unfold readLoop_policy. case_match; [auto with owntransit|apply inv_reader_pc; [done|by left]].
  - unfold readLoop_lease. case_match; [auto with owntransit|apply inv_reader_pc; [done|by left]].
  - unfold readLoop_authorized. destruct (authorized now c) as [c1 [e|]] eqn:E;
      apply inv_authorized in E as [Hi1 Hr]; try done; apply inv_reader_pc; auto.
Qed.

Lemma inv_deliver d c :
  inv c → rpc c = RDeliver d → (length (data_ch c) < data_cap)%nat → inv (readLoop_deliver d c).
Proof.
  intros Hi Hd Hl. destruct Hi. unfold readLoop_deliver. split; cbn; try done.
  - intros _. apply inv_data0. rewrite Hd. auto.
  - rewrite length_app. cbn. lia.
Qed.

Lemma inv_writeLoop_policy p q c : inv c → inv (writeLoop_policy p q c).
Proof.
  intros Hi. unfold writeLoop_policy. case_match; [auto with owntransit|].
  destruct (is_data q) eqn:Ed; (apply inv_writer_pc; [done|by left|done]).
Qed.

Lemma inv_writeLoop_authorized now q c : inv c → inv (writeLoop_authorized now q c).
Proof.
  intros Hi. unfold writeLoop_authorized. destruct (authorized now c) as [c1 [e|]] eqn:E;
    apply inv_authorized in E as [Hi1 Hr]; auto with owntransit.
  apply inv_writer_pc; [done|auto|done].
Qed.

Lemma inv_writeLoop_live now q c :
  inv c → wpc c = WAuthorized q → inv (writeLoop_live now q c).
Proof.
  intros Hi Hq. unfold writeLoop_live. destruct (liveLocked now c) as [c1 [e|]] eqn:E;
    pose proof (inv_live _ _ _ _ Hi E) as Hi1; auto with owntransit.
  assert (is_data q = true → readyClosed c = true) as Hr.
  { intros Hd. apply (inv_writer _ Hi). by rewrite Hq. }
  apply liveLocked_spec in E as [(t & w & -> & _) _].
  apply inv_writer_pc; [done|cbn; destruct (is_data q); auto|]. intros q' d [= <- <-] Hdata.
  destruct (inv_ready _ Hi (Hr Hdata)) as [_ Hl]. pose proof (inv_lease _ Hi1) as Hd.
  unfold deadline_of. cbn in *. destruct (leaseDeadline c) as [d|]; [|done]. by apply Hd.
Qed.

Lemma inv_writeLoop_write res q d c :
  inv c → wpc c = WArmed q d → inv (writeLoop_write res q c).
Proof.
  intros Hi Hq. unfold writeLoop_write. case_match; [auto with owntransit|].
  apply inv_writer_pc; [done| |done]. cbn. destruct (is_data q) eqn:Ed; auto.
  right. apply (inv_writer _ Hi). by rewrite Hq.
Qed.

Lemma inv_writeLoop_mark q c : inv c → inv (writeLoop_mark q c).
Proof.
  intros Hi. unfold writeLoop_mark. apply inv_writer_pc; [|by left|done].
  case_match; [|done]. apply inv_markReady. destruct Hi. split; cbn; try done.
  intros Hr. by destruct (inv_ready0 Hr).
Qed.

Lemma inv_dequeue c q ctl wr :
  inv c → (length ctl <= control_cap)%nat → (length wr <= writes_cap)%nat →
  inv (c <| control := ctl |> <| writes := wr |> <| wpc := WTaken q |>).
Proof.
  intros Hi Hc Hw. apply inv_writer_pc; [|by left|done]. destruct Hi. split; cbn; try done. lia.
Qed.

Lemma inv_watch now rand now2 c : inv c → inv (watchLoop_tick now rand now2 c).
Proof.
  intros Hi. unfold watchLoop_tick. destruct (liveLocked now c) as [c1 e1] eqn:E.
  pose proof (inv_live _ _ _ _ Hi E) as Hi1. clear E.
  assert (∀ c2 e2, inv c2 → inv match e2 with Some e => stop e c2 | None => c2 end) as Hs.
  { intros c2 [e2|]; auto with owntransit. }
  match goal with |- context [if ?b then _ else _] => destruct b end; [|by apply Hs].
  destruct (beginChallenge rand now2 c1) as [c2 e2] eqn:E2. apply Hs.
  by eapply inv_beginChallenge.
Qed.

Lemma inv_read now n c : inv c → inv (read_fill c) ∧ inv (read_copy now n c).1.
Proof.
  intros Hi. split.
  - unfold read_fill. destruct (readBuffer c) eqn:Eb; [|done]. destruct (data_ch c) eqn:Ed; [done|].
    destruct Hi. split; cbn; try done.
    + intros _. apply inv_data0. left. by rewrite Ed.
    + rewrite Ed in inv_caps0. cbn in *. lia.
  - unfold read_copy. destruct (authorized now c) as [c1 [e|]] eqn:E;
      apply inv_authorized in E as [Hi1 Hr]; try done.
    destruct Hi1. split; cbn; try done. intros _. by apply Hr.
Qed.

Lemma inv_step c ev c' : inv c → step c ev c' → inv c'.
Proof.
  intros Hi Hs. pose proof (inv_caps _ Hi) as (Hc1 & Hc2 & Hc3). destruct Hs.
  all: try first [by eapply inv_deliver | by apply inv_stop | by apply inv_watch | by apply inv_read
    | by apply inv_writeLoop_policy | by apply inv_writeLoop_authorized | by apply inv_writeLoop_mark
    | by eapply inv_writeLoop_live | by eapply inv_writeLoop_write].
  - by apply (inv_reader on_peer p now []).
  - by apply (inv_reader None p (Instant 0 0) d (Err ErrClock)).
  - by apply (inv_reader None (Policy 0 false false) (Instant 0 0) d (Err ErrClock)).
  - apply inv_reader_pc; [done|by right].
  - by apply (inv_reader None (Policy 0 false false) now d (Err ErrClock)).
  - apply inv_reader_pc; [done|by left].
  - rewrite H0 in Hc1. cbn in Hc1. apply (inv_dequeue c q rest (writes c)); auto; lia.
  - rewrite H0 in Hc2. cbn in Hc2. apply (inv_dequeue c q (control c) rest); auto; lia.
  - apply inv_writer_pc; [done|by left|done].
  - unfold policyLoop_tick. case_match; auto with owntransit.
  - destruct Hi; split; cbn; try done. rewrite length_app. cbn. lia.
  - by apply (inv_read (Instant 0 0) 0).
Qed.

Lemma inv_wrap args cd b l r p start rand now c :
  wrapWithClock args cd b l r p start rand now = Ok c → inv c.
Proof.
  unfold wrapWithClock. destruct args; [|done]. cbn [negb]. destruct (validate b); [done|].
  cbv zeta. case_guard E1; [done|]. case_guard E2; [done|]. case_guard E3; [done|].
  case_guard E4; [done|]. bool_prop.
  destruct (beginChallenge _ _ _) as [c1 [e1|]] eqn:Eb; [done|]. intros [= <-].
  eapply inv_beginChallenge; [|exact Eb]. split; cbn; try done; try lia.
  intros [?|[?|?]]; done.
Qed.

Lemma conn_reachable_inv c : reachable c → inv c.
Proof. induction 1; [by eapply inv_wrap|by eapply inv_step]. Qed.

(** ** Frame conditions: what no section but an accepted grant may change *)

(** [keeps c c']: same lease, same session constants, first error kept, clock and
    peer generation not moved back. *)
Record keeps (c c' : conn) : Prop := {
  keeps_lease : leaseDeadline c' = leaseDeadline c;
  keeps_err : err c ≠ None → err c' = err c;
  keeps_clock : mono (lastClock c) <= mono (lastClock c');
  keeps_peer : peerGeneration c <= peerGeneration c' }.

#[export] Instance keeps_preorder : PreOrder keeps.
Proof.
  split; [intros c; by split|]. intros a b c [] []. split; try lia; try congruence.
  intros H. rewrite keeps_err1; [auto|]. rewrite keeps_err0; done.
Qed.

Lemma keeps_stop_frame c c' : stop_frame c c' → keeps c c'.
Proof. intros (t & w & x & -> & Hm & Hx). split; cbn; try done; auto. Qed.
Lemma keeps_live_frame c c' : live_frame c c' → keeps c c'.
Proof. intros. by apply keeps_stop_frame, live_stop. Qed.
Lemma keeps_stop e c : keeps c (stop e c).
Proof. apply keeps_stop_frame, stop_frame_stop, live_stop, live_frame_refl. Qed.
Lemma keeps_markReady c : keeps c (markReadyLocked c).
Proof. unfold markReadyLocked. case_match; by split. Qed.
Lemma keeps_enqueue f c c' e : enqueueControl f c = (c', e) → keeps c c'.
Proof. unfold enqueueControl. repeat case_match; intros [= <- <-]; by split. Qed.
Lemma keeps_observe op g c c' e : observePeer op g c = (c', e) → keeps c c'.
Proof.
  unfold observePeer. case_guard E; [by intros [= <- <-]|]. bool_prop.
  repeat case_match; intros [= <- <-]; split; cbn; auto; lia.
Qed.

Lemma keeps_begin rand now c c' e : beginChallenge rand now c = (c', e) → keeps c c'.
Proof.
  unfold beginChallenge. destruct rand; [|by intros [= <- <-]].
  destruct (liveLocked now c) as [c1 [e1|]] eqn:El; apply liveLocked_spec in El as [Hf _];
    apply keeps_live_frame in Hf; [by intros [= <- <-]|].
  case_match; [by intros [= <- <-]|]. intros He%keeps_enqueue.
  etrans; [exact Hf|]. etrans; [|exact He]. by split.
Qed.

(** Either nothing above changed, or a matching grant was accepted. *)
Lemma receiveControl_lease op p now f c c' e :
  receiveControl op p now f c = (c', e) →
  keeps c c'
  ∨ (e = None ∧ kind f = kindGrant ∧ ∃ issued granted,
      challengeIssued c = Some issued ∧ 0 < granted <= leaseDuration c ∧ pending c = true
      ∧ take 32 (data f) = arr_bytes (inbound c) ∧ slice 48 32 (data f) = arr_bytes (nonce c)
      ∧ be_get (slice 40 8 (data f)) = localGeneration c ∧ granted = be_get (drop 80 (data f))
      ∧ mono now < mono issued + granted ∧ unixNano now < unixNano issued + granted
      ∧ leaseDeadline c' = Some (after issued granted) ∧ pending c' = false).
Proof.
  unfold receiveControl. case_guard Eb; [intros [= <- <-]; by left|].
  destruct (observePeer _ _ c) as [c1 [e1|]] eqn:Eo; pose proof (keeps_observe _ _ _ _ _ Eo) as Hk;
    [intros [= <- <-]; by left|].
  case_guard E1; [intros [= <- <-]; by left|].
  destruct (checkPolicy p c1); [intros [= <- <-]; by left|].
  destruct (liveLocked now c1) as [c2 [e2|]] eqn:El; pose proof (liveLocked_spec _ _ _ _ El) as [Hf _];
    pose proof (keeps_live_frame _ _ Hf) as Hk2; [intros [= <- <-]; left; by etrans|].
  assert (keeps c c2) as Hk3 by by etrans.
  case_guard E2.
  { unfold receiveChallenge. cbv zeta. case_guard E3; [intros [= <- <-]; by left|].
    intros He%keeps_enqueue. left. etrans; [exact Hk3|]. etrans; [|exact He]. by split. }
  case_guard E3; [|intros [= <- <-]; by left]. bool_prop.
  assert (challengeIssued c2 = challengeIssued c ∧ leaseDuration c2 = leaseDuration c
    ∧ pending c2 = pending c ∧ nonce c2 = nonce c ∧ localGeneration c2 = localGeneration c)
    as (Q1 & Q2 & Q3 & Q4 & Q5).
  { destruct Hf as (t & w & -> & _). unfold observePeer in Eo. cbn.
    repeat case_match; by simplify_eq. }
  intros [[_ ->]|(-> & issued & g & nx & R1 & -> & R3 & R4 & R5 & R6 & R7 & R8 & ->)]%receiveGrant_spec;
    [by left|].
  right. split; [done|]. split; [done|]. exists issued, (be_get (drop 80 (data f))).
  split_and!; try congruence; try lia.
  - unfold markReadyLocked. by case_match.
  - unfold markReadyLocked. by case_match.
Qed.

Lemma keeps_authorized now c c' e : authorized now c = (c', e) → keeps c c'.
Proof. intros [Hf _]%authorized_spec. by apply keeps_stop_frame. Qed.

Lemma keeps_watch now rand now2 c : keeps c (watchLoop_tick now rand now2 c).
Proof.
  unfold watchLoop_tick. destruct (liveLocked now c) as [c1 e1] eqn:E.
  apply liveLocked_spec in E as [Hf%keeps_live_frame _].
  assert (∀ c2 e2, keeps c c2 → keeps c match e2 with Some e => stop e c2 | None => c2 end) as Hs.
  { intros c2 [e2|] ?; [etrans; [done|apply keeps_stop]|done]. }
  match goal with |- context [if ?b then _ else _] => destruct b end; [|by apply Hs].
  destruct (beginChallenge rand now2 c1) as [c2 e2] eqn:E2. apply Hs.
  etrans; [exact Hf|by eapply keeps_begin].
Qed.

(** Changing only goroutine positions and queues keeps everything. *)
Lemma keeps_same c c1 c' :
  keeps c c1 → leaseDeadline c' = leaseDeadline c1 → err c' = err c1 → lastClock c' = lastClock c1 →
  peerGeneration c' = peerGeneration c1 → keeps c c'.
Proof. intros [] H1 H2 H3 H4. split; rewrite ?H1, ?H2, ?H3, ?H4; done. Qed.

Ltac keeps_pc := first
  [ by apply keeps_stop
  | by split
  | eapply keeps_same; [by apply keeps_stop|done..]
  | eapply keeps_same; [reflexivity|done..] ].

(** A step keeps everything unless it delivers an accepted grant to the reader. *)
Lemma conn_step_keeps c ev c' :
  step c ev c' →
  keeps c c' ∨ ∃ op p now f, receiveControl op p now f c = (c', None) ∧ c' = readLoop_frame op p now (Ok f) c ∧ rpc c = RIdle ∧ ev = Internal.
Proof.
  intros Hs. destruct Hs; try (left; keeps_pc).
  - unfold readLoop_frame. destruct received as [f|e]; [|left; keeps_pc].
    case_match; [|left; keeps_pc].
    destruct (receiveControl _ _ _ _ _) as [c1 [e|]] eqn:E;
      [|right; exists on_peer, p, now, f; unfold readLoop_frame; rewrite E; by case_match].
    left. apply receiveControl_lease in E as [Hk|[? _]]; [|done].
    eapply keeps_same; [etrans; [exact Hk|apply (keeps_stop e)]|done..].
  - left. unfold readLoop_policy. case_match; keeps_pc.
  - left. unfold readLoop_lease. case_match; keeps_pc.
  - left. unfold readLoop_authorized. destruct (authorized now c) as [c1 [e|]] eqn:E;
      apply keeps_authorized in E; by (eapply keeps_same; [exact E|..]).
  - left. unfold writeLoop_policy. repeat case_match; keeps_pc.
  - left. unfold writeLoop_authorized. destruct (authorized now c) as [c1 [e|]] eqn:E;
      apply keeps_authorized in E; [|by eapply keeps_same; [exact E|..]].
    eapply keeps_same; [etrans; [exact E|apply (keeps_stop e)]|done..].
  - left. unfold writeLoop_live. destruct (liveLocked now c) as [c1 [e|]] eqn:E;
      apply liveLocked_spec in E as [E%keeps_live_frame _]; [|by eapply keeps_same; [exact E|..]].
    eapply keeps_same; [etrans; [exact E|apply (keeps_stop e)]|done..].
  - left. unfold writeLoop_mark. case_match; [|keeps_pc].
    eapply keeps_same; [apply keeps_same with (c1 := c); [reflexivity|..]|..]; try done;
      unfold markReadyLocked; by case_match.
  - left. apply keeps_watch.
  - left. unfold policyLoop_tick. case_match; keeps_pc.
  - left. unfold read_fill. repeat case_match; keeps_pc.
  - left. unfold read_copy. destruct (authorized now c) as [c1 [e|]] eqn:E;
      apply keeps_authorized in E; [done|]. by eapply keeps_same; [exact E|..].
  - left. unfold read_copy. destruct (authorized now c) as [c1 [e'|]] eqn:E;
      apply keeps_authorized in E; [done|]. by eapply keeps_same; [exact E|..].
Qed.

(** Pieces of a [Write]. *)
Lemma write_pieces_spec fuel b :
  (length b <= fuel)%nat →
  concat (write_pieces fuel b) = b
  ∧ Forall (λ d, frame_ok (MkFrame kindData d) = true) (write_pieces fuel b).
Proof.
  revert b. induction fuel as [|fuel IH]; intros b Hl; (destruct b as [|x b]; [done|]); [simpl in Hl; lia|].
  cbn [write_pieces]. remember (x :: b) as l eqn:El.
  assert (1 <= length l)%nat as Hpos by (subst; simpl; lia). clear El.
  assert (1 <= Z.to_nat maxData)%nat as Hm by (unfold maxData; lia).
  destruct (IH (drop (Z.to_nat maxData) l)) as [H1 H2]; [rewrite length_drop; lia|].
  split; [cbn; by rewrite H1, take_drop|].
  constructor; [|done]. unfold frame_ok; cbn [kind data validSize].
  rewrite length_take. apply andb_true_intro. split; [apply Z.ltb_lt|apply Z.leb_le]; lia.
Qed.

(** ** Properties *)

(** C1. Application bytes move only under mutual readiness and a live lease: in every
    reachable state, bytes are handed to the reader of the stream only at an instant
    strictly before the granted deadline on both clocks with no error recorded and both
    grants exchanged; and a DATA frame is transmitted only when the stream is ready, under
    a write deadline at most one lease duration after the last clock reading. *)
Theorem data_requires_lease c ev c' :
  reachable c → step c ev c' →
  match ev with
  | Expose b now =>
      err c' = None ∧ readyClosed c' = true
      ∧ ∃ d, leaseDeadline c' = Some d ∧ mono now < mono d ∧ unixNano now < unixNano d
  | Transmit f d =>
      kind f = kindData →
      readyClosed c = true ∧ grantSent c = true
      ∧ mono d <= mono (lastClock c) + leaseDuration c
  | Internal => True
  end.
Proof.
  intros Hi%conn_reachable_inv Hs. destruct Hs; try done.
  - intros Hk. assert (is_data q = true) as Hd by by apply bool_decide_eq_true.
    assert (readyClosed c = true) as Hr by (apply (inv_writer _ Hi); by rewrite H).
    split_and!; [done|by apply (inv_ready _ Hi)|]. by eapply (inv_armed _ Hi).
  - unfold read_copy in *. destruct (authorized now c) as [c1 [e|]] eqn:E; [done|].
    apply authorized_spec in E as [_ Hl]. destruct (Hl eq_refl) as ((He & _ & Hm & Hw) & Hr & Hd).
    cbn. split_and!; try done. unfold deadline_of in *.
    destruct (leaseDeadline c1) as [d|]; [|done]. by exists d.
Qed.

(** C25. Only a fresh matching grant moves the lease: if any step changes the lease
    deadline, the reader received a GRANT frame for the outstanding challenge (same context,
    nonce and generation), the new deadline is the challenge's own issue time plus exactly the
    duration that this frame grants, which is positive and at most the configured lease; on
    neither clock was that deadline already reached; and the challenge is spent. In
    particular DATA, time and other controls never extend it. *)
Theorem lease_moves_only_by_grant c ev c' :
  step c ev c' → leaseDeadline c' ≠ leaseDeadline c →
  ∃ on_peer p now f issued, rpc c = RIdle ∧ c' = readLoop_frame on_peer p now (Ok f) c
    ∧ kind f = kindGrant ∧ take 32 (data f) = arr_bytes (inbound c)
    ∧ slice 48 32 (data f) = arr_bytes (nonce c) ∧ be_get (slice 40 8 (data f)) = localGeneration c
    ∧ challengeIssued c = Some issued ∧ pending c = true
    ∧ let granted := be_get (drop 80 (data f)) in
      0 < granted <= leaseDuration c
      ∧ mono now < mono issued + granted ∧ unixNano now < unixNano issued + granted
      ∧ leaseDeadline c' = Some (after issued granted) ∧ pending c' = false.
Proof.
  intros Hs Hne. apply conn_step_keeps in Hs as [Hk|(op & p & now & f & Hr & Hc & Hi & _)].
  { by destruct (Hne (keeps_lease _ _ Hk)). }
  pose proof (receiveControl_lease _ _ _ _ _ _ _ Hr) as
    [Hk|(_ & Hkind & issued & g & H1 & H2 & H3 & H4 & H5 & H6 & -> & H8 & H9 & H10 & H11)].
  { by destruct (Hne (keeps_lease _ _ Hk)). }
  exists op, p, now, f, issued. split_and!; auto; lia.
Qed.

(** A grant is single use: after [receiveGrant] accepts a frame, every further grant
    (the same frame replayed, or any other) is refused as a protocol error and changes
    nothing, until [beginChallenge] issues a new nonce. *)
Theorem grant_single_use now f c c' now2 f2 :
  receiveGrant now f c = (c', None) → receiveGrant now2 f2 c' = (c', Some ErrProtocol).
Proof.
  intros [[? _]|(_ & issued & g & nx & _ & _ & _ & _ & _ & _ & _ & _ & Hc')]%receiveGrant_spec; [done|].
  assert (pending c' = false) as Hp by (subst c'; unfold markReadyLocked; by case_match).
  unfold receiveGrant. cbv zeta. case_match; [done|]. destruct (challengeIssued c'); [|done].
  by rewrite Hp.
Qed.

(** A connection with an error: no section clears it, exposes bytes or arms another write. *)
Lemma stopped_live now c : err c ≠ None → ∃ e, liveLocked now c = (c, Some e).
Proof. unfold liveLocked. destruct (err c) as [e|]; [|done]. by exists e. Qed.
Lemma stopped_authorized now c : err c ≠ None → ∃ e, authorized now c = (c, Some e).
Proof.
  intros He. unfold authorized. destruct (stopped_live now c He) as [e ->]. exists e. unfold stop. destruct (err c) eqn:E; [|done]. by destruct c; cbn in *; subst.
Qed.
Lemma stopped_stop e c : err c ≠ None → stop e c = c.
Proof. unfold stop. destruct (err c) eqn:E; [|done]. intros _. by destruct c; cbn in *; subst. Qed.
Lemma stopped_control op p now f c c' e :
  err c ≠ None → receiveControl op p now f c = (c', e) → err c' = err c ∧ wpc c' = wpc c ∧ e ≠ None.
Proof.
  intros He. unfold receiveControl. case_match; [by intros [= <- <-]|].
  destruct (observePeer _ _ c) as [c2 e2] eqn:Eo.
  assert (err c2 = err c ∧ wpc c2 = wpc c) as [He2 Hw2] by (unfold observePeer in Eo; repeat case_match; by simplify_eq).
  destruct e2; [by intros [= <- <-]|]. case_match; [by intros [= <- <-]|]. case_match; [by intros [= <- <-]|].
  destruct (stopped_live now c2 ltac:(congruence)) as [e3 ->]. by intros [= <- <-].
Qed.
Lemma stopped_step c ev c' :
  err c ≠ None → step c ev c' →
  err c' = err c ∧ (∀ q d, wpc c' = WArmed q d → wpc c = WArmed q d)
  ∧ match ev with
    | Internal => True
    | Transmit f d => ∃ q, wpc c = WArmed q d ∧ f = rframe q
    | Expose _ _ => False
    end.
Proof.
  intros He Hs. destruct Hs; try done.
  all: unfold readLoop_policy, readLoop_lease, readLoop_authorized, writeLoop_policy, writeLoop_authorized, writeLoop_live, writeLoop_write,
    writeLoop_mark, policyLoop_tick, read_copy, read_fill, reader_fail, writer_fail in *.
  all: rewrite ?(stopped_stop _ c He) in *.
  all: try (destruct (stopped_authorized now c He) as [e0 E0]; rewrite E0 in * ).
  all: try (destruct (stopped_live now c He) as [e1 E1]; rewrite E1 in * ).
  all: rewrite ?(stopped_stop _ c He) in *.
  all: try match goal with |- context [checkPolicy ?p ?a] => destruct (checkPolicy p a); rewrite ?(stopped_stop _ a He) end.
  all: try (repeat case_match; done).
  - unfold readLoop_frame. destruct received as [f|e]; [|unfold reader_fail; by rewrite stopped_stop].
    case_match; [|done]. destruct (receiveControl _ _ _ _ _) as [c1 e] eqn:E.
    destruct (stopped_control _ _ _ _ _ _ _ He E) as (J1 & J2 & J3). destruct e as [e|]; [|done].
    unfold reader_fail. rewrite stopped_stop by congruence. cbn. rewrite J1, J2. done.
  - split; [done|]. split; [done|]. by exists q.
  - unfold markReadyLocked. repeat case_match; done.
  - unfold watchLoop_tick. destruct (stopped_live now c He) as [e1 ->]. rewrite bool_decide_eq_false_2 by done. cbn. destruct (nextRenew c); cbn; by rewrite stopped_stop.
Qed.

(** C26. Cutoff: once either reading of the clock reaches the lease deadline, [authorized]
    refuses and records an error, and that error is final: in every later state of the
    connection, whatever its goroutines do, it is still recorded, no byte is handed to the
    reader of the stream any more, and the only frame that can still be transmitted is the
    one whose write was already armed, under the deadline it was armed with. *)
Theorem lease_cutoff c d now c' e :
  leaseDeadline c = Some d → mono d <= mono now ∨ unixNano d <= unixNano now → authorized now c = (c', e) →
  e ≠ None ∧ err c' ≠ None
  ∧ ∀ c1, rtc (λ a b, ∃ ev, step a ev b) c' c1 →
      err c1 = err c'
      ∧ ∀ ev c2, step c1 ev c2 →
          match ev with
          | Internal => True
          | Transmit f armed => ∃ q, wpc c' = WArmed q armed ∧ f = rframe q
          | Expose _ _ => False
          end.
Proof.
  intros Hd Hn Ha. pose proof (authorized_spec _ _ _ _ Ha) as [Hf Hl].
  assert (e ≠ None) as He.
  { intros ->. destruct (Hl eq_refl) as ((_ & _ & Hm & Hw) & _ & _).
    destruct Hf as (t & w & x & -> & _). unfold deadline_of in Hm, Hw. cbn in Hm, Hw.
    rewrite Hd in Hm, Hw. cbn in Hm, Hw. lia. }
  assert (err c' ≠ None) as Hc'.
  { unfold authorized in Ha. destruct (liveLocked now c) as [c1 e1].
    repeat case_match; simplify_eq; unfold stop; case_match; cbn; congruence. }
  split; [done|]. split; [done|]. intros c1 Hr.
  assert (err c1 = err c' ∧ ∀ q a, wpc c1 = WArmed q a → wpc c' = WArmed q a) as [He1 Hw1].
  { clear -Hc' Hr. induction Hr as [|a b z [ev Hs] _ IH]; [done|]. destruct (stopped_step _ _ _ Hc' Hs) as (H1 & H2 & _).
    destruct IH as [I1 I2]; [congruence|]. split; [congruence|auto]. }
  split; [done|]. intros ev c2 Hs. destruct (stopped_step c1 ev c2 ltac:(congruence) Hs) as (_ & _ & H).
  destruct ev; [done| |done]. destruct H as (q & Hq & ->). exists q. split; [by apply Hw1|done].
Qed.

(** C40. [Write] splits its buffer into admissible DATA frames that carry exactly the
    buffer's bytes in order, and the split ends. *)
Theorem Write_pieces_exact b :
  concat (write_pieces (length b) b) = b
  ∧ Forall (λ d, frame_ok (MkFrame kindData d) = true) (write_pieces (length b) b).
Proof. apply write_pieces_spec. lia. Qed.

(** ** The two endpoints together *)

Lemma be_put_word z : 0 <= z < 2^64 → be_get (be_put 8 z) = z.
Proof. intros. rewrite be_get_put. by apply Z.mod_small. Qed.

Lemma challenge_fields c n :
  0 <= localGeneration c < 2^64 → 0 <= leaseDuration c < 2^64 →
  let d := data (challenge_frame c n) in
  take 32 d = arr_bytes (outbound c) ∧ be_get (slice 32 8 d) = localGeneration c
  ∧ slice 40 32 d = arr_bytes n ∧ be_get (drop 72 d) = leaseDuration c.
Proof.
  intros Hg Hl d. unfold d, challenge_frame; cbn [data].
  pose proof (length_arr_bytes (outbound c)) as H1. pose proof (length_arr_bytes n) as H2.
  split_and!.
  - rewrite take_app_le by lia. apply take_ge. lia.
  - rewrite slice_at by (done || apply length_be_put). by apply be_put_word.
  - rewrite app_assoc. apply slice_at; [|done]. rewrite length_app, length_be_put. lia.
  - rewrite !app_assoc, drop_app_ge by (rewrite !length_app, length_be_put; lia).
    rewrite !length_app, length_be_put, H1, H2. by apply be_put_word.
Qed.

Lemma grant_fields c g n granted :
  0 <= localGeneration c < 2^64 → 0 <= g < 2^64 → 0 <= granted < 2^64 →
  let d := data (grant_frame c g n granted) in
  take 32 d = arr_bytes (outbound c) ∧ be_get (slice 32 8 d) = localGeneration c
  ∧ be_get (slice 40 8 d) = g ∧ slice 48 32 d = arr_bytes n ∧ be_get (drop 80 d) = granted.
Proof.
  intros Hg Hr Hl d. unfold d, grant_frame; cbn [data].
  pose proof (length_arr_bytes (outbound c)) as H1. pose proof (length_arr_bytes n) as H2.
  split_and!.
  - rewrite take_app_le by lia. apply take_ge. lia.
  - rewrite slice_at by (done || apply length_be_put). by apply be_put_word.
  - rewrite app_assoc, slice_at by (rewrite ?length_app, ?length_be_put; lia). by apply be_put_word.
  - rewrite app_assoc, app_assoc. apply slice_at; [|done].
    rewrite !length_app, !length_be_put. lia.
  - rewrite !app_assoc, drop_app_ge by (rewrite !length_app, !length_be_put; lia).
    rewrite !length_app, !length_be_put, H1, H2. by apply be_put_word.
Qed.

Lemma observe_ok g c :
  g ≠ 0 → peerGeneration c <= g → observePeer None g c = (c <| peerGeneration := g |>, None).
Proof.
  intros Hz Hle. unfold observePeer.
  rewrite (proj2 (Z.eqb_neq g 0)), (proj2 (Z.ltb_ge g _)) by lia. cbn.
  destruct (Z.eqb_spec g (peerGeneration c)) as [->|]; [by destruct c|done].
Qed.

Lemma enqueue_room f c :
  err c = None → (length (control c) < control_cap)%nat →
  enqueueControl f c = (c <| control := control c ++ [Request f None] |>, None).
Proof. intros He Hl%Nat.ltb_lt. unfold enqueueControl. by rewrite He, Hl. Qed.

(** Two connections of one session: what one sends is what the other expects. *)
Record session (a b : conn) : Prop := {
  s_out : inbound b = outbound a;
  s_in : outbound b = inbound a;
  s_gen_a : 0 < localGeneration a < 2^64;
  s_gen_b : 0 < localGeneration b < 2^64;
  s_peer_a : peerGeneration a <= localGeneration b;
  s_peer_b : peerGeneration b <= localGeneration a;
  s_lease_a : 0 < leaseDuration a <= MaxLeaseDuration;
  s_lease_b : 0 < leaseDuration b <= MaxLeaseDuration }.

(** C38. The challenge-grant exchange completes: when endpoint [a] has an outstanding
    challenge [n] and [b] is the other side of the same session, [b] answers [a]'s CHALLENGE
    with one GRANT, and [a] accepts that GRANT before the granted time runs out. The lease
    [a] obtains is the shorter of the two configured durations, counted from the issue of its
    own challenge. *)
Theorem challenge_grant_completes a b n issued pa pb now_a now_b a1 b1 :
  session a b →
  pending a = true → nonce a = n → challengeIssued a = Some issued →
  checkPolicy pb b = None → lastPeerNonce b ≠ Some n → (length (control b) < control_cap)%nat →
  liveLocked now_b (b <| peerGeneration := localGeneration a |>) = (b1, None) →
  checkPolicy pa a = None →
  liveLocked now_a (a <| peerGeneration := localGeneration b |>) = (a1, None) →
  let granted := Z.min (leaseDuration a) (leaseDuration b) in
  mono now_a < mono issued + granted → unixNano now_a < unixNano issued + granted →
  ∃ g b' a', receiveControl None pb now_b (challenge_frame a n) b = (b', None)
    ∧ control b' = control b ++ [Request g None]
    ∧ receiveControl None pa now_a g a = (a', None)
    ∧ leaseDeadline a' = Some (after issued granted) ∧ pending a' = false.
Proof.
  intros [] Hp Hn Hi Hpb Hln Hcap Hlb Hpa Hla granted Hm Hw.
  assert (MaxLeaseDuration < 2^64) as Hmax by done.
  pose proof (challenge_fields a n ltac:(lia) ltac:(lia)) as (F1 & F2 & F3 & F4).
  apply liveLocked_spec in Hlb as Hfb. destruct Hfb as [(tb & wb & -> & _) Hbl].
  destruct (Hbl eq_refl) as (Heb & _ & _ & _). cbn in Heb.
  apply liveLocked_spec in Hla as Hfa. destruct Hfa as [(ta & wa & -> & _) _].
  set (g := grant_frame b (localGeneration a) n granted).
  assert (arr_copy 32 (arr_bytes n) = n) as Hcn by apply arr_copy_bytes.
  assert ((if leaseDuration b <? leaseDuration a then leaseDuration b else leaseDuration a) = granted)
    as Hgr by (unfold granted; case_match; bool_prop; lia).
  eexists g, _, _. split_and!.
  - unfold receiveControl. rewrite F1, s_out0, bool_decide_eq_true_2 by done. cbn [negb].
    rewrite F2, observe_ok by lia. rewrite bool_decide_eq_false_2 by done.
    unfold checkPolicy in *. cbn [localGeneration]. cbn. rewrite Hpb, Hlb.
    rewrite bool_decide_eq_true_2 by done. unfold receiveChallenge. cbv zeta.
    rewrite F3, F4, Hcn, enqueue_room by done. cbn.
    rewrite (proj2 (Z.eqb_neq _ 0)), (proj2 (Z.ltb_ge _ _)), bool_decide_eq_false_2 by (lia || done).
    cbn. rewrite Hgr. reflexivity.
  - reflexivity.
  - pose proof (grant_fields b (localGeneration a) n granted ltac:(lia) ltac:(lia) ltac:(lia))
      as (G1 & G2 & G3 & G4 & G5). fold g in G1, G2, G3, G4, G5.
    unfold receiveControl. rewrite G1, s_in0, bool_decide_eq_true_2 by done. cbn [negb].
    rewrite G2, observe_ok by lia. rewrite bool_decide_eq_false_2 by done.
    unfold checkPolicy in *. cbn. rewrite Hpa, Hla.
    rewrite bool_decide_eq_false_2, bool_decide_eq_true_2 by done.
    unfold receiveGrant. cbv zeta. rewrite G3, G4, G5. cbn. rewrite Hi, Hp, Hn. cbn.
    rewrite (proj2 (Z.eqb_neq _ 0)), (proj2 (Z.ltb_ge _ _)) by lia. cbn.
    rewrite Z.eqb_refl, bool_decide_eq_true_2 by done. unfold before. cbn.
    rewrite (proj2 (Z.ltb_lt _ _)), (proj2 (Z.leb_gt _ _)) by lia. reflexivity.
  - cbn. unfold markReadyLocked. repeat case_match; done.
  - cbn. unfold markReadyLocked. repeat case_match; done.
Qed.

(** ** Witnesses *)

Definition t0 : instant := Instant 1000 5000000.
Definition at_ms (k : Z) : instant := after t0 (k * Millisecond).
Definition demo_nonce (b : byte) : arr 32 := arr_copy 32 (replicate 32 b).
Definition open_policy : policy := Policy 7 false false.

(** A connection that is never used: the value of [demo_conn] if [wrapWithClock] failed. *)
Definition no_conn : conn :=
  Conn 0 0 (arr_zero 32) (arr_zero 32) 0 (Some ErrProtocol) t0 0 t0 None None false (arr_zero 32)
    None 0 None false false [] [] [] [] RStopped WStopped.
Definition demo_wrap (binding : Context) (lease : Z) (nc : byte) : result lease_err conn :=
  wrapWithClock true false binding lease 0 open_policy t0 (Some (demo_nonce nc)) (at_ms 1).
Definition conn_of (r : result lease_err conn) : conn := match r with Ok c => c | Err _ => no_conn end.
(** The client asks for 60 s, the target limits its grants to 30 s. *)
Definition conn_a : conn := Eval vm_compute in conn_of (demo_wrap demo_context 0 Byte.xa1).
Definition conn_b : conn := Eval vm_compute in conn_of (demo_wrap (swap demo_context) (30 * Second) Byte.xb2).

Lemma challenge_grant_completes_witness :
  ∃ g b' a', receiveControl None open_policy (at_ms 20) (challenge_frame conn_a (demo_nonce Byte.xa1)) conn_b
             = (b', None)
    ∧ control b' = control conn_b ++ [Request g None]
    ∧ receiveControl None open_policy (at_ms 40) g conn_a = (a', None)
    ∧ leaseDeadline a' = Some (after (at_ms 1) (30 * Second)) ∧ pending a' = false.
Proof.
  apply (challenge_grant_completes conn_a conn_b (demo_nonce Byte.xa1) (at_ms 1) open_policy open_policy
    (at_ms 40) (at_ms 20)
    (liveLocked (at_ms 40) (conn_a <| peerGeneration := localGeneration conn_b |>)).1
    (liveLocked (at_ms 20) (conn_b <| peerGeneration := localGeneration conn_a |>)).1).
  - split; vm_compute; try split; congruence.
  - vm_compute. reflexivity.
  - vm_compute. reflexivity.
  - vm_compute. reflexivity.
  - vm_compute. reflexivity.
  - vm_compute. discriminate.
  - vm_compute. lia.
  - vm_compute. reflexivity.
  - vm_compute. reflexivity.
  - vm_compute. reflexivity.
  - vm_compute. reflexivity.
  - vm_compute. reflexivity.
Defined.

(** A run of [conn_a] up to the first SSH bytes: both controls are sent, the peer's
    challenge is answered, its grant accepted, one DATA frame delivered. *)
Definition take_control (c : conn) : conn :=
  c <| control := tail (control c) |>
    <| wpc := WTaken (hd (Request demo_frame None) (control c)) |>.
Definition held (c : conn) : request :=
  match wpc c with
  | WTaken q | WPoliced q | WAuthorized q | WArmed q _ | WSent q => q
  | _ => Request demo_frame None
  end.
Definition send_one (k : Z) (c : conn) : conn :=
  let c := take_control c in
  let c := writeLoop_policy open_policy (held c) c in
  let c := writeLoop_live (at_ms k) (held c) c in
  let c := writeLoop_write None (held c) c in
  writeLoop_mark (held c) c.
Definition run1 : conn :=
  readLoop_frame None open_policy (at_ms 2) (Ok (challenge_frame conn_b (demo_nonce Byte.xb2))) conn_a.
Definition run2 : conn := send_one 4 (send_one 3 run1).
Definition grant_b : frame := grant_frame conn_b 7 (demo_nonce Byte.xa1) (30 * Second).
Definition run3 : conn := readLoop_frame None open_policy (at_ms 20) (Ok grant_b) run2.
Definition run4 : conn := readLoop_frame None open_policy (at_ms 30) (Ok demo_frame) run3.
Definition run5 : conn := readLoop_policy open_policy (data demo_frame) run4.
Definition run6 : conn := readLoop_lease (data demo_frame) run5.
Definition run7 : conn := run6 <| rpc := RReady (data demo_frame) |>.
Definition run8 : conn := readLoop_authorized (at_ms 31) (data demo_frame) run7.
Definition run9 : conn := read_fill (readLoop_deliver (data demo_frame) run8).

Ltac ok := vm_compute; reflexivity.

Lemma send_one_reachable k c q rest d :
  reachable c → wpc c = WIdle → control c = q :: rest → is_data q = false →
  checkPolicy open_policy (take_control c) = None →
  wpc (writeLoop_live (at_ms k) q (writeLoop_policy open_policy q (take_control c))) = WArmed q d →
  reachable (send_one k c).
Proof.
  intros Hr Hw Hc Hd Hp Ha. unfold send_one. cbv zeta.
  assert (reachable (take_control c)) as R1.
  { unfold take_control. rewrite Hc. cbn [tail hd]. eapply R_step; [exact Hr|]. by apply S_take_control. }
  assert (held (take_control c) = q) as -> by (unfold take_control; by rewrite Hc).
  assert (wpc (take_control c) = WTaken q) as Hq by (unfold take_control; by rewrite Hc).
  assert (wpc (writeLoop_policy open_policy q (take_control c)) = WAuthorized q) as Hq2.
  { unfold writeLoop_policy. by rewrite Hp, Hd. }
  assert (reachable (writeLoop_policy open_policy q (take_control c))) as R2.
  { eapply R_step; [exact R1|]. by apply S_write_policy. }
  set (c2 := writeLoop_policy open_policy q (take_control c)) in *.
  assert (held c2 = q) as -> by (unfold held; by rewrite Hq2).
  assert (reachable (writeLoop_live (at_ms k) q c2)) as R3.
  { eapply R_step; [exact R2|]. by apply S_write_live. }
  set (c3 := writeLoop_live (at_ms k) q c2) in *.
  assert (held c3 = q) as -> by (unfold held; by rewrite Ha).
  assert (reachable (writeLoop_write None q c3)) as R4.
  { eapply R_step; [exact R3|]. by eapply S_write_sent. }
  eapply R_step; [exact R4|]. by apply S_write_mark.
Qed.

Lemma run2_reachable : reachable run2.
Proof.
  assert (reachable conn_a) as R0.
  { apply (R_wrap true false demo_context 0 0 open_policy t0 (Some (demo_nonce Byte.xa1)) (at_ms 1)). ok. }
  assert (reachable run1) as R1.
  { eapply R_step; [exact R0|]. apply S_frame; [ok|]. intros f [= <-]. ok. }
  assert (reachable (send_one 3 run1)) as R2 by (eapply send_one_reachable; [exact R1|ok..]).
  eapply send_one_reachable; [exact R2|ok..].
Qed.

Lemma run9_reachable : reachable run9.
Proof.
  assert (reachable run3) as R3.
  { eapply R_step; [exact run2_reachable|]. apply S_frame; [ok|]. intros f [= <-]. ok. }
  assert (reachable run4) as R4.
  { eapply R_step; [exact R3|]. apply S_frame; [ok|]. intros f [= <-]. ok. }
  assert (reachable run5) as R5 by (eapply R_step; [exact R4|]; apply S_read_policy; ok).
  assert (reachable run6) as R6 by (eapply R_step; [exact R5|]; apply S_read_lease; ok).
  assert (reachable run7) as R7 by (eapply R_step; [exact R6|]; apply S_read_ready; ok).
  assert (reachable run8) as R8 by (eapply R_step; [exact R7|]; apply S_read_auth; ok).
  eapply R_step; [|apply S_fill]. eapply R_step; [exact R8|]. apply S_read_push; [ok|].
  vm_compute. lia.
Qed.

Lemma data_requires_lease_witness :
  ∃ c', step run9 (Expose (ascii_bytes "SSH-2.0") (at_ms 32)) c'
    ∧ err c' = None ∧ readyClosed c' = true
    ∧ ∃ d, leaseDeadline c' = Some d ∧ mono (at_ms 32) < mono d ∧ unixNano (at_ms 32) < unixNano d.
Proof.
  assert (step run9 (Expose (ascii_bytes "SSH-2.0") (at_ms 32)) (read_copy (at_ms 32) 64 run9).1) as Hs.
  { apply S_read; [vm_compute; discriminate|ok]. }
  exists (read_copy (at_ms 32) 64 run9).1. split; [exact Hs|].
  exact (data_requires_lease run9 _ _ run9_reachable Hs).
Defined.

Lemma lease_moves_only_by_grant_witness :
  leaseDeadline run3 ≠ leaseDeadline run2
  ∧ ∃ f issued, kind f = kindGrant ∧ challengeIssued run2 = Some issued
      ∧ leaseDeadline run3 = Some (after issued (be_get (drop 80 (data f)))) ∧ be_get (drop 80 (data f)) <= leaseDuration run2.
Proof.
  assert (step run2 Internal run3) as Hs.
  { apply S_frame; [ok|]. intros f [= <-]. ok. }
  assert (leaseDeadline run3 ≠ leaseDeadline run2) as Hne by (vm_compute; discriminate).
  split; [exact Hne|].
  destruct (lease_moves_only_by_grant run2 Internal run3 Hs Hne) as (op & p & now & f & i & _ & _ & H1 & _ & _ & _ & H2 & _ & [_ H3] & _ & _ & H4 & _).
  exists f, i. exact (conj H1 (conj H2 (conj H4 H3))).
Defined.

Lemma grant_single_use_witness :
  receiveGrant (at_ms 21) grant_b (receiveGrant (at_ms 20) grant_b run2).1
  = ((receiveGrant (at_ms 20) grant_b run2).1, Some ErrProtocol).
Proof. apply (grant_single_use (at_ms 20) grant_b run2). ok. Defined.

(** Thirty seconds after its challenge by the wall clock, [run9] may no longer read; nor may it
    after a [Lock], nor after the watchdog. *)
Definition late : conn := run9 <| lastClock := at_ms 29999 |> <| lastWall := unixNano (at_ms 30000) |>.
Definition late_now : instant := Instant (mono (at_ms 29999)) (unixNano (at_ms 30001)).
Lemma lease_cutoff_witness :
  (authorized late_now late).2 ≠ None
  ∧ err (watchLoop_tick late_now None late_now (stop ErrLocked (authorized late_now late).1)) = err (authorized late_now late).1.
Proof.
  destruct (lease_cutoff late (after (at_ms 1) (30 * Second)) late_now (authorized late_now late).1 (authorized late_now late).2) as (H1 & _ & H2).
  - ok.
  - right. vm_compute. discriminate.
  - destruct (authorized late_now late). reflexivity.
  - split; [exact H1|].
    refine (proj1 (H2 _ (rtc_l _ _ _ _ _ (rtc_once _ _ _)))).
    + exists Internal. apply (S_stop _ ErrLocked).
    + exists Internal. apply (S_watch _ late_now None late_now).
Defined.
