(* ===== verification/SessionGuard.v ===== *)
(** * Session deadlines: [internal/sessionguard]

    One idle deadline shared by both halves of a stream, never beyond the absolute
    expiry. Instants are nanoseconds on one clock. *)

From S2P Require Import Prelude GoIO.

Inductive guard_err := ErrGuardConfig | ErrLifetime | ErrSetDeadline.
#[export] Instance guard_err_eq_dec : EqDecision guard_err.
Proof. solve_decision. Defined.

Record Guard := MkGuard {
  idle : Z;
  expires : Z;
  left_deadline : option Z;
  right_deadline : option Z }.
#[export] Instance eta_Guard : Eta Guard := λ g,
  MkGuard (idle g) (expires g) (left_deadline g) (right_deadline g).

(** [args]: both connections and the clock are present. *)
Definition newWithClock (args : bool) (idle lifetime now : Z) : result guard_err Guard :=
  reject negb args with ErrGuardConfig;;
  reject (idle <=? 0) || (lifetime <=? 0) || (lifetime <? idle) with ErrGuardConfig;;
  Ok (MkGuard idle (now + lifetime) None None).

(** [left_ok] and [right_ok]: the two [SetDeadline] calls succeed. *)
Definition touch (now : Z) (left_ok right_ok : bool) (g : Guard) : Guard * option guard_err :=
  if expires g <=? now then (g, Some ErrLifetime)
  else
    let deadline := now + idle g in
    let deadline := if expires g <? deadline then expires g else deadline in
    if negb left_ok then (g, Some ErrSetDeadline)
    else let g := g <| left_deadline := Some deadline |> in
         if negb right_ok then (g, Some ErrSetDeadline)
         else (g <| right_deadline := Some deadline |>, None).

Definition Arm := touch.

(** [activityReader.Read]: the count of the source's [Read], and the error the caller
    sees; the guard is touched only when bytes arrived. *)
Definition guarded_read (count : nat) (read_err : option io_err) (now : Z) (left_ok right_ok : bool)
    (g : Guard) : Guard * nat * option (guard_err + io_err) :=
  if (0 <? count)%nat then
    match touch now left_ok right_ok g with
    | (g, Some e) => (g, count, Some (inl e))
    | (g, None) => (g, count, inr <$> read_err)
    end
  else (g, count, inr <$> read_err).

(** A session: reads of either half at increasing readings of the clock. *)
Fixpoint guard_run (reads : list (nat * Z)) (g : Guard) : Guard :=
  match reads with
  | [] => g
  | (n, now) :: rest => guard_run rest (guarded_read n None now true true g).1.1
  end.

(** The deadlines of a guarded session never pass its absolute expiry, however much
    traffic there is, and a successful touch sets both halves to the earlier of
    [now + idle] and the expiry, which lies in the future. *)
Theorem guard_deadlines_bounded args i l now0 g reads :
  newWithClock args i l now0 = Ok g →
  let g' := guard_run reads g in
  expires g' = now0 + l ∧ idle g' = i
  ∧ (∀ d, left_deadline g' = Some d ∨ right_deadline g' = Some d → d <= now0 + l)
  ∧ ∀ now g2, touch now true true g' = (g2, None) →
      left_deadline g2 = Some (Z.min (now + i) (now0 + l))
      ∧ right_deadline g2 = Some (Z.min (now + i) (now0 + l))
      ∧ now < Z.min (now + i) (now0 + l).
Proof.
  unfold newWithClock. case_guard E0; [done|]. case_guard E; [done|]. bool_prop.
  intros [= <-]. set (g' := guard_run reads _).
  set (good g := expires g = now0 + l ∧ idle g = i
                 ∧ ∀ d, left_deadline g = Some d ∨ right_deadline g = Some d → d <= now0 + l).
  assert (good g') as (He & Hi & Hd).
  { unfold g'. clear g'.
    assert (good (MkGuard i (now0 + l) None None)) as Hg0 by (split_and!; [done|done|by intros d [?|?]]).
    revert Hg0. generalize (MkGuard i (now0 + l) None None).
    induction reads as [|[n now] reads IH]; intros g Hgood; [done|]. cbn [guard_run]. apply IH.
    unfold guarded_read. case_match; [|done]. unfold touch. destruct Hgood as (He & Hi & Hd).
    case_guard E1; [done|]. cbn. split_and!; [done|done|]. cbn. intros d.
    case_guard E2; bool_prop; intros [[= <-]|[= <-]]; lia. }
  split_and!; [done..|]. intros now g2. unfold touch. case_guard E1; [done|]. bool_prop.
  cbn. intros [= <-]. cbn. rewrite He, Hi in *. case_guard E2; bool_prop; split_and!; try f_equal; lia.
Qed.

Lemma guard_deadlines_bounded_witness :
  newWithClock true (30 * Second) (40 * Second) 0 = Ok (MkGuard (30 * Second) (40 * Second) None None)
  ∧ left_deadline (guard_run [(1%nat, Second); (5%nat, 20 * Second)] (MkGuard (30 * Second) (40 * Second) None None))
    = Some (40 * Second)
  ∧ expires (guard_run [(1%nat, Second); (5%nat, 20 * Second)] (MkGuard (30 * Second) (40 * Second) None None))
    = 0 + 40 * Second.
Proof.
  assert (newWithClock true (30 * Second) (40 * Second) 0
          = Ok (MkGuard (30 * Second) (40 * Second) None None)) as H by reflexivity.
  split; [exact H|]. split; [reflexivity|].
  apply (guard_deadlines_bounded true (30 * Second) (40 * Second) 0 _ [(1%nat, Second); (5%nat, 20 * Second)] H).
Defined.
