(* ===== verification/RelayService.v ===== *)
(** * The rendezvous relay: [internal/relay/service.go]

    Admission buckets, control registration, pending opens, joins and active slots.
    Objects the Go code shares by pointer live in two heaps ([control_heap],
    [item_heap]) and are compared by their address. Each definition is one critical
    section under [Service.mu]; sockets, TLS and the byte copy are outside. *)

From S2P Require Import Prelude GoIO Protocol Identifiers.

Definition SPKIHash : Type := arr 32.
Abbreviation addr := nat.
(** A connection, by identity. *)
Abbreviation connection := nat.

(** The limits of [config.Relay] that this file reads, with the defaults applied. *)
Record Limits := MkLimits {
  PendingGlobal : Z;
  PendingPerRoute : Z;
  PendingPerClientValue : Z;
  ActiveGlobal : Z;
  ActivePerRoute : Z;
  ActivePerClientValue : Z;
  Join : Z }.

Record routeAuthorization := RouteAuthorization { dnsName : string; pins : gset SPKIHash }.

Definition clientOpenInterval : Z := Second.
Definition clientOpenBurst : Z := 4.
Definition clientOpenCapacity : Z := clientOpenBurst * clientOpenInterval.

Record clientAdmission := ClientAdmission {
  openCredit : Z;
  lastOpenRefill : Z;
  adm_pending : Z;
  adm_active : Z }.
#[export] Instance eta_clientAdmission : Eta clientAdmission := λ a,
  ClientAdmission (openCredit a) (lastOpenRefill a) (adm_pending a) (adm_active a).

Record control := Control { ctl_route : RouteID; epoch : EpochID; pin : SPKIHash; ctl_conn : connection }.

Definition pendingKey : Type := RouteID * EpochID * SessionID.
Definition key_route (k : pendingKey) : RouteID := k.1.1.
Definition key_epoch (k : pendingKey) : EpochID := k.1.2.

(** What the one-slot channel [resolved] of an item has been sent, and whether the
    handler that received a connection has given its active slot back. *)
Inductive resolution :=
| Waiting
| Resolved (connector : option connection)
| Finished.

(** The admission pointer of an item is the entry of [clientName]: entries of the map are
    created once, in [newService], and never replaced. *)
Record pending := Pending {
  key : pendingKey;
  item_control : addr;
  connectorPin : SPKIHash;
  clientName : string;
  client : connection;
  deadline : Z;
  resolved : resolution }.
#[export] Instance eta_pending : Eta pending := λ p,
  Pending (key p) (item_control p) (connectorPin p) (clientName p) (client p) (deadline p) (resolved p).

Record Service := MkService {
  limits : Limits;
  clients : gmap string (gset SPKIHash);
  routes : gmap RouteID routeAuthorization;
  clientAdmissions : gmap string clientAdmission;
  controls : gmap RouteID addr;
  pendings : gmap pendingKey addr;
  pendingPerRoute : gmap RouteID Z;
  activeGlobal : Z;
  activePerRoute : gmap RouteID Z;
  control_heap : gmap addr control;
  item_heap : gmap addr pending }.
#[export] Instance eta_Service : Eta Service := λ s,
  MkService (limits s) (clients s) (routes s) (clientAdmissions s) (controls s) (pendings s)
    (pendingPerRoute s) (activeGlobal s) (activePerRoute s) (control_heap s) (item_heap s).

(** ** Construction *)

Definition newClientAdmissions (cs : gmap string (gset SPKIHash)) (now : Z) : gmap string clientAdmission :=
  (λ _, ClientAdmission clientOpenCapacity now 0 0) <$> cs.

(** One configured route: its textual ID, the connector's DNS name and its parsed pins. *)
Record route_value := RouteValue { rv_id : list byte; rv_dns : string; rv_pins : gset SPKIHash }.

Inductive service_err := ErrRouteID | ErrDuplicateIdentity.

(** The loop over [value.Routes]; [seen] are the keys of [allPeers]. *)
Fixpoint load_routes (values : list route_value) (seen : gset string)
    (acc : gmap RouteID routeAuthorization) : result service_err (gmap RouteID routeAuthorization) :=
  match values with
  | [] => Ok acc
  | v :: rest =>
      match ParseRouteID (rv_id v) with
      | Err _ => Err ErrRouteID
      | Ok route =>
          if bool_decide (rv_dns v ∈ seen) then Err ErrDuplicateIdentity
          else load_routes rest ({[rv_dns v]} ∪ seen)
                 (<[route := RouteAuthorization (rv_dns v) (rv_pins v)]> acc)
      end
  end.

Definition newService (lim : Limits) (cs : gmap string (gset SPKIHash)) (values : list route_value)
    (now : Z) : result service_err Service :=
  match load_routes values (dom cs) ∅ with
  | Err e => Err e
  | Ok rs => Ok (MkService lim cs rs (newClientAdmissions cs now) ∅ ∅ ∅ 0 ∅ ∅ ∅)
  end.

(** ** Authorization and the dispatch of [Handle] *)

Definition authorizedClient (name : string) (p : SPKIHash) (s : Service) : bool :=
  match clients s !! name with
  | Some pins => bool_decide (p ∈ pins)
  | None => false
  end.

Definition route_matches (name : string) (p : SPKIHash) (kv : RouteID * routeAuthorization) : bool :=
  bool_decide (dnsName kv.2 = name) && bool_decide (p ∈ pins kv.2).
(** The first match of an iteration over [service.routes], in some order. *)
Definition authorizedConnector (name : string) (p : SPKIHash) (s : Service) : option RouteID :=
  fst <$> head (filter (λ kv, route_matches name p kv = true) (map_to_list (routes s))).

(** [allowOpen]: a one-per-second bucket with a burst of four. *)
Definition allowOpen (now : Z) (a : clientAdmission) : clientAdmission * bool :=
  let elapsed := sat_sub now (lastOpenRefill a) in
  let a :=
    if 0 <? elapsed then
      let missing := clientOpenCapacity - openCredit a in
      let credit := if (missing <=? 0) || (missing <=? elapsed)
                    then clientOpenCapacity else openCredit a + elapsed in
      a <| openCredit := credit |> <| lastOpenRefill := now |>
    else a in
  if openCredit a <? clientOpenInterval then (a, false)
  else (a <| openCredit := openCredit a - clientOpenInterval |>, true).

Definition consumeClientCarrier (name : string) (now : Z) (s : Service) : Service * bool :=
  match clientAdmissions s !! name with
  | None => (s, false)
  | Some a => let '(a', ok) := allowOpen now a in
              (s <| clientAdmissions := <[name := a']> (clientAdmissions s) |>, ok)
  end.

(** What [Handle] does with the first frame of an authenticated peer. *)
Inductive dispatch :=
| Drop
| ServeControl (route : RouteID)
| JoinData (route : RouteID) (ep : EpochID) (session : SessionID)
| ServeClient (name : string) (route : RouteID).

Definition dispatch_frame (name : string) (p : SPKIHash) (f : Frame) (s : Service) : dispatch :=
  match f with
  | ControlRegister route _ =>
      match authorizedConnector name p s with
      | Some r => if bool_decide (r = route) then ServeControl r else Drop
      | None => Drop
      end
  | DataJoin route ep session =>
      match authorizedConnector name p s with
      | Some r => if bool_decide (r = route) then JoinData route ep session else Drop
      | None => Drop
      end
  | ClientOpen route => if authorizedClient name p s then ServeClient name route else Drop
  | _ => Drop
  end.

(** [Handle] from the verified peer identity to the dispatch: a client is charged before
    its frame is read; [received] is the result of [ReadFrame]. *)
Definition Handle_admit (name : string) (p : SPKIHash) (now : Z) (received : result proto_err Frame)
    (s : Service) : Service * dispatch :=
  let after_charge :=
    if authorizedClient name p s then consumeClientCarrier name now s else (s, true) in
  let '(s', admitted) := after_charge in
  if negb admitted then (s', Drop)
  else match received with
       | Err _ => (s', Drop)
       | Ok f => (s', dispatch_frame name p f s')
       end.

(** ** Pending opens *)

(** [resolvePendingLocked(item, connector)] *)
Definition resolvePendingLocked (i : addr) (it : pending) (connector : option connection) (s : Service)
    : Service :=
  let adm := match clientAdmissions s !! clientName it with
             | Some a => <[clientName it := a <| adm_pending := adm_pending a - 1 |>]> (clientAdmissions s)
             | None => clientAdmissions s
             end in
  s <| pendings := delete (key it) (pendings s) |>
    <| pendingPerRoute := decr_del (key_route (key it)) (pendingPerRoute s) |>
    <| clientAdmissions := adm |>
    <| item_heap := <[i := it <| resolved := Resolved connector |>]> (item_heap s) |>.

(** Resolve item [i] with nil if it is pending; the client connection to close. *)
Definition cancel_addr (i : addr) (s : Service) : Service * option connection :=
  match item_heap s !! i with
  | Some it => (resolvePendingLocked i it None s, Some (client it))
  | None => (s, None)
  end.

(** The test of the two loops over [service.pending]. *)
Definition owned_by (c : addr) (ctl : control) (it : pending) : bool :=
  bool_decide (item_control it = c) && bool_decide (key_route (key it) = ctl_route ctl)
  && bool_decide (key_epoch (key it) = epoch ctl).
Definition owned_at (c : addr) (ctl : control) (s : Service) (i : addr) : bool :=
  match item_heap s !! i with Some it => owned_by c ctl it | None => false end.
Definition owned_items (c : addr) (ctl : control) (s : Service) : list addr :=
  filter (λ i, owned_at c ctl s i = true) (map_to_list (pendings s)).*2.
Definition cancel_all (ids : list addr) (s : Service) : Service * list connection :=
  foldl (λ acc i, let '(s', c) := cancel_addr i acc.1 in (s', acc.2 ++ option_list c)) (s, []) ids.

(** [installControl(current)]: [current] is freshly allocated by [serveControl]. *)
Definition installControl (c : addr) (ctl : control) (s : Service)
    : Service * option addr * list connection :=
  let old := controls s !! ctl_route ctl in
  let s := s <| controls := <[ctl_route ctl := c]> (controls s) |>
             <| control_heap := <[c := ctl]> (control_heap s) |> in
  match old with
  | None => (s, None, [])
  | Some o =>
      match control_heap s !! o with
      | None => (s, Some o, [])
      | Some octl =>
          let '(s, cs) := cancel_all (owned_items o octl s) s in
          (s, Some o, cs)
      end
  end.

Definition removeControl (c : addr) (ctl : control) (s : Service) : Service * list connection :=
  if negb (bool_decide (controls s !! ctl_route ctl = Some c)) then (s, [])
  else
    let s := s <| controls := delete (ctl_route ctl) (controls s) |> in
    cancel_all (owned_items c ctl s) s.

(** [beginPending]; [i] is the address of the new item. *)
Definition beginPending (name : string) (route : RouteID) (session : SessionID) (conn : connection)
    (now : Z) (i : addr) (s : Service) : Service * option (addr * addr) :=
  match clientAdmissions s !! name with
  | None => (s, None)
  | Some adm =>
      match controls s !! route with
      | None => (s, None)
      | Some c =>
          match control_heap s !! c with
          | None => (s, None)
          | Some ctl =>
              if (PendingGlobal (limits s) <=? Z.of_nat (size (pendings s)))
                 || (PendingPerRoute (limits s) <=? cnt (pendingPerRoute s) route)
                 || (PendingPerClientValue (limits s) <=? adm_pending adm)
              then (s, None)
              else
                let k := (route, epoch ctl, session) in
                match pendings s !! k with
                | Some _ => (s, None)
                | None =>
                    let item := Pending k c (pin ctl) name conn (now + Join (limits s)) Waiting in
                    (s <| pendings := <[k := i]> (pendings s) |>
                       <| pendingPerRoute := incr route (pendingPerRoute s) |>
                       <| clientAdmissions :=
                            <[name := adm <| adm_pending := adm_pending adm + 1 |>]> (clientAdmissions s) |>
                       <| item_heap := <[i := item]> (item_heap s) |>, Some (c, i))
                end
          end
      end
  end.

Definition cancelPendingKey (k : pendingKey) (s : Service) : Service * option connection :=
  match pendings s !! k with
  | None => (s, None)
  | Some i => cancel_addr i s
  end.

(** Pointer identity: only the object itself, never a later one under the same key. *)
Definition cancelPendingItem (i : addr) (s : Service) : Service * option connection :=
  match item_heap s !! i with
  | None => (s, None)
  | Some it =>
      if bool_decide (pendings s !! key it = Some i)
      then (resolvePendingLocked i it None s, Some (client it)) else (s, None)
  end.

(** ** Active pairs *)

Definition joinData (conn : connection) (route : RouteID) (ep : EpochID) (session : SessionID)
    (p : SPKIHash) (now : Z) (s : Service) : Service * bool :=
  match pendings s !! (route, ep, session), controls s !! route with
  | Some i, Some c =>
      match item_heap s !! i, control_heap s !! c with
      | Some it, Some ctl =>
          match clientAdmissions s !! clientName it with
          | None => (s, false)
          | Some adm =>
              if bool_decide (c ≠ item_control it) || bool_decide (epoch ctl ≠ ep)
                 || bool_decide (pin ctl ≠ p) || bool_decide (connectorPin it ≠ p)
                 || (deadline it <? now)
                 || (ActiveGlobal (limits s) <=? activeGlobal s)
                 || (ActivePerRoute (limits s) <=? cnt (activePerRoute s) route)
                 || (ActivePerClientValue (limits s) <=? adm_active adm)
              then (s, false)
              else
                let s := s <| activeGlobal := activeGlobal s + 1 |>
                           <| activePerRoute := incr route (activePerRoute s) |>
                           <| clientAdmissions :=
                                <[clientName it := adm <| adm_active := adm_active adm + 1 |>]>
                                  (clientAdmissions s) |> in
                (resolvePendingLocked i it (Some conn) s, true)
          end
      | _, _ => (s, false)
      end
  | _, _ => (s, false)
  end.

Definition finishActive (i : addr) (it : pending) (s : Service) : Service :=
  let adm := match clientAdmissions s !! clientName it with
             | Some a => <[clientName it := a <| adm_active := adm_active a - 1 |>]> (clientAdmissions s)
             | None => clientAdmissions s
             end in
  s <| activeGlobal := activeGlobal s - 1 |>
    <| activePerRoute := decr_del (key_route (key it)) (activePerRoute s) |>
    <| clientAdmissions := adm |>
    <| item_heap := <[i := it <| resolved := Finished |>]> (item_heap s) |>.

(** [discardResolution(item)] on the received value, and the end of [serveClient]: the
    slot is given back exactly when a connection was received. *)
Definition take_resolution (i : addr) (s : Service) : Service * option connection :=
  match item_heap s !! i with
  | Some it =>
      match resolved it with
      | Resolved (Some c) => (finishActive i it s, Some c)
      | _ => (s, None)
      end
  | None => (s, None)
  end.

(** ** Interleavings: the handlers of all peers, one critical section at a time *)

Inductive step : Service → Service → Prop :=
| S_charge s name now : step s (consumeClientCarrier name now s).1
| S_install s c ctl : control_heap s !! c = None → step s (installControl c ctl s).1.1
| S_remove s c ctl : control_heap s !! c = Some ctl → step s (removeControl c ctl s).1
| S_open s name route session conn now i :
    item_heap s !! i = None → step s (beginPending name route session conn now i s).1
| S_cancel_key s k : step s (cancelPendingKey k s).1
| S_cancel_item s i : step s (cancelPendingItem i s).1
| S_join s conn route ep session p now : step s (joinData conn route ep session p now s).1
| S_finish s i : step s (take_resolution i s).1.

Inductive reachable : Service → Prop :=
| R_new lim cs values now s : newService lim cs values now = Ok s → reachable s
| R_step s s' : reachable s → step s s' → reachable s'.
