(* ===== verification/RelayInvariant.v ===== *)
(** * Invariants of the rendezvous relay

    Exact accounting of [RelayService], the ownership of pending items by the current
    control, and the theorems about admission, joins and registration. *)

From S2P Require Import Prelude GoIO Protocol Identifiers RelayService.

(** ** Counters as sizes of sets of items *)

Definition waiting (it : pending) : bool := match resolved it with Waiting => true | _ => false end.
Definition joined (it : pending) : bool := match resolved it with Resolved (Some _) => true | _ => false end.
Definition on_route (r : RouteID) (it : pending) : bool := bool_decide (key_route (key it) = r).
Definition of_client (n : string) (it : pending) : bool := bool_decide (clientName it = n).
Definition both (P Q : pending → bool) (it : pending) : bool := P it && Q it.

(** What the counters of the service must say, given its items. *)
Record counts (s : Service) : Prop := {
  n_pending : Z.of_nat (size (pendings s)) = count_if waiting (item_heap s);
  n_route : ∀ r, cnt (pendingPerRoute s) r = count_if (both waiting (on_route r)) (item_heap s);
  n_active : activeGlobal s = count_if joined (item_heap s);
  n_active_route : ∀ r, cnt (activePerRoute s) r = count_if (both joined (on_route r)) (item_heap s);
  n_client : ∀ n a, clientAdmissions s !! n = Some a →
    adm_pending a = count_if (both waiting (of_client n)) (item_heap s)
    ∧ adm_active a = count_if (both joined (of_client n)) (item_heap s) }.

(** The map of pending items is the set of waiting items, indexed by key. *)
Record links (s : Service) : Prop := {
  l_pending : ∀ k i, pendings s !! k = Some i ↔
    ∃ it, item_heap s !! i = Some it ∧ key it = k ∧ resolved it = Waiting;
  l_client : ∀ i it, item_heap s !! i = Some it → is_Some (clientAdmissions s !! clientName it);
  l_control : ∀ r c, controls s !! r = Some c → ∃ ctl, control_heap s !! c = Some ctl ∧ ctl_route ctl = r;
  l_item : ∀ i it, item_heap s !! i = Some it →
    ∃ ctl, control_heap s !! item_control it = Some ctl ∧ epoch ctl = key_epoch (key it)
           ∧ ctl_route ctl = key_route (key it) ∧ pin ctl = connectorPin it }.

(** Every waiting item belongs to the control registered for its route now. *)
Definition owned (s : Service) : Prop :=
  ∀ i it, item_heap s !! i = Some it → resolved it = Waiting →
          controls s !! key_route (key it) = Some (item_control it).

Record bounds (s : Service) : Prop := {
  b_pending : Z.of_nat (size (pendings s)) <= Z.max 0 (PendingGlobal (limits s));
  b_route : ∀ r, cnt (pendingPerRoute s) r <= Z.max 0 (PendingPerRoute (limits s));
  b_active : activeGlobal s <= Z.max 0 (ActiveGlobal (limits s));
  b_active_route : ∀ r, cnt (activePerRoute s) r <= Z.max 0 (ActivePerRoute (limits s));
  b_client : ∀ n a, clientAdmissions s !! n = Some a →
    adm_pending a <= Z.max 0 (PendingPerClientValue (limits s))
    ∧ adm_active a <= Z.max 0 (ActivePerClientValue (limits s)) }.

Record base (s : Service) : Prop := { base_counts : counts s; base_links : links s; base_bounds : bounds s }.
Definition inv (s : Service) : Prop := base s ∧ owned s.

(** ** Resolving a waiting item *)

(** The change of a counter when one item changes from [x] to [y]. *)
Ltac count_item :=
  repeat match goal with
  | H : item_heap ?s !! ?i = Some ?x |- context [count_if ?P (<[?i := ?y]> (item_heap ?s))] =>
      rewrite (count_if_update P (item_heap s) i x y H)
  | H : item_heap ?s !! ?i = None |- context [count_if ?P (<[?i := ?y]> (item_heap ?s))] =>
      rewrite (count_if_fresh P (item_heap s) i y H)
  end;
  unfold both, waiting, joined, on_route, of_client, b2i in *; cbn;
  repeat match goal with H : resolved _ = _ |- _ => rewrite H in * end; cbn.

Lemma size_delete_pending (m : gmap pendingKey addr) k i :
  m !! k = Some i → Z.of_nat (size (delete k m)) = Z.of_nat (size m) - 1.
Proof.
  intros Hk. rewrite map_size_delete_Some by eauto.
  assert (size m ≠ 0)%nat; [|lia]. intros Hz%map_size_empty_inv. by simplify_map_eq.
Qed.

Lemma links_resolve i it x s :
  links s → item_heap s !! i = Some it → resolved it = Waiting →
  links (resolvePendingLocked i it x s).
Proof.
  intros [Lp Lc Lct Li] Hi Hw. unfold resolvePendingLocked.
  destruct (Lc _ _ Hi) as [a Ha]. rewrite Ha. split; cbn.
  - intros k j. rewrite lookup_delete, lookup_insert. split.
    + case_decide as Hk; [done|]. intros Hj. apply Lp in Hj as (jt & Hj & Hjk & Hjw).
      case_decide as Hji; [|by exists jt]. subst. by simplify_eq.
    + case_decide as Hji; intros (jt & Hj & Hjk & Hjw); [by simplify_eq|].
      case_decide as Hk; [|apply Lp; by exists jt].
      assert (pendings s !! k = Some j) as P1 by (apply Lp; by exists jt).
      assert (pendings s !! k = Some i) as P2 by (apply Lp; by exists it). congruence.
  - intros j jt. rewrite lookup_insert. case_decide as Hji.
    + intros [= <-]. cbn. rewrite lookup_insert_eq. eauto.
    + intros Hj. rewrite lookup_insert. case_decide; eauto.
  - done.
  - intros j jt. rewrite lookup_insert. case_decide as Hji; [|apply Li].
    intros [= <-]. cbn. by apply Li with (i := i).
Qed.

Lemma base_cancel i it s :
  base s → item_heap s !! i = Some it → resolved it = Waiting →
  base (resolvePendingLocked i it None s).
Proof.
  intros [Hc Hl Hb] Hi Hw. split; [|by apply links_resolve|].
  - destruct Hc as [N1 N2 N3 N4 N5]. unfold resolvePendingLocked.
    destruct (l_client _ Hl _ _ Hi) as [a Ha]. rewrite Ha. split; cbn.
    + rewrite (size_delete_pending _ _ i) by (apply (l_pending _ Hl); eauto).
      rewrite N1. count_item. lia.
    + intros r. rewrite cnt_decr_del, N2. count_item. repeat case_bool_decide; repeat case_decide; done || lia.
    + rewrite N3. count_item. lia.
    + intros r. rewrite N4. count_item. lia.
    + intros n b. rewrite lookup_insert. case_decide as Hn.
      * intros [= <-]. subst n. cbn. destruct (N5 _ _ Ha) as [-> ->]. count_item.
        rewrite bool_decide_eq_true_2 by done. lia.
      * intros Hb'. destruct (N5 _ _ Hb') as [-> ->]. count_item.
        rewrite bool_decide_eq_false_2 by done. lia.
  - destruct Hb as [B1 B2 B3 B4 B5]. unfold resolvePendingLocked.
    destruct (l_client _ Hl _ _ Hi) as [a Ha]. rewrite Ha. split; cbn; try done.
    + rewrite (size_delete_pending _ _ i) by (apply (l_pending _ Hl); eauto). lia.
    + intros r. rewrite cnt_decr_del. specialize (B2 r). case_decide; lia.
    + intros n b. rewrite lookup_insert. case_decide as Hn; [|apply B5].
      intros [= <-]. cbn. destruct (B5 _ _ Ha). lia.
Qed.

Lemma owned_resolve i it x s : owned s → owned (resolvePendingLocked i it x s).
Proof.
  intros Ho j jt. unfold resolvePendingLocked. cbn. rewrite lookup_insert.
  case_decide; [by intros [= <-]|]. apply Ho.
Qed.

(** Only a waiting item is ever resolved. *)
Lemma pending_waiting s k i :
  links s → pendings s !! k = Some i →
  ∃ it, item_heap s !! i = Some it ∧ key it = k ∧ resolved it = Waiting.
Proof. intros Hl Hk. by apply (l_pending _ Hl). Qed.

(** ** Cancelling a list of items *)

Lemma cancel_all_app s cs ids :
  foldl (λ acc i, let '(s', c) := cancel_addr i acc.1 in (s', acc.2 ++ option_list c)) (s, cs) ids
  = ((cancel_all ids s).1, cs ++ (cancel_all ids s).2).
Proof.
  unfold cancel_all. revert s cs. induction ids as [|i ids IH]; intros s cs; cbn; [by rewrite app_nil_r|].
  destruct (cancel_addr i s) as [s' c]. rewrite IH, (IH s' (option_list c)). cbn. by rewrite app_assoc.
Qed.

Lemma cancel_all_cons i ids s :
  (cancel_all (i :: ids) s).1 = (cancel_all ids (cancel_addr i s).1).1.
Proof.
  unfold cancel_all at 1. cbn. destruct (cancel_addr i s) as [s' c].
  by rewrite cancel_all_app.
Qed.

Definition all_waiting (s : Service) (ids : list addr) : Prop :=
  ∀ i, i ∈ ids → ∃ it, item_heap s !! i = Some it ∧ resolved it = Waiting.

Lemma cancel_all_spec ids s :
  base s → NoDup ids → all_waiting s ids →
  let s' := (cancel_all ids s).1 in
  base s' ∧ controls s' = controls s ∧ control_heap s' = control_heap s
  ∧ ∀ i it, item_heap s' !! i = Some it → resolved it = Waiting → item_heap s !! i = Some it ∧ i ∉ ids.
Proof.
  revert s. induction ids as [|i ids IH]; intros s Hb Hn Hw.
  { cbn. split_and!; try done. intros. split; [done|]. apply not_elem_of_nil. }
  cbn zeta. rewrite cancel_all_cons. apply list.NoDup_cons in Hn as [Hni Hn].
  destruct (Hw i) as (it & Hi & Hit); [by left|].
  unfold cancel_addr. rewrite Hi. cbn [fst].
  destruct (IH (resolvePendingLocked i it None s)) as (B & C1 & C2 & C3);
    [by apply base_cancel|done| |].
  { intros j Hj. destruct (Hw j) as (jt & Hj' & Hjt); [by right|].
    exists jt. unfold resolvePendingLocked. cbn. rewrite lookup_insert_ne by (intros <-; done). done. }
  split_and!; [done|by rewrite C1|by rewrite C2|].
  intros j jt Hj Hjt. destruct (C3 j jt Hj Hjt) as [Hh Hni'].
  unfold resolvePendingLocked in Hh. cbn in Hh. rewrite lookup_insert in Hh.
  case_decide; [by simplify_eq|]. split; [done|]. by intros [->|?]%elem_of_cons.
Qed.

Lemma owned_items_spec c ctl s :
  links s → NoDup (owned_items c ctl s) ∧ all_waiting s (owned_items c ctl s)
  ∧ ∀ i it, item_heap s !! i = Some it → resolved it = Waiting → owned_by c ctl it = true →
            i ∈ owned_items c ctl s.
Proof.
  intros Hl. assert (∀ i, i ∈ (map_to_list (pendings s)).*2 ↔
    ∃ it, item_heap s !! i = Some it ∧ resolved it = Waiting) as Hin.
  { intros i. rewrite list_elem_of_fmap. split.
    - intros ([k j] & -> & Hk%elem_of_map_to_list). apply (l_pending _ Hl) in Hk as (it & ? & _ & ?).
      by exists it.
    - intros (it & Hi & Hw). exists (key it, i). split; [done|]. apply elem_of_map_to_list.
      apply (l_pending _ Hl). eauto. }
  split_and!.
  - apply list.NoDup_filter. apply NoDup_fmap_2_strong; [|apply NoDup_map_to_list].
    intros [k1 i] [k2 j] H1%elem_of_map_to_list H2%elem_of_map_to_list. cbn. intros <-.
    apply (l_pending _ Hl) in H1 as (? & ? & <- & _), H2 as (? & ? & <- & _). by simplify_eq.
  - intros i [_ Hi]%list_elem_of_filter. by apply Hin.
  - intros i it Hi Hw Ho. apply list_elem_of_filter. split; [|apply Hin; eauto].
    unfold owned_at. by rewrite Hi.
Qed.

(** ** Preservation *)

Lemma cancel_keeps i it s :
  inv s → item_heap s !! i = Some it → resolved it = Waiting →
  inv (resolvePendingLocked i it None s).
Proof. intros [] ??. split; [by apply base_cancel|by apply owned_resolve]. Qed.

(** A change of the admission entries that leaves their counters alone. *)
Lemma inv_admission s n a a' :
  inv s → clientAdmissions s !! n = Some a → adm_pending a' = adm_pending a →
  adm_active a' = adm_active a →
  inv (s <| clientAdmissions := <[n := a']> (clientAdmissions s) |>).
Proof.
  intros [[[N1 N2 N3 N4 N5] [Lp Lc Lct Li] [B1 B2 B3 B4 B5]] Ho] Ha Hp Hact.
  split; [split; split; cbn; try done|done].
  - intros m b. rewrite lookup_insert. case_decide as Hm; [|apply N5].
    intros [= <-]. subst m. rewrite Hp, Hact. by apply N5.
  - intros j jt Hj. rewrite lookup_insert. case_decide; [eauto|by apply Lc with (i := j)].
  - intros m b. rewrite lookup_insert. case_decide as Hm; [|apply B5].
    intros [= <-]. subst m. rewrite Hp, Hact. by apply B5 with (n := n).
Qed.

Lemma allowOpen_counters now a :
  adm_pending (allowOpen now a).1 = adm_pending a ∧ adm_active (allowOpen now a).1 = adm_active a.
Proof. unfold allowOpen. repeat case_match; done. Qed.

Lemma charge_keeps name now s : inv s → inv (consumeClientCarrier name now s).1.
Proof.
  intros Hi. unfold consumeClientCarrier. destruct (clientAdmissions s !! name) as [a|] eqn:Ha; [|done].
  destruct (allowOpen_counters now a) as [Hp Hc]. destruct (allowOpen now a) as [a' ok].
  by eapply inv_admission.
Qed.

Lemma open_keeps name route session conn now i s :
  inv s → item_heap s !! i = None → inv (beginPending name route session conn now i s).1.
Proof.
  intros Hinv Hi. unfold beginPending.
  destruct (clientAdmissions s !! name) as [a|] eqn:Ha; [|done].
  destruct (controls s !! route) as [c|] eqn:Hc; [|done].
  destruct (control_heap s !! c) as [ctl|] eqn:Hctl; [|done].
  case_guard Hg; [done|]. bool_prop.
  destruct (pendings s !! (route, epoch ctl, session)) eqn:Hk; [done|]. cbn [fst].
  destruct Hinv as [[[N1 N2 N3 N4 N5] [Lp Lc Lct Li] [B1 B2 B3 B4 B5]] Ho].
  split; [split; split; cbn|].
  - rewrite map_size_insert_None by done. count_item. lia.
  - intros r. rewrite cnt_incr, N2. count_item. cbn. repeat case_bool_decide; repeat case_decide; done || lia.
  - rewrite N3. count_item. lia.
  - intros r. rewrite N4. count_item. lia.
  - intros n b. rewrite lookup_insert. case_decide as Hn.
    + intros [= <-]. subst n. cbn. destruct (N5 _ _ Ha) as [-> ->]. count_item.
      rewrite bool_decide_eq_true_2 by done. lia.
    + intros Hb. destruct (N5 _ _ Hb) as [-> ->]. count_item.
      rewrite bool_decide_eq_false_2 by done. lia.
  - intros k j. rewrite !lookup_insert. split.
    + case_decide as Hkk.
      * intros [= <-]. case_decide; [|done]. eexists; split_and!; [done|by cbn|done].
      * intros Hj. apply Lp in Hj as (jt & Hj & Hjk & Hjw). case_decide; [by simplify_eq|]. by exists jt.
    + case_decide as Hij; intros (jt & Hj & Hjk & Hjw).
      * simplify_eq. cbn. by rewrite decide_True by done.
      * assert (pendings s !! k = Some j) as Hp by (apply Lp; by exists jt).
        case_decide as Hkk; [|done]. subst k. unfold pendingKey in *. congruence.
  - intros j jt. rewrite lookup_insert. case_decide as Hij.
    + intros [= <-]. cbn. rewrite lookup_insert_eq. eauto.
    + intros Hj. rewrite lookup_insert. case_decide; eauto.
  - done.
  - intros j jt. rewrite lookup_insert. case_decide as Hij; [|apply Li].
    intros [= <-]. cbn. exists ctl. split_and!; try done.
    destruct (Lct _ _ Hc) as (ctl' & ? & ?). by simplify_eq.
  - rewrite map_size_insert_None by done. lia.
  - intros r. rewrite cnt_incr. specialize (B2 r). case_decide; subst; lia.
  - done.
  - done.
  - intros n b. rewrite lookup_insert. case_decide as Hn; [|apply B5].
    intros [= <-]. cbn. destruct (B5 _ _ Ha). lia.
  - intros j jt. cbn. rewrite lookup_insert. case_decide; [by intros [= <-] _|apply Ho].
Qed.

(** Registering a fresh control under its route keeps everything but the ownership of the
    items of that route. *)
Lemma base_register c ctl s :
  base s → control_heap s !! c = None →
  base (s <| controls := <[ctl_route ctl := c]> (controls s) |>
          <| control_heap := <[c := ctl]> (control_heap s) |>).
Proof.
  intros [Hc Hl Hb] Hf. destruct Hc, Hl as [Lp Lc Lct Li], Hb. split; split; cbn; try done.
  - intros r d. rewrite !lookup_insert. case_decide as Hr.
    + intros [= <-]. exists ctl. by case_decide.
    + intros Hd. apply Lct in Hd as (dctl & Hd & ?). exists dctl. case_decide; [by simplify_eq|done].
  - intros i it Hi. destruct (Li _ _ Hi) as (d & Hd & ?). exists d. rewrite lookup_insert.
    case_decide; [by simplify_eq|done].
Qed.

Lemma base_unregister r s : base s → base (s <| controls := delete r (controls s) |>).
Proof.
  intros [Hc Hl Hb]. destruct Hc, Hl as [Lp Lc Lct Li], Hb. split; split; cbn; try done.
  intros q d [? Hd]%lookup_delete_Some. eauto.
Qed.

Lemma owned_by_item s i it c ctl :
  links s → item_heap s !! i = Some it → item_control it = c → control_heap s !! c = Some ctl →
  owned_by c ctl it = true.
Proof.
  intros Hl Hi Hc Hctl. destruct (l_item _ Hl _ _ Hi) as (d & Hd & He & Hr & _). subst c.
  simplify_eq. unfold owned_by. by rewrite He, Hr, !bool_decide_eq_true_2.
Qed.

Lemma install_keeps c ctl s :
  inv s → control_heap s !! c = None → inv (installControl c ctl s).1.1.
Proof.
  intros [Hb Ho] Hf. pose proof (base_register c ctl s Hb Hf) as Hb1. unfold installControl.
  set (s1 := s <| controls := _ |> <| control_heap := _ |>) in *.
  destruct (controls s !! ctl_route ctl) as [o|] eqn:Hold; cbn [fst].
  - destruct (l_control _ (base_links _ Hb) _ _ Hold) as (octl & Hoc & Hor).
    assert (o ≠ c) as Hne by (intros ->; congruence).
    assert (control_heap s1 !! o = Some octl) as Hoc1 by (cbn; by rewrite lookup_insert_ne).
    rewrite Hoc1.
    destruct (owned_items_spec o octl s1 (base_links _ Hb1)) as (Hnd & Haw & Hall).
    destruct (cancel_all_spec _ _ Hb1 Hnd Haw) as (Hb' & Hc' & _ & Hi').
    destruct (cancel_all (owned_items o octl s1) s1) as [s' cs]. cbn [fst] in *.
    split; [done|]. intros i it Hi Hw. destruct (Hi' _ _ Hi Hw) as [Hi1 Hn].
    rewrite Hc'. cbn. specialize (Ho i it Hi1 Hw). rewrite lookup_insert. case_decide as Hr; [|done].
    exfalso. apply Hn, (Hall i it); [done|done|].
    apply (owned_by_item s1 i); [apply Hb1|done| |done]. rewrite <-Hr in Ho. congruence.
  - split; [done|]. intros i it Hi Hw. specialize (Ho i it Hi Hw). cbn. rewrite lookup_insert.
    case_decide as Hr; [|done]. rewrite <-Hr in Ho. congruence.
Qed.

Lemma remove_keeps c ctl s :
  inv s → control_heap s !! c = Some ctl → inv (removeControl c ctl s).1.
Proof.
  intros [Hb Ho] Hf. unfold removeControl. case_guard Hg; [done|]. bool_prop.
  pose proof (base_unregister (ctl_route ctl) s Hb) as Hb1. set (s1 := s <| controls := _ |>) in *.
  destruct (owned_items_spec c ctl s1 (base_links _ Hb1)) as (Hnd & Haw & Hall).
  destruct (cancel_all_spec _ _ Hb1 Hnd Haw) as (Hb' & Hc' & _ & Hi').
  split; [done|]. intros i it Hi Hw. destruct (Hi' _ _ Hi Hw) as [Hi1 Hn].
  rewrite Hc'. cbn. specialize (Ho i it Hi1 Hw). rewrite lookup_delete. case_decide as Hr; [|done].
  exfalso. apply Hn, (Hall i it); [done|done|].
  apply (owned_by_item s1 i); [apply Hb1|done| |done]. rewrite <-Hr in Ho. congruence.
Qed.

Lemma cancel_item_keeps i s : inv s → inv (cancelPendingItem i s).1.
Proof.
  intros Hinv. unfold cancelPendingItem. destruct (item_heap s !! i) as [it|] eqn:Hi; [|done].
  case_bool_decide as Hp; [|done]. cbn [fst].
  destruct (pending_waiting _ _ _ (base_links _ (proj1 Hinv)) Hp) as (jt & Hj & _ & Hw).
  simplify_eq. by apply cancel_keeps.
Qed.

Lemma cancel_key_keeps k s : inv s → inv (cancelPendingKey k s).1.
Proof.
  intros Hinv. unfold cancelPendingKey, cancel_addr. destruct (pendings s !! k) as [i|] eqn:Hp; [|done].
  destruct (pending_waiting _ _ _ (base_links _ (proj1 Hinv)) Hp) as (jt & Hj & _ & Hw).
  rewrite Hj. by apply cancel_keeps.
Qed.

(** What a successful join has checked, and the state it leaves. *)
Record join_checked (route : RouteID) (ep : EpochID) (session : SessionID) (p : SPKIHash) (now : Z)
    (s : Service) (i : addr) (it : pending) (c : addr) (ctl : control) (a : clientAdmission) : Prop := {
  jc_pending : pendings s !! (route, ep, session) = Some i;
  jc_item : item_heap s !! i = Some it;
  jc_control : controls s !! route = Some c;
  jc_ctl : control_heap s !! c = Some ctl;
  jc_adm : clientAdmissions s !! clientName it = Some a;
  jc_owner : item_control it = c;
  jc_epoch : epoch ctl = ep;
  jc_pin : pin ctl = p ∧ connectorPin it = p;
  jc_deadline : now <= deadline it;
  jc_global : activeGlobal s < ActiveGlobal (limits s);
  jc_route : cnt (activePerRoute s) route < ActivePerRoute (limits s);
  jc_client : adm_active a < ActivePerClientValue (limits s) }.

Definition join_result (conn : connection) (i : addr) (it : pending) (a : clientAdmission) (s : Service)
    : Service :=
  resolvePendingLocked i it (Some conn)
    (s <| activeGlobal := activeGlobal s + 1 |>
       <| activePerRoute := incr (key_route (key it)) (activePerRoute s) |>
       <| clientAdmissions := <[clientName it := a <| adm_active := adm_active a + 1 |>]>
                                (clientAdmissions s) |>).

Lemma joinData_cases conn route ep session p now s :
  links s →
  (joinData conn route ep session p now s).2 = false ∧ (joinData conn route ep session p now s).1 = s
  ∨ ∃ i it c ctl a, join_checked route ep session p now s i it c ctl a
      ∧ resolved it = Waiting ∧ key it = (route, ep, session)
      ∧ joinData conn route ep session p now s = (join_result conn i it a s, true).
Proof.
  intros Hl. unfold joinData.
  destruct (pendings s !! (route, ep, session)) as [i|] eqn:Hp; [|by left].
  destruct (controls s !! route) as [c|] eqn:Hc; [|by left].
  destruct (pending_waiting _ _ _ Hl Hp) as (it & Hi & Hk & Hw).
  destruct (l_control _ Hl _ _ Hc) as (ctl & Hctl & Hr).
  destruct (l_client _ Hl _ _ Hi) as [a Ha]. rewrite Hi, Hctl, Ha.
  case_guard Hg; [by left|]. bool_prop. right. exists i, it, c, ctl, a.
  repeat match goal with H : ¬ (_ ≠ _) |- _ => apply dec_stable in H end.
  split; [split; try done; by subst|]. split_and!; [done|done|].
  unfold join_result. rewrite Hk. done.
Qed.

Lemma join_keeps conn route ep session p now s :
  inv s → inv (joinData conn route ep session p now s).1.
Proof.
  intros Hinv. destruct (joinData_cases conn route ep session p now s)
    as [[_ ->]|(i & it & c & ctl & a & Hj & Hw & Hk & ->)]; [by apply Hinv|done|].
  destruct Hinv as [[Hc Hl Hb] Ho], Hj. cbn [fst]. unfold join_result.
  split; [split|].
  - destruct Hc as [N1 N2 N3 N4 N5]. unfold resolvePendingLocked. cbn. rewrite lookup_insert_eq.
    split; cbn.
    + rewrite Hk, (size_delete_pending _ _ i) by done. rewrite N1. count_item. lia.
    + intros r. rewrite cnt_decr_del, N2. count_item. rewrite Hk.
      repeat case_bool_decide; repeat case_decide; done || lia.
    + rewrite N3. count_item. lia.
    + intros r. rewrite cnt_incr, N4. count_item. rewrite Hk.
      repeat case_bool_decide; repeat case_decide; done || lia.
    + intros n b. rewrite insert_insert_eq, lookup_insert. case_decide as Hn.
      * intros [= <-]. subst n. cbn. destruct (N5 _ _ jc_adm0) as [-> ->]. count_item.
        rewrite bool_decide_eq_true_2 by done. lia.
      * intros Hb'. destruct (N5 _ _ Hb') as [-> ->]. count_item.
        rewrite bool_decide_eq_false_2 by done. lia.
  - apply links_resolve; [|done|done]. destruct Hl as [Lp Lc Lct Li]. split; cbn; try done.
    intros j jt Hj. rewrite lookup_insert. case_decide; eauto.
  - destruct Hb as [B1 B2 B3 B4 B5]. unfold resolvePendingLocked. cbn. rewrite lookup_insert_eq.
    split; cbn.
    + rewrite Hk, (size_delete_pending _ _ i) by done. lia.
    + intros r. rewrite cnt_decr_del. specialize (B2 r). case_decide; lia.
    + lia.
    + intros r. rewrite cnt_incr. specialize (B4 r). rewrite Hk. case_decide as Hr; [|lia].
      subst r. cbn in *. lia.
    + intros n b. rewrite insert_insert_eq, lookup_insert. case_decide as Hn; [|apply B5].
      intros [= <-]. cbn. destruct (B5 _ _ jc_adm0). lia.
  - by apply owned_resolve.
Qed.

Lemma finish_keeps i s : inv s → inv (take_resolution i s).1.
Proof.
  intros Hinv. unfold take_resolution. destruct (item_heap s !! i) as [it|] eqn:Hi; [|done].
  destruct (resolved it) as [|[conn|]|] eqn:Hr; try done. cbn [fst].
  destruct Hinv as [[[N1 N2 N3 N4 N5] [Lp Lc Lct Li] [B1 B2 B3 B4 B5]] Ho].
  destruct (Lc _ _ Hi) as [a Ha]. unfold finishActive. rewrite Ha.
  split; [split; split; cbn|]; try done.
  - rewrite N1. count_item. lia.
  - intros r. rewrite N2. count_item. lia.
  - rewrite N3. count_item. lia.
  - intros r. rewrite cnt_decr_del, N4. count_item. repeat case_bool_decide; repeat case_decide; done || lia.
  - intros n b. rewrite lookup_insert. case_decide as Hn.
    + intros [= <-]. subst n. cbn. destruct (N5 _ _ Ha) as [-> ->]. count_item.
      rewrite bool_decide_eq_true_2 by done. lia.
    + intros Hb'. destruct (N5 _ _ Hb') as [-> ->]. count_item.
      rewrite bool_decide_eq_false_2 by done. lia.
  - intros k j. rewrite Lp, lookup_insert. case_decide as Hij; [|done].
    subst j. split; intros (jt & Hj & ? & ?); simplify_eq/=; congruence.
  - intros j jt. rewrite lookup_insert. case_decide as Hij.
    + intros [= <-]. cbn. rewrite lookup_insert_eq. eauto.
    + intros Hj. rewrite lookup_insert. case_decide; eauto.
  - intros j jt. rewrite lookup_insert. case_decide as Hij; [|apply Li].
    intros [= <-]. cbn. by apply Li with (i := i).
  - lia.
  - intros r. rewrite cnt_decr_del. specialize (B4 r). case_decide; lia.
  - intros n b. rewrite lookup_insert. case_decide as Hn; [|apply B5].
    intros [= <-]. cbn. destruct (B5 _ _ Ha). lia.
  - intros j jt. cbn. rewrite lookup_insert. case_decide; [by intros [= <-]|apply Ho].
Qed.

(** ** Reachable states *)

Lemma step_keeps s s' : inv s → step s s' → inv s'.
Proof.
  intros Hi Hs. inversion Hs; subst; auto using charge_keeps, install_keeps, remove_keeps, open_keeps,
    cancel_key_keeps, cancel_item_keeps, join_keeps, finish_keeps.
Qed.

Lemma newService_inv lim cs values now s : newService lim cs values now = Ok s → inv s.
Proof.
  unfold newService. destruct (load_routes values (dom cs) ∅) as [rs|]; [|done]. intros [= <-].
  split; [split|].
  - split; cbn; try done.
    intros n a. unfold newClientAdmissions. rewrite lookup_fmap. destruct (cs !! n); intros; by simplify_eq/=.
  - split; cbn; try done. intros k i. split; [done|]. by intros (it & Hi & _).
  - split; cbn; intros; rewrite ?map_size_empty, ?cnt_empty; try lia.
    unfold newClientAdmissions in *. rewrite lookup_fmap in *. destruct (cs !! n); simplify_eq/=. lia.
  - by intros i it.
Qed.

Lemma reachable_inv s : reachable s → inv s.
Proof. induction 1; [by eapply newService_inv|by eapply step_keeps]. Qed.

(** The configuration never changes. *)
Definition same_config (s s' : Service) : Prop :=
  limits s' = limits s ∧ clients s' = clients s ∧ routes s' = routes s.

Lemma cancel_all_config ids s : same_config s (cancel_all ids s).1.
Proof.
  revert s. induction ids as [|i ids IH]; intros s; [done|]. rewrite cancel_all_cons.
  destruct (IH (cancel_addr i s).1) as (A & B & C). unfold same_config. rewrite A, B, C.
  unfold cancel_addr. by case_match.
Qed.

Lemma step_config s s' : step s s' → same_config s s'.
Proof.
  destruct 1; unfold consumeClientCarrier, installControl, removeControl, beginPending, cancelPendingKey,
    cancelPendingItem, cancel_addr, joinData, take_resolution, finishActive;
    repeat (case_match; simplify_eq/=; try done).
  all: match goal with
    | H : cancel_all ?l ?x = _ |- _ => pose proof (cancel_all_config l x) as Hc; rewrite H in Hc; exact Hc
    | |- same_config _ (cancel_all ?l ?x).1 => exact (cancel_all_config l x)
    end.
Qed.
