(* ===== verification/RelaySafety.v ===== *)
(** * What the rendezvous relay guarantees

    Theorems about every reachable state of [RelayService]: accounting, joins,
    registration, the charge per client and the separation of roles. *)

From S2P Require Import Prelude GoIO Protocol Identifiers RelayService RelayInvariant.

(** ** Routes loaded from the configuration *)

(** Distinct routes have distinct connector names, none of which is a client. *)
Definition separated (cs : gset string) (rs : gmap RouteID routeAuthorization) : Prop :=
  (∀ r a, rs !! r = Some a → dnsName a ∉ cs)
  ∧ ∀ r a r' a', rs !! r = Some a → rs !! r' = Some a' → dnsName a = dnsName a' → r = r'.

Lemma load_routes_separated cs values seen acc rs :
  load_routes values seen acc = Ok rs → cs ⊆ seen → separated cs acc →
  (∀ r a, acc !! r = Some a → dnsName a ∈ seen) → separated cs rs.
Proof.
  revert seen acc. induction values as [|v rest IH]; intros seen acc; cbn.
  { by intros [= <-]. }
  destruct (ParseRouteID (rv_id v)) as [route|]; [|done]. case_bool_decide as Hs; [done|].
  intros Hl Hsub [Hc Hd] Hseen. apply IH in Hl; [done|set_solver| |].
  - split.
    + intros r a. rewrite lookup_insert. case_decide; [intros [= <-]; cbn; set_solver|by apply Hc].
    + intros r a r' a'. rewrite !lookup_insert.
      repeat case_decide; intros; simplify_eq/=; try done; try by eapply Hd.
      * destruct Hs. match goal with H : _ = dnsName _ |- _ => rewrite H end. eauto.
      * destruct Hs. match goal with H : dnsName _ = _ |- _ => rewrite <-H end. eauto.
  - intros r a. rewrite lookup_insert. case_decide; [intros [= <-]; cbn; set_solver|].
    intros Ha. apply Hseen in Ha. set_solver.
Qed.

Lemma reachable_separated s : reachable s → separated (dom (clients s)) (routes s).
Proof.
  induction 1 as [lim cs values now s Hs|s s' _ IH Hst].
  - revert Hs. unfold newService. destruct (load_routes values (dom cs) ∅) as [rs|] eqn:Hl; [|done].
    intros [= <-]. cbn. eapply load_routes_separated; [exact Hl|done| |]; [split|]; done.
  - destruct (step_config _ _ Hst) as (_ & -> & ->). exact IH.
Qed.

Lemma authorizedConnector_spec name p s r :
  separated (dom (clients s)) (routes s) →
  authorizedConnector name p s = Some r ↔
  ∃ a, routes s !! r = Some a ∧ dnsName a = name ∧ p ∈ pins a.
Proof.
  intros [_ Hd]. unfold authorizedConnector.
  set (l := filter _ (map_to_list (routes s))).
  assert (∀ q a, (q, a) ∈ l ↔ routes s !! q = Some a ∧ dnsName a = name ∧ p ∈ pins a) as Hin.
  { intros q a. unfold l. rewrite list_elem_of_filter, elem_of_map_to_list. unfold route_matches. cbn.
    rewrite andb_true_iff, !bool_decide_eq_true. tauto. }
  destruct l as [|[q a] l'] eqn:El.
  - split; [done|]. intros (b & Hb). assert ((r, b) ∈ []) as Hb' by (rewrite Hin; tauto).
    by apply not_elem_of_nil in Hb'.
  - cbn. assert ((q, a) ∈ (q, a) :: l') as Hq by left. apply Hin in Hq as (Hq & Hn & Hp). split.
    + intros [= <-]. eauto.
    + intros (b & Hb & Hbn & _). f_equal. eapply Hd; [exact Hq|exact Hb|congruence].
Qed.

(** ** The charge per client *)

(** The openings a client asks for, at these readings of the clock, on one admission. *)
Fixpoint allow_run (times : list Z) (a : clientAdmission) : clientAdmission * Z :=
  match times with
  | [] => (a, 0)
  | t :: rest =>
      let '(a, ok) := allowOpen t a in
      let '(a, n) := allow_run rest a in
      (a, n + b2i ok)
  end.

Lemma allowOpen_pays now a :
  let '(a', ok) := allowOpen now a in
  b2i ok * Second + openCredit a' <= openCredit a + (lastOpenRefill a' - lastOpenRefill a)
  ∧ lastOpenRefill a' = Z.max (lastOpenRefill a) now
  ∧ openCredit a' <= Z.max (openCredit a) clientOpenCapacity
  ∧ (0 <= openCredit a → 0 <= openCredit a').
Proof.
  unfold allowOpen, clientOpenInterval, clientOpenCapacity, clientOpenBurst, clientOpenInterval, b2i, Second.
  assert (∀ x y, 0 < sat_sub x y → sat_sub x y <= x - y) as Hs1 by (unfold sat_sub, max_int64; lia).
  assert (∀ x y, sat_sub x y <= 0 → x <= y) as Hs2 by (unfold sat_sub, max_int64; lia).
  specialize (Hs1 now (lastOpenRefill a)). specialize (Hs2 now (lastOpenRefill a)).
  destruct (Z.ltb_spec 0 (sat_sub now (lastOpenRefill a))) as [He|He].
  - match goal with |- context [if ?b || ?c then _ else _] => destruct (b || c) eqn:G end;
      cbn; case_guard G2; cbn; bool_prop; try (apply orb_true_iff in G as [?|?]; bool_prop); lia.
  - cbn. case_guard G2; cbn; bool_prop; lia.
Qed.

(** However a client times its openings, what it has been granted is bounded by its
    initial credit plus one opening per second elapsed, and its credit never exceeds a
    burst of four; a client that waits one second is granted an opening. *)
Theorem allowOpen_rate times a a' n :
  allow_run times a = (a', n) → 0 <= openCredit a <= clientOpenCapacity →
  n * Second <= openCredit a + (lastOpenRefill a' - lastOpenRefill a)
  ∧ 0 <= openCredit a' <= clientOpenCapacity
  ∧ lastOpenRefill a' = foldr Z.max (lastOpenRefill a) times
  ∧ ∀ now, Second <= now - lastOpenRefill a' <= max_int64 → (allowOpen now a').2 = true.
Proof.
  intros Hr Hc.
  assert (n * Second + openCredit a' <= openCredit a + (lastOpenRefill a' - lastOpenRefill a)
          ∧ 0 <= openCredit a' <= clientOpenCapacity
          ∧ lastOpenRefill a' = foldr Z.max (lastOpenRefill a) times) as (H1 & H2 & H3).
  { revert a a' n Hr Hc. induction times as [|t times IH]; intros a a' n; cbn [allow_run].
    - intros [= <- <-] ?. cbn. lia.
    - pose proof (allowOpen_pays t a) as Hp. destruct (allowOpen t a) as [b ok].
      destruct (allow_run times b) as [b' m] eqn:Hm. intros [= <- <-] Hc.
      destruct Hp as (P1 & P2 & P3 & P4). specialize (IH b b' m Hm ltac:(lia)) as (I1 & I2 & I3).
      split_and!; [lia|lia|lia|]. rewrite I3, P2. cbn [foldr]. clear. induction times; cbn; lia. }
  split_and!; [lia|lia|lia|done|]. intros now Hn. unfold allowOpen.
  assert (sat_sub now (lastOpenRefill a') = now - lastOpenRefill a') as -> by (unfold sat_sub, max_int64, Second in *; lia).
  unfold clientOpenInterval, clientOpenCapacity, clientOpenBurst, clientOpenInterval, Second, max_int64 in *.
  destruct (Z.ltb_spec 0 (now - lastOpenRefill a')) as [?|?]; [|lia].
  match goal with |- context [if ?b || ?c then _ else _] => destruct (b || c) eqn:G end;
    cbn; case_guard G2; cbn; bool_prop; try done; lia.
Qed.

Lemma allowOpen_rate_witness :
  let a := ClientAdmission clientOpenCapacity 0 0 0 in
  let r := allow_run [1; 2; 3; 4; 5; Second; Second + 5] a in
  r.2 = 5 ∧ r.2 * Second <= openCredit a + (lastOpenRefill r.1 - lastOpenRefill a).
Proof.
  cbn zeta. split; [vm_compute; reflexivity|].
  apply (allowOpen_rate [1; 2; 3; 4; 5; Second; Second + 5] (ClientAdmission clientOpenCapacity 0 0 0)
    (allow_run [1; 2; 3; 4; 5; Second; Second + 5] (ClientAdmission clientOpenCapacity 0 0 0)).1
    (allow_run [1; 2; 3; 4; 5; Second; Second + 5] (ClientAdmission clientOpenCapacity 0 0 0)).2).
  - destruct (allow_run _ _); reflexivity.
  - cbn. vm_compute. split; discriminate.
Defined.

(** ** A small deployment: one client, one route, its connector registered *)

Definition demo_limits : Limits := MkLimits 2 1 1 2 1 1 (10 * Second).
Definition demo_pin (b : byte) : SPKIHash := arr_copy 32 [b].
Definition demo_route : RouteID := arr_copy 32 [Byte.x07].
Definition demo_epoch : EpochID := arr_copy 32 [Byte.x08].
Definition demo_session : SessionID := arr_copy 32 [Byte.x09].
Definition demo_control : control := Control demo_route demo_epoch (demo_pin Byte.x02) 50.
Definition demo_clients : gmap string (gset SPKIHash) := {["phone" := {[demo_pin Byte.x01]}]}.
Definition demo_routes : list route_value :=
  [RouteValue (RouteID_String demo_route) "home" {[demo_pin Byte.x02]}].
Definition demo0 : Service := MkService demo_limits demo_clients
  {[demo_route := RouteAuthorization "home" {[demo_pin Byte.x02]}]}
  (newClientAdmissions demo_clients 0) ∅ ∅ ∅ 0 ∅ ∅ ∅.
Definition demo1 : Service := (installControl 0%nat demo_control demo0).1.1.
Definition demo2 : Service := (beginPending "phone" demo_route demo_session 60 5 0 demo1).1.
Definition demo3 : Service :=
  (joinData 70%nat demo_route demo_epoch demo_session (demo_pin Byte.x02) 6 demo2).1.

Lemma demo0_reachable : reachable demo0.
Proof.
  apply (R_new demo_limits demo_clients demo_routes 0). unfold newService, demo_routes. cbn [load_routes].
  assert (ParseRouteID (RouteID_String demo_route) = Ok demo_route) as Hp by (by apply parseID_spec).
  cbn [rv_id rv_dns rv_pins]. rewrite Hp. reflexivity.
Qed.
Lemma demo1_reachable : reachable demo1.
Proof. eapply R_step; [apply demo0_reachable|]. by apply S_install. Qed.
Lemma demo2_reachable : reachable demo2.
Proof. eapply R_step; [apply demo1_reachable|]. by apply S_open. Qed.
Lemma demo3_reachable : reachable demo3.
Proof. eapply R_step; [apply demo2_reachable|]. by apply S_join. Qed.

(** ** Accounting *)

(** C15. In every reachable state each pending and active counter (global, per route, per
    client) is exactly the number of items waiting or joined, and none exceeds its
    configured limit: no handler leaks a slot or gives one back twice. *)
Theorem relay_accounting s : reachable s → counts s ∧ bounds s.
Proof. intros H%reachable_inv. destruct H as [[? ? ?] _]. done. Qed.

Lemma relay_accounting_witness :
  activeGlobal demo3 = 1 ∧ count_if joined (item_heap demo3) = 1 ∧ counts demo3 ∧ bounds demo3.
Proof.
  split; [vm_compute; reflexivity|]. split; [vm_compute; reflexivity|].
  apply (relay_accounting demo3 demo3_reachable).
Defined.

(** A pending open always belongs to the control registered now for its route, with
    that control's epoch and pin: replacing or removing a control leaves no orphan. *)
Theorem pending_owned s i it :
  reachable s → item_heap s !! i = Some it → resolved it = Waiting →
  pendings s !! key it = Some i
  ∧ controls s !! key_route (key it) = Some (item_control it)
  ∧ ∃ ctl, control_heap s !! item_control it = Some ctl ∧ ctl_route ctl = key_route (key it)
           ∧ epoch ctl = key_epoch (key it) ∧ pin ctl = connectorPin it.
Proof.
  intros Hr Hi Hw. apply reachable_inv in Hr as [[_ Hl _] Ho]. split_and!.
  - apply (l_pending _ Hl). eauto.
  - by apply (Ho i).
  - destruct (l_item _ Hl _ _ Hi) as (ctl & ?). exists ctl. tauto.
Qed.

Lemma pending_owned_witness :
  ∃ it, item_heap demo2 !! 0%nat = Some it ∧ pendings demo2 !! key it = Some 0%nat.
Proof.
  assert (∃ it, item_heap demo2 !! 0%nat = Some it ∧ resolved it = Waiting) as (it & Hi & Hw)
    by (eexists; split; [vm_compute; reflexivity|reflexivity]).
  exists it. split; [exact Hi|]. apply (pending_owned demo2 0%nat it demo2_reachable Hi Hw).
Defined.

(** ** Joins *)

(** A data connection is joined to a client only if its key names a waiting item of
    the control registered now, the peer presents that control's pin (the one the item
    was opened under), the deadline has not passed and no active limit is reached; the
    item then holds this connection, every other item is untouched, and no later join of
    the same key succeeds in that state. *)
Theorem joinData_sound conn route ep session p now s s' :
  reachable s → joinData conn route ep session p now s = (s', true) →
  ∃ i it c ctl a,
    join_checked route ep session p now s i it c ctl a ∧ resolved it = Waiting
    ∧ item_heap s' = <[i := it <| resolved := Resolved (Some conn) |>]> (item_heap s)
    ∧ pendings s' = delete (route, ep, session) (pendings s)
    ∧ ∀ conn' p' now', joinData conn' route ep session p' now' s' = (s', false).
Proof.
  intros Hr Hj. apply reachable_inv in Hr as [[_ Hl _] _].
  destruct (joinData_cases conn route ep session p now s Hl)
    as [[Hf _]|(i & it & c & ctl & a & Hc & Hw & Hk & He)]; [by rewrite Hj in Hf|].
  rewrite Hj in He. injection He as ->. exists i, it, c, ctl, a. split_and!; try done.
  - unfold join_result, resolvePendingLocked. cbn. by rewrite Hk.
  - intros. unfold joinData, join_result, resolvePendingLocked. cbn. rewrite Hk, lookup_delete_eq. done.
Qed.

Lemma joinData_sound_witness :
  joinData 71%nat demo_route demo_epoch demo_session (demo_pin Byte.x02) 7 demo3 = (demo3, false).
Proof.
  assert (joinData 70%nat demo_route demo_epoch demo_session (demo_pin Byte.x02) 6 demo2 = (demo3, true))
    as Hj by (unfold demo3; vm_compute; reflexivity).
  destruct (joinData_sound _ _ _ _ _ _ _ _ demo2_reachable Hj) as (i & it & c & ctl & a & H).
  apply H.
Defined.

(** ** Roles *)

(** C36. The first frame decides the role of a peer and the roles never mix: only a pinned
    connector of a route can register or join that very route, only a pinned client can
    open one, and a client charged by the relay is never dispatched as a connector,
    whatever order the routes are visited in. *)
Theorem Handle_roles name p now received s s' d :
  reachable s → Handle_admit name p now received s = (s', d) →
  match d with
  | Drop => True
  | ServeControl r =>
      (∃ boot, received = Ok (ControlRegister r boot))
      ∧ authorizedClient name p s = false ∧ (name ∉ dom (clients s)) ∧ s' = s
      ∧ ∃ a, routes s !! r = Some a ∧ dnsName a = name ∧ p ∈ pins a
  | JoinData r ep session =>
      received = Ok (DataJoin r ep session)
      ∧ authorizedClient name p s = false ∧ (name ∉ dom (clients s)) ∧ s' = s
      ∧ ∃ a, routes s !! r = Some a ∧ dnsName a = name ∧ p ∈ pins a
  | ServeClient n r =>
      n = name ∧ received = Ok (ClientOpen r) ∧ authorizedClient name p s = true
      ∧ ∃ a, clientAdmissions s !! name = Some a ∧ (allowOpen now a).2 = true
             ∧ clientAdmissions s' = <[name := (allowOpen now a).1]> (clientAdmissions s)
  end.
Proof.
  intros Hr. pose proof (reachable_separated s Hr) as Hsep.
  assert (∀ q, authorizedConnector name p s = Some q →
    authorizedClient name p s = false ∧ (name ∉ dom (clients s))
    ∧ ∃ a, routes s !! q = Some a ∧ dnsName a = name ∧ p ∈ pins a) as Hconn.
  { intros q Hq. apply authorizedConnector_spec in Hq as (a & Ha & Hn & Hp); [|done].
    assert (name ∉ dom (clients s)) as Hdom by (rewrite <-Hn; by apply (proj1 Hsep q)).
    split_and!; [|done|eauto]. unfold authorizedClient.
    apply not_elem_of_dom in Hdom. by rewrite Hdom. }
  unfold Handle_admit. destruct (authorizedClient name p s) eqn:Hcl.
  - unfold consumeClientCarrier. destruct (clientAdmissions s !! name) as [a|] eqn:Ha;
      [|intros [= <- <-]; done].
    destruct (allowOpen now a) as [a' ok] eqn:Ho. destruct ok; [|intros [= <- <-]; done]. cbn [negb].
    destruct received as [f|]; intros [= <- <-]; [|done].
    assert (authorizedConnector name p s = None) as Hno.
    { destruct (authorizedConnector name p s) as [q|] eqn:Hq; [|done].
      destruct (Hconn q eq_refl) as [? _]; done. }
    unfold dispatch_frame. destruct f; try done;
      try (unfold authorizedConnector in *; cbn; by rewrite Hno).
    unfold authorizedClient in *. cbn. rewrite Hcl. split_and!; try done. exists a. by rewrite Ho.
  - cbn [negb]. destruct received as [f|]; intros [= <- <-]; [|done].
    unfold dispatch_frame. destruct f; try done; rewrite ?Hcl; try done.
    + destruct (authorizedConnector name p s) as [q|] eqn:Hq; [|done]. case_bool_decide; [|done]. subst.
      destruct (Hconn _ eq_refl) as (? & ? & ?). split_and!; eauto.
    + destruct (authorizedConnector name p s) as [q|] eqn:Hq; [|done]. case_bool_decide; [|done]. subst.
      destruct (Hconn _ eq_refl) as (? & ? & ?). split_and!; eauto.
Qed.

Lemma Handle_roles_witness :
  ∃ s', Handle_admit "phone" (demo_pin Byte.x01) 7 (Ok (ClientOpen demo_route)) demo1
        = (s', ServeClient "phone" demo_route)
        ∧ authorizedClient "phone" (demo_pin Byte.x01) demo1 = true.
Proof.
  assert (∃ s', Handle_admit "phone" (demo_pin Byte.x01) 7 (Ok (ClientOpen demo_route)) demo1
                = (s', ServeClient "phone" demo_route)) as [s' H]
    by (eexists; vm_compute; reflexivity).
  exists s'. split; [exact H|]. apply (Handle_roles _ _ _ _ _ _ _ demo1_reachable H).
Defined.
