(* ===== verification/Limits.v ===== *)
(** * Resource limits: [internal/config/config.go], lines 98-210 and 838-924

    The limits of the relay and of the connector, the defaults of older configuration
    files (a zero field), their validation, and the fairness the relay's reachable states
    get from it. Go's [int] is 64 bits. *)

From S2P Require Import Prelude GoIO Protocol Identifiers RelayService RelayInvariant RelaySafety.

Definition DefaultConnectorActivePerClient : Z := 2.
Definition DefaultRelayCarriersGlobal : Z := 96.
Definition DefaultSessionIdle : Z := 30 * Minute.
Definition DefaultSessionLifetime : Z := 24 * Hour.
Definition DefaultRelayPendingPerClient : Z := 2.
Definition DefaultRelayActivePerClient : Z := 4.

(** ** The relay *)

Module Relay.

Record RelayLimits := MkRelayLimits {
  CarriersGlobal : Z;
  OuterHandshakes : Z;
  PendingGlobal : Z;
  PendingPerRoute : Z;
  PendingPerClient : Z;
  ActiveGlobal : Z;
  ActivePerRoute : Z;
  ActivePerClient : Z;
  Handshake : Z;
  Preface : Z;
  Join : Z;
  Drain : Z;
  SessionIdle : Z;
  SessionLifetime : Z }.

Definition CarrierGlobal (l : RelayLimits) : Z :=
  if CarriersGlobal l =? 0 then DefaultRelayCarriersGlobal else CarriersGlobal l.
Definition SessionIdleValue (l : RelayLimits) : Z :=
  if SessionIdle l =? 0 then DefaultSessionIdle else SessionIdle l.
Definition SessionLifetimeValue (l : RelayLimits) : Z :=
  if SessionLifetime l =? 0 then DefaultSessionLifetime else SessionLifetime l.

Definition boundedPerClientDefault (preferred global perRoute : Z) : Z :=
  if (global <=? 0) || (perRoute <=? 0) then preferred
  else
    let capacity := Z.min global perRoute in
    let capacity := if 1 <? capacity then capacity - 1 else capacity in
    Z.min preferred capacity.

Definition PendingPerClientValue (l : RelayLimits) : Z :=
  if negb (PendingPerClient l =? 0) then PendingPerClient l
  else boundedPerClientDefault DefaultRelayPendingPerClient (PendingGlobal l) (PendingPerRoute l).
Definition ActivePerClientValue (l : RelayLimits) : Z :=
  if negb (ActivePerClient l =? 0) then ActivePerClient l
  else boundedPerClientDefault DefaultRelayActivePerClient (ActiveGlobal l) (ActivePerRoute l).

Definition minimumCarriers (routes : Z) (l : RelayLimits) : Z :=
  wrap64 (wrap64 (wrap64 (routes + OuterHandshakes l) + PendingGlobal l) + wrap64 (2 * ActiveGlobal l)).

Inductive limit_err := ErrRange | ErrPerRoute | ErrPerClient | ErrReserve | ErrCarriers | ErrDuration
  | ErrSession | ErrIdle.
#[export] Instance limit_err_eq_dec : EqDecision limit_err.
Proof. solve_decision. Defined.

Definition in_range (value : Z) : bool := (0 <? value) && (value <=? 1024).

Definition validate (l : RelayLimits) : result limit_err unit :=
  let pc := PendingPerClientValue l in
  let ac := ActivePerClientValue l in
  reject negb (forallb in_range [CarrierGlobal l; OuterHandshakes l; PendingGlobal l; PendingPerRoute l;
                                 pc; ActiveGlobal l; ActivePerRoute l; ac]) with ErrRange;;
  reject (PendingGlobal l <? PendingPerRoute l) || (ActiveGlobal l <? ActivePerRoute l) with ErrPerRoute;;
  reject (PendingGlobal l <? pc) || (PendingPerRoute l <? pc)
         || (ActiveGlobal l <? ac) || (ActivePerRoute l <? ac) with ErrPerClient;;
  reject ((1 <? PendingGlobal l) && (PendingGlobal l <=? pc))
         || ((1 <? PendingPerRoute l) && (PendingPerRoute l <=? pc))
         || ((1 <? ActiveGlobal l) && (ActiveGlobal l <=? ac))
         || ((1 <? ActivePerRoute l) && (ActivePerRoute l <=? ac)) with ErrReserve;;
  reject CarrierGlobal l <? minimumCarriers 0 l with ErrCarriers;;
  reject negb (forallb (λ d, 0 <? d) [Handshake l; Preface l; Join l; Drain l]) with ErrDuration;;
  reject (SessionIdleValue l <=? 0) || (SessionLifetimeValue l <=? 0) with ErrSession;;
  reject SessionLifetimeValue l <? SessionIdleValue l with ErrIdle;;
  Ok tt.

(** What [relay.newService] reads of the limits. *)
Definition effective (l : RelayLimits) : Limits :=
  MkLimits (PendingGlobal l) (PendingPerRoute l) (PendingPerClientValue l)
    (ActiveGlobal l) (ActivePerRoute l) (ActivePerClientValue l) (Join l).

End Relay.

(** ** The connector *)

Module Connector.

Record ConnectorLimits := MkConnectorLimits {
  Pending : Z;
  Active : Z;
  ActivePerClient : Z;
  ConnectTimeout : Z;
  Handshake : Z;
  LocalDial : Z;
  Drain : Z;
  ReconnectMin : Z;
  ReconnectMax : Z;
  SessionIdle : Z;
  SessionLifetime : Z }.

Definition SessionIdleValue (l : ConnectorLimits) : Z :=
  if SessionIdle l =? 0 then DefaultSessionIdle else SessionIdle l.
Definition SessionLifetimeValue (l : ConnectorLimits) : Z :=
  if SessionLifetime l =? 0 then DefaultSessionLifetime else SessionLifetime l.
Definition ActivePerClientValue (l : ConnectorLimits) : Z :=
  if negb (ActivePerClient l =? 0) then ActivePerClient l
  else if Active l <=? 1 then 1
  else Z.min DefaultConnectorActivePerClient (Active l - 1).

Inductive limit_err := ErrRange | ErrPerClient | ErrDuration | ErrReconnect | ErrSession | ErrIdle.
#[export] Instance limit_err_eq_dec : EqDecision limit_err.
Proof. solve_decision. Defined.

Definition validate (l : ConnectorLimits) : result limit_err unit :=
  reject (Pending l <=? 0) || (64 <? Pending l) || (Active l <=? 0) || (64 <? Active l) with ErrRange;;
  reject (ActivePerClientValue l <=? 0) || (Active l <? ActivePerClientValue l) with ErrPerClient;;
  reject negb (forallb (λ d, 0 <? d) [ConnectTimeout l; Handshake l; LocalDial l; Drain l;
                                      ReconnectMin l; ReconnectMax l]) with ErrDuration;;
  reject ReconnectMax l <? ReconnectMin l with ErrReconnect;;
  reject (SessionIdleValue l <=? 0) || (SessionLifetimeValue l <=? 0) with ErrSession;;
  reject SessionLifetimeValue l <? SessionIdleValue l with ErrIdle;;
  Ok tt.

(** What the rest of the connector relies on. *)
Record valid (l : ConnectorLimits) : Prop := {
  v_pending : 0 < Pending l <= 64;
  v_active : 0 < Active l <= 64;
  v_client : 0 < ActivePerClientValue l <= Active l;
  v_durations : 0 < ConnectTimeout l ∧ 0 < Handshake l ∧ 0 < LocalDial l ∧ 0 < Drain l;
  v_reconnect : 0 < ReconnectMin l <= ReconnectMax l;
  v_session : 0 < SessionIdleValue l <= SessionLifetimeValue l }.

Lemma validate_valid l : validate l = Ok tt ↔ valid l.
Proof.
  unfold validate. cbn [forallb]. split.
  - intros H. go_cases H. bool_prop. split; lia.
  - intros [[] [] [] (?&?&?&?) [] []]. repeat (case_guard G; [exfalso; lia|clear G]). done.
Qed.

End Connector.

(** ** Validated relay limits *)

Module RelayFacts.
Import Relay.

Lemma boundedPerClientDefault_fair preferred global perRoute :
  0 < preferred → 0 < global → 0 < perRoute →
  let d := boundedPerClientDefault preferred global perRoute in
  0 < d <= preferred ∧ d <= global ∧ d <= perRoute
  ∧ (1 < global → d < global) ∧ (1 < perRoute → d < perRoute).
Proof.
  intros. unfold d, boundedPerClientDefault. clear d.
  case_guard G; [exfalso; lia|]. case_guard G1; lia.
Qed.

Lemma minimumCarriers_exact l :
  0 < OuterHandshakes l <= 1024 → 0 < PendingGlobal l <= 1024 → 0 < ActiveGlobal l <= 1024 →
  minimumCarriers 0 l = OuterHandshakes l + PendingGlobal l + 2 * ActiveGlobal l.
Proof.
  intros. unfold minimumCarriers, max_int64.
  rewrite (wrap64_id (2 * _)), (wrap64_id (0 + _)), (wrap64_id (0 + _ + _)), wrap64_id
    by (unfold max_int64; lia). lia.
Qed.

(** A configuration file that predates the per-client and session limits (those fields
    are zero) stays valid under its defaults: whatever in-range global and per-route limits
    it sets, the computed quotas pass every fairness check. *)
Theorem validate_defaults l :
  PendingPerClient l = 0 → ActivePerClient l = 0 → SessionIdle l = 0 → SessionLifetime l = 0 →
  0 < OuterHandshakes l <= 1024 → 0 < PendingPerRoute l <= PendingGlobal l → PendingGlobal l <= 1024 →
  0 < ActivePerRoute l <= ActiveGlobal l → ActiveGlobal l <= 1024 →
  0 < Handshake l → 0 < Preface l → 0 < Join l → 0 < Drain l →
  OuterHandshakes l + PendingGlobal l + 2 * ActiveGlobal l <= CarrierGlobal l <= 1024 →
  validate l = Ok tt.
Proof.
  intros Hp Ha Hi Hl. intros. unfold validate. cbn [forallb]. unfold in_range.
  pose proof (boundedPerClientDefault_fair DefaultRelayPendingPerClient (PendingGlobal l) (PendingPerRoute l)
    eq_refl ltac:(lia) ltac:(lia)) as Dp.
  pose proof (boundedPerClientDefault_fair DefaultRelayActivePerClient (ActiveGlobal l) (ActivePerRoute l)
    eq_refl ltac:(lia) ltac:(lia)) as Da.
  unfold PendingPerClientValue, ActivePerClientValue, SessionIdleValue, SessionLifetimeValue in *.
  rewrite minimumCarriers_exact, Hp, Ha, Hi, Hl by lia. cbn [Z.eqb negb].
  cbv zeta in Dp, Da. unfold DefaultRelayPendingPerClient, DefaultRelayActivePerClient in *.
  repeat (case_guard G; [exfalso; unfold DefaultSessionIdle, DefaultSessionLifetime, Hour, Minute, Second in G; lia
                        |clear G]). done.
Qed.

Lemma validate_defaults_witness :
  validate (MkRelayLimits 0 4 8 4 0 16 8 0 Second Second Second Second 0 0) = Ok tt.
Proof.
  apply (validate_defaults (MkRelayLimits 0 4 8 4 0 16 8 0 Second Second Second Second 0 0));
    vm_compute; repeat split; congruence.
Defined.

(** In every reachable state of a relay with validated limits no single client holds
    the last pending or active slot, globally or on one of several slots of a route, and the
    carriers cover all handshakes, pending clients and both halves of every active pair. *)
Theorem relay_fair l s n a :
  reachable s → limits s = effective l → validate l = Ok tt → clientAdmissions s !! n = Some a →
  (1 < PendingGlobal l → adm_pending a < PendingGlobal l)
  ∧ (1 < ActiveGlobal l → adm_active a < ActiveGlobal l)
  ∧ (1 < PendingPerRoute l → adm_pending a < PendingPerRoute l)
  ∧ (1 < ActivePerRoute l → adm_active a < ActivePerRoute l)
  ∧ OuterHandshakes l + Z.of_nat (size (pendings s)) + 2 * activeGlobal s <= CarrierGlobal l.
Proof.
  intros Hr Hlim Hv Ha. apply reachable_inv in Hr as [[_ _ [B1 _ B3 _ B5]] _].
  rewrite Hlim in *. destruct (B5 _ _ Ha) as [P1 P2]. cbn in P1, P2, B1, B3. clear B5.
  unfold validate in Hv. cbn [forallb] in Hv. unfold in_range in Hv. go_cases Hv. bool_prop.
  rewrite minimumCarriers_exact in * by lia. split_and!; lia.
Qed.

Definition demo_relay_limits : RelayLimits :=
  MkRelayLimits 0 4 2 1 1 2 1 1 Second Second (10 * Second) Second 0 0.
Lemma relay_fair_witness :
  ∃ a, clientAdmissions demo2 !! "phone" = Some a ∧ adm_pending a = 1
       ∧ 4 + Z.of_nat (size (pendings demo2)) + 2 * activeGlobal demo2 <= CarrierGlobal demo_relay_limits.
Proof.
  assert (∃ a, clientAdmissions demo2 !! "phone" = Some a ∧ adm_pending a = 1) as (a & Ha & Hp)
    by (eexists; split; vm_compute; reflexivity).
  exists a. split; [exact Ha|]. split; [exact Hp|].
  apply (relay_fair demo_relay_limits demo2 "phone" a demo2_reachable eq_refl eq_refl Ha).
Defined.

End RelayFacts.
