(* ===== verification/Connector.v ===== *)
(** * The outbound connector: [internal/connector]

    Admission of opens from the relay, the worker of each session up to the fixed local
    dial, and the reconnection schedule. A worker is the goroutine [runSession]; its local
    variables, its position and the deferred calls it still owes are a record, and each
    definition is one atomic operation of it. TLS, sockets and the copy are outside. *)

From S2P Require Import Prelude GoIO Protocol Identifiers Names Limits SessionGuard.
From Stdlib Require Import Floats.SpecFloat.
Import Limits.Connector.

(** ** The open limiter: [limits.go]

    [tokens] is a [float64]: the IEEE operations are those of [SpecFloat] in binary64. *)

Definition of_int64 (z : Z) : spec_float := binary_normalize 53 1024 z 0 false.
Definition f64_add : spec_float → spec_float → spec_float := SFadd 53 1024.
Definition f64_sub : spec_float → spec_float → spec_float := SFsub 53 1024.
Definition f64_div : spec_float → spec_float → spec_float := SFdiv 53 1024.

Definition openRate : Z := Second.
Definition openBurst : spec_float := of_int64 4.

Record openLimiter := OpenLimiter { last : Z; tokens : spec_float }.
#[export] Instance eta_openLimiter : Eta openLimiter := λ l, OpenLimiter (last l) (tokens l).

Definition newOpenLimiter (now : Z) : openLimiter := OpenLimiter now openBurst.
Definition Allow (now : Z) (l : openLimiter) : openLimiter * bool :=
  let l :=
    if last l <? now then
      let t := f64_add (tokens l) (f64_div (of_int64 (sat_sub now (last l))) (of_int64 openRate)) in
      let t := if SFltb openBurst t then openBurst else t in
      l <| tokens := t |> <| last := now |>
    else l in
  if SFltb (tokens l) (of_int64 1) then (l, false)
  else (l <| tokens := f64_sub (tokens l) (of_int64 1) |>, true).

(** ** Reconnection: [nextBackoff], [jitterDuration] and the loop of [Run] *)

Definition nextBackoff (current maximum : Z) : Z :=
  if (maximum <=? current) || (maximum ÷ 2 <? current) then maximum else wrap64 (current * 2).

(** [random]: the eight random bytes as an unsigned word, or the read failed. *)
Definition jitterDuration (random : option Z) (value : Z) : Z :=
  if value <=? 1 then value
  else
    let span := value ÷ 2 in
    match random with
    | None => value
    | Some r =>
        let offset := r mod (span + 1) in
        if max_int64 - offset <? value then value else wrap64 (value + offset)
    end.

Definition controlHeartbeatTimeout : Z := 90 * Second.

(** One failed control session in [Run]: the delay slept and the next backoff; [elapsed]
    is how long the session lasted. *)
Definition reconnect (l : ConnectorLimits) (elapsed : Z) (random : option Z) (backoff : Z) : Z * Z :=
  let backoff := if controlHeartbeatTimeout <=? elapsed then ReconnectMin l else backoff in
  let delay := jitterDuration random backoff in
  let delay := if ReconnectMax l <? delay then ReconnectMax l else delay in
  (delay, nextBackoff backoff (ReconnectMax l)).

Fixpoint reconnects (l : ConnectorLimits) (sessions : list (Z * option Z)) (backoff : Z) : list Z :=
  match sessions with
  | [] => []
  | (elapsed, random) :: rest =>
      let '(delay, backoff) := reconnect l elapsed random backoff in
      delay :: reconnects l rest backoff
  end.

(** ** The byte budget before authentication: [preAuthConn] *)

Definition innerPreAuthByteLimit : Z := 256 * 1024.

Record preAuthConn := PreAuthConn { remaining : Z; limited : bool }.
#[export] Instance eta_preAuthConn : Eta preAuthConn := λ c, PreAuthConn (remaining c) (limited c).

Definition newPreAuth : preAuthConn := PreAuthConn innerPreAuthByteLimit true.
(** The first critical section of [Read]: how much of the buffer may be filled, or
    [errInnerByteLimit]. *)
Definition preauth_grant (buffer : Z) (c : preAuthConn) : option Z :=
  if negb (limited c) then Some buffer
  else if remaining c <=? 0 then None
  else Some (if remaining c <? buffer then remaining c else buffer).
(** [Read] when the connection below returns [count] bytes. *)
Definition preauth_read (buffer count : Z) (c : preAuthConn) : preAuthConn :=
  match preauth_grant buffer c with
  | None => c
  | Some _ => if limited c then c <| remaining := remaining c - count |> else c
  end.
Definition disableLimit (c : preAuthConn) : preAuthConn :=
  c <| limited := false |> <| remaining := -1 |>.

(** ** Sessions *)

(** The peer certificate of a finished inner handshake. *)
Record peer_cert := PeerCert { NotAfter : Z; DNSNames : list (list byte) }.

Inductive serve_err := ErrNoCertificate | ErrExpired | ErrIdentity.

(** [authenticatedSessionLifetime] *)
Definition authenticatedSessionLifetime (l : ConnectorLimits) (cert : option peer_cert) (now : Z)
    : result serve_err Z :=
  match cert with
  | None => Err ErrNoCertificate
  | Some c =>
      let rest := sat_sub (NotAfter c) now in
      reject rest <=? 0 with ErrExpired;;
      let lifetime := SessionLifetimeValue l in
      Ok (if rest <? lifetime then rest else lifetime)
  end.

(** [authenticatedCapabilityClient]: the client the session is accounted to, if any. *)
Definition authenticatedCapabilityClient (capability : bool) (cert : option peer_cert)
    : result serve_err (option ID) :=
  if negb capability then Ok None
  else match cert with
       | Some (PeerCert _ [name]) =>
           match ParseClientCapabilityDNSName name with
           | Ok (clientID, _, _, _) => Ok (Some clientID)
           | Err _ => Err ErrIdentity
           end
       | _ => Err ErrIdentity
       end.

Definition sessionKey : Type := EpochID * SessionID.

(** Where a worker is. [PUnwind c]: it has returned; [c] if it still writes a Cancel. *)
Inductive pc :=
| PConnect | PJoin | PHandshake | PLifetime
| PClient (lifetime : Z) | PActive (lifetime : Z) | PEnter (lifetime : Z)
| PDial (lifetime : Z) | PReady (lifetime : Z) | PCopy (lifetime : Z)
| PUnwind (cancel : bool).

Record worker := Worker {
  w_pc : pc;
  w_auth : option (option peer_cert);  (* the inner connection's state, once authenticated *)
  w_pending : bool;                    (* [pendingHeld] *)
  w_client : option ID;                (* owes [releaseClientActive] *)
  w_active : bool }.                   (* owes [release(service.active)] *)
#[export] Instance eta_worker : Eta worker := λ w,
  Worker (w_pc w) (w_auth w) (w_pending w) (w_client w) (w_active w).

Definition fixedSSHNetwork : string := "tcp4".
Definition fixedSSHTarget : string := "127.0.0.1:22".

Record Service := MkService {
  lim : ConnectorLimits;
  capabilityProfile : bool;
  limiter : openLimiter;
  pending : Z;                         (* elements in the channel [pending] *)
  active : Z;
  clientActive : gmap ID Z;
  sessions : gmap sessionKey worker;
  accepting : option sessionKey;       (* [acceptOpen] between its two critical sections *)
  cancels : list sessionKey;           (* Cancel frames written to the control *)
  dials : list (string * string) }.    (* calls of the local dialer *)
#[export] Instance eta_Service : Eta Service := λ s,
  MkService (lim s) (capabilityProfile s) (limiter s) (pending s) (active s) (clientActive s)
    (sessions s) (accepting s) (cancels s) (dials s).

Definition newService (l : ConnectorLimits) (capability : bool) (now : Z) : Service :=
  MkService l capability (newOpenLimiter now) 0 0 ∅ ∅ None [] [].

(** *** [acceptOpen] *)

Inductive control_err := errInvalidControl.

Definition send_cancel (k : sessionKey) (s : Service) : Service := s <| cancels := cancels s ++ [k] |>.

(** Up to [tryAcquire(service.pending)]. *)
Definition accept_begin (epoch : EpochID) (k : sessionKey) (now : Z) (s : Service)
    : Service * option control_err :=
  if bool_decide (k.1 ≠ epoch) || bool_decide (k.2 = arr_zero IDSize) then (s, Some errInvalidControl)
  else
    let '(l, ok) := Allow now (limiter s) in
    let s := s <| limiter := l |> in
    if negb ok then (send_cancel k s, None)
    else if Pending (lim s) <=? pending s then (send_cancel k s, None)
    else (s <| pending := pending s + 1 |> <| accepting := Some k |>, None).

(** The duplicate check under [sessionsMu], and the start of the worker. *)
Definition accept_register (k : sessionKey) (s : Service) : Service :=
  let s := s <| accepting := None |> in
  match sessions s !! k with
  | Some _ => send_cancel k (s <| pending := pending s - 1 |>)
  | None => s <| sessions := <[k := Worker PConnect None true None false]> (sessions s) |>
  end.

(** *** [runSession] and [serveInner] *)

Definition set_worker (k : sessionKey) (w : worker) (s : Service) : Service :=
  s <| sessions := <[k := w]> (sessions s) |>.
Definition goto (p : pc) (w : worker) : worker := w <| w_pc := p |>.

(** [connectOuter], then the DataJoin preface; [ok]: the calls succeed. *)
Definition connect_step (ok : bool) (w : worker) : worker :=
  goto (if ok then PJoin else PUnwind true) w.
Definition join_step (ok : bool) (w : worker) : worker :=
  goto (if ok then PHandshake else PUnwind true) w.
(** The explicit inner handshake: the peer certificate, or a failure. *)
Definition handshake_step (peer : option (option peer_cert)) (w : worker) : worker :=
  match peer with
  | Some cert => goto PLifetime (w <| w_auth := Some cert |>)
  | None => goto (PUnwind true) w
  end.
Definition auth_cert (w : worker) : option peer_cert := default None (w_auth w).
Definition lifetime_step (l : ConnectorLimits) (now : Z) (w : worker) : worker :=
  match authenticatedSessionLifetime l (auth_cert w) now with
  | Ok lifetime => goto (PClient lifetime) w
  | Err _ => goto (PUnwind true) w
  end.

Definition tryAcquireClientActive (clientID : ID) (s : Service) : Service * bool :=
  let current := cnt (clientActive s) clientID in
  if ActivePerClientValue (lim s) <=? current then (s, false)
  else (s <| clientActive := <[clientID := current + 1]> (clientActive s) |>, true).
Definition releaseClientActive (clientID : ID) (s : Service) : Service :=
  let current := cnt (clientActive s) clientID in
  if current <=? 1 then s <| clientActive := delete clientID (clientActive s) |>
  else s <| clientActive := <[clientID := current - 1]> (clientActive s) |>.

Definition client_step (k : sessionKey) (lifetime : Z) (w : worker) (s : Service) : Service :=
  match authenticatedCapabilityClient (capabilityProfile s) (auth_cert w) with
  | Err _ => set_worker k (goto (PUnwind true) w) s
  | Ok None => set_worker k (goto (PActive lifetime) w) s
  | Ok (Some clientID) =>
      let '(s, ok) := tryAcquireClientActive clientID s in
      if ok then set_worker k (goto (PActive lifetime) (w <| w_client := Some clientID |>)) s
      else set_worker k (goto (PUnwind true) w) s
  end.

(** [tryAcquire(service.active)] *)
Definition active_step (k : sessionKey) (lifetime : Z) (w : worker) (s : Service) : Service :=
  if Active (lim s) <=? active s then set_worker k (goto (PUnwind true) w) s
  else set_worker k (goto (PEnter lifetime) (w <| w_active := true |>)) (s <| active := active s + 1 |>).
(** [enteredActive()] *)
Definition enter_step (k : sessionKey) (lifetime : Z) (w : worker) (s : Service) : Service :=
  set_worker k (goto (PDial lifetime) (w <| w_pending := false |>)) (s <| pending := pending s - 1 |>).
(** The only call of the local dialer. *)
Definition dial_step (k : sessionKey) (lifetime : Z) (ok : bool) (w : worker) (s : Service) : Service :=
  set_worker k (goto (if ok then PReady lifetime else PUnwind true) w)
    (s <| dials := dials s ++ [(fixedSSHNetwork, fixedSSHTarget)] |>).
Definition ready_step (lifetime : Z) (ok : bool) (w : worker) : worker :=
  goto (if ok then PCopy lifetime else PUnwind true) w.
(** [copyPair] creates its guard from the shorter of the idle limit and the lifetime. *)
Definition copy_guard (l : ConnectorLimits) (lifetime now : Z) : result guard_err Guard :=
  let idle := SessionIdleValue l in
  let idle := if lifetime <? idle then lifetime else idle in
  newWithClock true idle lifetime now.
Definition copy_step (w : worker) : worker := goto (PUnwind false) w.

(** The deferred calls, last first, one at a time; then the session is deleted. *)
Definition unwind_step (k : sessionKey) (cancel : bool) (w : worker) (s : Service) : Service :=
  if w_active w then set_worker k (w <| w_active := false |>) (s <| active := active s - 1 |>)
  else match w_client w with
       | Some clientID => set_worker k (w <| w_client := None |>) (releaseClientActive clientID s)
       | None =>
           if cancel then set_worker k (goto (PUnwind false) w) (send_cancel k s)
           else if w_pending w then set_worker k (w <| w_pending := false |>) (s <| pending := pending s - 1 |>)
           else s <| sessions := delete k (sessions s) |>
       end.

(** ** Interleavings *)

(** A worker of key [k] at position [p]. *)
Definition at_pc (s : Service) (k : sessionKey) (p : pc) (w : worker) : Prop :=
  sessions s !! k = Some w ∧ w_pc w = p.

Inductive step : Service → Service → Prop :=
| S_open s epoch k now :
    accepting s = None → step s (accept_begin epoch k now s).1
| S_register s k : accepting s = Some k → step s (accept_register k s)
| S_connect s k w ok : at_pc s k PConnect w → step s (set_worker k (connect_step ok w) s)
| S_join s k w ok : at_pc s k PJoin w → step s (set_worker k (join_step ok w) s)
| S_handshake s k w peer : at_pc s k PHandshake w → step s (set_worker k (handshake_step peer w) s)
| S_lifetime s k w now : at_pc s k PLifetime w → step s (set_worker k (lifetime_step (lim s) now w) s)
| S_client s k w lt : at_pc s k (PClient lt) w → step s (client_step k lt w s)
| S_active s k w lt : at_pc s k (PActive lt) w → step s (active_step k lt w s)
| S_enter s k w lt : at_pc s k (PEnter lt) w → step s (enter_step k lt w s)
| S_dial s k w lt ok : at_pc s k (PDial lt) w → step s (dial_step k lt ok w s)
| S_ready s k w lt ok : at_pc s k (PReady lt) w → step s (set_worker k (ready_step lt ok w) s)
| S_copy s k w lt : at_pc s k (PCopy lt) w → step s (set_worker k (copy_step w) s)
| S_unwind s k w c : at_pc s k (PUnwind c) w → step s (unwind_step k c w s).

Inductive reachable (l : ConnectorLimits) (capability : bool) : Service → Prop :=
| R_new now : reachable l capability (newService l capability now)
| R_step s s' : reachable l capability s → step s s' → reachable l capability s'.
