(* ===== verification/ConnectorSafety.v ===== *)
(** * What the connector guarantees

    Slot accounting over every interleaving of workers, the gate before the local dial,
    the reconnection schedule and the byte budget. *)

From S2P Require Import Prelude GoIO Protocol Identifiers Names Limits SessionGuard Connector.
From Stdlib Require Import Floats.SpecFloat.
Import Limits.Connector.

(** ** The invariant of workers and slots *)

Definition holds_client (id : ID) (w : worker) : bool := bool_decide (w_client w = Some id).

(** The inner peer passed the lifetime check with [lifetime]. *)
Definition lifetime_ok (l : ConnectorLimits) (w : worker) (lifetime : Z) : Prop :=
  ∃ now, authenticatedSessionLifetime l (auth_cert w) now = Ok lifetime.
(** The session is accounted to the client its certificate names. *)
Definition client_ok (capability : bool) (w : worker) : Prop :=
  authenticatedCapabilityClient capability (auth_cert w) = Ok (w_client w).

Definition good_worker (l : ConnectorLimits) (capability : bool) (w : worker) : Prop :=
  match w_pc w with
  | PConnect | PJoin | PHandshake => w_pending w = true ∧ w_client w = None ∧ w_active w = false
  | PLifetime => w_pending w = true ∧ w_client w = None ∧ w_active w = false ∧ is_Some (w_auth w)
  | PClient lt => w_pending w = true ∧ w_client w = None ∧ w_active w = false ∧ is_Some (w_auth w)
                  ∧ lifetime_ok l w lt
  | PActive lt => w_pending w = true ∧ w_active w = false ∧ is_Some (w_auth w)
                  ∧ lifetime_ok l w lt ∧ client_ok capability w
  | PEnter lt => w_pending w = true ∧ w_active w = true ∧ is_Some (w_auth w)
                 ∧ lifetime_ok l w lt ∧ client_ok capability w
  | PDial lt | PReady lt | PCopy lt =>
      w_pending w = false ∧ w_active w = true ∧ is_Some (w_auth w)
      ∧ lifetime_ok l w lt ∧ client_ok capability w
  | PUnwind _ => True
  end.

Record inv (s : Service) : Prop := {
  i_pending : pending s = b2i (bool_decide (is_Some (accepting s))) + count_if w_pending (sessions s);
  i_active : active s = count_if w_active (sessions s);
  i_client : ∀ id, cnt (clientActive s) id = count_if (holds_client id) (sessions s);
  i_keys : ∀ id n, clientActive s !! id = Some n → 0 < n;
  i_bounds : pending s <= Z.max 0 (Pending (lim s)) ∧ active s <= Z.max 0 (Active (lim s))
             ∧ ∀ id, cnt (clientActive s) id <= Z.max 0 (ActivePerClientValue (lim s));
  i_workers : ∀ k w, sessions s !! k = Some w → good_worker (lim s) (capabilityProfile s) w;
  i_dials : Forall (λ d, d = (fixedSSHNetwork, fixedSSHTarget)) (dials s) }.

(** Replacing the worker of [k], with counters moved by what it took and gave back. *)
Lemma inv_set s s0 k w w' :
  inv s → sessions s !! k = Some w →
  sessions s0 = sessions s → lim s0 = lim s → capabilityProfile s0 = capabilityProfile s →
  accepting s0 = accepting s →
  good_worker (lim s) (capabilityProfile s) w' →
  pending s0 = pending s - b2i (w_pending w) + b2i (w_pending w') →
  active s0 = active s - b2i (w_active w) + b2i (w_active w') →
  (∀ id, cnt (clientActive s0) id = cnt (clientActive s) id - b2i (holds_client id w) + b2i (holds_client id w')) →
  (∀ id n, clientActive s0 !! id = Some n → 0 < n) →
  pending s0 <= Z.max 0 (Pending (lim s)) → active s0 <= Z.max 0 (Active (lim s)) →
  (∀ id, cnt (clientActive s0) id <= Z.max 0 (ActivePerClientValue (lim s))) →
  Forall (λ d, d = (fixedSSHNetwork, fixedSSHTarget)) (dials s0) →
  inv (set_worker k w' s0).
Proof.
  intros Hi Hk Hs Hl Hc Ha Hg Hp Hact Hcl Hkeys Bp Ba Bc Hd. destruct Hi. split; cbn.
  - rewrite Hp, Ha, Hs, i_pending0, (count_if_update _ _ k w) by done. lia.
  - rewrite Hact, Hs, i_active0, (count_if_update _ _ k w) by done. lia.
  - intros id. rewrite Hcl, Hs, i_client0, (count_if_update _ _ k w) by done. lia.
  - done.
  - by rewrite Hl.
  - intros j v. rewrite Hs, Hl, Hc, lookup_insert. case_decide; [by intros [= <-]|apply i_workers0].
  - done.
Qed.

(** A worker that only moves: it keeps what it holds. *)
Lemma inv_goto s k w w' :
  inv s → sessions s !! k = Some w → good_worker (lim s) (capabilityProfile s) w' →
  w_pending w' = w_pending w → w_client w' = w_client w → w_active w' = w_active w →
  inv (set_worker k w' s).
Proof.
  intros Hi Hk Hg Hp Hc Ha. pose proof Hi as Hi'. destruct Hi' as [? ? ? ? (? & ? & ?) ? ?].
  apply (inv_set s s k w); try done; unfold holds_client; rewrite ?Hp, ?Ha; intros; rewrite ?Hc; lia || eauto.
Qed.

(** The counters of [s] after it is changed in fields the invariant does not read. *)
Lemma inv_cancel k s : inv s → inv (send_cancel k s).
Proof. intros []. by split. Qed.

Lemma accept_begin_keeps epoch k now s :
  inv s → accepting s = None → inv (accept_begin epoch k now s).1.
Proof.
  intros Hi Ha. unfold accept_begin. case_guard G; [done|].
  destruct (Allow now (limiter s)) as [l ok].
  assert (inv (s <| limiter := l |>)) as Hi' by (destruct Hi; by split).
  destruct ok; cbn [negb]; [|by apply inv_cancel].
  case_guard G2; [by apply inv_cancel|]. bool_prop. destruct Hi' as [P A C K (B1 & B2 & B3) W D].
  split; cbn in *; try done.
  - rewrite P, Ha. cbn. lia.
  - split_and!; [lia|done|done].
Qed.

Lemma accept_register_keeps k s : inv s → accepting s = Some k → inv (accept_register k s).
Proof.
  intros [P A C K (B1 & B2 & B3) W D] Ha. unfold accept_register. cbn.
  rewrite Ha in P. cbn in P.
  destruct (sessions s !! k) eqn:Hk.
  - apply inv_cancel. split; cbn; try done; [lia|]. split_and!; [lia|done|done].
  - split; cbn; try done.
    + rewrite count_if_fresh by done. cbn. lia.
    + rewrite count_if_fresh by done. cbn. lia.
    + intros id. rewrite count_if_fresh, C by done. unfold holds_client. rewrite bool_decide_eq_false_2 by done. cbn. lia.
    + intros j w. rewrite lookup_insert. case_decide; [|apply W]. by intros [= <-].
Qed.

(** ** Slots of the workers *)

Lemma client_step_keeps s k lt w :
  inv s → at_pc s k (PClient lt) w → inv (client_step k lt w s).
Proof.
  intros Hi [Hk Hpc]. pose proof Hi as [P A C K (B1 & B2 & B3) W D].
  pose proof (W _ _ Hk) as Hg. unfold good_worker in Hg. rewrite Hpc in Hg.
  destruct Hg as (Hp & Hn & Hac & Hau & Hlt). unfold client_step.
  destruct (authenticatedCapabilityClient _ _) as [[clientID|]|] eqn:Ec.
  - unfold tryAcquireClientActive. case_guard G.
    + apply (inv_goto s k w); done.
    + bool_prop. eapply (inv_set s _ k w); try done; cbn; try lia.
      * intros id. rewrite cnt_insert. unfold holds_client. rewrite Hn. cbn.
        rewrite (bool_decide_eq_false_2 (None = _)) by done. cbn.
        case_decide as Hd; [subst; rewrite bool_decide_eq_true_2 by done; cbn; lia|].
        rewrite bool_decide_eq_false_2 by congruence. cbn. lia.
      * intros id n. rewrite lookup_insert. case_decide; [|apply K]. intros [= <-].
        pose proof (count_if_nonneg (holds_client clientID) (sessions s)). rewrite C. lia.
      * intros id. rewrite cnt_insert. specialize (B3 id). case_decide; subst; lia.
  - apply (inv_goto s k w); try done. unfold good_worker, goto, client_ok. cbn.
    split_and!; try done. by rewrite Hn.
  - apply (inv_goto s k w); done.
Qed.

Lemma releaseClientActive_cnt clientID s id :
  cnt (clientActive s) clientID ≠ 0 →
  cnt (clientActive (releaseClientActive clientID s)) id
  = Z.max 0 (cnt (clientActive s) id - if decide (clientID = id) then 1 else 0)
    ∨ 0 > cnt (clientActive s) id ∨ 0 > cnt (clientActive s) clientID.
Proof.
  intros Hz. unfold releaseClientActive. case_guard G; bool_prop; cbn.
  - rewrite cnt_delete. case_decide; subst; lia.
  - rewrite cnt_insert. case_decide; subst; lia.
Qed.

Lemma unwind_keeps s k c w : inv s → at_pc s k (PUnwind c) w → inv (unwind_step k c w s).
Proof.
  intros Hi [Hk Hpc]. pose proof Hi as [P A C K (B1 & B2 & B3) W D]. unfold unwind_step.
  destruct (w_active w) eqn:Hact.
  { apply (inv_set s _ k w); try done; cbn; rewrite ?Hact; cbn; try lia; try done.
    - unfold good_worker. cbn. by rewrite Hpc.
    - intros id. unfold holds_client. cbn. lia. }
  destruct (w_client w) as [clientID|] eqn:Hc.
  { assert (0 < cnt (clientActive s) clientID) as Hpos.
    { rewrite C. pose proof (count_if_delete (holds_client clientID) _ _ _ Hk) as Hd.
      pose proof (count_if_nonneg (holds_client clientID) (delete k (sessions s))).
      unfold holds_client in Hd at 3. rewrite Hc, bool_decide_eq_true_2 in Hd by done. cbn in Hd. lia. }
    assert (∀ id, cnt (clientActive (releaseClientActive clientID s)) id
                  = cnt (clientActive s) id - if decide (clientID = id) then 1 else 0) as Hrel.
    { intros id. pose proof (count_if_nonneg (holds_client id) (sessions s)) as Hn. rewrite <-C in Hn.
      destruct (releaseClientActive_cnt clientID s id); [lia| |lia].
      case_decide; subst; lia. }
    assert (∀ f : Service → Z, f = pending ∨ f = active → f (releaseClientActive clientID s) = f s) as Hf
      by (unfold releaseClientActive; intros f [-> | ->]; case_guard G; done).
    assert (sessions (releaseClientActive clientID s) = sessions s
      ∧ lim (releaseClientActive clientID s) = lim s
      ∧ capabilityProfile (releaseClientActive clientID s) = capabilityProfile s
      ∧ accepting (releaseClientActive clientID s) = accepting s
      ∧ dials (releaseClientActive clientID s) = dials s) as (E1 & E2 & E3 & E4 & E5)
      by (unfold releaseClientActive; case_guard G; done).
    apply (inv_set s _ k w); try done; rewrite ?E5, ?(Hf pending), ?(Hf active) by auto; cbn; try lia; try done.
    - unfold good_worker. cbn. by rewrite Hpc.
    - intros id. rewrite Hrel. unfold holds_client. rewrite Hc. cbn.
      rewrite (bool_decide_eq_false_2 (None = _)) by done.
      case_decide; [subst; rewrite bool_decide_eq_true_2 by done|rewrite bool_decide_eq_false_2 by congruence];
        cbn; lia.
    - intros id n. unfold releaseClientActive. case_guard G; bool_prop; cbn.
      + intros [_ Hn]%lookup_delete_Some. eauto.
      + rewrite lookup_insert. case_decide; [intros [= <-]; lia|apply K].
    - intros id. rewrite Hrel. specialize (B3 id). case_decide; lia. }
  destruct c.
  { pose proof (inv_cancel k s Hi). by apply (inv_goto (send_cancel k s) k w). }
  destruct (w_pending w) eqn:Hpd.
  { apply (inv_set s _ k w); try done; cbn; rewrite ?Hpd; cbn; try lia; try done.
    - unfold good_worker. cbn. by rewrite Hpc.
    - intros id. unfold holds_client. cbn. lia. }
  split; cbn; try done; rewrite ?(count_if_delete _ _ _ _ Hk), ?Hpd, ?Hact; cbn; try lia.
  - intros id. rewrite (count_if_delete _ _ _ _ Hk), C. unfold holds_client. rewrite Hc.
    rewrite (bool_decide_eq_false_2 (None = _)) by done. cbn. lia.
  - intros j v [_ Hj]%lookup_delete_Some. eauto.
Qed.

Lemma service_step_keeps s s' : inv s → step s s' → inv s'.
Proof.
  intros Hi Hs.
  assert (∀ k p w, at_pc s k p w → good_worker (lim s) (capabilityProfile s) (goto p w)) as Hgood.
  { intros k p w [Hk Hpc]. pose proof (i_workers _ Hi _ _ Hk) as H. unfold goto. by rewrite <-Hpc; destruct w. }
  destruct Hs as [s epoch k now Ha|s k Ha|s k w ok Hw|s k w ok Hw|s k w peer Hw|s k w now Hw|s k w lt Hw
                 |s k w lt Hw|s k w lt Hw|s k w lt ok Hw|s k w lt ok Hw|s k w lt Hw|s k w c Hw];
    try (pose proof (Hgood _ _ _ Hw) as Hg; unfold good_worker, goto in Hg; cbn in Hg; destruct Hw as [Hk Hpc]);
    try pose proof Hi as [P A C K (B1 & B2 & B3) W D].
  - by apply accept_begin_keeps.
  - by apply accept_register_keeps.
  - apply (inv_goto s k w); try done. by destruct ok.
  - apply (inv_goto s k w); try done. by destruct ok.
  - apply (inv_goto s k w); try done; destruct peer; try done.
    destruct Hg as (? & ? & ?). unfold good_worker. cbn. eauto.
  - unfold lifetime_step. destruct (authenticatedSessionLifetime _ _ _) eqn:El; [|by apply (inv_goto s k w)].
    apply (inv_goto s k w); try done.
    destruct Hg as (? & ? & ? & ?). unfold good_worker, lifetime_ok. cbn. eauto 10.
  - by apply client_step_keeps.
  - unfold active_step. case_guard G; [by apply (inv_goto s k w)|]. bool_prop.
    destruct Hg as (Hp & Ha & Hau & Hlt & Hcl).
    apply (inv_set s _ k w); try done; cbn; rewrite ?Ha; cbn; try lia.
    intros id. unfold holds_client. cbn. lia.
  - destruct Hg as (Hp & Ha & Hau & Hlt & Hcl). unfold enter_step.
    apply (inv_set s _ k w); try done; cbn; rewrite ?Hp; cbn; try lia.
    intros id. unfold holds_client. cbn. lia.
  - unfold dial_step. apply (inv_set s _ k w); try done; cbn; try lia.
    + by destruct ok.
    + intros id. unfold holds_client. cbn. lia.
    + apply Forall_app. split; [done|]. by constructor.
  - apply (inv_goto s k w); try done. by destruct ok.
  - by apply (inv_goto s k w).
  - by apply unwind_keeps.
Qed.

Lemma service_step_config s s' : step s s' → lim s' = lim s ∧ capabilityProfile s' = capabilityProfile s.
Proof.
  destruct 1; unfold accept_begin, accept_register, send_cancel, client_step, tryAcquireClientActive,
    active_step, enter_step, dial_step, unwind_step, releaseClientActive, set_worker;
    repeat (case_match; simplify_eq/=; try done); done.
Qed.

Lemma service_reachable_inv l capability s :
  reachable l capability s → inv s ∧ lim s = l ∧ capabilityProfile s = capability.
Proof.
  induction 1 as [now|s s' _ (Hi & Hl & Hc) Hs].
  - split; [|done]. split; cbn; try done; rewrite ?count_if_empty; try done.
    split_and!; lia || (intros; rewrite cnt_empty; lia).
  - destruct (service_step_config _ _ Hs) as [-> ->]. eauto using service_step_keeps.
Qed.

(** ** A run of the connector: one session up to its copy *)

Definition demo_limits : ConnectorLimits :=
  MkConnectorLimits 4 2 0 Second Second Second Second Second (30 * Second) 0 0.
Definition demo_id (b : byte) : arr IDSize := arr_copy IDSize [b].
Definition demo_epoch : EpochID := demo_id Byte.x01.
Definition demo_key : sessionKey := (demo_epoch, demo_id Byte.x02).
Definition demo_cert : peer_cert :=
  PeerCert (100 * Second) [ClientCapabilityDNSName (demo_id Byte.x03) (demo_id Byte.x04) (demo_id Byte.x05) 7].
Definition demo0 : Service := newService demo_limits true 0.
Definition demo1 : Service := accept_register demo_key (accept_begin demo_epoch demo_key 1 demo0).1.
(** The worker of [demo_key] just before its dial. *)
Definition demo_worker : worker := Worker (PDial (90 * Second)) (Some (Some demo_cert)) false (Some (demo_id Byte.x03)) true.
Definition demo2 : Service :=
  demo1 <| pending := 0 |> <| active := 1 |> <| clientActive := {[demo_id Byte.x03 := 1]} |>
        <| sessions := {[demo_key := demo_worker]} |>.

Lemma session1_reachable : reachable demo_limits true demo1.
Proof.
  eapply R_step; [eapply R_step; [apply R_new|apply (S_open _ demo_epoch demo_key 1); reflexivity]|].
  apply S_register. vm_compute. reflexivity.
Qed.

Lemma session2_reachable : reachable demo_limits true demo2.
Proof.
  pose proof session1_reachable as R.
  set (w0 := Worker PConnect None true None false).
  assert (∀ s k w p s', reachable demo_limits true s → at_pc s k p w → step s s' → reachable demo_limits true s')
    as Hnext by (intros; by eapply R_step).
  eapply R_step in R; [|apply (S_connect _ demo_key w0 true); split; vm_compute; reflexivity].
  eapply R_step in R; [|apply (S_join _ demo_key (goto PJoin w0) true); split; vm_compute; reflexivity].
  eapply R_step in R; [|apply (S_handshake _ demo_key (goto PHandshake w0) (Some (Some demo_cert)));
                        split; vm_compute; reflexivity].
  set (w1 := w0 <| w_auth := Some (Some demo_cert) |>) in *.
  eapply R_step in R; [|apply (S_lifetime _ demo_key (goto PLifetime w1) (10 * Second)); split; vm_compute; reflexivity].
  eapply R_step in R; [|apply (S_client _ demo_key (goto (PClient (90 * Second)) w1)); split; vm_compute; reflexivity].
  set (w2 := w1 <| w_client := Some (demo_id Byte.x03) |>) in *.
  eapply R_step in R; [|apply (S_active _ demo_key (goto (PActive (90 * Second)) w2)); split; vm_compute; reflexivity].
  eapply R_step in R; [|apply (S_enter _ demo_key (goto (PEnter (90 * Second)) (w2 <| w_active := true |>)));
                        split; vm_compute; reflexivity].
  exact R.
Qed.

(** ** Properties *)

(** C32. Over every interleaving of opens, workers and deferred releases the pending and
    active semaphores and the per-client accounts count exactly the workers that hold
    them, within the configured limits; when no session is left every slot is back and
    no client account remains. *)
Theorem connector_accounting l capability s :
  reachable l capability s → valid l →
  pending s = b2i (bool_decide (is_Some (accepting s))) + count_if w_pending (sessions s)
  ∧ active s = count_if w_active (sessions s)
  ∧ (∀ id, cnt (clientActive s) id = count_if (holds_client id) (sessions s))
  ∧ 0 <= pending s <= Pending l ∧ 0 <= active s <= Active l
  ∧ (∀ id, 0 <= cnt (clientActive s) id <= ActivePerClientValue l)
  ∧ (sessions s = ∅ → accepting s = None → pending s = 0 ∧ active s = 0 ∧ clientActive s = ∅).
Proof.
  intros Hr [Vp Va Vc _ _ _]. apply service_reachable_inv in Hr as ([P A C K (B1 & B2 & B3) W D] & Hl & _).
  rewrite Hl in *. pose proof (count_if_nonneg w_pending (sessions s)).
  pose proof (count_if_nonneg w_active (sessions s)).
  assert (0 <= b2i (bool_decide (is_Some (accepting s)))) by (unfold b2i; case_match; lia).
  split_and!; try done; try lia.
  - intros id. specialize (B3 id). rewrite C in *. pose proof (count_if_nonneg (holds_client id) (sessions s)). lia.
  - intros Hs Ha. rewrite Hs, Ha in *. rewrite !count_if_empty in *. split_and!; [rewrite P; reflexivity|done|].
    apply map_eq. intros id. rewrite lookup_empty. destruct (clientActive s !! id) as [n|] eqn:E; [|done].
    specialize (K _ _ E). specialize (C id). unfold cnt in C. rewrite E, count_if_empty in C. cbn in C. lia.
Qed.

Lemma connector_accounting_witness :
  valid demo_limits ∧ active demo2 = count_if w_active (sessions demo2) ∧ active demo2 = 1.
Proof.
  assert (valid demo_limits) as Hv by (apply validate_valid; reflexivity).
  split; [exact Hv|]. split; [|reflexivity].
  apply (connector_accounting demo_limits true demo2 session2_reachable Hv).
Defined.

(** C2. The gate of the local dial: whatever the relay and the peers do, a local
    connection is attempted only to the one compiled loopback target, for a session whose
    inner handshake is complete, whose certificate had a positive remaining life, and which
    holds an active slot and, in the capability profile, a slot of the client that its
    certificate canonically names. *)
Theorem dial_gate l capability s s' :
  reachable l capability s → valid l → step s s' → dials s' ≠ dials s →
  dials s' = dials s ++ [("tcp4", "127.0.0.1:22")%string]
  ∧ ∃ k w cert now lifetime,
      sessions s !! k = Some w ∧ w_auth w = Some (Some cert)
      ∧ 0 < lifetime <= SessionLifetimeValue l ∧ lifetime <= sat_sub (NotAfter cert) now
      ∧ w_active w = true ∧ 1 <= active s
      ∧ (capability = true → ∃ clientID connectorID route epoch,
           DNSNames cert = [ClientCapabilityDNSName clientID connectorID route epoch]
           ∧ clientID ≠ arr_zero IDSize ∧ w_client w = Some clientID ∧ 1 <= cnt (clientActive s) clientID).
Proof.
  intros Hr [_ _ _ _ _ Vs] Hs Hd. apply service_reachable_inv in Hr as (Hi & Hl & Hc).
  destruct Hs as [s epoch k now Ha|s k Ha|s k w ok Hw|s k w ok Hw|s k w peer Hw|s k w now Hw|s k w lt Hw
                 |s k w lt Hw|s k w lt Hw|s k w lt ok [Hk Hpc]|s k w lt ok Hw|s k w lt Hw|s k w c Hw];
    try (exfalso; apply Hd; unfold accept_begin, accept_register, send_cancel, client_step,
           tryAcquireClientActive, active_step, enter_step, unwind_step, releaseClientActive, set_worker;
         repeat (case_match; simplify_eq/=; try done); done).
  split; [done|]. pose proof (i_workers _ Hi _ _ Hk) as Hg. unfold good_worker in Hg. rewrite Hpc, Hl, Hc in Hg.
  destruct Hg as (_ & Hact & [auth Hau] & (now & Hlt) & Hcl).
  unfold client_ok, auth_cert in *. rewrite Hau in *. cbn in Hlt, Hcl.
  destruct auth as [cert|]; [|done]. cbn in Hlt.
  exists k, w, cert, now, lt.
  assert (0 < lt <= SessionLifetimeValue l ∧ lt <= sat_sub (NotAfter cert) now) as [? ?]
    by (go_cases Hlt; case_match; bool_prop; lia).
  split_and!; try done; try lia.
  - rewrite (i_active _ Hi). apply count_if_member with (k := k) (x := w); done.
  - intros ->. destruct cert as [na [|name [|]]]; try done. cbn in Hcl.
    destruct (ParseClientCapabilityDNSName name) as [[[[clientID connectorID] route] epoch]|] eqn:Ep; [|done].
    injection Hcl as Hcl. apply ParseClientCapabilityDNSName_spec in Ep as (-> & Hz & _).
    exists clientID, connectorID, route, epoch. split_and!; try done.
    rewrite (i_client _ Hi). apply count_if_member with (k := k) (x := w); [done|].
    unfold holds_client. by rewrite <-Hcl, bool_decide_eq_true_2.
Qed.

Lemma dial_gate_witness :
  ∃ s', step demo2 s' ∧ dials s' = dials demo2 ++ [("tcp4", "127.0.0.1:22")%string].
Proof.
  assert (step demo2 (dial_step demo_key (90 * Second) true demo_worker demo2)) as Hs
    by (apply S_dial; split; reflexivity).
  exists (dial_step demo_key (90 * Second) true demo_worker demo2). split; [exact Hs|].
  refine (proj1 (dial_gate demo_limits true demo2 _ session2_reachable _ Hs _)).
  - apply validate_valid. reflexivity.
  - vm_compute. discriminate.
Defined.

(** *** Reconnection *)

Lemma nextBackoff_min current maximum :
  0 <= current → current <= maximum <= max_int64 → nextBackoff current maximum = Z.min maximum (current * 2).
Proof.
  intros Hc Hm. unfold nextBackoff. rewrite Z.quot_div_nonneg by lia.
  pose proof (Z.div_mod maximum 2 ltac:(lia)). pose proof (Z.mod_pos_bound maximum 2 ltac:(lia)).
  unfold max_int64 in *. destruct (Z.leb_spec maximum current); cbn; [lia|].
  destruct (Z.ltb_spec (maximum / 2) current); [lia|]. rewrite wrap64_id by (unfold max_int64; lia). lia.
Qed.

Lemma jitterDuration_bounds random value :
  0 <= value <= max_int64 → (∀ r, random = Some r → 0 <= r) →
  value <= jitterDuration random value <= Z.min max_int64 (value + value / 2).
Proof.
  pose proof (Z.div_mod value 2 ltac:(lia)). pose proof (Z.mod_pos_bound value 2 ltac:(lia)).
  intros Hv Hr. unfold jitterDuration. destruct (Z.leb_spec value 1); [lia|].
  destruct random as [r|]; [|lia]. rewrite Z.quot_div_nonneg by lia.
  pose proof (Z.mod_pos_bound r (value / 2 + 1) ltac:(lia)).
  destruct (Z.ltb_spec (max_int64 - r mod (value / 2 + 1)) value); [lia|].
  rewrite wrap64_id by (unfold max_int64 in *; lia). lia.
Qed.

(** For each session, how many ended early in a row just before it; a session that lasted as
    long as the heartbeat timeout starts afresh. *)
Fixpoint early_streaks (k : nat) (sessions : list (Z * option Z)) : list nat :=
  match sessions with
  | [] => []
  | (elapsed, _) :: rest =>
      let k := if controlHeartbeatTimeout <=? elapsed then 0%nat else k in
      k :: early_streaks (S k) rest
  end.
(** The delay after so many early failures: the minimum doubled as often, up to the maximum,
    and lengthened by at most a half, within the maximum. *)
Definition delay_ok (l : ConnectorLimits) (k : nat) (delay : Z) : Prop :=
  let base := Z.min (ReconnectMax l) (ReconnectMin l * 2 ^ Z.of_nat k) in
  base <= delay <= Z.min (ReconnectMax l) (base + base / 2).
Lemma reconnect_ok l k elapsed random backoff :
  valid l → ReconnectMax l <= max_int64 → (∀ r, random = Some r → 0 <= r) →
  backoff = Z.min (ReconnectMax l) (ReconnectMin l * 2 ^ Z.of_nat k) →
  let j := if controlHeartbeatTimeout <=? elapsed then 0%nat else k in
  delay_ok l j (reconnect l elapsed random backoff).1
  ∧ (reconnect l elapsed random backoff).2 = Z.min (ReconnectMax l) (ReconnectMin l * 2 ^ Z.of_nat (S j)).
Proof.
  intros [_ _ _ _ Hv _] Hmax Hr Hb j. unfold reconnect. cbn [fst snd].
  set (b' := if controlHeartbeatTimeout <=? elapsed then ReconnectMin l else backoff).
  assert (0 < 2 ^ Z.of_nat j) as Hj by (apply Z.pow_pos_nonneg; lia).
  assert (b' = Z.min (ReconnectMax l) (ReconnectMin l * 2 ^ Z.of_nat j)) as Eb.
  { unfold b', j. case_match; [change (2 ^ Z.of_nat 0) with 1; lia|done]. }
  assert (ReconnectMin l <= b' <= ReconnectMax l) as Hb' by nia. clearbody b' j.
  pose proof (jitterDuration_bounds random b' ltac:(lia) Hr). split.
  - unfold delay_ok. rewrite <-Eb. case_match; bool_prop; lia.
  - rewrite nextBackoff_min by lia. rewrite Nat2Z.inj_succ, Z.pow_succ_r by lia. rewrite Eb. nia.
Qed.

(** C39. A relay cannot turn reconnection into a tight loop: whatever the sessions' lengths and
    the random bytes, the delays of [Run] double with every session in a row that ends early,
    from the configured minimum, which a session as long as the heartbeat timeout restores, up
    to the maximum; the jitter adds at most a half of that, never above the maximum and
    without overflow of [time.Duration]. So every delay lies between the two. *)
Theorem reconnect_delays l sessions :
  valid l → ReconnectMax l <= max_int64 →
  Forall (λ x, ∀ r, x.2 = Some r → 0 <= r) sessions →
  Forall2 (delay_ok l) (early_streaks 0 sessions) (reconnects l sessions (ReconnectMin l))
  ∧ Forall (λ d, ReconnectMin l <= d <= ReconnectMax l) (reconnects l sessions (ReconnectMin l)).
Proof.
  intros Hl Hmax Hr. pose proof Hl as [_ _ _ _ Hv _].
  assert (Forall2 (delay_ok l) (early_streaks 0 sessions) (reconnects l sessions (ReconnectMin l))) as H.
  { assert (ReconnectMin l = Z.min (ReconnectMax l) (ReconnectMin l * 2 ^ Z.of_nat 0)) as Hb by (change (2 ^ Z.of_nat 0) with 1; lia).
    revert Hb. generalize (ReconnectMin l) at 1 3 as b. generalize 0%nat as k.
    induction Hr as [|[elapsed random] rest Hx _ IH]; intros k b Hb; [by constructor|]. cbn [early_streaks reconnects].
    destruct (reconnect_ok l k elapsed random b Hl Hmax Hx Hb) as [H1 H2]. destruct (reconnect l elapsed random b) as [d b'].
    constructor; [exact H1|by apply IH]. }
  split; [exact H|]. clear Hr. induction H as [|k d ks ds Hd _ IH]; [by constructor|]. constructor; [|exact IH].
  unfold delay_ok in Hd. assert (0 < 2 ^ Z.of_nat k) by (apply Z.pow_pos_nonneg; lia). nia.
Qed.

Lemma reconnect_delays_witness :
  reconnects demo_limits [(0, Some 12345); (0, None); (100 * Second, Some 7)] Second
    = [1000012345; 2000000000; 1000000007]
  ∧ Forall (λ d, Second <= d <= 30 * Second)
      (reconnects demo_limits [(0, Some 12345); (0, None); (100 * Second, Some 7)] Second).
Proof.
  split; [vm_compute; reflexivity|].
  apply (reconnect_delays demo_limits [(0, Some 12345); (0, None); (100 * Second, Some 7)]).
  - apply validate_valid. reflexivity.
  - vm_compute. congruence.
  - repeat constructor; intros r [= <-]; vm_compute; congruence.
Defined.

(** *** Session lifetime and byte budget *)

(** The guard of an authenticated session is always created and ends it no later than
    the peer certificate: its expiry is at most the configured lifetime after the copy
    starts, and at most [NotAfter] plus the delay since the certificate was checked. *)
Theorem session_outlives_nothing l cert checked started lifetime :
  valid l → authenticatedSessionLifetime l (Some cert) checked = Ok lifetime →
  NotAfter cert - checked <= max_int64 →
  ∃ g, copy_guard l lifetime started = Ok g
    ∧ expires g <= started + SessionLifetimeValue l
    ∧ expires g <= NotAfter cert + (started - checked)
    ∧ 0 < idle g <= SessionIdleValue l ∧ started < expires g.
Proof.
  intros [_ _ _ _ _ Hs] Hl Hm. unfold authenticatedSessionLifetime in Hl.
  assert (0 < lifetime <= SessionLifetimeValue l ∧ lifetime <= NotAfter cert - checked) as [? ?].
  { go_cases Hl. unfold sat_sub in *. case_match; bool_prop; lia. }
  unfold copy_guard, newWithClock. cbn [negb].
  set (i := if lifetime <? SessionIdleValue l then lifetime else SessionIdleValue l).
  assert (0 < i <= SessionIdleValue l ∧ i <= lifetime) as [? ?]
    by (unfold i; destruct (Z.ltb_spec lifetime (SessionIdleValue l)); lia).
  case_guard G; [exfalso; lia|]. eexists. split; [done|]. cbn. lia.
Qed.

Lemma session_outlives_nothing_witness :
  ∃ g, copy_guard demo_limits (90 * Second) (11 * Second) = Ok g
    ∧ expires g <= 100 * Second + (11 * Second - 10 * Second).
Proof.
  destruct (session_outlives_nothing demo_limits demo_cert (10 * Second) (11 * Second) (90 * Second)) as (g & H).
  - apply validate_valid. reflexivity.
  - reflexivity.
  - vm_compute. congruence.
  - exists g. split; [apply H|apply H].
Defined.

(** Reads before the handshake ends: the buffer offered and what the connection returned. *)
Fixpoint preauth_run (reads : list (Z * Z)) (c : preAuthConn) : preAuthConn * Z :=
  match reads with
  | [] => (c, 0)
  | (buffer, count) :: rest =>
      let '(c', total) := preauth_run rest (preauth_read buffer count c) in
      (c', total + match preauth_grant buffer c with Some _ => count | None => 0 end)
  end.

(** Every count is one the connection below may return for the granted buffer. *)
Fixpoint preauth_counts (reads : list (Z * Z)) (c : preAuthConn) : Prop :=
  match reads with
  | [] => True
  | (buffer, count) :: rest =>
      0 <= buffer
      ∧ match preauth_grant buffer c with Some n => 0 <= count <= n | None => True end
      ∧ preauth_counts rest (preauth_read buffer count c)
  end.

(** Before it has authenticated, an inner peer can make the connector take at most
    256 KiB, however the bytes are split over reads; with the budget spent every read is
    refused. *)
Theorem preauth_budget reads c total :
  preauth_counts reads newPreAuth → preauth_run reads newPreAuth = (c, total) →
  0 <= total <= innerPreAuthByteLimit ∧ remaining c = innerPreAuthByteLimit - total ∧ limited c = true
  ∧ (total = innerPreAuthByteLimit → ∀ buffer, preauth_grant buffer c = None).
Proof.
  intros Hc Hr.
  assert (∀ c0 c total, limited c0 = true → 0 <= remaining c0 → preauth_counts reads c0 →
    preauth_run reads c0 = (c, total) →
    0 <= total <= remaining c0 ∧ remaining c = remaining c0 - total ∧ limited c = true) as Hgen.
  { clear. induction reads as [|[buffer count] reads IH]; intros c0 c total Hl Hr; cbn.
    { intros _ [= <- <-]. split_and!; done || lia. }
    intros (Hb & Hn & Hrest) Hrun. destruct (preauth_run reads _) as [c' t'] eqn:E. injection Hrun as <- <-.
    specialize (IH (preauth_read buffer count c0) c' t'). unfold preauth_read, preauth_grant in *. rewrite Hl in *.
    cbn [negb] in *. destruct (Z.leb_spec (remaining c0) 0); 
      [destruct (IH Hl Hr Hrest E) as (? & ? & ?); split_and!; done || lia|].
    cbn in IH. destruct IH as (? & ? & ?); try done;
      case_match; bool_prop; try split_and!; done || lia. }
  destruct (Hgen newPreAuth c total eq_refl ltac:(done) Hc Hr) as (H1 & H2 & H3). cbn in H1, H2.
  split_and!; try done; try lia. intros Ht buffer. unfold preauth_grant. rewrite H3, H2. cbn [negb].
  by rewrite (proj2 (Z.leb_le _ 0)) by lia.
Qed.

Lemma preauth_budget_witness :
  (preauth_run [(4096, 4096); (1048576, 258048); (10, 3)] newPreAuth).2 = 262144
  ∧ preauth_grant 10 (preauth_run [(4096, 4096); (1048576, 258048); (10, 3)] newPreAuth).1 = None.
Proof.
  split; [reflexivity|].
  apply (preauth_budget [(4096, 4096); (1048576, 258048); (10, 3)]
    (preauth_run [(4096, 4096); (1048576, 258048); (10, 3)] newPreAuth).1
    (preauth_run [(4096, 4096); (1048576, 258048); (10, 3)] newPreAuth).2).
  - vm_compute. repeat split; congruence.
  - reflexivity.
  - reflexivity.
Defined.
