(* ===== verification/PairToken.v ===== *)
(** * Relay route tokens: [internal/pairrelay/token.go], [types.go]

    Stateless tokens: fixed layout, HMAC-SHA-256 under the relay's key, claims checked
    against the clock. An instant is a count of nanoseconds since the Unix epoch; Go keeps
    seconds since year one in an [int64], which [time.Unix] computes with wrap-around. *)

From S2P Require Import Prelude GoIO Protocol Sha256.

Definition tokenKeySize : nat := 32.
Definition tokenBodySize : nat := 8 + 32 + 32 + 32 + 8 + 8 + 8 + 4 + 4 + 4 + 4 + 4.
Definition tokenSize : nat := tokenBodySize + 32.
Definition MaxTokenBytes : nat := 1024.
Definition MaxPairingBytes : Z := 2 ^ 20.
Definition MaxTokenValidity : Z := 30 * 24 * Hour.
Definition MaxExpiredRenewalGrace : Z := 2 * 365 * 24 * Hour.

Definition tokenMagic : list byte := ascii_bytes "OTRTOK" ++ [Byte.x02; Byte.x00].
Definition tokenDomain : list byte := ascii_bytes "OwnTransit relay route token v2" ++ [Byte.x00].

Inductive pair_err := ErrProtocol | ErrUnauthorized | ErrUnavailable | ErrCapacity | ErrExpired | ErrAlreadyClosed
  | ErrSave.
#[export] Instance pair_err_eq_dec : EqDecision pair_err.
Proof. solve_decision. Defined.

(** [type Role uint8] *)
Definition Role : Type := byte.
Definition RoleReceiver : Role := Byte.x01.
Definition RoleClient : Role := Byte.x02.
Definition known_role (r : Role) : bool := bool_decide (r = RoleReceiver) || bool_decide (r = RoleClient).

Record RouteLimits := MkRouteLimits {
  PendingPairings : Z;
  PendingCarriers : Z;
  ActiveCarriers : Z;
  PairingBytes : Z;
  SessionLifetime : Z }.
#[export] Instance RouteLimits_eq_dec : EqDecision RouteLimits.
Proof. solve_decision. Defined.

Record TokenClaims := MkTokenClaims {
  c_receiver : ID;
  c_route : RouteID;
  c_root : arr 32;
  c_limits : RouteLimits;
  c_generation : Z;
  c_issued : Z;
  c_expires : Z }.
#[export] Instance TokenClaims_eq_dec : EqDecision TokenClaims.
Proof. solve_decision. Defined.

Record AuthenticatedPeer := MkPeer {
  p_receiver : ID;
  p_route : RouteID;
  p_root : arr 32;
  p_role : Role;
  p_id : ID }.

Definition zeroID (value : arr 32) : bool := bool_decide (value = arr_zero 32).

(** ** Time *)

Definition unixToInternal : Z := 62135596800.
(** Seconds since year one of [time.Unix(sec, 0)]. *)
Definition unix_time (sec : Z) : Z := wrap64 (sec + unixToInternal).
(** [now.IsZero()] *)
Definition is_zero (now : Z) : bool := now =? - unixToInternal * Second.
(** [now.UTC().Truncate(time.Second).Unix()] *)
Definition unix_sec (now : Z) : Z := now / Second.
(** The same instant, in seconds since year one. *)
Definition truncated (now : Z) : Z := unix_sec now + unixToInternal.

(** ** Validation *)

Definition validateRouteLimits (value : RouteLimits) : bool :=
  negb ((PendingPairings value <=? 0) || (64 <? PendingPairings value)
        || (PendingCarriers value <=? 0) || (64 <? PendingCarriers value)
        || (ActiveCarriers value <=? 0) || (64 <? ActiveCarriers value)
        || (PairingBytes value <=? 0) || (MaxPairingBytes <? PairingBytes value)
        || (SessionLifetime value <=? 0) || (MaxTokenValidity <? SessionLifetime value)
        || negb (Z.rem (SessionLifetime value) Second =? 0)).

Definition validateTokenClaims (claims : TokenClaims) (now : Z) (renewal : bool) : result pair_err unit :=
  reject zeroID (c_receiver claims) || zeroID (c_route claims) || zeroID (c_root claims)
         || (c_generation claims =? 0) || (c_issued claims <=? 0) || (c_expires claims <=? c_issued claims)
         || (MaxTokenValidity ÷ Second <? wrap64 (c_expires claims - c_issued claims))
         || negb (validateRouteLimits (c_limits claims)) with ErrProtocol;;
  let instant := truncated now in
  let issued := unix_time (c_issued claims) in
  let expires := unix_time (c_expires claims) in
  reject instant <? issued - 5 * 60 with ErrProtocol;;
  if negb (instant <? expires) then
    if renewal && (sat_sub (instant * Second) (expires * Second) <=? MaxExpiredRenewalGrace) then Ok tt
    else Err ErrExpired
  else Ok tt.

(** ** The encoding *)

Definition token_body (claims : TokenClaims) : list byte :=
  tokenMagic ++ arr_bytes (c_receiver claims) ++ arr_bytes (c_route claims) ++ arr_bytes (c_root claims)
  ++ be_put 8 (c_generation claims) ++ be_put 8 (c_issued claims) ++ be_put 8 (c_expires claims)
  ++ be_put 4 (PendingPairings (c_limits claims)) ++ be_put 4 (PendingCarriers (c_limits claims))
  ++ be_put 4 (ActiveCarriers (c_limits claims)) ++ be_put 4 (PairingBytes (c_limits claims))
  ++ be_put 4 (SessionLifetime (c_limits claims) ÷ Second).
Definition token_mac (key body : list byte) : list byte := hmac_sha256 key (tokenDomain ++ body).
Definition sealToken (key : list byte) (claims : TokenClaims) : list byte :=
  token_body claims ++ token_mac key (token_body claims).

(** The fields of an authenticated body. *)
Definition token_claims (body : list byte) : TokenClaims :=
  let u32 i := be_get (slice (128 + 4 * i) 4 body) in
  MkTokenClaims (arr_copy 32 (slice 8 32 body)) (arr_copy 32 (slice 40 32 body)) (arr_copy 32 (slice 72 32 body))
    (MkRouteLimits (u32 0%nat) (u32 1%nat) (u32 2%nat) (u32 3%nat) (wrap64 (u32 4%nat * Second)))
    (be_get (slice 104 8 body)) (be_get (slice 112 8 body)) (be_get (slice 120 8 body)).

Definition openToken (key encoded : list byte) (now : Z) (renewal : bool) : result pair_err TokenClaims :=
  reject negb (length key =? tokenKeySize)%nat || negb (length encoded =? tokenSize)%nat
         || (MaxTokenBytes <? length encoded)%nat || is_zero now with ErrUnauthorized;;
  let body := take tokenBodySize encoded in
  let supplied := drop tokenBodySize encoded in
  reject negb (bool_decide (supplied = token_mac key body))
         || negb (bool_decide (take 8 body = tokenMagic)) with ErrUnauthorized;;
  let claims := token_claims body in
  reject (max_int64 <? c_issued claims) || (max_int64 <? c_expires claims) with ErrUnauthorized;;
  match validateTokenClaims claims now renewal with
  | Ok _ => Ok claims
  | Err ErrExpired => Err ErrExpired
  | Err _ => Err ErrUnauthorized
  end.

Definition VerifyToken (key encoded : list byte) (now : Z) : result pair_err TokenClaims :=
  openToken key encoded now false.

Definition IssueToken (key : list byte) (claims : TokenClaims) (now : Z) : result pair_err (list byte) :=
  reject negb (length key =? tokenKeySize)%nat || is_zero now || (c_generation claims =? 0)
         || negb (c_issued claims =? unix_sec now) with ErrProtocol;;
  match validateTokenClaims claims now false with
  | Err e => Err e
  | Ok _ => Ok (sealToken key claims)
  end.

Definition sameAuthenticatedRoute (claims : TokenClaims) (peer : AuthenticatedPeer) : bool :=
  if negb (known_role (p_role peer)) then false
  else if zeroID (p_id peer) || bool_decide (p_receiver peer ≠ c_receiver claims)
          || bool_decide (p_route peer ≠ c_route claims) || bool_decide (p_root peer ≠ c_root claims)
  then false
  else bool_decide (p_role peer ≠ RoleReceiver) || bool_decide (p_id peer = c_receiver claims).

Definition max_uint64 : Z := 2 ^ 64 - 1.
Definition RenewToken (key previous : list byte) (authenticated : AuthenticatedPeer) (now validity : Z)
    : result pair_err (list byte) :=
  reject is_zero now || (validity <=? 0) || (MaxTokenValidity <? validity) with ErrProtocol;;
  match openToken key previous now true with
  | Err e => Err e
  | Ok claims =>
      reject negb (sameAuthenticatedRoute claims authenticated) || (c_generation claims =? max_uint64)
        with ErrUnauthorized;;
      let renewed := MkTokenClaims (c_receiver claims) (c_route claims) (c_root claims) (c_limits claims)
        (c_generation claims + 1) (unix_sec now) ((unix_sec now * Second + validity) / Second) in
      match validateTokenClaims renewed now false with
      | Err e => Err e
      | Ok _ => Ok (sealToken key renewed)
      end
  end.

(** ** The encoding is a bijection on well-formed claims *)

Lemma length_tokenMagic : length tokenMagic = 8%nat.
Proof. reflexivity. Qed.
#[export] Hint Rewrite length_tokenMagic : len.

(** One field of a concatenation, by its offset. *)
Ltac flen := autorewrite with len; unfold IDSize, tokenBodySize; lia.
Ltac slice_field :=
  repeat (rewrite slice_app_r by flen); rewrite ?slice_app_l by flen;
  match goal with |- slice ?k _ _ = _ => replace k with 0%nat by flen; apply slice_all; flen end.

Lemma length_token_body c : length (token_body c) = tokenBodySize.
Proof. unfold token_body. flen. Qed.

(** The ranges of the Go types, and a lifetime that the encoding can carry. *)
Record wf_claims (c : TokenClaims) : Prop := {
  wf_generation : 0 <= c_generation c < 2 ^ 64;
  wf_issued : 0 <= c_issued c <= max_int64;
  wf_expires : 0 <= c_expires c <= max_int64;
  wf_pairings : 0 <= PendingPairings (c_limits c) < 2 ^ 32;
  wf_carriers : 0 <= PendingCarriers (c_limits c) < 2 ^ 32;
  wf_active : 0 <= ActiveCarriers (c_limits c) < 2 ^ 32;
  wf_bytes : 0 <= PairingBytes (c_limits c) < 2 ^ 32;
  wf_lifetime : ∃ s, SessionLifetime (c_limits c) = s * Second ∧ 0 <= s < 2 ^ 32 }.

Lemma be_get_put_id n z : 0 <= z < 256 ^ Z.of_nat n → be_get (be_put n z) = z.
Proof. intros. by rewrite be_get_put, Z.mod_small. Qed.

Lemma lifetime_wrap s : 0 <= s < 2 ^ 32 → wrap64 (s * Second) = s * Second.
Proof. intros. apply wrap64_id. unfold max_int64, Second. lia. Qed.

Lemma token_claims_body c : wf_claims c → token_claims (token_body c) = c.
Proof.
  intros [Hg Hi He H1 H2 H3 H4 (s & Hs & Hr)]. unfold token_claims. cbv zeta. cbn [Nat.mul Nat.add].
  set (b := token_body c).
  assert (slice 8 32 b = arr_bytes (c_receiver c)) as -> by (unfold b, token_body; slice_field).
  assert (slice 40 32 b = arr_bytes (c_route c)) as -> by (unfold b, token_body; slice_field).
  assert (slice 72 32 b = arr_bytes (c_root c)) as -> by (unfold b, token_body; slice_field).
  assert (slice 104 8 b = be_put 8 (c_generation c)) as -> by (unfold b, token_body; slice_field).
  assert (slice 112 8 b = be_put 8 (c_issued c)) as -> by (unfold b, token_body; slice_field).
  assert (slice 120 8 b = be_put 8 (c_expires c)) as -> by (unfold b, token_body; slice_field).
  assert (slice 128 4 b = be_put 4 (PendingPairings (c_limits c))) as -> by (unfold b, token_body; slice_field).
  assert (slice 132 4 b = be_put 4 (PendingCarriers (c_limits c))) as -> by (unfold b, token_body; slice_field).
  assert (slice 136 4 b = be_put 4 (ActiveCarriers (c_limits c))) as -> by (unfold b, token_body; slice_field).
  assert (slice 140 4 b = be_put 4 (PairingBytes (c_limits c))) as -> by (unfold b, token_body; slice_field).
  assert (slice 144 4 b = be_put 4 (SessionLifetime (c_limits c) ÷ Second)) as ->
    by (unfold b, token_body; slice_field).
  unfold max_int64 in *. rewrite !arr_copy_bytes. rewrite Hs, Z.quot_mul by (unfold Second; lia).
  rewrite !be_get_put_id by (change (256 ^ Z.of_nat 8) with (2 ^ 64); change (256 ^ Z.of_nat 4) with (2 ^ 32); lia).
  rewrite lifetime_wrap, <-Hs by done. by destruct c as [? ? ? [] ? ? ?].
Qed.

Lemma be_get_slice_range i n l : (i + n <= length l)%nat → 0 <= be_get (slice i n l) < 256 ^ Z.of_nat n.
Proof. intros H. rewrite <-(length_slice i n l H) at 3. apply be_get_range. Qed.

Lemma token_body_claims b :
  length b = tokenBodySize → take 8 b = tokenMagic → token_body (token_claims b) = b.
Proof.
  intros Hl Hm. unfold token_body, token_claims. cbv zeta.
  cbn [c_receiver c_route c_root c_generation c_issued c_expires c_limits
    PendingPairings PendingCarriers ActiveCarriers PairingBytes SessionLifetime Nat.mul Nat.add].
  assert (∀ i n, (i + n <= 148)%nat → (i + n <= length b)%nat) as Hb by (unfold tokenBodySize in Hl; lia).
  rewrite !arr_bytes_copy by (apply length_slice, Hb; lia).
  pose proof (be_get_slice_range 144 4 b ltac:(apply Hb; lia)) as Hr.
  change (256 ^ Z.of_nat 4) with (2 ^ 32) in Hr.
  rewrite lifetime_wrap, Z.quot_mul by (done || (unfold Second; lia)).
  rewrite !be_put_slice by (apply Hb; lia).
  rewrite <-Hm. change (take 8 b) with (slice 0 8 b). rewrite !slice_split. by apply slice_all.
Qed.

Lemma token_claims_wf b :
  length b = tokenBodySize →
  c_issued (token_claims b) <= max_int64 → c_expires (token_claims b) <= max_int64 → wf_claims (token_claims b).
Proof.
  intros Hl Hi He. assert (∀ i n, (i + n <= 148)%nat → (i + n <= length b)%nat) as Hb by (unfold tokenBodySize in Hl; lia).
  assert (∀ i, (i + 8 <= 148)%nat → 0 <= be_get (slice i 8 b) < 2 ^ 64) as H8
    by (intros; by apply (be_get_slice_range _ 8), Hb).
  assert (∀ i, (i + 4 <= 148)%nat → 0 <= be_get (slice i 4 b) < 2 ^ 32) as H4
    by (intros; by apply (be_get_slice_range _ 4), Hb).
  split; cbn in *; try (split; [apply H8; lia|done]); try (apply H8; lia); try (apply H4; lia).
  exists (be_get (slice 144 4 b)). split; [apply lifetime_wrap|]; apply H4; lia.
Qed.

Lemma length_sealToken key c : length (sealToken key c) = tokenSize.
Proof. unfold sealToken, token_mac. rewrite length_app, length_token_body, length_hmac. done. Qed.

Lemma openToken_spec key encoded now renewal claims :
  openToken key encoded now renewal = Ok claims ↔
  length key = tokenKeySize ∧ is_zero now = false ∧ encoded = sealToken key claims ∧ wf_claims claims
  ∧ validateTokenClaims claims now renewal = Ok tt.
Proof.
  split.
  - unfold openToken. case_guard G1; [done|]. case_guard G2; [done|]. case_guard G3; [done|]. bool_prop.
    repeat match goal with H : (_ =? _)%nat = true |- _ => apply Nat.eqb_eq in H end.
    assert (length (take tokenBodySize encoded) = tokenBodySize) as Hl
      by (rewrite length_take; unfold tokenSize in *; lia).
    destruct (validateTokenClaims _ now renewal) as [[]|e] eqn:Ev; [|destruct e; done].
    intros [= <-]. split_and!; try done.
    + unfold sealToken. rewrite token_body_claims by done.
      match goal with H : drop _ _ = token_mac _ _ |- _ => rewrite <-H end. by rewrite take_drop.
    + by apply token_claims_wf.
  - intros (Hk & Hz & -> & Hwf & Hv). unfold openToken. rewrite length_sealToken, Hk, Hz. cbn [Nat.eqb negb orb].
    assert (take tokenBodySize (sealToken key claims) = token_body claims) as ->
      by (unfold sealToken; rewrite <-(length_token_body claims); apply take_app_length).
    assert (drop tokenBodySize (sealToken key claims) = token_mac key (token_body claims)) as ->
      by (unfold sealToken; rewrite <-(length_token_body claims); apply drop_app_length).
    rewrite bool_decide_eq_true_2 by done. change (take 8 (token_body claims)) with tokenMagic.
    rewrite bool_decide_eq_true_2 by done. cbn [negb orb]. rewrite token_claims_body by done.
    destruct Hwf. rewrite (proj2 (Z.ltb_ge _ (c_issued claims))), (proj2 (Z.ltb_ge _ (c_expires claims))) by lia.
    cbn [orb]. by rewrite Hv.
Qed.

(** ** Properties *)

(** C33. The relay accepts exactly the tokens it could have sealed: [openToken] returns
    [claims] if and only if the bytes are the canonical encoding of these claims with the
    HMAC of that encoding under the relay's key, and the claims pass validation at that
    instant. No second encoding of any claims is accepted, and nothing in a valid token can
    be changed without a new MAC. *)
Theorem openToken_canonical key encoded now renewal claims :
  openToken key encoded now renewal = Ok claims ↔
  length key = tokenKeySize ∧ is_zero now = false ∧ encoded = sealToken key claims ∧ wf_claims claims
  ∧ validateTokenClaims claims now renewal = Ok tt.
Proof. apply openToken_spec. Qed.

(** Validated limits can be encoded. *)
Lemma validate_limits_wf claims now renewal :
  validateTokenClaims claims now renewal = Ok tt →
  validateRouteLimits (c_limits claims) = true ∧ 0 < c_issued claims < c_expires claims.
Proof.
  unfold validateTokenClaims. case_guard G; [done|]. intros _. bool_prop. split; [done|lia].
Qed.

Lemma limits_ranges l :
  validateRouteLimits l = true →
  0 <= PendingPairings l < 2 ^ 32 ∧ 0 <= PendingCarriers l < 2 ^ 32 ∧ 0 <= ActiveCarriers l < 2 ^ 32
  ∧ 0 <= PairingBytes l < 2 ^ 32 ∧ ∃ s, SessionLifetime l = s * Second ∧ 0 <= s < 2 ^ 32.
Proof.
  unfold validateRouteLimits, MaxPairingBytes, MaxTokenValidity, Hour, Minute. intros H. bool_prop.
  split_and!; try lia. exists (SessionLifetime l ÷ Second).
  pose proof (Z.quot_rem' (SessionLifetime l) Second) as Hq. unfold Second in *. lia.
Qed.

(** Renewal changes nothing but time: a renewed token opens, for the same receiver,
    route, admission root and limits as the presented one, with the next generation, issued
    at the current second for at most the maximum validity; it is granted only on a token
    that opens (or lapsed within the grace) and to a peer authenticated for that very route. *)
Theorem RenewToken_preserves key previous peer now validity renewed :
  RenewToken key previous peer now validity = Ok renewed →
  0 <= unix_sec now → unix_sec now * Second + validity <= max_int64 →
  ∃ claims claims',
    openToken key previous now true = Ok claims ∧ sameAuthenticatedRoute claims peer = true
    ∧ openToken key renewed now false = Ok claims'
    ∧ c_receiver claims' = c_receiver claims ∧ c_route claims' = c_route claims ∧ c_root claims' = c_root claims
    ∧ c_limits claims' = c_limits claims ∧ c_generation claims' = c_generation claims + 1
    ∧ c_issued claims' = unix_sec now ∧ c_expires claims' - c_issued claims' <= MaxTokenValidity ÷ Second.
Proof.
  unfold RenewToken. intros H Hn Hm. destruct (_ || _) eqn:G1 in H; [done|].
  destruct (openToken key previous now true) as [claims|] eqn:Ho; [|done].
  destruct (_ || _) eqn:G2 in H; [done|]. bool_prop.
  set (c' := MkTokenClaims _ _ _ _ _ _ _) in H.
  destruct (validateTokenClaims c' now false) as [[]|] eqn:Ev; [|done]. injection H as <-.
  pose proof Ho as Ho'. apply openToken_spec in Ho' as (Hk & Hz & _ & [Wg _ _ W1 W2 W3 W4 W5] & _).
  assert ((unix_sec now * Second + validity) / Second = unix_sec now + validity / Second) as Hx
    by (rewrite Z.div_add_l by (unfold Second; lia); done).
  pose proof (Z.div_mod validity Second ltac:(done)) as Hd.
  pose proof (Z.mod_pos_bound validity Second ltac:(done)) as Hb.
  exists claims, c'. split_and!; try done.
  - apply openToken_spec. split_and!; try done. subst c'. split; cbn; try done.
    + unfold max_uint64 in *. lia.
    + unfold max_int64, Second in *. lia.
    + rewrite Hx. unfold max_int64, Second in *. lia.
  - subst c'. cbn. rewrite Hx. change (MaxTokenValidity ÷ Second) with 2592000.
    unfold MaxTokenValidity, Hour, Minute, Second in *. lia.
Qed.

(** ** A token issued, presented and renewed *)

Definition demo_key : list byte := replicate 32 Byte.x4b.
Definition demo_id (b : byte) : arr 32 := arr_copy 32 [b].
Definition demo_claims : TokenClaims :=
  MkTokenClaims (demo_id Byte.x01) (demo_id Byte.x02) (demo_id Byte.x03)
    (MkRouteLimits 4 4 4 65536 (3600 * Second)) 1 1700000000 1702592000.
Definition demo_now : Z := 1700000000 * Second + 5.
Definition demo_peer : AuthenticatedPeer :=
  MkPeer (demo_id Byte.x01) (demo_id Byte.x02) (demo_id Byte.x03) RoleClient (demo_id Byte.x04).

Example openToken_demo : openToken demo_key (sealToken demo_key demo_claims) demo_now false = Ok demo_claims.
Proof. vm_compute. reflexivity. Qed.

Lemma RenewToken_preserves_witness :
  ∃ renewed claims', RenewToken demo_key (sealToken demo_key demo_claims) demo_peer demo_now (24 * Hour) = Ok renewed
    ∧ openToken demo_key renewed demo_now false = Ok claims' ∧ c_root claims' = demo_id Byte.x03.
Proof.
  assert (∃ renewed, RenewToken demo_key (sealToken demo_key demo_claims) demo_peer demo_now (24 * Hour) = Ok renewed)
    as [renewed H] by (eexists; vm_compute; reflexivity).
  destruct (RenewToken_preserves _ _ _ _ _ _ H) as (claims & claims' & H1 & _ & H2 & _ & _ & H3 & _).
  - vm_compute. congruence.
  - vm_compute. congruence.
  - exists renewed, claims'. split; [exact H|]. split; [exact H2|]. rewrite H3.
    assert (openToken demo_key (sealToken demo_key demo_claims) demo_now true = Ok demo_claims) as He
      by (vm_compute; reflexivity).
    rewrite He in H1. injection H1 as <-. reflexivity.
Defined.
