(* ===== verification/PairWire.v ===== *)
(** * The pairing relay's wire format: [internal/pairrelay/wire.go] and the codecs of [offer.go]

    Bounded frames, the runtime preface, the token-and-blob and offer publication bodies. *)

From S2P Require Import Prelude GoIO Protocol PairToken.

Definition wireHeaderSize : nat := 12.
Definition wireVersion : byte := Byte.x02.
Definition kindPublishAdvertisement : byte := Byte.x01.
Definition kindFetchAdvertisement : byte := Byte.x02.
Definition kindPairReceiver : byte := Byte.x03.
Definition kindPairClient : byte := Byte.x04.
Definition kindRuntime : byte := Byte.x05.
Definition kindRenewToken : byte := Byte.x06.
Definition kindFetchRegistration : byte := Byte.x07.
Definition kindFetchServerInfo : byte := Byte.x08.
Definition kindCheckOfferSupport : byte := Byte.x09.
Definition kindPublishOffer : byte := Byte.x0a.
Definition kindFetchOffer : byte := Byte.x0b.
Definition kindOK : byte := Byte.x80.
Definition kindAdvertisement : byte := Byte.x81.
Definition kindPairRequest : byte := Byte.x82.
Definition kindPairResponse : byte := Byte.x83.
Definition kindRenewedToken : byte := Byte.x84.
Definition kindReady : byte := Byte.x85.
Definition kindServerInfo : byte := Byte.x86.
Definition kindOfferSupport : byte := Byte.x87.
Definition kindOffer : byte := Byte.x88.
Definition kindFailure : byte := Byte.xff.

Definition MaxAdvertisementBytes : Z := 128 * 1024.
Definition MaxAdmissionCABytes : Z := 64 * 1024.
Definition maxWirePayload : Z := MaxPairingBytes + MaxAdmissionCABytes + Z.of_nat MaxTokenBytes + 128.

Inductive wire_err := WProtocol | WIO (e : io_err) | WUnavailable | WUnexpected.
#[export] Instance wire_err_eq_dec : EqDecision wire_err.
Proof. solve_decision. Defined.

(** ** Frames *)

Record wireFrame := WireFrame { kind : byte; data : list byte }.
#[export] Instance wireFrame_eq_dec : EqDecision wireFrame.
Proof. solve_decision. Defined.

(** [kindLimit] is nil in [readWireFrame]. *)
Definition frame_limit (maximum : Z) (kindLimit : option (byte → Z)) (k : byte) : Z :=
  match kindLimit with
  | Some limit => Z.min maximum (limit k)
  | None => maximum
  end.

Definition readBoundedWireFrame (maximum : Z) (kindLimit : option (byte → Z)) (r : reader)
    : result wire_err wireFrame * reader :=
  if (maximum <? 0) || (maxWirePayload <? maximum) then (Err WProtocol, r)
  else match read_full wireHeaderSize r with
  | (Err e, r1) => (Err (WIO e), r1)
  | (Ok header, r1) =>
      if negb (bool_decide (take 4 header = ascii_bytes "OTR2"))
         || negb (bool_decide (nth 4 header Byte.x00 = wireVersion))
         || negb (bool_decide (nth 6 header Byte.x00 = Byte.x00))
         || negb (bool_decide (nth 7 header Byte.x00 = Byte.x00))
      then (Err WProtocol, r1)
      else
        let size := be_get (slice 8 4 header) in
        let k := nth 5 header Byte.x00 in
        if frame_limit maximum kindLimit k <? size then (Err WProtocol, r1)
        else match read_full (Z.to_nat size) r1 with
             | (Err e, r2) => (Err (WIO e), r2)
             | (Ok d, r2) => (Ok (WireFrame k d), r2)
             end
  end.
Definition readWireFrame (maximum : Z) (r : reader) : result wire_err wireFrame * reader :=
  readBoundedWireFrame maximum None r.

Definition wire_header (k : byte) (size : Z) : list byte :=
  ascii_bytes "OTR2" ++ [wireVersion; k; Byte.x00; Byte.x00] ++ be_put 4 size.
Definition writeWireFrame (w : writer) (k : byte) (payload : list byte) (maximum : Z)
    : list byte * option wire_err * writer :=
  if (maximum <? 0) || (maxWirePayload <? maximum) || (maximum <? Z.of_nat (length payload))
  then ([], Some WProtocol, w)
  else match write_full w (wire_header k (Z.of_nat (length payload))) with
       | (out, Some e, w1) => (out, Some (WIO e), w1)
       | (out, None, w1) => let '(out2, e, w2) := write_full w1 payload in (out ++ out2, WIO <$> e, w2)
       end.

Definition requireKind (f : wireFrame) (k : byte) : result wire_err unit :=
  if bool_decide (kind f = k) then Ok tt
  else if bool_decide (kind f = kindFailure) then Err WUnavailable else Err WUnexpected.

(** The first frame of a connection: what the offer operations may send. *)
Definition offerProfile : list byte := ascii_bytes "owntransit.receiver-offer.v1" ++ [Byte.x0a].
Definition offerWireVersion : byte := Byte.x01.
Definition maxPublicOfferBytes : Z := 192 * 1024.
Definition maxOfferPublicationBytes : Z := 1 + 2 + 4 + Z.of_nat MaxTokenBytes + maxPublicOfferBytes.
Definition offerLocatorBytes : nat := 1 + 32.
Definition initialOfferPayloadLimit (k : byte) : Z :=
  if bool_decide (k = kindCheckOfferSupport) then Z.of_nat (length offerProfile)
  else if bool_decide (k = kindPublishOffer) then maxOfferPublicationBytes
  else if bool_decide (k = kindFetchOffer) then Z.of_nat offerLocatorBytes
  else maxWirePayload.

(** ** The runtime preface *)

Record runtimePreface := RuntimePreface {
  token : list byte;
  admissionCA : list byte;
  role : Role;
  peerID : ID }.

Definition encodeRuntimePreface (value : runtimePreface) : result wire_err (list byte) :=
  let t := Z.of_nat (length (token value)) in
  let c := Z.of_nat (length (admissionCA value)) in
  reject (t =? 0) || (Z.of_nat MaxTokenBytes <? t) || (c =? 0) || (MaxAdmissionCABytes <? c)
         || negb (known_role (role value)) || zeroID (peerID value) with WProtocol;;
  Ok (be_put 2 t ++ token value ++ be_put 4 c ++ admissionCA value ++ [role value]
      ++ arr_bytes (peerID value)).

Definition decodeRuntimePreface (encoded : list byte) : result wire_err runtimePreface :=
  let n := Z.of_nat (length encoded) in
  reject (n <? 2 + 1 + 4 + 1 + Z.of_nat IDSize)
         || (Z.of_nat MaxTokenBytes + MaxAdmissionCABytes + 64 <? n) with WProtocol;;
  let tokenSize := be_get (slice 0 2 encoded) in
  reject (tokenSize <=? 0) || (Z.of_nat MaxTokenBytes <? tokenSize) || (n - 2 <? tokenSize) with WProtocol;;
  let t := Z.to_nat tokenSize in
  reject n - (2 + tokenSize) <? 4 with WProtocol;;
  let caSize := be_get (slice (2 + t) 4 encoded) in
  let offset := 2 + tokenSize + 4 in
  reject (caSize <=? 0) || (MaxAdmissionCABytes <? caSize)
         || (n - offset - 1 - Z.of_nat IDSize <? caSize) with WProtocol;;
  let c := Z.to_nat caSize in
  let value := RuntimePreface (slice 2 t encoded) (slice (6 + t) c encoded)
    (nth (6 + t + c) encoded Byte.x00) (arr_copy IDSize (drop (7 + t + c) encoded)) in
  reject negb (n - (offset + caSize + 1) =? Z.of_nat IDSize) || negb (known_role (role value)) with WProtocol;;
  reject zeroID (peerID value) with WProtocol;;
  Ok value.

(** ** A token and a request *)

Definition encodeTokenAndBlob (token blob : list byte) (maximum : Z) : result wire_err (list byte) :=
  let t := Z.of_nat (length token) in
  let b := Z.of_nat (length blob) in
  reject (t =? 0) || (Z.of_nat MaxTokenBytes <? t) || (b =? 0) || (maximum <? b) with WProtocol;;
  Ok (be_put 2 t ++ token ++ be_put 4 b ++ blob).

Definition decodeTokenAndBlob (encoded : list byte) (maximum : Z) : result wire_err (list byte * list byte) :=
  let n := Z.of_nat (length encoded) in
  reject (n <? 2 + 1 + 4 + 1) || (Z.of_nat MaxTokenBytes + maximum + 6 <? n) with WProtocol;;
  let tokenSize := be_get (slice 0 2 encoded) in
  reject (tokenSize <=? 0) || (Z.of_nat MaxTokenBytes <? tokenSize) || (n <? 2 + tokenSize + 4) with WProtocol;;
  let t := Z.to_nat tokenSize in
  let blobSize := be_get (slice (2 + t) 4 encoded) in
  reject (blobSize <=? 0) || (maximum <? blobSize) || negb (n - (2 + tokenSize + 4) =? blobSize) with WProtocol;;
  Ok (slice 2 t encoded, drop (6 + t) encoded).

(** ** Offer publications and locators *)

(** The body [encodeOfferPublication] builds from an offer that parses. *)
Definition offer_publication (token offer : list byte) : list byte :=
  [offerWireVersion] ++ be_put 2 (Z.of_nat (length token)) ++ be_put 4 (Z.of_nat (length offer)) ++ token ++ offer.

(** The offer and the token. *)
Definition decodeOfferPublication (payload : list byte) : result wire_err (list byte * list byte) :=
  let n := Z.of_nat (length payload) in
  reject (n <? 8) || (maxOfferPublicationBytes <? n)
         || negb (bool_decide (nth 0 payload Byte.x00 = offerWireVersion)) with WProtocol;;
  let tokenSize := be_get (slice 1 2 payload) in
  let offerSize := be_get (slice 3 4 payload) in
  reject (Z.of_nat MaxTokenBytes <? tokenSize) || (offerSize <=? 0) || (maxPublicOfferBytes <? offerSize)
         || negb (n - 7 =? tokenSize + offerSize) with WProtocol;;
  let t := Z.to_nat tokenSize in
  Ok (drop (7 + t) payload, slice 7 t payload).

Definition decodeOfferLocator (payload : list byte) : result wire_err (arr 32) :=
  reject negb (length payload =? offerLocatorBytes)%nat
         || negb (bool_decide (nth 0 payload Byte.x00 = offerWireVersion)) with WProtocol;;
  let locator := arr_copy 32 (drop 1 payload) in
  reject zeroID locator with WProtocol;;
  Ok locator.

(** ** Lemmas *)

Lemma z_range_id n x y : 0 <= y < 256 ^ Z.of_nat n → be_get (be_put n x) = y → x mod 256 ^ Z.of_nat n = y.
Proof. by rewrite be_get_put. Qed.

Lemma known_role_spec r : known_role r = true ↔ r = RoleReceiver ∨ r = RoleClient.
Proof. unfold known_role. by rewrite orb_true_iff, !bool_decide_eq_true. Qed.

(** *** Preface *)

Lemma MaxTokenBytes_Z : Z.of_nat MaxTokenBytes = 1024.
Proof. reflexivity. Qed.

Lemma decode_encode_preface encoded v :
  decodeRuntimePreface encoded = Ok v → encodeRuntimePreface v = Ok encoded.
Proof.
  unfold decodeRuntimePreface. set (n := Z.of_nat (length encoded)).
  set (ts := be_get (slice 0 2 encoded)). set (cs := be_get (slice (2 + Z.to_nat ts) 4 encoded)).
  case_guard G1; [done|]. case_guard G2; [done|]. case_guard G3; [done|]. case_guard G4; [done|].
  case_guard G5; [done|]. case_guard G6; [done|]. intros <-%Ok_inj. bool_prop.
  unfold encodeRuntimePreface.
  cbv beta iota zeta delta [token admissionCA role peerID] in *. fold n ts. fold cs. unfold IDSize in *.
  rewrite !length_slice_z by lia. rewrite H0, G6.
  case_guard G; [exfalso; lia|]. f_equal.
  unfold ts at 1. rewrite be_put_slice by lia. unfold cs at 1. rewrite be_put_slice by lia.
  rewrite nth_slice by lia. rewrite arr_bytes_copy by (rewrite length_drop; lia). rewrite drop_slice_all.
  glue_slices.
Qed.

(** One field of a concatenation, given where it starts. *)
Lemma slice_at_z (l m k : list byte) i n : length l = i → length m = n → slice i n (l ++ m ++ k) = m.
Proof. apply slice_at. Qed.

Lemma encode_decode_preface encoded v :
  encodeRuntimePreface v = Ok encoded → decodeRuntimePreface encoded = Ok v.
Proof.
  destruct v as [tk ca r p]. unfold encodeRuntimePreface.
  cbv beta iota zeta delta [token admissionCA role peerID].
  case_guard G; [done|]. intros <-%Ok_inj. bool_prop.
  pose proof MaxTokenBytes_Z as HM. unfold MaxAdmissionCABytes in *.
  set (nt := length tk) in *. set (nc := length ca) in *.
  set (e := be_put 2 _ ++ _).
  assert (length e = 39 + nt + nc)%nat as Hl by (unfold e; autorewrite with len; unfold IDSize; lia).
  assert (be_get (slice 0 2 e) = Z.of_nat nt) as Ht.
  { unfold e. rewrite slice_app_l, slice_all by (by rewrite length_be_put).
    apply be_get_put_id. change (256 ^ Z.of_nat 2) with 65536. lia. }
  assert (slice 2 nt e = tk) as Htk by (unfold e; apply slice_at; [apply length_be_put|done]).
  assert (slice (2 + nt) 4 e = be_put 4 (Z.of_nat nc)) as Hc4.
  { unfold e. rewrite slice_app_r by (rewrite length_be_put; lia). rewrite length_be_put.
    replace (2 + nt - 2)%nat with nt by lia. apply slice_at; [done|apply length_be_put]. }
  assert (be_get (slice (2 + nt) 4 e) = Z.of_nat nc) as Hc.
  { rewrite Hc4. apply be_get_put_id. change (256 ^ Z.of_nat 4) with (2 ^ 32). lia. }
  assert (slice (6 + nt) nc e = ca) as Hca.
  { unfold e. rewrite !slice_app_r by (rewrite ?length_be_put; lia). rewrite !length_be_put. fold nt.
    replace (6 + nt - 2 - nt - 4)%nat with 0%nat by lia. rewrite slice_app_l by (fold nc; lia). by apply slice_all. }
  assert (nth (6 + nt + nc) e Byte.x00 = r) as Hr.
  { unfold e. rewrite !app_nth2 by (rewrite ?length_be_put; lia). rewrite !length_be_put. fold nt nc.
    replace (6 + nt + nc - 2 - nt - 4 - nc)%nat with 0%nat by lia. done. }
  assert (drop (7 + nt + nc) e = arr_bytes p) as Hp.
  { unfold e. rewrite !drop_app_ge by (rewrite ?length_be_put; fold nt nc; cbn [length]; lia).
    rewrite !length_be_put. fold nt nc. cbn [length].
    replace (7 + nt + nc - 2 - nt - 4 - nc - 1)%nat with 0%nat by lia. apply drop_0. }
  unfold decodeRuntimePreface. rewrite Ht, Hl, Nat2Z.id, Hc, Nat2Z.id, Htk, Hca, Hr, Hp, arr_copy_bytes.
  cbv beta iota zeta delta [role peerID]. unfold IDSize, MaxAdmissionCABytes.
  match goal with H : known_role r = true |- _ => rewrite H end.
  match goal with H : zeroID p = false |- _ => rewrite H end.
  repeat (case_guard G'; [absurd_guard G'|clear G']). done.
Qed.

(** *** Token and blob *)

Lemma decode_encode_blob encoded maximum t b :
  decodeTokenAndBlob encoded maximum = Ok (t, b) → encodeTokenAndBlob t b maximum = Ok encoded.
Proof.
  unfold decodeTokenAndBlob. set (n := Z.of_nat (length encoded)).
  set (ts := be_get (slice 0 2 encoded)). set (bs := be_get (slice (2 + Z.to_nat ts) 4 encoded)).
  case_guard G1; [done|]. case_guard G2; [done|]. case_guard G3; [done|].
  intros Hv%Ok_inj. apply pair_equal_spec in Hv as [<- <-]. bool_prop.
  unfold encodeTokenAndBlob. rewrite drop_slice_all, length_slice_z by lia.
  replace (Z.of_nat (length (slice (6 + Z.to_nat ts) (length encoded - (6 + Z.to_nat ts)) encoded))) with bs
    by (rewrite length_slice; lia).
  case_guard G; [exfalso; lia|]. f_equal.
  unfold ts at 1. rewrite be_put_slice by lia. unfold bs at 1. rewrite be_put_slice by lia. glue_slices.
Qed.

Lemma encode_decode_blob encoded maximum t b :
  maximum < 2 ^ 32 → encodeTokenAndBlob t b maximum = Ok encoded → decodeTokenAndBlob encoded maximum = Ok (t, b).
Proof.
  intros Hm. unfold encodeTokenAndBlob. case_guard G; [done|]. intros <-%Ok_inj. bool_prop.
  pose proof MaxTokenBytes_Z as HM. set (nt := length t) in *. set (nb := length b) in *. set (e := be_put 2 _ ++ _).
  assert (length e = 6 + nt + nb)%nat as Hl by (unfold e; autorewrite with len; lia).
  assert (be_get (slice 0 2 e) = Z.of_nat nt) as Ht.
  { unfold e. rewrite slice_app_l, slice_all by (by rewrite length_be_put).
    apply be_get_put_id. change (256 ^ Z.of_nat 2) with 65536. lia. }
  assert (slice 2 nt e = t) as Htk by (unfold e; apply slice_at; [apply length_be_put|done]).
  assert (be_get (slice (2 + nt) 4 e) = Z.of_nat nb) as Hc.
  { unfold e. rewrite slice_app_r by (rewrite length_be_put; lia). rewrite length_be_put.
    replace (2 + nt - 2)%nat with nt by lia. rewrite slice_at by (done || apply length_be_put).
    apply be_get_put_id. change (256 ^ Z.of_nat 4) with (2 ^ 32). lia. }
  assert (drop (6 + nt) e = b) as Hb.
  { unfold e. rewrite !drop_app_ge by (rewrite ?length_be_put; fold nt; lia). rewrite !length_be_put. fold nt.
    replace (6 + nt - 2 - nt - 4)%nat with 0%nat by lia. apply drop_0. }
  unfold decodeTokenAndBlob. rewrite Ht, Hl, Nat2Z.id, Hc, Htk, Hb.
  repeat (case_guard G'; [absurd_guard G'|clear G']). done.
Qed.

(** *** Offer publication *)

Definition offer_sizes (token offer : list byte) : Prop :=
  Z.of_nat (length token) <= Z.of_nat MaxTokenBytes ∧ 0 < Z.of_nat (length offer) <= maxPublicOfferBytes.

Lemma offer_publication_decode payload token offer :
  decodeOfferPublication payload = Ok (offer, token) → payload = offer_publication token offer ∧ offer_sizes token offer.
Proof.
  unfold decodeOfferPublication. set (n := Z.of_nat (length payload)).
  set (ts := be_get (slice 1 2 payload)). set (os := be_get (slice 3 4 payload)).
  case_guard G1; [done|]. case_guard G2; [done|].
  intros Hv%Ok_inj. apply pair_equal_spec in Hv as [<- <-]. bool_prop.
  pose proof (be_get_range (slice 1 2 payload)). fold ts in H.
  assert (Z.of_nat (length (slice 7 (Z.to_nat ts) payload)) = ts) as Ht by (apply length_slice_z; lia).
  assert (Z.of_nat (length (drop (7 + Z.to_nat ts) payload)) = os) as Ho by (rewrite length_drop; lia).
  split; [|split; lia]. unfold offer_publication. rewrite Ht, Ho.
  match goal with H : nth 0 payload _ = offerWireVersion |- _ => rewrite <-H end.
  rewrite nth_slice by lia. unfold ts at 1. rewrite be_put_slice by lia.
  unfold os at 1. rewrite be_put_slice by lia. rewrite drop_slice_all. symmetry. glue_slices.
Qed.

Lemma offer_publication_encode token offer :
  offer_sizes token offer → decodeOfferPublication (offer_publication token offer) = Ok (offer, token).
Proof.
  intros [Ht Ho]. pose proof MaxTokenBytes_Z as HM. unfold maxPublicOfferBytes in *.
  set (nt := length token) in *. set (no := length offer) in *. set (e := offer_publication token offer).
  assert (length e = 7 + nt + no)%nat as Hl by (unfold e, offer_publication; autorewrite with len; cbn [length]; lia).
  assert (be_get (slice 1 2 e) = Z.of_nat nt) as Hts.
  { unfold e, offer_publication. rewrite slice_at by (done || apply length_be_put).
    apply be_get_put_id. change (256 ^ Z.of_nat 2) with 65536. fold nt. lia. }
  assert (be_get (slice 3 4 e) = Z.of_nat no) as Hos.
  { unfold e, offer_publication. rewrite app_assoc, slice_at by (rewrite ?length_app, ?length_be_put; done).
    apply be_get_put_id. change (256 ^ Z.of_nat 4) with (2 ^ 32). fold no. lia. }
  assert (slice 7 nt e = token) as Htk.
  { unfold e, offer_publication. rewrite !app_assoc, <-(app_assoc _ token), slice_at; [done| |done].
    rewrite !length_app, !length_be_put. done. }
  assert (drop (7 + nt) e = offer) as Hof.
  { unfold e, offer_publication. rewrite !drop_app_ge by (rewrite ?length_be_put; fold nt; cbn [length]; lia).
    rewrite !length_be_put. fold nt. cbn [length].
    replace (7 + nt - 1 - 2 - 4 - nt)%nat with 0%nat by lia. apply drop_0. }
  unfold decodeOfferPublication. rewrite Hts, Hos, Hl, Nat2Z.id, Htk, Hof.
  unfold maxOfferPublicationBytes, maxPublicOfferBytes. change (nth 0 e Byte.x00) with offerWireVersion.
  rewrite bool_decide_eq_true_2 by done.
  repeat (case_guard G'; [absurd_guard G'|clear G']). done.
Qed.

(** *** Frames *)

Lemma length_wire_header k z : length (wire_header k z) = wireHeaderSize.
Proof. unfold wire_header. by rewrite !length_app, length_be_put. Qed.

Lemma wire_header_inv header :
  length header = wireHeaderSize → take 4 header = ascii_bytes "OTR2" → nth 4 header Byte.x00 = wireVersion →
  nth 6 header Byte.x00 = Byte.x00 → nth 7 header Byte.x00 = Byte.x00 →
  header = wire_header (nth 5 header Byte.x00) (be_get (slice 8 4 header)).
Proof.
  intros Hl Hm H4 H6 H7. unfold wire_header. rewrite be_put_slice by (rewrite Hl; unfold wireHeaderSize; lia).
  do 12 (destruct header as [|? header]; [done|]). destruct header; [|done].
  cbn in *. injection Hm as -> -> -> ->. by subst.
Qed.

Lemma frame_limit_le maximum lim k : frame_limit maximum lim k <= maximum.
Proof. unfold frame_limit. destruct lim; lia. Qed.

Lemma read_frame_sound maximum lim r f r' :
  readBoundedWireFrame maximum lim r = (Ok f, r') →
  0 <= maximum <= maxWirePayload ∧ Z.of_nat (length (data f)) <= frame_limit maximum lim (kind f)
  ∧ rbytes r = wire_header (kind f) (Z.of_nat (length (data f))) ++ data f ++ rbytes r'.
Proof.
  unfold readBoundedWireFrame. case_guard G1; [done|].
  destruct (read_full wireHeaderSize r) as [[h|e] r1] eqn:E1; [|done]. apply read_full_ok in E1 as [Hl ->].
  case_guard G2; [done|]. case_guard G3; [done|].
  destruct (read_full _ r1) as [[d|e] r2] eqn:E2; [|done]. apply read_full_ok in E2 as [Hd ->].
  intros [= <- <-]. bool_prop. cbn [kind data].
  pose proof (be_get_range (slice 8 4 h)) as Hr.
  assert (Z.of_nat (length d) = be_get (slice 8 4 h)) as -> by lia.
  split_and!; try lia. rewrite <-wire_header_inv by done. done.
Qed.

Lemma read_frame_complete maximum lim r f rest :
  rclean r → 0 <= maximum <= maxWirePayload → Z.of_nat (length (data f)) <= frame_limit maximum lim (kind f) →
  rbytes r = wire_header (kind f) (Z.of_nat (length (data f))) ++ data f ++ rest →
  ∃ r', readBoundedWireFrame maximum lim r = (Ok f, r') ∧ rbytes r' = rest.
Proof.
  intros Hc Hm Hl Hr. set (size := Z.of_nat (length (data f))) in *.
  pose proof (frame_limit_le maximum lim (kind f)) as Hle.
  assert (be_get (be_put 4 size) = size) as Hsz.
  { apply be_get_put_id. change (256 ^ Z.of_nat 4) with (2 ^ 32).
    assert (maxWirePayload < 2 ^ 32) by reflexivity. unfold size in *. lia. }
  pose proof (length_wire_header (kind f) size) as Hh.
  destruct (read_full_enough wireHeaderSize r Hc) as (r1 & E1 & R1 & C1); [rewrite Hr, length_app; lia|].
  rewrite Hr, take_app_le, take_ge in E1 by lia. rewrite Hr, <-Hh, drop_app_length in R1.
  destruct (read_full_enough (length (data f)) r1 C1) as (r2 & E2 & R2 & C2); [rewrite R1, length_app; lia|].
  rewrite R1, take_app_length in E2. rewrite R1, drop_app_length in R2.
  exists r2. split; [|done]. unfold readBoundedWireFrame. case_guard G; [absurd_guard G|].
  rewrite E1. change (take 4 (wire_header (kind f) size)) with (ascii_bytes "OTR2").
  change (nth 5 (wire_header (kind f) size) Byte.x00) with (kind f).
  change (nth 4 (wire_header (kind f) size) Byte.x00) with wireVersion.
  change (slice 8 4 (wire_header (kind f) size)) with (take 4 (be_put 4 size)).
  rewrite take_ge, Hsz by (by rewrite length_be_put).
  rewrite !bool_decide_eq_true_2 by done. cbn [negb orb]. rewrite (proj2 (Z.ltb_ge _ size)) by lia.
  unfold size. rewrite Nat2Z.id, E2. by destruct f.
Qed.

(** ** Properties *)

(** Frames are read exactly and within bounds: on an error-free stream a frame is
    returned if and only if the stream starts with its one encoding and its payload is
    within the caller's maximum and the limit of its kind; the rest of the stream is left
    untouched. So no oversized payload is ever allocated for. *)
Theorem readBoundedWireFrame_exact maximum lim r f rest :
  rclean r →
  (∃ r', readBoundedWireFrame maximum lim r = (Ok f, r') ∧ rbytes r' = rest) ↔
  0 <= maximum <= maxWirePayload ∧ Z.of_nat (length (data f)) <= frame_limit maximum lim (kind f)
  ∧ rbytes r = wire_header (kind f) (Z.of_nat (length (data f))) ++ data f ++ rest.
Proof.
  intros Hc. split.
  - intros (r' & Hr & <-). by apply read_frame_sound.
  - intros (Hm & Hl & Hr). by apply read_frame_complete.
Qed.

Definition demo_frame : wireFrame := WireFrame kindFetchOffer (offerWireVersion :: replicate 32 Byte.x5a).
Definition demo_stream : reader :=
  let e := wire_header (kind demo_frame) 33 ++ data demo_frame in
  [(take 7 e, None); (drop 7 e ++ [Byte.x01], None)].
Lemma readBoundedWireFrame_exact_witness :
  ∃ r', readBoundedWireFrame maxWirePayload (Some initialOfferPayloadLimit) demo_stream = (Ok demo_frame, r')
        ∧ rbytes r' = [Byte.x01].
Proof.
  apply (readBoundedWireFrame_exact maxWirePayload (Some initialOfferPayloadLimit) demo_stream demo_frame [Byte.x01]).
  - repeat constructor.
  - split; [vm_compute; split; congruence|]. split; [vm_compute; congruence|]. vm_compute. reflexivity.
Defined.

(** The three compound bodies have one encoding each: a preface, a token with its
    request, and an offer publication decode to a value exactly from the bytes the
    encoder produces for it, so lengths, padding and trailing bytes leave no freedom. *)
Theorem bodies_canonical :
  (∀ encoded v, decodeRuntimePreface encoded = Ok v ↔ encodeRuntimePreface v = Ok encoded)
  ∧ (∀ encoded maximum t b, maximum < 2 ^ 32 →
       decodeTokenAndBlob encoded maximum = Ok (t, b) ↔ encodeTokenAndBlob t b maximum = Ok encoded)
  ∧ (∀ payload t o,
       decodeOfferPublication payload = Ok (o, t) ↔ payload = offer_publication t o ∧ offer_sizes t o).
Proof.
  split_and!.
  - intros. split; [apply decode_encode_preface|apply encode_decode_preface].
  - intros. split; [apply decode_encode_blob|by apply encode_decode_blob].
  - intros payload t o. split; [apply offer_publication_decode|].
    intros [-> Hs]. by apply offer_publication_encode.
Qed.
