(* ===== verification/PairRelay.v ===== *)
(** * The pairing relay's working state: [internal/pairrelay]

    [relay.go], [advertisement_cache.go], [inventory.go] and the state of [offer.go]: the
    advertisement pools, the durable admission policy, token delivery, the queues of
    waiting legs and the active carriers. Each definition is one critical section under
    [Relay.mu]. X.509 and the advertisement's signature are outside: an operation takes
    the descriptor those checks returned. Instants are nanoseconds since the epoch. *)

From S2P Require Import Prelude GoIO Protocol Identifiers Sha256 Text PairToken PairWire.

Definition routeKey : Type := ID * RouteID.
Abbreviation addr := nat.
Abbreviation connection := nat.

Record Limits := MkLimits {
  Connections : Z;
  Advertisements : Z;
  PendingAdvertisements : Z;
  LPendingPairings : Z;
  LPendingCarriers : Z;
  LActiveCarriers : Z;
  PerRoutePending : Z;
  PerRouteActive : Z;
  AdvertisementBytes : Z;
  LPairingBytes : Z;
  AdvertisementTTL : Z;
  PendingAdvertisementTTL : Z;
  PairingTimeout : Z;
  HandshakeTimeout : Z;
  LSessionLifetime : Z }.

Definition MaxAdmissionRecords : Z := 256.

Definition defaultLimits : Limits :=
  MkLimits 128 256 64 64 64 64 4 4 MaxAdvertisementBytes MaxPairingBytes (24 * Hour) (2 * Minute)
    (30 * Second) (10 * Second) (24 * Hour).

(** The two loops of [normalizeLimits]: a zero is the default, then the bounds. *)
Definition normalize (value default maximum : Z) : option Z :=
  let value := if value =? 0 then default else value in
  if (value <=? 0) || (maximum <? value) then None else Some value.
Definition normalizeLimits (v : Limits) : result pair_err Limits :=
  let d := defaultLimits in
  match mapM (λ x, normalize x.1.1 x.1.2 x.2)
    [(Connections v, Connections d, 4096); (Advertisements v, Advertisements d, 4096);
     (PendingAdvertisements v, PendingAdvertisements d, MaxAdmissionRecords);
     (LPendingPairings v, LPendingPairings d, 1024); (LPendingCarriers v, LPendingCarriers d, 1024);
     (LActiveCarriers v, LActiveCarriers d, 1024); (PerRoutePending v, PerRoutePending d, 64);
     (PerRouteActive v, PerRouteActive d, 64); (AdvertisementBytes v, AdvertisementBytes d, MaxAdvertisementBytes);
     (LPairingBytes v, LPairingBytes d, MaxPairingBytes);
     (AdvertisementTTL v, AdvertisementTTL d, 7 * 24 * Hour);
     (PendingAdvertisementTTL v, PendingAdvertisementTTL d, 2 * Minute);
     (PairingTimeout v, PairingTimeout d, Minute); (HandshakeTimeout v, HandshakeTimeout d, Minute);
     (LSessionLifetime v, LSessionLifetime d, MaxTokenValidity)] with
  | Some [a; b; c; d; e; f; g; h; i; j; k; l; m; n; o] => Ok (MkLimits a b c d e f g h i j k l m n o)
  | _ => Err ErrProtocol
  end.

Record advertisementRecord := AdvertisementRecord {
  encoded : list byte;
  admissionHash : arr 32;
  expires : Z;
  signedExpires : Z;
  offerLocator : arr 32;
  offerProof : arr 32;
  hasOffer : bool }.
#[export] Instance eta_advertisementRecord : Eta advertisementRecord := λ a,
  AdvertisementRecord (encoded a) (admissionHash a) (expires a) (signedExpires a) (offerLocator a)
    (offerProof a) (hasOffer a).

Record registrationRecord := RegistrationRecord {
  r_token : list byte;
  advertisementSHA256 : list byte;
  r_expires : Z }.

(** [AdmissionRecord.Status] is one of three strings. *)
Inductive Status := Approved | Observed | Removed.
#[export] Instance Status_eq_dec : EqDecision Status.
Proof. solve_decision. Defined.

Record AdmissionRecord := MkAdmissionRecord {
  a_receiver : list byte;
  a_route : list byte;
  AdmissionRootSHA256 : list byte;
  status : Status;
  LastIssuedUnix : Z;
  RejectIssuedThrough : Z }.
#[export] Instance AdmissionRecord_eq_dec : EqDecision AdmissionRecord.
Proof. solve_decision. Defined.
#[export] Instance eta_AdmissionRecord : Eta AdmissionRecord := λ a,
  MkAdmissionRecord (a_receiver a) (a_route a) (AdmissionRootSHA256 a) (status a) (LastIssuedUnix a)
    (RejectIssuedThrough a).

(** What the one-slot channel [done] of a leg holds. *)
Inductive leg_result := LegErr (e : pair_err) | LegIO (e : io_err).

Record waitingLeg := WaitingLeg {
  l_connection : connection;
  l_claims : TokenClaims;
  l_peer : option AuthenticatedPeer;
  l_expires : Z;
  done_ch : option leg_result;
  claimed : bool }.
#[export] Instance eta_waitingLeg : Eta waitingLeg := λ l,
  WaitingLeg (l_connection l) (l_claims l) (l_peer l) (l_expires l) (done_ch l) (claimed l).

(** The triple the code selects by its [pairing] argument: queue, counter, per-route
    counters. *)
Record legQueue := LegQueue {
  queue : gmap routeKey (list addr);
  total : Z;
  perRoute : gmap routeKey Z }.
#[export] Instance eta_legQueue : Eta legQueue := λ q, LegQueue (queue q) (total q) (perRoute q).

Record Relay := MkRelay {
  tokenKey : list byte;
  limits : Limits;
  closed : bool;
  advertisements : gmap routeKey advertisementRecord;
  retainedAdvertisements : gmap routeKey advertisementRecord;
  pendingAdvertisements : gmap routeKey advertisementRecord;
  registrations : gmap routeKey registrationRecord;
  pairing : legQueue;
  runtime : legQueue;
  active : Z;
  activePerRoute : gmap routeKey Z;
  admissions : gmap routeKey AdmissionRecord;
  routeConnections : gmap routeKey (gset connection);
  legs : gmap addr waitingLeg;
  shut : list connection }.       (* connections closed or aborted *)
#[export] Instance eta_Relay : Eta Relay := λ s,
  MkRelay (tokenKey s) (limits s) (closed s) (advertisements s) (retainedAdvertisements s)
    (pendingAdvertisements s) (registrations s) (pairing s) (runtime s) (active s) (activePerRoute s)
    (admissions s) (routeConnections s) (legs s) (shut s).

(** ** Admission policy: [inventory.go] *)

(** [admissionKey]: the record's key, if its texts and cutoffs are canonical. *)
Definition admissionKey (r : AdmissionRecord) : option routeKey :=
  match ParseID (a_receiver r), ParseRouteID (a_route r), hex_decode (AdmissionRootSHA256 r) with
  | Ok receiver, Ok route, Some root =>
      if zeroID receiver || zeroID route || negb (length root =? 32)%nat
         || negb (bool_decide (hex_encode root = AdmissionRootSHA256 r)) || zeroID (arr_copy 32 root)
         || (LastIssuedUnix r <=? 0) || (RejectIssuedThrough r <? 0)
      then None
      else
        let ok := match status r with
                  | Approved | Observed => RejectIssuedThrough r <? LastIssuedUnix r
                  | Removed => LastIssuedUnix r <=? RejectIssuedThrough r
                  end in
        if ok then Some (receiver, route) else None
  | _, _, _ => None
  end.

Fixpoint load_admissions (records : list AdmissionRecord) (acc : gmap routeKey AdmissionRecord)
    : result pair_err (gmap routeKey AdmissionRecord) :=
  match records with
  | [] => Ok acc
  | r :: rest =>
      match admissionKey r with
      | None => Err ErrProtocol
      | Some key => if bool_decide (is_Some (acc !! key)) then Err ErrProtocol
                    else load_admissions rest (<[key := r]> acc)
      end
  end.
(** [ValidateAdmissionRecords] and the loop of [NewRelay] that fills [admissions]. *)
Definition ValidateAdmissionRecords (records : list AdmissionRecord)
    : result pair_err (gmap routeKey AdmissionRecord) :=
  if MaxAdmissionRecords <? Z.of_nat (length records) then Err ErrCapacity else load_admissions records ∅.

Definition empty_queue : legQueue := LegQueue ∅ 0 ∅.
(** [tls_ok]: the relay's own TLS material is valid. *)
Definition NewRelay (key : list byte) (l : Limits) (records : list AdmissionRecord) (tls_ok : bool)
    : result pair_err Relay :=
  reject negb (length key =? tokenKeySize)%nat with ErrProtocol;;
  match ValidateAdmissionRecords records with
  | Err e => Err e
  | Ok adm =>
      reject negb tls_ok with ErrProtocol;;
      match normalizeLimits l with
      | Err e => Err e
      | Ok l => Ok (MkRelay key l false ∅ ∅ ∅ ∅ empty_queue empty_queue 0 ∅ adm ∅ ∅ [])
      end
  end.

Definition claims_key (c : TokenClaims) : routeKey := (c_receiver c, c_route c).

Definition checkAdmissionLocked (claims : TokenClaims) (s : Relay) : option pair_err :=
  if closed s then Some ErrAlreadyClosed
  else match admissions s !! claims_key claims with
       | Some r =>
           if bool_decide (status r = Removed) || (c_issued claims <=? RejectIssuedThrough r)
              || bool_decide (AdmissionRootSHA256 r ≠ hex_encode (arr_bytes (c_root claims)))
           then Some ErrUnauthorized else None
       | None => None
       end.

(** ** Advertisement pools: [advertisement_cache.go] *)

Definition advertisementLocked (key : routeKey) (s : Relay) : option advertisementRecord :=
  match advertisements s !! key with
  | Some r => Some r
  | None => match retainedAdvertisements s !! key with
            | Some r => Some r
            | None => pendingAdvertisements s !! key
            end
  end.

Definition approved_or_observed (st : Status) : bool :=
  match st with Removed => false | _ => true end.
Definition protectedAdvertisementLocked (key : routeKey) (record : advertisementRecord) (s : Relay) : bool :=
  match admissions s !! key with
  | Some policy => approved_or_observed (status policy)
      && bool_decide (AdmissionRootSHA256 policy = hex_encode (arr_bytes (admissionHash record)))
  | None => false
  end.

Definition registrationLimit (s : Relay) : Z := Z.min (Advertisements (limits s)) MaxAdmissionRecords.
Definition msize {A} (m : gmap routeKey A) : Z := Z.of_nat (size m).
Definition has {A} (m : gmap routeKey A) (key : routeKey) : bool := bool_decide (is_Some (m !! key)).

Definition protectedAdvertisementCapacityLocked (key : routeKey) (s : Relay) : bool :=
  has (advertisements s) key || has (retainedAdvertisements s) key
  || (msize (advertisements s) + msize (retainedAdvertisements s) <? registrationLimit s).

Definition advertisementExpiry (now signedExpiry ttl : Z) : Z :=
  if signedExpiry <? now + ttl then signedExpiry else now + ttl.

(** The entry [storePendingAdvertisementLocked] evicts: the earliest expiry met. *)
Definition evict_key (pool : gmap routeKey advertisementRecord) : routeKey :=
  (foldl (λ acc kv, if is_zero acc.2 || (expires kv.2 <? acc.2) then (kv.1, expires kv.2) else acc)
     ((arr_zero IDSize, arr_zero IDSize) : routeKey, - unixToInternal * Second) (map_to_list pool)).1.

Definition storePendingAdvertisementLocked (key : routeKey) (record : advertisementRecord) (now : Z) (s : Relay)
    : Relay :=
  let pool := pendingAdvertisements s in
  let pool := if negb (has pool key) && (PendingAdvertisements (limits s) <=? msize pool)
              then delete (evict_key pool) pool else pool in
  let record := record <| expires := advertisementExpiry now (signedExpires record) (PendingAdvertisementTTL (limits s)) |> in
  s <| pendingAdvertisements := <[key := record]> pool |>
    <| advertisements := delete key (advertisements s) |>
    <| retainedAdvertisements := delete key (retainedAdvertisements s) |>.

(** Some other key holds an offer at this locator. *)
Definition locator_taken (key : routeKey) (locator : arr 32) (pool : gmap routeKey advertisementRecord) : bool :=
  existsb (λ kv, bool_decide (kv.1 ≠ key) && hasOffer kv.2 && bool_decide (offerLocator kv.2 = locator))
    (map_to_list pool).

(** The protected store shared by publication and promotion. *)
Definition protect (key : routeKey) (record : advertisementRecord) (now : Z) (s : Relay) : Relay :=
  let record := record <| expires := advertisementExpiry now (signedExpires record) (AdvertisementTTL (limits s)) |> in
  s <| advertisements := <[key := record]> (advertisements s) |>
    <| pendingAdvertisements := delete key (pendingAdvertisements s) |>
    <| retainedAdvertisements := delete key (retainedAdvertisements s) |>.

Definition cacheAdvertisementLocked (key : routeKey) (record : advertisementRecord) (now : Z) (s : Relay)
    : Relay * option pair_err :=
  let refused := match admissions s !! key with
    | Some policy => bool_decide (AdmissionRootSHA256 policy ≠ hex_encode (arr_bytes (admissionHash record)))
    | None => false
    end in
  if refused then (s, Some ErrUnauthorized)
  else if has (retainedAdvertisements s) key then (s, Some ErrUnauthorized)
  else
    let merged := match advertisementLocked key s with
      | Some previous =>
          if hasOffer record || hasOffer previous then
            if bool_decide (encoded previous ≠ encoded record)
               || bool_decide (admissionHash previous ≠ admissionHash record)
               || (hasOffer record && hasOffer previous
                   && (bool_decide (offerLocator previous ≠ offerLocator record)
                       || bool_decide (offerProof previous ≠ offerProof record)))
            then None
            else if hasOffer previous && negb (hasOffer record)
                 then Some (record <| hasOffer := true |> <| offerLocator := offerLocator previous |>
                                   <| offerProof := offerProof previous |>)
                 else Some record
          else Some record
      | None => Some record
      end in
    match merged with
    | None => (s, Some ErrUnavailable)
    | Some record =>
        if hasOffer record
           && (locator_taken key (offerLocator record) (advertisements s)
               || locator_taken key (offerLocator record) (retainedAdvertisements s)
               || locator_taken key (offerLocator record) (pendingAdvertisements s))
        then (s, Some ErrUnavailable)
        else if protectedAdvertisementLocked key record s then
          if negb (protectedAdvertisementCapacityLocked key s) then (s, Some ErrCapacity)
          else (protect key record now s, None)
        else (storePendingAdvertisementLocked key record now s, None)
    end.

Definition promoteAdvertisementLocked (key : routeKey) (now : Z) (s : Relay) : Relay :=
  let found := match pendingAdvertisements s !! key with
               | Some r => Some r
               | None => retainedAdvertisements s !! key
               end in
  match found with
  | Some record => if protectedAdvertisementLocked key record s then protect key record now s else s
  | None => s
  end.

(** [saved]: there is no [SaveAdmissions], or it succeeds. *)
Definition saveAdmissionLocked (key : routeKey) (next : AdmissionRecord) (saved : bool) (now : Z) (s : Relay)
    : Relay * option pair_err :=
  let previous := admissions s !! key in
  if negb (has (admissions s) key) && (MaxAdmissionRecords <=? msize (admissions s)) then (s, Some ErrCapacity)
  else
    let over := match advertisementLocked key s with
      | Some ad => approved_or_observed (status next)
          && bool_decide (AdmissionRootSHA256 next = hex_encode (arr_bytes (admissionHash ad)))
          && negb (protectedAdvertisementCapacityLocked key s)
      | None => false
      end in
    if over then (s, Some ErrCapacity)
    else if bool_decide (previous = Some next) && bool_decide (status next ≠ Removed)
    then (promoteAdvertisementLocked key now s, None)
    else
      let s1 := s <| admissions := <[key := next]> (admissions s) |> in
      if negb saved then
        (if bool_decide (status next ≠ Removed)
         then s <| admissions := match previous with
                                 | Some p => <[key := p]> (<[key := next]> (admissions s))
                                 | None => delete key (<[key := next]> (admissions s))
                                 end |>
         else s1, Some ErrUnavailable)
      else (promoteAdvertisementLocked key now s1, None).

(** [recordClaimsLocked(claims, status)] *)
Definition recordClaimsLocked (claims : TokenClaims) (st : Status) (saved : bool) (now : Z) (s : Relay)
    : Relay * option pair_err :=
  match checkAdmissionLocked claims s with
  | Some e => (s, Some e)
  | None =>
      let key := claims_key claims in
      let record := match admissions s !! key with
        | Some r => r
        | None => MkAdmissionRecord (ID_String (c_receiver claims)) (RouteID_String (c_route claims))
                    (hex_encode (arr_bytes (c_root claims))) st 0 0
        end in
      let record := if bool_decide (st = Observed) then record <| status := st |> else record in
      saveAdmissionLocked key (record <| LastIssuedUnix := Z.max (LastIssuedUnix record) (c_issued claims) |>)
        saved now s
  end.

(** ** Publication and lookup: [relay.go], [offer.go] *)

Definition live {A} (expiry : A → Z) (now : Z) (pool : gmap routeKey A) : gmap routeKey A :=
  filter (λ kv, (now <? expiry kv.2) = true) pool.
Definition expireAdvertisementsLocked (now : Z) (s : Relay) : Relay :=
  s <| advertisements := live expires now (advertisements s) |>
    <| retainedAdvertisements := live expires now (retainedAdvertisements s) |>
    <| pendingAdvertisements := live expires now (pendingAdvertisements s) |>
    <| registrations := live r_expires now (registrations s) |>.

(** What [VerifyAdvertisement] and [parseAdmissionCA] return together. *)
Record Descriptor := MkDescriptor {
  d_receiver : ID;
  d_route : RouteID;
  d_root : arr 32;
  d_expires : Z }.
Definition d_key (d : Descriptor) : routeKey := (d_receiver d, d_route d).
Definition fresh_descriptor (verified : option Descriptor) (now : Z) : option Descriptor :=
  match verified with
  | Some d => if is_zero (d_expires d) || negb (now <? d_expires d) then None else Some d
  | None => None
  end.
Definition zero_key (d : Descriptor) : bool := zeroID (d_receiver d) || zeroID (d_route d).

Definition publishAdvertisement (encoded : list byte) (verified : option Descriptor) (now : Z) (s : Relay)
    : Relay * option pair_err :=
  let n := Z.of_nat (length encoded) in
  if (n =? 0) || (AdvertisementBytes (limits s) <? n) then (s, Some ErrProtocol)
  else match fresh_descriptor verified now with
       | None => (s, Some ErrUnauthorized)
       | Some d =>
           if zero_key d then (s, Some ErrUnauthorized)
           else if closed s then (s, Some ErrAlreadyClosed)
           else cacheAdvertisementLocked (d_key d)
                  (AdvertisementRecord encoded (d_root d) 0 (d_expires d) (arr_zero 32) (arr_zero 32) false)
                  now (expireAdvertisementsLocked now s)
       end.

Definition fetchAdvertisement (token : list byte) (now : Z) (s : Relay)
    : Relay * result pair_err (list byte) :=
  match VerifyToken (tokenKey s) token now with
  | Err e => (s, Err e)
  | Ok claims =>
      match checkAdmissionLocked claims s with
      | Some e => (s, Err e)
      | None =>
          let s := expireAdvertisementsLocked now s in
          match advertisementLocked (claims_key claims) s with
          | Some r => if bool_decide (admissionHash r = c_root claims) then (s, Ok (encoded r))
                      else (s, Err ErrUnavailable)
          | None => (s, Err ErrUnavailable)
          end
      end
  end.

(** A parsed offer. *)
Record Offer := MkOffer { Locator : arr 32; Advertisement : list byte; Proof : arr 32 }.

Definition unix_ns (sec : Z) : Z := (unix_time sec - unixToInternal) * Second.

(** [publishOffer] after [pairoffer.Parse]; [token] may be empty. *)
Definition publishOffer (offer : Offer) (token : list byte) (verified : option Descriptor) (now : Z) (s : Relay)
    : Relay * option pair_err :=
  if zeroID (Locator offer) || (AdvertisementBytes (limits s) <? Z.of_nat (length (Advertisement offer)))
     || (MaxTokenBytes <? length token)%nat
  then (s, Some ErrProtocol)
  else match fresh_descriptor verified now with
  | None => (s, Some ErrUnavailable)
  | Some d =>
      if zero_key d then (s, Some ErrUnavailable)
      else
        let key := d_key d in
        let restored : result pair_err (option (TokenClaims * registrationRecord)) :=
          match token with
          | [] => Ok None
          | _ => match VerifyToken (tokenKey s) token now with
                 | Err _ => Err ErrUnavailable
                 | Ok claims =>
                     if bool_decide (claims_key claims ≠ key) || bool_decide (c_root claims ≠ d_root d)
                     then Err ErrUnavailable
                     else Ok (Some (claims, RegistrationRecord token (Sum256 (Advertisement offer))
                                              (unix_ns (c_expires claims))))
                 end
          end in
        match restored with
        | Err e => (s, Some e)
        | Ok restored =>
            if closed s then (s, Some ErrAlreadyClosed)
            else
              let denied := match restored with Some (claims, _) => checkAdmissionLocked claims s | None => None end in
              match denied with
              | Some e => (s, Some e)
              | None =>
                  if match admissions s !! key with Some r => bool_decide (status r = Removed) | None => false end
                  then (s, Some ErrUnauthorized)
                  else
                    let s := expireAdvertisementsLocked now s in
                    let conflict := match restored with
                      | None => None
                      | Some (_, r) =>
                          match registrations s !! key with
                          | Some current =>
                              if bool_decide (r_token current ≠ token)
                                 || bool_decide (advertisementSHA256 current ≠ advertisementSHA256 r)
                                 || bool_decide (r_expires current ≠ r_expires r)
                              then Some ErrUnavailable else None
                          | None => if registrationLimit s <=? msize (registrations s) then Some ErrCapacity else None
                          end
                      end in
                    match conflict with
                    | Some e => (s, Some e)
                    | None =>
                        match cacheAdvertisementLocked key
                          (AdvertisementRecord (Advertisement offer) (d_root d) 0 (d_expires d)
                             (Locator offer) (Proof offer) true) now s with
                        | (s, Some e) => (s, Some e)
                        | (s, None) =>
                            (match restored with
                             | Some (_, r) => s <| registrations := <[key := r]> (registrations s) |>
                             | None => s
                             end, None)
                        end
                    end
              end
        end
  end.

Definition find_offer (locator : arr 32) (pool : gmap routeKey advertisementRecord) : option advertisementRecord :=
  snd <$> head (filter (λ kv, (hasOffer kv.2 && bool_decide (offerLocator kv.2 = locator)) = true) (map_to_list pool)).
Definition fetchOffer (locator : arr 32) (now : Z) (s : Relay) : Relay * result pair_err Offer :=
  if zeroID locator then (s, Err ErrProtocol)
  else if closed s then (s, Err ErrAlreadyClosed)
  else
    let s := expireAdvertisementsLocked now s in
    let offer r := MkOffer (offerLocator r) (encoded r) (offerProof r) in
    match find_offer locator (advertisements s) with
    | Some r => (s, Ok (offer r))
    | None => match find_offer locator (retainedAdvertisements s) with
              | Some r => (s, Ok (offer r))
              | None => match find_offer locator (pendingAdvertisements s) with
                        | Some r => (s, Ok (offer r))
                        | None => (s, Err ErrUnavailable)
                        end
              end
    end.

(** ** Registration, delivery and removal *)

Definition receiver_entries (receiver : ID) (pool : gmap routeKey advertisementRecord)
    : list (routeKey * advertisementRecord) :=
  filter (λ kv, kv.1.1 = receiver) (map_to_list pool).

(** [RegisterReceiver]: [descriptor] is what verifying the selected advertisement again
    returns, [saved] the outcome of the durable save, [info_ok] of the public server info. *)
Definition RegisterReceiver (receiver : ID) (routeLimits : RouteLimits) (validity : Z)
    (descriptor : option Descriptor) (saved info_ok : bool) (now saveNow : Z) (s : Relay)
    : Relay * result pair_err (list byte) :=
  if zeroID receiver || negb (validateRouteLimits routeLimits) || (validity <=? 0) || (MaxTokenValidity <? validity)
  then (s, Err ErrProtocol)
  else
    let now := unix_sec now * Second in
    if closed s then (s, Err ErrAlreadyClosed)
    else
      let s := expireAdvertisementsLocked now s in
      match receiver_entries receiver (advertisements s) ++ receiver_entries receiver (retainedAdvertisements s)
            ++ receiver_entries receiver (pendingAdvertisements s) with
      | [(key, selected)] =>
          if negb (has (registrations s) key) && (registrationLimit s <=? msize (registrations s))
          then (s, Err ErrCapacity)
          else if negb (protectedAdvertisementCapacityLocked key s) then (s, Err ErrCapacity)
          else match fresh_descriptor descriptor now with
          | None => (s, Err ErrUnavailable)
          | Some d =>
              if bool_decide (d_key d ≠ key) || negb (d_expires d =? signedExpires selected)
                 || bool_decide (d_root d ≠ admissionHash selected)
              then (s, Err ErrUnavailable)
              else
                let repeated := match registrations s !! key with
                  | Some current =>
                      if bool_decide (advertisementSHA256 current = Sum256 (encoded selected)) then
                        match VerifyToken (tokenKey s) (r_token current) now with
                        | Ok claims =>
                            if bool_decide (checkAdmissionLocked claims s = None)
                               && bool_decide (claims_key claims = key)
                               && bool_decide (c_root claims = admissionHash selected)
                               && bool_decide (c_limits claims = routeLimits)
                               && (wrap64 (wrap64 (c_expires claims - c_issued claims) * Second) =? validity)
                            then Some (claims, r_token current) else None
                        | Err _ => None
                        end
                      else None
                  | None => None
                  end in
                match repeated with
                | Some (claims, token) =>
                    if negb info_ok then (s, Err ErrProtocol)
                    else match recordClaimsLocked claims Approved saved saveNow s with
                         | (s, Some e) => (s, Err e)
                         | (s, None) => (s, Ok token)
                         end
                | None =>
                    let root := hex_encode (arr_bytes (admissionHash selected)) in
                    let policy := admissions s !! key in
                    if match policy with Some p => bool_decide (AdmissionRootSHA256 p ≠ root) | None => false end
                    then (s, Err ErrUnauthorized)
                    else
                      let issued := match policy with
                        | Some p => if unix_sec now <=? RejectIssuedThrough p
                                    then unix_ns (RejectIssuedThrough p + 1) else now
                        | None => now
                        end in
                      if now + 5 * Minute <? issued then (s, Err ErrUnavailable)
                      else
                        let claims := MkTokenClaims receiver key.2 (admissionHash selected) routeLimits 1
                          (unix_sec issued) ((issued + validity) / Second) in
                        match IssueToken (tokenKey s) claims issued with
                        | Err e => (s, Err e)
                        | Ok token =>
                            let p := match policy with
                              | Some p => p <| status := if bool_decide (status p ≠ Observed) then Approved else status p |>
                              | None => MkAdmissionRecord (ID_String receiver) (RouteID_String key.2) root Approved 0 0
                              end in
                            let p := p <| LastIssuedUnix := Z.max (LastIssuedUnix p) (c_issued claims) |> in
                            match saveAdmissionLocked key p saved saveNow s with
                            | (s, Some e) => (s, Err e)
                            | (s, None) =>
                                let s := s <| registrations := <[key := RegistrationRecord token
                                  (Sum256 (encoded selected)) (issued + validity)]> (registrations s) |> in
                                if info_ok then (s, Ok token) else (s, Err ErrProtocol)
                            end
                        end
                end
          end
      | _ => (s, Err ErrUnavailable)
      end.

Definition fetchRegistration (advertisement : list byte) (verified : option Descriptor) (now : Z) (s : Relay)
    : Relay * result pair_err (list byte) :=
  let n := Z.of_nat (length advertisement) in
  if (n =? 0) || (AdvertisementBytes (limits s) <? n) then (s, Err ErrProtocol)
  else match fresh_descriptor verified now with
  | None => (s, Err ErrUnauthorized)
  | Some d =>
      if closed s then (s, Err ErrAlreadyClosed)
      else
        let s := expireAdvertisementsLocked now s in
        match registrations s !! d_key d with
        | None => (s, Err ErrUnavailable)
        | Some r =>
            if negb (now <? r_expires r) || bool_decide (advertisementSHA256 r ≠ Sum256 advertisement)
            then (s, Err ErrUnavailable)
            else match VerifyToken (tokenKey s) (r_token r) now with
                 | Err _ => (s, Err ErrUnavailable)
                 | Ok claims =>
                     if bool_decide (checkAdmissionLocked claims s ≠ None) || bool_decide (d_root d ≠ c_root claims)
                     then (s, Err ErrUnavailable)
                     else (s, Ok (r_token r))
                 end
        end
  end.

(** The renewal branch of [handleAuthenticated]: two critical sections after the outer
    handshake, then the second one renews. *)
Definition observe (claims : TokenClaims) (saved : bool) (now : Z) (s : Relay) : Relay * option pair_err :=
  recordClaimsLocked claims Observed saved now s.
Definition renew (token : list byte) (claims : TokenClaims) (peer : AuthenticatedPeer) (saved : bool)
    (now saveNow : Z) (s : Relay) : Relay * result pair_err (list byte) :=
  let validity := wrap64 (wrap64 (c_expires claims - c_issued claims) * Second) in
  match checkAdmissionLocked claims s with
  | Some e => (s, Err e)
  | None =>
      let issued := unix_sec now * Second in
      let issued := if unix_sec issued <? c_issued claims then unix_ns (c_issued claims) else issued in
      match RenewToken (tokenKey s) token peer issued validity with
      | Err e => (s, Err e)
      | Ok renewed =>
          match VerifyToken (tokenKey s) renewed issued with
          | Err e => (s, Err e)
          | Ok renewedClaims =>
              match recordClaimsLocked renewedClaims Observed saved saveNow s with
              | (s, Some e) => (s, Err e)
              | (s, None) => (s, Ok renewed)
              end
          end
      end
  end.

(** ** Waiting legs *)

Definition queue_of (pair : bool) (s : Relay) : legQueue := if pair then pairing s else runtime s.
Definition set_queue (pair : bool) (q : legQueue) (s : Relay) : Relay :=
  if pair then s <| pairing := q |> else s <| runtime := q |>.
Definition waiting_at (q : legQueue) (key : routeKey) : list addr := default [] (queue q !! key).

Definition pendingExpiry (claims : TokenClaims) (now : Z) (s : Relay) : Z :=
  let deadline := now + PairingTimeout (limits s) in
  let tokenExpiry := unix_ns (c_expires claims) in
  if tokenExpiry <? deadline then tokenExpiry else deadline.
Definition pairingExpiry (claims : TokenClaims) (now : Z) (s : Relay) : Z :=
  let deadline := now + PairingTimeout (limits s) in
  let graceExpiry := unix_ns (c_expires claims) + MaxExpiredRenewalGrace in
  if graceExpiry <? deadline then graceExpiry else deadline.
Definition sessionExpiry (first second : TokenClaims) (now : Z) (s : Relay) : Z :=
  let lifetime := LSessionLifetime (limits s) in
  let lifetime := if SessionLifetime (c_limits first) <? lifetime then SessionLifetime (c_limits first) else lifetime in
  let lifetime := if SessionLifetime (c_limits second) <? lifetime then SessionLifetime (c_limits second) else lifetime in
  foldl (λ deadline c, let expires := unix_ns (c_expires c) in if expires <? deadline then expires else deadline)
    (now + lifetime) [first; second].

(** [enqueueLeg]; [i] is the address of the new leg. *)
Definition enqueueLeg (key : routeKey) (i : addr) (leg : waitingLeg) (pair : bool) (s : Relay)
    : Relay * option pair_err :=
  match checkAdmissionLocked (l_claims leg) s with
  | Some e => (s, Some e)
  | None =>
      let q := queue_of pair s in
      let routeLimit := if pair then PendingPairings (c_limits (l_claims leg)) else PendingCarriers (c_limits (l_claims leg)) in
      let globalLimit := if pair then LPendingPairings (limits s) else LPendingCarriers (limits s) in
      let limit := Z.min (PerRoutePending (limits s)) routeLimit in
      if (globalLimit <=? total q) || (limit <=? cnt (perRoute q) key) then (s, Some ErrCapacity)
      else (set_queue pair (q <| queue := <[key := waiting_at q key ++ [i]]> (queue q) |>
                              <| total := total q + 1 |> <| perRoute := incr key (perRoute q) |>) s
              <| legs := <[i := leg]> (legs s) |>, None)
  end.

(** A non-blocking send on [done]. *)
Definition send_done (r : leg_result) (leg : waitingLeg) : waitingLeg :=
  match done_ch leg with None => leg <| done_ch := Some r |> | Some _ => leg end.
Definition update_leg (i : addr) (f : waitingLeg → waitingLeg) (s : Relay) : Relay :=
  match legs s !! i with Some leg => s <| legs := <[i := f leg]> (legs s) |> | None => s end.
Definition close_conn (i : addr) (s : Relay) : Relay :=
  match legs s !! i with Some leg => s <| shut := l_connection leg :: shut s |> | None => s end.
Definition set_list (key : routeKey) (l : list addr) (m : gmap routeKey (list addr)) : gmap routeKey (list addr) :=
  match l with [] => delete key m | _ => <[key := l]> m end.

Definition remove_first (i : addr) (l : list addr) : list addr :=
  match list_find (eq i) l with Some (n, _) => delete n l | None => l end.
Definition is_claimed (i : addr) (s : Relay) : bool :=
  match legs s !! i with Some leg => claimed leg | None => false end.

Definition removeLeg (key : routeKey) (i : addr) (pair : bool) (s : Relay) : Relay * bool :=
  let q := queue_of pair s in
  let values := waiting_at q key in
  if bool_decide (i ∈ values) && negb (is_claimed i s) then
    (close_conn i (set_queue pair (q <| queue := set_list key (remove_first i values) (queue q) |>
                                     <| total := total q - 1 |> <| perRoute := decr_del key (perRoute q) |>) s), true)
  else (s, false).

Definition sameRouteClaims (first second : TokenClaims) : bool :=
  bool_decide (c_receiver first = c_receiver second) && bool_decide (c_route first = c_route second)
  && bool_decide (c_root first = c_root second) && bool_decide (c_limits first = c_limits second).

(** [perRoute[key]--] *)
Definition decr (key : routeKey) (m : gmap routeKey Z) : gmap routeKey Z := <[key := cnt m key - 1]> m.
Definition drop_zero (key : routeKey) (m : gmap routeKey Z) : gmap routeKey Z :=
  if cnt m key =? 0 then delete key m else m.

(** The loop of [takeLeg] over the values still queued. *)
Fixpoint take_loop (key : routeKey) (pair : bool) (claims : TokenClaims) (now : Z) (values : list addr) (s : Relay)
    : Relay * result pair_err addr :=
  let q := queue_of pair s in
  match values with
  | [] => (set_queue pair (q <| queue := delete key (queue q) |> <| perRoute := delete key (perRoute q) |>) s,
           Err ErrUnavailable)
  | i :: values =>
      let q := q <| total := total q - 1 |> <| perRoute := decr key (perRoute q) |> in
      let usable := match legs s !! i with
        | Some leg => (now <? l_expires leg) && sameRouteClaims (l_claims leg) claims
        | None => false
        end in
      if negb usable then
        take_loop key pair claims now values
          (update_leg i (send_done (LegErr ErrUnavailable)) (close_conn i (set_queue pair q s)))
      else
        let q := q <| queue := set_list key values (queue q) |> <| perRoute := drop_zero key (perRoute q) |> in
        (update_leg i (λ leg, leg <| claimed := true |>) (set_queue pair q s), Ok i)
  end.
Definition takeLeg (key : routeKey) (pair : bool) (claims : TokenClaims) (now : Z) (s : Relay)
    : Relay * result pair_err addr :=
  match checkAdmissionLocked claims s with
  | Some e => (s, Err e)
  | None => take_loop key pair claims now (waiting_at (queue_of pair s) key) s
  end.

Definition finishLeg (i : addr) (err : option leg_result) (s : Relay) : Relay :=
  update_leg i (send_done (default (LegIO EOF) err)) s.

Definition acquireActive (key : routeKey) (first second : TokenClaims) (s : Relay) : Relay * option pair_err :=
  match checkAdmissionLocked first s with
  | Some e => (s, Some e)
  | None =>
      match checkAdmissionLocked second s with
      | Some e => (s, Some e)
      | None =>
          let limit := Z.min (PerRouteActive (limits s))
            (Z.min (ActiveCarriers (c_limits first)) (ActiveCarriers (c_limits second))) in
          if (LActiveCarriers (limits s) <=? active s) || (limit <=? cnt (activePerRoute s) key)
          then (s, Some ErrCapacity)
          else (s <| active := active s + 1 |> <| activePerRoute := incr key (activePerRoute s) |>, None)
      end
  end.
Definition releaseActive (key : routeKey) (s : Relay) : Relay :=
  s <| active := if 0 <? active s then active s - 1 else active s |>
    <| activePerRoute := if 1 <? cnt (activePerRoute s) key then decr key (activePerRoute s)
                         else delete key (activePerRoute s) |>.

Definition trackRouteConnection (claims : TokenClaims) (conn : connection) (s : Relay) : Relay * option pair_err :=
  match checkAdmissionLocked claims s with
  | Some e => (s, Some e)
  | None =>
      let key := claims_key claims in
      (s <| routeConnections := <[key := {[conn]} ∪ default ∅ (routeConnections s !! key)]> (routeConnections s) |>, None)
  end.
Definition untrack (claims : TokenClaims) (conn : connection) (s : Relay) : Relay :=
  let key := claims_key claims in
  let rest := default ∅ (routeConnections s !! key) ∖ {[conn]} in
  s <| routeConnections := if bool_decide (rest = ∅) then delete key (routeConnections s)
                           else <[key := rest]> (routeConnections s) |>.

(** ** Removal and shutdown *)

(** Every leg of [ids] is told [r] and its connection is closed. *)
Definition drop_legs (r : leg_result) (ids : list addr) (s : Relay) : Relay :=
  foldl (λ s i, update_leg i (send_done r) (close_conn i s)) s ids.
(** The body of the loop over [pairing] in [RemoveAdmission]. *)
Definition purge_queue (key : routeKey) (pair : bool) (s : Relay) : Relay :=
  let q := queue_of pair s in
  let ids := waiting_at q key in
  set_queue pair (q <| total := total q - Z.of_nat (length ids) |> <| queue := delete key (queue q) |>
                    <| perRoute := delete key (perRoute q) |>)
    (drop_legs (LegErr ErrUnauthorized) ids s).

Definition RemoveAdmission (receiver : ID) (route : RouteID) (saved : bool) (now saveNow : Z) (s : Relay)
    : Relay * option pair_err :=
  if zeroID receiver || zeroID route then (s, Some ErrProtocol)
  else if closed s then (s, Some ErrAlreadyClosed)
  else
    let key := (receiver, route) in
    match admissions s !! key with
    | None => (s, Some ErrUnavailable)
    | Some record =>
        let record := record <| status := Removed |>
          <| RejectIssuedThrough := Z.max (Z.max (RejectIssuedThrough record) (LastIssuedUnix record)) (unix_sec now) |> in
        let '(s, err) := saveAdmissionLocked key record saved saveNow s in
        let s := s <| registrations := delete key (registrations s) |> in
        let s := match advertisementLocked key s with
          | Some ad =>
              let kept := if protectedAdvertisementCapacityLocked key s
                          then <[key := ad <| hasOffer := false |>]> (retainedAdvertisements s)
                          else retainedAdvertisements s in
              s <| retainedAdvertisements := kept |> <| advertisements := delete key (advertisements s) |>
                <| pendingAdvertisements := delete key (pendingAdvertisements s) |>
          | None => s
          end in
        let s := s <| shut := elements (default ∅ (routeConnections s !! key)) ++ shut s |> in
        (purge_queue key false (purge_queue key true s), err)
    end.

Definition Close (s : Relay) : Relay * option pair_err :=
  if closed s then (s, Some ErrAlreadyClosed)
  else
    let ids := concat (map_to_list (queue (pairing s))).*2 ++ concat (map_to_list (queue (runtime s))).*2 in
    let conns := concat ((elements ∘ snd) <$> map_to_list (routeConnections s)) in
    let s := drop_legs (LegErr ErrAlreadyClosed) ids (s <| closed := true |> <| shut := conns ++ shut s |>) in
    (s <| advertisements := ∅ |> <| retainedAdvertisements := ∅ |> <| pendingAdvertisements := ∅ |>
       <| registrations := ∅ |> <| pairing := (pairing s) <| queue := ∅ |> |> <| runtime := (runtime s) <| queue := ∅ |> |>,
     None).

(** ** Interleavings *)

(** Every critical section of every handler, and of the local operations. *)
Inductive step : Relay → Relay → Prop :=
| S_publish s e v now : step s (publishAdvertisement e v now s).1
| S_fetch s t now : step s (fetchAdvertisement t now s).1
| S_publish_offer s o t v now : step s (publishOffer o t v now s).1
| S_fetch_offer s l now : step s (fetchOffer l now s).1
| S_register s r l v d saved info now now' : step s (RegisterReceiver r l v d saved info now now' s).1
| S_fetch_registration s a v now : step s (fetchRegistration a v now s).1
| S_observe s token renewal claims saved now now' :
    openToken (tokenKey s) token now renewal = Ok claims → step s (observe claims saved now' s).1
| S_renew s token claims peer saved now now' now'' :
    openToken (tokenKey s) token now true = Ok claims → step s (renew token claims peer saved now' now'' s).1
| S_remove s r q saved now now' : step s (RemoveAdmission r q saved now now' s).1
| S_track s claims conn : step s (trackRouteConnection claims conn s).1
| S_untrack s claims conn : step s (untrack claims conn s)
| S_enqueue s i leg pair :
    legs s !! i = None → claimed leg = false → done_ch leg = None →
    step s (enqueueLeg (claims_key (l_claims leg)) i leg pair s).1
| S_remove_leg s key i pair : step s (removeLeg key i pair s).1
| S_take s claims pair now : step s (takeLeg (claims_key claims) pair claims now s).1
| S_finish s i r : step s (finishLeg i r s)
| S_close s : step s (Close s).1.

(** With the carriers that still owe their deferred [releaseActive]. *)
Inductive carrier_step : Relay * list routeKey → Relay * list routeKey → Prop :=
| C_step s s' owing : step s s' → carrier_step (s, owing) (s', owing)
| C_acquire s s' owing key first second :
    acquireActive key first second s = (s', None) → carrier_step (s, owing) (s', key :: owing)
| C_release s owing owing' key : owing ≡ₚ key :: owing' → carrier_step (s, owing) (releaseActive key s, owing').

Inductive reachable : Relay → list routeKey → Prop :=
| R_new key l records s : NewRelay key l records true = Ok s → reachable s []
| R_step s owing s' owing' : reachable s owing → carrier_step (s, owing) (s', owing') → reachable s' owing'.
