(* ===== verification/PairRelayLegs.v ===== *)
(** * Waiting legs and active carriers of the pairing relay

    Exact counters, the bounds on what waits and what is active, and the ownership of a
    leg: promotion by [takeLeg], expiry by [removeLeg] and denial never overlap. *)

From S2P Require Import Prelude GoIO Protocol Identifiers Sha256 Text PairToken PairWire PairRelay.

(** ** The invariant *)

Definition waits (s : Relay) (pair : bool) (key : routeKey) (i : addr) : Prop :=
  i ∈ waiting_at (queue_of pair s) key.
Definition global_limit (pair : bool) (s : Relay) : Z :=
  if pair then LPendingPairings (limits s) else LPendingCarriers (limits s).

Record queue_ok (s : Relay) (pair : bool) : Prop := {
  q_total : total (queue_of pair s) = sum_len (queue (queue_of pair s));
  q_route : ∀ key, cnt (perRoute (queue_of pair s)) key = Z.of_nat (length (waiting_at (queue_of pair s) key));
  q_global : total (queue_of pair s) <= Z.max 0 (global_limit pair s);
  q_per_route : ∀ key, cnt (perRoute (queue_of pair s)) key <= Z.max 0 (PerRoutePending (limits s)) }.

Record leg_inv (s : Relay) : Prop := {
  li_queue : ∀ pair, closed s = false → queue_ok s pair;
  li_closed : ∀ pair, closed s = true → queue (queue_of pair s) = ∅;
  li_leg : ∀ pair key i, waits s pair key i →
    ∃ leg, legs s !! i = Some leg ∧ claimed leg = false ∧ claims_key (l_claims leg) = key;
  li_nodup : ∀ pair key, NoDup (waiting_at (queue_of pair s) key);
  li_cross : ∀ key i, waits s true key i → ¬ waits s false key i }.

(** The parts of the state an operation on legs leaves alone, and conversely. *)
Definition rest (s : Relay) :=
  (tokenKey s, limits s, closed s, advertisements s, retainedAdvertisements s, pendingAdvertisements s,
   registrations s, admissions s, (active s, activePerRoute s)).
Definition leg_part (s : Relay) := (limits s, closed s, pairing s, runtime s, legs s).

(** The legs keep their claims, and only the one taken becomes claimed. *)
Definition legs_kept (taken : option addr) (s s' : Relay) : Prop :=
  ∀ j, match legs s !! j, legs s' !! j with
       | Some l, Some l' => l_claims l' = l_claims l ∧ l_connection l' = l_connection l
                            ∧ (if bool_decide (taken = Some j) then claimed l' = true else claimed l' = claimed l)
       | None, None => True
       | _, _ => False
       end.

Lemma queue_set_same pair q s : queue_of pair (set_queue pair q s) = q.
Proof. by destruct pair. Qed.
Lemma queue_set_other pair q s : queue_of (negb pair) (set_queue pair q s) = queue_of (negb pair) s.
Proof. by destruct pair. Qed.
Lemma legs_set_queue pair q s : legs (set_queue pair q s) = legs s.
Proof. by destruct pair. Qed.
Lemma rest_set_queue pair q s : rest (set_queue pair q s) = rest s.
Proof. by destruct pair. Qed.

Lemma queue_update_leg pair i f s : queue_of pair (update_leg i f s) = queue_of pair s.
Proof. unfold update_leg. case_match; by destruct pair. Qed.
Lemma queue_close_conn pair i s : queue_of pair (close_conn i s) = queue_of pair s.
Proof. unfold close_conn. case_match; by destruct pair. Qed.
Lemma rest_update_leg i f s : rest (update_leg i f s) = rest s.
Proof. unfold update_leg. by case_match. Qed.
Lemma rest_close_conn i s : rest (close_conn i s) = rest s.
Proof. unfold close_conn. by case_match. Qed.
Lemma legs_close_conn i s : legs (close_conn i s) = legs s.
Proof. unfold close_conn. by case_match. Qed.

Lemma rest_closed s s' : rest s' = rest s → closed s' = closed s.
Proof. unfold rest. congruence. Qed.
Lemma rest_limits s s' : rest s' = rest s → limits s' = limits s.
Proof. unfold rest. congruence. Qed.

Lemma lookup_update_leg i f s j :
  legs (update_leg i f s) !! j = if decide (i = j) then f <$> legs s !! j else legs s !! j.
Proof.
  unfold update_leg. destruct (legs s !! i) eqn:E; cbn.
  - rewrite lookup_insert. case_decide; [subst; by rewrite E|done].
  - case_decide; [subst; by rewrite E|done].
Qed.

Lemma legs_kept_refl s : legs_kept None s s.
Proof. intros j. by destruct (legs s !! j). Qed.

Lemma legs_kept_trans t s1 s2 s3 : legs_kept None s1 s2 → legs_kept t s2 s3 → legs_kept t s1 s3.
Proof.
  intros H1 H2 j. specialize (H1 j); specialize (H2 j).
  destruct (legs s1 !! j), (legs s2 !! j), (legs s3 !! j); try done.
  rewrite bool_decide_eq_false_2 in H1 by done. destruct H1 as (<- & <- & <-). done.
Qed.

Lemma legs_kept_eq s s' : legs s' = legs s → legs_kept None s s'.
Proof. intros He j. rewrite He. by destruct (legs s !! j). Qed.

Lemma legs_kept_done i r s : legs_kept None s (update_leg i (send_done r) s).
Proof.
  intros j. rewrite lookup_update_leg. case_decide; destruct (legs s !! j) as [l|]; cbn; try done.
  unfold send_done. by destruct (done_ch l).
Qed.

(** ** Lists in the queue maps *)

Lemma waiting_at_set q key l key' :
  default [] (set_list key l (queue q) !! key') = if decide (key = key') then l else waiting_at q key'.
Proof.
  unfold set_list, waiting_at. destruct l as [|x l].
  - rewrite lookup_delete. by case_decide.
  - rewrite lookup_insert. by case_decide.
Qed.

Lemma sum_len_set m key l :
  sum_len (set_list key l m) = sum_len m - Z.of_nat (length (default [] (m !! key))) + Z.of_nat (length l).
Proof. unfold set_list. destruct l; [rewrite sum_len_delete; cbn; lia|apply sum_len_insert]. Qed.

Lemma remove_first_spec i l :
  i ∈ l → ∃ a b, l = a ++ i :: b ∧ remove_first i l = a ++ b.
Proof.
  intros Hi. unfold remove_first. destruct (list_find (eq i) l) as [[n x]|] eqn:E.
  - apply list_find_Some in E as (Hn & <- & _). exists (take n l), (drop (S n) l).
    rewrite delete_take_drop. split; [|done]. symmetry. by apply take_drop_middle.
  - exfalso. apply list_find_None in E. rewrite list.Forall_forall in E. by apply (E i).
Qed.

(** ** Preservation by the pure changes *)

(** A change outside the legs. *)
Lemma leg_inv_same s s' : leg_part s' = leg_part s → leg_inv s → leg_inv s'.
Proof.
  unfold leg_part. intros [= E1 E2 E3 E4 E5] [A B C D F].
  assert (∀ pair, queue_of pair s' = queue_of pair s) as Hq by (intros []; cbn; congruence).
  split; unfold waits in *.
  - intros pair Hc. rewrite E2 in Hc. destruct (A pair Hc). split; rewrite ?Hq; try done.
    + unfold global_limit in *. by rewrite E1.
    + intros key. rewrite E1. done.
  - intros pair Hc. rewrite E2 in Hc. rewrite Hq. by apply B.
  - intros pair key i. rewrite Hq, E5. apply C.
  - intros pair key. rewrite Hq. apply D.
  - intros key i. rewrite !Hq. apply F.
Qed.

(** The queue selected by [pair] gets the list [l] for [key] where it had [old]; all
    other lists stay; legs that leave are [gone]. *)
Lemma leg_inv_set pair key l q s s' :
  leg_inv s → closed s = false →
  closed s' = false → limits s' = limits s →
  queue_of pair s' = q → queue_of (negb pair) s' = queue_of (negb pair) s →
  queue q = set_list key l (queue (queue_of pair s)) →
  total q = total (queue_of pair s) - Z.of_nat (length (waiting_at (queue_of pair s) key)) + Z.of_nat (length l) →
  (∀ k, cnt (perRoute q) k = if decide (key = k) then Z.of_nat (length l) else cnt (perRoute (queue_of pair s)) k) →
  total q <= Z.max 0 (global_limit pair s) → Z.of_nat (length l) <= Z.max 0 (PerRoutePending (limits s)) →
  NoDup l →
  (∀ i, i ∈ l → ∃ leg, legs s' !! i = Some leg ∧ claimed leg = false ∧ claims_key (l_claims leg) = key) →
  (∀ i, i ∈ l → ¬ waits s (negb pair) key i) →
  (∀ p k i, (p ≠ pair ∨ k ≠ key) → waits s p k i →
     ∃ leg, legs s' !! i = Some leg ∧ claimed leg = false ∧ claims_key (l_claims leg) = k) →
  leg_inv s'.
Proof.
  intros [A B C D F] Hc Hc' Hlim Hq Ho Hqueue Htot Hroute Hglob Hper Hnd Hl Hx Hleg.
  assert (∀ p k, waiting_at (queue_of p s') k
    = if decide (p = pair ∧ key = k) then l else waiting_at (queue_of p s) k) as Hw.
  { intros p k. destruct (decide (p = pair)) as [->|Hp].
    - rewrite Hq. unfold waiting_at at 1. rewrite Hqueue, waiting_at_set.
      repeat case_decide; naive_solver.
    - rewrite decide_False by tauto. assert (p = negb pair) as -> by (by destruct p, pair). by rewrite Ho. }
  assert (∀ p, p ≠ pair → queue_of p s' = queue_of p s) as Hother.
  { intros p Hp. assert (p = negb pair) as -> by (by destruct p, pair). done. }
  split.
  - intros p _. destruct (A p Hc) as [Q1 Q2 Q3 Q4]. destruct (decide (p = pair)) as [->|Hp].
    + destruct (A pair Hc) as [P1 P2 P3 P4]. split; rewrite ?Hq.
      * rewrite Hqueue, sum_len_set, Htot, P1. done.
      * intros k. rewrite Hroute. rewrite <-Hq, Hw. repeat case_decide; subst; try tauto. apply P2.
      * unfold global_limit. rewrite Hlim. exact Hglob.
      * intros k. rewrite Hroute, Hlim. case_decide; [done|apply P4].
    + split; rewrite (Hother p Hp); try done; unfold global_limit in *; rewrite Hlim; done.
  - intros p. rewrite Hc'. done.
  - intros p k i. unfold waits. rewrite Hw. case_decide as Hpk.
    + destruct Hpk as [-> <-]. apply Hl.
    + apply Hleg. destruct (decide (p = pair)); [right; intros ->; tauto|by left].
  - intros p k. rewrite Hw. case_decide; [done|apply D].
  - intros k i. unfold waits. rewrite !Hw. unfold waits in Hx, F.
    destruct pair; cbn in Hx; repeat case_decide; try naive_solver.
Qed.

(** ** Enqueue and expiry *)

Lemma enqueue_keeps i leg pair s :
  leg_inv s → legs s !! i = None → claimed leg = false →
  leg_inv (enqueueLeg (claims_key (l_claims leg)) i leg pair s).1.
Proof.
  intros Hi Hf Hcl. unfold enqueueLeg. destruct (checkAdmissionLocked (l_claims leg) s) eqn:Hch; [done|].
  assert (closed s = false) as Hc by (unfold checkAdmissionLocked in Hch; by destruct (closed s)).
  case_guard G; [done|]. bool_prop. cbn [fst]. set (key := claims_key (l_claims leg)) in *.
  destruct Hi as [A B C D F]. pose proof (A pair Hc) as [Q1 Q2 Q3 Q4].
  assert (∀ p k, ¬ waits s p k i) as Hnew.
  { intros p k Hw. destruct (C _ _ _ Hw) as (? & ? & _). congruence. }
  pose proof (Q2 key) as Hk.
  eapply (leg_inv_set pair key (waiting_at (queue_of pair s) key ++ [i]) _ s); try done;
    try (by destruct pair); cbn.
  - destruct pair; cbn; unfold set_list; by destruct (waiting_at _ key).
  - destruct pair; cbn in *; rewrite length_app; cbn; lia.
  - intros k. destruct pair; cbn in *; rewrite cnt_incr, ?length_app; cbn; case_decide; subst; lia.
  - unfold global_limit. destruct pair; cbn in *; lia.
  - rewrite length_app. cbn. lia.
  - apply list.NoDup_app. split_and!; [apply D| |apply NoDup_singleton].
    intros j Hj ->%list_elem_of_singleton. by apply (Hnew pair key).
  - intros j [Hj| ->%list_elem_of_singleton]%elem_of_app; rewrite legs_set_queue; cbn; rewrite lookup_insert.
    + destruct (C pair key j Hj) as (l & Hl & ?). case_decide; [congruence|eauto].
    + case_decide; [|done]. by exists leg.
  - intros j [Hj| ->%list_elem_of_singleton]%elem_of_app; [|apply Hnew].
    intros Hw. destruct pair; cbn in Hw; [by apply (F key j)|by apply (F key j)].
  - intros p k j _ Hj. destruct (C p k j Hj) as (l & Hl & ?). exists l. rewrite legs_set_queue. cbn. rewrite lookup_insert_ne by congruence. done.
Qed.

Lemma remove_leg_keeps key i pair s : leg_inv s → leg_inv (removeLeg key i pair s).1.
Proof.
  intros Hi. unfold removeLeg. case_guard G; [|done]. bool_prop. cbn [fst].
  destruct (closed s) eqn:Hc.
  { exfalso. destruct Hi as [_ B _ _ _]. unfold waiting_at in H. rewrite (B pair Hc), lookup_empty in H.
    by apply not_elem_of_nil in H. }
  destruct Hi as [A B C D F]. pose proof (A pair Hc) as [Q1 Q2 Q3 Q4].
  destruct (remove_first_spec i _ H) as (a & b & Hab & Hrem). pose proof (D pair key) as Hnd.
  rewrite Hab in Hnd. assert (NoDup (a ++ b) ∧ i ∉ a ++ b) as [Hnd' Hni].
  { apply list.NoDup_app in Hnd as (Na & Nab & Nib). apply list.NoDup_cons in Nib as [Ni Nb].
    rewrite list.NoDup_app, elem_of_app. split_and!; try done.
    - intros x Hx Hb. apply (Nab x Hx). by right.
    - intros [Hx|Hx]; [|done]. apply (Nab i Hx). by left. }
  assert (length (waiting_at (queue_of pair s) key) = S (length (a ++ b))) as Hlen
    by (rewrite Hab, !length_app; cbn; lia).
  pose proof (Q2 key) as Hk. pose proof (Q4 key) as Hk4.
  eapply (leg_inv_set pair key (a ++ b) _ s); try done;
    rewrite ?queue_close_conn, ?queue_set_same, ?queue_set_other; try done.
  - rewrite <-Hc. apply rest_closed. by rewrite rest_close_conn, rest_set_queue.
  - apply rest_limits. by rewrite rest_close_conn, rest_set_queue.
  - cbn. by rewrite Hrem.
  - cbn. lia.
  - intros k. cbn. rewrite cnt_decr_del. case_decide; [subst|]; lia.
  - cbn. lia.
  - lia.
  - intros j Hj. rewrite legs_close_conn, legs_set_queue. apply (C pair key j). unfold waits. rewrite Hab.
    apply elem_of_app. apply elem_of_app in Hj as [?|?]; [by left|right; by right].
  - intros j Hj Hw. assert (waits s pair key j) as Hwj.
    { unfold waits. rewrite Hab. apply elem_of_app. apply elem_of_app in Hj as [?|?]; [by left|right; by right]. }
    destruct pair; cbn in Hw; by apply (F key j).
  - intros p k j _ Hj. rewrite legs_close_conn, legs_set_queue. by apply (C p).
Qed.

(** ** Promotion *)

(** Whether [takeLeg] promotes a leg. *)
Definition usable (now : Z) (claims : TokenClaims) (s : Relay) (i : addr) : bool :=
  match legs s !! i with
  | Some leg => (now <? l_expires leg) && sameRouteClaims (l_claims leg) claims
  | None => false
  end.

(** The result of the loop: the legs in front are turned away, one is promoted. *)
Record take_result (key : routeKey) (pair : bool) (claims : TokenClaims) (now : Z) (values : list addr)
    (s s' : Relay) (r : result pair_err addr) : Prop := {
  t_rest : rest s' = rest s;
  t_conns : routeConnections s' = routeConnections s;
  t_other : queue_of (negb pair) s' = queue_of (negb pair) s;
  t_legs : legs_kept (match r with Ok i => Some i | Err _ => None end) s s';
  t_queue :
    match r with
    | Err e =>
        e = ErrUnavailable ∧ Forall (λ i, usable now claims s i = false) values
        ∧ queue (queue_of pair s') = delete key (queue (queue_of pair s))
        ∧ total (queue_of pair s') = total (queue_of pair s) - Z.of_nat (length values)
        ∧ (∀ k, cnt (perRoute (queue_of pair s')) k = if decide (key = k) then 0 else cnt (perRoute (queue_of pair s)) k)
    | Ok i =>
        ∃ pre post, values = pre ++ i :: post ∧ usable now claims s i = true
        ∧ Forall (λ j, usable now claims s j = false) pre
        ∧ queue (queue_of pair s') = set_list key post (queue (queue_of pair s))
        ∧ total (queue_of pair s') = total (queue_of pair s) - Z.of_nat (length pre) - 1
        ∧ (∀ k, cnt (perRoute (queue_of pair s')) k
                = cnt (perRoute (queue_of pair s)) k - if decide (key = k) then Z.of_nat (length pre) + 1 else 0)
    end }.

Lemma cnt_drop_zero (key k : routeKey) (m : gmap routeKey Z) : cnt (drop_zero key m) k = cnt m k.
Proof.
  unfold drop_zero. destruct (Z.eqb_spec (cnt m key) 0) as [He|He]; [|done].
  rewrite cnt_delete. case_decide; [by subst|done].
Qed.
Lemma cnt_decr (key k : routeKey) (m : gmap routeKey Z) : cnt (decr key m) k = cnt m k - if decide (key = k) then 1 else 0.
Proof. unfold decr. rewrite cnt_insert. case_decide; subst; lia. Qed.

Lemma usable_kept now claims i j r s :
  usable now claims (update_leg i (send_done r) s) j = usable now claims s j.
Proof.
  unfold usable. rewrite lookup_update_leg. case_decide; [|done].
  destruct (legs s !! j) as [l|]; [|done]. cbn. unfold send_done. by destruct (done_ch l).
Qed.

(** One leg turned away. *)
Definition turn_away (key : routeKey) (pair : bool) (i : addr) (s : Relay) : Relay :=
  update_leg i (send_done (LegErr ErrUnavailable))
    (close_conn i (set_queue pair ((queue_of pair s) <| total := total (queue_of pair s) - 1 |>
                                     <| perRoute := decr key (perRoute (queue_of pair s)) |>) s)).

Lemma turn_away_spec key pair i s :
  let s' := turn_away key pair i s in
  rest s' = rest s ∧ routeConnections s' = routeConnections s ∧ queue_of (negb pair) s' = queue_of (negb pair) s
  ∧ legs_kept None s s'
  ∧ queue (queue_of pair s') = queue (queue_of pair s) ∧ total (queue_of pair s') = total (queue_of pair s) - 1
  ∧ perRoute (queue_of pair s') = decr key (perRoute (queue_of pair s))
  ∧ ∀ now claims j, usable now claims s' j = usable now claims s j.
Proof.
  unfold turn_away. set (q := (queue_of pair s) <| total := _ |> <| perRoute := _ |>).
  rewrite !queue_update_leg, !queue_close_conn, queue_set_same, queue_set_other.
  split_and!; try done.
  - by rewrite rest_update_leg, rest_close_conn, rest_set_queue.
  - unfold update_leg, close_conn. repeat case_match; by destruct pair.
  - intros j. pose proof (legs_kept_done i (LegErr ErrUnavailable) (close_conn i (set_queue pair q s)) j) as Hk.
    by rewrite legs_close_conn, legs_set_queue in Hk.
  - intros now claims j. rewrite usable_kept. unfold usable. by rewrite legs_close_conn, legs_set_queue.
Qed.

Lemma take_loop_spec key pair claims now values s :
  take_result key pair claims now values s (take_loop key pair claims now values s).1
    (take_loop key pair claims now values s).2.
Proof.
  revert s. induction values as [|i values IH]; intros s; cbn [take_loop].
  { cbn [fst snd]. split; rewrite ?queue_set_same, ?queue_set_other, ?rest_set_queue; try done.
    - by destruct pair.
    - apply legs_kept_eq, legs_set_queue.
    - cbn. split_and!; [done|constructor|done|lia|]. intros k. rewrite cnt_delete. by case_decide. }
  fold (usable now claims s i). destruct (usable now claims s i) eqn:Hu; cbn [negb].
  - set (q := _ <| perRoute := drop_zero _ _ |>). cbn [fst snd].
    split; rewrite ?queue_update_leg, ?queue_set_same, ?queue_set_other; try done.
    + by rewrite rest_update_leg, rest_set_queue.
    + unfold update_leg. case_match; by destruct pair.
    + intros j. rewrite lookup_update_leg, legs_set_queue. case_decide as Hij.
      * subst. destruct (legs s !! j); cbn; [|done]. by rewrite bool_decide_eq_true_2.
      * destruct (legs s !! j); [|done]. rewrite bool_decide_eq_false_2 by congruence. done.
    + exists [], values. cbn. split_and!; try done; [lia|]. intros k. rewrite cnt_drop_zero, cnt_decr. done.
  - fold (turn_away key pair i s). specialize (IH (turn_away key pair i s)).
    destruct (take_loop key pair claims now values (turn_away key pair i s)) as [s' r]. cbn [fst snd] in *.
    destruct (turn_away_spec key pair i s) as (A1 & A2 & A3 & A4 & A5 & A6 & A7 & A8).
    destruct IH as [B1 B2 B3 B4 B5]. split; try congruence.
    + by eapply legs_kept_trans.
    + destruct r as [j|e].
      * destruct B5 as (pre & post & C1 & C2 & C3 & C4 & C5 & C6). exists (i :: pre), post.
        rewrite A5 in C4. rewrite A6 in C5. rewrite A8 in C2. split_and!; try done.
        -- by rewrite C1.
        -- constructor; [done|]. eapply Forall_impl; [|exact C3]. intros x. cbn. by rewrite A8.
        -- cbn [length]. lia.
        -- intros k. rewrite C6, A7, cnt_decr. cbn [length]. case_decide; lia.
      * destruct B5 as (C1 & C2 & C3 & C4 & C5). rewrite A5 in C3. rewrite A6 in C4. split_and!; try done.
        -- constructor; [done|]. eapply Forall_impl; [|exact C2]. intros x. cbn. by rewrite A8.
        -- cbn [length]. lia.
        -- intros k. rewrite C5, A7, cnt_decr. case_decide; lia.
Qed.

(** A leg kept unclaimed by an operation. *)
Lemma kept_unclaimed t s s' j l :
  legs_kept t s s' → t ≠ Some j → legs s !! j = Some l →
  ∃ l', legs s' !! j = Some l' ∧ l_claims l' = l_claims l ∧ claimed l' = claimed l.
Proof.
  intros Hk Ht Hj. specialize (Hk j). rewrite Hj in Hk. destruct (legs s' !! j) as [l'|]; [|done].
  rewrite bool_decide_eq_false_2 in Hk by done. exists l'. tauto.
Qed.

Lemma take_keeps key pair claims now s :
  leg_inv s → leg_inv (takeLeg key pair claims now s).1.
Proof.
  intros Hi. unfold takeLeg. destruct (checkAdmissionLocked claims s) eqn:Hch; [done|].
  assert (closed s = false) as Hc by (unfold checkAdmissionLocked in Hch; by destruct (closed s)).
  pose proof (take_loop_spec key pair claims now (waiting_at (queue_of pair s) key) s) as [T1 _ T3 T4 T5].
  set (o := take_loop _ _ _ _ _ _) in *. destruct o as [s' r]. cbn [fst snd] in *.
  pose proof Hi as [A B C D F]. pose proof (A pair Hc) as [Q1 Q2 Q3 Q4].
  pose proof (rest_closed _ _ T1) as Hc'. rewrite Hc in Hc'. pose proof (rest_limits _ _ T1) as Hl.
  pose proof (Q2 key) as Hk. pose proof (Q4 key) as Hk4.
  destruct r as [i|e].
  - destruct T5 as (pre & post & E1 & E2 & E3 & E4 & E5 & E6).
    pose proof (D pair key) as Hnd. rewrite E1 in Hnd.
    apply list.NoDup_app in Hnd as (Na & Nab & Nib). apply list.NoDup_cons in Nib as [Ni Nb].
    assert (∀ j, waits s pair key j ↔ j ∈ pre ++ i :: post) as Hw by (intros; unfold waits; by rewrite E1).
    assert (length (waiting_at (queue_of pair s) key) = length pre + S (length post))%nat as Hlen
      by (rewrite E1, length_app; done).
    assert (∀ p k j, j ≠ i → waits s p k j →
      ∃ leg, legs s' !! j = Some leg ∧ claimed leg = false ∧ claims_key (l_claims leg) = k) as Hkeep.
    { intros p k j Hj Hwj. destruct (C p k j Hwj) as (l & Hl' & Hcl & Hck).
      destruct (kept_unclaimed _ _ _ j l T4) as (l' & ? & Hcl' & ?); [congruence|done|].
      exists l'. rewrite Hcl'. split_and!; congruence. }
    eapply (leg_inv_set pair key post (queue_of pair s') s s'); try done; try lia.
    + intros k. rewrite E6. case_decide; [subst|]; lia.
    + intros j Hj. apply (Hkeep pair key); [congruence|]. apply Hw, elem_of_app. right. by right.
    + intros j Hj Hwo. assert (waits s pair key j) as Hwj by (apply Hw, elem_of_app; right; by right).
      destruct pair; cbn in Hwo; by apply (F key j).
    + intros p k j Hpk Hwj. apply (Hkeep p k); [|done]. intros ->.
      destruct (C p k i Hwj) as (l & Hl1 & _ & Hk1).
      assert (waits s pair key i) as Hwi by (apply Hw, elem_of_app; right; by left).
      destruct (C pair key i Hwi) as (l2 & Hl2 & _ & Hk2). assert (k = key) as -> by congruence.
      destruct Hpk as [Hp|]; [|done]. destruct p, pair; try done; by apply (F key i).
  - destruct T5 as (-> & E2 & E3 & E4 & E5).
    eapply (leg_inv_set pair key [] (queue_of pair s') s s'); try done; cbn; try lia.
    + by constructor.
    + intros j Hj. by apply not_elem_of_nil in Hj.
    + intros j Hj. by apply not_elem_of_nil in Hj.
    + intros p k j _ Hwj. destruct (C p k j Hwj) as (l & Hl' & Hcl & Hck).
      destruct (kept_unclaimed _ _ _ j l T4) as (l' & ? & Hcl' & ?); [done|done|].
      exists l'. rewrite Hcl'. split_and!; congruence.
Qed.

(** ** Denial and shutdown *)

Lemma drop_legs_spec r ids s :
  rest (drop_legs r ids s) = rest s ∧ routeConnections (drop_legs r ids s) = routeConnections s
  ∧ (∀ pair, queue_of pair (drop_legs r ids s) = queue_of pair s) ∧ legs_kept None s (drop_legs r ids s)
  ∧ ∃ more, shut (drop_legs r ids s) = more ++ shut s.
Proof.
  unfold drop_legs. revert s. induction ids as [|i ids IH]; intros s; cbn [foldl].
  { split_and!; try done; [apply legs_kept_refl|by exists []]. }
  destruct (IH (update_leg i (send_done r) (close_conn i s))) as (A & B & C & D & E).
  split_and!.
  - by rewrite A, rest_update_leg, rest_close_conn.
  - rewrite B. unfold update_leg, close_conn. by repeat case_match.
  - intros pair. by rewrite C, queue_update_leg, queue_close_conn.
  - eapply legs_kept_trans; [|exact D]. intros j.
    pose proof (legs_kept_done i r (close_conn i s) j) as H. by rewrite legs_close_conn in H.
  - destruct E as [more ->]. unfold update_leg, close_conn.
    destruct (legs s !! i) as [l|] eqn:El; [|exists more; by rewrite El].
    cbn. rewrite El. cbn. exists (more ++ [l_connection l]). by rewrite <-app_assoc.
Qed.

Lemma purge_spec key pair s :
  let s' := purge_queue key pair s in
  rest s' = rest s ∧ routeConnections s' = routeConnections s ∧ queue_of (negb pair) s' = queue_of (negb pair) s
  ∧ legs_kept None s s' ∧ waiting_at (queue_of pair s') key = []
  ∧ (∃ more, shut s' = more ++ shut s) ∧ (closed s = false → leg_inv s → leg_inv s').
Proof.
  unfold purge_queue. set (ids := waiting_at (queue_of pair s) key). set (r := LegErr ErrUnauthorized).
  destruct (drop_legs_spec r ids s) as (A & B & C & D & E).
  set (q := (queue_of pair s) <| total := _ |> <| queue := _ |> <| perRoute := _ |>).
  set (s1 := drop_legs r ids s) in *.
  assert (legs_kept None s (set_queue pair q s1)) as Hk by (intros j; rewrite legs_set_queue; apply D).
  split_and!.
  - by rewrite rest_set_queue.
  - rewrite <-B. by destruct pair.
  - by rewrite queue_set_other, C.
  - done.
  - rewrite queue_set_same. unfold waiting_at. cbn. by rewrite lookup_delete_eq.
  - destruct E as [more E]. exists more. rewrite <-E. by destruct pair.
  - intros Hc Hi. pose proof Hi as [A' B' C' D' F']. pose proof (A' pair Hc) as [Q1 Q2 Q3 Q4].
    assert (rest (set_queue pair q s1) = rest s) as Hr by (by rewrite rest_set_queue).
    eapply (leg_inv_set pair key [] q s); try done.
    + rewrite <-Hc. by apply rest_closed.
    + by apply rest_limits.
    + apply queue_set_same.
    + by rewrite queue_set_other, C.
    + cbn. fold ids. lia.
    + intros k. cbn. rewrite cnt_delete. by case_decide.
    + cbn. fold ids. lia.
    + cbn. lia.
    + by constructor.
    + intros i Hin. by apply not_elem_of_nil in Hin.
    + intros i Hin. by apply not_elem_of_nil in Hin.
    + intros p k i _ Hw. destruct (C' p k i Hw) as (l & Hl & Hcl & Hck).
      destruct (kept_unclaimed _ _ _ i l Hk) as (l' & ? & Hcl' & ?); [done|done|].
      exists l'. rewrite Hcl'. split_and!; congruence.
Qed.

Lemma finish_leg_keeps i r s : leg_inv s → leg_inv (finishLeg i r s).
Proof.
  intros [A B C D F]. unfold finishLeg. set (s' := update_leg _ _ s).
  assert (∀ pair, queue_of pair s' = queue_of pair s) as Hq by (intros; apply queue_update_leg).
  assert (rest s' = rest s) as Hr by apply rest_update_leg.
  pose proof (rest_closed _ _ Hr) as Hc. pose proof (rest_limits _ _ Hr) as Hl.
  split; unfold waits in *.
  - intros pair. rewrite Hc. intros Hcl. destruct (A pair Hcl). split; rewrite ?Hq; try done.
    + unfold global_limit in *. by rewrite Hl.
    + intros key. rewrite Hl. done.
  - intros pair. rewrite Hc, Hq. apply B.
  - intros pair key j. rewrite Hq. intros Hw. destruct (C _ _ _ Hw) as (l & Hj & Hcl & Hck).
    destruct (kept_unclaimed None s s' j l) as (l' & ? & Hcl' & ?); [apply legs_kept_done|done|done|].
    exists l'. rewrite Hcl'. split_and!; congruence.
  - intros pair key. rewrite Hq. apply D.
  - intros key j. rewrite !Hq. apply F.
Qed.

Lemma close_keeps s : leg_inv s → leg_inv (Close s).1.
Proof.
  intros Hi. unfold Close. destruct (closed s) eqn:Hc; [done|].
  cbv zeta. cbn [fst]. set (s1 := drop_legs _ _ _).
  assert (closed s1 = true) as Hc1.
  { unfold s1. match goal with |- closed (drop_legs ?r ?ids ?x) = _ =>
      destruct (drop_legs_spec r ids x) as (A & _); apply rest_closed in A; rewrite A end. done. }
  split; unfold waits; cbn.
  - intros pair. by rewrite Hc1.
  - by intros [] _.
  - intros [] key i Hw; cbn in Hw; unfold waiting_at in Hw; cbn in Hw; rewrite lookup_empty in Hw;
      by apply not_elem_of_nil in Hw.
  - intros [] key; cbn; unfold waiting_at; cbn; rewrite lookup_empty; by constructor.
  - intros key i Hw. unfold waiting_at in Hw. cbn in Hw. rewrite lookup_empty in Hw. by apply not_elem_of_nil in Hw.
Qed.

(** ** Operations on policy and advertisements leave the legs alone *)

Definition carriers_part (s : Relay) := (leg_part s, active s, activePerRoute s, tokenKey s).

Ltac same_part := unfold carriers_part, leg_part; repeat (case_match; simplify_eq/=; try done); done.

Lemma cache_part key r now s : carriers_part (cacheAdvertisementLocked key r now s).1 = carriers_part s.
Proof. unfold cacheAdvertisementLocked, protect, storePendingAdvertisementLocked. same_part. Qed.
Lemma promote_part key now s : carriers_part (promoteAdvertisementLocked key now s) = carriers_part s.
Proof. unfold promoteAdvertisementLocked, protect. same_part. Qed.
Lemma save_part key next saved now s : carriers_part (saveAdmissionLocked key next saved now s).1 = carriers_part s.
Proof.
  unfold saveAdmissionLocked. cbv zeta.
  match goal with |- context [if ?b then (s, Some ErrCapacity) else _] => destruct b; [done|] end.
  match goal with |- context [if ?b then (s, Some ErrCapacity) else _] => destruct b; [done|] end.
  match goal with |- context [if ?b then (promoteAdvertisementLocked _ _ s, None) else _] =>
    destruct b; [apply promote_part|] end.
  destruct saved; cbn [negb fst]; [by rewrite promote_part|]. by case_match.
Qed.
Lemma record_part claims st saved now s : carriers_part (recordClaimsLocked claims st saved now s).1 = carriers_part s.
Proof. unfold recordClaimsLocked. case_match; [done|]. apply save_part. Qed.
Lemma expire_part now s : carriers_part (expireAdvertisementsLocked now s) = carriers_part s.
Proof. done. Qed.
Lemma publish_part e v now s : carriers_part (publishAdvertisement e v now s).1 = carriers_part s.
Proof.
  unfold publishAdvertisement. case_guard G; [done|]. destruct (fresh_descriptor v now); [|done].
  case_guard G1; [done|]. case_guard G2; [done|]. by rewrite cache_part.
Qed.
Lemma fetch_part t now s : carriers_part (fetchAdvertisement t now s).1 = carriers_part s.
Proof. unfold fetchAdvertisement. repeat (case_match; try done). Qed.
Lemma fetch_offer_part l now s : carriers_part (fetchOffer l now s).1 = carriers_part s.
Proof. unfold fetchOffer. repeat (case_match; try done). Qed.
Lemma fetch_registration_part a v now s : carriers_part (fetchRegistration a v now s).1 = carriers_part s.
Proof. unfold fetchRegistration. repeat (case_match; try done). Qed.

Lemma publish_offer_part o t v now s : carriers_part (publishOffer o t v now s).1 = carriers_part s.
Proof.
  unfold publishOffer. case_guard G; [done|]. destruct (fresh_descriptor v now) as [d|]; [|done].
  case_guard G1; [done|]. cbv zeta.
  match goal with |- context [match ?x with Ok _ => _ | Err _ => _ end] => destruct x as [restored|]; [|done] end.
  case_guard G2; [done|].
  match goal with |- context [match ?x with Some e => (s, Some e) | None => _ end] => destruct x; [done|] end.
  match goal with |- context [if ?b then (s, Some ErrUnauthorized) else _] => destruct b; [done|] end.
  match goal with |- context [match ?x with Some e => (expireAdvertisementsLocked now s, Some e) | None => _ end] =>
    destruct x; [done|] end.
  match goal with |- context [cacheAdvertisementLocked ?k ?r ?n ?x] =>
    pose proof (cache_part k r n x) as Hp; destruct (cacheAdvertisementLocked k r n x) as [s' [e|]] end;
    cbn [fst] in *; rewrite <-(expire_part now s); [done|]. by destruct restored as [[]|].
Qed.

Lemma register_part r l v d saved info now now' s :
  carriers_part (RegisterReceiver r l v d saved info now now' s).1 = carriers_part s.
Proof.
  unfold RegisterReceiver. case_guard G; [done|]. cbv zeta. case_guard G1; [done|].
  set (n := unix_sec now * Second). set (s1 := expireAdvertisementsLocked n s).
  assert (carriers_part s1 = carriers_part s) as He by done. rewrite <-He. clearbody s1. clear He.
  match goal with |- context [match ?x with [] => _ | _ => _ end] => destruct x as [|[key selected] [|]] end; try done.
  case_guard G2; [done|]. case_guard G3; [done|]. destruct (fresh_descriptor d n) as [d'|]; [|done].
  case_guard G4; [done|].
  match goal with |- context [match ?x with Some _ => _ | None => _ end] =>
    match type of x with option (TokenClaims * list byte) => destruct x as [[claims token]|] end end.
  - case_guard G5; [done|]. pose proof (record_part claims Approved saved now' s1) as Hp.
    by destruct (recordClaimsLocked _ _ _ _ _) as [s2 [e|]].
  - match goal with |- context [if ?b then (s1, Err ErrUnauthorized) else _] => destruct b; [done|] end.
    match goal with |- context [if ?b then (s1, Err ErrUnavailable) else _] => destruct b; [done|] end.
    destruct (IssueToken _ _ _) as [token|]; [|done].
    match goal with |- context [saveAdmissionLocked ?k ?p ?sv ?n ?x] =>
      pose proof (save_part k p sv n x) as Hp; destruct (saveAdmissionLocked k p sv n x) as [s2 [e|]] end; [done|].
    cbn [fst] in Hp. by destruct info.
Qed.

Lemma renew_part t claims peer saved now now' s :
  carriers_part (renew t claims peer saved now now' s).1 = carriers_part s.
Proof.
  unfold renew. cbv zeta. destruct (checkAdmissionLocked _ _); [done|].
  destruct (RenewToken _ _ _ _ _); [|done]. destruct (VerifyToken _ _ _) as [c|]; [|done].
  pose proof (record_part c Observed saved now' s) as Hp. by destruct (recordClaimsLocked _ _ _ _ _) as [s2 [e|]].
Qed.

(** The state of [RemoveAdmission] before the two queues are purged. *)
Lemma remove_keeps_legs r q saved now now' s :
  leg_inv s → leg_inv (RemoveAdmission r q saved now now' s).1.
Proof.
  intros Hi. unfold RemoveAdmission. case_guard G; [done|]. case_guard Hc; [done|].
  destruct (admissions s !! (r, q)) as [record|]; [|done]. cbv zeta.
  match goal with |- context [saveAdmissionLocked ?k ?p ?sv ?n ?x] =>
    pose proof (save_part k p sv n x) as Hp; destruct (saveAdmissionLocked k p sv n x) as [s1 err] end.
  cbn [fst] in *.
  match goal with |- leg_inv (purge_queue _ _ (purge_queue _ _ ?x)) => set (s2 := x) end.
  assert (leg_part s2 = leg_part s) as Hl.
  { unfold s2, carriers_part in *. destruct (advertisementLocked _ _); cbn; unfold leg_part in *; cbn; congruence. }
  assert (closed s2 = false) as Hc2 by (unfold leg_part in Hl; congruence).
  pose proof (purge_spec (r, q) true s2) as (R1 & _ & _ & _ & _ & _ & K1).
  pose proof (purge_spec (r, q) false (purge_queue (r, q) true s2)) as (_ & _ & _ & _ & _ & _ & K2).
  apply K2; [by rewrite (rest_closed _ _ R1)|]. apply K1; [done|]. by apply (leg_inv_same s).
Qed.

Lemma track_part claims conn s : carriers_part (trackRouteConnection claims conn s).1 = carriers_part s.
Proof. unfold trackRouteConnection. by case_match. Qed.
Lemma untrack_part claims conn s : carriers_part (untrack claims conn s) = carriers_part s.
Proof. done. Qed.

Lemma carriers_leg_part s s' : carriers_part s' = carriers_part s → leg_part s' = leg_part s.
Proof. unfold carriers_part. congruence. Qed.

Lemma step_legs s s' : leg_inv s → step s s' → leg_inv s'.
Proof.
  intros Hi Hs. assert (∀ s', carriers_part s' = carriers_part s → leg_inv s') as Hsame
    by (intros; apply (leg_inv_same s); [by apply carriers_leg_part|done]).
  destruct Hs.
  - apply Hsame, publish_part.
  - apply Hsame, fetch_part.
  - apply Hsame, publish_offer_part.
  - apply Hsame, fetch_offer_part.
  - apply Hsame, register_part.
  - apply Hsame, fetch_registration_part.
  - apply Hsame, record_part.
  - apply Hsame, renew_part.
  - by apply remove_keeps_legs.
  - apply Hsame, track_part.
  - apply Hsame, untrack_part.
  - by apply enqueue_keeps.
  - by apply remove_leg_keeps.
  - by apply take_keeps.
  - by apply finish_leg_keeps.
  - by apply close_keeps.
Qed.

(** ** Active carriers *)

Definition acts_part (s : Relay) := (limits s, active s, activePerRoute s).
(** The carriers of [key] that owe a release. *)
Definition owed (key : routeKey) (owing : list routeKey) : Z := Z.of_nat (length (filter (eq key) owing)).

Record relay_inv (s : Relay) (owing : list routeKey) : Prop := {
  ri_legs : leg_inv s;
  ri_limits : 0 < LPendingPairings (limits s) ∧ 0 < LPendingCarriers (limits s) ∧ 0 < LActiveCarriers (limits s)
              ∧ 0 < PerRoutePending (limits s) ∧ 0 < PerRouteActive (limits s);
  ri_active : active s = Z.of_nat (length owing);
  ri_route : ∀ key, cnt (activePerRoute s) key = owed key owing;
  ri_global : active s <= LActiveCarriers (limits s);
  ri_bound : ∀ key, cnt (activePerRoute s) key <= PerRouteActive (limits s) }.

Lemma rest_acts s s' : rest s' = rest s → acts_part s' = acts_part s.
Proof. unfold rest, acts_part. congruence. Qed.
Lemma carriers_acts s s' : carriers_part s' = carriers_part s → acts_part s' = acts_part s.
Proof. unfold carriers_part, leg_part, acts_part. congruence. Qed.

Lemma enqueue_acts key i leg pair s : acts_part (enqueueLeg key i leg pair s).1 = acts_part s.
Proof. unfold enqueueLeg. repeat (case_match; try done). all: by destruct pair. Qed.
Lemma remove_leg_acts key i pair s : acts_part (removeLeg key i pair s).1 = acts_part s.
Proof.
  unfold removeLeg. case_guard G; [|done]. cbn [fst]. apply rest_acts.
  by rewrite rest_close_conn, rest_set_queue.
Qed.
Lemma take_acts key pair claims now s : acts_part (takeLeg key pair claims now s).1 = acts_part s.
Proof.
  unfold takeLeg. case_match; [done|].
  by destruct (take_loop_spec key pair claims now (waiting_at (queue_of pair s) key) s) as [T _ _ _ _]; apply rest_acts.
Qed.
Lemma close_acts s : acts_part (Close s).1 = acts_part s.
Proof.
  unfold Close. case_guard G; [done|]. cbv zeta. cbn [fst].
  match goal with |- context [drop_legs ?r ?ids ?x] =>
    destruct (drop_legs_spec r ids x) as (A & _); apply rest_acts in A; set (s1 := drop_legs r ids x) in * end.
  unfold acts_part in *. cbn in *. congruence.
Qed.
Lemma remove_acts r q saved now now' s : acts_part (RemoveAdmission r q saved now now' s).1 = acts_part s.
Proof.
  unfold RemoveAdmission. case_guard G; [done|]. case_guard Hc; [done|].
  destruct (admissions s !! (r, q)) as [record|]; [|done]. cbv zeta.
  match goal with |- context [saveAdmissionLocked ?k ?p ?sv ?n ?x] =>
    pose proof (save_part k p sv n x) as Hp; destruct (saveAdmissionLocked k p sv n x) as [s1 err] end.
  cbn [fst] in *. apply carriers_acts in Hp.
  match goal with |- acts_part (purge_queue _ _ (purge_queue _ _ ?x)) = _ => set (s2 := x) end.
  destruct (purge_spec (r, q) true s2) as (R1 & _).
  destruct (purge_spec (r, q) false (purge_queue (r, q) true s2)) as (R2 & _).
  rewrite (rest_acts _ _ R2), (rest_acts _ _ R1), <-Hp. unfold s2.
  destruct (advertisementLocked _ _); done.
Qed.

Lemma step_acts s s' : step s s' → acts_part s' = acts_part s.
Proof.
  destruct 1.
  - apply carriers_acts, publish_part.
  - apply carriers_acts, fetch_part.
  - apply carriers_acts, publish_offer_part.
  - apply carriers_acts, fetch_offer_part.
  - apply carriers_acts, register_part.
  - apply carriers_acts, fetch_registration_part.
  - apply carriers_acts, record_part.
  - apply carriers_acts, renew_part.
  - apply remove_acts.
  - apply carriers_acts, track_part.
  - apply carriers_acts, untrack_part.
  - apply enqueue_acts.
  - apply remove_leg_acts.
  - apply take_acts.
  - apply rest_acts, rest_update_leg.
  - apply close_acts.
Qed.

Lemma owed_cons key k owing : owed key (k :: owing) = owed key owing + if decide (k = key) then 1 else 0.
Proof. unfold owed. rewrite filter_cons. repeat case_decide; subst; cbn; try done; lia. Qed.
Lemma owed_perm key l k : l ≡ₚ k → owed key l = owed key k.
Proof. unfold owed. by intros ->. Qed.
Lemma owed_le key l : 0 <= owed key l.
Proof. unfold owed. lia. Qed.

Lemma carrier_step_inv s owing s' owing' :
  relay_inv s owing → carrier_step (s, owing) (s', owing') → relay_inv s' owing'.
Proof.
  intros [A B C D F G] Hs. inversion Hs; subst; clear Hs.
  - match goal with H : step _ _ |- _ => rename H into Hs end.
    pose proof (step_acts _ _ Hs) as Ha. unfold acts_part in Ha. injection Ha as E1 E2 E3.
    split; rewrite ?E1, ?E2, ?E3; try done. by apply (step_legs s).
  - match goal with H : acquireActive _ _ _ _ = _ |- _ => rename H into Ha end.
    unfold acquireActive in Ha. repeat (case_match; try done). bool_prop. injection Ha as <-.
    split; cbn; try done.
    + by apply (leg_inv_same s).
    + lia.
    + intros k. rewrite cnt_incr, owed_cons, D. done.
    + lia.
    + intros k. rewrite cnt_incr. specialize (G k). case_decide; [subst|]; lia.
  - match goal with H : owing ≡ₚ _ |- _ => rename H into Hp end.
    assert (Z.of_nat (length owing) = Z.of_nat (length owing') + 1) as Hl
      by (rewrite (Permutation_length Hp); cbn; lia).
    pose proof (D key) as Hk. rewrite (owed_perm _ _ _ Hp), owed_cons, decide_True in Hk by done.
    pose proof (owed_le key owing').
    assert (∀ k, cnt (activePerRoute (releaseActive key s)) k = owed k owing') as Hr.
    { intros k. specialize (D k). rewrite (owed_perm _ _ _ Hp), owed_cons in D.
      unfold releaseActive. cbn. case_guard G1; bool_prop.
      - rewrite cnt_decr, D. case_decide; lia.
      - rewrite cnt_delete. case_decide; [subst|]; lia. }
    split; try done.
    + by apply (leg_inv_same s).
    + unfold releaseActive. cbn. case_guard G1; bool_prop; lia.
    + unfold releaseActive. cbn. case_guard G1; bool_prop; lia.
    + intros k. rewrite Hr. unfold releaseActive. cbn. specialize (G k). rewrite D in G.
      rewrite (owed_perm _ _ _ Hp), owed_cons in G. case_decide; lia.
Qed.

Lemma normalize_pos v d m z : normalize v d m = Some z → 0 < z <= m.
Proof. unfold normalize. intros. case_match; [done|]. bool_prop. simplify_eq. lia. Qed.

Lemma NewRelay_inv key l records s : NewRelay key l records true = Ok s → relay_inv s [].
Proof.
  unfold NewRelay. intros H. go_cases H.
  match goal with H : normalizeLimits _ = Ok _ |- _ => unfold normalizeLimits in H; cbv zeta in H; rename H into Hn end.
  match type of Hn with context [mapM ?f ?l] => destruct (mapM f l) as [vs|] eqn:Em; [|done] end.
  apply mapM_Some_1 in Em.
  repeat (destruct vs as [|? vs]; [done|]). destruct vs as [|? vs]; [|done]. injection Hn as <-.
  repeat match goal with H : Forall2 _ (_ :: _) (_ :: _) |- _ => inversion H; subst; clear H end.
  cbn [fst snd] in *.
  repeat match goal with H : normalize _ _ _ = Some _ |- _ => apply normalize_pos in H end.
  split; cbn; try done; try lia.
  - split; unfold waits; cbn.
    + intros [] _; split; cbn; try done; try (intros; rewrite cnt_empty); unfold global_limit; cbn; lia.
    + done.
    + intros [] k i Hw; unfold waiting_at in Hw; cbn in Hw; by apply not_elem_of_nil in Hw.
    + intros [] k; unfold waiting_at; cbn; by constructor.
    + intros k i Hw. unfold waiting_at in Hw. cbn in Hw. by apply not_elem_of_nil in Hw.
  - intros k. rewrite cnt_empty. lia.
Qed.

Lemma carriers_reachable_inv s owing : reachable s owing → relay_inv s owing.
Proof.
  induction 1 as [key l records s H|s owing s' owing' _ IH H].
  - by eapply NewRelay_inv.
  - by eapply carrier_step_inv.
Qed.

(** ** A promoted leg stays promoted *)

Lemma claimed_kept t s s' i : legs_kept t s s' → is_claimed i s = true → is_claimed i s' = true.
Proof.
  intros Hk. specialize (Hk i). unfold is_claimed. destruct (legs s !! i), (legs s' !! i); try done.
  destruct Hk as (_ & _ & Hc). destruct (bool_decide (t = Some i)); congruence.
Qed.
Lemma claimed_same s s' i : legs s' = legs s → is_claimed i s = true → is_claimed i s' = true.
Proof. intros He. unfold is_claimed. by rewrite He. Qed.

Lemma remove_kept r q saved now now' s : legs_kept None s (RemoveAdmission r q saved now now' s).1.
Proof.
  unfold RemoveAdmission. case_guard G; [apply legs_kept_refl|]. case_guard Hc; [apply legs_kept_refl|].
  destruct (admissions s !! (r, q)) as [record|]; [|apply legs_kept_refl]. cbv zeta.
  match goal with |- context [saveAdmissionLocked ?k ?p ?sv ?n ?x] =>
    pose proof (save_part k p sv n x) as Hp; destruct (saveAdmissionLocked k p sv n x) as [s1 err] end.
  cbn [fst] in *. apply carriers_leg_part in Hp. unfold leg_part in Hp. injection Hp as _ _ _ _ Hp.
  match goal with |- legs_kept _ _ (purge_queue _ _ (purge_queue _ _ ?x)) => set (s2 := x) end.
  destruct (purge_spec (r, q) true s2) as (_ & _ & _ & K1 & _).
  destruct (purge_spec (r, q) false (purge_queue (r, q) true s2)) as (_ & _ & _ & K2 & _).
  eapply legs_kept_trans; [|exact K2]. eapply legs_kept_trans; [|exact K1].
  apply legs_kept_eq. rewrite <-Hp. unfold s2. by destruct (advertisementLocked _ _).
Qed.

Lemma step_claimed s s' i : step s s' → is_claimed i s = true → is_claimed i s' = true.
Proof.
  intros Hs. assert (carriers_part s' = carriers_part s → is_claimed i s = true → is_claimed i s' = true) as Hp.
  { intros He. apply claimed_same. unfold carriers_part, leg_part in He. congruence. }
  destruct Hs.
  - apply Hp, publish_part.
  - apply Hp, fetch_part.
  - apply Hp, publish_offer_part.
  - apply Hp, fetch_offer_part.
  - apply Hp, register_part.
  - apply Hp, fetch_registration_part.
  - apply Hp, record_part.
  - apply Hp, renew_part.
  - eapply claimed_kept, remove_kept.
  - apply Hp, track_part.
  - apply Hp, untrack_part.
  - unfold enqueueLeg. destruct (checkAdmissionLocked _ _); [done|]. cbv zeta.
    match goal with |- context [if ?b then (s, Some ErrCapacity) else _] => destruct b; [done|] end.
    cbn [fst]. unfold is_claimed. rewrite legs_set_queue. cbn.
    rewrite lookup_insert. case_decide; [subst|done]. match goal with H : legs s !! _ = None |- _ => by rewrite H end.
  - unfold removeLeg. case_guard G; [|done]. cbn [fst]. apply claimed_same. by rewrite legs_close_conn, legs_set_queue.
  - unfold takeLeg. case_match; [done|]. eapply claimed_kept, t_legs, take_loop_spec.
  - eapply claimed_kept, legs_kept_done.
  - unfold Close. case_guard G; [done|]. cbv zeta. cbn [fst].
    match goal with |- context [drop_legs ?r ?ids ?x] =>
      destruct (drop_legs_spec r ids x) as (_ & _ & _ & A & _) end.
    intros Hc. unfold is_claimed. cbn. eapply (claimed_kept _ _ _ i A). done.
Qed.

Lemma carrier_steps_claimed i x y :
  rtc carrier_step x y → is_claimed i x.1 = true → is_claimed i y.1 = true.
Proof.
  induction 1 as [|x y z Hs _ IH]; [done|]. intros Hc. apply IH. clear IH z. inversion Hs; subst; cbn in *.
  - by eapply step_claimed.
  - match goal with H : acquireActive _ _ _ _ = _ |- _ => unfold acquireActive in H end.
    repeat (case_match; try done). by simplify_eq.
  - done.
Qed.
Lemma carrier_steps_inv x y : rtc carrier_step x y → relay_inv x.1 x.2 → relay_inv y.1 y.2.
Proof.
  induction 1 as [|[s o] [s' o'] z Hs _ IH]; [done|]. intros Hc. apply IH. by eapply carrier_step_inv.
Qed.

Lemma claimed_waits_nowhere s p k i : leg_inv s → is_claimed i s = true → ¬ waits s p k i.
Proof.
  intros [_ _ C _ _] Hc Hw. destruct (C _ _ _ Hw) as (l & Hl & Hcl & _). unfold is_claimed in Hc.
  rewrite Hl in Hc. congruence.
Qed.
Lemma removeLeg_claimed k i p s : is_claimed i s = true → removeLeg k i p s = (s, false).
Proof. intros Hc. unfold removeLeg. by rewrite Hc, andb_false_r. Qed.

(** What [sameRouteClaims] compares. *)
Lemma sameRouteClaims_spec a b :
  sameRouteClaims a b = true ↔
  claims_key a = claims_key b ∧ c_root a = c_root b ∧ c_limits a = c_limits b.
Proof.
  unfold sameRouteClaims, claims_key. rewrite !andb_true_iff, !bool_decide_eq_true. split.
  - intros (((-> & ->) & ->) & ->). done.
  - intros ([= -> ->] & -> & ->). done.
Qed.

(** ** The properties *)

(** C27. In every interleaving of the relay's handlers the counters are exact and bounded:
    while the relay runs, each queue's total and per-route counters equal the legs that
    wait and stay within the normalised limits, no leg waits twice or in both queues, and
    each waiting leg is unclaimed; at any time the active counters equal the carriers that
    still owe a release, in total and per route, and stay within their limits; a closed
    relay has no waiting leg. *)
Theorem relay_counters (s : Relay) (owing : list routeKey) :
  reachable s owing →
  (closed s = false → ∀ pair, let q := queue_of pair s in
     total q = sum_len (queue q) ∧ total q <= global_limit pair s
     ∧ ∀ key, cnt (perRoute q) key = Z.of_nat (length (waiting_at q key))
              ∧ cnt (perRoute q) key <= PerRoutePending (limits s))
  ∧ (closed s = true → ∀ pair key i, ¬ waits s pair key i)
  ∧ (∀ pair key, NoDup (waiting_at (queue_of pair s) key))
  ∧ (∀ key i, waits s true key i → ¬ waits s false key i)
  ∧ (∀ pair key i, waits s pair key i → is_claimed i s = false)
  ∧ active s = Z.of_nat (length owing) ∧ active s <= LActiveCarriers (limits s)
  ∧ ∀ key, cnt (activePerRoute s) key = owed key owing ∧ owed key owing <= PerRouteActive (limits s).
Proof.
  intros H%carriers_reachable_inv. destruct H as [[A B C D F] L E1 E2 E3 E4]. split_and!; try done.
  - intros Hc pair. destruct (A pair Hc) as [Q1 Q2 Q3 Q4]. unfold global_limit in *. split_and!; [done| |].
    + destruct pair; lia.
    + intros key. split; [done|]. specialize (Q4 key). lia.
  - intros Hc pair key i Hw. unfold waits, waiting_at in Hw. rewrite (B pair Hc), lookup_empty in Hw.
    by apply not_elem_of_nil in Hw.
  - intros pair key i Hw. destruct (C _ _ _ Hw) as (l & Hl & Hcl & _). unfold is_claimed. by rewrite Hl.
  - intros key. rewrite <-E2. done.
Qed.

(** C31. Promotion takes ownership once and for all: the leg [takeLeg] returns was waiting
    in that queue at that route, unclaimed, unexpired, for the same root and limits; every
    leg in front of it was expired or of other claims; exactly the legs behind it still
    wait. From then on, whatever handlers run, the leg is claimed, waits in no queue, and
    the expiry path [removeLeg] leaves it and the relay alone, at every route and queue. *)
Theorem takeLeg_owns (s : Relay) (owing : list routeKey) claims pair now s' i :
  reachable s owing →
  takeLeg (claims_key claims) pair claims now s = (s', Ok i) →
  let key := claims_key claims in
  (∃ leg pre post,
     waiting_at (queue_of pair s) key = pre ++ i :: post ∧ waiting_at (queue_of pair s') key = post
     ∧ Forall (λ j, usable now claims s j = false) pre
     ∧ legs s !! i = Some leg ∧ claimed leg = false ∧ now < l_expires leg
     ∧ claims_key (l_claims leg) = key ∧ c_root (l_claims leg) = c_root claims
     ∧ c_limits (l_claims leg) = c_limits claims)
  ∧ ∀ s'' owing'', rtc carrier_step (s', owing) (s'', owing'') →
      is_claimed i s'' = true ∧ ∀ p k, ¬ waits s'' p k i ∧ removeLeg k i p s'' = (s'', false).
Proof.
  intros Hr%carriers_reachable_inv Ht key. pose proof (ri_legs _ _ Hr) as Hi.
  assert (is_claimed i s' = true ∧ ∃ leg pre post,
     waiting_at (queue_of pair s) key = pre ++ i :: post ∧ waiting_at (queue_of pair s') key = post
     ∧ Forall (λ j, usable now claims s j = false) pre ∧ usable now claims s i = true
     ∧ legs s !! i = Some leg ∧ claimed leg = false) as (Hc & leg & pre & post & E1 & E2 & E3 & E4 & E5 & E6).
  { unfold takeLeg in Ht. destruct (checkAdmissionLocked claims s); [done|].
    pose proof (take_loop_spec key pair claims now (waiting_at (queue_of pair s) key) s) as [_ _ _ T4 T5].
    unfold key in *. rewrite Ht in T4, T5. cbn [fst snd] in *.
    destruct T5 as (pre & post & F1 & F2 & F3 & F4 & _). destruct Hi as [_ _ C _ _].
    destruct (C pair (claims_key claims) i) as (leg & G1 & G2 & _).
    { unfold waits. rewrite F1. apply elem_of_app. right. by left. }
    split.
    - specialize (T4 i). rewrite G1, bool_decide_eq_true_2 in T4 by done. unfold is_claimed.
      destruct (legs s' !! i); [|done]. tauto.
    - exists leg, pre, post. split_and!; try done. unfold waiting_at at 1. rewrite F4, waiting_at_set.
      by rewrite decide_True. }
  split.
  - exists leg, pre, post. unfold usable in E4. rewrite E5 in E4. apply andb_true_iff in E4 as [E4 E7].
    apply Z.ltb_lt in E4. apply sameRouteClaims_spec in E7. tauto.
  - intros s'' owing'' Hs. assert (is_claimed i s'' = true) as Hc'' by (by apply (carrier_steps_claimed i _ _ Hs)).
    assert (relay_inv s' owing) as Hr'.
    { eapply carrier_step_inv; [exact Hr|]. constructor.
      replace s' with (takeLeg (claims_key claims) pair claims now s).1 by (by rewrite Ht). constructor. }
    pose proof (carrier_steps_inv _ _ Hs Hr') as [Hl _ _ _ _ _]. cbn in Hl.
    split; [done|]. intros p k. split; [by apply claimed_waits_nowhere|by apply removeLeg_claimed].
Qed.

(** ** A leg enqueued, promoted and carried *)

Definition start : Relay :=
  MkRelay demo_key defaultLimits false ∅ ∅ ∅ ∅ empty_queue empty_queue 0 ∅ ∅ ∅ ∅ [].
Lemma start_reachable : reachable start [].
Proof. apply (R_new demo_key (MkLimits 0 0 0 0 0 0 0 0 0 0 0 0 0 0 0) []). vm_compute. reflexivity. Qed.

Definition demo_leg : waitingLeg := WaitingLeg 7 demo_claims None (demo_now + 30 * Second) None false.
Definition demo_waiting : Relay := (enqueueLeg (claims_key demo_claims) 0%nat demo_leg true start).1.
Definition demo_carrying : Relay := (acquireActive (claims_key demo_claims) demo_claims demo_claims demo_waiting).1.

Lemma waiting_reachable : reachable demo_waiting [].
Proof. eapply R_step; [apply start_reachable|]. apply C_step, S_enqueue; reflexivity. Qed.
Lemma carrying_reachable : reachable demo_carrying [claims_key demo_claims].
Proof.
  eapply R_step; [apply waiting_reachable|]. apply (C_acquire _ _ _ _ demo_claims demo_claims).
  apply pair_outcome. vm_compute. reflexivity.
Qed.

Lemma relay_counters_witness :
  reachable demo_carrying [claims_key demo_claims] ∧ active demo_carrying = 1
  ∧ total (pairing demo_carrying) = 1 ∧ ∀ i, waits demo_carrying true (claims_key demo_claims) i → is_claimed i demo_carrying = false.
Proof.
  pose proof (relay_counters demo_carrying _ carrying_reachable) as (H1 & _ & _ & _ & H5 & H6 & _).
  split; [apply carrying_reachable|]. split; [exact H6|]. split; [vm_compute; reflexivity|].
  intros i. apply H5.
Defined.

Lemma takeLeg_owns_witness :
  let key := claims_key demo_claims in
  let s' := (takeLeg key true demo_claims demo_now demo_waiting).1 in
  takeLeg key true demo_claims demo_now demo_waiting = (s', Ok 0%nat)
  ∧ waiting_at (queue_of true demo_waiting) key = [0%nat]
  ∧ removeLeg key 0 true s' = (s', false).
Proof.
  intros key s'.
  assert (takeLeg key true demo_claims demo_now demo_waiting = (s', Ok 0%nat)) as He.
  { apply pair_outcome. vm_compute. reflexivity. }
  split; [exact He|]. split; [vm_compute; reflexivity|].
  destruct (takeLeg_owns _ _ _ _ _ _ _ waiting_reachable He) as [_ H].
  apply (H s' []). apply rtc_refl.
Defined.
