(* ===== verification/PairRelayPools.v ===== *)
(** * The advertisement pools of the pairing relay

    The three pools of [advertisement_cache.go]: at most one entry per route, capacity of
    the protected and of the pending entries, one route per offer locator; kept by every
    handler. *)

From S2P Require Import Prelude GoIO Protocol Identifiers Sha256 Text PairToken PairWire PairRelay PairRelayLegs.

Abbreviation pool := (gmap routeKey advertisementRecord).

(** The policy of [key] keeps [r] in the protected pool. *)
Definition covered (adm : gmap routeKey AdmissionRecord) (key : routeKey) (r : advertisementRecord) : bool :=
  match adm !! key with
  | Some policy => approved_or_observed (status policy)
      && bool_decide (AdmissionRootSHA256 policy = hex_encode (arr_bytes (admissionHash r)))
  | None => false
  end.
Definition entry (A R P : pool) (key : routeKey) : option advertisementRecord :=
  match A !! key with
  | Some r => Some r
  | None => match R !! key with Some r => Some r | None => P !! key end
  end.
(** No other route offers the locator of [r]. *)
Definition locator_free (A R P : pool) (key : routeKey) (r : advertisementRecord) : Prop :=
  hasOffer r = true → ∀ k r', k ≠ key → entry A R P k = Some r' → hasOffer r' = true → offerLocator r' ≠ offerLocator r.

Record pool_ok (l : Limits) (adm : gmap routeKey AdmissionRecord) (A R P : pool) : Prop := {
  po_limit : 0 < PendingAdvertisements l ∧ 0 < Advertisements l;
  po_AR : A ##ₘ R; po_AP : A ##ₘ P; po_RP : R ##ₘ P;
  po_protected : ∀ key r, A !! key = Some r → covered adm key r = true;
  po_capacity : msize A + msize R <= Z.min (Advertisements l) MaxAdmissionRecords;
  po_pending : msize P <= PendingAdvertisements l;
  po_expiry : ∀ key r, entry A R P key = Some r → expires r <= signedExpires r;
  po_retained : ∀ key r, R !! key = Some r → hasOffer r = false;
  po_offer : ∀ key r, entry A R P key = Some r → locator_free A R P key r }.

Definition pool_inv (s : Relay) : Prop :=
  pool_ok (limits s) (admissions s) (advertisements s) (retainedAdvertisements s) (pendingAdvertisements s).
Definition pool_part (s : Relay) :=
  (limits s, admissions s, advertisements s, retainedAdvertisements s, pendingAdvertisements s).
Lemma pool_inv_ext s s' : pool_part s' = pool_part s → pool_inv s → pool_inv s'.
Proof. unfold pool_part, pool_inv. by intros [= -> -> -> -> ->]. Qed.

(** ** Pure changes of the pools *)

Lemma entry_sub (A R P A' R' P' : pool) key r :
  A ##ₘ R → A ##ₘ P → R ##ₘ P → A' ⊆ A → R' ⊆ R → P' ⊆ P → entry A' R' P' key = Some r → entry A R P key = Some r.
Proof.
  unfold entry. intros H1 H2 H3 HA HR HP He.
  destruct (A' !! key) eqn:E1; [by rewrite (lookup_weaken _ _ _ _ E1 HA)|].
  destruct (R' !! key) eqn:E2.
  - pose proof (lookup_weaken _ _ _ _ E2 HR) as E. rewrite (map_disjoint_Some_r _ _ _ _ H1 E), E. done.
  - pose proof (lookup_weaken _ _ _ _ He HP) as E.
    by rewrite (map_disjoint_Some_r _ _ _ _ H2 E), (map_disjoint_Some_r _ _ _ _ H3 E).
Qed.

Lemma msize_sub (m m' : pool) : m' ⊆ m → msize m' <= msize m.
Proof. intros H. unfold msize. apply inj_le. by apply map_subseteq_size. Qed.

(** Entries may go. *)
Lemma pool_sub l adm A R P A' R' P' :
  pool_ok l adm A R P → A' ⊆ A → R' ⊆ R → P' ⊆ P → pool_ok l adm A' R' P'.
Proof.
  intros [H0 H1 H2 H3 H4 H5 H6 H7 H8 H9] HA HR HP.
  pose proof (λ key r, entry_sub A R P A' R' P' key r H1 H2 H3 HA HR HP) as He.
  pose proof (msize_sub _ _ HA). pose proof (msize_sub _ _ HR). pose proof (msize_sub _ _ HP).
  split; [done|..|lia|lia| | |].
  - by eapply map_disjoint_weaken; [exact H1|..].
  - by eapply map_disjoint_weaken; [exact H2|..].
  - by eapply map_disjoint_weaken; [exact H3|..].
  - intros key r Hk. eapply H4, lookup_weaken; done.
  - intros key r Hk. by eapply H7, He.
  - intros key r Hk. eapply H8, lookup_weaken; done.
  - intros key r Hk Ho k r' Hne Hk' Ho'. exact (H9 key r (He _ _ Hk) Ho k r' Hne (He _ _ Hk') Ho').
Qed.

Lemma entry_None A R P key : entry A R P key = None → A !! key = None ∧ R !! key = None ∧ P !! key = None.
Proof. unfold entry. destruct (A !! key), (R !! key); done. Qed.

Lemma msize_fresh (m : pool) key r : m !! key = None → msize (<[key := r]> m) = msize m + 1.
Proof. intros H. unfold msize. rewrite map_size_insert_None by done. lia. Qed.

Lemma locator_add A R P key r (E : routeKey → option advertisementRecord) :
  (∀ k, E k = if decide (key = k) then Some r else entry A R P k) →
  locator_free A R P key r →
  (∀ k r', entry A R P k = Some r' → locator_free A R P k r') →
  ∀ k1 r1, E k1 = Some r1 → hasOffer r1 = true → ∀ k2 r2, k2 ≠ k1 → E k2 = Some r2 → hasOffer r2 = true →
  offerLocator r2 ≠ offerLocator r1.
Proof.
  intros HE Hf Ho k1 r1 H1 O1 k2 r2 Hne H2 O2. rewrite HE in H1, H2.
  destruct (decide (key = k1)), (decide (key = k2)); subst; simplify_eq.
  - by apply (Hf O1 k2).
  - intros He. by apply (Hf O2 k1 r1).
  - by apply (Ho k1 r1 H1 O1 k2).
Qed.

Lemma pool_add_protected l adm A R P key r :
  pool_ok l adm A R P → entry A R P key = None → covered adm key r = true →
  msize A + msize R < Z.min (Advertisements l) MaxAdmissionRecords → expires r <= signedExpires r →
  locator_free A R P key r → pool_ok l adm (<[key := r]> A) R P.
Proof.
  intros [H0 H1 H2 H3 H4 H5 H6 H7 H8 H9] (NA & NR & NP)%entry_None Hc Hs He Hf.
  assert (∀ k, entry (<[key := r]> A) R P k = if decide (key = k) then Some r else entry A R P k) as HE.
  { intros k. unfold entry. rewrite lookup_insert. by case_decide. }
  split; try done.
  - by apply map_disjoint_insert_l_2.
  - by apply map_disjoint_insert_l_2.
  - intros k r' Hk. rewrite lookup_insert in Hk. case_decide; simplify_eq; [done|]. by apply H4.
  - rewrite msize_fresh by done. lia.
  - intros k r' Hk. rewrite HE in Hk. case_decide; simplify_eq; [done|]. by eapply H7.
  - intros k1 r1 K1 O1 k2 r2. by eapply (locator_add A R P key r _ HE).
Qed.

Lemma pool_add_pending l adm A R P key r :
  pool_ok l adm A R P → entry A R P key = None →
  msize P < PendingAdvertisements l → expires r <= signedExpires r →
  locator_free A R P key r → pool_ok l adm A R (<[key := r]> P).
Proof.
  intros [H0 H1 H2 H3 H4 H5 H6 H7 H8 H9] (NA & NR & NP)%entry_None Hs He Hf.
  assert (∀ k, entry A R (<[key := r]> P) k = if decide (key = k) then Some r else entry A R P k) as HE.
  { intros k. unfold entry. rewrite lookup_insert. case_decide; [subst; by rewrite NA, NR|done]. }
  split; try done.
  - by apply map_disjoint_insert_r_2.
  - by apply map_disjoint_insert_r_2.
  - rewrite msize_fresh by done. lia.
  - intros k r' Hk. rewrite HE in Hk. case_decide; simplify_eq; [done|]. by eapply H7.
  - intros k1 r1 K1 O1 k2 r2. by eapply (locator_add A R P key r _ HE).
Qed.

Lemma pool_add_retained l adm A R P key r :
  pool_ok l adm A R P → entry A R P key = None → hasOffer r = false →
  msize A + msize R < Z.min (Advertisements l) MaxAdmissionRecords → expires r <= signedExpires r →
  pool_ok l adm A (<[key := r]> R) P.
Proof.
  intros [H0 H1 H2 H3 H4 H5 H6 H7 H8 H9] (NA & NR & NP)%entry_None Hn Hs He.
  assert (∀ k, entry A (<[key := r]> R) P k = if decide (key = k) then Some r else entry A R P k) as HE.
  { intros k. unfold entry. rewrite lookup_insert. case_decide; [subst; by rewrite NA|done]. }
  split; try done.
  - by apply map_disjoint_insert_r_2.
  - by apply map_disjoint_insert_l_2.
  - rewrite msize_fresh by done. lia.
  - intros k r' Hk. rewrite HE in Hk. case_decide; simplify_eq; [done|]. by eapply H7.
  - intros k r' Hk. rewrite lookup_insert in Hk. case_decide; simplify_eq; [done|]. by eapply H8.
  - intros k1 r1 K1 O1 k2 r2. eapply (locator_add A R P key r _ HE); try done. unfold locator_free. by rewrite Hn.
Qed.

(** The policy may change while it covers what is protected. *)
Lemma pool_policy l adm adm' A R P :
  pool_ok l adm A R P → (∀ key r, A !! key = Some r → covered adm' key r = true) → pool_ok l adm' A R P.
Proof. intros [H0 H1 H2 H3 H4 H5 H6 H7 H8 H9] H. by split. Qed.

(** The entry of one route removed from every pool. *)
Lemma pool_drop key l adm A R P :
  pool_ok l adm A R P →
  pool_ok l adm (delete key A) (delete key R) (delete key P)
  ∧ entry (delete key A) (delete key R) (delete key P) key = None.
Proof.
  intros H. split; [apply (pool_sub l adm A R P); try done; apply delete_subseteq|].
  unfold entry. by rewrite !lookup_delete_eq.
Qed.

Lemma locator_drop A R P key r :
  A ##ₘ R → A ##ₘ P → R ##ₘ P →
  locator_free A R P key r → locator_free (delete key A) (delete key R) (delete key P) key r.
Proof.
  intros H1 H2 H3 Hf Ho k r' Hne He Ho'. apply (Hf Ho k r' Hne); [|done].
  refine (entry_sub A R P _ _ _ k r' H1 H2 H3 _ _ _ He); apply delete_subseteq.
Qed.

Lemma msize_delete (m : pool) key : msize (delete key m) = msize m - (if has m key then 1 else 0).
Proof.
  unfold msize, has. destruct (m !! key) as [r|] eqn:E.
  - rewrite bool_decide_eq_true_2 by (by eexists). rewrite map_size_delete_Some by done.
    assert (size m ≠ 0)%nat; [|lia]. intros H0%map_size_empty_inv. by subst; rewrite lookup_empty in E.
  - rewrite bool_decide_eq_false_2 by (by intros [? ?]). rewrite delete_id by done. lia.
Qed.
Lemma has_None {A} (m : gmap routeKey A) key : m !! key = None → has m key = false.
Proof. unfold has. intros ->. by apply bool_decide_eq_false_2; intros [? ?]. Qed.
Lemma has_Some {A} (m : gmap routeKey A) key r : m !! key = Some r → has m key = true.
Proof. unfold has. intros ->. by apply bool_decide_eq_true_2; eexists. Qed.

(** ** The relay's operations *)

Lemma advertisementExpiry_le now signed ttl : advertisementExpiry now signed ttl <= signed.
Proof. unfold advertisementExpiry. case_guard G; bool_prop; lia. Qed.

Lemma protect_pools key r now s :
  pool_inv s → covered (admissions s) key r = true → protectedAdvertisementCapacityLocked key s = true →
  locator_free (advertisements s) (retainedAdvertisements s) (pendingAdvertisements s) key r →
  pool_inv (protect key r now s).
Proof.
  unfold pool_inv. intros Hi Hc Hs Hf. unfold protect. cbn. rewrite <-insert_delete_eq.
  destruct (pool_drop key _ _ _ _ _ Hi) as [Hd Hn].
  apply pool_add_protected; try done.
  - rewrite !msize_delete. unfold protectedAdvertisementCapacityLocked, registrationLimit in Hs.
    pose proof (po_capacity _ _ _ _ _ Hi).
    destruct (has (advertisements s) key), (has (retainedAdvertisements s) key); cbn in Hs; bool_prop; lia.
  - cbn. apply advertisementExpiry_le.
  - apply locator_drop; [apply Hi..|]. exact Hf.
Qed.

(** What [evict_key] names is an entry. *)
Lemma evict_key_has (P : pool) : P ≠ ∅ → is_Some (P !! evict_key P).
Proof.
  intros Hne. unfold evict_key. set (f := λ (acc : routeKey * Z) (kv : routeKey * advertisementRecord),
    if is_zero acc.2 || (expires kv.2 <? acc.2) then (kv.1, expires kv.2) else acc).
  assert (∀ l acc, (foldl f acc l).1 = acc.1 ∨ (foldl f acc l).1 ∈ l.*1) as Hfold.
  { induction l as [|kv l IH]; intros acc; [by left|]. cbn.
    destruct (IH (f acc kv)) as [-> | Hin]; [|right; by right].
    assert (f acc kv = (kv.1, expires kv.2) ∨ f acc kv = acc) as [-> | ->]; [|right; by left|by left].
    unfold f. case_guard G; [by left|by right]. }
  destruct (map_to_list P) as [|kv l] eqn:El; [by apply map_to_list_empty_iff in El|].
  assert (∀ k, k ∈ (map_to_list P).*1 → is_Some (P !! k)) as Hin.
  { intros k ([k' r] & -> & Hkv)%list_elem_of_fmap. apply elem_of_map_to_list in Hkv. by eexists. }
  apply Hin. rewrite El. cbn [foldl].
  assert (f ((arr_zero IDSize, arr_zero IDSize) : routeKey, - unixToInternal * Second) kv = (kv.1, expires kv.2)) as -> by done.
  destruct (Hfold l (kv.1, expires kv.2)) as [-> | H]; [by left|by right].
Qed.

Lemma store_pools key r now s :
  pool_inv s → locator_free (advertisements s) (retainedAdvertisements s) (pendingAdvertisements s) key r →
  pool_inv (storePendingAdvertisementLocked key r now s).
Proof.
  unfold pool_inv. intros Hi Hf. unfold storePendingAdvertisementLocked. cbv zeta.
  set (A := advertisements s). set (R := retainedAdvertisements s). set (P := pendingAdvertisements s).
  match goal with |- context [<[key := _]> ?x] => set (P1 := x) end. cbn. rewrite <-insert_delete_eq.
  destruct (pool_drop key _ _ _ _ _ Hi) as [Hd Hn]. fold A R P in Hd, Hn.
  assert (P1 ⊆ P) as Hsub.
  { unfold P1. case_guard G; [|done]. apply delete_subseteq. }
  assert (pool_ok (limits s) (admissions s) (delete key A) (delete key R) (delete key P1)) as Hd1.
  { apply (pool_sub _ _ _ _ _ _ _ _ Hd); [done..|]. by apply delete_mono. }
  apply pool_add_pending; try done.
  - unfold entry. by rewrite !lookup_delete_eq.
  - pose proof (po_pending _ _ _ _ _ Hi) as Hp. fold P in Hp. pose proof (po_limit _ _ _ _ _ Hi) as [Hl _].
    rewrite msize_delete. unfold P1. destruct (has P key) eqn:Hk; cbn [negb andb]; [rewrite Hk; lia|].
    case_guard G; bool_prop.
    + rewrite !msize_delete.
      assert (has P (evict_key P) = true) as ->.
      { destruct (evict_key_has P) as [r' Hr]; [|by eapply has_Some]. intros HP0. rewrite HP0 in G. unfold msize in G.
        rewrite map_size_empty in G. lia. }
      destruct (has (delete (evict_key P) P) key); lia.
    + rewrite Hk. lia.
  - cbn. apply advertisementExpiry_le.
  - intros Ho k r' Hne He Ho'. cbn in *. apply (Hf Ho k r' Hne); [|done].
    refine (entry_sub A R P _ _ _ k r' _ _ _ _ _ _ He); try apply Hi; try apply delete_subseteq.
    etrans; [apply delete_subseteq|done].
Qed.

Lemma locator_taken_false (key : routeKey) (loc : arr 32) (m : pool) :
  locator_taken key loc m = false →
  ∀ k r, m !! k = Some r → k ≠ key → hasOffer r = true → offerLocator r ≠ loc.
Proof.
  unfold locator_taken. intros Hf k r Hk Hne Ho He.
  assert (existsb (λ kv, bool_decide (kv.1 ≠ key) && hasOffer kv.2 && bool_decide (offerLocator kv.2 = loc))
    (map_to_list m) = true); [|congruence].
  apply existsb_exists. exists (k, r). split.
  - apply list_elem_of_In. by apply elem_of_map_to_list.
  - cbn. rewrite Ho, !bool_decide_eq_true_2 by done. done.
Qed.

Lemma entry_in A R P k r : entry A R P k = Some r → A !! k = Some r ∨ R !! k = Some r ∨ P !! k = Some r.
Proof. unfold entry. destruct (A !! k), (R !! k); naive_solver. Qed.

Lemma cache_pools key r now s : pool_inv s → pool_inv (cacheAdvertisementLocked key r now s).1.
Proof.
  intros Hi. unfold cacheAdvertisementLocked. cbv zeta.
  match goal with |- context [if ?b then (s, Some ErrUnauthorized) else _] => destruct b; [done|] end.
  destruct (has (retainedAdvertisements s) key); [done|].
  match goal with |- context [match ?x with None => (s, Some ErrUnavailable) | _ => _ end] =>
    destruct x as [r'|]; [|done] end.
  match goal with |- context [if ?b then (s, Some ErrUnavailable) else _] => destruct b eqn:Hl; [done|] end.
  assert (locator_free (advertisements s) (retainedAdvertisements s) (pendingAdvertisements s) key r') as Hf.
  { intros Ho k r2 Hne He Ho2. rewrite Ho in Hl. cbn in Hl. bool_prop.
    apply entry_in in He as [He|[He|He]];
      match goal with H : locator_taken _ _ ?m = false, He : ?m !! _ = Some _ |- _ =>
        exact (locator_taken_false _ _ _ H _ _ He Hne Ho2) end. }
  destruct (protectedAdvertisementLocked key r' s) eqn:Hp.
  - destruct (protectedAdvertisementCapacityLocked key s) eqn:Hcap; [|done]. by apply protect_pools.
  - by apply store_pools.
Qed.

(** Promotion under a policy [adm] that covers what is protected. *)
Lemma promote_pools key now s :
  pool_inv s →
  (∀ r, advertisementLocked key s = Some r → covered (admissions s) key r = true →
        protectedAdvertisementCapacityLocked key s = true) →
  pool_inv (promoteAdvertisementLocked key now s).
Proof.
  intros Hi Hcap. unfold promoteAdvertisementLocked. cbv zeta.
  match goal with |- context [match ?x with None => s | _ => _ end] => destruct x as [r|] eqn:Er; [|done] end.
  destruct (protectedAdvertisementLocked key r s) eqn:Hp; [|done].
  assert (entry (advertisements s) (retainedAdvertisements s) (pendingAdvertisements s) key = Some r) as He.
  { pose proof Hi as [_ D1 D2 D3 _ _ _ _ _ _]. unfold entry.
    destruct (pendingAdvertisements s !! key) eqn:E1; simplify_eq.
    - rewrite (map_disjoint_Some_r _ _ _ _ D2 E1), (map_disjoint_Some_r _ _ _ _ D3 E1). done.
    - by rewrite (map_disjoint_Some_r _ _ _ _ D1 Er), Er. }
  apply protect_pools; try done; [by apply (Hcap r)|]. by eapply po_offer.
Qed.

Lemma covered_next (key : routeKey) (next : AdmissionRecord) (adm : gmap routeKey AdmissionRecord) (r : advertisementRecord) :
  covered (<[key := next]> adm) key r
  = approved_or_observed (status next) && bool_decide (AdmissionRootSHA256 next = hex_encode (arr_bytes (admissionHash r))).
Proof. unfold covered. by rewrite lookup_insert_eq. Qed.

Lemma save_pools key next saved now s :
  pool_inv s → status next ≠ Removed →
  (∀ p, admissions s !! key = Some p → AdmissionRootSHA256 next = AdmissionRootSHA256 p) →
  pool_inv (saveAdmissionLocked key next saved now s).1.
Proof.
  intros Hi Hst Hroot. unfold saveAdmissionLocked. cbv zeta.
  match goal with |- context [if ?b then (s, Some ErrCapacity) else _] => destruct b; [done|] end.
  match goal with |- context [if ?b then (s, Some ErrCapacity) else _] => destruct b eqn:Hover; [done|] end.
  assert (∀ r, advertisementLocked key s = Some r → covered (<[key := next]> (admissions s)) key r = true →
    protectedAdvertisementCapacityLocked key s = true) as Hcap.
  { intros r Hr. rewrite covered_next. intros Hc. rewrite Hr, Hc in Hover. cbn in Hover.
    by destruct (protectedAdvertisementCapacityLocked key s). }
  destruct (bool_decide (admissions s !! key = Some next) && bool_decide (status next ≠ Removed)) eqn:Hsame.
  { bool_prop. apply promote_pools; [done|]. intros r Hr Hc. apply (Hcap r Hr). by rewrite insert_id. }
  destruct saved; cbn [negb fst].
  - apply promote_pools; [|exact Hcap]. apply (pool_policy (limits s) (admissions s)); [exact Hi|].
    intros k r Hk. pose proof (po_protected _ _ _ _ _ Hi k r Hk) as Hc.
    change (covered (<[key := next]> (admissions s)) k r = true).
    destruct (decide (key = k)) as [<-|Hne].
    + rewrite covered_next. unfold covered in Hc. destruct (admissions s !! key) as [p|]; [|done].
      rewrite (Hroot p eq_refl). apply andb_true_iff in Hc as [_ ->]. by destruct (status next).
    + unfold covered in *. by rewrite lookup_insert_ne.
  - rewrite bool_decide_eq_true_2 by done. revert Hi. apply pool_inv_ext. unfold pool_part. cbn. f_equal. f_equal. f_equal. f_equal.
    destruct (admissions s !! key) as [p|] eqn:Ep.
    + rewrite insert_insert_eq. by apply insert_id.
    + by apply delete_insert_id.
Qed.

Lemma expire_pools now s : pool_inv s → pool_inv (expireAdvertisementsLocked now s).
Proof.
  intros Hi. apply (pool_sub _ _ _ _ _ _ _ _ Hi); apply map_filter_subseteq.
Qed.

Lemma record_pools claims st saved now s :
  pool_inv s → st ≠ Removed → pool_inv (recordClaimsLocked claims st saved now s).1.
Proof.
  intros Hi Hst. unfold recordClaimsLocked. destruct (checkAdmissionLocked claims s) eqn:Hc; [done|]. cbv zeta.
  unfold checkAdmissionLocked in Hc. destruct (closed s); [done|].
  destruct (admissions s !! claims_key claims) as [p|] eqn:Hp.
  - match type of Hc with (if ?b then _ else _) = _ => destruct b eqn:G; [done|] end.
    apply orb_false_iff in G as [G _]. apply orb_false_iff in G as [G _]. bool_prop.
    apply save_pools; [done| |].
    + destruct (bool_decide (st = Observed)); cbn; congruence.
    + intros p' Hp'. rewrite Hp in Hp'. simplify_eq. destruct (bool_decide (st = Observed)); cbn; congruence.
  - apply save_pools; [done| |].
    + destruct (bool_decide (st = Observed)); cbn; congruence.
    + intros p' Hp'. congruence.
Qed.

Lemma publish_pools e v now s : pool_inv s → pool_inv (publishAdvertisement e v now s).1.
Proof.
  intros Hi. unfold publishAdvertisement. case_guard G; [done|]. destruct (fresh_descriptor v now); [|done].
  case_guard G1; [done|]. case_guard G2; [done|]. by apply cache_pools, expire_pools.
Qed.
Lemma fetch_pools t now s : pool_inv s → pool_inv (fetchAdvertisement t now s).1.
Proof.
  intros Hi. pose proof (expire_pools now s Hi). unfold fetchAdvertisement. by repeat (case_match; try done).
Qed.
Lemma fetch_offer_pools l now s : pool_inv s → pool_inv (fetchOffer l now s).1.
Proof. intros Hi. pose proof (expire_pools now s Hi). unfold fetchOffer. by repeat (case_match; try done). Qed.
Lemma fetch_registration_pools a v now s : pool_inv s → pool_inv (fetchRegistration a v now s).1.
Proof. intros Hi. pose proof (expire_pools now s Hi). unfold fetchRegistration. by repeat (case_match; try done). Qed.

Lemma publish_offer_pools o t v now s : pool_inv s → pool_inv (publishOffer o t v now s).1.
Proof.
  intros Hi. pose proof (expire_pools now s Hi) as He.
  unfold publishOffer. case_guard G; [done|]. destruct (fresh_descriptor v now) as [d|]; [|done].
  case_guard G1; [done|]. cbv zeta.
  match goal with |- context [match ?x with Ok _ => _ | Err _ => _ end] => destruct x as [restored|]; [|done] end.
  case_guard G2; [done|].
  match goal with |- context [match ?x with Some e => (s, Some e) | None => _ end] => destruct x; [done|] end.
  match goal with |- context [if ?b then (s, Some ErrUnauthorized) else _] => destruct b; [done|] end.
  match goal with |- context [match ?x with Some e => (expireAdvertisementsLocked now s, Some e) | None => _ end] =>
    destruct x; [done|] end.
  match goal with |- context [cacheAdvertisementLocked ?k ?r ?n ?x] =>
    pose proof (cache_pools k r n x He) as Hp; destruct (cacheAdvertisementLocked k r n x) as [s' [e|]] end; [done|].
  by destruct restored as [[]|].
Qed.

Lemma register_pools r l v d saved info now now' s :
  pool_inv s → pool_inv (RegisterReceiver r l v d saved info now now' s).1.
Proof.
  intros Hi. unfold RegisterReceiver. case_guard G; [done|]. cbv zeta. case_guard G1; [done|].
  set (n := unix_sec now * Second). apply (expire_pools n) in Hi. set (s1 := expireAdvertisementsLocked n s) in *.
  clearbody s1.
  match goal with |- context [match ?x with [] => _ | _ => _ end] => destruct x as [|[key selected] [|]] end; try done.
  case_guard G2; [done|]. case_guard G3; [done|]. destruct (fresh_descriptor d n) as [d'|]; [|done].
  case_guard G4; [done|].
  match goal with |- context [match ?x with Some _ => _ | None => _ end] =>
    match type of x with option (TokenClaims * list byte) => destruct x as [[claims token]|] end end.
  - case_guard G5; [done|]. pose proof (record_pools claims Approved saved now' s1 Hi) as Hp.
    destruct (recordClaimsLocked _ _ _ _ _) as [s2 [e|]]; by apply Hp.
  - match goal with |- context [if ?b then (s1, Err ErrUnauthorized) else _] => destruct b eqn:Hroot; [done|] end.
    match goal with |- context [if ?b then (s1, Err ErrUnavailable) else _] => destruct b; [done|] end.
    destruct (IssueToken _ _ _) as [token|]; [|done].
    match goal with |- context [saveAdmissionLocked ?k ?p ?sv ?n ?x] =>
      assert (pool_inv (saveAdmissionLocked k p sv n x).1) as Hp; [|destruct (saveAdmissionLocked k p sv n x) as [s2 [e|]]] end;
      [|done|by destruct info].
    apply save_pools; [done| |].
    + destruct (admissions s1 !! key) as [p|]; [|done]. cbn. by destruct (status p).
    + intros p Hp. rewrite Hp in *. bool_prop. done.
Qed.

Lemma renew_pools t claims peer saved now now' s :
  pool_inv s → pool_inv (renew t claims peer saved now now' s).1.
Proof.
  intros Hi. unfold renew. cbv zeta. destruct (checkAdmissionLocked _ _); [done|].
  destruct (RenewToken _ _ _ _ _); [|done]. destruct (VerifyToken _ _ _) as [c|]; [|done].
  pose proof (record_pools c Observed saved now' s Hi) as Hp.
  destruct (recordClaimsLocked _ _ _ _ _) as [s2 [e|]]; by apply Hp.
Qed.

(** ** Removal *)

(** A removed policy is stored whether or not the save succeeds, and promotes nothing. *)
Lemma save_removed key next saved now s p :
  admissions s !! key = Some p → status next = Removed →
  saveAdmissionLocked key next saved now s
  = (s <| admissions := <[key := next]> (admissions s) |>, if saved then None else Some ErrUnavailable).
Proof.
  intros Hp Hst. unfold saveAdmissionLocked. cbv zeta. rewrite Hst, (has_Some _ _ _ Hp). cbn [negb andb approved_or_observed].
  rewrite (bool_decide_eq_false_2 (Removed ≠ Removed)) by tauto. rewrite andb_false_r.
  destruct (advertisementLocked key s); destruct saved; cbn [negb]; try done;
    unfold promoteAdvertisementLocked, protectedAdvertisementLocked; cbn; rewrite lookup_insert_eq, Hst; by repeat case_match.
Qed.

(** [RemoveAdmission] up to the two purges. *)
Definition removed_record (record : AdmissionRecord) (now : Z) : AdmissionRecord :=
  record <| status := Removed |>
         <| RejectIssuedThrough := Z.max (Z.max (RejectIssuedThrough record) (LastIssuedUnix record)) (unix_sec now) |>.
Definition unadmit (key : routeKey) (record : AdmissionRecord) (s : Relay) : Relay :=
  let s := s <| admissions := <[key := record]> (admissions s) |> <| registrations := delete key (registrations s) |> in
  let s := match advertisementLocked key s with
    | Some ad =>
        let kept := if protectedAdvertisementCapacityLocked key s
                    then <[key := ad <| hasOffer := false |>]> (retainedAdvertisements s)
                    else retainedAdvertisements s in
        s <| retainedAdvertisements := kept |> <| advertisements := delete key (advertisements s) |>
          <| pendingAdvertisements := delete key (pendingAdvertisements s) |>
    | None => s
    end in
  s <| shut := elements (default ∅ (routeConnections s !! key)) ++ shut s |>.

Lemma RemoveAdmission_unfold (receiver : ID) (route : RouteID) saved now saveNow s record :
  zeroID receiver = false → zeroID route = false → closed s = false →
  admissions s !! ((receiver, route) : routeKey) = Some record →
  RemoveAdmission receiver route saved now saveNow s
  = (purge_queue (receiver, route) false (purge_queue (receiver, route) true
       (unadmit (receiver, route) (removed_record record now) s)), if saved then None else Some ErrUnavailable).
Proof.
  intros H1 H2 H3 H4. unfold RemoveAdmission. rewrite H1, H2, H3. cbn [orb]. cbv zeta.
  match goal with |- context [admissions s !! ?k] => replace (admissions s !! k) with (Some record) by exact (eq_sym H4) end.
  by erewrite save_removed.
Qed.

Lemma unadmit_pools key record s : pool_inv s → pool_inv (unadmit key record s).
Proof.
  intros Hi. unfold pool_inv, unadmit. cbv zeta.
  match goal with |- context [advertisementLocked key ?x] => set (s1 := x) end.
  change (advertisementLocked key s1) with (entry (advertisements s) (retainedAdvertisements s) (pendingAdvertisements s) key).
  assert (∀ k r, delete key (advertisements s) !! k = Some r → covered (<[key := record]> (admissions s)) k r = true) as Hcov.
  { intros k r [Hne Hk]%lookup_delete_Some. unfold covered. rewrite lookup_insert_ne by done.
    by apply (po_protected _ _ _ _ _ Hi). }
  destruct (entry _ _ _ key) as [ad|] eqn:He.
  - cbn. pose proof (pool_drop key _ _ _ _ _ Hi) as [Hd Hn]. apply (pool_policy _ _ _ _ _ _) with (2 := Hcov) in Hd.
    pose proof (po_capacity _ _ _ _ _ Hi) as Hcap. pose proof (po_expiry _ _ _ _ _ Hi key ad He) as Hexp.
    change (protectedAdvertisementCapacityLocked key s1) with (protectedAdvertisementCapacityLocked key s).
    destruct (protectedAdvertisementCapacityLocked key s) eqn:Hp; unfold protectedAdvertisementCapacityLocked, registrationLimit in Hp.
    + change (retainedAdvertisements s1) with (retainedAdvertisements s).
      rewrite <-(insert_delete_eq (retainedAdvertisements s)).
      apply pool_add_retained; try done. rewrite !msize_delete.
      destruct (has (advertisements s) key), (has (retainedAdvertisements s) key); cbn in Hp; bool_prop; lia.
    + apply orb_false_iff in Hp as [Hp _]. apply orb_false_iff in Hp as [_ Hp].
      assert (retainedAdvertisements s !! key = None) as HR.
      { destruct (retainedAdvertisements s !! key) eqn:E; [|done]. apply has_Some in E. congruence. }
      rewrite (delete_id (retainedAdvertisements s)) in Hd by done. exact Hd.
  - apply entry_None in He as (HA & _). rewrite delete_id in Hcov by done. by apply (pool_policy _ (admissions s)).
Qed.

Lemma rest_pools s s' : rest s' = rest s → pool_part s' = pool_part s.
Proof. unfold rest, pool_part. congruence. Qed.

Lemma remove_pools r q saved now now' s : pool_inv s → pool_inv (RemoveAdmission r q saved now now' s).1.
Proof.
  intros Hi. destruct (zeroID r) eqn:Hr; [by unfold RemoveAdmission; rewrite Hr|].
  destruct (zeroID q) eqn:Hq; [by unfold RemoveAdmission; rewrite Hr, Hq|].
  destruct (closed s) eqn:Hc; [by unfold RemoveAdmission; rewrite Hr, Hq, Hc|].
  destruct (admissions s !! (r, q)) as [record|] eqn:Ha; [|by unfold RemoveAdmission; rewrite Hr, Hq, Hc; cbn; rewrite Ha].
  rewrite (RemoveAdmission_unfold _ _ _ _ _ _ record) by done. cbn [fst].
  set (s2 := unadmit _ _ s).
  destruct (purge_spec (r, q) true s2) as (R1 & _).
  destruct (purge_spec (r, q) false (purge_queue (r, q) true s2)) as (R2 & _).
  apply (pool_inv_ext s2); [apply rest_pools; by rewrite R2, R1|]. by apply unadmit_pools.
Qed.

Lemma close_pools s : pool_inv s → pool_inv (Close s).1.
Proof.
  intros Hi. unfold Close. destruct (closed s); [done|]. cbv zeta. cbn [fst].
  match goal with |- context [drop_legs ?r ?ids ?x] =>
    destruct (drop_legs_spec r ids x) as (A & _); apply rest_pools in A; set (s1 := drop_legs r ids x) in * end.
  unfold pool_part in A. injection A as E1 E2 E3 E4 E5. unfold pool_inv. cbn. rewrite E1, E2. cbn.
  apply (pool_sub _ _ _ _ _ _ _ _ Hi); apply map_empty_subseteq.
Qed.

Lemma step_pools s s' : pool_inv s → step s s' → pool_inv s'.
Proof.
  intros Hi Hs. destruct Hs.
  - by apply publish_pools.
  - by apply fetch_pools.
  - by apply publish_offer_pools.
  - by apply fetch_offer_pools.
  - by apply register_pools.
  - by apply fetch_registration_pools.
  - by apply record_pools.
  - by apply renew_pools.
  - by apply remove_pools.
  - revert Hi. apply pool_inv_ext. unfold trackRouteConnection. by case_match.
  - done.
  - revert Hi. apply pool_inv_ext. unfold enqueueLeg. destruct (checkAdmissionLocked _ _); [done|]. cbv zeta.
    match goal with |- context [if ?b then (s, Some ErrCapacity) else _] => by destruct b, pair end.
  - revert Hi. apply pool_inv_ext, rest_pools. unfold removeLeg. case_guard G; [|done]. cbn [fst].
    by rewrite rest_close_conn, rest_set_queue.
  - revert Hi. apply pool_inv_ext, rest_pools. unfold takeLeg. case_match; [done|]. apply take_loop_spec.
  - revert Hi. apply pool_inv_ext, rest_pools, rest_update_leg.
  - by apply close_pools.
Qed.
