(* ===== verification/PairRelaySafety.v ===== *)
(** * Admission policy and advertisement pools: the properties

    Removal is final for everything issued before it; the pools keep their invariant in
    every interleaving; publishing at one route leaves the others alone. *)

From S2P Require Import Prelude GoIO Protocol Identifiers Sha256 Text PairToken PairWire PairRelay.
From S2P Require Import PairRelayLegs PairRelayPools.

(** ** Policies only get stricter *)

Definition record_le (p p' : AdmissionRecord) : Prop :=
  AdmissionRootSHA256 p' = AdmissionRootSHA256 p ∧ RejectIssuedThrough p <= RejectIssuedThrough p'
  ∧ LastIssuedUnix p <= LastIssuedUnix p'.
#[export] Instance record_le_preorder : PreOrder record_le.
Proof. split; [intros p; unfold record_le; split_and!; done || lia|]. intros p q r. unfold record_le. intuition (congruence || lia). Qed.

Definition policy_le (s s' : Relay) : Prop :=
  ∀ key p, admissions s !! key = Some p → ∃ p', admissions s' !! key = Some p' ∧ record_le p p'.
#[export] Instance policy_le_preorder : PreOrder policy_le.
Proof.
  split.
  - intros s key p Hp. exists p. split; [done|reflexivity].
  - intros s1 s2 s3 H1 H2 key p Hp. destruct (H1 _ _ Hp) as (p2 & Hp2 & Hle). destruct (H2 _ _ Hp2) as (p3 & Hp3 & Hle2).
    exists p3. split; [done|by etrans].
Qed.
Lemma policy_le_eq s s' : admissions s' = admissions s → policy_le s s'.
Proof. intros He key p Hp. exists p. rewrite He. split; [done|reflexivity]. Qed.

Lemma promote_admissions key now s : admissions (promoteAdvertisementLocked key now s) = admissions s.
Proof. unfold promoteAdvertisementLocked, protect. repeat (case_match; try done). Qed.
Lemma cache_admissions key r now s : admissions (cacheAdvertisementLocked key r now s).1 = admissions s.
Proof.
  unfold cacheAdvertisementLocked, protect, storePendingAdvertisementLocked. repeat (case_match; simplify_eq/=; try done).
Qed.

Lemma save_policy key next saved now s :
  (∀ p, admissions s !! key = Some p → record_le p next) → policy_le s (saveAdmissionLocked key next saved now s).1.
Proof.
  intros Hle. assert (∀ s', admissions s' = <[key := next]> (admissions s) → policy_le s s') as Hins.
  { intros s' He k p Hp. rewrite He, lookup_insert. case_decide; [subst; eauto|]. exists p. split; [done|reflexivity]. }
  unfold saveAdmissionLocked. cbv zeta.
  match goal with |- context [if ?b then (s, Some ErrCapacity) else _] => destruct b; [done|] end.
  match goal with |- context [if ?b then (s, Some ErrCapacity) else _] => destruct b; [done|] end.
  match goal with |- context [if ?b then (promoteAdvertisementLocked _ _ s, None) else _] =>
    destruct b; [apply policy_le_eq, promote_admissions|] end.
  destruct saved; cbn [negb fst]; [apply Hins; by rewrite promote_admissions|].
  case_guard G; [|by apply Hins]. apply policy_le_eq. cbn.
  destruct (admissions s !! key) eqn:E; [by rewrite insert_insert_eq, insert_id|by rewrite delete_insert_id].
Qed.

Lemma record_policy claims st saved now s : policy_le s (recordClaimsLocked claims st saved now s).1.
Proof.
  unfold recordClaimsLocked. destruct (checkAdmissionLocked _ _); [done|]. cbv zeta. apply save_policy.
  intros p ->. destruct (bool_decide _); unfold record_le; cbn; split_and!; done || lia.
Qed.

Lemma register_policy r l v d saved info now now' s :
  policy_le s (RegisterReceiver r l v d saved info now now' s).1.
Proof.
  unfold RegisterReceiver. case_guard G; [done|]. cbv zeta. case_guard G1; [done|].
  set (n := unix_sec now * Second).
  etrans; [apply (policy_le_eq s (expireAdvertisementsLocked n s)); done|]. set (s1 := expireAdvertisementsLocked n s).
  clearbody s1.
  match goal with |- context [match ?x with [] => _ | _ => _ end] => destruct x as [|[key selected] [|]] end; try done.
  case_guard G2; [done|]. case_guard G3; [done|]. destruct (fresh_descriptor d n) as [d'|]; [|done].
  case_guard G4; [done|].
  match goal with |- context [match ?x with Some _ => _ | None => _ end] =>
    match type of x with option (TokenClaims * list byte) => destruct x as [[claims token]|] end end.
  - case_guard G5; [done|]. pose proof (record_policy claims Approved saved now' s1) as Hp.
    by destruct (recordClaimsLocked _ _ _ _ _) as [s2 [e|]].
  - match goal with |- context [if ?b then (s1, Err ErrUnauthorized) else _] => destruct b eqn:Hroot; [done|] end.
    match goal with |- context [if ?b then (s1, Err ErrUnavailable) else _] => destruct b; [done|] end.
    destruct (IssueToken _ _ _) as [token|]; [|done].
    match goal with |- context [saveAdmissionLocked ?k ?p ?sv ?n ?x] =>
      assert (policy_le x (saveAdmissionLocked k p sv n x).1) as Hp; [|destruct (saveAdmissionLocked k p sv n x) as [s2 [e|]]] end;
      [|done|by destruct info].
    apply save_policy. intros p ->. cbn. unfold record_le. cbn. split_and!; done || lia.
Qed.

Lemma publish_offer_policy o t v now s : policy_le s (publishOffer o t v now s).1.
Proof.
  unfold publishOffer. case_guard G; [done|]. destruct (fresh_descriptor v now) as [d|]; [|done].
  case_guard G1; [done|]. cbv zeta.
  match goal with |- context [match ?x with Ok _ => _ | Err _ => _ end] => destruct x as [restored|]; [|done] end.
  case_guard G2; [done|].
  match goal with |- context [match ?x with Some e => (s, Some e) | None => _ end] => destruct x; [done|] end.
  match goal with |- context [if ?b then (s, Some ErrUnauthorized) else _] => destruct b; [done|] end.
  match goal with |- context [match ?x with Some e => (expireAdvertisementsLocked now s, Some e) | None => _ end] =>
    destruct x; [by apply policy_le_eq|] end.
  match goal with |- context [cacheAdvertisementLocked ?k ?r ?n ?x] =>
    pose proof (cache_admissions k r n x) as Hp; destruct (cacheAdvertisementLocked k r n x) as [s' [e|]] end;
    apply policy_le_eq; [done|]. by destruct restored as [[]|].
Qed.

Lemma unadmit_admissions key record s : admissions (unadmit key record s) = <[key := record]> (admissions s).
Proof. unfold unadmit. cbv zeta. destruct (advertisementLocked _ _); done. Qed.
Lemma rest_admissions s s' : rest s' = rest s → admissions s' = admissions s.
Proof. unfold rest. congruence. Qed.

Lemma removed_le p now : record_le p (removed_record p now).
Proof. unfold record_le, removed_record. cbn. split_and!; done || lia. Qed.

(** The case analysis on the refusals of [RemoveAdmission]. *)
Lemma remove_cases (Q : Relay → Prop) r q saved now now' s :
  Q s →
  (∀ record, zeroID r = false → zeroID q = false → closed s = false → admissions s !! ((r, q) : routeKey) = Some record →
     Q (purge_queue (r, q) false (purge_queue (r, q) true (unadmit (r, q) (removed_record record now) s)))) →
  Q (RemoveAdmission r q saved now now' s).1.
Proof.
  intros H0 H1. destruct (zeroID r) eqn:Hr; [by unfold RemoveAdmission; rewrite Hr|].
  destruct (zeroID q) eqn:Hq; [by unfold RemoveAdmission; rewrite Hr, Hq|].
  destruct (closed s) eqn:Hc; [by unfold RemoveAdmission; rewrite Hr, Hq, Hc|].
  destruct (admissions s !! ((r, q) : routeKey)) as [record|] eqn:Ha.
  - rewrite (RemoveAdmission_unfold _ _ _ _ _ _ record) by done. cbn [fst]. by apply H1.
  - unfold RemoveAdmission. rewrite Hr, Hq, Hc. cbn.
    match goal with |- context [admissions s !! ?k] => replace (admissions s !! k) with (@None AdmissionRecord) by exact (eq_sym Ha) end.
    done.
Qed.

Lemma remove_policy r q saved now now' s : policy_le s (RemoveAdmission r q saved now now' s).1.
Proof.
  apply remove_cases; [done|]. intros record _ _ _ Ha. set (s2 := unadmit _ _ s).
  destruct (purge_spec (r, q) true s2) as (R1 & _).
  destruct (purge_spec (r, q) false (purge_queue (r, q) true s2)) as (R2 & _).
  etrans; [|apply policy_le_eq; exact (rest_admissions _ _ R2)].
  etrans; [|apply policy_le_eq; exact (rest_admissions _ _ R1)].
  intros k p Hp. unfold s2. rewrite unadmit_admissions, lookup_insert.
  case_decide as Hk; [|exists p; split; [done|reflexivity]].
  exists (removed_record record now). split; [done|]. rewrite <-Hk in Hp. replace p with record by congruence. apply removed_le.
Qed.

Lemma step_policy s s' : step s s' → policy_le s s'.
Proof.
  assert (∀ s s', rest s' = rest s → policy_le s s') as Hrest by (intros; by apply policy_le_eq, rest_admissions).
  destruct 1.
  - unfold publishAdvertisement. case_guard G; [done|]. destruct (fresh_descriptor v now); [|done].
    case_guard G1; [done|]. case_guard G2; [done|]. by apply policy_le_eq; rewrite cache_admissions.
  - apply policy_le_eq. unfold fetchAdvertisement. repeat (case_match; try done).
  - apply publish_offer_policy.
  - apply policy_le_eq. unfold fetchOffer. repeat (case_match; try done).
  - apply register_policy.
  - apply policy_le_eq. unfold fetchRegistration. repeat (case_match; try done).
  - apply record_policy.
  - unfold renew. cbv zeta. destruct (checkAdmissionLocked _ _); [done|].
    destruct (RenewToken _ _ _ _ _); [|done]. destruct (VerifyToken _ _ _) as [c|]; [|done].
    pose proof (record_policy c Observed saved now'' s) as Hp. by destruct (recordClaimsLocked _ _ _ _ _) as [s2 [e|]].
  - apply remove_policy.
  - apply policy_le_eq. unfold trackRouteConnection. by case_match.
  - by apply policy_le_eq.
  - apply policy_le_eq. unfold enqueueLeg. destruct (checkAdmissionLocked _ _); [done|]. cbv zeta.
    match goal with |- context [if ?b then (s, Some ErrCapacity) else _] => by destruct b, pair end.
  - apply Hrest. unfold removeLeg. case_guard G; [|done]. cbn [fst]. by rewrite rest_close_conn, rest_set_queue.
  - apply Hrest. unfold takeLeg. case_match; [done|]. apply take_loop_spec.
  - apply Hrest, rest_update_leg.
  - apply policy_le_eq. unfold Close. destruct (closed s); [done|]. cbv zeta. cbn [fst].
    match goal with |- context [drop_legs ?r ?ids ?x] => destruct (drop_legs_spec r ids x) as (A & _) end.
    apply rest_admissions in A. cbn in *. done.
Qed.

Lemma carrier_steps_policy x y : rtc carrier_step x y → policy_le x.1 y.1.
Proof.
  induction 1 as [|x y z Hs _ IH]; [done|]. etrans; [|exact IH]. clear IH. inversion Hs; subst; cbn.
  - by apply step_policy.
  - match goal with H : acquireActive _ _ _ _ = _ |- _ => unfold acquireActive in H end.
    repeat (case_match; try done). simplify_eq. by apply policy_le_eq.
  - by apply policy_le_eq.
Qed.

(** A later policy refuses what the cutoff covers. *)
Lemma cutoff_refuses s p claims :
  admissions s !! claims_key claims = Some p → c_issued claims <= RejectIssuedThrough p →
  checkAdmissionLocked claims s ≠ None.
Proof.
  intros Hp Hle. unfold checkAdmissionLocked. destruct (closed s); [done|]. rewrite Hp.
  assert ((c_issued claims <=? RejectIssuedThrough p) = true) as -> by (by apply Z.leb_le).
  by rewrite orb_true_r.
Qed.

(** ** Dropped legs are disconnected *)

Lemma shut_mono i r s x : x ∈ shut s → x ∈ shut (update_leg i (send_done r) (close_conn i s)).
Proof.
  unfold update_leg, close_conn. destruct (legs s !! i) eqn:E; cbn; [rewrite E; cbn; by right|by rewrite E].
Qed.
Lemma drop_legs_shut r ids s x : x ∈ shut s → x ∈ shut (drop_legs r ids s).
Proof. unfold drop_legs. revert s. induction ids; intros s Hx; cbn; [done|]. by apply IHids, shut_mono. Qed.
Lemma drop_legs_closes r ids s i leg :
  i ∈ ids → legs s !! i = Some leg → l_connection leg ∈ shut (drop_legs r ids s).
Proof.
  revert s leg. induction ids as [|j ids IH]; intros s leg Hi Hl; [by apply not_elem_of_nil in Hi|].
  apply elem_of_cons in Hi as [<-|Hi]; cbn.
  - change (l_connection leg ∈ shut (drop_legs r ids (update_leg i (send_done r) (close_conn i s)))).
    apply drop_legs_shut. unfold update_leg. rewrite legs_close_conn, Hl. unfold close_conn. rewrite Hl. cbn. by left.
  - pose proof (legs_kept_done j r (close_conn j s) i) as Hk. rewrite legs_close_conn, Hl in Hk.
    destruct (legs (update_leg j (send_done r) (close_conn j s)) !! i) as [leg'|] eqn:E; [|done].
    destruct Hk as (_ & <- & _). by apply (IH (update_leg j (send_done r) (close_conn j s))).
Qed.
Lemma shut_set_queue pair q s : shut (set_queue pair q s) = shut s.
Proof. by destruct pair. Qed.

Lemma unadmit_parts key record s :
  pairing (unadmit key record s) = pairing s ∧ runtime (unadmit key record s) = runtime s
  ∧ legs (unadmit key record s) = legs s ∧ registrations (unadmit key record s) = delete key (registrations s)
  ∧ shut (unadmit key record s) = elements (default ∅ (routeConnections s !! key)) ++ shut s.
Proof. unfold unadmit. cbv zeta. destruct (advertisementLocked _ _); done. Qed.

(** ** Publication and lookup *)

(** The outcome of the cache: unchanged, or the record, possibly with the offer kept, in the
    pool its policy selects. *)
Lemma cache_spec key r now s s' err :
  cacheAdvertisementLocked key r now s = (s', err) →
  (∀ e, err = Some e → s' = s)
  ∧ (err = None → ∃ r', encoded r' = encoded r ∧ admissionHash r' = admissionHash r ∧ signedExpires r' = signedExpires r
       ∧ (hasOffer r = true → r' = r)
       ∧ if covered (admissions s) key r' then s' = protect key r' now s
         else s' = storePendingAdvertisementLocked key r' now s).
Proof.
  unfold cacheAdvertisementLocked. cbv zeta.
  match goal with |- context [if ?b then (s, Some ErrUnauthorized) else _] => destruct b; [by intros [= <- <-]|] end.
  destruct (has (retainedAdvertisements s) key); [by intros [= <- <-]|].
  match goal with |- context [match ?x with None => (s, Some ErrUnavailable) | _ => _ end] =>
    destruct x as [r'|] eqn:Hm; [|by intros [= <- <-]] end.
  match goal with |- context [if ?b then (s, Some ErrUnavailable) else _] => destruct b eqn:Hl; [by intros [= <- <-]|] end.
  intros Hs. assert (err ≠ None → s' = s) as Herr.
  { destruct (protectedAdvertisementLocked key r' s), (protectedAdvertisementCapacityLocked key s);
      cbn in Hs; injection Hs as <- <-; done. }
  split; [intros e ->; by apply Herr|]. intros ->. exists r'.
  assert (encoded r' = encoded r ∧ admissionHash r' = admissionHash r ∧ signedExpires r' = signedExpires r
       ∧ (hasOffer r = true → r' = r)) as (E1 & E2 & E3 & E4).
  { destruct (advertisementLocked key s) as [q|]; [|by simplify_eq].
    destruct (hasOffer r) eqn:Ho; cbn in Hm; [|destruct (hasOffer q) eqn:Hq; cbn in Hm; [|by simplify_eq]];
      match type of Hm with (if ?b then _ else _) = _ => destruct b; [done|] end;
      rewrite ?andb_false_r, ?andb_true_r in Hm; by simplify_eq. }
  split_and!; try done.
  change (covered (admissions s) key r') with (protectedAdvertisementLocked key r' s).
  destruct (protectedAdvertisementLocked key r' s), (protectedAdvertisementCapacityLocked key s); cbn in Hs; by injection Hs as <-.
Qed.

Lemma protect_entry key r now s :
  advertisementLocked key (protect key r now s)
  = Some (r <| expires := advertisementExpiry now (signedExpires r) (AdvertisementTTL (limits s)) |>).
Proof. unfold advertisementLocked, protect. cbn. by rewrite lookup_insert_eq. Qed.
Lemma store_entry key r now s :
  advertisementLocked key (storePendingAdvertisementLocked key r now s)
  = Some (r <| expires := advertisementExpiry now (signedExpires r) (PendingAdvertisementTTL (limits s)) |>).
Proof.
  unfold advertisementLocked, storePendingAdvertisementLocked. cbn. by rewrite !lookup_delete_eq, lookup_insert_eq.
Qed.

Lemma store_pending_other key r now s k :
  k ≠ key →
  let P := pendingAdvertisements s in let P' := pendingAdvertisements (storePendingAdvertisementLocked key r now s) in
  P' !! k = P !! k ∨ (P' !! k = None ∧ P !! key = None ∧ PendingAdvertisements (limits s) <= msize P ∧ k = evict_key P).
Proof.
  intros Hne. unfold storePendingAdvertisementLocked. cbn. rewrite lookup_insert_ne by done.
  case_guard G; [|by left]. bool_prop. destruct (decide (evict_key (pendingAdvertisements s) = k)) as [<-|Hk].
  - right. rewrite lookup_delete_eq. split_and!; try done.
    destruct (pendingAdvertisements s !! key) eqn:E; [|done]. apply has_Some in E. congruence.
  - left. by apply lookup_delete_ne.
Qed.

Lemma find_offer_Some (locator : arr 32) (m : pool) (r : advertisementRecord) :
  find_offer locator m = Some r → ∃ k, m !! k = Some r ∧ hasOffer r = true ∧ offerLocator r = locator.
Proof.
  unfold find_offer. intros (kv & Hkv & ->)%fmap_Some. apply head_Some_elem_of in Hkv.
  apply list_elem_of_filter in Hkv as [Hp Hin]. destruct kv as [k v]. apply elem_of_map_to_list in Hin. exists k.
  cbn in *. bool_prop. done.
Qed.
Lemma find_offer_None (locator : arr 32) (m : pool) (k : routeKey) (r : advertisementRecord) :
  find_offer locator m = None → m !! k = Some r → hasOffer r = true → offerLocator r ≠ locator.
Proof.
  unfold find_offer. intros Hn Hk Ho <-. apply fmap_None in Hn.
  destruct (filter _ (map_to_list m)) as [|x l] eqn:El; [|done].
  assert ((k, r) ∈ filter (λ kv, (hasOffer kv.2 && bool_decide (offerLocator kv.2 = offerLocator r)) = true) (map_to_list m)) as Hin.
  { apply list_elem_of_filter. split; [cbn; by rewrite Ho, bool_decide_eq_true_2|by apply elem_of_map_to_list]. }
  rewrite El in Hin. by apply not_elem_of_nil in Hin.
Qed.

Lemma entry_of (A R P : pool) (k : routeKey) (r : advertisementRecord) :
  A ##ₘ R → A ##ₘ P → R ##ₘ P → A !! k = Some r ∨ R !! k = Some r ∨ P !! k = Some r → entry A R P k = Some r.
Proof.
  unfold entry. intros H1 H2 H3 [H|[H|H]].
  - by rewrite H.
  - by rewrite (map_disjoint_Some_r _ _ _ _ H1 H), H.
  - by rewrite (map_disjoint_Some_r _ _ _ _ H2 H), (map_disjoint_Some_r _ _ _ _ H3 H).
Qed.

(** The lookup returns the one route that offers the locator. *)
Lemma fetchOffer_finds s now key r :
  pool_inv s → closed s = false → zeroID (offerLocator r) = false →
  advertisementLocked key s = Some r → hasOffer r = true → now < expires r →
  (fetchOffer (offerLocator r) now s).2 = Ok (MkOffer (offerLocator r) (encoded r) (offerProof r)).
Proof.
  intros Hi Hc Hz He Ho Hexp. unfold fetchOffer. rewrite Hz, Hc. cbv zeta.
  pose proof (expire_pools now s Hi) as Hi'. set (s' := expireAdvertisementsLocked now s) in *.
  pose proof Hi' as [_ D1 D2 D3 _ _ _ _ _ Huniq].
  assert (∀ pool : pool, ∀ r, pool !! key = Some r → now < expires r → live expires now pool !! key = Some r) as Hlive.
  { intros m r0 Hm Hn. apply map_lookup_filter_Some. split; [done|]. cbn. by apply Z.ltb_lt. }
  assert (advertisements s' !! key = Some r ∨ retainedAdvertisements s' !! key = Some r ∨ pendingAdvertisements s' !! key = Some r) as Hin.
  { apply entry_in in He as [He|[He|He]]; [left|right; left|right; right]; by apply Hlive. }
  assert (entry (advertisements s') (retainedAdvertisements s') (pendingAdvertisements s') key = Some r) as He'
    by (by apply entry_of).
  assert (∀ k r2, entry (advertisements s') (retainedAdvertisements s') (pendingAdvertisements s') k = Some r2 →
    hasOffer r2 = true → offerLocator r2 = offerLocator r → r2 = r) as Hsame.
  { intros k r2 Hk Ho2 Hloc. destruct (decide (k = key)) as [->|Hne]; [congruence|].
    exfalso. by apply (Huniq key r He' Ho k r2). }
  destruct (find_offer _ (advertisements s')) as [r1|] eqn:F1.
  { apply find_offer_Some in F1 as (k & Hk & Ho1 & Hl1). cbn.
    replace r1 with r; [done|]. symmetry. apply (Hsame k); try done. apply entry_of; try done. by left. }
  destruct (find_offer _ (retainedAdvertisements s')) as [r1|] eqn:F2.
  { apply find_offer_Some in F2 as (k & Hk & Ho1 & Hl1). cbn.
    replace r1 with r; [done|]. symmetry. apply (Hsame k); try done. apply entry_of; try done. right; by left. }
  destruct (find_offer _ (pendingAdvertisements s')) as [r1|] eqn:F3.
  { apply find_offer_Some in F3 as (k & Hk & Ho1 & Hl1). cbn.
    replace r1 with r; [done|]. symmetry. apply (Hsame k); try done. apply entry_of; try done. right; by right. }
  exfalso. destruct Hin as [Hin|[Hin|Hin]].
  - by apply (find_offer_None _ _ _ _ F1 Hin Ho).
  - by apply (find_offer_None _ _ _ _ F2 Hin Ho).
  - by apply (find_offer_None _ _ _ _ F3 Hin Ho).
Qed.

(** ** The properties *)

Lemma carrier_pools s owing s' owing' : pool_inv s → carrier_step (s, owing) (s', owing') → pool_inv s'.
Proof.
  intros Hi Hs. inversion Hs; subst.
  - by eapply step_pools.
  - match goal with H : acquireActive _ _ _ _ = _ |- _ => unfold acquireActive in H end.
    repeat (case_match; try done). simplify_eq. revert Hi. by apply pool_inv_ext.
  - revert Hi. by apply pool_inv_ext.
Qed.
Lemma reachable_pools s owing : reachable s owing → pool_inv s.
Proof.
  induction 1 as [key l records s H|s owing s' owing' _ IH H]; [|by eapply carrier_pools].
  unfold NewRelay in H. go_cases H.
  match goal with H : normalizeLimits _ = Ok _ |- _ => unfold normalizeLimits in H; cbv zeta in H; rename H into Hn end.
  match type of Hn with context [mapM ?f ?l] => destruct (mapM f l) as [vs|] eqn:Em; [|done] end.
  apply mapM_Some_1 in Em.
  repeat (destruct vs as [|? vs]; [done|]). destruct vs as [|? vs]; [|done]. injection Hn as <-.
  repeat match goal with H : Forall2 _ (_ :: _) (_ :: _) |- _ => inversion H; subst; clear H end.
  cbn [fst snd] in *.
  repeat match goal with H : normalize _ _ _ = Some _ |- _ => apply normalize_pos in H end.
  split; cbn; try done; try apply map_disjoint_empty_l; unfold msize; rewrite ?map_size_empty; unfold MaxAdmissionRecords; lia.
Qed.

(** C16. Removal is final, even when the durable save fails: it closes every connection of
    the route, empties both waiting queues there and closes those legs, drops the
    registration, and in every later state of the relay all claims of that route issued no
    later than the removal or than the last token issued are refused, so that no leg waits
    and no carrier starts with them. *)
Theorem removal_final (receiver : ID) (route : RouteID) record saved now saveNow s s1 err :
  zeroID receiver = false → zeroID route = false → closed s = false →
  let key : routeKey := (receiver, route) in
  admissions s !! key = Some record →
  RemoveAdmission receiver route saved now saveNow s = (s1, err) →
  err = (if saved then None else Some ErrUnavailable)
  ∧ registrations s1 !! key = None
  ∧ (∀ conn, conn ∈ default ∅ (routeConnections s !! key) → conn ∈ shut s1)
  ∧ (∀ pair i leg, waits s pair key i → legs s !! i = Some leg → l_connection leg ∈ shut s1)
  ∧ (∀ pair i, ¬ waits s1 pair key i)
  ∧ ∀ owing s2 owing2, rtc carrier_step (s1, owing) (s2, owing2) →
      ∀ claims, claims_key claims = key → c_issued claims <= Z.max (LastIssuedUnix record) (unix_sec now) →
      checkAdmissionLocked claims s2 ≠ None
      ∧ (∀ i leg pair, l_claims leg = claims → (enqueueLeg key i leg pair s2).2 ≠ None)
      ∧ (∀ other, (acquireActive key claims other s2).2 ≠ None).
Proof.
  intros H1 H2 H3 key H4 Hr. rewrite (RemoveAdmission_unfold _ _ _ _ _ _ record) in Hr by done.
  apply pair_equal_spec in Hr as [<- <-]. set (next := removed_record record now).
  change ((receiver, route)) with key. set (sa := unadmit key next s).
  destruct (unadmit_parts key next s) as (L4 & L5 & L6 & L2 & L3). fold sa in L2, L3, L4, L5, L6.
  pose proof (unadmit_admissions key next s) as La. fold sa in La.
  assert (∀ pair, queue_of pair sa = queue_of pair s) as Lq by (by intros []).
  destruct (purge_spec key true sa) as (P1 & _ & P3 & P4 & P5 & _). cbn [negb] in P3. set (sb := purge_queue key true sa) in *.
  destruct (purge_spec key false sb) as (Q1 & _ & Q3 & Q4 & Q5 & [more Q6] & _). cbn [negb] in Q3.
  set (sc := purge_queue key false sb) in *.
  assert (∀ x, x ∈ shut sa → x ∈ shut sb) as Hab.
  { intros x Hx. unfold sb, purge_queue. rewrite shut_set_queue. by apply drop_legs_shut. }
  assert (∀ x, x ∈ shut sb → x ∈ shut sc) as Hbc.
  { intros x Hx. unfold sc, purge_queue. rewrite shut_set_queue. by apply drop_legs_shut. }
  assert (∀ pair i, ¬ waits sc pair key i) as Hnone.
  { intros pair i. unfold waits. destruct pair; [rewrite Q3, P5|rewrite Q5]; apply not_elem_of_nil. }
  split_and!; try done.
  - assert (registrations sc = registrations sa) as -> by (unfold rest in *; congruence). rewrite L2. apply lookup_delete_eq.
  - intros conn Hin. apply Hbc, Hab. rewrite L3. apply elem_of_app. left. by apply elem_of_elements.
  - intros [] i leg Hw Hl.
    + apply Hbc. unfold sb, purge_queue. rewrite shut_set_queue. apply (drop_legs_closes _ _ _ i); [|congruence].
      rewrite Lq. exact Hw.
    + unfold sc, purge_queue. rewrite shut_set_queue. specialize (P4 i). rewrite L6, Hl in P4.
      destruct (legs sb !! i) as [leg'|] eqn:El; [|done]. destruct P4 as (_ & <- & _).
      apply (drop_legs_closes _ _ _ i); [|done]. rewrite P3, Lq. exact Hw.
  - intros owing s2 owing2 Hs claims Hk Hle.
    assert (checkAdmissionLocked claims s2 ≠ None) as Hrefuse.
    { destruct (carrier_steps_policy _ _ Hs key next) as (p' & Hp' & _ & Hcut & _); cbn [fst] in *.
      - rewrite (rest_admissions _ _ Q1), (rest_admissions _ _ P1), La. apply lookup_insert_eq.
      - eapply cutoff_refuses; [by rewrite Hk|]. unfold next, removed_record in Hcut. cbn in Hcut. lia. }
    split_and!; [done| |].
    + intros i leg pair Hcl. unfold enqueueLeg. rewrite Hcl. by destruct (checkAdmissionLocked claims s2).
    + intros other. unfold acquireActive. by destruct (checkAdmissionLocked claims s2).
Qed.

(** C34. In every interleaving the advertisement pools are sound: a route has an entry in at
    most one pool; what is protected is covered by an admission policy of the same root;
    protected and retained entries together respect the registration limit, pending ones
    their own; no entry outlives the signature it carries; retained entries offer nothing;
    and two routes never offer the same locator. *)
Theorem advertisement_pools (s : Relay) (owing : list routeKey) :
  reachable s owing →
  let A := advertisements s in let R := retainedAdvertisements s in let P := pendingAdvertisements s in
  (∀ key, (has A key → ¬ has R key ∧ ¬ has P key) ∧ (has R key → ¬ has P key))
  ∧ (∀ key r, A !! key = Some r → protectedAdvertisementLocked key r s = true)
  ∧ msize A + msize R <= registrationLimit s ∧ msize P <= PendingAdvertisements (limits s)
  ∧ (∀ key r, advertisementLocked key s = Some r → expires r <= signedExpires r)
  ∧ (∀ key r, R !! key = Some r → hasOffer r = false)
  ∧ ∀ k1 k2 r1 r2, advertisementLocked k1 s = Some r1 → advertisementLocked k2 s = Some r2 →
      hasOffer r1 = true → hasOffer r2 = true → offerLocator r1 = offerLocator r2 → k1 = k2.
Proof.
  intros [_ D1 D2 D3 I1 I2 I3 I4 I5 I6]%reachable_pools. cbv zeta. split_and!; try done.
  - intros key. unfold has. rewrite !bool_decide_spec. split.
    + intros [r Hr]. rewrite (map_disjoint_Some_l _ _ _ _ D1 Hr), (map_disjoint_Some_l _ _ _ _ D2 Hr).
      by split; intros [].
    + intros [r Hr]. rewrite (map_disjoint_Some_l _ _ _ _ D3 Hr). by intros [].
  - intros k1 k2 r1 r2 E1 E2 O1 O2 Hl. destruct (decide (k1 = k2)) as [|Hne]; [done|].
    exfalso. by apply (I6 k2 r2 E2 O2 k1 r1).
Qed.

(** A public publication is confined to its own route: refused, it at most drops expired
    entries; accepted, the route's entry carries these bytes with the verified root and
    expiry, protected exactly when a policy of that root covers it, and no entry of
    another route is displaced, except one pending entry when the pending pool is full. *)
Theorem publication_confined e verified now s s' err :
  publishAdvertisement e verified now s = (s', err) →
  let s0 := expireAdvertisementsLocked now s in
  (err ≠ None → s' = s ∨ s' = s0)
  ∧ (err = None → ∃ d r, verified = Some d ∧ now < d_expires d ∧ closed s = false
      ∧ advertisementLocked (d_key d) s' = Some r
      ∧ encoded r = e ∧ admissionHash r = d_root d ∧ signedExpires r = d_expires d ∧ expires r <= d_expires d
      ∧ has (advertisements s') (d_key d) = protectedAdvertisementLocked (d_key d) r s
      ∧ admissions s' = admissions s ∧ registrations s' = registrations s0
      ∧ ∀ k, k ≠ d_key d →
          advertisements s' !! k = advertisements s0 !! k
          ∧ retainedAdvertisements s' !! k = retainedAdvertisements s0 !! k
          ∧ (pendingAdvertisements s' !! k = pendingAdvertisements s0 !! k
             ∨ pendingAdvertisements s' !! k = None ∧ k = evict_key (pendingAdvertisements s0)
               ∧ PendingAdvertisements (limits s) <= msize (pendingAdvertisements s0))).
Proof.
  intros Hp s0. unfold publishAdvertisement in Hp.
  match type of Hp with (if ?b then _ else _) = _ => destruct b end; [injection Hp as <- <-; split; [by left|done]|].
  destruct (fresh_descriptor verified now) as [d|] eqn:Hd; [|injection Hp as <- <-; split; [by left|done]].
  match type of Hp with (if ?b then _ else _) = _ => destruct b end; [injection Hp as <- <-; split; [by left|done]|].
  destruct (closed s) eqn:Hc; [injection Hp as <- <-; split; [by left|done]|].
  apply cache_spec in Hp as [Hbad Hgood]. split.
  { intros Hne. destruct err as [x|]; [|done]. right. by eapply Hbad. }
  intros Hok. destruct (Hgood Hok) as (r & E1 & E2 & E3 & _ & Hs'). cbn in E1, E2, E3. clear Hbad Hgood.
  unfold fresh_descriptor in Hd. destruct verified as [d0|]; [|done].
  match type of Hd with (if ?b then _ else _) = _ => destruct b eqn:Hn; [done|] end. injection Hd as ->.
  apply orb_false_iff in Hn as [_ Hn]. bool_prop. fold s0 in Hs'.
  change (covered (admissions s0) (d_key d) r) with (protectedAdvertisementLocked (d_key d) r s) in Hs'.
  destruct (protectedAdvertisementLocked (d_key d) r s) eqn:Hprot; subst s'.
  - exists d, (r <| expires := advertisementExpiry now (signedExpires r) (AdvertisementTTL (limits s)) |>).
    rewrite protect_entry. split_and!; try done.
    + cbn. rewrite <-E3. apply advertisementExpiry_le.
    + unfold has, protect. cbn. rewrite lookup_insert_eq. transitivity true; [by apply bool_decide_eq_true_2|symmetry; exact Hprot].
    + intros k Hk. unfold protect. cbn. rewrite lookup_insert_ne, !lookup_delete_ne by done. auto.
  - exists d, (r <| expires := advertisementExpiry now (signedExpires r) (PendingAdvertisementTTL (limits s)) |>).
    rewrite store_entry. split_and!; try done.
    + cbn. rewrite <-E3. apply advertisementExpiry_le.
    + unfold has, storePendingAdvertisementLocked. cbn. rewrite lookup_delete_eq.
      transitivity false; [by apply bool_decide_eq_false_2; intros []|symmetry; exact Hprot].
    + intros k Hk. pose proof (store_pending_other (d_key d) r now s0 k Hk) as Hev. cbv zeta in Hev.
      split_and!.
      * apply lookup_delete_ne. done.
      * apply lookup_delete_ne. done.
      * destruct Hev as [Hev|(? & _ & ? & ?)]; [by left|by right].
Qed.

(** An accepted offer is found under its locator, exactly as published, until the
    shorter of its signature's and the pools' lifetimes has passed. *)
Theorem offer_roundtrip s owing o token d now s' now' :
  reachable s owing →
  publishOffer o token (Some d) now s = (s', None) →
  now' < d_expires d → now' < now + AdvertisementTTL (limits s) → now' < now + PendingAdvertisementTTL (limits s) →
  (fetchOffer (Locator o) now' s').2 = Ok o.
Proof.
  intros Hr%reachable_pools Hp T1 T2 T3.
  assert (pool_inv s') as Hi'.
  { replace s' with (publishOffer o token (Some d) now s).1 by (by rewrite Hp). by apply publish_offer_pools. }
  unfold publishOffer in Hp.
  match type of Hp with (if ?b then _ else _) = _ => destruct b eqn:G; [done|] end.
  apply orb_false_iff in G as [G _]. apply orb_false_iff in G as [Hz _].
  destruct (fresh_descriptor _ _) as [d'|] eqn:Hd; [|done].
  assert (d' = d) as ->.
  { unfold fresh_descriptor in Hd. destruct (is_zero (d_expires d) || negb (now <? d_expires d)); by simplify_eq. }
  destruct (zero_key d); [done|]. cbv zeta in Hp.
  match type of Hp with match ?x with Ok _ => _ | Err _ => _ end = _ => destruct x as [restored|]; [|done] end.
  destruct (closed s) eqn:Hc; [done|].
  match type of Hp with match ?x with Some _ => _ | None => _ end = _ => destruct x; [done|] end.
  match type of Hp with (if ?b then _ else _) = _ => destruct b; [done|] end.
  match type of Hp with match ?x with Some _ => _ | None => _ end = _ => destruct x; [done|] end.
  set (s0 := expireAdvertisementsLocked now s) in *.
  match type of Hp with context [cacheAdvertisementLocked ?k ?r ?n ?x] =>
    destruct (cacheAdvertisementLocked k r n x) as [s1 [er|]] eqn:Hcache end; [done|].
  apply cache_spec in Hcache as [_ Hgood]. destruct (Hgood eq_refl) as (r & _ & _ & _ & Hsame & Hs1). clear Hgood.
  rewrite (Hsame eq_refl) in Hs1. clear Hsame r. cbn in Hs1.
  match type of Hs1 with context [AdvertisementRecord ?a ?b ?c ?x ?y ?z ?w] =>
    set (r := AdvertisementRecord a b c x y z w) in * end.
  assert (closed s1 = false ∧ ∃ t, now' < t ∧ advertisementLocked (d_key d) s1 = Some (r <| expires := t |>)) as (Hc1 & t & Ht & He).
  { destruct (covered _ _ _); subst s1.
    - split; [done|]. rewrite protect_entry. eexists. split; [|done].
      unfold advertisementExpiry. cbn. case_guard G2; bool_prop; lia.
    - split; [done|]. rewrite store_entry. eexists. split; [|done].
      unfold advertisementExpiry. cbn. case_guard G2; bool_prop; lia. }
  assert (closed s' = false ∧ advertisementLocked (d_key d) s' = Some (r <| expires := t |>)) as [Hc' He'].
  { destruct restored as [[]|]; by injection Hp as <-. }
  pose proof (fetchOffer_finds s' now' (d_key d) (r <| expires := t |>)) as Hf. cbn in Hf.
  rewrite Hf; try done. by destruct o.
Qed.

(** ** A route registered, published and removed *)

Definition demo_route : routeKey := claims_key demo_claims.
Definition demo_record : AdmissionRecord :=
  MkAdmissionRecord (ID_String (demo_id Byte.x01)) (RouteID_String (demo_id Byte.x02))
    (hex_encode (arr_bytes (demo_id Byte.x03))) Approved 1700000000 0.
Definition demo_admitted : Relay := start <| admissions := {[demo_route := demo_record]} |>.
Lemma admitted_reachable : reachable demo_admitted [].
Proof. apply (R_new demo_key (MkLimits 0 0 0 0 0 0 0 0 0 0 0 0 0 0 0) [demo_record]). vm_compute. reflexivity. Qed.

Lemma removal_final_witness :
  let s := (enqueueLeg demo_route 0%nat demo_leg true demo_admitted).1 in
  let s1 := (RemoveAdmission (demo_id Byte.x01) (demo_id Byte.x02) false demo_now demo_now s).1 in
  waits s true demo_route 0 ∧ ¬ waits s1 true demo_route 0 ∧ 7%nat ∈ shut s1
  ∧ checkAdmissionLocked demo_claims s1 ≠ None.
Proof.
  intros s s1.
  assert (waits s true demo_route 0) as Hw by (vm_compute; left).
  assert (RemoveAdmission (demo_id Byte.x01) (demo_id Byte.x02) false demo_now demo_now s = (s1, Some ErrUnavailable)) as He.
  { apply pair_outcome. vm_compute. reflexivity. }
  destruct (removal_final (demo_id Byte.x01) (demo_id Byte.x02) demo_record false demo_now demo_now s s1 _
    ltac:(vm_compute; reflexivity) ltac:(vm_compute; reflexivity) ltac:(vm_compute; reflexivity)
    ltac:(vm_compute; reflexivity) He) as (_ & _ & _ & H4 & H5 & H6).
  split; [exact Hw|]. split; [apply H5|]. split.
  - apply (H4 true 0%nat demo_leg Hw). vm_compute. reflexivity.
  - destruct (H6 [] s1 [] (rtc_refl _ _) demo_claims) as [H _]; [reflexivity|vm_compute; discriminate|exact H].
Defined.

Definition demo_descriptor : Descriptor :=
  MkDescriptor (demo_id Byte.x01) (demo_id Byte.x02) (demo_id Byte.x03) (demo_now + 3600 * Second).
Definition demo_offer : Offer := MkOffer (demo_id Byte.x09) [Byte.x41; Byte.x42] (demo_id Byte.x0a).
Definition demo_published : Relay := (publishOffer demo_offer [] (Some demo_descriptor) demo_now demo_admitted).1.
Lemma published_reachable : reachable demo_published [].
Proof. eapply R_step; [apply admitted_reachable|]. apply C_step, S_publish_offer. Qed.

Lemma advertisement_pools_witness :
  reachable demo_published [] ∧ has (advertisements demo_published) demo_route = true
  ∧ has (pendingAdvertisements demo_published) demo_route = false.
Proof.
  split; [apply published_reachable|].
  assert (has (advertisements demo_published) demo_route = true) as Hh by (vm_compute; reflexivity).
  split; [exact Hh|].
  destruct (advertisement_pools _ _ published_reachable) as (H & _). destruct (H demo_route) as [H1 _].
  rewrite Hh in H1. destruct (H1 I) as [_ H2]. destruct (has (pendingAdvertisements demo_published) demo_route); [by destruct H2|done].
Defined.

Lemma publication_confined_witness :
  let s' := (publishAdvertisement [Byte.x41] (Some demo_descriptor) demo_now start).1 in
  publishAdvertisement [Byte.x41] (Some demo_descriptor) demo_now start = (s', None)
  ∧ has (advertisements s') demo_route = false ∧ ∃ r, advertisementLocked demo_route s' = Some r ∧ encoded r = [Byte.x41].
Proof.
  intros s'.
  assert (publishAdvertisement [Byte.x41] (Some demo_descriptor) demo_now start = (s', None)) as He.
  { apply pair_outcome. vm_compute. reflexivity. }
  split; [exact He|]. destruct (publication_confined _ _ _ _ _ _ He) as [_ H].
  destruct (H eq_refl) as (d & r & Hd & _ & _ & H1 & H2 & _ & _ & _ & H3 & _). injection Hd as <-.
  split; [|exists r; split; [exact H1|exact H2]].
  etransitivity; [exact H3|]. reflexivity.
Defined.

Lemma offer_roundtrip_witness :
  publishOffer demo_offer [] (Some demo_descriptor) demo_now demo_admitted = (demo_published, None)
  ∧ (fetchOffer (demo_id Byte.x09) (demo_now + Minute) demo_published).2 = Ok demo_offer.
Proof.
  assert (publishOffer demo_offer [] (Some demo_descriptor) demo_now demo_admitted = (demo_published, None)) as He.
  { unfold demo_published. apply pair_outcome. vm_compute. reflexivity. }
  split; [exact He|].
  apply (offer_roundtrip _ _ demo_offer [] demo_descriptor demo_now demo_published (demo_now + Minute) admitted_reachable He);
    vm_compute; reflexivity.
Defined.
