(* ===== verification/Base64.v ===== *)
(** * [encoding/base64]: [RawURLEncoding] and [StdEncoding]

    The bit string of the input, zero padded on the right to a multiple of six bits, in one
    of two alphabets; [StdEncoding] pads the text to a multiple of four characters. Decoding
    skips line breaks and drops trailing bits, as the library does when it is not strict;
    the program re-encodes to refuse such aliases. *)

From S2P Require Import Prelude Text.

Inductive alphabet := URL | Std.
Definition b64_char (a : alphabet) (d : Z) : byte :=
  z2b (if d <? 26 then 65 + d else if d <? 52 then 71 + d else if d <? 62 then d - 4
       else match a with URL => if d =? 62 then 45 else 95 | Std => if d =? 62 then 43 else 47 end).
Definition b64_digit (a : alphabet) (c : byte) : option Z :=
  let z := b2z c in
  if (65 <=? z) && (z <=? 90) then Some (z - 65)
  else if (97 <=? z) && (z <=? 122) then Some (z - 71)
  else if (48 <=? z) && (z <=? 57) then Some (z + 4)
  else if z =? match a with URL => 45 | Std => 43 end then Some 62
  else if z =? match a with URL => 95 | Std => 47 end then Some 63
  else None.

Definition b64_chars_of (n : nat) : nat := (8 * n + 5) / 6.

(** Groups of three bytes and four characters. *)
Fixpoint raw_encode (a : alphabet) (src : list byte) : list byte :=
  match src with
  | [] => []
  | [x] => let n := b2z x * 16 in b64_char a <$> [n / 64; n mod 64]
  | [x; y] => let n := (b2z x * 256 + b2z y) * 4 in b64_char a <$> [n / 4096; n / 64 mod 64; n mod 64]
  | x :: y :: z :: rest =>
      let n := (b2z x * 256 + b2z y) * 256 + b2z z in
      (b64_char a <$> [n / 262144; n / 4096 mod 64; n / 64 mod 64; n mod 64]) ++ raw_encode a rest
  end.
Fixpoint raw_decode (a : alphabet) (text : list byte) : option (list byte) :=
  match text with
  | [] => Some []
  | [_] => None
  | [x; y] => d ← b64_digit a x; e ← b64_digit a y; Some [z2b ((d * 64 + e) / 16)]
  | [x; y; z] =>
      d ← b64_digit a x; e ← b64_digit a y; f ← b64_digit a z;
      let n := ((d * 64 + e) * 64 + f) / 4 in Some [z2b (n / 256); z2b n]
  | x :: y :: z :: w :: rest =>
      d ← b64_digit a x; e ← b64_digit a y; f ← b64_digit a z; g ← b64_digit a w;
      k ← raw_decode a rest;
      let n := ((d * 64 + e) * 64 + f) * 64 + g in Some (z2b (n / 65536) :: z2b (n / 256) :: z2b n :: k)
  end.

Definition line_break (c : byte) : bool := (b2z c =? 10) || (b2z c =? 13).
Definition no_breaks (text : list byte) : list byte := filter (λ c, line_break c = false) text.

Definition RawURLEncode : list byte → list byte := raw_encode URL.
Definition RawURLDecode (text : list byte) : option (list byte) := raw_decode URL (no_breaks text).

Definition pad_char : byte := Byte.x3d.
Definition StdEncode (src : list byte) : list byte :=
  raw_encode Std src ++ replicate ((4 - b64_chars_of (length src) mod 4) mod 4) pad_char.
Fixpoint drop_pad (l : list byte) : list byte :=
  match l with
  | c :: rest => if bool_decide (c = pad_char) then drop_pad rest else l
  | [] => []
  end.
(** At most two padding characters, only at the end. *)
Definition StdDecode (text : list byte) : option (list byte) :=
  let text := no_breaks text in
  let body := reverse (drop_pad (reverse text)) in
  if negb (length text mod 4 =? 0)%nat || (2 <? length text - length body)%nat then None
  else raw_decode Std body.

(** ** Lemmas *)

Lemma digit64_cases (P : Z → Prop) : Forall P (seqZ 0 64) → ∀ d, 0 <= d < 64 → P d.
Proof. rewrite list.Forall_forall. intros H d Hd. apply H, elem_of_seqZ. lia. Qed.
(** What the encoders emit: digits, never a line break, padding or a zero byte. *)
Lemma b64_char_spec a d :
  0 <= d < 64 →
  b64_digit a (b64_char a d) = Some d ∧ line_break (b64_char a d) = false ∧ b64_char a d ≠ pad_char ∧ b64_char a d ≠ Byte.x00.
Proof. revert d. apply digit64_cases. destruct a; by repeat constructor. Qed.

(** Induction by groups of three. *)
Lemma group_ind (P : list byte → Prop) :
  P [] → (∀ x, P [x]) → (∀ x y, P [x; y]) → (∀ x y z rest, P rest → P (x :: y :: z :: rest)) → ∀ l, P l.
Proof.
  intros H0 H1 H2 H3. fix IH 1. intros [|x [|y [|z rest]]]; [exact H0|apply H1|apply H2|]. apply H3, IH.
Qed.

Lemma digit_range n d : 0 <= n < 64 * d → 0 < d → 0 <= n / d < 64.
Proof. intros. split; [by apply Z.div_pos; lia|]. apply Z.div_lt_upper_bound; lia. Qed.
Lemma mod64_range n : 0 <= n mod 64 < 64.
Proof. by apply Z.mod_pos_bound. Qed.
Lemma raw_encode_chars a b : ∃ ds, raw_encode a b = b64_char a <$> ds ∧ Forall (λ d, 0 <= d < 64) ds.
Proof.
  induction b as [|x|x y|x y z rest (ds & E & Hd)] using group_ind; cbn [raw_encode].
  - by exists [].
  - pose proof (b2z_range x). eexists. split; [done|]. repeat constructor; try apply mod64_range; apply digit_range; lia.
  - pose proof (b2z_range x). pose proof (b2z_range y). eexists. split; [done|].
    repeat constructor; try apply mod64_range; apply digit_range; lia.
  - pose proof (b2z_range x). pose proof (b2z_range y). pose proof (b2z_range z).
    rewrite E, <-fmap_app. eexists. split; [done|]. repeat constructor; try apply mod64_range; try (apply digit_range; lia). done.
Qed.
Lemma no_breaks_all l : Forall (λ c, line_break c = false) l → no_breaks l = l.
Proof. unfold no_breaks. induction 1; [done|]. by rewrite filter_cons_True, IHForall. Qed.
Lemma raw_encode_no_breaks a b : Forall (λ c, line_break c = false) (raw_encode a b).
Proof.
  destruct (raw_encode_chars a b) as (ds & -> & Hd). apply Forall_fmap.
  eapply Forall_impl; [|exact Hd]. intros d. apply b64_char_spec.
Qed.
Lemma length_raw_encode a b : length (raw_encode a b) = b64_chars_of (length b).
Proof.
  unfold b64_chars_of. induction b as [| | |x y z rest IH] using group_ind; [done..|].
  cbn [raw_encode]. rewrite length_app, IH. cbn [fmap list_fmap length].
  replace (8 * S (S (S (length rest))) + 5)%nat with (8 * length rest + 5 + 4 * 6)%nat by lia.
  rewrite Nat.div_add by lia. lia.
Qed.
Lemma length_RawURLEncode b : length (RawURLEncode b) = b64_chars_of (length b).
Proof. apply length_raw_encode. Qed.

(** No group ends after one character. *)
Lemma chars_mod4 (b : list byte) : (b64_chars_of (length b) mod 4 ≠ 1)%nat.
Proof.
  induction b as [| | |x y z rest IH] using group_ind; [done..|]. revert IH. unfold b64_chars_of. cbn [length].
  replace (8 * S (S (S (length rest))) + 5)%nat with (8 * length rest + 5 + 4 * 6)%nat by lia.
  rewrite Nat.div_add by lia. replace (_ / 6 + 4)%nat with ((8 * length rest + 5) / 6 + 1 * 4)%nat by lia.
  by rewrite Nat.Div0.mod_add.
Qed.

Lemma z2b_eq z x : z mod 256 = b2z x → z2b z = x.
Proof. intros H. apply b2z_inj. by rewrite b2z_z2b. Qed.
Lemma undigit n : n / 64 * 64 + n mod 64 = n.
Proof. rewrite Z.mul_comm. symmetry. by apply Z.div_mod. Qed.
Lemma raw_decode_encode a b : raw_decode a (raw_encode a b) = Some b.
Proof.
  induction b as [|x|x y|x y z rest IH] using group_ind; [done|..]; cbn [raw_encode fmap list_fmap app raw_decode];
    pose proof (b2z_range x); try (pose proof (b2z_range y)); try (pose proof (b2z_range z));
    rewrite !(λ d H, proj1 (b64_char_spec a d H)) by first [apply mod64_range | apply digit_range; lia];
    cbn [mbind option_bind].
  - rewrite undigit, Z.div_mul by lia. do 2 f_equal. apply z2b_eq, Z.mod_small. lia.
  - set (n := (b2z x * 256 + b2z y) * 4).
    replace (n / 4096) with (n / 64 / 64) by (by rewrite Z.div_div). rewrite !undigit. unfold n. rewrite Z.div_mul by lia.
    do 2 f_equal; [|f_equal]; apply z2b_eq.
    + rewrite Z.div_add_l, Z.div_small, Z.add_0_r by lia. apply Z.mod_small. lia.
    + rewrite Z.add_comm, Z_mod_plus_full. apply Z.mod_small. lia.
  - rewrite IH. cbn [mbind option_bind]. set (n := (b2z x * 256 + b2z y) * 256 + b2z z).
    replace (n / 262144) with (n / 64 / 64 / 64) by (by rewrite !Z.div_div).
    replace (n / 4096) with (n / 64 / 64) by (by rewrite Z.div_div). rewrite !undigit. unfold n.
    do 2 f_equal; [|f_equal; [|f_equal]]; apply z2b_eq.
    + replace 65536 with (256 * 256) by done. rewrite <-Z.div_div by lia.
      rewrite Z.div_add_l, (Z.div_small (b2z z)), Z.add_0_r, Z.div_add_l, Z.div_small, Z.add_0_r by lia. apply Z.mod_small. lia.
    + rewrite Z.div_add_l, (Z.div_small (b2z z)), Z.add_0_r by lia. rewrite Z.add_comm, Z_mod_plus_full. apply Z.mod_small. lia.
    + rewrite Z.add_comm, Z_mod_plus_full. apply Z.mod_small. lia.
Qed.

Lemma RawURLDecode_Encode b : RawURLDecode (RawURLEncode b) = Some b.
Proof.
  unfold RawURLDecode, RawURLEncode. rewrite no_breaks_all by apply raw_encode_no_breaks. apply raw_decode_encode.
Qed.

Lemma drop_pad_replicate k l : drop_pad (replicate k pad_char ++ l) = drop_pad l.
Proof. induction k; [done|]. cbn [replicate app drop_pad]. by rewrite bool_decide_eq_true_2. Qed.
Lemma drop_pad_none l : pad_char ∉ l → drop_pad l = l.
Proof.
  destruct l as [|c l]; [done|]. intros [Hc _]%not_elem_of_cons. cbn. by rewrite bool_decide_eq_false_2 by congruence.
Qed.
Lemma raw_encode_no_pad a b : pad_char ∉ raw_encode a b.
Proof.
  destruct (raw_encode_chars a b) as (ds & -> & Hd). rewrite list_elem_of_fmap. intros (d & Hc & Hin).
  rewrite list.Forall_forall in Hd. by destruct (b64_char_spec a d (Hd d Hin)) as (_ & _ & [] & _).
Qed.
Lemma StdDecode_Encode b : StdDecode (StdEncode b) = Some b.
Proof.
  unfold StdDecode, StdEncode. set (r := raw_encode Std b).
  pose proof (chars_mod4 b) as Hmod. pose proof (length_raw_encode Std b) as Hl. fold r in Hl.
  set (m := b64_chars_of (length b)) in *. set (p := ((4 - m mod 4) mod 4)%nat).
  rewrite no_breaks_all by (apply Forall_app; split; [apply raw_encode_no_breaks|by apply Forall_replicate]).
  rewrite reverse_app, reverse_replicate, drop_pad_replicate, drop_pad_none, reverse_involutive
    by (rewrite elem_of_reverse; apply raw_encode_no_pad).
  rewrite length_app, length_replicate, Hl.
  pose proof (Nat.div_mod m 4 ltac:(lia)) as Hdm. pose proof (Nat.mod_upper_bound m 4 ltac:(lia)) as Hb.
  assert ((m + p) mod 4 = 0 ∧ p <= 2)%nat as [-> Hp].
  { unfold p. destruct (m mod 4)%nat as [|[|[|[|x]]]]; [..|lia]; [..|lia| |]; cbn [Nat.sub Nat.modulo Nat.divmod fst snd];
      (split; [|lia]); symmetry.
    - apply (Nat.mod_unique _ 4 (m / 4)); lia.
    - apply (Nat.mod_unique _ 4 (m / 4 + 1)); lia.
    - apply (Nat.mod_unique _ 4 (m / 4 + 1)); lia. }
  replace (m + p - m)%nat with p by lia. replace (2 <? p)%nat with false by (symmetry; apply Nat.ltb_ge; lia).
  cbn. apply raw_decode_encode.
Qed.

(** No zero byte occurs in an encoding. *)
Lemma RawURLEncode_nonzero b : Byte.x00 ∉ RawURLEncode b.
Proof.
  unfold RawURLEncode. destruct (raw_encode_chars URL b) as (ds & -> & Hd). rewrite list_elem_of_fmap.
  intros (d & Hc & Hin). rewrite list.Forall_forall in Hd. by destruct (b64_char_spec URL d (Hd d Hin)) as (_ & _ & _ & []).
Qed.
#[global] Arguments StdEncode : simpl never.
#[global] Arguments StdDecode : simpl never.
#[global] Arguments RawURLEncode : simpl never.
#[global] Arguments RawURLDecode : simpl never.
