(* ===== verification/Signing.v ===== *)
(** * Domain-separated signatures: [internal/signing/signing.go]

    Ed25519 is a parameter, an [ed25519]; the PEM and X.509 forms of keys are not modelled. *)

From S2P Require Import Prelude Text Sha256 Base64.

(** [crypto/ed25519]: the private key of a seed; a private key, a message; a public key, a
    message, a signature. *)
Record ed25519 := {
  ed_new_key : list byte → list byte;
  ed_public : list byte → list byte;
  ed_sign : list byte → list byte → list byte;
  ed_verify : list byte → list byte → list byte → bool }.
Definition PrivateKeySize : nat := 64.
Definition PublicKeySize : nat := 32.
Definition SignatureSize : nat := 64.

Definition SeedSize : nat := 32.
(** The private keys that the package makes, with [GenerateKey] and [NewKeyFromSeed], which is
    what [signing.Generate] and [signing.ParsePrivate] return. A slice of 64 bytes whose
    halves do not belong together is not one of them, and what it signs need not verify. *)
Definition generated (ed : ed25519) (k : list byte) : Prop := ∃ seed, length seed = SeedSize ∧ k = ed_new_key ed seed.

(** What the package documents: the sizes, and that a signature of a generated key verifies. *)
Record ed25519_law (ed : ed25519) : Prop := {
  ed_key_size seed : length seed = SeedSize → length (ed_new_key ed seed) = PrivateKeySize;
  ed_public_size k : length k = PrivateKeySize → length (ed_public ed k) = PublicKeySize;
  ed_sign_size k m : length k = PrivateKeySize → length (ed_sign ed k m) = SignatureSize;
  ed_verify_sign k m : generated ed k → ed_verify ed (ed_public ed k) m (ed_sign ed k m) = true }.

Definition maximumSignatureDomainSize : Z := 255.
Definition maximumSignaturePayloadSize : Z := 8 * 1024 * 1024.

Inductive signing_err := InvalidLength | ExceedsPlatform | SignInput | VerifyInput | VerificationFailed | BadPrefix | BadDigest.
#[export] Instance signing_err_eq_dec : EqDecision signing_err.
Proof. solve_decision. Defined.

Definition signatureInputSize (domainLength payloadLength : Z) : result signing_err Z :=
  reject (domainLength <? 0) || (payloadLength <? 0) with InvalidLength;;
  let maximumInt := max_int64 in
  reject maximumInt - payloadLength - 1 <? domainLength with ExceedsPlatform;;
  Ok (domainLength + 1 + payloadLength).

(** The copies into the result, of the computed size. *)
Definition signatureInput (domain payload : list byte) : result signing_err (list byte) :=
  size ← signatureInputSize (Z.of_nat (length domain)) (Z.of_nat (length payload));
  let domainEnd := length domain in
  Ok (take (Z.to_nat size) (domain ++ [Byte.x00] ++ take (Z.to_nat size - (domainEnd + 1)) payload)).

Definition bad_domain (domain : list byte) : bool :=
  bool_decide (domain = []) || (maximumSignatureDomainSize <? Z.of_nat (length domain)) || bool_decide (Byte.x00 ∈ domain).
Definition bad_payload (payload : list byte) : bool :=
  bool_decide (payload = []) || (maximumSignaturePayloadSize <? Z.of_nat (length payload)).

Definition Sign (ed : ed25519) (domain payload privateKey : list byte) : result signing_err (list byte) :=
  reject bad_domain domain || bad_payload payload || negb (length privateKey =? PrivateKeySize)%nat with SignInput;;
  message ← signatureInput domain payload;
  Ok (ed_sign ed privateKey message).

Definition Verify (ed : ed25519) (domain payload signature publicKey : list byte) : result signing_err () :=
  reject bad_domain domain || bad_payload payload || negb (length signature =? SignatureSize)%nat
      || negb (length publicKey =? PublicKeySize)%nat with VerifyInput;;
  message ← signatureInput domain payload;
  reject negb (ed_verify ed publicKey message signature) with VerificationFailed;;
  Ok ().

Definition keyPrefix : list byte := ascii_bytes "sha256/".
Definition KeyID (publicKey : list byte) : list byte := keyPrefix ++ StdEncode (Sum256 publicKey).
Definition ValidateKeyID (value : list byte) : result signing_err () :=
  reject (length value <=? length keyPrefix)%nat || negb (bool_decide (take (length keyPrefix) value = keyPrefix)) with BadPrefix;;
  match StdDecode (drop (length keyPrefix) value) with
  | None => Err BadDigest
  | Some decoded =>
      reject negb (length decoded =? Size)%nat || negb (bool_decide (keyPrefix ++ StdEncode decoded = value)) with BadDigest;;
      Ok ()
  end.

(** ** Lemmas *)

Lemma signatureInput_ok domain payload :
  bad_domain domain = false → bad_payload payload = false →
  signatureInput domain payload = Ok (domain ++ [Byte.x00] ++ payload).
Proof.
  unfold bad_domain, bad_payload. intros Hd Hp. bool_prop.
  unfold signatureInput, signatureInputSize, maximumSignatureDomainSize, maximumSignaturePayloadSize, max_int64 in *.
  replace (Z.of_nat (length domain) <? 0) with false by (symmetry; apply Z.ltb_ge; lia).
  replace (Z.of_nat (length payload) <? 0) with false by (symmetry; apply Z.ltb_ge; lia).
  replace (_ - _ - 1 <? _) with false by (symmetry; apply Z.ltb_ge; lia). cbn [orb mbind result_bind]. f_equal.
  rewrite (take_ge payload) by lia. apply take_ge. rewrite !length_app. cbn [length]. lia.
Qed.
Lemma separated (x y : list byte) (d e : list byte) :
  Byte.x00 ∉ d → Byte.x00 ∉ e → d ++ [Byte.x00] ++ x = e ++ [Byte.x00] ++ y → d = e ∧ x = y.
Proof.
  revert e. induction d as [|c d IH]; intros [|c' e] Hd He H; cbn in H.
  - split; [done|congruence].
  - injection H as <- _. by destruct He; left.
  - injection H as -> _. by destruct Hd; left.
  - apply not_elem_of_cons in Hd as [_ Hd], He as [_ He]. injection H as -> H.
    by destruct (IH e Hd He H) as [-> ->].
Qed.

(** Signing and verifying, by the bytes that the key signs. *)
Definition domain_ok (domain : list byte) : Prop := domain ≠ [] ∧ Z.of_nat (length domain) <= 255 ∧ Byte.x00 ∉ domain.
Definition payload_ok (payload : list byte) : Prop := payload ≠ [] ∧ Z.of_nat (length payload) <= 8 * 1024 * 1024.
Lemma bad_domain_ok domain : bad_domain domain = false ↔ domain_ok domain.
Proof.
  unfold bad_domain, domain_ok, maximumSignatureDomainSize. rewrite !orb_false_iff, !bool_decide_eq_false, Z.ltb_ge. tauto.
Qed.
Lemma bad_payload_ok payload : bad_payload payload = false ↔ payload_ok payload.
Proof. unfold bad_payload, payload_ok, maximumSignaturePayloadSize. by rewrite orb_false_iff, bool_decide_eq_false, Z.ltb_ge. Qed.
Lemma Sign_iff (ed : ed25519) domain payload key sig :
  Sign ed domain payload key = Ok sig ↔
  domain_ok domain ∧ payload_ok payload ∧ length key = PrivateKeySize ∧ sig = ed_sign ed key (domain ++ [Byte.x00] ++ payload).
Proof.
  rewrite <-bad_domain_ok, <-bad_payload_ok, <-Nat.eqb_eq. unfold Sign.
  destruct (bad_domain domain) eqn:Ed; [by split; [|intros [? _]]|]. destruct (bad_payload payload) eqn:Ep; [by split; [|intros (_ & ? & _)]|].
  destruct (_ =? _)%nat; [|by split; [|intros (_ & _ & ? & _)]]. cbn [orb negb]. rewrite signatureInput_ok by done. cbn [mbind result_bind].
  split; [intros <-%Ok_inj|intros (_ & _ & _ & ->)]; done.
Qed.
Lemma Verify_iff (ed : ed25519) domain payload sig pub :
  Verify ed domain payload sig pub = Ok () ↔
  domain_ok domain ∧ payload_ok payload ∧ length sig = SignatureSize ∧ length pub = PublicKeySize
  ∧ ed_verify ed pub (domain ++ [Byte.x00] ++ payload) sig = true.
Proof.
  rewrite <-bad_domain_ok, <-bad_payload_ok, <-!Nat.eqb_eq. unfold Verify.
  destruct (bad_domain domain) eqn:Ed; [by split; [|intros [? _]]|]. destruct (bad_payload payload) eqn:Ep; [by split; [|intros (_ & ? & _)]|].
  destruct (length sig =? _)%nat; [|by split; [|intros (_ & _ & ? & _)]]. destruct (length pub =? _)%nat; [|by split; [|intros (_ & _ & _ & ? & _)]].
  cbn [orb negb]. rewrite signatureInput_ok by done. cbn [mbind result_bind]. destruct (ed_verify _ _ _ _); cbn [negb]; naive_solver.
Qed.

(** What is signed verifies, and has the size of a signature. *)
Lemma Verify_Sign (ed : ed25519) domain payload key sig :
  ed25519_law ed → generated ed key → Sign ed domain payload key = Ok sig → Verify ed domain payload sig (ed_public ed key) = Ok ().
Proof. intros [_ Hps Hss Hv] Hk (Hd & Hp & Hl & ->)%Sign_iff. apply Verify_iff. split_and!; auto. Qed.
Lemma Sign_size (ed : ed25519) domain payload key sig :
  ed25519_law ed → Sign ed domain payload key = Ok sig → length sig = SignatureSize.
Proof. intros [_ _ Hss _] (_ & _ & Hl & ->)%Sign_iff. auto. Qed.
Lemma generated_size (ed : ed25519) key : ed25519_law ed → generated ed key → length key = PrivateKeySize.
Proof. intros [Hs _ _ _] (seed & Hl & ->). auto. Qed.

(** ** Properties *)

(** C37. Domain separation. [Sign] and [Verify] accept exactly the inputs within the bounds,
    and what the key signs, and what is verified, is the domain, a zero byte and the payload; those
    bytes determine the domain and the payload, so no signature is on the message of another
    pair; and, under the documented law of Ed25519, what a generated key signs verifies
    under its public key. *)
Theorem signature_domains (ed : ed25519) (domain payload : list byte) :
  (∀ key sig, Sign ed domain payload key = Ok sig ↔
     domain_ok domain ∧ payload_ok payload ∧ length key = PrivateKeySize ∧ sig = ed_sign ed key (domain ++ [Byte.x00] ++ payload))
  ∧ (∀ sig pub, Verify ed domain payload sig pub = Ok () ↔
     domain_ok domain ∧ payload_ok payload ∧ length sig = SignatureSize ∧ length pub = PublicKeySize
     ∧ ed_verify ed pub (domain ++ [Byte.x00] ++ payload) sig = true)
  ∧ (∀ domain' payload', domain_ok domain → domain_ok domain' →
     domain ++ [Byte.x00] ++ payload = domain' ++ [Byte.x00] ++ payload' → domain = domain' ∧ payload = payload')
  ∧ (ed25519_law ed → ∀ key sig, generated ed key → Sign ed domain payload key = Ok sig →
     Verify ed domain payload sig (ed_public ed key) = Ok ()).
Proof.
  split; [intros; apply Sign_iff|]. split; [intros; apply Verify_iff|].
  split; [intros d p (_ & _ & Hd) (_ & _ & Hd'); by apply separated|]. intros Hl key sig Hk. by apply Verify_Sign.
Qed.

(** A toy scheme that satisfies the law: the seed and the start of the message. *)
Definition demo_ed : ed25519 := {|
  ed_new_key := λ seed, seed ++ seed;
  ed_public := λ k, drop 32 k;
  ed_sign := λ k m, take 32 k ++ arr_fill 32 m;
  ed_verify := λ p m s, bool_decide (s = p ++ arr_fill 32 m) |}.
Lemma demo_ed_law : ed25519_law demo_ed.
Proof.
  split; cbn.
  - intros seed H. by rewrite length_app, H.
  - intros k Hk. by rewrite length_drop, Hk.
  - intros k m Hk. by rewrite length_app, length_arr_fill, length_take, Hk.
  - intros k m (seed & Hs & ->). cbn. apply bool_decide_eq_true. by rewrite take_app_length', drop_app_length'.
Qed.
Lemma demo_generated b : generated demo_ed (replicate 64 b).
Proof. by exists (replicate 32 b). Qed.
Lemma signature_domains_witness :
  Verify demo_ed (ascii_bytes "domain") [Byte.x01]
    (ed_sign demo_ed (replicate 64 Byte.x05) (ascii_bytes "domain" ++ [Byte.x00; Byte.x01])) (replicate 32 Byte.x05) = Ok ().
Proof.
  apply (proj2 (proj2 (proj2 (signature_domains demo_ed (ascii_bytes "domain") [Byte.x01]))) demo_ed_law (replicate 64 Byte.x05));
    [apply demo_generated|vm_compute; reflexivity].
Defined.

(** Key identifiers: [ValidateKeyID] accepts exactly the identifiers of digests, the
    canonical ["sha256/"] form, and those that [KeyID] emits are among them. *)
Theorem ValidateKeyID_exact (value : list byte) :
  (ValidateKeyID value = Ok () ↔ ∃ digest, length digest = Size ∧ value = keyPrefix ++ StdEncode digest)
  ∧ (∀ publicKey, ValidateKeyID (KeyID publicKey) = Ok ()).
Proof.
  assert (∀ digest, length digest = Size → ValidateKeyID (keyPrefix ++ StdEncode digest) = Ok ()) as Hk.
  { intros digest Hd. unfold ValidateKeyID. rewrite take_app_length, drop_app_length, StdDecode_Encode, Hd.
    rewrite !bool_decide_eq_true_2, Nat.eqb_refl by done. unfold StdEncode at 1.
    rewrite !length_app, length_raw_encode, Hd. done. }
  split; [split|].
  - unfold ValidateKeyID. case_guard G; [done|]. destruct (StdDecode _) as [d|]; [|done].
    case_guard G2; [done|]. intros _. bool_prop. exists d.
    match goal with H : (_ =? _)%nat = true |- _ => apply Nat.eqb_eq in H end. done.
  - intros (digest & Hd & ->). by apply Hk.
  - intros publicKey. apply Hk, length_Sum256.
Qed.
