(* ===== verification/Identity.v ===== *)
(** * Peer identity: [internal/identity/verify.go], [identity.go], [local.go]

    The strict checks on a TLS peer, SPKI pins and local leaves. A certificate is what the
    checks read of a parsed [x509.Certificate]; [san_names] is the outcome of decoding the
    value of its last subjectAltName extension as general names. *)

From S2P Require Import Prelude GoIO Text Sha256 Base64 Protocol Identifiers Names.

Abbreviation text := (list byte).

Inductive EKU := ClientAuth | ServerAuth | OtherEKU (n : Z).
#[export] Instance EKU_eq_dec : EqDecision EKU.
Proof. solve_decision. Defined.
Definition VersionTLS13 : Z := 772.
Definition KeyUsageDigitalSignature : Z := 1.

(** An [asn1.RawValue]: its class, tag, compound flag and content. *)
Record general_name := GeneralName { gn_class : Z; gn_tag : Z; gn_compound : bool; gn_bytes : list byte }.
Definition ClassContextSpecific : Z := 2.

Record certificate := Certificate {
  Raw : list byte;
  RawSubjectPublicKeyInfo : list byte;
  BasicConstraintsValid : bool;
  IsCA : bool;
  KeyUsage : Z;
  UnknownExtKeyUsage : nat;
  ExtKeyUsage : list EKU;
  DNSNames : list text;
  otherSANs : nat;
  sanCount : nat;
  san_names : option (list general_name);
  NotBefore : Z;
  NotAfter : Z }.

Inductive identity_err :=
| NameEmpty | NameTooLong | NameNotLower | NameTrailingDot | NameLabel | NameHyphen | NameCharacter
| BadProfileEKU | ALPNEmpty | AllowlistEmpty
| NotTLS13 | Resumed | WrongALPN | WrongSNI | NoLeaf | NoChain | LeafNoDER | ChainNoLeaf | ChainOtherLeaf
| NoConstraints | LeafIsCA | WrongKeyUsage | UnknownEKU | WrongEKU
| WrongSAN | NonDNSSAN | SANExtensions | SANMalformed | SANCount | SANProfile | RawSAN
| NoSPKI | NotAuthorized
| PinPrefix | PinDecode | PinSize | PinNotCanonical | AllowlistDuplicate
| LocalTimeRequired | LocalNoCertificate | LocalMismatch | LocalNotLeaf | LocalExpired | LocalChain.
#[export] Instance identity_err_eq_dec : EqDecision identity_err.
Proof. solve_decision. Defined.

(** ** Canonical DNS names *)

Definition hyphen : byte := Byte.x2d.
Definition name_char (c : byte) : bool :=
  ((97 <=? b2z c) && (b2z c <=? 122)) || ((48 <=? b2z c) && (b2z c <=? 57)) || bool_decide (c = hyphen).
Fixpoint check_labels (labels : list text) : result identity_err () :=
  match labels with
  | [] => Ok ()
  | label :: rest =>
      reject (length label =? 0)%nat || (63 <? Z.of_nat (length label)) with NameLabel;;
      reject bool_decide (list.head label = Some hyphen) || bool_decide (list.last label = Some hyphen) with NameHyphen;;
      reject negb (forallb name_char label) with NameCharacter;;
      check_labels rest
  end.
Definition validateCanonicalDNSName (name : text) : result identity_err () :=
  reject bool_decide (name = []) with NameEmpty;;
  reject 253 <? Z.of_nat (length name) with NameTooLong;;
  reject negb (bool_decide (name = to_lower <$> name)) with NameNotLower;;
  reject bool_decide (list.last name = Some dot) with NameTrailingDot;;
  check_labels (Split dot name).
Definition ValidateDNSName (name : text) : result identity_err () := validateCanonicalDNSName name.

(** ** SPKI pins: [identity.go] *)

Definition spkiPinPrefix : text := ascii_bytes "sha256/".
Definition SPKIHash : Type := arr Size.
Definition PinSet : Type := gset (arr Size).

Definition HashSPKI (cert : option certificate) : result identity_err SPKIHash :=
  match cert with
  | None => Err NoSPKI
  | Some c =>
      reject bool_decide (RawSubjectPublicKeyInfo c = []) with NoSPKI;;
      Ok (arr_copy Size (Sum256 (RawSubjectPublicKeyInfo c)))
  end.
Definition FormatSPKIPin (hash : SPKIHash) : text := spkiPinPrefix ++ StdEncode (arr_bytes hash).
Definition SPKIPin (cert : option certificate) : result identity_err text :=
  hash ← HashSPKI cert; Ok (FormatSPKIPin hash).
Definition ParseSPKIPin (pin : text) : result identity_err SPKIHash :=
  reject (length pin <=? length spkiPinPrefix)%nat
      || negb (bool_decide (take (length spkiPinPrefix) pin = spkiPinPrefix)) with PinPrefix;;
  match StdDecode (drop (length spkiPinPrefix) pin) with
  | None => Err PinDecode
  | Some decoded =>
      reject negb (length decoded =? Size)%nat with PinSize;;
      let hash := arr_copy Size decoded in
      reject negb (bool_decide (FormatSPKIPin hash = pin)) with PinNotCanonical;;
      Ok hash
  end.
Fixpoint parse_pins (pins : list text) (set : PinSet) : result identity_err PinSet :=
  match pins with
  | [] => Ok set
  | pin :: rest =>
      hash ← ParseSPKIPin pin;
      reject bool_decide (hash ∈ set) with AllowlistDuplicate;;
      parse_pins rest ({[hash]} ∪ set)
  end.
Definition ParsePinAllowlist (pins : list text) : result identity_err PinSet :=
  reject bool_decide (pins = []) with AllowlistEmpty;;
  parse_pins pins ∅.
Definition Contains (pins : PinSet) (hash : SPKIHash) : bool := bool_decide (hash ∈ pins).

(** ** Peers: [verify.go] *)

Record PeerProfile := {
  ExpectedDNSName : text;
  ExpectedServerName : text;
  RequiredEKU : EKU;
  ALPN : text;
  AllowedSPKIs : PinSet }.

(** What is read of a [tls.ConnectionState]; a chain lists its certificates, nil or not. *)
Record ConnectionState := {
  tls_version : Z;
  DidResume : bool;
  NegotiatedProtocol : text;
  ServerName : text;
  PeerCertificates : list (option certificate);
  VerifiedChains : list (list (option certificate)) }.

Definition endpoint_EKU (e : EKU) : bool := bool_decide (e = ClientAuth) || bool_decide (e = ServerAuth).
Definition profile_validate (profile : PeerProfile) : result identity_err () :=
  _ ← validateCanonicalDNSName (ExpectedDNSName profile);
  _ ← (if bool_decide (ExpectedServerName profile = []) then Ok ()
       else validateCanonicalDNSName (ExpectedServerName profile));
  reject negb (endpoint_EKU (RequiredEKU profile)) with BadProfileEKU;;
  reject bool_decide (ALPN profile = []) with ALPNEmpty;;
  reject bool_decide (AllowedSPKIs profile = ∅) with AllowlistEmpty;;
  Ok ().

Definition verifyExactDNSSAN (cert : certificate) (expected : text) : result identity_err () :=
  reject negb (bool_decide (DNSNames cert = [expected])) with WrongSAN;;
  reject negb (otherSANs cert =? 0)%nat with NonDNSSAN;;
  reject negb (sanCount cert =? 1)%nat with SANExtensions;;
  match san_names cert with
  | None => Err SANMalformed
  | Some [name] =>
      reject negb (gn_class name =? ClassContextSpecific) || negb (gn_tag name =? 2) || gn_compound name with SANProfile;;
      reject negb (bool_decide (gn_bytes name = expected)) with RawSAN;;
      Ok ()
  | Some _ => Err SANCount
  end.

Fixpoint check_chains (leaf : certificate) (chains : list (list (option certificate))) : result identity_err () :=
  match chains with
  | [] => Ok ()
  | (Some first :: _) :: rest =>
      reject negb (bool_decide (Raw first = Raw leaf)) with ChainOtherLeaf;;
      check_chains leaf rest
  | _ :: _ => Err ChainNoLeaf
  end.

(** The profile of a leaf: its constraints, key usage and single extended key usage. *)
Definition check_leaf (leaf : certificate) (required : EKU) : result identity_err () :=
  reject negb (BasicConstraintsValid leaf) with NoConstraints;;
  reject IsCA leaf with LeafIsCA;;
  reject negb (KeyUsage leaf =? KeyUsageDigitalSignature) with WrongKeyUsage;;
  reject negb (UnknownExtKeyUsage leaf =? 0)%nat with UnknownEKU;;
  reject negb (bool_decide (ExtKeyUsage leaf = [required])) with WrongEKU;;
  Ok ().

Definition VerifyConnection (profile : PeerProfile) (state : ConnectionState) : result identity_err () :=
  _ ← profile_validate profile;
  reject negb (tls_version state =? VersionTLS13) with NotTLS13;;
  reject DidResume state with Resumed;;
  reject negb (bool_decide (NegotiatedProtocol state = ALPN profile)) with WrongALPN;;
  reject negb (bool_decide (ExpectedServerName profile = []))
      && negb (bool_decide (ServerName state = ExpectedServerName profile)) with WrongSNI;;
  match PeerCertificates state with
  | Some leaf :: _ =>
      reject bool_decide (VerifiedChains state = []) with NoChain;;
      reject bool_decide (Raw leaf = []) with LeafNoDER;;
      _ ← check_chains leaf (VerifiedChains state);
      _ ← check_leaf leaf (RequiredEKU profile);
      _ ← verifyExactDNSSAN leaf (ExpectedDNSName profile);
      hash ← HashSPKI (Some leaf);
      reject negb (Contains (AllowedSPKIs profile) hash) with NotAuthorized;;
      Ok ()
  | _ => Err NoLeaf
  end.

(** ** Local leaves: [local.go] *)

(** A [tls.Certificate]: the DER chain and the parsed leaf. [chain] is the outcome of parsing
    the intermediates and of [leaf.Verify]: the raw first certificate of the first chain, if
    any; it is not consulted when there are no roots. *)
Definition ValidateLocalCertificate (der : list (list byte)) (leaf : certificate) (roots : bool)
    (chain : option (list byte)) (expectedDNSName : text) (requiredEKU : EKU) (time_zero : bool) (now : Z)
    : result identity_err () :=
  _ ← validateCanonicalDNSName expectedDNSName;
  reject negb (endpoint_EKU requiredEKU) with BadProfileEKU;;
  reject time_zero with LocalTimeRequired;;
  match der with
  | [] => Err LocalNoCertificate
  | first :: _ =>
      reject bool_decide (Raw leaf = []) || negb (bool_decide (Raw leaf = first)) with LocalMismatch;;
      reject negb (BasicConstraintsValid leaf) || IsCA leaf with LocalNotLeaf;;
      reject negb (KeyUsage leaf =? KeyUsageDigitalSignature) with WrongKeyUsage;;
      reject negb (UnknownExtKeyUsage leaf =? 0)%nat || negb (bool_decide (ExtKeyUsage leaf = [requiredEKU])) with WrongEKU;;
      _ ← verifyExactDNSSAN leaf expectedDNSName;
      reject (now <? NotBefore leaf) || negb (now <? NotAfter leaf) with LocalExpired;;
      if negb roots then Ok ()
      else match chain with
           | None => Err LocalChain
           | Some raw => reject negb (bool_decide (raw = Raw leaf)) with LocalChain;; Ok ()
           end
  end.

(** ** Lemmas: canonical names *)

Fixpoint join (labels : list text) : text :=
  match labels with
  | [] => []
  | [label] => label
  | label :: rest => label ++ dot :: join rest
  end.
(** A label the check accepts. *)
Definition label_ok (label : text) : bool :=
  negb (length label =? 0)%nat && (Z.of_nat (length label) <=? 63)
  && negb (bool_decide (list.head label = Some hyphen)) && negb (bool_decide (list.last label = Some hyphen)) && forallb name_char label.

Lemma check_labels_ok labels : check_labels labels = Ok () ↔ forallb label_ok labels = true.
Proof.
  induction labels as [|label rest IH]; [done|]. cbn [check_labels forallb]. unfold label_ok.
  rewrite (Z.leb_antisym 63). destruct (length label =? 0)%nat, (63 <? _), (bool_decide (list.head label = _)),
    (bool_decide (list.last label = _)), (forallb name_char label); cbn; done.
Qed.
Lemma name_char_plain c : name_char c = true → to_lower c = c ∧ c ≠ dot.
Proof.
  unfold name_char, to_lower. intros H. split; [|by intros ->].
  destruct (65 <=? b2z c) eqn:E1, (b2z c <=? 90) eqn:E2; try done. exfalso. cbn in *. bool_prop.
  apply orb_true_iff in H as [[H|H]%orb_true_iff|H]; bool_prop; [lia|lia|]. subst. by vm_compute in E1.
Qed.
Lemma label_plain label : label_ok label = true → (dot ∉ label) ∧ (to_lower <$> label) = label ∧ label ≠ [] ∧ list.last label ≠ Some dot.
Proof.
  unfold label_ok. intros H. bool_prop. match goal with H : forallb _ _ = true |- _ => rename H into Hc end.
  rewrite forallb_forall in Hc. assert (dot ∉ label) as Hd.
  { intros Hd%list_elem_of_In. apply Hc, name_char_plain in Hd as [_ []]. done. }
  split; [done|]. split; [|split].
  - clear - Hc. induction label as [|c label IH]; [done|]. cbn. f_equal; [apply name_char_plain, Hc; by left|].
    apply IH. intros x Hx. apply Hc. by right.
  - by intros ->.
  - intros Hl. apply last_Some in Hl as [k ->]. apply Hd. apply elem_of_app. right. by left.
Qed.

Lemma join_spec labels :
  labels ≠ [] → forallb label_ok labels = true →
  Split dot (join labels) = labels ∧ (to_lower <$> join labels) = join labels ∧ join labels ≠ [] ∧ list.last (join labels) ≠ Some dot.
Proof.
  intros Hne. induction labels as [|label rest IH]; [done|]. cbn [forallb]. intros [Hl Hr]%andb_true_iff.
  destruct (label_plain label Hl) as (Hd & Hlow & Hn & Hlast). destruct rest as [|label' rest].
  - cbn [join]. split; [by apply Split_last|done].
  - destruct IH as (Hs & Hjl & Hjn & Hjlast); [done|done|]. change (join (label :: label' :: rest)) with (label ++ dot :: join (label' :: rest)).
    rewrite Split_label, Hs by done. split; [done|]. split; [|split].
    + rewrite fmap_app, fmap_cons, Hlow, Hjl. done.
    + by destruct label.
    + rewrite last_app, last_cons. destruct (list.last (join _)) eqn:E; [done|]. by apply last_None in E.
Qed.

Lemma canonical_join labels :
  labels ≠ [] → forallb label_ok labels = true → Z.of_nat (length (join labels)) <= 253 →
  validateCanonicalDNSName (join labels) = Ok ().
Proof.
  intros Hne Hl Hlen. destruct (join_spec labels Hne Hl) as (Hs & Hlow & Hn & Hlast). unfold validateCanonicalDNSName.
  rewrite bool_decide_eq_false_2, Hlow, bool_decide_eq_true_2, bool_decide_eq_false_2, Hs by done.
  replace (253 <? _) with false by (symmetry; by apply Z.ltb_ge). cbn [negb]. by apply check_labels_ok.
Qed.

Lemma id_char_name c : id_char c = true → name_char c = true.
Proof.
  unfold id_char, name_char. intros [H|H]%orb_true_iff; bool_prop.
  - by rewrite (proj2 (Z.leb_le 97 _)), (proj2 (Z.leb_le _ 122)).
  - rewrite (proj2 (Z.leb_le 48 (b2z c))), (proj2 (Z.leb_le (b2z c) 57)) by lia. cbn. by rewrite orb_true_r.
Qed.
(** A label made of a short lowercase prefix and identifier or hexadecimal text. *)
Lemma label_prefix p l :
  (0 < length p)%nat → (0 < length l)%nat → Z.of_nat (length p + length l) <= 63 →
  forallb name_char p = true → forallb name_char l = true → list.head p ≠ Some hyphen → list.last l ≠ Some hyphen →
  label_ok (p ++ l) = true.
Proof.
  intros Hp Hl Hlen Cp Cl Hh Hla. unfold label_ok. rewrite length_app, forallb_app, Cp, Cl.
  replace (_ =? 0)%nat with false by (symmetry; apply Nat.eqb_neq; lia).
  rewrite (proj2 (Z.leb_le _ 63)) by lia. rewrite last_app, head_app.
  destruct (list.last l) as [x|] eqn:El; [|destruct l; [cbn in Hl; lia|by apply last_None in El]].
  destruct (list.head p) as [y|] eqn:Ep; [|destruct p; [cbn in Hp; lia|done]].
  by rewrite !bool_decide_eq_false_2.
Qed.
Lemma id_text_chars (id : arr IDSize) : forallb name_char (formatID (arr_bytes id)) = true ∧ list.last (formatID (arr_bytes id)) ≠ Some hyphen.
Proof.
  pose proof (formatID_id_chars (arr_bytes id)) as H. rewrite forallb_forall in H. split.
  - apply forallb_forall. intros c Hc. by apply id_char_name, H.
  - intros [k Hk]%last_Some. assert (id_char hyphen = true) as Hx; [|done]. apply H. rewrite Hk. apply in_or_app. right. by left.
Qed.
Lemma id_label p (id : arr IDSize) :
  (0 < length p <= 11)%nat → forallb name_char p = true → list.head p ≠ Some hyphen → label_ok (p ++ formatID (arr_bytes id)) = true.
Proof.
  intros Hp Cp Hh. destruct (id_text_chars id) as [C L]. pose proof (length_formatID (arr_bytes id) (length_arr_bytes id)) as Hl.
  change EncodedIDSize with 52%nat in Hl. by apply label_prefix; [lia|lia|lia|..].
Qed.
Lemma hex_put_chars n z : forallb name_char (hex_put n z) = true ∧ hyphen ∉ hex_put n z.
Proof.
  split; [|by apply hex_put_no_char]. revert z. induction n as [|n IH]; intros z; [done|].
  change (hex_put (S n) z) with (hex_put n (z / 16) ++ [hex_char (z mod 16)]). rewrite forallb_app, IH. cbn. rewrite andb_true_r.
  assert (∀ d, 0 <= d < 16 → name_char (hex_char d) = true) as H by (apply hex_cases; by repeat constructor).
  apply H, Z.mod_pos_bound. lia.
Qed.

Lemma lit_label l : label_ok l = true → forallb label_ok [l] = true.
Proof. intros H. cbn. by rewrite H. Qed.

(** The names of the configuration, label by label. *)
Lemma legacy_name_ok p s (id : arr IDSize) rest :
  s = dot :: join rest → rest ≠ [] → (0 < length p <= 11)%nat → forallb name_char p = true → list.head p ≠ Some hyphen →
  forallb label_ok rest = true → Z.of_nat (length s) <= 150 →
  validateCanonicalDNSName (p ++ formatID (arr_bytes id) ++ s) = Ok ().
Proof.
  intros -> Hne Hp Cp Hh Hr Hlen. pose proof (length_formatID (arr_bytes id) (length_arr_bytes id)) as Hl.
  change EncodedIDSize with 52%nat in Hl.
  replace (p ++ formatID (arr_bytes id) ++ dot :: join rest) with (join ((p ++ formatID (arr_bytes id)) :: rest))
    by (destruct rest; [done|]; cbn [join]; by rewrite <-app_assoc).
  apply canonical_join; [done| |].
  - cbn [forallb]. by rewrite id_label, Hr.
  - destruct rest as [|t rest]; [done|]. change (join (?x :: t :: rest)) with (x ++ dot :: join (t :: rest)).
    rewrite !length_app. lia.
Qed.

Lemma capability_name_ok clientID connectorID route epoch :
  validateCanonicalDNSName (ClientCapabilityDNSName clientID connectorID route epoch) = Ok ().
Proof.
  replace (ClientCapabilityDNSName clientID connectorID route epoch) with
    (join [ascii_bytes "i-" ++ ID_String clientID; ascii_bytes "r-" ++ RouteID_String route;
           ascii_bytes "c-" ++ ID_String connectorID; ascii_bytes "e-" ++ hex_put 16 epoch;
           ascii_bytes "client-cap"; ascii_bytes "v1"; ascii_bytes "owntransit"; ascii_bytes "invalid"])
    by (cbn [join]; unfold ClientCapabilityDNSName; by rewrite <-!app_assoc).
  unfold ID_String, RouteID_String.
  pose proof (length_formatID _ (length_arr_bytes clientID)) as L1.
  pose proof (length_formatID _ (length_arr_bytes connectorID)) as L2.
  pose proof (length_formatID _ (length_arr_bytes route)) as L3. change EncodedIDSize with 52%nat in *.
  pose proof (length_hex_put 16 epoch) as L4. destruct (hex_put_chars 16 epoch) as [C4 H4].
  apply canonical_join; [done| |].
  - cbn [forallb]. rewrite !id_label by (done || (cbn; lia)).
    rewrite label_prefix; [done|cbn; lia|lia|by rewrite L4|done|done|done|].
    intros [k Hk]%last_Some. apply H4. rewrite Hk. apply elem_of_app. right. by left.
  - cbn [join]. repeat (rewrite ?length_app; cbn [length]). rewrite L1, L2, L3, L4. vm_compute. discriminate.
Qed.

(** ** Properties *)

(** What a strict check accepts: TLS 1.3, never resumed, the protocol and server name of the
    profile, verified chains that begin with the presented leaf, and a leaf that is no
    certificate authority, signs only, is for exactly the required usage, carries exactly the
    expected DNS name and nothing else, and whose key is pinned. *)
Record authenticated (profile : PeerProfile) (state : ConnectionState) : Prop := {
  au_tls : tls_version state = VersionTLS13 ∧ DidResume state = false ∧ NegotiatedProtocol state = ALPN profile;
  au_sni : ExpectedServerName profile ≠ [] → ServerName state = ExpectedServerName profile;
  au_leaf : ∃ leaf rest, PeerCertificates state = Some leaf :: rest ∧ Raw leaf ≠ []
    ∧ VerifiedChains state ≠ []
    ∧ Forall (λ chain, ∃ first more, chain = Some first :: more ∧ Raw first = Raw leaf) (VerifiedChains state)
    ∧ BasicConstraintsValid leaf = true ∧ IsCA leaf = false ∧ KeyUsage leaf = KeyUsageDigitalSignature
    ∧ UnknownExtKeyUsage leaf = 0%nat ∧ ExtKeyUsage leaf = [RequiredEKU profile]
    ∧ DNSNames leaf = [ExpectedDNSName profile] ∧ otherSANs leaf = 0%nat ∧ sanCount leaf = 1%nat
    ∧ san_names leaf = Some [GeneralName ClassContextSpecific 2 false (ExpectedDNSName profile)]
    ∧ RawSubjectPublicKeyInfo leaf ≠ []
    ∧ arr_copy Size (Sum256 (RawSubjectPublicKeyInfo leaf)) ∈ AllowedSPKIs profile }.

Lemma check_chains_ok leaf chains :
  check_chains leaf chains = Ok () ↔
  Forall (λ chain, ∃ first more, chain = Some first :: more ∧ Raw first = Raw leaf) chains.
Proof.
  induction chains as [|chain chains IH]; [split; [constructor|done]|]. cbn [check_chains]. rewrite Forall_cons_iff. split.
  - destruct chain as [|[first|] more]; try done. case_guard G; [done|]. bool_prop. intros H%IH.
    split; [by exists first, more|done].
  - intros [(first & more & -> & Hr) H]. rewrite bool_decide_eq_true_2 by done. by apply IH.
Qed.
Lemma verifyExactDNSSAN_ok cert expected :
  verifyExactDNSSAN cert expected = Ok () ↔
  DNSNames cert = [expected] ∧ otherSANs cert = 0%nat ∧ sanCount cert = 1%nat
  ∧ san_names cert = Some [GeneralName ClassContextSpecific 2 false expected].
Proof.
  unfold verifyExactDNSSAN. split.
  - case_guard G1; [done|]. case_guard G2; [done|]. case_guard G3; [done|].
    destruct (san_names cert) as [[|n [|]]|] eqn:E; try done. case_guard G4; [done|]. case_guard G5; [done|]. intros _.
    bool_prop. apply Nat.eqb_eq in G2, G3. destruct n as [c t b k]. cbn in *. by subst.
  - intros (-> & -> & -> & ->). by rewrite !bool_decide_eq_true_2 by done.
Qed.

(** C23. Peer authentication: a connection is accepted exactly when the profile is valid and
    the peer is authenticated in the sense of that record; there is no other way in. *)
Theorem VerifyConnection_exact (profile : PeerProfile) (state : ConnectionState) :
  VerifyConnection profile state = Ok () ↔ profile_validate profile = Ok () ∧ authenticated profile state.
Proof.
  unfold VerifyConnection. split.
  - destruct (profile_validate profile) as [[]|]; [|done]. cbn [mbind result_bind].
    case_guard G1; [done|]. case_guard G2; [done|]. case_guard G3; [done|]. case_guard G4; [done|].
    destruct (PeerCertificates state) as [|[leaf|] rest] eqn:Ep; try done.
    case_guard G5; [done|]. case_guard G6; [done|]. destruct (check_chains _ _) as [[]|] eqn:Ec; [|done].
    cbn [mbind result_bind]. unfold check_leaf. repeat (match goal with |- context [if ?b then _ else _] => destruct b eqn:? end; try done).
    destruct (verifyExactDNSSAN _ _) as [[]|] eqn:Es; [|done]. cbn [mbind result_bind]. unfold HashSPKI.
    repeat (match goal with |- context [if ?b then _ else _] => destruct b eqn:? end; cbn [mbind result_bind]; try done).
    intros _. split; [done|]. bool_prop. apply check_chains_ok in Ec. apply verifyExactDNSSAN_ok in Es as (? & ? & ? & ?).
    split; [done| |].
    + intros Hn. apply andb_false_iff in G4 as [Hz|Hz]; bool_prop; done.
    + exists leaf, rest. unfold Contains in *. bool_prop.
      repeat match goal with H : (_ =? _)%nat = true |- _ => apply Nat.eqb_eq in H end. by split_and!.
  - intros [-> [(-> & -> & ->) Hsni (leaf & rest & -> & Hraw & Hch & Hall & Hbc & Hca & Hku & Hun & Hek & Hd & Ho & Hs & Hn & Hspki & Hin)]].
    cbn [mbind result_bind]. rewrite Z.eqb_refl, bool_decide_eq_true_2 by done. cbn [negb].
    replace (negb (bool_decide (ExpectedServerName profile = [])) && _) with false.
    2: { symmetry. apply andb_false_iff. destruct (decide (ExpectedServerName profile = [])) as [->|Hne]; [by left|right].
         by rewrite bool_decide_eq_true_2 by auto. }
    rewrite !bool_decide_eq_false_2 by done. rewrite (proj2 (check_chains_ok leaf _)) by done. cbn [mbind result_bind].
    unfold check_leaf. rewrite Hbc, Hca, Hku, Hun, Hek, Z.eqb_refl, Nat.eqb_refl, bool_decide_eq_true_2 by done. cbn [negb mbind result_bind].
    rewrite (proj2 (verifyExactDNSSAN_ok leaf _)) by done. cbn [mbind result_bind]. unfold HashSPKI.
    rewrite bool_decide_eq_false_2 by done. cbn [mbind result_bind]. unfold Contains. by rewrite bool_decide_eq_true_2.
Qed.

Lemma ParseSPKIPin_ok pin hash : ParseSPKIPin pin = Ok hash ↔ pin = FormatSPKIPin hash.
Proof.
  unfold ParseSPKIPin. split.
  - case_guard G; [done|]. destruct (StdDecode _) as [d|]; [|done]. case_guard G2; [done|]. case_guard G3; [done|].
    intros <-%Ok_inj. by bool_prop.
  - intros ->. unfold FormatSPKIPin. rewrite take_app_length, drop_app_length, StdDecode_Encode, length_arr_bytes.
    rewrite Nat.eqb_refl, arr_copy_bytes, !bool_decide_eq_true_2 by done. unfold StdEncode at 1.
    by rewrite !length_app, length_raw_encode, length_arr_bytes.
Qed.
Lemma parse_pins_ok pins set result :
  parse_pins pins set = Ok result ↔
  ∃ hashes, pins = FormatSPKIPin <$> hashes ∧ NoDup hashes ∧ (∀ h, h ∈ hashes → h ∉ set) ∧ result = list_to_set hashes ∪ set.
Proof.
  revert set. induction pins as [|pin pins IH]; intros set; cbn [parse_pins].
  - split.
    + intros <-%Ok_inj. exists []. split; [done|]. split; [constructor|]. set_solver.
    + intros ([|] & H & _ & _ & ->); [|done]. f_equal. set_solver.
  - split.
    + destruct (ParseSPKIPin pin) as [h|] eqn:E; [|done]. cbn [mbind result_bind]. case_guard G; [done|]. bool_prop.
      intros (hs & -> & Hnd & Hnew & ->)%IH. clear IH. exists (h :: hs). apply ParseSPKIPin_ok in E as ->. split; [done|].
      split; [|split]; [|set_solver|set_solver]. constructor; [|done]. intros Hin. apply Hnew in Hin. set_solver.
    + intros ([|h hs] & Hp & Hnd & Hnew & ->); [done|]. injection Hp as -> ->. apply list.NoDup_cons in Hnd as [Hh Hnd].
      rewrite (proj2 (ParseSPKIPin_ok _ h) eq_refl). cbn [mbind result_bind].
      rewrite bool_decide_eq_false_2 by (apply Hnew; by left). apply IH. exists hs. split; [done|]. split; [done|].
      split; [set_solver|]. set_solver.
Qed.

(** Pin allowlists: a list of texts is accepted exactly when it is the canonical
    spelling of distinct hashes, at least one, and the set is exactly those hashes: no alias
    of a pin is read, and none is dropped or merged. *)
Theorem ParsePinAllowlist_exact (pins : list text) (set : PinSet) :
  ParsePinAllowlist pins = Ok set ↔
  ∃ hashes, pins = FormatSPKIPin <$> hashes ∧ hashes ≠ [] ∧ NoDup hashes ∧ set = list_to_set hashes.
Proof.
  unfold ParsePinAllowlist. split.
  - case_guard G; [done|]. bool_prop. intros (hs & -> & Hnd & _ & ->)%parse_pins_ok. exists hs.
    split; [done|]. split; [by destruct hs|]. split; [done|]. set_solver.
  - intros (hs & -> & Hne & Hnd & ->). rewrite bool_decide_eq_false_2 by (by destruct hs).
    apply parse_pins_ok. exists hs. split; [done|]. split; [done|]. split; set_solver.
Qed.

(** Every name the configuration builds is a canonical DNS name of the identity checks,
    for any identifiers, route and epoch: the two components agree on what a name is, and a
    peer profile with such a name is never refused for it. *)
Theorem configured_names_canonical (clientID connectorID : ID) (route : RouteID) (epoch : Z) :
  ValidateDNSName (ClientCapabilityDNSName clientID connectorID route epoch) = Ok ()
  ∧ ValidateDNSName (CapabilityConnectorDNSName connectorID route) = Ok ()
  ∧ ValidateDNSName (ConnectorDNSName route) = Ok () ∧ ValidateDNSName (OuterConnectorDNSName route) = Ok ()
  ∧ ValidateDNSName (ClientDNSName clientID) = Ok () ∧ ValidateDNSName (OuterClientDNSName clientID) = Ok ().
Proof.
  split; [apply capability_name_ok|]. split.
  - unfold CapabilityConnectorDNSName, ID_String.
    replace (ascii_bytes "i-" ++ formatID (arr_bytes connectorID) ++ _) with
      (join [ascii_bytes "i-" ++ formatID (arr_bytes connectorID); ascii_bytes "r-" ++ RouteID_String route;
             ascii_bytes "connector"; ascii_bytes "v1"; ascii_bytes "owntransit"; ascii_bytes "invalid"])
      by (cbn [join]; by rewrite <-!app_assoc).
    pose proof (length_formatID _ (length_arr_bytes connectorID)) as L1.
    pose proof (length_formatID _ (length_arr_bytes route)) as L2. change EncodedIDSize with 52%nat in *.
    unfold ValidateDNSName, RouteID_String. apply canonical_join; [done| |].
    + cbn [forallb]. by rewrite !id_label by (done || (cbn; lia)).
    + cbn [join]. repeat (rewrite ?length_app; cbn [length]). rewrite L1, L2. vm_compute. discriminate.
  - unfold ValidateDNSName.
    split; [|split; [|split]];
      [apply (legacy_name_ok _ _ _ [ascii_bytes "connector"; ascii_bytes "forthgate"; ascii_bytes "invalid"])
      |apply (legacy_name_ok _ _ _ [ascii_bytes "outer-connector"; ascii_bytes "forthgate"; ascii_bytes "invalid"])
      |apply (legacy_name_ok _ _ _ [ascii_bytes "client"; ascii_bytes "forthgate"; ascii_bytes "invalid"])
      |apply (legacy_name_ok _ _ _ [ascii_bytes "outer-client"; ascii_bytes "forthgate"; ascii_bytes "invalid"])];
      first [reflexivity | discriminate | (vm_compute; discriminate) | (vm_compute; lia)].
Qed.
