(* ===== verification/Mailbox.v ===== *)
(** * The enrollment mailbox: [internal/enrollmentexchange/mailbox_store.go]

    A bounded in-memory store of two-slot mailboxes. Each operation of [MailboxStore] is
    one definition; it takes the reading of the clock. The checks on a nil receiver are
    not modelled. *)

From S2P Require Import Prelude GoIO Text Sha256 Protocol Identifiers Base64.

Definition mailboxCapabilitySize : nat := 32.
Definition MaxMailboxSlots : Z := 1024.
Definition MaxMailboxStoredBytes : Z := 32 * 2 ^ 20.
Definition MaxMailboxLifetime : Z := 24 * Hour.
Definition MaxEncryptedRequestSize : Z := 640 * 2 ^ 10.
Definition MaxEnvelopeSize : Z := 2 * 2 ^ 20.
Definition MaxBoundResponseSize : Z := 2 * MaxEnvelopeSize.

(** Absent mailboxes, wrong capabilities, expiry and capacity all fail alike. *)
Inductive mailbox_err := ErrMailboxUnavailable.
#[export] Instance mailbox_err_eq_dec : EqDecision mailbox_err.
Proof. solve_decision. Defined.

Abbreviation text := (list byte).

Definition parseMailboxCapability (value : text) : result mailbox_err (list byte) :=
  match RawURLDecode value with
  | None => Err ErrMailboxUnavailable
  | Some decoded =>
      reject negb (length decoded =? mailboxCapabilitySize)%nat
             || bool_decide (RawURLEncode decoded ≠ value) with ErrMailboxUnavailable;;
      Ok decoded
  end.

(** The four action strings. *)
Inductive action := RequestWrite | RequestRead | ResponseWrite | ResponseRead.
#[export] Instance action_eq_dec : EqDecision action.
Proof. solve_decision. Defined.
Definition action_name (a : action) : list byte :=
  match a with
  | RequestWrite => ascii_bytes "request-write"
  | RequestRead => ascii_bytes "request-read"
  | ResponseWrite => ascii_bytes "response-write"
  | ResponseRead => ascii_bytes "response-read"
  end.

Definition NUL : byte := Byte.x00.
Definition actionInput (mailboxID : text) (a : action) (capability : text) : list byte :=
  ascii_bytes "OwnTransit mailbox action capability v1" ++ [NUL] ++ action_name a ++ [NUL]
    ++ mailboxID ++ [NUL] ++ capability.
Definition mailboxActionHash (mailboxID : text) (a : action) (capability : text) : list byte :=
  Sum256 (actionInput mailboxID a capability).

Record mailboxSlot := MailboxSlot {
  expires : Z;
  requestWriteHash : list byte;
  requestReadHash : list byte;
  responseWriteHash : list byte;
  responseReadHash : list byte;
  request : list byte;
  response : list byte;
  consumed : bool }.
#[export] Instance eta_mailboxSlot : Eta mailboxSlot := λ s,
  MailboxSlot (expires s) (requestWriteHash s) (requestReadHash s) (responseWriteHash s) (responseReadHash s)
    (request s) (response s) (consumed s).
#[export] Instance mailboxSlot_eq_dec : EqDecision mailboxSlot.
Proof. solve_decision. Defined.

Abbreviation slot_map := (gmap (list byte) mailboxSlot).
Record MailboxStore := MkStore { slots : slot_map; storedBytes : Z }.
#[export] Instance eta_MailboxStore : Eta MailboxStore := λ s, MkStore (slots s) (storedBytes s).

Definition NewMailboxStore : MailboxStore := MkStore ∅ 0.

Definition expected_hash (a : action) (slot : mailboxSlot) : list byte :=
  match a with
  | RequestWrite => requestWriteHash slot
  | RequestRead => requestReadHash slot
  | ResponseWrite => responseWriteHash slot
  | ResponseRead => responseReadHash slot
  end.
Definition authorized (mailboxID : text) (a : action) (capability : text) (slot : mailboxSlot) : bool :=
  bool_decide (mailboxActionHash mailboxID a capability = expected_hash a slot).

(** The bytes a slot stores; the counter follows their length. *)
Definition contents (slot : mailboxSlot) : list byte := request slot ++ response slot.
Definition stored (m : slot_map) : Z := sum_len (contents <$> m).
Definition live (now : Z) (m : slot_map) : slot_map := filter (λ kv, (now <? expires kv.2) = true) m.
Definition dead (now : Z) (m : slot_map) : slot_map := filter (λ kv, (now <? expires kv.2) ≠ true) m.

Definition expireLocked (now : Z) (s : MailboxStore) : MailboxStore :=
  let bytes := storedBytes s - stored (dead now (slots s)) in
  MkStore (live now (slots s)) (if bytes <? 0 then 0 else bytes).

(** The loop of [Create] that decodes the capabilities and compares each with the prior. *)
Fixpoint decode_distinct (capabilities : list text) (prior : list (list byte)) : bool :=
  match capabilities with
  | [] => true
  | capability :: rest =>
      match parseMailboxCapability capability with
      | Err _ => false
      | Ok decoded => if bool_decide (decoded ∈ prior) then false else decode_distinct rest (prior ++ [decoded])
      end
  end.

Definition new_slot (mailboxID requestWrite requestRead responseWrite responseRead : text) (expiry : Z) : mailboxSlot :=
  MailboxSlot expiry (mailboxActionHash mailboxID RequestWrite requestWrite)
    (mailboxActionHash mailboxID RequestRead requestRead) (mailboxActionHash mailboxID ResponseWrite responseWrite)
    (mailboxActionHash mailboxID ResponseRead responseRead) [] [] false.
(** An existing slot of the same expiry and the same four hashes. *)
Definition same_allocation (existing fresh : mailboxSlot) : bool :=
  (expires existing =? expires fresh)
  && bool_decide (requestWriteHash existing = requestWriteHash fresh)
  && bool_decide (requestReadHash existing = requestReadHash fresh)
  && bool_decide (responseWriteHash existing = responseWriteHash fresh)
  && bool_decide (responseReadHash existing = responseReadHash fresh).

Definition Create (mailboxID requestWrite requestRead responseWrite responseRead : text) (expiry now : Z)
    (s : MailboxStore) : MailboxStore * result mailbox_err (list byte) :=
  match ParseID mailboxID with
  | Err _ => (s, Err ErrMailboxUnavailable)
  | Ok parsed =>
      if bool_decide (parsed = arr_zero IDSize) then (s, Err ErrMailboxUnavailable)
      else if negb (decode_distinct [requestWrite; requestRead; responseWrite; responseRead] [])
      then (s, Err ErrMailboxUnavailable)
      else if negb (now <? expiry) || (now + MaxMailboxLifetime <? expiry) then (s, Err ErrMailboxUnavailable)
      else
        let s := expireLocked now s in
        let fresh := new_slot mailboxID requestWrite requestRead responseWrite responseRead expiry in
        match slots s !! mailboxID with
        | Some existing => (s, if same_allocation existing fresh then Ok [] else Err ErrMailboxUnavailable)
        | None =>
            if MaxMailboxSlots <=? Z.of_nat (size (slots s)) then (s, Err ErrMailboxUnavailable)
            else (s <| slots := <[mailboxID := fresh]> (slots s) |>, Ok [])
        end
  end.

(** [destination]: the field that [put] writes and its update. *)
Definition destination (a : action) : option ((mailboxSlot → list byte) * (list byte → mailboxSlot → mailboxSlot)) :=
  match a with
  | RequestWrite => Some (request, λ b slot, slot <| request := b |>)
  | ResponseWrite => Some (response, λ b slot, slot <| response := b |>)
  | _ => None
  end.

Definition put (mailboxID : text) (a : action) (capability : text) (opaque : list byte) (limit now : Z)
    (s : MailboxStore) : MailboxStore * result mailbox_err (list byte) :=
  let n := Z.of_nat (length opaque) in
  if (n =? 0) || (limit <? n) then (s, Err ErrMailboxUnavailable)
  else match parseMailboxCapability capability with
  | Err _ => (s, Err ErrMailboxUnavailable)
  | Ok _ =>
      let s := expireLocked now s in
      match slots s !! mailboxID with
      | None => (s, Err ErrMailboxUnavailable)
      | Some slot =>
          if consumed slot || negb (now <? expires slot) || negb (authorized mailboxID a capability slot)
          then (s, Err ErrMailboxUnavailable)
          else match destination a with
          | None => (s, Err ErrMailboxUnavailable)
          | Some (current, write) =>
              match current slot with
              | _ :: _ => (s, if bool_decide (current slot = opaque) then Ok [] else Err ErrMailboxUnavailable)
              | [] =>
                  if MaxMailboxStoredBytes - n <? storedBytes s then (s, Err ErrMailboxUnavailable)
                  else (MkStore (<[mailboxID := write opaque slot]> (slots s)) (storedBytes s + n), Ok [])
              end
          end
      end
  end.

Definition source (a : action) (slot : mailboxSlot) : option (list byte) :=
  match a with
  | RequestRead => Some (request slot)
  | ResponseRead => Some (response slot)
  | _ => None
  end.
Definition read (mailboxID : text) (a : action) (capability : text) (now : Z) (s : MailboxStore)
    : MailboxStore * result mailbox_err (list byte) :=
  match parseMailboxCapability capability with
  | Err _ => (s, Err ErrMailboxUnavailable)
  | Ok _ =>
      let s := expireLocked now s in
      match slots s !! mailboxID with
      | None => (s, Err ErrMailboxUnavailable)
      | Some slot =>
          if consumed slot || negb (now <? expires slot) || negb (authorized mailboxID a capability slot)
          then (s, Err ErrMailboxUnavailable)
          else match source a slot with
               | None | Some [] => (s, Err ErrMailboxUnavailable)
               | Some blob => (s, Ok blob)
               end
      end
  end.

Definition PutRequest (mailboxID capability : text) (opaque : list byte) :=
  put mailboxID RequestWrite capability opaque MaxEncryptedRequestSize.
Definition ReadRequest (mailboxID capability : text) := read mailboxID RequestRead capability.
Definition PutResponse (mailboxID capability : text) (opaque : list byte) :=
  put mailboxID ResponseWrite capability opaque MaxBoundResponseSize.
Definition ReadResponse (mailboxID capability : text) := read mailboxID ResponseRead capability.

Definition wiped (slot : mailboxSlot) : mailboxSlot :=
  slot <| request := [] |> <| response := [] |> <| consumed := true |>.
Definition Consume (mailboxID responseReadCapability : text) (now : Z) (s : MailboxStore)
    : MailboxStore * result mailbox_err (list byte) :=
  let s := expireLocked now s in
  match slots s !! mailboxID with
  | None => (s, Err ErrMailboxUnavailable)
  | Some slot =>
      if negb (now <? expires slot) || negb (authorized mailboxID ResponseRead responseReadCapability slot)
      then (s, Err ErrMailboxUnavailable)
      else if consumed slot then (s, Ok [])
      else (MkStore (<[mailboxID := wiped slot]> (slots s))
              (storedBytes s - Z.of_nat (length (contents slot))), Ok [])
  end.

(** ** Executions *)

Inductive op :=
| OCreate (mailboxID requestWrite requestRead responseWrite responseRead : text) (expiry : Z)
| OPutRequest (mailboxID capability : text) (opaque : list byte)
| OReadRequest (mailboxID capability : text)
| OPutResponse (mailboxID capability : text) (opaque : list byte)
| OReadResponse (mailboxID capability : text)
| OConsume (mailboxID capability : text).

Definition apply (o : op) (now : Z) (s : MailboxStore) : MailboxStore * result mailbox_err (list byte) :=
  match o with
  | OCreate id a b c d e => Create id a b c d e now s
  | OPutRequest id cap blob => PutRequest id cap blob now s
  | OReadRequest id cap => ReadRequest id cap now s
  | OPutResponse id cap blob => PutResponse id cap blob now s
  | OReadResponse id cap => ReadResponse id cap now s
  | OConsume id cap => Consume id cap now s
  end.

(** The states and answers of a sequence of calls, each at its own instant. *)
Fixpoint run (calls : list (Z * op)) (s : MailboxStore) : MailboxStore * list (result mailbox_err (list byte)) :=
  match calls with
  | [] => (s, [])
  | (now, o) :: rest =>
      let '(s, r) := apply o now s in let '(s, rs) := run rest s in (s, r :: rs)
  end.
