(* ===== verification/MailboxSafety.v ===== *)
(** * The mailbox store: accounting, refinement, delivery

    The store keeps a byte counter and expires slots lazily. The specification has
    neither: a map of mailboxes, restricted to the live ones before every call, and a
    capacity computed from them. *)

From S2P Require Import Prelude GoIO Text Sha256 Protocol Identifiers Base64 Mailbox.
From Stdlib Require Import Sorting.Sorted.

(** ** Stored bytes *)

Lemma stored_empty : stored ∅ = 0.
Proof. unfold stored. by rewrite fmap_empty, sum_len_empty. Qed.
Lemma stored_insert m k x :
  stored (<[k := x]> m)
  = stored m - match m !! k with Some y => Z.of_nat (length (contents y)) | None => 0 end + Z.of_nat (length (contents x)).
Proof.
  unfold stored. rewrite fmap_insert, sum_len_insert, lookup_fmap. destruct (m !! k); cbn; lia.
Qed.
Lemma stored_fresh m k x : m !! k = None → stored (<[k := x]> m) = stored m + Z.of_nat (length (contents x)).
Proof. intros Hk. rewrite stored_insert, Hk. lia. Qed.
Lemma stored_nonneg m : 0 <= stored m.
Proof. apply sum_len_nonneg. Qed.

Lemma stored_split now m : stored m = stored (live now m) + stored (dead now m).
Proof.
  induction m as [|k x m Hk IH] using map_ind.
  - unfold live, dead. by rewrite !map_filter_empty, stored_empty.
  - rewrite stored_fresh by done. unfold live, dead in *. destruct (now <? expires x) eqn:Ex.
    + rewrite map_filter_insert_True by done. rewrite (map_filter_insert_False _ _ k) by (cbn; congruence).
      rewrite (delete_id m) by done.
      rewrite stored_fresh by (apply map_lookup_filter_None; by left). lia.
    + rewrite map_filter_insert_False by (cbn; congruence). rewrite (delete_id m) by done.
      rewrite (map_filter_insert_True _ _ k) by (cbn; congruence).
      rewrite stored_fresh by (apply map_lookup_filter_None; by left). lia.
Qed.

Lemma live_live t now m : t <= now → live now (live t m) = live now m.
Proof.
  intros Ht. unfold live. rewrite map_filter_filter. apply map_filter_ext. intros k x _. cbn.
  rewrite !Z.ltb_lt. lia.
Qed.
Lemma live_lookup now m k x : live now m !! k = Some x ↔ m !! k = Some x ∧ now < expires x.
Proof. unfold live. rewrite map_lookup_filter_Some. cbn. by rewrite Z.ltb_lt. Qed.
Lemma live_insert now m k x : now < expires x → live now (<[k := x]> m) = <[k := x]> (live now m).
Proof. intros Hx. unfold live. by rewrite map_filter_insert_True by (cbn; by apply Z.ltb_lt). Qed.

(** ** The specification *)

Definition writable (id : text) (a : action) (cap : text) (slot : mailboxSlot) : bool :=
  negb (consumed slot) && authorized id a cap slot.

Definition spec_put (id : text) (a : action) (cap : text) (blob : list byte) (limit : Z) (m : slot_map)
    : slot_map * result mailbox_err (list byte) :=
  if (0 <? Z.of_nat (length blob)) && (Z.of_nat (length blob) <=? limit) && is_ok (parseMailboxCapability cap) then
    match m !! id, destination a with
    | Some slot, Some (current, write) =>
        if writable id a cap slot then
          if bool_decide (current slot = blob) then (m, Ok [])
          else if bool_decide (current slot = []) && (stored m + Z.of_nat (length blob) <=? MaxMailboxStoredBytes)
          then (<[id := write blob slot]> m, Ok [])
          else (m, Err ErrMailboxUnavailable)
        else (m, Err ErrMailboxUnavailable)
    | _, _ => (m, Err ErrMailboxUnavailable)
    end
  else (m, Err ErrMailboxUnavailable).

Definition spec_read (id : text) (a : action) (cap : text) (m : slot_map) : slot_map * result mailbox_err (list byte) :=
  if is_ok (parseMailboxCapability cap) then
    match m !! id with
    | Some slot =>
        match source a slot with
        | Some (b :: blob) => if writable id a cap slot then (m, Ok (b :: blob)) else (m, Err ErrMailboxUnavailable)
        | _ => (m, Err ErrMailboxUnavailable)
        end
    | None => (m, Err ErrMailboxUnavailable)
    end
  else (m, Err ErrMailboxUnavailable).

Definition creatable (id a b c d : text) (expiry now : Z) : bool :=
  match ParseID id with
  | Ok parsed => negb (bool_decide (parsed = arr_zero IDSize)) && decode_distinct [a; b; c; d] []
                 && (now <? expiry) && (expiry <=? now + MaxMailboxLifetime)
  | Err _ => false
  end.

(** One call on the live mailboxes. *)
Definition spec (o : op) (now : Z) (m : slot_map) : slot_map * result mailbox_err (list byte) :=
  let m := live now m in
  match o with
  | OCreate id a b c d expiry =>
      if creatable id a b c d expiry now then
        match m !! id with
        | Some slot => (m, if same_allocation slot (new_slot id a b c d expiry) then Ok [] else Err ErrMailboxUnavailable)
        | None => if MaxMailboxSlots <=? Z.of_nat (size m) then (m, Err ErrMailboxUnavailable)
                  else (<[id := new_slot id a b c d expiry]> m, Ok [])
        end
      else (m, Err ErrMailboxUnavailable)
  | OPutRequest id cap blob => spec_put id RequestWrite cap blob MaxEncryptedRequestSize m
  | OPutResponse id cap blob => spec_put id ResponseWrite cap blob MaxBoundResponseSize m
  | OReadRequest id cap => spec_read id RequestRead cap m
  | OReadResponse id cap => spec_read id ResponseRead cap m
  | OConsume id cap =>
      match m !! id with
      | Some slot => if authorized id ResponseRead cap slot
                     then (if consumed slot then m else <[id := wiped slot]> m, Ok [])
                     else (m, Err ErrMailboxUnavailable)
      | None => (m, Err ErrMailboxUnavailable)
      end
  end.
Fixpoint spec_run (calls : list (Z * op)) (m : slot_map) : slot_map * list (result mailbox_err (list byte)) :=
  match calls with
  | [] => (m, [])
  | (now, o) :: rest =>
      let '(m, r) := spec o now m in let '(m, rs) := spec_run rest m in (m, r :: rs)
  end.

Lemma spec_live o now m : spec o now (live now m) = spec o now m.
Proof. unfold spec. by rewrite live_live. Qed.

(** ** The invariant *)

Record slot_ok (slot : mailboxSlot) : Prop := {
  so_request : Z.of_nat (length (request slot)) <= MaxEncryptedRequestSize;
  so_response : Z.of_nat (length (response slot)) <= MaxBoundResponseSize;
  so_consumed : consumed slot = true → contents slot = [] }.
Record map_ok (m : slot_map) : Prop := {
  mo_stored : stored m <= MaxMailboxStoredBytes;
  mo_slots : Z.of_nat (size m) <= MaxMailboxSlots;
  mo_slot : ∀ id slot, m !! id = Some slot → slot_ok slot }.
Definition store_ok (s : MailboxStore) : Prop := storedBytes s = stored (slots s) ∧ map_ok (slots s).

Lemma live_ok now m : map_ok m → map_ok (live now m).
Proof.
  intros [A B C]. split.
  - pose proof (stored_split now m). pose proof (stored_nonneg (dead now m)). lia.
  - assert (size (live now m) ≤ size m)%nat; [|lia]. apply map_subseteq_size, map_filter_subseteq.
  - intros id slot [Hs _]%live_lookup. by eapply C.
Qed.

Lemma expire_spec now s : store_ok s → expireLocked now s = MkStore (live now (slots s)) (stored (live now (slots s))).
Proof.
  intros [Hb _]. unfold expireLocked. rewrite Hb. pose proof (stored_split now (slots s)) as Hsp.
  replace (stored (slots s) - stored (dead now (slots s))) with (stored (live now (slots s))) by lia.
  pose proof (stored_nonneg (live now (slots s))). f_equal. case_guard G; bool_prop; lia.
Qed.

Lemma map_ok_insert m id slot :
  map_ok m → slot_ok slot → stored (<[id := slot]> m) <= MaxMailboxStoredBytes →
  (m !! id = None → Z.of_nat (size m) < MaxMailboxSlots) → map_ok (<[id := slot]> m).
Proof.
  intros [A B C] Hs Hb Hn. split; [done| |].
  - destruct (m !! id) eqn:E; [by rewrite map_size_insert_Some|].
    rewrite map_size_insert_None by done. specialize (Hn eq_refl). lia.
  - intros id' slot'. rewrite lookup_insert. case_decide; [by intros [= <-]|apply C].
Qed.

(** A write goes to an empty field. *)
Lemma write_spec a current write slot blob :
  destination a = Some (current, write) → current slot = [] →
  Z.of_nat (length (contents (write blob slot))) = Z.of_nat (length (contents slot)) + Z.of_nat (length blob)
  ∧ (slot_ok slot → consumed slot = false →
     (a = RequestWrite → Z.of_nat (length blob) <= MaxEncryptedRequestSize) →
     (a = ResponseWrite → Z.of_nat (length blob) <= MaxBoundResponseSize) → slot_ok (write blob slot)).
Proof.
  intros Ed Hn. unfold contents. destruct a; try done; injection Ed as <- <-;
    (split; [cbn; rewrite !length_app, Hn; cbn; lia|]); intros [S1 S2 S3] Hc L1 L2; split; cbn; try done; try congruence.
  - by apply L1.
  - by apply L2.
Qed.

Lemma spec_ok o now m : map_ok m → map_ok (spec o now m).1.
Proof.
  intros Hm. apply (live_ok now) in Hm. unfold spec. set (l := live now m) in *. clearbody l. clear m.
  assert (∀ id a cap blob limit, (a = RequestWrite → limit <= MaxEncryptedRequestSize) →
    (a = ResponseWrite → limit <= MaxBoundResponseSize) → map_ok (spec_put id a cap blob limit l).1) as Hput.
  { intros id a cap blob limit L1 L2. unfold spec_put. case_guard G; [|done].
    destruct (l !! id) as [slot|] eqn:E; [|done].
    destruct (destination a) as [[current write]|] eqn:Ed; [|done].
    case_guard Gw; [|done]. case_guard G1; [done|]. case_guard G2; [|done]. cbn [fst]. unfold writable in Gw. bool_prop.
    destruct (write_spec a current write slot blob) as [Hlen Hok]; [done..|].
    apply map_ok_insert; [done| |rewrite stored_insert, E; lia|by rewrite E].
    apply Hok; [by apply (mo_slot _ Hm id)|done| |]; intros ->.
    - specialize (L1 eq_refl). lia.
    - specialize (L2 eq_refl). lia. }
  assert (∀ id a cap, map_ok (spec_read id a cap l).1) as Hread.
  { intros id a cap. unfold spec_read. by repeat case_match. }
  destruct o; try done; try (apply Hput; (done || lia)); try apply Hread.
  - case_guard G; [|done]. destruct (l !! mailboxID) eqn:E; [done|]. case_guard G1; [done|]. cbn [fst]. bool_prop.
    apply map_ok_insert; [done| | |done].
    + split; cbn; try done.
    + rewrite stored_fresh by done. cbn. pose proof (mo_stored _ Hm). lia.
  - destruct (l !! mailboxID) as [slot|] eqn:E; [|done]. case_guard G; [|done]. cbn [fst]. case_guard G1; [done|].
    pose proof (mo_slot _ Hm _ _ E) as [S1 S2 S3].
    apply map_ok_insert; [done| | |by rewrite E].
    + split; cbn; unfold MaxBoundResponseSize, MaxEnvelopeSize, MaxEncryptedRequestSize; try done; lia.
    + rewrite stored_insert, E. cbn. pose proof (mo_stored _ Hm). lia.
Qed.

(** ** The operations implement the specification *)

(** What one call leaves: nothing happened, or the specified map with its exact counter. *)
Definition outcome_ok (now : Z) (s : MailboxStore) (x : MailboxStore * result mailbox_err (list byte))
    (y : slot_map * result mailbox_err (list byte)) : Prop :=
  x.2 = y.2 ∧ (x.1 = MkStore y.1 (stored y.1) ∨ x.1 = s ∧ y.1 = live now (slots s)).

Section Implements.
Context (now : Z) (s : MailboxStore) (Hs : store_ok s).
Local Abbreviation l := (live now (slots s)).

Lemma early_reject : outcome_ok now s (s, Err ErrMailboxUnavailable) (l, Err ErrMailboxUnavailable).
Proof. split; [done|by right]. Qed.
Lemma late_outcome r : outcome_ok now s (MkStore l (stored l), r) (l, r).
Proof. split; [done|by left]. Qed.
Local Hint Resolve early_reject late_outcome : owntransit.

Lemma not_expired id slot : l !! id = Some slot → negb (now <? expires slot) = false.
Proof. intros [_ H]%live_lookup. apply negb_false_iff. by apply Z.ltb_lt. Qed.
(** On a live mailbox the guard of [put] and [read] is [writable]. *)
Lemma live_guard id a cap slot :
  l !! id = Some slot →
  consumed slot || negb (now <? expires slot) || negb (authorized id a cap slot) = negb (writable id a cap slot).
Proof.
  intros E. unfold writable. by rewrite (not_expired id slot), orb_false_r, negb_andb, negb_involutive.
Qed.

Lemma put_spec id a cap blob limit : outcome_ok now s (put id a cap blob limit now s) (spec_put id a cap blob limit l).
Proof.
  unfold put, spec_put. rewrite expire_spec by done.
  replace ((_ =? 0) || _) with (negb ((0 <? Z.of_nat (length blob)) && (Z.of_nat (length blob) <=? limit)))
    by (rewrite negb_andb, Z.leb_antisym, Z.ltb_antisym, !negb_involutive; f_equal; apply eq_true_iff_eq;
        rewrite Z.leb_le, Z.eqb_eq; lia).
  destruct (_ && _) eqn:G; [|auto with owntransit]. cbn [negb]. bool_prop.
  destruct (parseMailboxCapability cap); [|auto with owntransit]. cbn [is_ok andb slots storedBytes].
  destruct (l !! id) as [slot|] eqn:E; [|auto with owntransit].
  rewrite live_guard by done.
  destruct (writable id a cap slot); cbn [negb]; [|destruct (destination a) as [[]|]; auto with owntransit].
  destruct (destination a) as [[current write]|] eqn:Ed; [|auto with owntransit].
  destruct (current slot) as [|b rest] eqn:Ecur.
  - rewrite (bool_decide_eq_false_2 ([] = blob)) by (intros <-; cbn in *; lia).
    rewrite (bool_decide_eq_true_2 ([] = [])) by done. cbn [andb].
    destruct (write_spec a current write slot blob Ed Ecur) as [Hlen _].
    replace (stored l + _ <=? _) with (negb (MaxMailboxStoredBytes - Z.of_nat (length blob) <? stored l))
      by (rewrite Z.ltb_antisym, negb_involutive; apply eq_true_iff_eq; rewrite !Z.leb_le; lia).
    destruct (_ <? stored l); [auto with owntransit|]. split; [done|left]. cbn [fst negb]. f_equal.
    rewrite stored_insert, E. lia.
  - case_bool_decide; [auto with owntransit|]. rewrite bool_decide_eq_false_2 by done. auto with owntransit.
Qed.

Lemma read_spec id a cap : outcome_ok now s (read id a cap now s) (spec_read id a cap l).
Proof.
  unfold read, spec_read. rewrite expire_spec by done.
  destruct (parseMailboxCapability cap); [|auto with owntransit]. cbn [is_ok slots].
  destruct (l !! id) as [slot|] eqn:E; [|auto with owntransit]. rewrite live_guard by done.
  destruct (writable id a cap slot), (source a slot) as [[|b blob]|]; cbn [negb]; auto with owntransit.
Qed.

Lemma create_spec id a b c d expiry :
  outcome_ok now s (Create id a b c d expiry now s) (spec (OCreate id a b c d expiry) now (slots s)).
Proof.
  unfold Create, spec, creatable. rewrite expire_spec by done.
  destruct (ParseID id); [|auto with owntransit].
  destruct (bool_decide _); [auto with owntransit|]. cbn [negb andb].
  destruct (decode_distinct _ _); [|auto with owntransit]. cbn [negb andb].
  rewrite (Z.leb_antisym _ expiry). destruct (now <? expiry); [|auto with owntransit]. cbn [negb orb andb].
  destruct (now + MaxMailboxLifetime <? expiry); [auto with owntransit|]. cbn [negb slots].
  destruct (l !! id) as [slot|] eqn:E; [auto with owntransit|]. case_guard G; [auto with owntransit|].
  split; [done|left]. cbn [fst]. rewrite stored_fresh by done. cbn [contents new_slot request response length].
  by rewrite Z.add_0_r.
Qed.

Lemma consume_spec id cap :
  outcome_ok now s (Consume id cap now s) (spec (OConsume id cap) now (slots s)).
Proof.
  unfold Consume, spec. rewrite expire_spec by done. cbn [slots].
  destruct (l !! id) as [slot|] eqn:E; [|auto with owntransit]. rewrite (not_expired id slot) by done. cbn [orb].
  destruct (authorized _ _ _ _); cbn [negb]; [|auto with owntransit]. destruct (consumed slot); [auto with owntransit|].
  split; [done|left]. cbn. f_equal. rewrite stored_insert, E. cbn. lia.
Qed.

Lemma apply_spec o : outcome_ok now s (apply o now s) (spec o now (slots s)).
Proof. destruct o; [apply create_spec| | | | |apply consume_spec]; (apply put_spec || apply read_spec). Qed.
End Implements.

Lemma apply_ok o now s : store_ok s → store_ok (apply o now s).1.
Proof.
  intros Hs. destruct (apply_spec now s Hs o) as [_ [->|[-> _]]]; [|done].
  split; [done|]. apply spec_ok, Hs.
Qed.
Lemma run_ok calls s : store_ok s → store_ok (run calls s).1.
Proof.
  revert s. induction calls as [|[now o] rest IH]; intros s Hs; [done|]. cbn.
  apply (apply_ok o now) in Hs. destruct (apply o now s) as [s' r]. cbn in Hs.
  specialize (IH s' Hs). by destruct (run rest s').
Qed.
Lemma new_ok : store_ok NewMailboxStore.
Proof.
  split; [cbn [storedBytes slots NewMailboxStore]; by rewrite stored_empty|].
  split; cbn [storedBytes slots NewMailboxStore]; [by rewrite stored_empty|done|]. intros id slot. by rewrite lookup_empty.
Qed.

(** A refused call is specified to change nothing. *)
Lemma spec_error o now m e : (spec o now m).2 = Err e → (spec o now m).1 = live now m.
Proof. unfold spec, spec_put, spec_read. destruct o; repeat (case_match; try done). Qed.

(** ** The mailbox over time *)

(** What later calls keep of a mailbox that is neither consumed nor expired. *)
Record later (slot slot' : mailboxSlot) : Prop := {
  lt_expires : expires slot' = expires slot;
  lt_hash a : expected_hash a slot' = expected_hash a slot;
  lt_consumed : consumed slot' = consumed slot;
  lt_request : request slot ≠ [] → request slot' = request slot;
  lt_response : response slot ≠ [] → response slot' = response slot }.
#[export] Instance later_preorder : PreOrder later.
Proof.
  split; [by split|]. intros x y z [A B C D E] [A' B' C' D' E'].
  split; [congruence|intros a; by rewrite B', B|congruence| |]; intros H.
  - rewrite D'; [by apply D|]. by rewrite D.
  - rewrite E'; [by apply E|]. by rewrite E.
Qed.
Lemma write_later a current write slot blob :
  destination a = Some (current, write) → current slot = [] → later slot (write blob slot).
Proof. intros Ed Hn. destruct a; try done; injection Ed as <- <-; split; try done; by intros []. Qed.

Definition consumes (id : text) (o : op) : bool :=
  match o with OConsume id' _ => bool_decide (id = id') | _ => false end.

Lemma spec_later o now m id slot :
  m !! id = Some slot → now < expires slot → consumes id o = false →
  ∃ slot', (spec o now m).1 !! id = Some slot' ∧ later slot slot'.
Proof.
  intros Hs He Hc. assert (live now m !! id = Some slot) as Hl by by apply live_lookup.
  unfold spec. set (l := live now m) in *. clearbody l.
  assert (∃ slot', l !! id = Some slot' ∧ later slot slot') as Hsame by by exists slot.
  assert (∀ id' a cap blob limit, ∃ slot', (spec_put id' a cap blob limit l).1 !! id = Some slot' ∧ later slot slot').
  { intros id' a cap blob limit. unfold spec_put. case_guard G; [|done]. destruct (l !! id') as [x|] eqn:E; [|done].
    destruct (destination a) as [[current write]|] eqn:Ed; [|done].
    case_guard Gw; [|done]. case_guard G1; [done|]. case_guard G2; [|done]. bool_prop. cbn [fst].
    rewrite lookup_insert. case_decide; [|done]. simplify_eq. eexists. split; [done|].
    by apply (write_later a current write). }
  destruct o as [id' ?????| | | | |id' cap]; try done; try (unfold spec_read; by repeat case_match).
  - case_guard G; [|done]. destruct (l !! id') eqn:E; [done|]. case_guard G1; [done|]. cbn [fst].
    rewrite lookup_insert_ne by congruence. done.
  - cbn in Hc. bool_prop. destruct (l !! id') eqn:E; [|done]. case_guard G; [|done]. cbn [fst].
    case_guard G1; [done|]. rewrite lookup_insert_ne by congruence. done.
Qed.

Lemma apply_later o now s id slot :
  store_ok s → slots s !! id = Some slot → now < expires slot → consumes id o = false →
  ∃ slot', slots (apply o now s).1 !! id = Some slot' ∧ later slot slot'.
Proof.
  intros Hok Hs He Hc. destruct (apply_spec now s Hok o) as [_ [->|[-> _]]]; [|by exists slot].
  by apply spec_later.
Qed.

(** A sequence of calls before the mailbox expires that does not consume it. *)
Definition quiet (id : text) (deadline : Z) (calls : list (Z * op)) : Prop :=
  Forall (λ c, c.1 < deadline ∧ consumes id c.2 = false) calls.
Lemma run_later calls s id slot :
  store_ok s → slots s !! id = Some slot → quiet id (expires slot) calls →
  ∃ slot', slots (run calls s).1 !! id = Some slot' ∧ later slot slot'.
Proof.
  intros Hok Hs Hq. revert s slot Hok Hs Hq. induction calls as [|[now o] rest IH]; intros s slot Hok Hs Hq; [by exists slot|].
  apply Forall_cons_1 in Hq as [[Ht Hc] Hq]. cbn in *.
  destruct (apply_later o now s id slot) as (x & Hx & Hlx); [done..|].
  pose proof (apply_ok o now s Hok) as Hok'. destruct (apply o now s) as [s' r]. cbn in *.
  destruct (IH s' x) as (y & Hy & Hly); [done..|by rewrite (lt_expires _ _ Hlx)|].
  destruct (run rest s'). exists y. split; [done|by etrans].
Qed.

(** The two directions of a mailbox. *)
Definition put_op (resp : bool) (id cap : text) (blob : list byte) : op :=
  if resp then OPutResponse id cap blob else OPutRequest id cap blob.
Definition read_op (resp : bool) (id cap : text) : op :=
  if resp then OReadResponse id cap else OReadRequest id cap.
Definition read_action (resp : bool) : action := if resp then ResponseRead else RequestRead.
Definition field (resp : bool) (slot : mailboxSlot) : list byte := if resp then response slot else request slot.

Lemma put_stores resp id cap blob now m r :
  (spec (put_op resp id cap blob) now m).2 = Ok r →
  blob ≠ [] ∧ ∃ slot, (spec (put_op resp id cap blob) now m).1 !! id = Some slot ∧ field resp slot = blob
  ∧ consumed slot = false.
Proof.
  unfold spec, put_op. destruct resp; unfold spec_put; (case_guard G; [|done]);
    (destruct (live now m !! id) as [slot|] eqn:E; [|done]); cbn [destination]; (case_guard Gw; [|done]);
    (case_guard G1; [|case_guard G2; [|done]]); intros _; unfold writable in Gw; bool_prop;
    (split; [intros ->; cbn in *; lia|]); cbn [fst]; try (by exists slot);
    (eexists; split; [apply lookup_insert_eq|done]).
Qed.
Lemma apply_stores resp id cap blob now s r :
  store_ok s → (apply (put_op resp id cap blob) now s).2 = Ok r →
  blob ≠ [] ∧ ∃ slot, slots (apply (put_op resp id cap blob) now s).1 !! id = Some slot ∧ field resp slot = blob
  ∧ consumed slot = false.
Proof.
  intros Hs Hr. destruct (apply_spec now s Hs (put_op resp id cap blob)) as [E Hst]. rewrite E in Hr.
  destruct (put_stores _ _ _ _ _ _ _ Hr) as (Hb & slot & Hl & Hf). split; [done|]. exists slot. split; [|done].
  destruct Hst as [->|[-> Hlive]]; [done|]. rewrite Hlive in Hl. by apply live_lookup in Hl as [? _].
Qed.

(** The mailbox, action and capability that a call other than [Create] presents. *)
Definition credential (o : op) : option (text * action * text) :=
  match o with
  | OCreate _ _ _ _ _ _ => None
  | OPutRequest id cap _ => Some (id, RequestWrite, cap)
  | OReadRequest id cap => Some (id, RequestRead, cap)
  | OPutResponse id cap _ => Some (id, ResponseWrite, cap)
  | OReadResponse id cap | OConsume id cap => Some (id, ResponseRead, cap)
  end.
Lemma spec_authorized o now m :
  is_ok (spec o now m).2 = true →
  match credential o with
  | None => True
  | Some (id, a, cap) =>
      ∃ slot, m !! id = Some slot ∧ now < expires slot ∧ mailboxActionHash id a cap = expected_hash a slot
  end.
Proof.
  assert (∀ id a cap slot, live now m !! id = Some slot → authorized id a cap slot = true →
    ∃ slot, m !! id = Some slot ∧ now < expires slot ∧ mailboxActionHash id a cap = expected_hash a slot) as H.
  { intros id a cap slot [Hl He]%live_lookup Ha. exists slot. unfold authorized in Ha. by bool_prop. }
  destruct o; cbn [credential]; [done|unfold spec, spec_put, spec_read, writable..];
    repeat (case_match; try done); intros _; bool_prop; by eapply H.
Qed.

(** ** Properties *)

(** The bounds of the store: after any sequence of calls, at any instants, the byte
    counter is exactly the number of bytes in the mailboxes and at most 32 MiB, there are
    at most 1024 mailboxes, every request and response is within its limit and a consumed
    mailbox is empty. *)
Theorem mailbox_accounting (calls : list (Z * op)) :
  let s := (run calls NewMailboxStore).1 in
  storedBytes s = stored (slots s) ∧ storedBytes s <= MaxMailboxStoredBytes
  ∧ Z.of_nat (size (slots s)) <= MaxMailboxSlots
  ∧ map_Forall (λ _ slot, Z.of_nat (length (request slot)) <= MaxEncryptedRequestSize
      ∧ Z.of_nat (length (response slot)) <= MaxBoundResponseSize
      ∧ (consumed slot = true → request slot = [] ∧ response slot = [])) (slots s).
Proof.
  destruct (run_ok calls _ new_ok) as [E [A B C]]. split; [done|]. split; [by rewrite E|]. split; [done|].
  intros id slot Hs. destruct (C id slot Hs) as [S1 S2 S3]. repeat split; try done; apply S3, app_eq_nil in H; tauto.
Qed.

(** The refinement: a call on agreeing states answers alike and leaves agreeing states. *)
Definition agree (from : Z) (s : MailboxStore) (m : slot_map) : Prop :=
  store_ok s ∧ ∀ t, from <= t → live t (slots s) = live t m.
Lemma agree_apply from now o s m :
  agree from s m → from <= now →
  (apply o now s).2 = (spec o now m).2 ∧ agree now (apply o now s).1 (spec o now m).1.
Proof.
  intros [Hs Hl] Ht. rewrite <-(spec_live o now m), <-Hl, spec_live by done.
  destruct (apply_spec now s Hs o) as [Ho Hst]. split; [done|]. split; [by apply apply_ok|]. intros t Ht'.
  destruct Hst as [->|[-> ->]]; [done|]. by rewrite live_live.
Qed.

(** A concrete exchange: a mailbox, its request put and read. *)
Definition demo_mailbox : text := ID_String demo_epoch.
Definition demo_cap (n : Z) : text := RawURLEncode (replicate 32 (z2b n)).
Definition demo_create : op := OCreate demo_mailbox (demo_cap 1) (demo_cap 2) (demo_cap 3) (demo_cap 4) Hour.
Definition demo_slot : mailboxSlot :=
  new_slot demo_mailbox (demo_cap 1) (demo_cap 2) (demo_cap 3) (demo_cap 4) Hour.

(** C3. The store implements its specification, a map of live mailboxes without a counter
    and with expired mailboxes removed before every call: for calls at instants that do not
    decrease, from the empty store, all the answers are equal and so are the mailboxes that
    are live at any later instant. The lazy sweep, the running counter and the calls that
    return before the sweep cannot be observed. *)
Theorem mailbox_refines (calls : list (Z * op)) (t : Z) :
  StronglySorted Z.le (calls.*1 ++ [t]) →
  (run calls NewMailboxStore).2 = (spec_run calls ∅).2
  ∧ live t (slots (run calls NewMailboxStore).1) = live t (spec_run calls ∅).1.
Proof.
  destruct calls as [|[t0 o0] calls]; [done|]. intros Hsort.
  assert (agree t0 NewMailboxStore ∅) as Ha by by split; [apply new_ok|].
  assert (Forall (Z.le t0) (((t0, o0) :: calls).*1 ++ [t])) as Hall by by inversion Hsort; constructor.
  revert Ha Hsort Hall. generalize ((t0, o0) :: calls) as cs, NewMailboxStore as s, (∅ : slot_map) as m. clear o0 calls.
  intros cs. revert t0. induction cs as [|[now o] rest IH]; intros from s m Ha Hsort Hall; cbn in *.
  - split; [done|]. apply Ha. by inversion Hall.
  - inversion Hsort as [|? ? Hsort' Hall']. inversion Hall.
    destruct (agree_apply from now o s m) as [Hr Ha']; [done..|].
    destruct (apply o now s) as [s' r], (spec o now m) as [m' r']. cbn in *. subst.
    destruct (IH now s' m') as [A B]; [done..|]. destruct (run rest s'), (spec_run rest m'). cbn in *. by subst.
Qed.

Lemma mailbox_refines_witness :
  (run [(0, demo_create); (1, OPutRequest demo_mailbox (demo_cap 1) [Byte.x07]);
        (2, OReadRequest demo_mailbox (demo_cap 2)); (Hour, OReadRequest demo_mailbox (demo_cap 2))] NewMailboxStore).2
  = [Ok []; Ok []; Ok [Byte.x07]; Err ErrMailboxUnavailable].
Proof.
  rewrite (proj1 (mailbox_refines
    [(0, demo_create); (1, OPutRequest demo_mailbox (demo_cap 1) [Byte.x07]);
     (2, OReadRequest demo_mailbox (demo_cap 2)); (Hour, OReadRequest demo_mailbox (demo_cap 2))] Hour
    ltac:(repeat (apply SSorted_cons || apply SSorted_nil || apply Forall_cons_2 || apply Forall_nil_2 || done)))).
  vm_compute. reflexivity.
Defined.

(** Write-once delivery: after a put is accepted, whatever calls follow before the
    mailbox expires, as long as none of them consumes it, a reader whose capability the
    mailbox was created with gets exactly the bytes that were put, and a put of other bytes
    is refused, whatever capability it presents. *)
Theorem mailbox_delivery (resp : bool) (id wcap : text) (blob : list byte) (prior calls : list (Z * op)) (t0 t : Z)
    (slot : mailboxSlot) :
  let s0 := (run prior NewMailboxStore).1 in
  let x := apply (put_op resp id wcap blob) t0 s0 in let s1 := x.1 in
  let s2 := (run calls s1).1 in
  x.2 = Ok [] → slots s1 !! id = Some slot → quiet id (expires slot) calls → t < expires slot →
  (∀ rcap, is_ok (parseMailboxCapability rcap) = true → authorized id (read_action resp) rcap slot = true →
     (apply (read_op resp id rcap) t s2).2 = Ok blob)
  ∧ (∀ cap other, other ≠ blob → (apply (put_op resp id cap other) t s2).2 = Err ErrMailboxUnavailable).
Proof.
  intros s0. pose proof (run_ok prior _ new_ok : store_ok s0) as H0. clearbody s0. clear prior.
  pose proof (apply_ok (put_op resp id wcap blob) t0 s0 H0) as H1.
  pose proof (apply_stores resp id wcap blob t0 s0 [] H0) as Hput.
  destruct (apply (put_op resp id wcap blob) t0 s0) as [s1 answer]. cbn in *. intros -> Hl Hq Ht.
  destruct (Hput eq_refl) as (Hb & x & Hx & Hf & Hc). assert (x = slot) as -> by congruence.
  destruct (run_later calls s1 id slot) as (y & Hy & Hlt); [done..|].
  pose proof (run_ok calls s1 H1) as H2. set (s2 := (run calls s1).1) in *. clearbody s2.
  assert (live t (slots s2) !! id = Some y) as Hly by (apply live_lookup; by rewrite (lt_expires _ _ Hlt)).
  assert (field resp y = blob) as Hfy.
  { destruct resp; cbn in *; [rewrite (lt_response _ _ Hlt)|rewrite (lt_request _ _ Hlt)]; congruence. }
  split.
  - intros rcap Hok Ha. destruct (apply_spec t s2 H2 (read_op resp id rcap)) as [-> _].
    assert (writable id (read_action resp) rcap y = true) as Hw.
    { unfold writable. rewrite (lt_consumed _ _ Hlt), Hc. cbn. unfold authorized in *. by rewrite (lt_hash _ _ Hlt). }
    destruct resp; unfold spec, spec_read; cbn [read_op]; rewrite Hok, Hly; cbn in *;
      (destruct (_ y) eqn:E; [congruence|]); rewrite Hw; cbn; congruence.
  - intros cap other Hne. destruct (apply_spec t s2 H2 (put_op resp id cap other)) as [-> _].
    destruct resp; unfold spec, spec_put; cbn [put_op]; rewrite Hly; cbn in *;
      repeat (case_match; try done); bool_prop; congruence.
Qed.

Lemma mailbox_delivery_witness :
  (apply (read_op false demo_mailbox (demo_cap 2)) 2
     (run [(1, OPutResponse demo_mailbox (demo_cap 3) [Byte.x09])]
        (apply (put_op false demo_mailbox (demo_cap 1) [Byte.x07]) 1 (run [(0, demo_create)] NewMailboxStore).1).1).1).2
  = Ok [Byte.x07].
Proof.
  refine (proj1 (mailbox_delivery false demo_mailbox (demo_cap 1) [Byte.x07] [(0, demo_create)]
    [(1, OPutResponse demo_mailbox (demo_cap 3) [Byte.x09])] 1 2 (demo_slot <| request := [Byte.x07] |>) _ _ _ _)
    (demo_cap 2) _ _).
  - vm_compute. reflexivity.
  - vm_compute. reflexivity.
  - repeat constructor.
  - reflexivity.
  - vm_compute. reflexivity.
  - vm_compute. reflexivity.
Defined.

(** C35. Refusals and authority: in every state, a refused call leaves the live mailboxes as
    they were, and a call other than [Create] succeeds only on a live mailbox whose hash for
    that action is the hash of the presented capability. *)
Theorem mailbox_errors (calls : list (Z * op)) (o : op) (now : Z) :
  let s := (run calls NewMailboxStore).1 in
  let '(s', answer) := apply o now s in
  if is_ok answer then
    match credential o with
    | None => True
    | Some (id, a, cap) =>
        ∃ slot, slots s !! id = Some slot ∧ now < expires slot ∧ mailboxActionHash id a cap = expected_hash a slot
    end
  else live now (slots s') = live now (slots s).
Proof.
  intros s. pose proof (run_ok calls _ new_ok : store_ok s) as Hs. clearbody s.
  destruct (apply_spec now s Hs o) as [Ho Hst]. pose proof (spec_authorized o now (slots s)) as Ha.
  destruct (apply o now s) as [s' answer]. cbn [fst snd] in *. subst answer. case_guard G; [by apply Ha|].
  destruct (spec o now (slots s)).2 as [|e] eqn:E; [done|]. apply spec_error in E.
  destruct Hst as [->|[-> _]]; [|done]. cbn [slots]. rewrite E. by apply live_live.
Qed.
