(* ===== verification/Phrase.v ===== *)
(** * The enrollment transcript and its safety words

    [internal/enrollmentexchange/phrase.go] and the padding of [request_envelope.go]. *)

From S2P Require Import Prelude GoIO Text Sha256 Mailbox SafetyWords.

(** ** [phrase.go] *)

Definition MaxInvitationSize : Z := 256 * 2 ^ 10.
Definition MaxRequestSize : Z := 256 * 2 ^ 10.
Definition SafetyWordCount : nat := 6.
Definition safetyWordsPerDirection : nat := 3.
Definition transcriptDomain : list byte := ascii_bytes "OwnTransit enrollment transcript v1".
Definition targetToProvisionerDomain : list byte :=
  ascii_bytes "OwnTransit enrollment target-to-provisioner words v1".
Definition provisionerToTargetDomain : list byte :=
  ascii_bytes "OwnTransit enrollment provisioner-to-target words v1".
Definition wordListSHA256Hex : list byte :=
  ascii_bytes "2f5eed53a4727b4bf8880d8f3f199efc90e58503646d9ff8eff3a2ed3b24dbda".

Inductive phrase_err :=
| InvitationBound | RequestBound | EncryptedBound
| VocabularyChanged | NotTerminated | NotTwoThousand | NotCanonical | NonASCIIWord.
#[export] Instance phrase_err_eq_dec : EqDecision phrase_err.
Proof. solve_decision. Defined.

Definition writeTranscriptField (value : list byte) : list byte := be_put 4 (Z.of_nat (length value)) ++ value.
(** The bytes that the transcript digest hashes. *)
Definition transcriptInput (invitation request encrypted : list byte) : list byte :=
  transcriptDomain ++ [NUL] ++ writeTranscriptField invitation ++ writeTranscriptField request
    ++ writeTranscriptField encrypted.

Definition out_of_bound (limit : Z) (l : list byte) : bool :=
  (Z.of_nat (length l) =? 0) || (limit <? Z.of_nat (length l)).
Definition transcriptDigest (invitationBytes requestBytes encryptedRequestBytes : list byte)
    : result phrase_err (arr Size) :=
  reject out_of_bound MaxInvitationSize invitationBytes with InvitationBound;;
  reject out_of_bound MaxRequestSize requestBytes with RequestBound;;
  reject out_of_bound MaxEncryptedRequestSize encryptedRequestBytes with EncryptedBound;;
  Ok (arr_copy Size (Sum256 (transcriptInput invitationBytes requestBytes encryptedRequestBytes))).

Definition comparisonDigest (domain : list byte) (transcript : arr Size) : arr Size :=
  arr_copy Size (Sum256 (domain ++ [NUL] ++ arr_bytes transcript)).

(** The loop over the eleven bits, in [uint16]; [/] and [%] are on non-negative operands. *)
Fixpoint wordIndex_loop (digest : list byte) (word : Z) (bits : list Z) (index : Z) : Z :=
  match bits with
  | [] => index
  | bit :: rest =>
      let offset := word * 11 + bit in
      let octet := b2z (nth (Z.to_nat (offset / 8)) digest Byte.x00) in
      wordIndex_loop digest word rest
        (Z.lor (Z.shiftl index 1 mod 2 ^ 16) (Z.land (Z.shiftr octet (7 - offset mod 8)) 1))
  end.
Definition wordIndex (digest : arr Size) (word : nat) : Z :=
  wordIndex_loop (arr_bytes digest) (Z.of_nat word) (seqZ 0 11) 0.

(** [a < b] on Go strings. *)
Fixpoint string_lt (a b : list byte) : bool :=
  match a, b with
  | _, [] => false
  | [], _ :: _ => true
  | x :: a, y :: b => (b2z x <? b2z y) || (b2z x =? b2z y) && string_lt a b
  end.

Definition newline : byte := Byte.x0a.
Definition lowercase (c : byte) : bool := (97 <=? b2z c) && (b2z c <=? 122).
Fixpoint check_words (values : list text) (previous : text) : result phrase_err () :=
  match values with
  | [] => Ok ()
  | value :: rest =>
      reject bool_decide (value = []) || negb (string_lt previous value) with NotCanonical;;
      reject negb (forallb lowercase value) with NonASCIIWord;;
      check_words rest value
  end.

Definition wordList : result phrase_err (list text) :=
  reject negb (bool_decide (hex_encode (Sum256 encodedSafetyWords) = wordListSHA256Hex)) with VocabularyChanged;;
  match CutSuffix encodedSafetyWords [newline] with
  | None => Err NotTerminated
  | Some body =>
      let values := Split newline body in
      reject negb (length values =? 2048)%nat with NotTwoThousand;;
      _ ← check_words values [];
      Ok values
  end.

(** The six words: three of one direction, then three of the other. *)
Definition words_of (words : list text) (digest : arr Size) : list text :=
  (λ word, nth (Z.to_nat (wordIndex digest word)) words []) <$> seq 0 safetyWordsPerDirection.
Definition phraseFromTranscriptDigest (transcript : arr Size) : result phrase_err (list text) :=
  words ← wordList;
  Ok (words_of words (comparisonDigest targetToProvisionerDomain transcript)
      ++ words_of words (comparisonDigest provisionerToTargetDomain transcript)).
Definition derivePhrase (invitationBytes requestBytes encryptedRequestBytes : list byte) : result phrase_err (list text) :=
  digest ← transcriptDigest invitationBytes requestBytes encryptedRequestBytes;
  phraseFromTranscriptDigest digest.

(** ** The padding of a sealed request: [request_envelope.go] *)

Definition requestPlaintextMagic : list byte := ascii_bytes "OwnTransit padded enrollment request v1" ++ [NUL].
Definition requestPlaintextClasses : list Z := [64 * 2 ^ 10; 128 * 2 ^ 10; 256 * 2 ^ 10; 512 * 2 ^ 10].
Definition headerSize : nat := length requestPlaintextMagic + 4 + Size.

Inductive pad_err := NoPaddingClass | RandomFailed | InvalidClass | InvalidHeader | InvalidDeclaredSize | DigestMismatch.
#[export] Instance pad_err_eq_dec : EqDecision pad_err.
Proof. solve_decision. Defined.

(** [random n] is what [rand.Read] gives for [n] bytes. *)
Definition padRequest (random : nat → option (list byte)) (requestBytes : list byte) : result pad_err (list byte) :=
  let minimum := Z.of_nat headerSize + Z.of_nat (length requestBytes) in
  match list_find (λ candidate, minimum <= candidate) requestPlaintextClasses with
  | None => Err NoPaddingClass
  | Some (_, classSize) =>
      let filled := requestPlaintextMagic ++ be_put 4 (Z.of_nat (length requestBytes)) ++ Sum256 requestBytes ++ requestBytes in
      match random (Z.to_nat classSize - length filled)%nat with
      | None => Err RandomFailed
      | Some padding => Ok (filled ++ padding)
      end
  end.

Definition unpadRequest (plaintext : list byte) : result pad_err (list byte) :=
  reject negb (bool_decide (Z.of_nat (length plaintext) ∈ requestPlaintextClasses)) with InvalidClass;;
  reject (length plaintext <? headerSize)%nat
      || negb (bool_decide (take (length requestPlaintextMagic) plaintext = requestPlaintextMagic)) with InvalidHeader;;
  let offset := length requestPlaintextMagic in
  let requestSize := be_get (slice offset 4 plaintext) in
  let declaredDigest := slice (offset + 4) Size plaintext in
  reject (requestSize <=? 0) || (MaxRequestSize <? requestSize)
      || (Z.of_nat (length plaintext) - Z.of_nat headerSize <? requestSize) with InvalidDeclaredSize;;
  let requestBytes := slice headerSize (Z.to_nat requestSize) plaintext in
  reject negb (bool_decide (Sum256 requestBytes = declaredDigest)) with DigestMismatch;;
  Ok requestBytes.

(** ** The vocabulary *)

Definition safetyWords : list text := Eval vm_compute in Split newline (take (length encodedSafetyWords - 1) encodedSafetyWords).
(** Embedded as published: canonical, and every word has three to eight letters. *)
Lemma wordList_ok : wordList = Ok safetyWords.
Proof. vm_compute. reflexivity. Qed.
Lemma safetyWords_shape :
  length safetyWords = 2048%nat ∧ Forall (λ w, (3 <= length w <= 8)%nat ∧ forallb lowercase w = true) safetyWords.
Proof.
  split; [by vm_compute|].
  assert (forallb (λ w, (3 <=? length w)%nat && (length w <=? 8)%nat && forallb lowercase w) safetyWords = true) as H
    by by vm_compute.
  apply list.Forall_forall. intros w Hw. apply list_elem_of_In in Hw. apply (proj1 (forallb_forall _ _) H) in Hw.
  apply andb_true_iff in Hw as [[H1%Nat.leb_le H2%Nat.leb_le]%andb_true_iff Hl]. done.
Qed.
#[global] Opaque safetyWords.

(** ** Bits of a digest *)

Lemma be_get_app l k : be_get (l ++ k) = be_get l * 256 ^ Z.of_nat (length k) + be_get k.
Proof.
  induction k as [|b k IH] using rev_ind; [rewrite app_nil_r; cbn; lia|].
  rewrite app_assoc, !be_get_snoc, IH, length_app. cbn [length].
  rewrite Nat2Z.inj_add, Z.pow_add_r by lia. change (256 ^ Z.of_nat 1) with 256. ring.
Qed.
Lemma be_get_nth l j :
  (j < length l)%nat → b2z (nth j l Byte.x00) = be_get l / 256 ^ (Z.of_nat (length l) - 1 - Z.of_nat j) mod 256.
Proof.
  intros Hj. rewrite <-(take_drop j l) at 2. pose proof (length_drop l j) as Hd.
  rewrite <-(Nat.add_0_r j) at 1. destruct (drop j l) as [|b k] eqn:E; [cbn in Hd; lia|]. cbn in Hd.
  assert (nth (j + 0) l Byte.x00 = b) as ->.
  { rewrite <-(take_drop j l), E, app_nth2; rewrite length_take; [|lia]. by replace (j + 0 - _)%nat with 0%nat by lia. }
  replace (Z.of_nat (length l) - 1 - Z.of_nat j) with (Z.of_nat (length k)) by lia.
  change (b :: k) with ([b] ++ k). rewrite app_assoc, be_get_app, be_get_snoc.
  pose proof (be_get_range k). rewrite Z.div_add_l, (Z.div_small (be_get k)), Z.add_0_r by lia.
  rewrite Z.add_comm, Z_mod_plus_full. rewrite Z.mod_small; [done|apply b2z_range].
Qed.

Lemma digest_bit (digest : arr Size) o :
  0 <= o < 256 →
  Z.land (Z.shiftr (b2z (nth (Z.to_nat (o / 8)) (arr_bytes digest) Byte.x00)) (7 - o mod 8)) 1
  = be_get (arr_bytes digest) / 2 ^ (255 - o) mod 2.
Proof.
  intros Ho. set (X := be_get (arr_bytes digest)).
  pose proof (Z.mod_pos_bound o 8 ltac:(lia)) as Hm. pose proof (Z.div_mod o 8 ltac:(lia)) as Hdm.
  assert (0 <= o / 8 < 32) as Hq by (split; [apply Z.div_pos; lia|apply Z.div_lt_upper_bound; lia]).
  rewrite be_get_nth by (rewrite length_arr_bytes; unfold Size; lia). fold X. rewrite length_arr_bytes.
  change 1 with (Z.ones 1) at 2. rewrite Z.land_ones, Z.shiftr_div_pow2 by lia. change (2 ^ 1) with 2.
  replace (Z.of_nat Size - 1 - Z.of_nat (Z.to_nat (o / 8))) with (31 - o / 8) by (unfold Size; lia).
  change 256 with (2 ^ 8). rewrite <-Z.pow_mul_r by lia. set (p := 8 * (31 - o / 8)). set (r := 7 - o mod 8).
  replace (255 - o) with (p + r) by (unfold p, r; lia).
  rewrite Z.pow_add_r, <-Z.div_div by (apply Z.pow_nonzero || apply Z.pow_pos_nonneg || unfold p, r; lia).
  set (Y := X / 2 ^ p). replace (2 ^ 8) with (2 ^ r * 2 ^ (8 - r)) by (rewrite <-Z.pow_add_r by (unfold r; lia); f_equal; lia).
  assert (0 < 2 ^ r) by (apply Z.pow_pos_nonneg; unfold r; lia).
  assert (0 < 2 ^ (8 - r)) by (apply Z.pow_pos_nonneg; unfold r; lia).
  rewrite Z.rem_mul_r by lia. rewrite Z.mul_comm, Z.div_add by lia. rewrite (Z.div_small (Y mod 2 ^ r)) by (apply Z.mod_pos_bound; lia).
  rewrite Z.add_0_l. replace (2 ^ (8 - r)) with (2 * 2 ^ (7 - r)) by (rewrite <-Z.pow_succ_r by (unfold r; lia); f_equal; lia).
  assert (0 < 2 ^ (7 - r)) by (apply Z.pow_pos_nonneg; unfold r; lia).
  rewrite Z.rem_mul_r by lia. rewrite Z.mul_comm, Z_mod_plus_full. by rewrite Z.mod_mod.
Qed.

(** After [k] bits the index holds the [k] bits read. *)
Lemma wordIndex_loop_bits (digest : arr Size) w k :
  0 <= w <= 2 → 0 <= k <= 11 →
  wordIndex_loop (arr_bytes digest) w (seqZ 0 k) 0
  = be_get (arr_bytes digest) / 2 ^ (256 - 11 * w - k) mod 2 ^ k.
Proof.
  intros Hw [Hk0 Hk]. revert Hk. pattern k. apply natlike_ind; [| |done].
  - intros _. by rewrite Z.mod_1_r.
  - clear k Hk0. intros k Hk0 IH Hk. specialize (IH ltac:(lia)). unfold Z.succ.
    assert (∀ l l' i, wordIndex_loop (arr_bytes digest) w (l ++ l') i
      = wordIndex_loop (arr_bytes digest) w l' (wordIndex_loop (arr_bytes digest) w l i)) as Happ.
    { induction l as [|x l IHl]; intros l' i; [done|]. cbn [app wordIndex_loop]. apply IHl. }
    rewrite seqZ_app by lia. rewrite Happ, IH. cbn [seqZ].
    rewrite seqZ_cons, seqZ_nil by lia. cbn [wordIndex_loop]. rewrite digest_bit by lia.
    set (X := be_get (arr_bytes digest)). replace (w * 11 + (0 + k)) with (11 * w + k) by lia.
    set (m := 256 - 11 * w - k). replace (255 - (11 * w + k)) with (m - 1) by (unfold m; lia).
    replace (256 - 11 * w - (k + 1)) with (m - 1) by (unfold m; lia).
    assert (0 < 2 ^ (m - 1)) by (apply Z.pow_pos_nonneg; unfold m; lia).
    assert (0 < 2 ^ k) by (apply Z.pow_pos_nonneg; lia).
    replace (X / 2 ^ m) with (X / 2 ^ (m - 1) / 2)
      by (rewrite Z.div_div by lia; f_equal; rewrite Z.mul_comm, <-Z.pow_succ_r by (unfold m; lia); f_equal; lia).
    set (Y := X / 2 ^ (m - 1)). rewrite Z.pow_add_r by lia. change (2 ^ 1) with 2. rewrite (Z.mul_comm (2 ^ k)), (Z.rem_mul_r Y) by lia.
    pose proof (Z.mod_pos_bound (Y / 2) (2 ^ k) ltac:(lia)) as Hb.
    assert (2 ^ k <= 2 ^ 11) by (apply Z.pow_le_mono_r; lia).
    rewrite Z.shiftl_mul_pow2 by lia. change (2 ^ 1) with 2.
    rewrite (Z.mod_small _ (2 ^ 16)) by (change (2 ^ 16) with 65536; change (2 ^ 11) with 2048 in *; lia).
    pose proof (Z.mod_pos_bound Y 2 ltac:(lia)).
    rewrite Z.add_comm, (Z.mul_comm 2).
    assert (Z.land ((Y / 2) mod 2 ^ k * 2) (Y mod 2) = 0) as Hand.
    { replace (Y mod 2) with (Z.land (Y mod 2) (Z.ones 1)) by (rewrite Z.land_ones by lia; by apply Z.mod_mod).
      rewrite (Z.land_comm (Y mod 2)), Z.land_assoc, Z.land_ones by lia. change (2 ^ 1) with 2. by rewrite Z_mod_mult. }
    by rewrite Z.add_nocarry_lxor, Z.lxor_lor.
Qed.

(** The eleven-bit groups of a digest, most significant first. *)
Definition groups (digest : arr Size) : list Z := digits 2048 safetyWordsPerDirection (be_get (arr_bytes digest) / 2 ^ 223).
Lemma wordIndex_groups (digest : arr Size) : wordIndex digest <$> seq 0 safetyWordsPerDirection = groups digest.
Proof.
  unfold groups, wordIndex. set (X := be_get (arr_bytes digest)).
  cbn [seq fmap list_fmap safetyWordsPerDirection digits app].
  rewrite !wordIndex_loop_bits by lia. fold X. change (2 ^ 11) with 2048.
  rewrite !Z.div_div by lia. repeat f_equal.
Qed.
Lemma groups_range (digest : arr Size) : Forall (λ i, 0 <= i < 2048) (groups digest).
Proof. by apply digits_range. Qed.

Lemma words_of_spec words (digest : arr Size) : words_of words digest = (λ i, nth (Z.to_nat i) words []) <$> groups digest.
Proof. unfold words_of. by rewrite <-wordIndex_groups, <-list_fmap_compose. Qed.
Lemma words_of_valid (digest : arr Size) : Forall (.∈ safetyWords) (words_of safetyWords digest).
Proof.
  rewrite words_of_spec. apply Forall_fmap. eapply Forall_impl; [|apply groups_range]. intros i Hi. cbn in Hi |- *.
  apply list_elem_of_In. apply nth_In. destruct safetyWords_shape as [-> _].
  lia.
Qed.
Lemma length_words_of words (digest : arr Size) : length (words_of words digest) = safetyWordsPerDirection.
Proof. done. Qed.

Lemma phrase_ok (transcript : arr Size) :
  phraseFromTranscriptDigest transcript
  = Ok (words_of safetyWords (comparisonDigest targetToProvisionerDomain transcript)
        ++ words_of safetyWords (comparisonDigest provisionerToTargetDomain transcript)).
Proof. unfold phraseFromTranscriptDigest. by rewrite wordList_ok. Qed.

(** ** Transcripts *)

Lemma field_inj l l' r r' :
  Z.of_nat (length l) < 2 ^ 32 → Z.of_nat (length l') < 2 ^ 32 →
  writeTranscriptField l ++ r = writeTranscriptField l' ++ r' → l = l' ∧ r = r'.
Proof.
  unfold writeTranscriptField. intros Hl Hl' H. rewrite <-!app_assoc in H.
  apply app_inj_1 in H as [Hn H]; [|by rewrite !length_be_put].
  apply (f_equal be_get) in Hn. rewrite !be_get_put in Hn. change (256 ^ Z.of_nat 4) with (2 ^ 32) in Hn.
  rewrite !Z.mod_small in Hn by lia. apply app_inj_1 in H as [-> ->]; [done|lia].
Qed.

Lemma transcriptInput_inj i i' r r' e e' :
  Z.of_nat (length i) < 2 ^ 32 → Z.of_nat (length i') < 2 ^ 32 → Z.of_nat (length r) < 2 ^ 32 → Z.of_nat (length r') < 2 ^ 32 →
  Z.of_nat (length e) < 2 ^ 32 → Z.of_nat (length e') < 2 ^ 32 →
  transcriptInput i r e = transcriptInput i' r' e' → i = i' ∧ r = r' ∧ e = e'.
Proof.
  unfold transcriptInput. intros. match goal with H : _ = _ |- _ => apply app_inv_head, app_inv_head in H end.
  match goal with H : _ ++ _ = _ |- _ => apply field_inj in H as [-> H]; [|done..] end.
  match goal with H : _ ++ _ = _ |- _ => apply field_inj in H as [-> H]; [|done..] end.
  match goal with H : _ = _ |- _ => rewrite <-(app_nil_r (writeTranscriptField e)), <-(app_nil_r (writeTranscriptField e')) in H end.
  match goal with H : _ ++ _ = _ |- _ => apply field_inj in H as [-> H]; [|done..] end. done.
Qed.
Lemma transcriptDigest_ok i r e d :
  transcriptDigest i r e = Ok d →
  d = arr_copy Size (Sum256 (transcriptInput i r e)) ∧ Z.of_nat (length i) < 2 ^ 32 ∧ Z.of_nat (length r) < 2 ^ 32
  ∧ Z.of_nat (length e) < 2 ^ 32.
Proof.
  unfold transcriptDigest, out_of_bound. case_guard G1; [done|]. case_guard G2; [done|]. case_guard G3; [done|].
  intros <-%Ok_inj. bool_prop. unfold MaxInvitationSize, MaxRequestSize, MaxEncryptedRequestSize in *. repeat split; lia.
Qed.

(** ** Padding *)

Lemma class_find n :
  match list_find (λ candidate, n <= candidate) requestPlaintextClasses with
  | Some (_, c) => n <= c ∧ c ∈ requestPlaintextClasses
  | None => 512 * 2 ^ 10 < n
  end.
Proof.
  destruct (list_find _ _) as [[i c]|] eqn:E.
  - apply list_find_Some in E as (Hl & Hc & _). split; [done|]. by apply list_elem_of_lookup_2 in Hl.
  - apply list_find_None in E. apply (Forall_lookup_1 _ _ 3 (512 * 2 ^ 10)) in E; [|done]. cbn beta in E. lia.
Qed.

Lemma unpad_pad random l padded :
  (∀ n p, random n = Some p → length p = n) → (0 < length l)%nat → Z.of_nat (length l) <= MaxRequestSize →
  padRequest random l = Ok padded → unpadRequest padded = Ok l.
Proof.
  intros Hr H0 Hl. unfold padRequest. set (min := Z.of_nat headerSize + _).
  pose proof (class_find min) as Hc. destruct (list_find _ _) as [[i c]|]; [|done]. destruct Hc as [Hc Hin].
  set (f := requestPlaintextMagic ++ _). destruct (random _) as [p|] eqn:Ep; [|done]. intros <-%Ok_inj.
  apply Hr in Ep. assert (length f = headerSize + length l)%nat as Hf.
  { unfold f, headerSize. rewrite !length_app, length_be_put, length_Sum256. lia. }
  assert (Z.of_nat (length (f ++ p)) = c) as Hlen by (rewrite length_app, Ep, Hf; unfold min in *; lia).
  set (h := length requestPlaintextMagic). assert (headerSize = h + 4 + Size)%nat as Hh by done.
  set (n := Z.of_nat (length l)) in *.
  assert (f ++ p = requestPlaintextMagic ++ be_put 4 n ++ Sum256 l ++ l ++ p) as Hfp by (unfold f; by rewrite <-!app_assoc).
  assert (slice h 4 (f ++ p) = be_put 4 n) as Hsz by (rewrite Hfp; apply slice_at; [done|apply length_be_put]).
  assert (slice (h + 4) Size (f ++ p) = Sum256 l) as Hdg.
  { rewrite Hfp, app_assoc. apply slice_at; [by rewrite length_app, length_be_put|apply length_Sum256]. }
  assert (slice headerSize (length l) (f ++ p) = l) as Hbody.
  { rewrite Hfp, app_assoc, app_assoc. apply slice_at; [|done].
    rewrite !length_app, length_be_put, length_Sum256, Hh. lia. }
  assert (take h (f ++ p) = requestPlaintextMagic) as Htake by (rewrite Hfp; apply take_app_length).
  unfold unpadRequest. fold h. rewrite Hlen, Hsz, Hdg, be_get_put.
  rewrite Z.mod_small by (change (256 ^ Z.of_nat 4) with (2 ^ 32); unfold MaxRequestSize, n in *; lia).
  replace (Z.to_nat n) with (length l) by (unfold n; lia). rewrite !Hbody. rewrite (bool_decide_eq_true_2 (c ∈ _)) by done.
  rewrite Htake, !bool_decide_eq_true_2 by done. cbn [negb].
  replace (length (f ++ p) <? headerSize)%nat with false by (symmetry; apply Nat.ltb_ge; rewrite length_app, Hf; lia).
  replace (n <=? 0) with false by (symmetry; apply Z.leb_gt; unfold n; lia).
  replace (MaxRequestSize <? n) with false by (symmetry; by apply Z.ltb_ge).
  replace (c - _ <? n) with false by (symmetry; apply Z.ltb_ge; unfold min in *; lia). done.
Qed.

Lemma pad_total random l :
  (∀ n, ∃ p, random n = Some p) → Z.of_nat (length l) <= MaxRequestSize → ∃ padded, padRequest random l = Ok padded.
Proof.
  intros Hr Hl. unfold padRequest. set (min := Z.of_nat headerSize + _).
  pose proof (class_find min) as Hc. destruct (list_find _ _) as [[i c]|].
  - destruct (Hr (Z.to_nat c - length (requestPlaintextMagic ++ be_put 4 (Z.of_nat (length l)) ++ Sum256 l ++ l))%nat) as [p ->].
    by eexists.
  - exfalso. unfold min, MaxRequestSize in *. change (Z.of_nat headerSize) with 76 in Hc. lia.
Qed.

(** ** Properties *)

(** C30. The safety phrase: for every transcript digest the derivation succeeds with six
    words of the embedded vocabulary, the first three indexed by the first three
    eleven-bit groups of the target-to-provisioner digest, the last three by those of the
    provisioner-to-target digest: the bit loop of [wordIndex] is the positional reading of
    the digest, and never leaves the vocabulary. *)
Theorem phrase_exact (transcript : arr Size) :
  ∃ forward backward, phraseFromTranscriptDigest transcript = Ok (forward ++ backward)
    ∧ forward = (λ i, nth (Z.to_nat i) safetyWords []) <$> groups (comparisonDigest targetToProvisionerDomain transcript)
    ∧ backward = (λ i, nth (Z.to_nat i) safetyWords []) <$> groups (comparisonDigest provisionerToTargetDomain transcript)
    ∧ Forall (.∈ safetyWords) forward ∧ Forall (.∈ safetyWords) backward
    ∧ length forward = safetyWordsPerDirection ∧ length backward = safetyWordsPerDirection.
Proof.
  rewrite phrase_ok. eexists _, _. split; [done|]. rewrite <-!words_of_spec.
  repeat split; apply words_of_valid || apply length_words_of.
Qed.

(** The transcript is unambiguous: two transcripts with a digest whose hashed inputs
    coincide have the same invitation, the same request and the same ciphertext, whatever
    the split of the bytes between the three. *)
Theorem transcript_unambiguous i r e i' r' e' d d' :
  transcriptDigest i r e = Ok d → transcriptDigest i' r' e' = Ok d' →
  transcriptInput i r e = transcriptInput i' r' e' → i = i' ∧ r = r' ∧ e = e' ∧ d = d'.
Proof.
  intros H H' Hin. destruct (transcriptDigest_ok _ _ _ _ H) as (-> & ? & ? & ?).
  destruct (transcriptDigest_ok _ _ _ _ H') as (-> & ? & ? & ?).
  destruct (transcriptInput_inj i i' r r' e e') as (-> & -> & ->); done.
Qed.

Lemma transcript_unambiguous_witness :
  [Byte.x01] = [Byte.x01] ∧ [Byte.x02] = [Byte.x02] ∧ [Byte.x03] = [Byte.x03]
  ∧ arr_copy Size (Sum256 (transcriptInput [Byte.x01] [Byte.x02] [Byte.x03]))
    = arr_copy Size (Sum256 (transcriptInput [Byte.x01] [Byte.x02] [Byte.x03])).
Proof. apply transcript_unambiguous; reflexivity. Defined.

(** Padding: a signed request within its limit always fits a padding class, and what
    is padded is read back exactly, whatever the random filling. *)
Theorem unpadRequest_padRequest (random : nat → option (list byte)) (l : list byte) :
  (∀ n, ∃ p, random n = Some p ∧ length p = n) → (0 < length l)%nat → Z.of_nat (length l) <= MaxRequestSize →
  ∃ padded, padRequest random l = Ok padded ∧ unpadRequest padded = Ok l.
Proof.
  intros Hr H0 Hl. destruct (pad_total random l) as [padded Hp]; [|done|].
  { intros n. destruct (Hr n) as (p & E & _). by exists p. }
  exists padded. split; [done|]. apply (unpad_pad random l); [|done..].
  intros n p E. destruct (Hr n) as (p' & E' & Hlen). by simplify_eq.
Qed.
Lemma unpadRequest_padRequest_witness :
  ∃ padded, padRequest (λ n, Some (replicate n Byte.x2a)) [Byte.x01] = Ok padded ∧ unpadRequest padded = Ok [Byte.x01].
Proof.
  apply unpadRequest_padRequest.
  - intros n. exists (replicate n Byte.x2a). split; [reflexivity|apply length_replicate].
  - cbn. lia.
  - unfold MaxRequestSize. cbn. lia.
Defined.
