(* ===== verification/Toy.v ===== *)
(** * A lawful toy codec

    Instances of the encoders the models take as parameters, for the witnesses: a list of
    texts, each escaped and terminated. *)

From S2P Require Import Prelude.

Fixpoint enc_text (t : list byte) : list byte :=
  match t with
  | [] => [Byte.x00]
  | (Byte.x00 as b) :: t | (Byte.x01 as b) :: t => Byte.x01 :: b :: enc_text t
  | b :: t => b :: enc_text t
  end.
Fixpoint dec_text (l : list byte) : option (list byte * list byte) :=
  match l with
  | [] => None
  | Byte.x00 :: rest => Some ([], rest)
  | Byte.x01 :: b :: rest => '(t, rest) ← dec_text rest; Some (b :: t, rest)
  | b :: rest => '(t, rest) ← dec_text rest; Some (b :: t, rest)
  end.
Fixpoint dec_texts (n : nat) (l : list byte) : option (list (list byte)) :=
  match n with
  | O => Some []
  | S n => '(t, rest) ← dec_text l; ts ← dec_texts n rest; Some (t :: ts)
  end.
Definition enc_texts (ts : list (list byte)) : list byte := concat (enc_text <$> ts).

Lemma dec_enc_text t rest : dec_text (enc_text t ++ rest) = Some (t, rest).
Proof. induction t as [|b t IH]; [done|]. destruct b; cbn; by rewrite IH. Qed.
Lemma dec_enc_texts ts rest : dec_texts (length ts) (enc_texts ts ++ rest) = Some ts.
Proof.
  unfold enc_texts. induction ts as [|t ts IH]; [done|]. cbn [fmap list_fmap concat length dec_texts].
  rewrite <-app_assoc, dec_enc_text. cbn [mbind option_bind]. by rewrite IH.
Qed.

(** Integers as the bits of their code. *)
Fixpoint bits_of (p : positive) : list byte :=
  match p with xH => [] | xO q => Byte.x00 :: bits_of q | xI q => Byte.x01 :: bits_of q end.
Fixpoint of_bits (l : list byte) : positive :=
  match l with
  | Byte.x00 :: l => xO (of_bits l)
  | Byte.x01 :: l => xI (of_bits l)
  | _ => xH
  end.
Lemma of_bits_of p : of_bits (bits_of p) = p.
Proof. induction p; cbn; congruence. Qed.
Definition enc_Z (z : Z) : list byte := bits_of (encode z).
Definition dec_Z (l : list byte) : Z := default 0 (decode (of_bits l)).
Lemma dec_enc_Z z : dec_Z (enc_Z z) = z.
Proof. unfold dec_Z, enc_Z. by rewrite of_bits_of, decode_encode. Qed.
#[global] Arguments enc_Z : simpl never.
#[global] Arguments dec_Z : simpl never.
#[global] Arguments enc_texts : simpl never.
#[global] Arguments dec_texts : simpl never.
