(* ===== verification/Runes.v ===== *)
(** * Runes: what the sources use of [unicode/utf8] and of [strings] on runes

    UTF-8 decoding as [range] over a string does it, [utf8.ValidString],
    [strings.TrimSpace], [strings.ToLower] and [strings.Join]. *)

From S2P Require Import Prelude Text.

Abbreviation text := (list byte).

(** A decoded rune and its bytes; an invalid byte is one [RuneError] of width one. *)
Record rune := Rune { r_value : Z; r_valid : bool; r_bytes : list byte }.
Definition RuneError : Z := 0xfffd.
Definition bad_rune (b : byte) : rune := Rune RuneError false [b].

Definition in_range (lo hi : Z) (b : byte) : bool := (lo <=? b2z b) && (b2z b <=? hi).
Definition low6 (b : byte) : Z := b2z b mod 64.
(** The range of the second byte after the first byte [x] of three or four. *)
Definition second3 (x : Z) (b : byte) : bool :=
  in_range (if x =? 0xe0 then 0xa0 else 0x80) (if x =? 0xed then 0x9f else 0xbf) b.
Definition second4 (x : Z) (b : byte) : bool :=
  in_range (if x =? 0xf0 then 0x90 else 0x80) (if x =? 0xf4 then 0x8f else 0xbf) b.

Fixpoint runes (s : list byte) : list rune :=
  match s with
  | [] => []
  | b0 :: s1 =>
      let x := b2z b0 in
      if x <? 0x80 then Rune x true [b0] :: runes s1
      else if x <? 0xc2 then bad_rune b0 :: runes s1
      else if x <? 0xe0 then
        match s1 with
        | b1 :: s2 => if in_range 0x80 0xbf b1 then Rune ((x - 0xc0) * 64 + low6 b1) true [b0; b1] :: runes s2
                      else bad_rune b0 :: runes s1
        | _ => bad_rune b0 :: runes s1
        end
      else if x <? 0xf0 then
        match s1 with
        | b1 :: b2 :: s3 =>
            if second3 x b1 && in_range 0x80 0xbf b2
            then Rune (((x - 0xe0) * 64 + low6 b1) * 64 + low6 b2) true [b0; b1; b2] :: runes s3
            else bad_rune b0 :: runes s1
        | _ => bad_rune b0 :: runes s1
        end
      else if x <? 0xf5 then
        match s1 with
        | b1 :: b2 :: b3 :: s4 =>
            if second4 x b1 && in_range 0x80 0xbf b2 && in_range 0x80 0xbf b3
            then Rune ((((x - 0xf0) * 64 + low6 b1) * 64 + low6 b2) * 64 + low6 b3) true [b0; b1; b2; b3] :: runes s4
            else bad_rune b0 :: runes s1
        | _ => bad_rune b0 :: runes s1
        end
      else bad_rune b0 :: runes s1
  end.

Definition runes_bytes (rs : list rune) : list byte := concat (r_bytes <$> rs).
Definition ValidString (s : list byte) : bool := forallb r_valid (runes s).

(** [unicode.IsSpace] *)
Definition IsSpace (v : Z) : bool :=
  bool_decide (v ∈ [9; 10; 11; 12; 13; 32; 0x85; 0xa0; 0x1680; 0x2028; 0x2029; 0x202f; 0x205f; 0x3000])
  || (0x2000 <=? v) && (v <=? 0x200a).
Fixpoint drop_spaces (rs : list rune) : list rune :=
  match rs with
  | r :: rest => if IsSpace (r_value r) then drop_spaces rest else rs
  | [] => []
  end.
(** No byte of a well-formed rune starts another one, so the runes found from the end of a
    string, as [TrimRight] looks for them, are the last ones found from its start. *)
Definition TrimSpace (s : list byte) : list byte :=
  runes_bytes (rev (drop_spaces (rev (drop_spaces (runes s))))).

(** [unicode.ToLower], to bytes. The lower case of a rune outside of ASCII is outside of
    ASCII, with two exceptions (U+0130, U+212A); such a rune is left as it is, for the
    sources only ask whether the result consists of given ASCII characters. *)
Definition lower_rune (r : rune) : list byte :=
  let v := r_value r in
  if (65 <=? v) && (v <=? 90) then [z2b (v + 32)]
  else if v =? 0x130 then ascii_bytes "i"
  else if v =? 0x212a then ascii_bytes "k"
  else r_bytes r.
Definition ToLower (s : list byte) : list byte := concat (lower_rune <$> runes s).

(** [strings.Join] with a one-byte separator. *)
Fixpoint Join (sep : byte) (l : list text) : list byte :=
  match l with
  | [] => []
  | [t] => t
  | t :: rest => t ++ [sep] ++ Join sep rest
  end.

(** ** Lemmas *)

Lemma Split_Join sep l : l ≠ [] → Forall (λ t, sep ∉ t) l → Split sep (Join sep l) = l.
Proof.
  induction l as [|t l IH]; [done|]. intros _ [Ht Hl]%Forall_cons_iff. destruct l as [|u l].
  - by apply Split_last.
  - change (Join sep (t :: u :: l)) with (t ++ sep :: Join sep (u :: l)). rewrite Split_label by done. f_equal. by apply IH.
Qed.

Lemma runes_small s b : b2z b < 0x80 → runes (b :: s) = Rune (b2z b) true [b] :: runes s.
Proof. intros Hb. cbn [runes]. by rewrite (proj2 (Z.ltb_lt _ _) Hb). Qed.

(** ASCII text decodes to its bytes. *)
Definition ascii (s : list byte) : Prop := Forall (λ b, b2z b < 0x80) s.
Lemma runes_ascii s : ascii s → runes s = (λ b, Rune (b2z b) true [b]) <$> s.
Proof. induction 1 as [|b s Hb _ IH]; [done|]. rewrite runes_small by done. cbn [fmap list_fmap]. by f_equal. Qed.
Lemma runes_bytes_ascii s : runes_bytes ((λ b, Rune (b2z b) true [b]) <$> s) = s.
Proof. unfold runes_bytes. induction s as [|b s IH]; [done|]. cbn. by f_equal. Qed.

Lemma drop_spaces_id rs : Forall (λ r, IsSpace (r_value r) = false) rs → drop_spaces rs = rs.
Proof. by destruct 1 as [|r rs Hr _]; cbn [drop_spaces]; [|rewrite Hr]. Qed.

(** A text of ASCII letters, as a list of bytes from [a] to [z]. *)
Definition letters (s : list byte) : Prop := Forall (λ b, 97 <= b2z b <= 122) s.
Lemma letters_ascii s : letters s → ascii s.
Proof. apply Forall_impl. lia. Qed.
Lemma letter_no_space v : 97 <= v <= 122 → IsSpace v = false.
Proof.
  intros H. unfold IsSpace. rewrite bool_decide_eq_false_2.
  - cbn [orb]. apply andb_false_iff. left. apply Z.leb_gt. lia.
  - rewrite !elem_of_cons, elem_of_nil. lia.
Qed.
Lemma TrimSpace_letters s : letters s → TrimSpace s = s.
Proof.
  intros Hs. unfold TrimSpace. rewrite (runes_ascii s) by by apply letters_ascii.
  assert (Forall (λ r, IsSpace (r_value r) = false) ((λ b, Rune (b2z b) true [b]) <$> s)) as Hf.
  { apply Forall_fmap. eapply Forall_impl; [|exact Hs]. intros b Hb. cbn. by apply letter_no_space. }
  rewrite (drop_spaces_id (_ <$> _)) by done. rewrite drop_spaces_id by (by apply Forall_rev).
  by rewrite rev_involutive, runes_bytes_ascii.
Qed.
Lemma ToLower_letters s : letters s → ToLower s = s.
Proof.
  intros Hs. unfold ToLower. rewrite runes_ascii by by apply letters_ascii.
  induction Hs as [|b s Hb _ IH]; [done|]. cbn [fmap list_fmap concat].
  unfold lower_rune at 1. cbn [r_value r_bytes].
  replace ((65 <=? b2z b) && (b2z b <=? 90)) with false by (symmetry; apply andb_false_iff; right; apply Z.leb_gt; lia).
  replace (b2z b =? 0x130) with false by (symmetry; apply Z.eqb_neq; lia).
  replace (b2z b =? 0x212a) with false by (symmetry; apply Z.eqb_neq; lia). cbn [app]. by f_equal.
Qed.

(** Decoding loses nothing. *)
Lemma runes_bytes_runes s : runes_bytes (runes s) = s.
Proof.
  unfold runes_bytes. revert s.
  assert (∀ n s, (length s <= n)%nat → concat (r_bytes <$> runes s) = s) as H; [|intros s; by apply (H (length s))].
  induction n as [|n IH]; intros [|b0 s1] Hn; cbn [length] in Hn; [done|lia|done|].
  assert (concat (r_bytes <$> runes s1) = s1) as E1 by (apply IH; lia).
  cbn [runes]. repeat case_match; subst; cbn [fmap list_fmap concat r_bytes bad_rune app] in *;
    rewrite ?E1; try done; rewrite IH by (cbn [length] in *; lia); done.
Qed.

(** Spaces around a word of letters do not matter, nor does its case. *)
Example trim_lower : ToLower (TrimSpace (ascii_bytes "  Zoo ")) = ascii_bytes "zoo".
Proof. vm_compute. reflexivity. Qed.
Example kelvin_sign : ToLower [Byte.xe2; Byte.x84; Byte.xaa] = ascii_bytes "k".
Proof. vm_compute. reflexivity. Qed.
Example wide_space : TrimSpace ([Byte.xe2; Byte.x80; Byte.x83] ++ ascii_bytes "a" ++ [Byte.xc2; Byte.xa0]) = ascii_bytes "a".
Proof. vm_compute. reflexivity. Qed.
