(* ===== verification/StrictJson.v ===== *)
(** * JSON: [strictjson/decode.go] and what it uses of [encoding/json]

    Values, the compact output of [json.Marshal], the grammar that a [json.Decoder] accepts,
    and decoding into a struct: members are assigned in order, [null] leaves a field as it is,
    and a name matches a field exactly or after Unicode folding. A type that the sources encode
    is an instance of [Field]. *)

From S2P Require Import Prelude GoIO Text Runes.

Inductive json :=
| JNull | JBool (b : bool) | JNumber (literal : text) | JString (s : text)
| JArray (l : list json) | JObject (members : list (text * json)).

(** ** Characters *)

Definition quote : byte := Byte.x22.
Definition backslash : byte := Byte.x5c.
Definition comma : byte := Byte.x2c.
Definition colon : byte := Byte.x3a.
Definition open_brace : byte := Byte.x7b.
Definition close_brace : byte := Byte.x7d.
Definition open_bracket : byte := Byte.x5b.
Definition close_bracket : byte := Byte.x5d.
Definition newline : byte := Byte.x0a.
Definition json_space (b : byte) : bool := bool_decide (b2z b ∈ [0x20; 0x09; 0x0a; 0x0d]).
Definition digit (b : byte) : bool := in_range 48 57 b.

(** [utf8.AppendRune] of a code point that is not a surrogate. *)
Definition AppendRune (v : Z) : text :=
  if v <? 0x80 then [z2b v]
  else if v <? 0x800 then [z2b (0xc0 + v / 64); z2b (0x80 + v mod 64)]
  else if v <? 0x10000 then [z2b (0xe0 + v / 4096); z2b (0x80 + v / 64 mod 64); z2b (0x80 + v mod 64)]
  else [z2b (0xf0 + v / 262144); z2b (0x80 + v / 4096 mod 64); z2b (0x80 + v / 64 mod 64); z2b (0x80 + v mod 64)].

(** ** Output *)

(** [htmlSafeSet], of a byte below 0x80. *)
Definition html_safe (b : byte) : bool :=
  (0x20 <=? b2z b) && negb (bool_decide (b ∈ [quote; backslash; Byte.x26; Byte.x3c; Byte.x3e])).
(** [appendString] with HTML escapes. *)
Definition escape (b : byte) : text :=
  if html_safe b then [b]
  else if bool_decide (b = backslash) || bool_decide (b = quote) then [backslash; b]
  else if b2z b =? 8 then ascii_bytes "\b"
  else if b2z b =? 12 then ascii_bytes "\f"
  else if b2z b =? 10 then ascii_bytes "\n"
  else if b2z b =? 13 then ascii_bytes "\r"
  else if b2z b =? 9 then ascii_bytes "\t"
  else ascii_bytes "\u00" ++ hex_put 2 (b2z b).
Definition escape_rune (r : rune) : text :=
  if negb (r_valid r) then ascii_bytes "\ufffd"
  else if r_value r <? 0x80 then concat (escape <$> r_bytes r)
  else if (r_value r =? 0x2028) || (r_value r =? 0x2029) then ascii_bytes "\u202" ++ [hex_char (r_value r mod 16)]
  else r_bytes r.
Definition string_body (s : text) : text := concat (escape_rune <$> runes s).
Definition print_string (s : text) : text := quote :: string_body s ++ [quote].

Fixpoint print (v : json) : text :=
  match v with
  | JNull => ascii_bytes "null"
  | JBool b => ascii_bytes (if b then "true" else "false")
  | JNumber literal => literal
  | JString s => print_string s
  | JArray l => open_bracket :: Join comma (print <$> l) ++ [close_bracket]
  | JObject ms => open_brace :: Join comma ((λ m : text * json, print_string m.1 ++ colon :: print m.2) <$> ms) ++ [close_brace]
  end.

(** ** The grammar *)

Fixpoint skip_spaces (l : text) : text :=
  match l with b :: rest => if json_space b then skip_spaces rest else l | [] => [] end.

(** [getu4] *)
Definition getu4 (a b c d : byte) : option Z :=
  a ← hex_digit a; b ← hex_digit b; c ← hex_digit c; d ← hex_digit d; Some (((a * 16 + b) * 16 + c) * 16 + d).
Definition is_surrogate (v : Z) : bool := (0xd800 <=? v) && (v <? 0xe000).
(** [utf16.DecodeRune] of a pair, when it is one. *)
Definition decode_pair (v w : Z) : option Z :=
  if (0xd800 <=? v) && (v <? 0xdc00) && (0xdc00 <=? w) && (w <? 0xe000)
  then Some ((v - 0xd800) * 1024 + (w - 0xdc00) + 0x10000) else None.
Definition unescape (e : byte) : option byte :=
  if bool_decide (e ∈ [quote; backslash; Byte.x2f]) then Some e
  else if bool_decide (e = Byte.x62) then Some Byte.x08
  else if bool_decide (e = Byte.x66) then Some Byte.x0c
  else if bool_decide (e = Byte.x6e) then Some Byte.x0a
  else if bool_decide (e = Byte.x72) then Some Byte.x0d
  else if bool_decide (e = Byte.x74) then Some Byte.x09
  else None.

Definition onto {A} (s : text) (o : option (text * A)) : option (text * A) := '(t, rest) ← o; Some (s ++ t, rest).
(** After the opening quote: the scanner and [unquote]; the input is valid UTF-8. *)
Fixpoint parse_string (l : text) : option (text * text) :=
  match l with
  | [] => None
  | c :: l1 =>
      if bool_decide (c = quote) then Some ([], l1)
      else if b2z c <? 0x20 then None
      else if negb (bool_decide (c = backslash)) then onto [c] (parse_string l1)
      else
        match l1 with
        | [] => None
        | e :: l2 =>
            if negb (bool_decide (e = Byte.x75)) then b ← unescape e; onto [b] (parse_string l2)
            else
              match l2 with
              | h1 :: h2 :: h3 :: h4 :: l6 =>
                  v ← getu4 h1 h2 h3 h4;
                  if negb (is_surrogate v) then onto (AppendRune v) (parse_string l6)
                  else
                    match l6 with
                    | b1 :: u1 :: k1 :: k2 :: k3 :: k4 :: l12 =>
                        match (if bool_decide (b1 = backslash) && bool_decide (u1 = Byte.x75)
                               then w ← getu4 k1 k2 k3 k4; decode_pair v w else None) with
                        | Some joined => onto (AppendRune joined) (parse_string l12)
                        | None => onto (AppendRune RuneError) (parse_string l6)
                        end
                    | _ => onto (AppendRune RuneError) (parse_string l6)
                    end
              | _ => None
              end
        end
  end.

Fixpoint span_digits (l : text) : text * text :=
  match l with
  | c :: rest => if digit c then let '(ds, rest) := span_digits rest in (c :: ds, rest) else ([], l)
  | [] => ([], [])
  end.
Definition prefixed (p : text) (o : option (text * text)) : option (text * text) := onto p o.
Definition some_digits (l : text) : option (text * text) :=
  let '(ds, rest) := span_digits l in if bool_decide (ds = []) then None else Some (ds, rest).
Definition parse_exponent (l : text) : option (text * text) :=
  match l with
  | c :: rest =>
      if bool_decide (c ∈ [Byte.x65; Byte.x45]) then
        match rest with
        | s :: rest' => if bool_decide (s ∈ [Byte.x2b; Byte.x2d]) then prefixed [c; s] (some_digits rest')
                        else prefixed [c] (some_digits rest)
        | [] => None
        end
      else Some ([], l)
  | [] => Some ([], [])
  end.
Definition parse_fraction (l : text) : option (text * text) :=
  match l with
  | c :: rest =>
      if bool_decide (c = Byte.x2e) then '(ds, rest) ← some_digits rest; prefixed (c :: ds) (parse_exponent rest)
      else parse_exponent l
  | [] => Some ([], [])
  end.
Definition parse_unsigned (l : text) : option (text * text) :=
  match l with
  | c :: rest =>
      if bool_decide (c = Byte.x30) then prefixed [c] (parse_fraction rest)
      else '(ds, rest) ← some_digits l; prefixed ds (parse_fraction rest)
  | [] => None
  end.
Definition parse_number (l : text) : option (text * text) :=
  match l with
  | c :: rest => if bool_decide (c = Byte.x2d) then prefixed [c] (parse_unsigned rest) else parse_unsigned l
  | [] => None
  end.

Definition maxNestingDepth : Z := 10000.
Definition expect (c : byte) (l : text) : option text :=
  match l with b :: rest => if bool_decide (b = c) then Some rest else None | [] => None end.

(** [n] bounds the calls; the length of the input is enough. *)
Fixpoint parse_value (n : nat) (depth : Z) (l : text) {struct n} : option (json * text) :=
  match n with
  | O => None
  | S n =>
      let l := skip_spaces l in
      match l with
      | [] => None
      | c :: rest =>
          if bool_decide (c = quote) then '(s, rest) ← parse_string rest; Some (JString s, rest)
          else if bool_decide (c = open_bracket) then
            if maxNestingDepth <? depth + 1 then None
            else match expect close_bracket (skip_spaces rest) with
                 | Some rest => Some (JArray [], rest)
                 | None => '(vs, rest) ← parse_elements n (depth + 1) rest; Some (JArray vs, rest)
                 end
          else if bool_decide (c = open_brace) then
            if maxNestingDepth <? depth + 1 then None
            else match expect close_brace (skip_spaces rest) with
                 | Some rest => Some (JObject [], rest)
                 | None => '(ms, rest) ← parse_members n (depth + 1) rest; Some (JObject ms, rest)
                 end
          else
            match CutPrefix l (ascii_bytes "null"), CutPrefix l (ascii_bytes "true"), CutPrefix l (ascii_bytes "false") with
            | Some rest, _, _ => Some (JNull, rest)
            | _, Some rest, _ => Some (JBool true, rest)
            | _, _, Some rest => Some (JBool false, rest)
            | _, _, _ => '(literal, rest) ← parse_number l; Some (JNumber literal, rest)
            end
      end
  end
with parse_elements (n : nat) (depth : Z) (l : text) {struct n} : option (list json * text) :=
  match n with
  | O => None
  | S n =>
      '(v, rest) ← parse_value n depth l;
      let rest := skip_spaces rest in
      match expect close_bracket rest with
      | Some rest => Some ([v], rest)
      | None =>
          rest ← expect comma rest;
          '(vs, rest) ← parse_elements n depth rest; Some (v :: vs, rest)
      end
  end
with parse_members (n : nat) (depth : Z) (l : text) {struct n} : option (list (text * json) * text) :=
  match n with
  | O => None
  | S n =>
      rest ← expect quote (skip_spaces l);
      '(key, rest) ← parse_string rest;
      rest ← expect colon (skip_spaces rest);
      '(v, rest) ← parse_value n depth rest;
      let rest := skip_spaces rest in
      match expect close_brace rest with
      | Some rest => Some ([(key, v)], rest)
      | None =>
          rest ← expect comma rest;
          '(ms, rest) ← parse_members n depth rest; Some ((key, v) :: ms, rest)
      end
  end.

(** One value, and nothing after it but spaces. *)
Definition parse_json (l : text) : option json :=
  '(v, rest) ← parse_value (S (length l)) 0 l;
  if bool_decide (skip_spaces rest = []) then Some v else None.

(** ** [rejectDuplicateKeys] *)

(** [consumeValue]: the keys of an object are distinct in lower case. *)
Fixpoint consumeValue (v : json) : bool :=
  match v with
  | JObject ms => bool_decide (NoDup (ToLower ∘ fst <$> ms)) && forallb (λ m : text * json, consumeValue m.2) ms
  | JArray l => forallb consumeValue l
  | _ => true
  end.
Definition rejectDuplicateKeys (v : json) : bool := negb (consumeValue v).

(** ** Decoding into a type *)

(** [foldName] as it decides equality with an ASCII name: letters to upper case, and the two
    runes outside of ASCII that fold into it, U+017F (long s) and U+212A (Kelvin). *)
Definition fold_rune (r : rune) : text :=
  let v := r_value r in
  if negb (r_valid r) then r_bytes r
  else if (97 <=? v) && (v <=? 122) then [z2b (v - 32)]
  else if v =? 0x17f then ascii_bytes "S"
  else if v =? 0x212a then ascii_bytes "K"
  else r_bytes r.
Definition foldName (s : text) : text := concat (fold_rune <$> runes s).

(** A type that is encoded: how it is written, its zero value, and how a value is assigned
    to a variable that holds another one. *)
Class Field (A : Type) := {
  to_json : A → json;
  zero_value : A;
  assign : json → A → option A }.

Fixpoint uint_bytes (u : Decimal.uint) : text :=
  match u with
  | Decimal.Nil => []
  | Decimal.D0 u => Byte.x30 :: uint_bytes u | Decimal.D1 u => Byte.x31 :: uint_bytes u
  | Decimal.D2 u => Byte.x32 :: uint_bytes u | Decimal.D3 u => Byte.x33 :: uint_bytes u
  | Decimal.D4 u => Byte.x34 :: uint_bytes u | Decimal.D5 u => Byte.x35 :: uint_bytes u
  | Decimal.D6 u => Byte.x36 :: uint_bytes u | Decimal.D7 u => Byte.x37 :: uint_bytes u
  | Decimal.D8 u => Byte.x38 :: uint_bytes u | Decimal.D9 u => Byte.x39 :: uint_bytes u
  end.
(** [strconv.AppendInt], base ten *)
Definition FormatInt (z : Z) : text :=
  if z <? 0 then Byte.x2d :: uint_bytes (N.to_uint (Z.to_N (- z))) else uint_bytes (N.to_uint (Z.to_N z)).
Definition digits_value (l : text) : Z := foldl (λ acc c, acc * 10 + (b2z c - 48)) 0 l.
(** [strconv.ParseUint] and [ParseInt], base ten, of the literal of a number. *)
Definition ParseUint (l : text) (bits : Z) : option Z :=
  if bool_decide (l = []) || negb (forallb digit l) || (2 ^ bits <=? digits_value l) then None else Some (digits_value l).
Definition ParseInt (l : text) (bits : Z) : option Z :=
  match l with
  | c :: rest =>
      if bool_decide (c = Byte.x2d)
      then if bool_decide (rest = []) || negb (forallb digit rest) || (2 ^ (bits - 1) <? digits_value rest) then None
           else Some (- digits_value rest)
      else if negb (forallb digit l) || (2 ^ (bits - 1) <=? digits_value l) then None else Some (digits_value l)
  | [] => None
  end.

#[export] Instance text_field : Field text := {
  to_json := JString;
  zero_value := [];
  assign v old := match v with JString s => Some s | JNull => Some old | _ => None end }.
#[export] Instance bool_field : Field bool := {
  to_json := JBool;
  zero_value := false;
  assign v old := match v with JBool b => Some b | JNull => Some old | _ => None end }.
Definition uint_field (bits : Z) : Field Z := {|
  to_json := λ z, JNumber (FormatInt z);
  zero_value := 0;
  assign := λ v old, match v with JNumber l => ParseUint l bits | JNull => Some old | _ => None end |}.
Definition int_field (bits : Z) : Field Z := {|
  to_json := λ z, JNumber (FormatInt z);
  zero_value := 0;
  assign := λ v old, match v with JNumber l => ParseInt l bits | JNull => Some old | _ => None end |}.

(** A Go slice, which may be nil. A slice that is assigned again keeps its old elements under
    the new ones, as far as they are visible. *)
Definition gslice (A : Type) : Type := option (list A).
Definition elems {A} (s : gslice A) : list A := default [] s.
(** [append([]T(nil), l...)] *)
Definition append_nil {A} (l : list A) : gslice A := match l with [] => None | _ => Some l end.
Fixpoint assign_elements {A} (F : Field A) (vs : list json) (old : list A) : option (list A) :=
  match vs with
  | [] => Some []
  | v :: vs => a ← assign v (default zero_value (list.head old)); l ← assign_elements F vs (tail old); Some (a :: l)
  end.
#[export] Instance slice_field {A} (F : Field A) : Field (gslice A) := {
  to_json s := match s with None => JNull | Some l => JArray (to_json <$> l) end;
  zero_value := None;
  assign v old := match v with JNull => Some None | JArray vs => Some <$> assign_elements F vs (elems old) | _ => None end }.

(** A field of a struct [R]: its name, and how a member is assigned to it. *)
Abbreviation setter_of R := (text * (json → R → option R))%type.
Definition field_at {R A} (name : string) (F : Field A) (get : R → A) (set : A → R → R) : setter_of R :=
  (ascii_bytes name, λ v r, a ← assign v (get r); Some (set a r)).
(** The field of a name: the one with the exact name, else one with the same folding. *)
Definition find_name (names : list text) (key : text) : option nat :=
  match list_find (λ name, name = key) names with
  | Some (i, _) => Some i
  | None => fst <$> list_find (λ name, foldName name = foldName key) names
  end.
Definition find_field {R} (fields : list (setter_of R)) (key : text) : option (json → R → option R) :=
  i ← find_name (fst <$> fields) key; snd <$> fields !! i.
Fixpoint assign_members {R} (fields : list (setter_of R)) (ms : list (text * json)) (r : R) : option R :=
  match ms with
  | [] => Some r
  | (key, v) :: ms => f ← find_field fields key; r ← f v r; assign_members fields ms r
  end.
Definition assign_struct {R} (fields : list (setter_of R)) (v : json) (r : R) : option R :=
  match v with
  | JNull => Some r
  | JObject ms => assign_members fields ms r
  | _ => None
  end.
Definition member {A} (name : string) (F : Field A) (a : A) : list (text * json) := [(ascii_bytes name, to_json a)].
(** [omitempty] on a string *)
Definition member_omitempty (name : string) (s : text) : list (text * json) :=
  if bool_decide (s = []) then [] else member name text_field s.

(** [json.Marshal] *)
Definition Marshal {A} (F : Field A) (a : A) : list byte := print (to_json a).

(** [strictjson.Decode] into a variable that holds the zero value. *)
Definition Decode {A} (F : Field A) (encoded : list byte) : option A :=
  if bool_decide (encoded = []) || negb (ValidString encoded) then None
  else v ← parse_json encoded;
       if rejectDuplicateKeys v then None else assign v zero_value.
