(* ===== verification/StrictJsonSafety.v ===== *)
(** * What is encoded is decoded: [StrictJson]

    The parser inverts the printer, and a type whose [Field] is lawful is read back from its
    encoding. *)

From S2P Require Import Prelude GoIO Text Runes StrictJson.
From Stdlib Require DecimalN DecimalFacts.

(** ** Valid UTF-8 *)

(** The bytes of one rune outside of ASCII. *)
Definition wide (bs : text) (v : Z) : Prop :=
  Forall (λ b, 0x80 <= b2z b) bs ∧ 0x80 <= v ∧ (∀ t, runes (bs ++ t) = Rune v true bs :: runes t)
  ∧ (v = 0x2028 ∨ v = 0x2029 → bs = AppendRune v).

Lemma in_range_inv lo hi b : in_range lo hi b = true → lo <= b2z b <= hi.
Proof. unfold in_range. intros [H1 H2]%andb_true_iff. lia. Qed.

Lemma wide2 b0 b1 : 0xc2 <= b2z b0 < 0xe0 → in_range 0x80 0xbf b1 = true → wide [b0; b1] ((b2z b0 - 0xc0) * 64 + low6 b1).
Proof.
  intros H0 H1. pose proof (in_range_inv _ _ _ H1). pose proof (Z.mod_pos_bound (b2z b1) 64). unfold low6.
  split_and!; [repeat constructor; lia|lia| |lia].
  intros t. cbn [app runes]. repeat rewrite (proj2 (Z.ltb_ge _ _)) by lia. rewrite (proj2 (Z.ltb_lt _ _)) by lia.
  by rewrite H1.
Qed.
Lemma low6_of b : 0x80 <= b2z b <= 0xbf → low6 b = b2z b - 0x80.
Proof. intros H. unfold low6. symmetry. apply (Z.mod_unique_pos _ _ 2); lia. Qed.
Lemma second3_inv x b : second3 x b = true → 0x80 <= b2z b <= 0xbf ∧ (x = 0xe0 → 0xa0 <= b2z b).
Proof. unfold second3. intros H%in_range_inv. destruct (x =? 0xe0) eqn:?, (x =? 0xed) eqn:?; lia. Qed.
Lemma second4_inv x b : second4 x b = true → 0x80 <= b2z b <= 0xbf ∧ (x = 0xf0 → 0x90 <= b2z b).
Proof. unfold second4. intros H%in_range_inv. destruct (x =? 0xf0) eqn:?, (x =? 0xf4) eqn:?; lia. Qed.
Lemma b2z_is b z : b2z b = z → b = z2b z.
Proof. intros <-. by rewrite z2b_b2z. Qed.

Lemma wide3 b0 b1 b2 : 0xe0 <= b2z b0 < 0xf0 → second3 (b2z b0) b1 && in_range 0x80 0xbf b2 = true →
  wide [b0; b1; b2] (((b2z b0 - 0xe0) * 64 + low6 b1) * 64 + low6 b2).
Proof.
  intros H0 G. pose proof G as [H1%second3_inv H2%in_range_inv]%andb_true_iff. destruct H1 as [H1 H1'].
  rewrite !low6_of by lia. split_and!; [repeat constructor; lia|lia| |].
  - intros t. cbn [app runes]. repeat rewrite (proj2 (Z.ltb_ge _ _)) by lia. rewrite (proj2 (Z.ltb_lt _ _)) by lia.
    by rewrite G, !low6_of by lia.
  - intros Hv. assert (b2z b0 = 0xe2 ∧ b2z b1 = 0x80 ∧ (b2z b2 = 0xa8 ∨ b2z b2 = 0xa9)) as (E0 & E1 & E2) by lia.
    apply b2z_is in E0 as ->. apply b2z_is in E1 as ->. destruct E2 as [->%b2z_is| ->%b2z_is]; reflexivity.
Qed.
Lemma wide4 b0 b1 b2 b3 : 0xf0 <= b2z b0 < 0xf5 → second4 (b2z b0) b1 && in_range 0x80 0xbf b2 && in_range 0x80 0xbf b3 = true →
  wide [b0; b1; b2; b3] ((((b2z b0 - 0xf0) * 64 + low6 b1) * 64 + low6 b2) * 64 + low6 b3).
Proof.
  intros H0 G. pose proof G as [[H1%second4_inv H2%in_range_inv]%andb_true_iff H3%in_range_inv]%andb_true_iff. destruct H1 as [H1 H1'].
  rewrite !low6_of by lia. split_and!; [repeat constructor; lia|lia| |lia].
  intros t. cbn [app runes]. repeat rewrite (proj2 (Z.ltb_ge _ _)) by lia. rewrite (proj2 (Z.ltb_lt _ _)) by lia.
  by rewrite G, !low6_of by lia.
Qed.

(** A valid string is a sequence of ASCII characters and wide runes. *)
Lemma valid_ind (P : text → Prop) :
  P [] → (∀ b s, b2z b < 0x80 → ValidString s → P s → P (b :: s)) →
  (∀ bs v s, wide bs v → ValidString s → P s → P (bs ++ s)) → ∀ s, ValidString s → P s.
Proof.
  intros H0 H1 H2 s. enough (∀ n s, (length s <= n)%nat → ValidString s → P s) as H by by apply (H (length s)).
  induction n as [|n IH]; intros [|b0 s1] Hn Hv; cbn [length] in Hn; [done|lia|done|].
  unfold ValidString in Hv. cbn [runes] in Hv.
  repeat case_match; cbn [bad_rune forallb r_valid andb] in Hv; try contradiction; bool_prop; subst.
  - apply H1; [lia|done|apply IH; [lia|done]].
  - refine (H2 [_; _] _ _ (wide2 _ _ _ _) Hv (IH _ _ Hv)); [lia|done|cbn in Hn; lia].
  - refine (H2 [_; _; _] _ _ (wide3 _ _ _ _ _) Hv (IH _ _ Hv)); [lia| |cbn in Hn; lia]. by apply andb_true_iff.
  - refine (H2 [_; _; _; _] _ _ (wide4 _ _ _ _ _ _) Hv (IH _ _ Hv)); [lia| |cbn in Hn; lia].
    by apply andb_true_iff; split; [apply andb_true_iff|].
Qed.

Lemma runes_app s t : ValidString s → runes (s ++ t) = runes s ++ runes t.
Proof.
  intros Hs. revert s Hs. apply (valid_ind (λ s, runes (s ++ t) = runes s ++ runes t)); [done| |].
  - intros b s Hb _ IH. cbn [app]. rewrite !runes_small by done. by rewrite IH.
  - intros bs v s (_ & _ & Hw & _) _ IH. by rewrite <-app_assoc, !Hw, IH.
Qed.
Lemma ValidString_app s t : ValidString s → ValidString t → ValidString (s ++ t).
Proof. intros Hs Ht. unfold ValidString. rewrite runes_app, forallb_app by done. by apply andb_prop_intro. Qed.
Lemma ValidString_small b : b2z b < 0x80 → ValidString [b].
Proof. intros H. unfold ValidString. by rewrite runes_small. Qed.
Lemma ValidString_ascii s : ascii s → ValidString s.
Proof. induction 1 as [|b s Hb _ IH]; [done|]. apply (ValidString_app [b]); [by apply ValidString_small|done]. Qed.
Lemma ValidString_wide bs v : wide bs v → ValidString bs.
Proof. intros (_ & _ & H & _). unfold ValidString. specialize (H []). rewrite app_nil_r in H. by rewrite H. Qed.

(** ** Strings *)

Lemma byte_cases (P : byte → Prop) : (∀ n, (n < 256)%nat → P (z2b (Z.of_nat n))) → ∀ b, P b.
Proof. intros H b. pose proof (b2z_range b). rewrite <-(z2b_b2z b), <-(Z2Nat.id (b2z b)) by lia. apply H. lia. Qed.
(** Every escape of an ASCII character is read back as that character. *)
Lemma escape_ok b t : b2z b < 0x80 → parse_string (escape b ++ t) = onto [b] (parse_string t).
Proof. intros H. destruct b; first [exfalso; vm_compute in H; discriminate|reflexivity]. Qed.
Lemma escape_ascii b : b2z b < 0x80 → ascii (escape b).
Proof.
  intros H. unfold escape, html_safe.
  destruct b; first [exfalso; vm_compute in H; discriminate|repeat constructor].
Qed.
Lemma escape_rune_ascii b : b2z b < 0x80 → escape_rune (Rune (b2z b) true [b]) = escape b.
Proof. intros H. unfold escape_rune. cbn [r_valid r_value r_bytes negb fmap list_fmap concat]. by rewrite (proj2 (Z.ltb_lt _ _) H), app_nil_r. Qed.

Lemma parse_wide bs t : Forall (λ b, 0x80 <= b2z b) bs → parse_string (bs ++ t) = onto bs (parse_string t).
Proof.
  induction 1 as [|b bs Hb _ IH]; [cbn; by destruct (parse_string t) as [[]|]|]. cbn [app parse_string].
  rewrite !bool_decide_eq_false_2 by (intros ->; vm_compute in Hb; done). rewrite (proj2 (Z.ltb_ge _ _)) by lia.
  cbn [negb]. rewrite IH. by destruct (parse_string t) as [[]|].
Qed.
Lemma escape_rune_wide bs v t : wide bs v →
  parse_string (escape_rune (Rune v true bs) ++ t) = onto bs (parse_string t).
Proof.
  intros (Hb & Hv & _ & Hs). unfold escape_rune. cbn [r_valid r_value r_bytes negb]. rewrite (proj2 (Z.ltb_ge _ _)) by lia.
  destruct ((v =? 0x2028) || (v =? 0x2029)) eqn:E; [|by apply parse_wide].
  apply orb_true_iff in E as [->%Z.eqb_eq| ->%Z.eqb_eq]; rewrite Hs by auto; reflexivity.
Qed.
Lemma onto_onto {A} s u (o : option (text * A)) : onto s (onto u o) = onto (s ++ u) o.
Proof. destruct o as [[t r]|]; [|done]. cbn. by rewrite app_assoc. Qed.

Lemma string_body_app s t : ValidString s → string_body (s ++ t) = string_body s ++ string_body t.
Proof. intros Hs. unfold string_body. by rewrite runes_app, fmap_app, concat_app. Qed.
Lemma parse_body s t : ValidString s → parse_string (string_body s ++ t) = onto s (parse_string t).
Proof.
  intros Hs. revert s Hs. apply (valid_ind (λ s, parse_string (string_body s ++ t) = onto s (parse_string t))).
  - cbn. by destruct (parse_string t) as [[]|].
  - intros b s Hb _ IH. unfold string_body. rewrite runes_small by done. cbn [fmap list_fmap concat].
    rewrite <-app_assoc, escape_rune_ascii, escape_ok by done. unfold string_body in IH. by rewrite IH, onto_onto.
  - intros bs v s Hw _ IH. unfold string_body. rewrite (proj1 (proj2 (proj2 Hw))). cbn [fmap list_fmap concat].
    rewrite <-app_assoc, (escape_rune_wide _ _ _ Hw). unfold string_body in IH. by rewrite IH, onto_onto.
Qed.
Lemma parse_print_string s t : ValidString s → parse_string (string_body s ++ quote :: t) = Some (s, t).
Proof. intros Hs. rewrite parse_body by done. change (parse_string (quote :: t)) with (Some ([] : text, t)).
  cbn [onto mbind option_bind]. by rewrite app_nil_r. Qed.

Lemma ValidString_concat l : Forall ValidString l → ValidString (concat l).
Proof. induction 1; [done|]. by apply ValidString_app. Qed.
Lemma escape_valid s : ValidString s → ValidString (string_body s).
Proof.
  intros Hs. revert s Hs. apply valid_ind; [done| |].
  - intros b s Hb _ IH. unfold string_body. rewrite runes_small by done. cbn [fmap list_fmap concat].
    rewrite escape_rune_ascii by done. apply ValidString_app; [by apply ValidString_ascii, escape_ascii|done].
  - intros bs v s Hw _ IH. unfold string_body. rewrite (proj1 (proj2 (proj2 Hw))). cbn [fmap list_fmap concat].
    apply ValidString_app; [|done]. unfold escape_rune. cbn [r_valid r_value r_bytes negb].
    rewrite (proj2 (Z.ltb_ge _ _)) by apply Hw. case_guard E; [|by eapply ValidString_wide]. apply orb_true_iff in E as [->%Z.eqb_eq| ->%Z.eqb_eq]; reflexivity.
Qed.

(** ** Numbers *)

(** What may follow a number. *)
Definition ends (t : text) : Prop :=
  match t with [] => True | c :: _ => digit c = false ∧ c ∉ [Byte.x2e; Byte.x65; Byte.x45] end.
Lemma span_digits_app ds t : forallb digit ds → ends t → span_digits (ds ++ t) = (ds, t).
Proof.
  intros Hd Ht. induction ds as [|c ds IH]; cbn [app span_digits].
  - destruct t as [|c t]; [done|]. cbn [span_digits]. by rewrite (proj1 Ht).
  - cbn [forallb] in Hd. apply andb_prop_elim in Hd as [Hc Hd]. apply Is_true_true in Hc as ->. by rewrite IH.
Qed.
Lemma parse_fraction_ends t : ends t → parse_fraction t = Some ([], t).
Proof.
  destruct t as [|c t]; [done|]. intros [_ Hc]. cbn. rewrite bool_decide_eq_false_2 by (set_solver).
  by rewrite bool_decide_eq_false_2 by set_solver.
Qed.

Definition number (l : text) : Prop := ∃ sign ds, l = sign ++ ds ∧ (sign = [] ∨ sign = [Byte.x2d]) ∧ forallb digit ds ∧
  (ds = [Byte.x30] ∨ ∃ c rest, ds = c :: rest ∧ c ≠ Byte.x30).
Lemma parse_unsigned_digits ds t : forallb digit ds → (ds = [Byte.x30] ∨ ∃ c rest, ds = c :: rest ∧ c ≠ Byte.x30) → ends t →
  parse_unsigned (ds ++ t) = Some (ds, t).
Proof.
  intros Hd [->|(c & rest & -> & Hc)] Ht; cbn [app parse_unsigned].
  - rewrite bool_decide_eq_true_2 by done. by rewrite parse_fraction_ends.
  - rewrite bool_decide_eq_false_2 by done. change (c :: rest ++ t) with ((c :: rest) ++ t).
    unfold some_digits. rewrite span_digits_app by done.
    cbn [mbind option_bind]. rewrite bool_decide_eq_false_2 by done. cbn [mbind option_bind]. rewrite parse_fraction_ends by done.
    cbn. by rewrite app_nil_r.
Qed.
Lemma decimal_digit c : digit c = true → 48 <= b2z c <= 57.
Proof. apply in_range_inv. Qed.
Lemma digit_head ds : forallb digit ds → ds ≠ [] → ∃ c rest, ds = c :: rest ∧ 48 <= b2z c <= 57.
Proof.
  destruct ds as [|c rest]; [done|]. cbn. intros [H%Is_true_true _]%andb_prop_elim _.
  exists c, rest. split; [done|by apply decimal_digit].
Qed.
Lemma parse_number_ok l t : number l → ends t → parse_number (l ++ t) = Some (l, t).
Proof.
  intros (sign & ds & -> & Hs & Hd & Hh) Ht. assert (ds ≠ []) as Hne by (destruct Hh as [->|(c & rest & -> & _)]; done).
  destruct (digit_head ds Hd Hne) as (c & rest & E & Hc). destruct Hs as [->| ->]; cbn [app parse_number].
  - pose proof (parse_unsigned_digits ds t Hd Hh Ht) as Hp. subst ds. cbn [app parse_number] in *.
    rewrite bool_decide_eq_false_2 by (intros ->; vm_compute in Hc; destruct Hc as [Hc _]; by apply Hc). exact Hp.
  - rewrite bool_decide_eq_true_2 by done. by rewrite parse_unsigned_digits.
Qed.
Lemma number_head l : number l → ∃ c rest, l = c :: rest ∧ (c = Byte.x2d ∨ 48 <= b2z c <= 57).
Proof.
  intros (sign & ds & -> & Hs & Hd & Hh). destruct Hs as [->| ->]; [|by eexists _, _; split; [done|left]].
  destruct (digit_head ds Hd) as (c & rest & -> & Hc); [by destruct Hh as [->|(c & rest & -> & _)]|].
  exists c, rest. split; [done|by right].
Qed.
Lemma number_ascii l : number l → ascii l.
Proof.
  intros (sign & ds & -> & Hs & Hd & _). apply Forall_app. split; [destruct Hs as [->| ->]; by repeat constructor|].
  clear Hs. induction ds as [|c ds IH]; [constructor|]. cbn in Hd. apply andb_prop_elim in Hd as [Hc%Is_true_true Hd].
  constructor; [apply decimal_digit in Hc; lia|by apply IH].
Qed.

Lemma uint_bytes_digits u : forallb digit (uint_bytes u).
Proof. induction u; done. Qed.
Lemma uint_bytes_norm n : uint_bytes (N.to_uint n) = [Byte.x30] ∨ ∃ c rest, uint_bytes (N.to_uint n) = c :: rest ∧ c ≠ Byte.x30.
Proof.
  assert (N.to_uint n = Decimal.unorm (N.to_uint n)) as ->
    by (rewrite <-DecimalN.Unsigned.to_of; by rewrite DecimalN.Unsigned.of_to).
  unfold Decimal.unorm. destruct (Decimal.nzhead (N.to_uint n)) eqn:E; [by left|exfalso; by eapply DecimalFacts.nzhead_nonzero|..];
    right; by eexists _, _.
Qed.
Lemma acc_value u p : Z.pos (Pos.of_uint_acc u p) = foldl (λ acc c, acc * 10 + (b2z c - 48)) (Z.pos p) (uint_bytes u).
Proof.
  revert p. induction u; intros p; [done|..]; cbn [Pos.of_uint_acc uint_bytes foldl]; rewrite IHu; f_equal;
    match goal with |- context [b2z ?c] => let v := eval vm_compute in (b2z c) in change (b2z c) with v end; lia.
Qed.
Lemma digits_value_uint u : digits_value (uint_bytes u) = Z.of_N (N.of_uint u).
Proof.
  unfold digits_value, N.of_uint. induction u as [|u IH|u IH|u IH|u IH|u IH|u IH|u IH|u IH|u IH|u IH]; [done|exact IH|..];
    cbn [Pos.of_uint uint_bytes foldl Z.of_N]; by rewrite acc_value.
Qed.
Lemma FormatInt_number z : number (FormatInt z).
Proof.
  unfold FormatInt. case_guard E; [exists [Byte.x2d]|exists []]; eexists; (split; [reflexivity|]);
    (split; [auto|]); (split; [apply uint_bytes_digits|apply uint_bytes_norm]).
Qed.

(** ** Values *)

Fixpoint printable (depth : Z) (v : json) : Prop :=
  match v with
  | JString s => ValidString s
  | JNumber l => number l
  | JArray l => depth < maxNestingDepth ∧ foldr (λ v P, printable (depth + 1) v ∧ P) True l
  | JObject ms => depth < maxNestingDepth ∧ foldr (λ (m : text * json) P, ValidString m.1 ∧ printable (depth + 1) m.2 ∧ P) True ms
  | _ => True
  end.

Section Induction.
Context (P : json → Prop) (HN : P JNull) (HB : ∀ b, P (JBool b)) (HL : ∀ l, P (JNumber l)) (HS : ∀ s, P (JString s))
  (HA : ∀ l, Forall P l → P (JArray l)) (HO : ∀ ms : list (text * json), Forall (λ m, P m.2) ms → P (JObject ms)).
Fixpoint json_nested_ind (v : json) : P v :=
  match v with
  | JNull => HN | JBool b => HB b | JNumber l => HL l | JString s => HS s
  | JArray l => HA l ((fix go l : Forall P l := match l with [] => Forall_nil_2 _ | v :: l => Forall_cons_2 _ _ _ (json_nested_ind v) (go l) end) l)
  | JObject ms => HO ms ((fix go ms : Forall (λ m, P m.2) ms :=
      match ms with [] => Forall_nil_2 _ | (k, v) :: ms => Forall_cons_2 _ (k, v) _ (json_nested_ind v) (go ms) end) ms)
  end.
End Induction.

Definition starts (l : text) : Prop :=
  match l with
  | [] => False
  | c :: _ => json_space c = false ∧ c ∉ [close_bracket; close_brace; comma; colon]
  end.
Lemma print_starts v d t : printable d v → starts (print v ++ t).
Proof.
  destruct v as [|[]|l|s|l|ms]; try (intros _; split; [reflexivity|set_solver]).
  intros (c & rest & -> & Hc)%number_head. cbn. destruct Hc as [->|Hc]; [split; [done|set_solver]|].
  split; [unfold json_space; apply bool_decide_eq_false_2; set_solver by lia|].
  intros Hin. rewrite !elem_of_cons, elem_of_nil in Hin. destruct Hin as [->|[->|[->|[->|[]]]]]; vm_compute in Hc; destruct Hc as [H1 H2]; by first [apply H1|apply H2].
Qed.
Lemma starts_skip l : starts l → skip_spaces l = l.
Proof. destruct l as [|c l]; [done|]. intros [H _]. cbn. by rewrite H. Qed.
Lemma starts_expect c l : starts l → c ∈ [close_bracket; close_brace; comma; colon] → expect c l = None.
Proof. destruct l as [|b l]; [done|]. intros [_ H] Hc. cbn. rewrite bool_decide_eq_false_2; [done|]. by intros ->. Qed.

(** What the parser makes of [print v], in a context. *)
Definition parses (v : json) : Prop := ∀ n depth t,
  printable depth v → ends t → (length (print v) <= n)%nat → parse_value n depth (print v ++ t) = Some (v, t).

Lemma ends_punctuation c t : c ∈ [close_bracket; close_brace; comma] → ends (c :: t).
Proof. intros Hc. rewrite !elem_of_cons, elem_of_nil in Hc. destruct Hc as [->|[->|[->|[]]]]; (split; [done|set_solver]). Qed.
Lemma skip_punctuation c t : c ∈ [close_bracket; close_brace; comma; colon; quote; open_bracket; open_brace] →
  skip_spaces (c :: t) = c :: t.
Proof. intros Hc. rewrite !elem_of_cons, elem_of_nil in Hc. by destruct Hc as [->|[->|[->|[->|[->|[->|[->|[]]]]]]]]. Qed.
Lemma expect_same c t : expect c (c :: t) = Some t.
Proof. cbn. by rewrite bool_decide_eq_true_2. Qed.

Lemma parses_elements v l n depth t :
  Forall parses (v :: l) → foldr (λ v P, printable depth v ∧ P) True (v :: l) →
  (length (Join comma (print <$> v :: l)) < n)%nat →
  parse_elements n depth (Join comma (print <$> v :: l) ++ close_bracket :: t) = Some (v :: l, t).
Proof.
  intros H. revert n. induction l as [|w l IH] in v, H |- *; apply Forall_cons_iff in H as [Hv H]; intros [|n] Hp Hn; try (cbn in Hn; lia).
  - cbn [fmap list_fmap Join] in *. cbn [parse_elements]. rewrite Hv; [|apply Hp|apply ends_punctuation; set_solver|lia].
    cbn [mbind option_bind]. rewrite skip_punctuation by set_solver. by rewrite expect_same.
  - change (Join comma (print <$> v :: w :: l)) with (print v ++ comma :: Join comma (print <$> w :: l)) in *.
    rewrite length_app in Hn. cbn [length] in Hn. rewrite <-app_assoc. cbn [parse_elements].
    rewrite Hv; [|apply Hp|apply ends_punctuation; set_solver|lia]. cbn [mbind option_bind app].
    rewrite skip_punctuation by set_solver. replace (expect close_bracket _) with (@None text) by done. rewrite expect_same.
    cbn [mbind option_bind]. rewrite (IH w H n) by (try apply Hp; lia). done.
Qed.

Definition print_member (m : text * json) : text := print_string m.1 ++ colon :: print m.2.
Lemma parses_members m ms n depth t :
  Forall (λ m : text * json, parses m.2) (m :: ms) →
  foldr (λ (m : text * json) P, ValidString m.1 ∧ printable depth m.2 ∧ P) True (m :: ms) →
  (length (Join comma (print_member <$> m :: ms)) < n)%nat →
  parse_members n depth (Join comma (print_member <$> m :: ms) ++ close_brace :: t) = Some (m :: ms, t).
Proof.
  intros H. revert n. induction ms as [|w l IH] in m, H |- *; apply Forall_cons_iff in H as [Hv H]; destruct m as [k v]; cbn [fst snd] in Hv;
    intros [|n] (Hk & Hp & Hps) Hn; cbn [fst snd] in *; try lia.
  - change (Join comma (print_member <$> [(k, v)])) with (quote :: (string_body k ++ [quote]) ++ colon :: print v) in *.
    cbn [length] in Hn. rewrite !length_app in Hn. cbn [length] in Hn. cbn [app parse_members].
    rewrite skip_punctuation, expect_same by set_solver. cbn [mbind option_bind].
    rewrite <-!app_assoc. cbn [app]. rewrite parse_print_string by done. cbn [mbind option_bind].
    rewrite skip_punctuation, expect_same by set_solver. cbn [mbind option_bind].
    rewrite Hv; [|done|apply ends_punctuation; set_solver|lia].
    cbn [mbind option_bind]. rewrite skip_punctuation by set_solver. by rewrite expect_same.
  - change (Join comma (print_member <$> (k, v) :: w :: l))
      with ((quote :: (string_body k ++ [quote]) ++ colon :: print v) ++ comma :: Join comma (print_member <$> w :: l)) in *.
    rewrite length_app in Hn. cbn [length] in Hn. rewrite !length_app in Hn. cbn [length] in Hn. rewrite <-app_assoc. cbn [app parse_members].
    rewrite skip_punctuation, expect_same by set_solver. cbn [mbind option_bind].
    rewrite <-!app_assoc. cbn [app]. rewrite parse_print_string by done. cbn [mbind option_bind].
    rewrite skip_punctuation, expect_same by set_solver. cbn [mbind option_bind].
    rewrite Hv; [|done|apply ends_punctuation; set_solver|lia].
    cbn [mbind option_bind app]. rewrite skip_punctuation by set_solver. replace (expect close_brace _) with (@None text) by done.
    rewrite expect_same. cbn [mbind option_bind]. by rewrite (IH w H n) by (done || lia).
Qed.

Lemma parses_all v : parses v.
Proof.
  induction v as [|b|l|s|l IH|ms IH] using json_nested_ind; intros [|n] depth t Hp Ht Hn;
    try (pose proof (print_starts _ _ [] Hp) as Hs; rewrite app_nil_r in Hs; destruct (print _); [done|cbn in Hn; lia]).
  - done.
  - by destruct b.
  - cbn [print]. destruct (number_head l Hp) as (c & rest & -> & Hc).
    cbn [parse_value]. rewrite starts_skip by exact (print_starts (JNumber _) depth t Hp).
    cbn [app]. pose proof (parse_number_ok _ t Hp Ht) as Hl. cbn [app] in Hl.
    assert (∀ b, ¬ (48 <= b2z b <= 57) → b ≠ Byte.x2d → c ≠ b) as Hne by (intros b H1 H2 ->; by destruct Hc).
    rewrite !bool_decide_eq_false_2 by (apply Hne; [vm_compute; intuition discriminate|done]).
    repeat match goal with |- context [CutPrefix (c :: ?x) ?y] =>
      replace (CutPrefix (c :: x) y) with (@None text) by
        (symmetry; destruct (CutPrefix (c :: x) y) as [z|] eqn:E; [|done]; apply CutPrefix_Some in E;
         injection E as Hcc _; exfalso; revert Hcc; apply Hne; [vm_compute; intuition discriminate|done])
    end. by rewrite Hl.
  - cbn [print print_string app parse_value]. unfold print_string. cbn [app]. rewrite skip_punctuation by set_solver.
    rewrite bool_decide_eq_true_2, <-app_assoc by done. cbn [app]. by rewrite parse_print_string.
  - destruct Hp as [Hd Hp]. cbn [print app parse_value]. rewrite skip_punctuation by set_solver.
    rewrite bool_decide_eq_false_2, bool_decide_eq_true_2, (proj2 (Z.ltb_ge _ _)) by (done || lia).
    destruct l as [|v l]; [done|]. cbn [print length] in Hn. rewrite length_app in Hn. cbn [length] in Hn. rewrite <-app_assoc. cbn [app].
    assert (starts (Join comma (print <$> v :: l) ++ close_bracket :: t)) as Hst.
    { destruct Hp as [Hv _]. destruct l; cbn [fmap list_fmap Join]; [|rewrite <-app_assoc]; by eapply print_starts. }
    rewrite (starts_skip _ Hst), (starts_expect _ _ Hst) by set_solver. by rewrite parses_elements by (done || lia).
  - destruct Hp as [Hd Hp]. cbn [print app parse_value]. rewrite skip_punctuation by set_solver.
    rewrite !bool_decide_eq_false_2, bool_decide_eq_true_2, (proj2 (Z.ltb_ge _ _)) by (done || lia).
    destruct ms as [|m ms]; [done|]. cbn [print length] in Hn. rewrite length_app in Hn. cbn [length] in Hn. rewrite <-app_assoc. cbn [app].
    fold print_member in *. change (λ m0 : text * json, print_string m0.1 ++ colon :: print m0.2) with print_member in *.
    assert (starts (Join comma (print_member <$> m :: ms) ++ close_brace :: t)) as Hst.
    { destruct ms; (split; [reflexivity|set_solver]). }
    rewrite (starts_skip _ Hst), (starts_expect _ _ Hst) by set_solver. by rewrite parses_members by (done || lia).
Qed.

Lemma print_valid v depth : printable depth v → ValidString (print v).
Proof.
  revert depth. induction v as [|b|l|s|l IH|ms IH] using json_nested_ind; intros depth Hp; cbn [print].
  - done.
  - by destruct b.
  - by apply ValidString_ascii, number_ascii.
  - apply (ValidString_app [quote]); [done|]. apply ValidString_app; [by apply escape_valid|done].
  - destruct Hp as [_ Hp]. apply (ValidString_app [open_bracket]); [done|]. apply ValidString_app; [|done].
    induction IH as [|v l Hv _ IH]; [done|]. destruct Hp as [H1 H2]. destruct l as [|w l]; [by eapply Hv|].
    change (ValidString (print v ++ [comma] ++ Join comma (print <$> w :: l))). repeat apply ValidString_app; [by eapply Hv|done|by apply IH].
  - destruct Hp as [_ Hp]. apply (ValidString_app [open_brace]); [done|]. apply ValidString_app; [|done]. fold print_member.
    assert (∀ m, ValidString m.1 → ValidString (print m.2) → ValidString (print_member m)) as Hm.
    { intros m H1 H2. unfold print_member, print_string. apply (ValidString_app (quote :: _ ++ _)); [|by apply (ValidString_app [colon])].
      apply (ValidString_app [quote]); [done|]. by apply ValidString_app; [apply escape_valid|]. }
    induction IH as [|m l Hv _ IH]; [done|]. destruct Hp as (Hk & H1 & H2). destruct l as [|w l]; [exact (Hm m Hk (Hv _ H1))|].
    change (ValidString (print_member m ++ [comma] ++ Join comma (print_member <$> w :: l))).
    apply ValidString_app; [exact (Hm m Hk (Hv _ H1))|].
    apply (ValidString_app [comma]); [done|by apply IH].
Qed.

Definition spaces (t : text) : Prop := Forall (λ b, json_space b = true) t.
Lemma spaces_ends t : spaces t → ends t.
Proof. destruct 1 as [|b t Hb _]; [done|]. apply bool_decide_eq_true in Hb. split.
  - unfold digit, in_range. apply andb_false_iff. left. apply Z.leb_gt. set_solver by lia.
  - intros Hin. rewrite !elem_of_cons, elem_of_nil in Hin. destruct Hin as [->|[->|[->|[]]]]; vm_compute in Hb; set_solver by lia.
Qed.
Lemma spaces_skip t : spaces t → skip_spaces t = [].
Proof. induction 1 as [|b t Hb _ IH]; [done|]. cbn. by rewrite Hb. Qed.
Lemma spaces_ascii t : spaces t → ascii t.
Proof. apply Forall_impl. intros b Hb%bool_decide_eq_true. set_solver by lia. Qed.

(** The grammar reads what is printed, and nothing else of it. *)
Lemma parse_print v t : printable 0 v → spaces t → parse_json (print v ++ t) = Some v.
Proof.
  intros Hp Ht. unfold parse_json. rewrite parses_all; [|done|by apply spaces_ends|rewrite length_app; lia].
  cbn [mbind option_bind]. by rewrite spaces_skip, bool_decide_eq_true_2.
Qed.

(** ** Types *)

(** A field whose values [wf] are read back; [field_height] bounds the nesting. *)
Class LawfulField {A} (F : Field A) (wf : A → Prop) := {
  field_height : Z;
  field_printable a depth : wf a → depth + field_height <= maxNestingDepth → printable depth (to_json a);
  field_keys a : wf a → consumeValue (to_json a) = true;
  field_assign a : wf a → assign (to_json a) zero_value = Some a }.

Lemma Decode_Marshal {A} (F : Field A) (wf : A → Prop) `{!LawfulField F wf} a t :
  wf a → field_height <= maxNestingDepth → spaces t → Decode F (Marshal F a ++ t) = Some a.
Proof.
  intros Ha Hh Ht. unfold Decode, Marshal. assert (printable 0 (to_json a)) as Hp by (by apply field_printable; [|lia]).
  rewrite bool_decide_eq_false_2.
  - rewrite (Is_true_true_1 _ (ValidString_app _ t (print_valid _ _ Hp) (ValidString_ascii _ (spaces_ascii _ Ht)))). cbn [negb orb].
    rewrite parse_print by done. cbn [mbind option_bind]. unfold rejectDuplicateKeys. by rewrite field_keys, field_assign.
  - intros E. pose proof (print_starts _ _ t Hp) as Hs. by rewrite E in Hs.
Qed.

Lemma FormatInt_nonneg z : 0 <= z → forallb digit (FormatInt z) ∧ FormatInt z ≠ [] ∧ digits_value (FormatInt z) = z.
Proof.
  intros Hz. unfold FormatInt. rewrite (proj2 (Z.ltb_ge _ _)) by done. split_and!; [apply uint_bytes_digits| |].
  - by destruct (uint_bytes_norm (Z.to_N z)) as [->|(c & rest & -> & _)].
  - rewrite digits_value_uint, DecimalN.Unsigned.of_to. lia.
Qed.
Lemma ParseUint_Format z bits : 0 <= z < 2 ^ bits → ParseUint (FormatInt z) bits = Some z.
Proof.
  intros Hz. destruct (FormatInt_nonneg z) as (Hd & Hn & Hv); [lia|]. unfold ParseUint. rewrite Hv.
  rewrite bool_decide_eq_false_2 by done. apply Is_true_true in Hd as ->. by rewrite (proj2 (Z.leb_gt _ _)) by lia.
Qed.
Lemma ParseInt_Format z bits : 0 < bits → - 2 ^ (bits - 1) <= z < 2 ^ (bits - 1) → ParseInt (FormatInt z) bits = Some z.
Proof.
  intros Hb Hz. destruct (decide (z < 0)) as [Hneg|Hpos].
  - assert (FormatInt z = Byte.x2d :: FormatInt (- z)) as ->.
    { unfold FormatInt. rewrite (proj2 (Z.ltb_lt z 0)), (proj2 (Z.ltb_ge (- z) 0)) by lia. done. }
    destruct (FormatInt_nonneg (- z)) as (Hd & Hn & Hv); [lia|]. unfold ParseInt. rewrite bool_decide_eq_true_2 by done.
    rewrite bool_decide_eq_false_2 by done. apply Is_true_true in Hd as ->. rewrite Hv.
    rewrite (proj2 (Z.ltb_ge _ _)) by lia. cbn [negb orb]. f_equal. lia.
  - destruct (FormatInt_nonneg z) as (Hd & Hn & Hv); [lia|]. destruct (FormatInt z) as [|c rest] eqn:E; [done|].
    cbn [ParseInt]. rewrite bool_decide_eq_false_2.
    + apply Is_true_true in Hd as ->. rewrite Hv. by rewrite (proj2 (Z.leb_gt _ _)) by lia.
    + intros ->. cbn in Hd. done.
Qed.

#[export] Instance text_lawful : LawfulField text_field ValidString.
Proof.
  refine {| field_height := 0 |}; done.
Defined.
#[export] Instance bool_lawful : LawfulField bool_field (λ _, True).
Proof.
  refine {| field_height := 0 |}; done.
Defined.
#[export] Instance uint_lawful bits : LawfulField (uint_field bits) (λ z, 0 <= z < 2 ^ bits).
Proof.
  refine {| field_height := 0 |}.
  - intros z depth _ _. apply FormatInt_number.
  - done.
  - intros z Hz. by apply ParseUint_Format.
Defined.
#[export] Instance int_lawful bits : LawfulField (int_field bits) (λ z, 0 < bits ∧ - 2 ^ (bits - 1) <= z < 2 ^ (bits - 1)).
Proof.
  refine {| field_height := 0 |}.
  - intros z depth _ _. apply FormatInt_number.
  - done.
  - intros z [Hb Hz]. by apply ParseInt_Format.
Defined.

Section Slice.
Context {A} (F : Field A) (wf : A → Prop) `{!LawfulField F wf}.
Lemma assign_elements_ok l : Forall wf l → assign_elements F (to_json <$> l) [] = Some l.
Proof.
  induction 1 as [|a l Ha _ IH]; [done|]. cbn [fmap list_fmap assign_elements list.head tail default]. rewrite field_assign by done.
  cbn [mbind option_bind]. by rewrite IH.
Qed.
#[export] Instance slice_lawful : LawfulField (slice_field F) (λ s, Forall wf (elems s)).
Proof.
  refine {| field_height := 1 + Z.max 0 field_height |}.
  - intros [l|] depth Hl Hd; [|done]. cbn [to_json slice_field elems default] in *. split; [lia|].
    change (Forall wf l) in Hl. induction Hl as [|a l1 Ha _ IH]; [done|]. split; [|done]. apply field_printable; [done|lia].
  - intros [l|] Hl; [|done]. cbn [to_json slice_field elems default consumeValue] in *.
    change (Forall wf l) in Hl. induction Hl as [|a l' Ha _ IH]; [done|]. cbn [fmap list_fmap forallb]. by rewrite field_keys, IH.
  - intros [l|] Hl; [|done]. cbn [assign to_json slice_field zero_value elems default] in *. by rewrite assign_elements_ok.
Defined.
End Slice.

(** *** Structs *)

Lemma assign_member {R A} (fields : list (setter_of R)) name (F : Field A) wf `{!LawfulField F wf} get set i a ms r :
  find_name (fst <$> fields) (ascii_bytes name) = Some i → fields !! i = Some (field_at name F get set) →
  get r = zero_value → wf a →
  assign_members fields (member name F a ++ ms) r = assign_members fields ms (set a r).
Proof.
  intros Hi Hf Hg Ha. cbn [member app assign_members]. unfold find_field. rewrite Hi. cbn [mbind option_bind]. rewrite Hf.
  cbn [fmap option_fmap option_map mbind option_bind field_at snd]. rewrite Hg, field_assign by done. done.
Qed.
(** A member that may be left out: an absent field keeps its zero. *)
Lemma assign_omitempty {R} (fields : list (setter_of R)) name get set i a ms r :
  find_name (fst <$> fields) (ascii_bytes name) = Some i → fields !! i = Some (field_at name text_field get set) →
  get r = [] → ValidString a → (a = [] → set a r = r) →
  assign_members fields (member_omitempty name a ++ ms) r = assign_members fields ms (set a r).
Proof.
  intros Hi Hf Hg Ha H0. unfold member_omitempty. case_bool_decide as E; [by rewrite H0|].
  by apply (assign_member fields name text_field ValidString get set i).
Qed.

(** The members of a struct: what they print and the keys they use. *)
Definition members_ok (depth : Z) (ms : list (text * json)) : Prop :=
  Forall (λ m : text * json, ValidString m.1 ∧ printable depth m.2) ms.
Lemma printable_object depth ms : depth < maxNestingDepth → members_ok (depth + 1) ms → printable depth (JObject ms).
Proof. intros Hd H. split; [done|]. induction H as [|m ms [] _ IH]; done. Qed.
Lemma member_ok {A} name (F : Field A) wf `{!LawfulField F wf} a depth ms :
  ValidString (ascii_bytes name) → wf a → depth + field_height <= maxNestingDepth → members_ok depth ms →
  members_ok depth (member name F a ++ ms).
Proof. intros Hn Ha Hd H. constructor; [|done]. split; [done|by apply field_printable]. Qed.
Lemma omitempty_ok name a depth ms :
  ValidString (ascii_bytes name) → ValidString a → members_ok depth ms → members_ok depth (member_omitempty name a ++ ms).
Proof. intros Hn Ha H. unfold member_omitempty. case_bool_decide; [done|]. constructor; [done|exact H]. Qed.

(** [ms] uses some of the keys [names], in their order. *)
Definition members_keys (ms : list (text * json)) (names : list text) : Prop :=
  (ToLower ∘ fst <$> ms) `sublist_of` (ToLower <$> names) ∧ Forall (λ m : text * json, consumeValue m.2 = true) ms.
Lemma object_keys ms names : members_keys ms names → bool_decide (NoDup (ToLower <$> names)) = true → consumeValue (JObject ms) = true.
Proof.
  intros [Hs Hf] Hn%bool_decide_eq_true. cbn [consumeValue]. rewrite bool_decide_eq_true_2 by (by eapply sublist_NoDup).
  cbn [andb]. clear Hs Hn. by induction Hf as [|m ms Hm _ IH]; cbn; [|rewrite Hm].
Qed.
Lemma keys_nil : members_keys [] [].
Proof. by split. Qed.
Lemma keys_member {A} name (F : Field A) wf `{!LawfulField F wf} a ms names : wf a → members_keys ms names →
  members_keys (member name F a ++ ms) (ascii_bytes name :: names).
Proof. intros Ha [Hs Hf]. split; [by apply sublist_skip|]. constructor; [by apply field_keys|done]. Qed.
Lemma keys_omitempty name a ms names : members_keys ms names →
  members_keys (member_omitempty name a ++ ms) (ascii_bytes name :: names).
Proof.
  intros [Hs Hf]. unfold member_omitempty. case_bool_decide; [by split; [apply sublist_cons|]|].
  split; [by apply sublist_skip|by constructor].
Qed.

(** The laws of a struct whose encoding is [JObject (member ... ++ ... ++ [])]. *)
Ltac lawful_wf := cbv beta; first [eassumption|done|split; eassumption|lia].
(** The record built so far, as a constructor applied to values. *)
Ltac lawful_record :=
  match goal with |- context [assign_members ?fs ?ms ?r] => let r' := eval lazy in r in change (assign_members fs ms r) with (assign_members fs ms r') end.
Ltac lawful_assign :=
  repeat match goal with
  | |- context [assign_members ?fs (member ?n ?F ?a ++ ?ms) ?r] =>
      let i := eval vm_compute in (default O (find_name (fst <$> fs) (ascii_bytes n))) in
      erewrite (assign_member fs n F _ _ _ i a ms r); [|vm_compute; reflexivity|reflexivity|reflexivity|lawful_wf]; cbv beta; lawful_record
  | |- context [assign_members ?fs (member_omitempty ?n ?a ++ ?ms) ?r] =>
      let i := eval vm_compute in (default O (find_name (fst <$> fs) (ascii_bytes n))) in
      erewrite (assign_omitempty fs n _ _ i a ms r); [|vm_compute; reflexivity|reflexivity|reflexivity|lawful_wf|intros ->; reflexivity]; cbv beta; lawful_record
  end.
Ltac lawful_height :=
  repeat match goal with |- context [@field_height ?A ?F ?wf ?L] =>
    let h := eval vm_compute in (@field_height A F wf L) in change (@field_height A F wf L) with h end.
Ltac lawful_members :=
  repeat first
    [ eapply member_ok; [vm_compute; reflexivity|lawful_wf|lawful_height; lia|]
    | eapply omitempty_ok; [vm_compute; reflexivity|lawful_wf|] ]; try apply Forall_nil_2.
Ltac lawful_keys :=
  eapply object_keys; [repeat first [eapply keys_member; [typeclasses eauto|lawful_wf|]|eapply keys_omitempty]; apply keys_nil|vm_compute; reflexivity].
Ltac lawful_struct F h :=
  refine {| field_height := h |};
  [intros ? ? Hwf ?; hnf in Hwf; destruct_and? Hwf; cbn [F to_json]; apply printable_object; [lia|lawful_members]
  |intros ? Hwf; hnf in Hwf; destruct_and? Hwf; cbn [F to_json]; lawful_keys
  |let r := fresh in intros r Hwf; hnf in Hwf; destruct_and? Hwf; destruct r; cbn [F assign zero_value to_json assign_struct];
   lawful_assign; reflexivity].
