(* ===== verification/JsonText.v ===== *)
(** * Texts and integers of JSON records

    What the proofs about records share: the ranges of integers, texts that are printed as
    they are, lengths of their encodings, and reading a line that was written. *)

From S2P Require Import Prelude GoIO Text Runes Sha256 Base64 Protocol Identifiers Signing StrictJson StrictJsonSafety.
Open Scope Z_scope.

(** ** Integers that fit their types *)

Definition uint64 (z : Z) : Prop := 0 <= z < 2 ^ 64.
Definition int64 (z : Z) : Prop := 0 < 64 ∧ - 2 ^ (64 - 1) <= z < 2 ^ (64 - 1).
Lemma wrap64_range z : int64 (wrap64 z).
Proof. unfold int64, wrap64. pose proof (Z.mod_pos_bound (z + 2 ^ 63) (2 ^ 64) ltac:(lia)). lia. Qed.
Lemma wrapu64_range z : uint64 (wrapu64 z).
Proof. apply Z.mod_pos_bound. lia. Qed.

(** ** Plain text: what JSON prints as it is *)

Definition plain_byte (b : byte) : Prop := html_safe b = true ∧ b2z b < 0x80.
Definition plain (s : text) : Prop := Forall plain_byte s.
Lemma plain_app s t : plain s → plain t → plain (s ++ t).
Proof. intros H1 H2. by apply Forall_app. Qed.
Lemma plain_valid s : plain s → ValidString s.
Proof. intros H. apply ValidString_ascii. eapply list.Forall_impl; [exact H|by intros b []]. Qed.
Lemma plain_body s : plain s → string_body s = s.
Proof.
  intros H. unfold string_body. rewrite runes_ascii by (eapply list.Forall_impl; [exact H|by intros b []]).
  induction H as [|b s [H1 H2] _ IH]; [done|]. cbn [fmap list_fmap concat]. rewrite escape_rune_ascii by done.
  unfold escape. rewrite H1. cbn [app]. by rewrite IH.
Qed.
Lemma plain_fmap (f : Z → byte) n ds : (∀ d, 0 <= d < n → plain_byte (f d)) → Forall (λ d, 0 <= d < n) ds → plain (f <$> ds).
Proof. intros Hf H. apply Forall_fmap. eapply list.Forall_impl; [exact H|]. intros d Hd. by apply Hf. Qed.
Lemma plain_formatID b : plain (formatID b).
Proof.
  destruct (formatID_chars b) as (ds & Hd & _ & ->). eapply plain_fmap; [|exact Hd].
  apply digit_cases. by repeat constructor.
Qed.
Lemma plain_StdEncode b : plain (StdEncode b).
Proof.
  unfold StdEncode. apply plain_app; [|by apply Forall_replicate].
  destruct (raw_encode_chars Std b) as (ds & -> & Hd). eapply plain_fmap; [|exact Hd]. apply digit64_cases. by repeat constructor.
Qed.
Lemma plain_RawURLEncode b : plain (RawURLEncode b).
Proof.
  destruct (raw_encode_chars URL b) as (ds & E & Hd). unfold RawURLEncode. rewrite E.
  eapply plain_fmap; [|exact Hd]. apply digit64_cases. by repeat constructor.
Qed.
Lemma plain_hex l : plain (hex_encode l).
Proof.
  unfold hex_encode. induction l as [|c l IH]; [constructor|]. cbn [fmap list_fmap concat]. rewrite hex_put_2.
  assert (∀ d, 0 <= d < 16 → plain_byte (hex_char d)) as Hx by (apply hex_cases; by repeat constructor).
  repeat apply Forall_cons_2; [apply Hx, Z.mod_pos_bound; lia..|exact IH].
Qed.
Lemma plain_KeyID k : plain (KeyID k).
Proof. apply plain_app; [by repeat constructor|apply plain_StdEncode]. Qed.
Definition plain_byteb (b : byte) : bool := html_safe b && (b2z b <? 0x80).
Lemma plain_forallb (p : byte → bool) s : (∀ b, implb (p b) (plain_byteb b) = true) → forallb p s = true → plain s.
Proof.
  intros Hp. induction s as [|b s IH]; [constructor|]. cbn. intros [Hb Hs]%andb_true_iff. constructor; [|by apply IH].
  specialize (Hp b). rewrite Hb in Hp. unfold plain_byteb in Hp. cbn [implb] in Hp. bool_prop. by split.
Qed.
Lemma plain_const t : forallb plain_byteb t = true → plain t.
Proof. apply plain_forallb. intros b. by destruct (plain_byteb b). Qed.
Lemma plain_nil : plain [].
Proof. constructor. Qed.

(** ** Lengths and lines *)

Lemma length_StdEncode b : length (StdEncode b) = (b64_chars_of (length b) + (4 - b64_chars_of (length b) mod 4) mod 4)%nat.
Proof. unfold StdEncode. by rewrite length_app, length_raw_encode, length_replicate. Qed.
Lemma length_hex_encode l : length (hex_encode l) = (2 * length l)%nat.
Proof. unfold hex_encode. induction l as [|c l IH]; [done|]. cbn [fmap list_fmap concat length]. rewrite length_app, length_hex_put, IH. lia. Qed.
Lemma Marshal_nonempty {A} (F : Field A) wf `{!LawfulField F wf} a t : wf a → field_height <= maxNestingDepth → Marshal F a ++ t ≠ [].
Proof.
  intros Ha Hh E. pose proof (print_starts (to_json a) 0 t) as Hs. fold (Marshal F a) in Hs. rewrite E in Hs.
  apply Hs. apply field_printable; [done|lia].
Qed.
Lemma newline_spaces : spaces [newline].
Proof. by repeat constructor. Qed.
Lemma Decode_line {A} (F : Field A) (wf : A → Prop) `{!LawfulField F wf} a :
  wf a → field_height <= maxNestingDepth → Decode F (Marshal F a ++ [newline]) = Some a.
Proof. intros Ha Hh. by apply (Decode_Marshal F wf); [| |apply newline_spaces]. Qed.
Lemma Decode_printed {A} (F : Field A) (wf : A → Prop) `{!LawfulField F wf} a :
  wf a → field_height <= maxNestingDepth → Decode F (Marshal F a) = Some a.
Proof. intros Ha Hh. rewrite <-(app_nil_r (Marshal F a)). by apply (Decode_Marshal F wf); [| |constructor]. Qed.
