(* ===== verification/EnrollRequest.v ===== *)
(** * Enrollment requests: [internal/enrollment/request.go], [internal/pki/pin.go], [csr.go]

    A target's signed request: its validation, its two certificate requests and its proof of
    possession. [encoding/json], PEM with X.509 and age are parameters, an [externals]; a
    parsed certificate request is what [ValidateCSR] reads of it. *)

From S2P Require Import Prelude GoIO Text Sha256 Base64 Protocol Identifiers Names Signing Identity PairToken Phrase Toy.

(** ** Data *)

Inductive Role := RoleClient | RoleConnector | RoleRelay | OtherRole (name : text).
#[export] Instance Role_eq_dec : EqDecision Role.
Proof. solve_decision. Defined.

Record RuntimeBinding := {
  ReleaseID : text;
  ReleaseSequence : Z;
  ArtifactSHA256 : text;
  OS : text;
  Arch : text;
  RuntimeRole : Role;
  RuntimeProtocol : text;
  LifecycleGeneration : Z;
  ConnectorTarget : text }.
#[export] Instance RuntimeBinding_eq_dec : EqDecision RuntimeBinding.
Proof. solve_decision. Defined.
Record IssuerPins := { RelayAdmissionCA : text; InnerClientCA : text; InnerConnectorCA : text }.
#[export] Instance IssuerPins_eq_dec : EqDecision IssuerPins.
Proof. solve_decision. Defined.

Record RequestPayload := {
  rq_Schema : text;
  rq_Role : Role;
  InstallationID : text;
  rq_RouteID : text;
  ConnectorInstallationID : text;
  Nonce : text;
  Sequence : Z;
  CreatedUnix : Z;
  ExpiresUnix : Z;
  ResponseRecipient : text;
  rq_IssuerPins : IssuerPins;
  DeploymentSignerKeyID : text;
  Runtime : RuntimeBinding;
  OuterCSR : text;
  InnerCSR : text }.
#[export] Instance RequestPayload_eq_dec : EqDecision RequestPayload.
Proof. solve_decision. Defined.
Record signedRequest := { sr_Schema : text; sr_Payload : text; sr_Signature : text }.
#[export] Instance signedRequest_eq_dec : EqDecision signedRequest.
Proof. solve_decision. Defined.

(** What [ValidateCSR] reads of an [x509.CertificateRequest]; [csr_key] is its key when that
    is an Ed25519 key, and [csr_extensions] says of each extension if it is a subjectAltName. *)
Record CSR := {
  csr_signature : bool;
  csr_PureEd25519 : bool;
  csr_key : option (list byte);
  csr_Ed25519 : bool;
  csr_RawSubject : list byte;
  csr_DNSNames : list text;
  csr_otherSANs : nat;
  csr_extensions : list bool }.

Record externals := {
  decode_envelope : list byte → option signedRequest;
  encode_envelope : signedRequest → list byte;
  decode_payload : list byte → option RequestPayload;
  encode_payload : RequestPayload → list byte;
  recipient_text : text → option text;
  parse_csr : text → option CSR;
  ed : ed25519 }.

Inductive enroll_err :=
| RuntimeIdentity | RuntimeIncompatible | RuntimePlatform | RuntimeRoleInvalid
| PinInvalid | PinsNotDistinct
| SchemaUnsupported | BadInstallationID | BadNonce | BadSequence | BadWindow | NotCurrentlyValid | BadRecipient | BadSignerKeyID
| BadRoute | BadConnectorID | ForeignConnector | RelayHasEndpoint | UnsupportedRole | OuterCSRInvalid | InnerCSRRequired | InnerCSRInvalid
| RequestSize | EnvelopeDecode | PayloadEncoding | SignatureInvalid | PayloadDecode | NotEd25519 | PossessionFailed | SignerMismatch.
#[export] Instance enroll_err_eq_dec : EqDecision enroll_err.
Proof. solve_decision. Defined.

Definition RequestSchema : text := ascii_bytes "owntransit.enrollment.request.v1".
Definition MaxRequestValidity : Z := 24 * Hour.
Definition requestSignatureDomain : list byte := ascii_bytes "OwnTransit enrollment request v1" ++ [Byte.x00].
Definition DeploymentProtocol : text := ascii_bytes "forthgate/1".
Definition CurrentLifecycleGeneration : Z := 1.
(** The production build; the development tag selects another endpoint. *)
Definition ConnectorSSHTarget : text := ascii_bytes "127.0.0.1:22".
Definition RelayDNSName : text := ascii_bytes "relay.forthgate.invalid".

(** ** Certificate pins and requests: [pki] *)

Definition certificatePinPrefix : text := ascii_bytes "sha256/".
Definition ParseCertificatePin (value : text) : result enroll_err (arr Size) :=
  reject (length value <=? length certificatePinPrefix)%nat
      || negb (bool_decide (take (length certificatePinPrefix) value = certificatePinPrefix)) with PinInvalid;;
  match StdDecode (drop (length certificatePinPrefix) value) with
  | None => Err PinInvalid
  | Some decoded =>
      reject negb (length decoded =? Size)%nat with PinInvalid;;
      let result := arr_copy Size decoded in
      reject negb (bool_decide (certificatePinPrefix ++ StdEncode (arr_bytes result) = value)) with PinInvalid;;
      Ok result
  end.
(** [CertificatePin], of the DER bytes. *)
Definition CertificatePin (raw : list byte) : option text :=
  if bool_decide (raw = []) then None else Some (certificatePinPrefix ++ StdEncode (Sum256 raw)).

Definition ValidateCSR (request : CSR) (expectedDNSName : text) : bool :=
  is_ok (ValidateDNSName expectedDNSName) && csr_signature request && csr_PureEd25519 request
  && match csr_key request with Some _ => true | None => false end
  && csr_Ed25519 request && bool_decide (csr_RawSubject request = [Byte.x30; Byte.x00])
  && bool_decide (csr_DNSNames request = [expectedDNSName]) && (csr_otherSANs request =? 0)%nat
  && forallb id (csr_extensions request) && (length (filter (λ b, b = true) (csr_extensions request)) =? 1)%nat.

(** ** Validation *)

Definition nonzero_id (value : text) : bool :=
  match ParseID value with Ok i => negb (bool_decide (i = arr_zero IDSize)) | Err _ => false end.
Definition validSHA256 (value : text) : bool :=
  match hex_decode value with
  | Some decoded => (length decoded =? Size)%nat && bool_decide (hex_encode decoded = value)
  | None => false
  end.
Definition supportedLinuxArch (arch : text) : bool :=
  bool_decide (arch = ascii_bytes "amd64") || bool_decide (arch = ascii_bytes "arm64").
Definition linux (binding : RuntimeBinding) : bool :=
  bool_decide (OS binding = ascii_bytes "linux") && supportedLinuxArch (Arch binding).

Definition RuntimeBinding_Validate (binding : RuntimeBinding) (expectedRole : Role) : result enroll_err () :=
  reject negb (nonzero_id (ReleaseID binding)) || (ReleaseSequence binding =? 0)
      || negb (validSHA256 (ArtifactSHA256 binding)) with RuntimeIdentity;;
  reject negb (bool_decide (RuntimeRole binding = expectedRole)) || negb (bool_decide (RuntimeProtocol binding = DeploymentProtocol))
      || negb (LifecycleGeneration binding =? CurrentLifecycleGeneration) with RuntimeIncompatible;;
  match expectedRole with
  | RoleClient =>
      reject negb ((bool_decide (OS binding = ascii_bytes "darwin") && bool_decide (Arch binding = ascii_bytes "arm64")) || linux binding)
          || negb (bool_decide (ConnectorTarget binding = [])) with RuntimePlatform;;
      Ok ()
  | RoleConnector =>
      reject negb (linux binding) || negb (bool_decide (ConnectorTarget binding = ascii_bytes "tcp4/" ++ ConnectorSSHTarget))
        with RuntimePlatform;;
      Ok ()
  | RoleRelay =>
      reject negb (linux binding) || negb (bool_decide (ConnectorTarget binding = [])) with RuntimePlatform;;
      Ok ()
  | OtherRole _ => Err RuntimeRoleInvalid
  end.

(** The three pins are checked in some order; each failure is the same. *)
Definition IssuerPins_Validate (pins : IssuerPins) : result enroll_err () :=
  _ ← ParseCertificatePin (RelayAdmissionCA pins);
  _ ← ParseCertificatePin (InnerClientCA pins);
  _ ← ParseCertificatePin (InnerConnectorCA pins);
  reject bool_decide (RelayAdmissionCA pins = InnerClientCA pins) || bool_decide (RelayAdmissionCA pins = InnerConnectorCA pins)
      || bool_decide (InnerClientCA pins = InnerConnectorCA pins) with PinsNotDistinct;;
  Ok ().

(** Instants: [now] in nanoseconds of the Unix epoch, [time.Unix(sec, 0)] in Go's internal
    seconds ([unix_time]); [Add] of a negative duration saturates. *)
Definition now_before (now t : Z) : bool := now + unixToInternal * Second <? t * Second.
Definition five_minutes_before (t : Z) : Z := if t - 300 <? - 2 ^ 63 then - max_int64 else t - 300.

Section Externals.
Context (x : externals).

(** [pki.ParseCSR] *)
Definition ParseCSR (encoded expectedDNSName : text) : option CSR :=
  match parse_csr x encoded with
  | Some request => if ValidateCSR request expectedDNSName then Some request else None
  | None => None
  end.

(** The names that the two certificate requests must carry, and the route. *)
Definition request_names (payload : RequestPayload) (installationID : ID) : result enroll_err (text * text * RouteID) :=
  match rq_Role payload with
  | RoleClient =>
      match ParseRouteID (rq_RouteID payload) with
      | Err _ => Err BadRoute
      | Ok route =>
          reject bool_decide (route = arr_zero IDSize) with BadRoute;;
          match ParseID (ConnectorInstallationID payload) with
          | Err _ => Err BadConnectorID
          | Ok connectorID =>
              reject bool_decide (connectorID = arr_zero IDSize) with BadConnectorID;;
              Ok (OuterClientDNSName installationID,
                  ClientCapabilityDNSName installationID connectorID route (Sequence payload), route)
          end
      end
  | RoleConnector =>
      reject negb (bool_decide (ConnectorInstallationID payload = [])) with ForeignConnector;;
      match ParseRouteID (rq_RouteID payload) with
      | Err _ => Err BadRoute
      | Ok route =>
          reject bool_decide (route = arr_zero IDSize) with BadRoute;;
          Ok (OuterConnectorDNSName route, CapabilityConnectorDNSName installationID route, route)
      end
  | RoleRelay =>
      reject negb (bool_decide (rq_RouteID payload = [])) || negb (bool_decide (ConnectorInstallationID payload = []))
          || negb (bool_decide (InnerCSR payload = [])) with RelayHasEndpoint;;
      Ok (RelayDNSName, [], arr_zero IDSize)
  | OtherRole _ => Err UnsupportedRole
  end.
Definition requestCSRs (payload : RequestPayload) : result enroll_err (CSR * option CSR * RouteID) :=
  match ParseID (InstallationID payload) with
  | Err _ => Err BadInstallationID
  | Ok installationID =>
      '(outerName, innerName, route) ← request_names payload installationID;
      match ParseCSR (OuterCSR payload) outerName with
      | None => Err OuterCSRInvalid
      | Some outer =>
          if bool_decide (rq_Role payload = RoleRelay) then Ok (outer, None, route)
          else
            reject bool_decide (InnerCSR payload = []) with InnerCSRRequired;;
            match ParseCSR (InnerCSR payload) innerName with
            | None => Err InnerCSRInvalid
            | Some inner => Ok (outer, Some inner, route)
            end
      end
  end.

Definition ValidateRequestPayload (payload : RequestPayload) (now : Z) : result enroll_err () :=
  reject negb (bool_decide (rq_Schema payload = RequestSchema)) with SchemaUnsupported;;
  reject negb (nonzero_id (InstallationID payload)) with BadInstallationID;;
  reject negb (nonzero_id (Nonce payload)) with BadNonce;;
  reject Sequence payload =? 0 with BadSequence;;
  reject (CreatedUnix payload <=? 0) || (ExpiresUnix payload <=? CreatedUnix payload)
      || (MaxRequestValidity / Second <? ExpiresUnix payload - CreatedUnix payload) with BadWindow;;
  let created := unix_time (CreatedUnix payload) in
  let expires := unix_time (ExpiresUnix payload) in
  reject now_before now (five_minutes_before created) || negb (now_before now expires) with NotCurrentlyValid;;
  reject negb (bool_decide (recipient_text x (ResponseRecipient payload) = Some (ResponseRecipient payload))) with BadRecipient;;
  _ ← IssuerPins_Validate (rq_IssuerPins payload);
  reject negb (is_ok (ValidateKeyID (DeploymentSignerKeyID payload))) with BadSignerKeyID;;
  _ ← RuntimeBinding_Validate (Runtime payload) (rq_Role payload);
  _ ← requestCSRs payload;
  Ok ().

(** ** Signing and parsing *)

(** [outerSigner] is a key in memory; its [Public] and [Sign] are those of Ed25519. *)
Definition SignRequest (payload : RequestPayload) (outerSigner : option (list byte)) (now : Z) : result enroll_err (list byte) :=
  match outerSigner with
  | None => Err SignerMismatch
  | Some key =>
      _ ← ValidateRequestPayload payload now;
      '(outerRequest, _, _) ← requestCSRs payload;
      match csr_key outerRequest with
      | None => Err NotEd25519
      | Some outerPublic =>
          reject negb (bool_decide (ed_public (ed x) key = outerPublic)) with SignerMismatch;;
          let payloadBytes := encode_payload x payload in
          let signature := ed_sign (ed x) key (requestSignatureDomain ++ payloadBytes) in
          reject negb (length signature =? SignatureSize)%nat with SignatureInvalid;;
          let encoded := encode_envelope x {| sr_Schema := RequestSchema; sr_Payload := StdEncode payloadBytes;
                                              sr_Signature := StdEncode signature |} ++ [newline] in
          reject MaxRequestSize <? Z.of_nat (length encoded) with RequestSize;;
          Ok encoded
      end
  end.

Definition decodeCanonicalBase64 (value : text) : option (list byte) :=
  match StdDecode value with
  | Some decoded => if bool_decide (StdEncode decoded = value) then Some decoded else None
  | None => None
  end.

Definition ParseRequest (encoded : list byte) (now : Z) : result enroll_err RequestPayload :=
  reject (length encoded =? 0)%nat || (MaxRequestSize <? Z.of_nat (length encoded)) with RequestSize;;
  match decode_envelope x encoded with
  | None => Err EnvelopeDecode
  | Some envelope =>
      reject negb (bool_decide (sr_Schema envelope = RequestSchema)) with SchemaUnsupported;;
      match decodeCanonicalBase64 (sr_Payload envelope) with
      | None => Err PayloadEncoding
      | Some payloadBytes =>
          match decodeCanonicalBase64 (sr_Signature envelope) with
          | None => Err SignatureInvalid
          | Some signature =>
              reject negb (length signature =? SignatureSize)%nat with SignatureInvalid;;
              match decode_payload x payloadBytes with
              | None => Err PayloadDecode
              | Some payload =>
                  _ ← ValidateRequestPayload payload now;
                  '(outerRequest, _, _) ← requestCSRs payload;
                  match csr_key outerRequest with
                  | None => Err NotEd25519
                  | Some publicKey =>
                      reject negb (ed_verify (ed x) publicKey (requestSignatureDomain ++ payloadBytes) signature)
                        with PossessionFailed;;
                      Ok payload
                  end
              end
          end
      end
  end.
End Externals.

(** ** Lemmas *)

Lemma nonzero_id_spec t : nonzero_id t = true ↔ ∃ i : ID, t = ID_String i ∧ i ≠ arr_zero IDSize.
Proof.
  unfold nonzero_id, ParseID, ID_String. split.
  - destruct (parseID t) as [i|] eqn:E; [|done]. intros H. bool_prop. apply parseID_spec in E. by exists i.
  - intros (i & -> & Hi). rewrite (proj2 (parseID_spec _ i) eq_refl). by rewrite bool_decide_eq_false_2.
Qed.
Lemma decodeCanonicalBase64_encode b : decodeCanonicalBase64 (StdEncode b) = Some b.
Proof. unfold decodeCanonicalBase64. by rewrite StdDecode_Encode, bool_decide_eq_true_2. Qed.
Lemma decodeCanonicalBase64_Some v b : decodeCanonicalBase64 v = Some b → v = StdEncode b.
Proof. unfold decodeCanonicalBase64. repeat case_match; try done. intros [= <-]. by bool_prop. Qed.

Lemma ParseCSR_Some x t name request :
  ParseCSR x t name = Some request →
  parse_csr x t = Some request ∧ csr_DNSNames request = [name] ∧ csr_signature request = true ∧ is_Some (csr_key request).
Proof.
  unfold ParseCSR. destruct (parse_csr x t) as [r|]; [|done]. case_guard G; [|done]. intros [= ->].
  unfold ValidateCSR in G. bool_prop. destruct (csr_key request); [|done]. by split_and!.
Qed.
Lemma requestCSRs_ok x p outer inner route :
  requestCSRs x p = Ok (outer, inner, route) →
  ∃ i outerName innerName, InstallationID p = ID_String i ∧ request_names p i = Ok (outerName, innerName, route)
    ∧ ParseCSR x (OuterCSR p) outerName = Some outer
    ∧ (rq_Role p = RoleRelay ∧ inner = None ∨ rq_Role p ≠ RoleRelay ∧ ∃ c, inner = Some c ∧ ParseCSR x (InnerCSR p) innerName = Some c).
Proof.
  unfold requestCSRs, ParseID. destruct (parseID _) as [i|] eqn:Ei; [|done]. apply parseID_spec in Ei.
  destruct (request_names p i) as [[[on inn] r]|] eqn:En; [|done]. cbn [mbind result_bind].
  destruct (ParseCSR x (OuterCSR p) on) as [o|] eqn:Eo; [|done]. case_bool_decide.
  - intros [= <- <- <-]. exists i, on, inn. split_and!; try done. by left.
  - case_guard G; [done|]. destruct (ParseCSR x (InnerCSR p) inn) as [c|] eqn:Ec; [|done]. intros [= <- <- <-].
    exists i, on, inn. split_and!; try done. right. split; [done|]. by exists c.
Qed.
Lemma Runtime_role b r : RuntimeBinding_Validate b r = Ok () → RuntimeRole b = r.
Proof.
  unfold RuntimeBinding_Validate. case_guard G1; [done|]. case_guard G2; [done|]. intros _. by bool_prop.
Qed.
(** The parts of a valid payload that the properties name. *)
Lemma Validate_ok x p now :
  ValidateRequestPayload x p now = Ok () →
  nonzero_id (InstallationID p) = true ∧ nonzero_id (Nonce p) = true ∧ 0 < CreatedUnix p < ExpiresUnix p
  ∧ ExpiresUnix p <= CreatedUnix p + 86400 ∧ now_before now (unix_time (ExpiresUnix p)) = true
  ∧ RuntimeRole (Runtime p) = rq_Role p ∧ IssuerPins_Validate (rq_IssuerPins p) = Ok () ∧ is_ok (requestCSRs x p) = true.
Proof.
  unfold ValidateRequestPayload. case_guard G1; [done|]. case_guard G2; [done|]. case_guard G3; [done|].
  case_guard G4; [done|]. case_guard G5; [done|]. case_guard G6; [done|]. case_guard G7; [done|].
  destruct (IssuerPins_Validate _) as [[]|] eqn:Ep; [|done]. cbn [mbind result_bind]. case_guard G8; [done|].
  destruct (RuntimeBinding_Validate _ _) as [[]|] eqn:Er; [|done]. cbn [mbind result_bind].
  destruct (requestCSRs x p) as [c|]; [|done]. intros _. bool_prop. apply Runtime_role in Er.
  change (MaxRequestValidity / Second) with 86400 in *. split_and!; try done; lia.
Qed.

(** ** Properties *)

(** The names that certificates of an enrollment carry, as text: the outer one of a role, and the
    inner one of an endpoint. *)
Inductive names_required (p : RequestPayload) (i : ID) : text → option text → Prop :=
| client_names (route : RouteID) (connector : ID) :
    rq_Role p = RoleClient → rq_RouteID p = RouteID_String route → route ≠ arr_zero IDSize →
    ConnectorInstallationID p = ID_String connector → connector ≠ arr_zero IDSize →
    names_required p i (ascii_bytes "fg-" ++ InstallationID p ++ ascii_bytes ".outer-client.forthgate.invalid")
      (Some (ascii_bytes "i-" ++ InstallationID p ++ ascii_bytes ".r-" ++ rq_RouteID p ++ ascii_bytes ".c-" ++ ConnectorInstallationID p
             ++ ascii_bytes ".e-" ++ hex_put 16 (Sequence p) ++ ascii_bytes ".client-cap.v1.owntransit.invalid"))
| connector_names (route : RouteID) :
    rq_Role p = RoleConnector → rq_RouteID p = RouteID_String route → route ≠ arr_zero IDSize → ConnectorInstallationID p = [] →
    names_required p i (ascii_bytes "fg-" ++ rq_RouteID p ++ ascii_bytes ".outer-connector.forthgate.invalid")
      (Some (ascii_bytes "i-" ++ InstallationID p ++ ascii_bytes ".r-" ++ rq_RouteID p ++ ascii_bytes ".connector.v1.owntransit.invalid"))
| relay_names :
    rq_Role p = RoleRelay → rq_RouteID p = [] → ConnectorInstallationID p = [] → InnerCSR p = [] →
    names_required p i (ascii_bytes "relay.forthgate.invalid") None.
Lemma request_names_required p i outer inner route :
  InstallationID p = ID_String i → request_names p i = Ok (outer, inner, route) →
  names_required p i outer (if bool_decide (rq_Role p = RoleRelay) then None else Some inner).
Proof.
  intros Hi. unfold request_names. destruct (rq_Role p) eqn:Er; [| | |done].
  - destruct (ParseRouteID (rq_RouteID p)) as [r|] eqn:Ep; [|done]. apply parseID_spec in Ep. case_guard G; [done|].
    destruct (ParseID (ConnectorInstallationID p)) as [c|] eqn:Ec; [|done]. apply parseID_spec in Ec. case_guard G2; [done|].
    intros [= <- <- <-]. bool_prop. rewrite bool_decide_eq_false_2 by done.
    unfold OuterClientDNSName, ClientCapabilityDNSName, RouteID_String. rewrite <-Hi. fold (ID_String c) in Ec. rewrite <-Ep, <-Ec.
    by apply (client_names p i r c).
  - case_guard G; [done|]. destruct (ParseRouteID (rq_RouteID p)) as [r|] eqn:Ep; [|done]. apply parseID_spec in Ep. case_guard G2; [done|].
    intros [= <- <- <-]. bool_prop. rewrite bool_decide_eq_false_2 by done.
    unfold OuterConnectorDNSName, CapabilityConnectorDNSName, RouteID_String. rewrite <-Hi, <-Ep. by apply (connector_names p i r).
  - case_guard G; [done|]. intros [= <- <- <-]. bool_prop. rewrite bool_decide_eq_true_2 by done. by constructor.
Qed.

(** C24. What a parsed request proves: it carries a nonzero installation identifier, is
    within a day-long window that has not ended, names its runtime's role; its outer
    certificate request carries exactly one DNS name and, for an endpoint, so does its inner one:
    those of [names_required] for that role, installation, route, connector and credential sequence, spelled
    out; and the signature over the domain-separated payload bytes, those that decode to
    this request, verifies under the outer request's own key. *)
Theorem ParseRequest_sound (x : externals) (encoded : list byte) (now : Z) (p : RequestPayload) :
  ParseRequest x encoded now = Ok p →
  ∃ (i : ID) outerName innerName outer key envelope payloadBytes signature,
    InstallationID p = ID_String i ∧ i ≠ arr_zero IDSize
    ∧ names_required p i outerName innerName
    ∧ parse_csr x (OuterCSR p) = Some outer ∧ csr_DNSNames outer = [outerName] ∧ csr_key outer = Some key
    ∧ (∀ name, innerName = Some name → ∃ inner, parse_csr x (InnerCSR p) = Some inner ∧ csr_DNSNames inner = [name])
    ∧ decode_envelope x encoded = Some envelope ∧ sr_Payload envelope = StdEncode payloadBytes
    ∧ sr_Signature envelope = StdEncode signature ∧ decode_payload x payloadBytes = Some p
    ∧ ed_verify (ed x) key (requestSignatureDomain ++ payloadBytes) signature = true
    ∧ 0 < CreatedUnix p < ExpiresUnix p ∧ ExpiresUnix p <= CreatedUnix p + 86400
    ∧ now_before now (unix_time (ExpiresUnix p)) = true ∧ RuntimeRole (Runtime p) = rq_Role p.
Proof.
  unfold ParseRequest. case_guard G; [done|]. destruct (decode_envelope x encoded) as [e|] eqn:Ee; [|done].
  case_guard G2; [done|]. destruct (decodeCanonicalBase64 (sr_Payload e)) as [b|] eqn:Eb; [|done].
  destruct (decodeCanonicalBase64 (sr_Signature e)) as [s|] eqn:Es; [|done]. case_guard G3; [done|].
  destruct (decode_payload x b) as [q|] eqn:Eq; [|done]. destruct (ValidateRequestPayload x q now) as [[]|] eqn:Ev; [|done].
  cbn [mbind result_bind]. destruct (requestCSRs x q) as [[[o inn] r]|] eqn:Ec; [|done]. cbn [mbind result_bind].
  destruct (csr_key o) as [k|] eqn:Ek; [|done]. case_guard G4; [done|]. intros ->%Ok_inj. bool_prop.
  apply Validate_ok in Ev as ((i & Hi & Hz)%nonzero_id_spec & _ & Hw & Hw2 & Hn & Hr & _).
  apply requestCSRs_ok in Ec as (i' & on & innm & Hi' & Hnm & (Ho & Hod & _)%ParseCSR_Some & Hin).
  assert (i' = i) as -> by (apply ID_String_inj; congruence).
  apply (request_names_required p i on innm r Hi) in Hnm.
  exists i, on, (if bool_decide (rq_Role p = RoleRelay) then None else Some innm), o, k, e, b, s.
  split_and!; try done; try lia; try (by apply decodeCanonicalBase64_Some).
  intros name. case_bool_decide; [done|]. intros [= <-]. destruct Hin as [[? _]|(_ & c & _ & (Hc & Hcd & _)%ParseCSR_Some)]; [done|]. by exists c.
Qed.

(** Signing and parsing are inverse: a request that a target signs is parsed back to
    the same payload, at any instant at which the payload is valid, under the documented
    laws of Ed25519 and of strict JSON decoding. *)
Theorem ParseRequest_SignRequest (x : externals) (payload : RequestPayload) (key encoded : list byte) (now now' : Z) :
  ed25519_law (ed x) → generated (ed x) key →
  decode_payload x (encode_payload x payload) = Some payload →
  (∀ b s, let e := {| sr_Schema := RequestSchema; sr_Payload := StdEncode b; sr_Signature := StdEncode s |} in
     decode_envelope x (encode_envelope x e ++ [newline]) = Some e) →
  SignRequest x payload (Some key) now = Ok encoded →
  ValidateRequestPayload x payload now' = Ok () → ParseRequest x encoded now' = Ok payload.
Proof.
  intros Hed Hk Hp He. unfold SignRequest. destruct (ValidateRequestPayload x payload now) as [[]|]; [|done].
  cbn [mbind result_bind]. destruct (requestCSRs x payload) as [[[o inn] r]|] eqn:Ec; [|done]. cbn [mbind result_bind].
  destruct (csr_key o) as [k|] eqn:Ek; [|done]. case_guard G1; [done|]. case_guard G2; [done|]. case_guard G3; [done|].
  intros <-%Ok_inj Hv. bool_prop. unfold ParseRequest. rewrite He. cbn [sr_Schema sr_Payload sr_Signature].
  rewrite !decodeCanonicalBase64_encode, bool_decide_eq_true_2 by done.
  rewrite G2, Hp, Hv. cbn [negb mbind result_bind]. rewrite Ec. cbn [mbind result_bind]. rewrite Ek. subst k.
  rewrite (ed_verify_sign _ Hed) by done. cbn [negb].
  replace (_ || _) with false; [done|]. symmetry. apply orb_false_iff. split; [|by apply Z.ltb_ge].
  apply Nat.eqb_neq. rewrite length_app. cbn. lia.
Qed.

(** A relay's request under toy codecs. *)
Definition demo_key : list byte := replicate 64 Byte.x05.
Definition demo_sha : text := hex_encode (replicate 32 Byte.x0a).
Definition demo_pin (b : byte) : text := certificatePinPrefix ++ StdEncode (replicate 32 b).
Definition demo_runtime : RuntimeBinding := {|
  ReleaseID := ID_String demo_epoch; ReleaseSequence := 1; ArtifactSHA256 := demo_sha; OS := ascii_bytes "linux";
  Arch := ascii_bytes "amd64"; RuntimeRole := RoleRelay; RuntimeProtocol := DeploymentProtocol; LifecycleGeneration := 1;
  ConnectorTarget := [] |}.
Definition demo_request : RequestPayload := {|
  rq_Schema := RequestSchema; rq_Role := RoleRelay; InstallationID := ID_String demo_epoch; rq_RouteID := [];
  ConnectorInstallationID := []; Nonce := ID_String demo_session; Sequence := 1; CreatedUnix := 1000; ExpiresUnix := 2000;
  ResponseRecipient := ascii_bytes "age1"; rq_IssuerPins := {| RelayAdmissionCA := demo_pin Byte.x01;
    InnerClientCA := demo_pin Byte.x02; InnerConnectorCA := demo_pin Byte.x03 |};
  DeploymentSignerKeyID := KeyID (replicate 32 Byte.x09); Runtime := demo_runtime; OuterCSR := [Byte.x01]; InnerCSR := [] |}.
Definition demo_externals : externals := {|
  decode_envelope := λ l, match dec_texts 3 l with
    | Some [a; b; c] => Some {| sr_Schema := a; sr_Payload := b; sr_Signature := c |} | _ => None end;
  encode_envelope := λ e, enc_texts [sr_Schema e; sr_Payload e; sr_Signature e];
  decode_payload := λ _, Some demo_request; encode_payload := λ _, [Byte.x7b];
  recipient_text := Some;
  parse_csr := λ _, Some {| csr_signature := true; csr_PureEd25519 := true; csr_key := Some (replicate 32 Byte.x05);
    csr_Ed25519 := true; csr_RawSubject := [Byte.x30; Byte.x00]; csr_DNSNames := [RelayDNSName]; csr_otherSANs := 0;
    csr_extensions := [true] |};
  ed := demo_ed |}.
Definition demo_signed : list byte :=
  match SignRequest demo_externals demo_request (Some demo_key) (1500 * Second) with Ok l => l | Err _ => [] end.

Lemma ParseRequest_SignRequest_witness :
  ParseRequest demo_externals demo_signed (1600 * Second) = Ok demo_request.
Proof.
  apply (ParseRequest_SignRequest demo_externals demo_request demo_key demo_signed (1500 * Second)).
  - exact demo_ed_law.
  - apply demo_generated.
  - reflexivity.
  - intros b c. unfold demo_externals. cbn [decode_envelope encode_envelope sr_Schema sr_Payload sr_Signature].
    by rewrite (dec_enc_texts [RequestSchema; StdEncode b; StdEncode c]).
  - vm_compute. reflexivity.
  - vm_compute. reflexivity.
Defined.
Lemma ParseRequest_sound_witness :
  ∃ i : ID, InstallationID demo_request = ID_String i ∧ RuntimeRole (Runtime demo_request) = rq_Role demo_request.
Proof.
  destruct (ParseRequest_sound demo_externals demo_signed (1600 * Second) demo_request)
    as (i & ? & ? & ? & ? & ? & ? & ? & Hi & H).
  - vm_compute. reflexivity.
  - exists i. split; [exact Hi|reflexivity].
Defined.
