(* ===== verification/Invitation.v ===== *)
(** * Enrollment invitations and courier registrations

    [internal/enrollmentexchange/invitation.go], [registration.go], [mailbox.go] and the
    binding of a request to its invitation in [request_envelope.go]. JSON, URL, PEM with
    X.509 and age are parameters, an [invitation_env]; so are the authorities of a trust
    bundle ([enrollment.ValidateBootstrapAuthorities] and [IssuerPinsFromTrust]). *)

From S2P Require Import Prelude GoIO Text Sha256 Base64 Protocol Identifiers Signing PairToken Phrase Mailbox EnrollRequest.

(** ** Data *)

Record targetExchange := {
  Endpoint : text;
  tx_MailboxID : text;
  RequestWriteCapability : text;
  ResponseReadCapability : text;
  RequestReadCapabilityCommitment : text;
  ResponseWriteCapabilityCommitment : text }.
#[export] Instance targetExchange_eq_dec : EqDecision targetExchange.
Proof. solve_decision. Defined.

Record Trust := { trust_RelayAdmissionCA : text; trust_InnerClientCA : text; trust_InnerConnectorCA : text }.
#[export] Instance Trust_eq_dec : EqDecision Trust.
Proof. solve_decision. Defined.

Record invitation := {
  inv_Schema : text;
  InvitationID : text;
  inv_CreatedUnix : Z;
  inv_ExpiresUnix : Z;
  MinimumLifecycle : Z;
  inv_Role : Role;
  inv_RouteID : text;
  inv_ConnectorInstallationID : text;
  inv_Runtime : RuntimeBinding;
  inv_Trust : Trust;
  inv_IssuerPins : IssuerPins;
  DeploymentSignerPublicPEM : text;
  inv_DeploymentSignerKeyID : text;
  inv_Exchange : targetExchange;
  RequestEncryptionRecipient : text }.
#[export] Instance invitation_eq_dec : EqDecision invitation.
Proof. solve_decision. Defined.

(** An envelope of a signed payload; invitations, registrations and bound responses share it. *)
Record envelope := { env_Schema : text; env_SignerKeyID : text; env_Payload : text; env_Signature : text }.
#[export] Instance envelope_eq_dec : EqDecision envelope.
Proof. solve_decision. Defined.

Record tentativeInvitation := { Invitation : invitation; Encoded : list byte; inv_SHA256 : text }.

(** What is read of a [url.URL]. *)
Record URL := {
  Scheme : text; Host : text; Hostname : text; Port : text; has_User : bool; RawQuery : text; Fragment : text;
  ForceQuery : bool; Opaque_part : text; RawPath : text; Path : text; url_String : text }.

Record operatorExchange := {
  ox_MailboxID : text;
  RequestReadCapability : text;
  ResponseWriteCapability : text;
  RequestDecryptionIdentity : text }.

Record courierRegistrationPayload := {
  crp_Schema : text;
  crp_Invitation : text;
  crp_InvitationSHA256 : text;
  crp_Endpoint : text;
  crp_MailboxID : text;
  crp_ExpiresUnix : Z;
  crp_RequestWrite : text;
  crp_RequestRead : text;
  crp_ResponseWrite : text;
  crp_ResponseRead : text }.

Record invitation_env := {
  decode_envelope_json : list byte → option envelope;
  encode_envelope_json : envelope → list byte;
  decode_invitation : list byte → option invitation;
  encode_invitation : invitation → list byte;
  decode_registration : list byte → option courierRegistrationPayload;
  encode_registration : courierRegistrationPayload → list byte;
  parse_public : text → option (list byte);
  authorities : Trust → list byte → Z → option IssuerPins;
  parse_url : text → option URL;
  path_clean : text → text;
  is_address : text → bool;
  age_recipient : text → option text;
  (** The canonical text of an identity and its recipient. *)
  age_identity : text → option (text * text);
  inv_ed : ed25519 }.

Inductive invitation_err :=
| InvitationSize | InvitationEnvelope | InvitationSchema | InvitationEncoding | InvitationNotCanonical | InvitationSigner | InvitationSignature
| InvitationTime | BadInvitationID | InvitationValidity | InvitationLifecycle | InvitationRuntimeRole | InvitationRuntime (e : enroll_err)
| RoleBinding | InvitationVerifier | InvitationAuthorities | InvitationPins | InvitationRecipient
| ExchangeEndpoint | ExchangeMailboxID | ExchangeCapability | ExchangeNotIndependent | ExchangeCommitments
| OperatorMailbox | OperatorIdentity | OperatorCommitments
| RegistrationSize | RegistrationEnvelope | RegistrationEncoding | RegistrationPayload | RegistrationSignature | RegistrationDiffers
| BindingMismatch | BindingValidity.
#[export] Instance invitation_err_eq_dec : EqDecision invitation_err.
Proof. solve_decision. Defined.

Definition invitationSchema : text := ascii_bytes "owntransit.enrollment-invitation.v1".
Definition invitationEnvelopeSchema : text := ascii_bytes "owntransit.enrollment-invitation-envelope.v1".
Definition maxInvitationValidity : Z := 24 * Hour.
Definition invitationSignatureDomain : text := ascii_bytes "OwnTransit enrollment invitation v1".
Definition maxExchangeEndpointSize : Z := 2048.
Definition courierRegistrationSchema : text := ascii_bytes "owntransit.enrollment-courier-registration.v1".
Definition courierRegistrationEnvelopeSchema : text := ascii_bytes "owntransit.enrollment-courier-registration-envelope.v1".
Definition courierRegistrationSignatureDomain : text := ascii_bytes "OwnTransit enrollment courier registration v1".
Definition MaxCourierRegistrationSize : Z := 2 ^ 20.

(** ** Shape *)

Definition validSHA256Hex (value : text) : bool :=
  (length value =? Size * 2)%nat
  && forallb (λ c, ((48 <=? b2z c) && (b2z c <=? 57)) || ((97 <=? b2z c) && (b2z c <=? 102))) value.

Definition has_suffix (suffix s : text) : bool := match CutSuffix s suffix with Some _ => true | None => false end.
Definition reserved_suffixes : list text :=
  [ascii_bytes ".localhost"; ascii_bytes ".local"; ascii_bytes ".internal"; ascii_bytes ".home.arpa";
   ascii_bytes ".invalid"; ascii_bytes ".test"; ascii_bytes ".example"; ascii_bytes ".onion"].
Definition host_label (label : text) : bool :=
  negb (bool_decide (label = [])) && (Z.of_nat (length label) <=? 63)
  && negb (bool_decide (list.head label = Some Identity.hyphen)) && negb (bool_decide (list.last label = Some Identity.hyphen))
  && forallb Identity.name_char label.

Definition role_binding (inv : invitation) : bool :=
  match inv_Role inv with
  | RoleRelay => bool_decide (inv_RouteID inv = []) && bool_decide (inv_ConnectorInstallationID inv = [])
  | RoleConnector => nonzero_id (inv_RouteID inv) && bool_decide (inv_ConnectorInstallationID inv = [])
  | RoleClient => nonzero_id (inv_RouteID inv) && nonzero_id (inv_ConnectorInstallationID inv)
  | OtherRole _ => false
  end.

(** [mailboxCapabilityCommitment] and the bytes it hashes. *)
Definition commitmentInput (mailboxID action capability : text) : list byte :=
  ascii_bytes "OwnTransit mailbox capability commitment v1" ++ [NUL] ++ action ++ [NUL] ++ mailboxID ++ [NUL] ++ capability.
Definition mailboxCapabilityCommitment (mailboxID action capability : text) : text :=
  hex_encode (Sum256 (commitmentInput mailboxID action capability)).
Definition request_read : text := action_name RequestRead.
Definition response_write : text := action_name ResponseWrite.

Section Env.
Context (x : invitation_env).

Definition validPublicExchangeHostname (hostname : text) : bool :=
  if bool_decide (hostname = []) || (253 <? Z.of_nat (length hostname)) || negb (bool_decide (hostname = to_lower <$> hostname))
     || has_suffix [Names.dot] hostname then false
  else if is_address x hostname then false
  else
    let labels := Split Names.dot hostname in
    (2 <=? length labels)%nat && forallb host_label labels
    && forallb (λ suffix, negb (bool_decide (hostname = drop 1 suffix)) && negb (has_suffix suffix hostname)) reserved_suffixes.

Definition endpoint_url (e : URL) (endpoint : text) : bool :=
  bool_decide (Scheme e = ascii_bytes "wss") && negb (bool_decide (Host e = [])) && negb (bool_decide (Hostname e = []))
  && negb (has_User e) && bool_decide (RawQuery e = []) && bool_decide (Fragment e = []) && negb (ForceQuery e)
  && bool_decide (Opaque_part e = []) && bool_decide (RawPath e = []) && negb (bool_decide (Path e = []))
  && negb (bool_decide (Path e = ascii_bytes "/")) && negb (has_suffix (ascii_bytes "/") (Path e))
  && bool_decide (path_clean x (Path e) = Path e) && bool_decide (url_String e = endpoint)
  && bool_decide (Port e = []) && bool_decide (Host e = Hostname e) && validPublicExchangeHostname (Hostname e).

(** [targetExchange.validate] *)
Definition exchange_validate (e : targetExchange) : result invitation_err () :=
  reject bool_decide (Endpoint e = []) || (maxExchangeEndpointSize <? Z.of_nat (length (Endpoint e)))
      || negb (bool_decide (Endpoint e = to_lower <$> Endpoint e)) with ExchangeEndpoint;;
  match parse_url x (Endpoint e) with
  | None => Err ExchangeEndpoint
  | Some u =>
      reject negb (endpoint_url u (Endpoint e)) with ExchangeEndpoint;;
      reject negb (nonzero_id (tx_MailboxID e)) with ExchangeMailboxID;;
      match parseMailboxCapability (RequestWriteCapability e), parseMailboxCapability (ResponseReadCapability e) with
      | Ok requestWrite, Ok responseRead =>
          reject bool_decide (requestWrite = responseRead) with ExchangeNotIndependent;;
          reject negb (validSHA256Hex (RequestReadCapabilityCommitment e))
              || negb (validSHA256Hex (ResponseWriteCapabilityCommitment e))
              || bool_decide (RequestReadCapabilityCommitment e = ResponseWriteCapabilityCommitment e) with ExchangeCommitments;;
          Ok ()
      | _, _ => Err ExchangeCapability
      end
  end.

(** [invitation.validate]; [now] is truncated to the second. *)
Definition invitation_validate (inv : invitation) (now : Z) : result invitation_err () :=
  let now := unix_sec now * Second in
  reject is_zero now || negb (bool_decide (inv_Schema inv = invitationSchema)) with InvitationTime;;
  reject negb (nonzero_id (InvitationID inv)) with BadInvitationID;;
  reject (inv_CreatedUnix inv <=? 0) || (inv_ExpiresUnix inv <=? inv_CreatedUnix inv)
      || (maxInvitationValidity / Second <? inv_ExpiresUnix inv - inv_CreatedUnix inv)
      || now_before now (five_minutes_before (unix_time (inv_CreatedUnix inv)))
      || negb (now_before now (unix_time (inv_ExpiresUnix inv))) with InvitationValidity;;
  reject negb (MinimumLifecycle inv =? CurrentLifecycleGeneration)
      || (LifecycleGeneration (inv_Runtime inv) <? MinimumLifecycle inv) with InvitationLifecycle;;
  reject negb (bool_decide (RuntimeRole (inv_Runtime inv) = inv_Role inv)) with InvitationRuntimeRole;;
  match RuntimeBinding_Validate (inv_Runtime inv) (inv_Role inv) with
  | Err e => Err (InvitationRuntime e)
  | Ok _ =>
      reject negb (role_binding inv) with RoleBinding;;
      match parse_public x (DeploymentSignerPublicPEM inv) with
      | None => Err InvitationVerifier
      | Some publicKey =>
          reject negb (bool_decide (inv_DeploymentSignerKeyID inv = KeyID publicKey)) with InvitationVerifier;;
          match authorities x (inv_Trust inv) publicKey now with
          | None => Err InvitationAuthorities
          | Some pins =>
              reject negb (bool_decide (pins = inv_IssuerPins inv)) with InvitationPins;;
              _ ← exchange_validate (inv_Exchange inv);
              reject negb (bool_decide (age_recipient x (RequestEncryptionRecipient inv) = Some (RequestEncryptionRecipient inv)))
                with InvitationRecipient;;
              Ok ()
          end
      end
  end.

(** ** Signing and parsing *)

Definition seal_envelope (schema keyID : text) (payload signature : list byte) : list byte :=
  encode_envelope_json x {| env_Schema := schema; env_SignerKeyID := keyID; env_Payload := StdEncode payload;
                            env_Signature := StdEncode signature |} ++ [newline].

Definition signInvitation (inv : invitation) (privateKey : list byte) (now : Z) : result invitation_err (list byte) :=
  reject negb (length privateKey =? PrivateKeySize)%nat with InvitationSigner;;
  _ ← invitation_validate inv now;
  match parse_public x (DeploymentSignerPublicPEM inv) with
  | None => Err InvitationVerifier
  | Some publicKey =>
      reject negb (bool_decide (publicKey = ed_public (inv_ed x) privateKey)) with InvitationSigner;;
      let payload := encode_invitation x inv in
      match Sign (inv_ed x) invitationSignatureDomain payload privateKey with
      | Err _ => Err InvitationSignature
      | Ok signature =>
          let encoded := seal_envelope invitationEnvelopeSchema (inv_DeploymentSignerKeyID inv) payload signature in
          reject MaxInvitationSize <? Z.of_nat (length encoded) with InvitationSize;;
          Ok encoded
      end
  end.

Definition parseTentativeInvitation (encoded : list byte) (now : Z) : result invitation_err tentativeInvitation :=
  reject out_of_bound MaxInvitationSize encoded with InvitationSize;;
  match decode_envelope_json x encoded with
  | None => Err InvitationEnvelope
  | Some e =>
      reject negb (bool_decide (env_Schema e = invitationEnvelopeSchema)) with InvitationSchema;;
      match decodeCanonicalBase64 (env_Payload e), decodeCanonicalBase64 (env_Signature e) with
      | Some payloadBytes, Some signature =>
          reject negb (length signature =? SignatureSize)%nat with InvitationEncoding;;
          match decode_invitation x payloadBytes with
          | None => Err InvitationEnvelope
          | Some inv =>
              reject negb (bool_decide (encode_invitation x inv = payloadBytes)) with InvitationNotCanonical;;
              _ ← invitation_validate inv now;
              match parse_public x (DeploymentSignerPublicPEM inv) with
              | None => Err InvitationVerifier
              | Some publicKey =>
                  reject negb (bool_decide (env_SignerKeyID e = inv_DeploymentSignerKeyID inv))
                      || negb (bool_decide (env_SignerKeyID e = KeyID publicKey)) with InvitationSigner;;
                  reject negb (is_ok (Verify (inv_ed x) invitationSignatureDomain payloadBytes signature publicKey))
                    with InvitationSignature;;
                  reject negb (bool_decide (encoded = encode_envelope_json x e ++ [newline])) with InvitationNotCanonical;;
                  Ok {| Invitation := inv; Encoded := encoded; inv_SHA256 := hex_encode (Sum256 encoded) |}
              end
          end
      | _, _ => Err InvitationEncoding
      end
  end.

Definition validateTentativeHandle (t : tentativeInvitation) (now : Z) : result invitation_err invitation :=
  parsed ← parseTentativeInvitation (Encoded t) now;
  reject negb (bool_decide (Invitation parsed = Invitation t)) || negb (bool_decide (inv_SHA256 parsed = inv_SHA256 t))
      || negb (bool_decide (Encoded parsed = Encoded t)) with InvitationNotCanonical;;
  Ok (Invitation parsed).

(** ** Requests and their invitation *)

Definition bindRequestToInvitation (inv : invitation) (request : RequestPayload) : result invitation_err () :=
  reject negb (Sequence request =? 1) || negb (bool_decide (rq_Role request = inv_Role inv))
      || negb (bool_decide (rq_RouteID request = inv_RouteID inv))
      || negb (bool_decide (ConnectorInstallationID request = inv_ConnectorInstallationID inv))
      || negb (bool_decide (Runtime request = inv_Runtime inv)) || negb (bool_decide (rq_IssuerPins request = inv_IssuerPins inv))
      || negb (bool_decide (DeploymentSignerKeyID request = inv_DeploymentSignerKeyID inv)) with BindingMismatch;;
  reject (CreatedUnix request <? inv_CreatedUnix inv) || (inv_ExpiresUnix inv <? ExpiresUnix request) with BindingValidity;;
  Ok ().

(** ** Operator records: [operatorExchange.validateAgainst] *)

Definition pairwise_distinct (values : list (list byte)) : bool := bool_decide (NoDup values).
(** [result, _ := parseMailboxCapability]: nil on failure. *)
Definition capability_or_nil (value : text) : list byte :=
  match parseMailboxCapability value with Ok decoded => decoded | Err _ => [] end.

Definition commitments_match (mailboxID requestRead responseWrite : text) (target : targetExchange) : bool :=
  bool_decide (mailboxCapabilityCommitment mailboxID request_read requestRead = RequestReadCapabilityCommitment target)
  && bool_decide (mailboxCapabilityCommitment mailboxID response_write responseWrite = ResponseWriteCapabilityCommitment target).

Definition validateAgainst (operator : operatorExchange) (target : targetExchange) (requestRecipient : text)
    : result invitation_err () :=
  _ ← exchange_validate target;
  reject negb (bool_decide (ox_MailboxID operator = tx_MailboxID target)) with OperatorMailbox;;
  match parseMailboxCapability (RequestReadCapability operator), parseMailboxCapability (ResponseWriteCapability operator) with
  | Ok requestRead, Ok responseWrite =>
      let targetWrite := capability_or_nil (RequestWriteCapability target) in
      let targetRead := capability_or_nil (ResponseReadCapability target) in
      reject negb (pairwise_distinct [targetWrite; targetRead; requestRead; responseWrite]) with ExchangeNotIndependent;;
      reject negb (bool_decide (age_identity x (RequestDecryptionIdentity operator)
                                = Some (RequestDecryptionIdentity operator, requestRecipient))) with OperatorIdentity;;
      reject negb (commitments_match (ox_MailboxID operator) (RequestReadCapability operator) (ResponseWriteCapability operator) target)
        with OperatorCommitments;;
      Ok ()
  | _, _ => Err ExchangeCapability
  end.

(** ** Courier registrations: [registration.go] *)

Definition decodeSessionBytes (value : text) (limit : Z) : option (list byte) :=
  match decodeCanonicalBase64 value with
  | Some decoded => if out_of_bound limit decoded then None else Some decoded
  | None => None
  end.

Definition signCourierRegistration (invitationBytes : list byte) (target : targetExchange) (operator : operatorExchange)
    (signer : list byte) (now : Z) : result invitation_err (list byte) :=
  tentative ← parseTentativeInvitation invitationBytes now;
  let inv := Invitation tentative in
  reject negb (bool_decide (inv_Exchange inv = target)) with RegistrationDiffers;;
  _ ← validateAgainst operator target (RequestEncryptionRecipient inv);
  let payload := {|
    crp_Schema := courierRegistrationSchema; crp_Invitation := StdEncode invitationBytes;
    crp_InvitationSHA256 := inv_SHA256 tentative; crp_Endpoint := Endpoint target; crp_MailboxID := tx_MailboxID target;
    crp_ExpiresUnix := inv_ExpiresUnix inv; crp_RequestWrite := RequestWriteCapability target;
    crp_RequestRead := RequestReadCapability operator; crp_ResponseWrite := ResponseWriteCapability operator;
    crp_ResponseRead := ResponseReadCapability target |} in
  let payloadBytes := encode_registration x payload in
  match Sign (inv_ed x) courierRegistrationSignatureDomain payloadBytes signer with
  | Err _ => Err RegistrationSignature
  | Ok signature =>
      let encoded := seal_envelope courierRegistrationEnvelopeSchema (inv_DeploymentSignerKeyID inv) payloadBytes signature in
      reject MaxCourierRegistrationSize <? Z.of_nat (length encoded) with RegistrationSize;;
      Ok encoded
  end.

(** The comparison of a registration with the target side of its invitation. *)
Definition registration_matches (payload : courierRegistrationPayload) (t : tentativeInvitation) : bool :=
  let target := inv_Exchange (Invitation t) in
  bool_decide (crp_InvitationSHA256 payload = inv_SHA256 t) && bool_decide (crp_Endpoint payload = Endpoint target)
  && bool_decide (crp_MailboxID payload = tx_MailboxID target) && (crp_ExpiresUnix payload =? inv_ExpiresUnix (Invitation t))
  && bool_decide (crp_RequestWrite payload = RequestWriteCapability target)
  && bool_decide (crp_ResponseRead payload = ResponseReadCapability target)
  && commitments_match (crp_MailboxID payload) (crp_RequestRead payload) (crp_ResponseWrite payload) target.

Record CourierRegistration := {
  cr_endpoint : text;
  cr_mailboxID : text;
  cr_expires : Z;
  cr_requestWrite : text;
  cr_requestRead : text;
  cr_responseWrite : text;
  cr_responseRead : text }.

(** The instant of [time.Unix(sec, 0)] in nanoseconds of the Unix epoch. *)
Definition unix_instant (sec : Z) : Z := (unix_time sec - unixToInternal) * Second.

Definition ParseCourierRegistration (encoded : list byte) (now : Z) : result invitation_err CourierRegistration :=
  reject out_of_bound MaxCourierRegistrationSize encoded with RegistrationSize;;
  match decode_envelope_json x encoded with
  | None => Err RegistrationEnvelope
  | Some e =>
      reject negb (bool_decide (encoded = encode_envelope_json x e ++ [newline]))
          || negb (bool_decide (env_Schema e = courierRegistrationEnvelopeSchema)) with RegistrationEnvelope;;
      match decodeCanonicalBase64 (env_Payload e) with
      | None => Err RegistrationEncoding
      | Some payloadBytes =>
          match decode_registration x payloadBytes with
          | None => Err RegistrationPayload
          | Some payload =>
              reject negb (bool_decide (encode_registration x payload = payloadBytes))
                  || negb (bool_decide (crp_Schema payload = courierRegistrationSchema)) with RegistrationPayload;;
              match decodeSessionBytes (crp_Invitation payload) MaxInvitationSize with
              | None => Err RegistrationEncoding
              | Some invitationBytes =>
                  tentative ← parseTentativeInvitation invitationBytes now;
                  match parse_public x (DeploymentSignerPublicPEM (Invitation tentative)) with
                  | None => Err InvitationVerifier
                  | Some public =>
                      match decodeCanonicalBase64 (env_Signature e) with
                      | None => Err RegistrationSignature
                      | Some signature =>
                          reject negb (length signature =? SignatureSize)%nat
                              || negb (bool_decide (env_SignerKeyID e = inv_DeploymentSignerKeyID (Invitation tentative)))
                            with RegistrationSignature;;
                          reject negb (is_ok (Verify (inv_ed x) courierRegistrationSignatureDomain payloadBytes signature public))
                            with RegistrationSignature;;
                          reject negb (registration_matches payload tentative) with RegistrationDiffers;;
                          reject negb (decode_distinct [crp_RequestWrite payload; crp_RequestRead payload;
                                                        crp_ResponseWrite payload; crp_ResponseRead payload] [])
                            with ExchangeCapability;;
                          Ok {| cr_endpoint := crp_Endpoint payload; cr_mailboxID := crp_MailboxID payload;
                                cr_expires := unix_instant (crp_ExpiresUnix payload);
                                cr_requestWrite := crp_RequestWrite payload; cr_requestRead := crp_RequestRead payload;
                                cr_responseWrite := crp_ResponseWrite payload; cr_responseRead := crp_ResponseRead payload |}
                      end
                  end
              end
          end
      end
  end.
End Env.
