(* ===== verification/InvitationSafety.v ===== *)
(** * Invitations and registrations: round trips and mailbox creation *)

From S2P Require Import Prelude GoIO Text Sha256 Base64 Protocol Identifiers Signing PairToken Phrase Mailbox MailboxSafety EnrollRequest Invitation Toy Runes JsonText.

(** What encoding/json writes and reads back unchanged: strings of valid UTF-8 (others are
    coerced), integers of the field's type, and a role by its own name. *)
Definition valid_texts (l : list text) : Prop := Forall (λ t, Is_true (ValidString t)) l.
Definition named_role (r : Role) : Prop := match r with OtherRole _ => False | _ => True end.
Definition envelope_wf (e : envelope) : Prop :=
  valid_texts [env_Schema e; env_SignerKeyID e; env_Payload e; env_Signature e].
Definition exchange_wf (e : targetExchange) : Prop :=
  valid_texts [Endpoint e; tx_MailboxID e; RequestWriteCapability e; ResponseReadCapability e;
    RequestReadCapabilityCommitment e; ResponseWriteCapabilityCommitment e].
Definition runtime_wf (r : RuntimeBinding) : Prop :=
  valid_texts [ReleaseID r; ArtifactSHA256 r; OS r; Arch r; RuntimeProtocol r; ConnectorTarget r]
  ∧ uint64 (ReleaseSequence r) ∧ uint64 (LifecycleGeneration r) ∧ named_role (RuntimeRole r).
Definition trust_wf (t : Trust) : Prop :=
  valid_texts [trust_RelayAdmissionCA t; trust_InnerClientCA t; trust_InnerConnectorCA t].
Definition pins_wf (p : IssuerPins) : Prop := valid_texts [RelayAdmissionCA p; InnerClientCA p; InnerConnectorCA p].
Record invitation_wf (i : invitation) : Prop := {
  iw_texts : valid_texts [inv_Schema i; InvitationID i; inv_RouteID i; inv_ConnectorInstallationID i;
    DeploymentSignerPublicPEM i; inv_DeploymentSignerKeyID i; RequestEncryptionRecipient i];
  iw_times : int64 (inv_CreatedUnix i) ∧ int64 (inv_ExpiresUnix i) ∧ uint64 (MinimumLifecycle i);
  iw_role : named_role (inv_Role i);
  iw_runtime : runtime_wf (inv_Runtime i);
  iw_trust : trust_wf (inv_Trust i);
  iw_pins : pins_wf (inv_IssuerPins i);
  iw_exchange : exchange_wf (inv_Exchange i) }.
Definition registration_wf (r : courierRegistrationPayload) : Prop :=
  valid_texts [crp_Schema r; crp_Invitation r; crp_InvitationSHA256 r; crp_Endpoint r; crp_MailboxID r;
    crp_RequestWrite r; crp_RequestRead r; crp_ResponseWrite r; crp_ResponseRead r] ∧ int64 (crp_ExpiresUnix r).

(** The documented laws of the parameters: strict decoding returns what was marshalled, of
    values that JSON represents, and Ed25519. *)
Record env_law (x : invitation_env) : Prop := {
  el_ed : ed25519_law (inv_ed x);
  el_envelope e : envelope_wf e → decode_envelope_json x (encode_envelope_json x e ++ [newline]) = Some e;
  el_invitation i : invitation_wf i → decode_invitation x (encode_invitation x i) = Some i;
  el_registration r : registration_wf r → decode_registration x (encode_registration x r) = Some r }.

(** The texts that the code makes are valid. *)
Lemma valid_texts_nil : valid_texts [].
Proof. constructor. Qed.
Lemma valid_texts_cons t l : ValidString t → valid_texts l → valid_texts (t :: l).
Proof. intros H1 H2. constructor; [exact H1|exact H2]. Qed.
Lemma ID_String_valid i : ValidString (ID_String i).
Proof. apply plain_valid, plain_formatID. Qed.
Lemma StdEncode_valid l : ValidString (StdEncode l).
Proof. apply plain_valid, plain_StdEncode. Qed.
Lemma hex_valid l : ValidString (hex_encode l).
Proof. apply plain_valid, plain_hex. Qed.
Lemma KeyID_valid k : ValidString (KeyID k).
Proof. apply plain_valid, plain_KeyID. Qed.
Lemma RawURLEncode_valid l : ValidString (RawURLEncode l).
Proof. apply plain_valid, plain_RawURLEncode. Qed.
Lemma const_valid t : forallb plain_byteb t = true → ValidString t.
Proof. intros H. by apply plain_valid, plain_const. Qed.
Lemma capability_valid c d : parseMailboxCapability c = Ok d → ValidString c.
Proof.
  unfold parseMailboxCapability. destruct (RawURLDecode c) as [e|]; [|done]. case_guard G; [done|]. intros _. bool_prop.
  match goal with H : ¬ RawURLEncode e ≠ c |- _ => apply dec_stable in H as <- end. apply RawURLEncode_valid.
Qed.
Lemma nonzero_id_valid t : nonzero_id t = true → ValidString t.
Proof. intros (i & -> & _)%nonzero_id_spec. apply ID_String_valid. Qed.
Lemma SHA256Hex_valid t : validSHA256Hex t = true → ValidString t.
Proof.
  unfold validSHA256Hex. intros [_ H]%andb_true_iff. apply plain_valid. eapply plain_forallb; [|exact H].
  intros b. by destruct b.
Qed.

Section Env.
Context (x : invitation_env).

Lemma sealed_size schema keyID payload signature limit :
  (limit <? Z.of_nat (length (seal_envelope x schema keyID payload signature))) = false →
  out_of_bound limit (seal_envelope x schema keyID payload signature) = false.
Proof.
  intros H. unfold out_of_bound. rewrite H, orb_false_r. apply Z.eqb_neq. unfold seal_envelope. rewrite length_app. cbn. lia.
Qed.

(** What a parsed invitation has been checked for. *)
Lemma parseTentativeInvitation_ok encoded now t :
  parseTentativeInvitation x encoded now = Ok t →
  Encoded t = encoded ∧ inv_SHA256 t = hex_encode (Sum256 encoded) ∧ out_of_bound MaxInvitationSize encoded = false
  ∧ invitation_validate x (Invitation t) now = Ok ()
  ∧ ∃ publicKey signature, parse_public x (DeploymentSignerPublicPEM (Invitation t)) = Some publicKey
    ∧ inv_DeploymentSignerKeyID (Invitation t) = KeyID publicKey
    ∧ Verify (inv_ed x) invitationSignatureDomain (encode_invitation x (Invitation t)) signature publicKey = Ok ().
Proof.
  unfold parseTentativeInvitation. case_guard G; [done|]. destruct (decode_envelope_json x encoded) as [e|]; [|done].
  case_guard G1; [done|]. destruct (decodeCanonicalBase64 (env_Payload e)) as [p|]; [|done].
  destruct (decodeCanonicalBase64 (env_Signature e)) as [s|]; [|done]. case_guard G2; [done|].
  destruct (decode_invitation x p) as [i|]; [|done]. case_guard G3; [done|].
  destruct (invitation_validate x i now) as [[]|] eqn:Ev; [|done]. cbn [mbind result_bind].
  destruct (parse_public x _) as [k|] eqn:Ek; [|done]. case_guard G4; [done|]. case_guard G5; [done|]. case_guard G6; [done|].
  intros <-%Ok_inj. bool_prop. cbn [Invitation Encoded inv_SHA256]. split; [done|]. split; [done|]. split; [done|]. split; [done|].
  exists k, s. split; [done|].
  split; [congruence|].
  match goal with H : encode_invitation x i = p |- _ => rewrite H end.
  by destruct (Verify _ _ _ _ _) as [[]|].
Qed.

Lemma validate_signer inv now :
  invitation_validate x inv now = Ok () →
  ∃ publicKey, parse_public x (DeploymentSignerPublicPEM inv) = Some publicKey ∧ inv_DeploymentSignerKeyID inv = KeyID publicKey.
Proof.
  unfold invitation_validate. cbv zeta. repeat (match goal with |- (if ?b then _ else _) = _ → _ => destruct b; [done|] end).
  destruct (RuntimeBinding_Validate _ _); [|done]. case_guard G; [done|]. destruct (parse_public x _) as [k|]; [|done].
  case_guard G1; [done|]. intros _. bool_prop. by exists k.
Qed.

(** A sealed envelope is read back. *)
Lemma sealed_envelope_read schema keyID payload signature :
  env_law x → plain schema → ValidString keyID →
  decode_envelope_json x (seal_envelope x schema keyID payload signature)
  = Some {| env_Schema := schema; env_SignerKeyID := keyID; env_Payload := StdEncode payload; env_Signature := StdEncode signature |}.
Proof.
  intros Hl Hs Hk. apply (el_envelope _ Hl). repeat apply valid_texts_cons; [by apply plain_valid|exact Hk|apply StdEncode_valid..|].
  apply valid_texts_nil.
Qed.
Lemma sign_parse_invitation inv key encoded now now' :
  env_law x → generated (inv_ed x) key → invitation_wf inv → signInvitation x inv key now = Ok encoded → invitation_validate x inv now' = Ok () →
  parseTentativeInvitation x encoded now'
  = Ok {| Invitation := inv; Encoded := encoded; inv_SHA256 := hex_encode (Sum256 encoded) |}.
Proof.
  intros Hl Hgen Hwf. destruct (Hl) as [He _ Hinv _]. unfold signInvitation. case_guard G; [done|].
  destruct (invitation_validate x inv now) as [[]|] eqn:Ev; [|done]. cbn [mbind result_bind].
  destruct (parse_public x _) as [k|] eqn:Ek; [|done]. case_guard G1; [done|].
  destruct (Sign _ _ _ _) as [s|] eqn:Es; [|done]. case_guard G2; [done|]. intros <-%Ok_inj Hv. bool_prop.
  pose proof (Verify_Sign _ _ _ _ _ He Hgen Es) as Hver. pose proof (Sign_size _ _ _ _ _ He Es) as Hlen.
  destruct (validate_signer _ _ Hv) as (k' & Hk' & Hid). assert (k' = k) as -> by congruence. unfold parseTentativeInvitation.
  rewrite sealed_size by (by apply Z.ltb_ge). rewrite sealed_envelope_read; [|exact Hl|by apply plain_const|rewrite Hid; apply KeyID_valid]. cbn [env_Schema env_Payload env_Signature env_SignerKeyID].
  rewrite !decodeCanonicalBase64_encode, Hlen, Nat.eqb_refl, (Hinv _ Hwf), Hv. cbn [mbind result_bind negb]. rewrite Ek.
  rewrite Hid, !(bool_decide_eq_true_2 (_ = _)) by done. subst k. rewrite Hver. done.
Qed.

(** The exchange of a valid invitation. *)
Lemma exchange_validate_ok e :
  exchange_validate x e = Ok () →
  nonzero_id (tx_MailboxID e) = true
  ∧ ∃ w r, parseMailboxCapability (RequestWriteCapability e) = Ok w ∧ parseMailboxCapability (ResponseReadCapability e) = Ok r.
Proof.
  unfold exchange_validate. case_guard G; [done|]. destruct (parse_url x _); [|done]. case_guard G1; [done|].
  case_guard G2; [done|]. bool_prop.
  destruct (parseMailboxCapability (RequestWriteCapability e)) as [w|], (parseMailboxCapability (ResponseReadCapability e)) as [r|];
    try done. intros _. split; [done|]. by exists w, r.
Qed.
Lemma invitation_validate_ok inv now :
  invitation_validate x inv now = Ok () →
  exchange_validate x (inv_Exchange inv) = Ok () ∧ now < unix_instant (inv_ExpiresUnix inv).
Proof.
  unfold invitation_validate. cbv zeta. case_guard G; [done|]. case_guard G1; [done|]. case_guard G2; [done|].
  repeat (match goal with |- (if ?b then _ else _) = _ → _ => destruct b; [done|] end).
  destruct (RuntimeBinding_Validate _ _); [|done]. case_guard G3; [done|]. destruct (parse_public x _) as [k|]; [|done].
  case_guard G4; [done|]. destruct (authorities x _ _ _); [|done]. case_guard G5; [done|].
  destruct (exchange_validate x _) as [[]|]; [|done]. cbn [mbind result_bind]. intros _. bool_prop. split; [done|].
  match goal with H : now_before _ (unix_time (inv_ExpiresUnix inv)) = true |- _ => unfold now_before in H end.
  bool_prop. unfold unix_instant, unix_sec in *. pose proof (Z.mod_pos_bound now Second ltac:(done)).
  pose proof (Z.div_mod now Second ltac:(done)). unfold Second in *. lia.
Qed.

(** The distinctness loop of [Create] and of the parser. *)
Lemma decode_distinct_true caps ds prior :
  Forall2 (λ c d, parseMailboxCapability c = Ok d) caps ds → NoDup ds → (∀ d, d ∈ ds → d ∉ prior) →
  decode_distinct caps prior = true.
Proof.
  intros H. revert prior. induction H as [|c d caps ds Hc _ IH]; intros prior Hnd Hp; [done|].
  apply list.NoDup_cons in Hnd as [Hd Hnd]. cbn [decode_distinct]. rewrite Hc.
  rewrite bool_decide_eq_false_2 by (apply Hp; by left). apply IH; [done|]. intros d' Hd'. rewrite elem_of_app.
  intros [H|H%list_elem_of_singleton]; [by apply (Hp d'); [right|]|by subst].
Qed.

(** What a parsed registration has been checked for. *)
Lemma ParseCourierRegistration_ok encoded now r :
  ParseCourierRegistration x encoded now = Ok r →
  ∃ invitationBytes t, parseTentativeInvitation x invitationBytes now = Ok t
    ∧ let target := inv_Exchange (Invitation t) in
      cr_endpoint r = Endpoint target ∧ cr_mailboxID r = tx_MailboxID target
      ∧ cr_expires r = unix_instant (inv_ExpiresUnix (Invitation t))
      ∧ cr_requestWrite r = RequestWriteCapability target ∧ cr_responseRead r = ResponseReadCapability target
      ∧ commitments_match (cr_mailboxID r) (cr_requestRead r) (cr_responseWrite r) target = true
      ∧ decode_distinct [cr_requestWrite r; cr_requestRead r; cr_responseWrite r; cr_responseRead r] [] = true.
Proof.
  unfold ParseCourierRegistration. case_guard G; [done|]. destruct (decode_envelope_json x encoded) as [e|]; [|done].
  case_guard G1; [done|]. destruct (decodeCanonicalBase64 (env_Payload e)) as [p|]; [|done].
  destruct (decode_registration x p) as [c|]; [|done]. case_guard G2; [done|].
  destruct (decodeSessionBytes _ _) as [b|]; [|done]. destruct (parseTentativeInvitation x b now) as [t|] eqn:Et; [|done].
  cbn [mbind result_bind]. destruct (parse_public x _); [|done]. destruct (decodeCanonicalBase64 (env_Signature e)); [|done].
  case_guard G3; [done|]. case_guard G4; [done|]. case_guard G5; [done|]. case_guard G6; [done|]. intros <-%Ok_inj.
  exists b, t. split; [done|]. cbn [cr_endpoint cr_mailboxID cr_expires cr_requestWrite cr_requestRead cr_responseWrite cr_responseRead].
  unfold registration_matches in G5. bool_prop. split_and!; try done. congruence.
Qed.

(** A second reading of the same bytes gives the same value. *)
Lemma parse_same encoded now now' t t' :
  parseTentativeInvitation x encoded now = Ok t → parseTentativeInvitation x encoded now' = Ok t' → t = t'.
Proof.
  unfold parseTentativeInvitation. case_guard G; [done|]. destruct (decode_envelope_json x encoded) as [e|]; [|done].
  case_guard G1; [done|]. destruct (decodeCanonicalBase64 (env_Payload e)) as [p|]; [|done].
  destruct (decodeCanonicalBase64 (env_Signature e)) as [s|]; [|done]. case_guard G2; [done|].
  destruct (decode_invitation x p) as [i|]; [|done]. case_guard G3; [done|].
  destruct (invitation_validate x i now) as [[]|]; [|done]. destruct (invitation_validate x i now') as [[]|]; [|done].
  cbn [mbind result_bind]. destruct (parse_public x _) as [k|]; [|done]. case_guard G4; [done|]. case_guard G5; [done|].
  case_guard G6; [done|]. congruence.
Qed.

Lemma validateAgainst_ok operator target recipient :
  validateAgainst x operator target recipient = Ok () →
  ox_MailboxID operator = tx_MailboxID target
  ∧ commitments_match (tx_MailboxID target) (RequestReadCapability operator) (ResponseWriteCapability operator) target = true
  ∧ decode_distinct [RequestWriteCapability target; RequestReadCapability operator;
                     ResponseWriteCapability operator; ResponseReadCapability target] [] = true.
Proof.
  unfold validateAgainst. destruct (exchange_validate x target) as [[]|] eqn:Ex; [|done]. cbn [mbind result_bind].
  apply exchange_validate_ok in Ex as [_ (w & r & Hw & Hr)].
  case_guard G; [done|]. destruct (parseMailboxCapability (RequestReadCapability operator)) as [a|] eqn:Ha; [|done].
  destruct (parseMailboxCapability (ResponseWriteCapability operator)) as [b|] eqn:Hb; [|done].
  unfold capability_or_nil, pairwise_distinct. rewrite Hw, Hr. case_guard G1; [done|]. case_guard G2; [done|].
  case_guard G3; [done|]. intros _. bool_prop. split; [done|].
  match goal with H : ox_MailboxID operator = _ |- _ => rewrite <-H end. split; [done|].
  apply (decode_distinct_true _ [w; a; b; r]); [by repeat constructor| |intros ? _; apply not_elem_of_nil].
  match goal with H : NoDup _ |- _ => revert H end. clear. rewrite !list.NoDup_cons. set_solver.
Qed.

Lemma validateAgainst_valid operator target recipient :
  validateAgainst x operator target recipient = Ok () →
  ValidString (RequestReadCapability operator) ∧ ValidString (ResponseWriteCapability operator).
Proof.
  unfold validateAgainst. destruct (exchange_validate x target) as [[]|]; [|done]. cbn [mbind result_bind]. case_guard G; [done|].
  destruct (parseMailboxCapability (RequestReadCapability operator)) as [a|] eqn:Ha; [|done].
  destruct (parseMailboxCapability (ResponseWriteCapability operator)) as [b|] eqn:Hb; [|done]. intros _.
  split; eapply capability_valid; eassumption.
Qed.
Lemma sign_signer inv key encoded now :
  signInvitation x inv key now = Ok encoded → parse_public x (DeploymentSignerPublicPEM inv) = Some (ed_public (inv_ed x) key).
Proof.
  unfold signInvitation. case_guard G; [done|]. destruct (invitation_validate x inv now) as [[]|]; [|done].
  cbn [mbind result_bind]. destruct (parse_public x _) as [k|]; [|done]. case_guard G1; [done|]. intros _. bool_prop. congruence.
Qed.

(** What [signCourierRegistration] marshals. *)
Lemma registration_valid t b operator :
  invitation_wf (Invitation t) → inv_SHA256 t = hex_encode (Sum256 b) →
  ValidString (RequestReadCapability operator) → ValidString (ResponseWriteCapability operator) →
  registration_wf {| crp_Schema := courierRegistrationSchema; crp_Invitation := StdEncode b;
    crp_InvitationSHA256 := inv_SHA256 t; crp_Endpoint := Endpoint (inv_Exchange (Invitation t));
    crp_MailboxID := tx_MailboxID (inv_Exchange (Invitation t)); crp_ExpiresUnix := inv_ExpiresUnix (Invitation t);
    crp_RequestWrite := RequestWriteCapability (inv_Exchange (Invitation t)); crp_RequestRead := RequestReadCapability operator;
    crp_ResponseWrite := ResponseWriteCapability operator;
    crp_ResponseRead := ResponseReadCapability (inv_Exchange (Invitation t)) |}.
Proof.
  intros [_ (_ & He & _) _ _ _ _ Hx] Hsha H1 H2. split; [|exact He].
  apply Forall_cons_iff in Hx as [X1 Hx]. apply Forall_cons_iff in Hx as [X2 Hx]. apply Forall_cons_iff in Hx as [X3 Hx].
  apply Forall_cons_iff in Hx as [X4 _].
  repeat apply valid_texts_cons; [by apply const_valid|apply StdEncode_valid|cbn [crp_InvitationSHA256]; rewrite Hsha; apply hex_valid
    |exact X1|exact X2|exact X3|exact H1|exact H2|exact X4|apply valid_texts_nil].
Qed.
Lemma sign_parse_registration invitationBytes t operator signer encoded now now' :
  env_law x → generated (inv_ed x) signer → invitation_wf (Invitation t) → parseTentativeInvitation x invitationBytes now' = Ok t →
  parse_public x (DeploymentSignerPublicPEM (Invitation t)) = Some (ed_public (inv_ed x) signer) →
  signCourierRegistration x invitationBytes (inv_Exchange (Invitation t)) operator signer now = Ok encoded →
  let target := inv_Exchange (Invitation t) in
  ParseCourierRegistration x encoded now' = Ok {|
    cr_endpoint := Endpoint target; cr_mailboxID := tx_MailboxID target;
    cr_expires := unix_instant (inv_ExpiresUnix (Invitation t)); cr_requestWrite := RequestWriteCapability target;
    cr_requestRead := RequestReadCapability operator; cr_responseWrite := ResponseWriteCapability operator;
    cr_responseRead := ResponseReadCapability target |}.
Proof.
  intros Hl Hgen Hwf Ht Hpub. destruct (Hl) as [He _ _ Hreg]. unfold signCourierRegistration.
  destruct (parseTentativeInvitation x invitationBytes now) as [t'|] eqn:Et; [|done]. cbn [mbind result_bind].
  assert (t' = t) as -> by by eapply parse_same. case_guard G; [done|].
  destruct (validateAgainst x _ _ _) as [[]|] eqn:Ea; [|done]. cbn [mbind result_bind].
  destruct (Sign _ _ _ _) as [sig|] eqn:Es; [|done]. case_guard G1; [done|]. intros <-%Ok_inj. bool_prop.
  pose proof (Verify_Sign _ _ _ _ _ He Hgen Es) as Hver. pose proof (Sign_size _ _ _ _ _ He Es) as Hlen.
  destruct (validateAgainst_valid _ _ _ Ea) as [Hv1 Hv2]. apply validateAgainst_ok in Ea as (_ & Hcm & Hdd).
  pose proof (parseTentativeInvitation_ok _ _ _ Ht) as (_ & Hsha & Hsize & _ & k & _ & _ & Hid & _).
  unfold ParseCourierRegistration. rewrite sealed_size by (by apply Z.ltb_ge).
  rewrite sealed_envelope_read; [|exact Hl|by apply plain_const|rewrite Hid; apply KeyID_valid].
  cbn [env_Schema env_Payload env_Signature env_SignerKeyID]. unfold seal_envelope.
  rewrite !(bool_decide_eq_true_2 (_ = _)) by done. rewrite !decodeCanonicalBase64_encode, Hreg by by apply (registration_valid t). cbn [negb orb].
  rewrite !(bool_decide_eq_true_2 (_ = _)) by done. cbn [negb orb crp_Invitation]. unfold decodeSessionBytes.
  rewrite decodeCanonicalBase64_encode, Hsize, Ht. cbn [mbind result_bind]. rewrite Hpub, Hlen, Nat.eqb_refl, Hver.
  cbn [negb orb is_ok]. unfold registration_matches.
  cbn [crp_InvitationSHA256 crp_Endpoint crp_MailboxID crp_ExpiresUnix crp_RequestWrite crp_RequestRead crp_ResponseWrite crp_ResponseRead].
  rewrite Z.eqb_refl, Hcm, Hdd, !(bool_decide_eq_true_2 (_ = _)) by done. done.
Qed.
End Env.

(** ** Properties *)

(** C29. A courier registration creates its mailbox: when the relay parses a registration,
    its values are those of a signed invitation that is valid now, the operator's two
    capabilities open the commitments in that invitation, and [Create] with these values
    succeeds on any store that lacks the mailbox and has room, as long as the expiry is
    within the mailbox lifetime: every other check of [Create] is already established. *)
Theorem registration_creates (x : invitation_env) (encoded : list byte) (now : Z) (r : CourierRegistration) :
  ParseCourierRegistration x encoded now = Ok r →
  (∃ invitationBytes t, parseTentativeInvitation x invitationBytes now = Ok t
     ∧ cr_mailboxID r = tx_MailboxID (inv_Exchange (Invitation t))
     ∧ mailboxCapabilityCommitment (cr_mailboxID r) request_read (cr_requestRead r)
       = RequestReadCapabilityCommitment (inv_Exchange (Invitation t))
     ∧ mailboxCapabilityCommitment (cr_mailboxID r) response_write (cr_responseWrite r)
       = ResponseWriteCapabilityCommitment (inv_Exchange (Invitation t)))
  ∧ ∀ s, live now (slots s) !! cr_mailboxID r = None → Z.of_nat (size (live now (slots s))) < MaxMailboxSlots →
      cr_expires r <= now + MaxMailboxLifetime →
      (Create (cr_mailboxID r) (cr_requestWrite r) (cr_requestRead r) (cr_responseWrite r) (cr_responseRead r)
         (cr_expires r) now s).2 = Ok [].
Proof.
  intros Hp. apply ParseCourierRegistration_ok in Hp as (b & t & Ht & Hep & Hid & Hexp & Hrw & Hrr & Hcm & Hdd).
  split.
  - exists b, t. unfold commitments_match in Hcm. bool_prop. done.
  - intros s Hl Hn Hlife. apply parseTentativeInvitation_ok in Ht as (_ & _ & _ & Hv & _).
    apply invitation_validate_ok in Hv as [Hx Hnow]. apply exchange_validate_ok in Hx as [(i & Hi & Hz)%nonzero_id_spec _].
    unfold Create. rewrite Hid, Hi. unfold ParseID, ID_String. rewrite (proj2 (parseID_spec _ i) eq_refl).
    rewrite bool_decide_eq_false_2, Hdd by done. cbn [negb].
    rewrite Hexp in *. replace (now <? _) with true by (symmetry; by apply Z.ltb_lt).
    replace (now + MaxMailboxLifetime <? _) with false by (symmetry; apply Z.ltb_ge; lia). cbn [negb orb].
    unfold expireLocked. cbn [slots]. rewrite Hid, Hi in Hl. unfold ID_String in Hl. rewrite Hl.
    by replace (MaxMailboxSlots <=? _) with false by (symmetry; by apply Z.leb_gt).
Qed.

(** From the signed invitation to the relay: the operator signs an invitation, then a
    registration of its exchange with its own capabilities; the relay parses the registration
    back to exactly the values of the two, at any instant at which the invitation is valid,
    under the documented laws of Ed25519 and strict JSON. *)
Theorem registration_roundtrip (x : invitation_env) (inv : invitation) (operator : operatorExchange)
    (signer invitationBytes encoded : list byte) (now0 now now' : Z) :
  env_law x → generated (inv_ed x) signer → invitation_wf inv → signInvitation x inv signer now0 = Ok invitationBytes → invitation_validate x inv now' = Ok () →
  signCourierRegistration x invitationBytes (inv_Exchange inv) operator signer now = Ok encoded →
  ParseCourierRegistration x encoded now' = Ok {|
    cr_endpoint := Endpoint (inv_Exchange inv); cr_mailboxID := tx_MailboxID (inv_Exchange inv);
    cr_expires := unix_instant (inv_ExpiresUnix inv); cr_requestWrite := RequestWriteCapability (inv_Exchange inv);
    cr_requestRead := RequestReadCapability operator; cr_responseWrite := ResponseWriteCapability operator;
    cr_responseRead := ResponseReadCapability (inv_Exchange inv) |}.
Proof.
  intros Hlaw Hgen Hwf Hsign Hvalid. pose proof (sign_parse_invitation x inv signer invitationBytes now0 now' Hlaw Hgen Hwf Hsign Hvalid) as Ht.
  assert (parse_public x (DeploymentSignerPublicPEM inv) = Some (ed_public (inv_ed x) signer)) as Hpub by by eapply sign_signer.
  set (t := {| Invitation := inv; Encoded := invitationBytes; inv_SHA256 := _ |}) in *. intros Hreg.
  by apply (sign_parse_registration x invitationBytes t operator signer encoded now now').
Qed.

(** ** A concrete invitation, under toy codecs *)

Definition role_text (r : Role) : text :=
  match r with RoleClient => [Byte.x01] | RoleConnector => [Byte.x02] | RoleRelay => [Byte.x03] | OtherRole n => Byte.x04 :: n end.
Definition text_role (t : text) : Role :=
  match t with
  | [Byte.x01] => RoleClient | [Byte.x02] => RoleConnector | [Byte.x03] => RoleRelay | Byte.x04 :: n => OtherRole n
  | _ => RoleRelay
  end.
Lemma text_role_text r : text_role (role_text r) = r.
Proof. by destruct r. Qed.

Definition invitation_texts (i : invitation) : list text :=
  let r := inv_Runtime i in let e := inv_Exchange i in
  [inv_Schema i; InvitationID i; enc_Z (inv_CreatedUnix i); enc_Z (inv_ExpiresUnix i); enc_Z (MinimumLifecycle i);
   role_text (inv_Role i); inv_RouteID i; inv_ConnectorInstallationID i;
   ReleaseID r; enc_Z (ReleaseSequence r); ArtifactSHA256 r; OS r; Arch r; role_text (RuntimeRole r); RuntimeProtocol r;
   enc_Z (LifecycleGeneration r); ConnectorTarget r;
   trust_RelayAdmissionCA (inv_Trust i); trust_InnerClientCA (inv_Trust i); trust_InnerConnectorCA (inv_Trust i);
   RelayAdmissionCA (inv_IssuerPins i); InnerClientCA (inv_IssuerPins i); InnerConnectorCA (inv_IssuerPins i);
   DeploymentSignerPublicPEM i; inv_DeploymentSignerKeyID i;
   Endpoint e; tx_MailboxID e; RequestWriteCapability e; ResponseReadCapability e; RequestReadCapabilityCommitment e;
   ResponseWriteCapabilityCommitment e; RequestEncryptionRecipient i].
Definition texts_invitation (l : list text) : option invitation :=
  match l with
  | [a1; a2; a3; a4; a5; a6; a7; a8; b1; b2; b3; b4; b5; b6; b7; b8; b9; c1; c2; c3; d1; d2; d3; e1; e2; f1; f2; f3; f4; f5; f6; g] =>
      Some {| inv_Schema := a1; InvitationID := a2; inv_CreatedUnix := dec_Z a3; inv_ExpiresUnix := dec_Z a4;
        MinimumLifecycle := dec_Z a5; inv_Role := text_role a6; inv_RouteID := a7; inv_ConnectorInstallationID := a8;
        inv_Runtime := {| ReleaseID := b1; ReleaseSequence := dec_Z b2; ArtifactSHA256 := b3; OS := b4; Arch := b5;
          RuntimeRole := text_role b6; RuntimeProtocol := b7; LifecycleGeneration := dec_Z b8; ConnectorTarget := b9 |};
        inv_Trust := {| trust_RelayAdmissionCA := c1; trust_InnerClientCA := c2; trust_InnerConnectorCA := c3 |};
        inv_IssuerPins := {| RelayAdmissionCA := d1; InnerClientCA := d2; InnerConnectorCA := d3 |};
        DeploymentSignerPublicPEM := e1; inv_DeploymentSignerKeyID := e2;
        inv_Exchange := {| Endpoint := f1; tx_MailboxID := f2; RequestWriteCapability := f3; ResponseReadCapability := f4;
          RequestReadCapabilityCommitment := f5; ResponseWriteCapabilityCommitment := f6 |};
        RequestEncryptionRecipient := g |}
  | _ => None
  end.
Lemma texts_invitation_texts i : texts_invitation (invitation_texts i) = Some i.
Proof.
  destruct i as [? ? ? ? ? ? ? ? [] [] [] ? ? [] ?]. unfold invitation_texts, texts_invitation. cbv zeta.
  cbn.
  by rewrite !dec_enc_Z, !text_role_text.
Qed.

Definition demo_env : invitation_env := {|
  decode_envelope_json := λ l, match dec_texts 4 l with
    | Some [a; b; c; d] => Some {| env_Schema := a; env_SignerKeyID := b; env_Payload := c; env_Signature := d |} | _ => None end;
  encode_envelope_json := λ e, enc_texts [env_Schema e; env_SignerKeyID e; env_Payload e; env_Signature e];
  decode_invitation := λ l, l ← dec_texts 32 l; texts_invitation l;
  encode_invitation := λ i, enc_texts (invitation_texts i);
  decode_registration := λ l, match dec_texts 10 l with
    | Some [a; b; c; d; e; f; g; h; i; j] => Some {| crp_Schema := a; crp_Invitation := b; crp_InvitationSHA256 := c;
        crp_Endpoint := d; crp_MailboxID := e; crp_ExpiresUnix := dec_Z f; crp_RequestWrite := g; crp_RequestRead := h;
        crp_ResponseWrite := i; crp_ResponseRead := j |} | _ => None end;
  encode_registration := λ r, enc_texts [crp_Schema r; crp_Invitation r; crp_InvitationSHA256 r; crp_Endpoint r;
    crp_MailboxID r; enc_Z (crp_ExpiresUnix r); crp_RequestWrite r; crp_RequestRead r; crp_ResponseWrite r; crp_ResponseRead r];
  parse_public := Some;
  authorities := λ _ _ _, Some (rq_IssuerPins demo_request);
  parse_url := λ t, Some {| Scheme := ascii_bytes "wss"; Host := ascii_bytes "a.org"; Hostname := ascii_bytes "a.org"; Port := [];
    has_User := false; RawQuery := []; Fragment := []; ForceQuery := false; Opaque_part := []; RawPath := []; Path := ascii_bytes "/x";
    url_String := t |};
  path_clean := λ t, t;
  is_address := λ _, false;
  age_recipient := Some;
  age_identity := λ t, Some (t, t);
  inv_ed := demo_ed |}.
Lemma demo_env_law : env_law demo_env.
Proof.
  split; [exact demo_ed_law| | |].
  - intros [a b c d] _. unfold demo_env. cbn [decode_envelope_json encode_envelope_json env_Schema env_SignerKeyID env_Payload env_Signature].
    by rewrite (dec_enc_texts [a; b; c; d]).
  - intros i _. unfold demo_env. cbn [decode_invitation encode_invitation].
    rewrite <-(app_nil_r (enc_texts _)), (dec_enc_texts (invitation_texts i)). cbn [mbind option_bind]. apply texts_invitation_texts.
  - intros [a b c d e f g h i j] _. unfold demo_env. cbn [decode_registration encode_registration crp_Schema crp_Invitation
      crp_InvitationSHA256 crp_Endpoint crp_MailboxID crp_ExpiresUnix crp_RequestWrite crp_RequestRead crp_ResponseWrite crp_ResponseRead].
    rewrite <-(app_nil_r (enc_texts _)), (dec_enc_texts [a; b; c; d; e; enc_Z f; g; h; i; j]). by rewrite dec_enc_Z.
Qed.

Definition demo_exchange : targetExchange := {|
  Endpoint := ascii_bytes "wss://a.org/x"; tx_MailboxID := demo_mailbox; RequestWriteCapability := demo_cap 1;
  ResponseReadCapability := demo_cap 4;
  RequestReadCapabilityCommitment := mailboxCapabilityCommitment demo_mailbox request_read (demo_cap 2);
  ResponseWriteCapabilityCommitment := mailboxCapabilityCommitment demo_mailbox response_write (demo_cap 3) |}.
Definition demo_operator : operatorExchange := {|
  ox_MailboxID := demo_mailbox; RequestReadCapability := demo_cap 2; ResponseWriteCapability := demo_cap 3;
  RequestDecryptionIdentity := ascii_bytes "age1" |}.
Definition demo_public : list byte := replicate 32 Byte.x05.
Definition demo_invitation : invitation := {|
  inv_Schema := invitationSchema; InvitationID := ID_String demo_session; inv_CreatedUnix := 1000; inv_ExpiresUnix := 2000;
  MinimumLifecycle := 1; inv_Role := RoleRelay; inv_RouteID := []; inv_ConnectorInstallationID := [];
  inv_Runtime := demo_runtime; inv_Trust := {| trust_RelayAdmissionCA := []; trust_InnerClientCA := []; trust_InnerConnectorCA := [] |};
  inv_IssuerPins := rq_IssuerPins demo_request; DeploymentSignerPublicPEM := demo_public;
  inv_DeploymentSignerKeyID := KeyID demo_public; inv_Exchange := demo_exchange; RequestEncryptionRecipient := ascii_bytes "age1" |}.
Definition ok_or_nil {E} (r : result E (list byte)) : list byte := match r with Ok l => l | Err _ => [] end.
Definition demo_invitation_bytes : list byte :=
  ok_or_nil (signInvitation demo_env demo_invitation demo_key (1500 * Second)).
Definition demo_registration_bytes : list byte :=
  ok_or_nil (signCourierRegistration demo_env demo_invitation_bytes demo_exchange demo_operator demo_key (1500 * Second)).

Definition demo_registration : CourierRegistration := {|
  cr_endpoint := Endpoint demo_exchange; cr_mailboxID := demo_mailbox; cr_expires := 2000 * Second;
  cr_requestWrite := demo_cap 1; cr_requestRead := demo_cap 2; cr_responseWrite := demo_cap 3; cr_responseRead := demo_cap 4 |}.
(** Deciding well-formed texts by evaluation. *)
Lemma valid_texts_forallb l : forallb ValidString l = true → valid_texts l.
Proof. intros H. apply Forall_forall. intros t Ht. apply Is_true_true. exact (proj1 (forallb_forall _ _) H t Ht). Qed.
Lemma demo_exchange_wf : exchange_wf demo_exchange.
Proof. apply valid_texts_forallb. vm_compute. reflexivity. Qed.
Lemma demo_runtime_wf : runtime_wf demo_runtime.
Proof. split; [apply valid_texts_forallb; vm_compute; reflexivity|]. by vm_compute. Qed.
Lemma demo_pins_wf : pins_wf (rq_IssuerPins demo_request).
Proof. apply valid_texts_forallb. vm_compute. reflexivity. Qed.
Lemma demo_invitation_wf : invitation_wf demo_invitation.
Proof.
  split; [apply valid_texts_forallb; vm_compute; reflexivity|by vm_compute|exact I|exact demo_runtime_wf
    |apply valid_texts_forallb; vm_compute; reflexivity|exact demo_pins_wf|exact demo_exchange_wf].
Qed.
Lemma registration_roundtrip_witness :
  ParseCourierRegistration demo_env demo_registration_bytes (1600 * Second) = Ok demo_registration.
Proof.
  apply (registration_roundtrip demo_env demo_invitation demo_operator demo_key demo_invitation_bytes
    demo_registration_bytes (1500 * Second) (1500 * Second) (1600 * Second) demo_env_law (demo_generated Byte.x05) demo_invitation_wf);
    vm_compute; reflexivity.
Defined.
Lemma registration_creates_witness :
  let r := demo_registration in
  (Create (cr_mailboxID r) (cr_requestWrite r) (cr_requestRead r) (cr_responseWrite r) (cr_responseRead r)
     (cr_expires r) (1600 * Second) NewMailboxStore).2 = Ok [].
Proof.
  refine (proj2 (registration_creates demo_env demo_registration_bytes (1600 * Second) demo_registration _)
    NewMailboxStore _ _ _); vm_compute; [reflexivity|reflexivity|reflexivity|discriminate].
Defined.
