(* ===== verification/Exchange.v ===== *)
(** * The enrollment exchange: wire and relay endpoint

    [internal/enrollmentexchange/exchange_wire.go], [exchange_handler.go] and the
    exchange of [courier.go]: one bounded request message, one mailbox operation, one
    bounded response message. HTTP and WebSocket upgrades are verdicts. *)

From S2P Require Import Prelude GoIO Text Sha256 Protocol Identifiers Base64 Mailbox Invitation.

(** ** The wire: [exchange_wire.go] *)

Definition exchangeWireVersion : byte := Byte.x01.
Definition exchangeRequestHeaderSize : nat := 4 + 1 + 1 + 2 + 4 + IDSize + mailboxCapabilitySize.
Definition exchangeResponseHeaderSize : nat := 4 + 1 + 1 + 2 + 4.
Definition MaxExchangeWireMessage : Z := Z.of_nat exchangeRequestHeaderSize + MaxBoundResponseSize.
Definition exchangeWireMagic : list byte := ascii_bytes "OTEX".

Definition actionCreateMailbox : byte := Byte.x01.
Definition actionPutRequest : byte := Byte.x02.
Definition actionReadRequest : byte := Byte.x03.
Definition actionPutResponse : byte := Byte.x04.
Definition actionReadResponse : byte := Byte.x05.
Definition actionConsumeMailbox : byte := Byte.x06.

Record exchangeRequest := ExchangeRequest {
  xaction : byte;
  mailboxID : text;
  capability : text;
  payload : list byte }.
#[export] Instance exchangeRequest_eq_dec : EqDecision exchangeRequest.
Proof. solve_decision. Defined.

Definition validExchangePayload (action : byte) (payload : list byte) : bool :=
  let n := Z.of_nat (length payload) in
  if bool_decide (action = actionCreateMailbox) then (0 <? n) && (n <=? MaxCourierRegistrationSize)
  else if bool_decide (action = actionPutRequest) then (0 <? n) && (n <=? MaxEncryptedRequestSize)
  else if bool_decide (action ∈ [actionReadRequest; actionReadResponse; actionConsumeMailbox]) then n =? 0
  else if bool_decide (action = actionPutResponse) then (0 <? n) && (n <=? MaxBoundResponseSize)
  else false.

Definition encodeExchangeRequest (action : byte) (mailboxID capability : text) (payload : list byte)
    : result mailbox_err (list byte) :=
  match ParseID mailboxID with
  | Err _ => Err ErrMailboxUnavailable
  | Ok id =>
      reject bool_decide (id = arr_zero IDSize) with ErrMailboxUnavailable;;
      decodedCapability ← parseMailboxCapability capability;
      reject negb (validExchangePayload action payload) with ErrMailboxUnavailable;;
      Ok (exchangeWireMagic ++ [exchangeWireVersion; action; Byte.x00; Byte.x00]
            ++ be_put 4 (Z.of_nat (length payload)) ++ arr_bytes id ++ decodedCapability ++ payload)
  end.

Definition parseExchangeRequest (encoded : list byte) : result mailbox_err exchangeRequest :=
  reject (length encoded <? exchangeRequestHeaderSize)%nat || (MaxExchangeWireMessage <? Z.of_nat (length encoded))
      || negb (bool_decide (slice 0 4 encoded = exchangeWireMagic))
      || negb (bool_decide (byte_at encoded 4 = exchangeWireVersion))
      || negb (bool_decide (byte_at encoded 6 = Byte.x00)) || negb (bool_decide (byte_at encoded 7 = Byte.x00))
    with ErrMailboxUnavailable;;
  let action := byte_at encoded 5 in
  let payloadSize := be_get (slice 8 4 encoded) in
  reject negb (payloadSize =? Z.of_nat (length encoded) - Z.of_nat exchangeRequestHeaderSize)
    with ErrMailboxUnavailable;;
  let id : ID := arr_copy IDSize (slice 12 IDSize encoded) in
  reject bool_decide (id = arr_zero IDSize) with ErrMailboxUnavailable;;
  let capability := RawURLEncode (slice (12 + IDSize) mailboxCapabilitySize encoded) in
  let payload := drop exchangeRequestHeaderSize encoded in
  reject negb (validExchangePayload action payload) with ErrMailboxUnavailable;;
  Ok (ExchangeRequest action (ID_String id) capability payload).

Inductive response_err := InvalidResponse.
Definition encodeExchangeResponse (payload : list byte) (success : bool) : result response_err (list byte) :=
  reject (MaxBoundResponseSize <? Z.of_nat (length payload)) || negb success && negb (length payload =? 0)%nat
    with InvalidResponse;;
  Ok (exchangeWireMagic ++ [exchangeWireVersion; if success then Byte.x00 else Byte.x01; Byte.x00; Byte.x00]
        ++ be_put 4 (Z.of_nat (length payload)) ++ payload).

Definition parseExchangeResponse (encoded : list byte) : result mailbox_err (list byte) :=
  reject (length encoded <? exchangeResponseHeaderSize)%nat
      || (Z.of_nat exchangeResponseHeaderSize + MaxBoundResponseSize <? Z.of_nat (length encoded))
      || negb (bool_decide (slice 0 4 encoded = exchangeWireMagic))
      || negb (bool_decide (byte_at encoded 4 = exchangeWireVersion))
      || negb (bool_decide (byte_at encoded 6 = Byte.x00)) || negb (bool_decide (byte_at encoded 7 = Byte.x00))
      || negb (be_get (slice 8 4 encoded) =? Z.of_nat (length encoded) - Z.of_nat exchangeResponseHeaderSize)
    with ErrMailboxUnavailable;;
  reject negb (bool_decide (byte_at encoded 5 = Byte.x00)) with ErrMailboxUnavailable;;
  Ok (drop exchangeResponseHeaderSize encoded).

(** ** The relay endpoint: [exchange_handler.go] *)

Definition MaxExchangeConnections : Z := 16.
Definition allocationCapabilityDomain : list byte :=
  ascii_bytes "OwnTransit enrollment mailbox allocation capability v1" ++ [NUL].

Definition AllocationCapabilitySHA256 (capability : text) : result mailbox_err text :=
  decoded ← parseMailboxCapability capability;
  Ok (hex_encode (Sum256 (allocationCapabilityDomain ++ decoded))).

Inductive handler_err := HashRequired | HashNotCanonical.
(** The allocation hash that [NewExchangeHandler] keeps. *)
Definition NewExchangeHandler (allocationCapabilitySHA256 : text) : result handler_err (arr Size) :=
  reject bool_decide (allocationCapabilitySHA256 = [])
      || negb (bool_decide (allocationCapabilitySHA256 = to_lower <$> allocationCapabilitySHA256))
    with HashRequired;;
  match hex_decode allocationCapabilitySHA256 with
  | None => Err HashNotCanonical
  | Some decoded =>
      reject negb (length decoded =? Size)%nat with HashNotCanonical;;
      Ok (arr_copy Size decoded)
  end.

Definition perform (x : invitation_env) (allocationHash : arr Size) (request : exchangeRequest) (now : Z) (s : MailboxStore) : MailboxStore * result mailbox_err (list byte) :=
  let a := xaction request in
  if bool_decide (a = actionCreateMailbox) then
    match AllocationCapabilitySHA256 (capability request) with
    | Err _ => (s, Err ErrMailboxUnavailable)
    | Ok actual =>
        let decoded := default [] (hex_decode actual) in
        if negb (bool_decide (decoded = arr_bytes allocationHash)) then (s, Err ErrMailboxUnavailable)
        else match ParseCourierRegistration x (payload request) now with
             | Err _ => (s, Err ErrMailboxUnavailable)
             | Ok r =>
                 if negb (bool_decide (cr_mailboxID r = mailboxID request)) then (s, Err ErrMailboxUnavailable)
                 else Create (cr_mailboxID r) (cr_requestWrite r) (cr_requestRead r) (cr_responseWrite r)
                        (cr_responseRead r) (cr_expires r) now s
             end
    end
  else if bool_decide (a = actionPutRequest) then
    PutRequest (mailboxID request) (capability request) (payload request) now s
  else if bool_decide (a = actionReadRequest) then ReadRequest (mailboxID request) (capability request) now s
  else if bool_decide (a = actionPutResponse) then
    PutResponse (mailboxID request) (capability request) (payload request) now s
  else if bool_decide (a = actionReadResponse) then ReadResponse (mailboxID request) (capability request) now s
  else if bool_decide (a = actionConsumeMailbox) then Consume (mailboxID request) (capability request) now s
  else (s, Err ErrMailboxUnavailable).

(** What a connection ends with: an HTTP error, no message, or one response message. *)
Inductive served := NotFound | ServiceUnavailable | NoMessage | Responded (message : list byte).

(** The message [writeFailure] sends. *)
Definition failure_message : list byte :=
  match encodeExchangeResponse [] false with Ok encoded => encoded | Err _ => [] end.

(** The verdicts of one connection: the HTTP shape, the upgrade with its subprotocol, and
    the binary message read within the limit and the timeout. *)
Record connection := Connection {
  shape : bool;
  accepted : bool;
  message : option (list byte) }.

(** [Serve], with [busy] of the handler's slots taken; the slot is held for the call. *)
Definition Serve (x : invitation_env) (allocationHash : arr Size) (busy : Z) (c : connection)
    (now : Z) (s : MailboxStore) : MailboxStore * served :=
  if negb (shape c) then (s, NotFound)
  else if MaxExchangeConnections <=? busy then (s, ServiceUnavailable)
  else if negb (accepted c) then (s, NoMessage)
  else match message c with
  | None => (s, Responded failure_message)
  | Some encoded =>
      match parseExchangeRequest encoded with
      | Err _ => (s, Responded failure_message)
      | Ok requestValue =>
          match perform x allocationHash requestValue now s with
          | (s, Err _) => (s, Responded failure_message)
          | (s, Ok answer) =>
              match encodeExchangeResponse answer true with
              | Err _ => (s, NoMessage)
              | Ok response => (s, Responded response)
              end
          end
      end
  end.

(** ** The courier: the exchange of [courier.go] *)

(** One call against the endpoint, with a carrier that is up. *)
Definition exchange (x : invitation_env) (allocationHash : arr Size) (action : byte)
    (mailboxID capability : text) (payload : list byte) (busy now : Z) (s : MailboxStore)
    : MailboxStore * result mailbox_err (list byte) :=
  match encodeExchangeRequest action mailboxID capability payload with
  | Err _ => (s, Err ErrMailboxUnavailable)
  | Ok encoded =>
      match Serve x allocationHash busy (Connection true true (Some encoded)) now s with
      | (s, Responded response) => (s, parseExchangeResponse response)
      | (s, _) => (s, Err ErrMailboxUnavailable)
      end
  end.

Section Courier.
Context (x : invitation_env) (allocationHash : arr Size).
Definition courier_PutRequest (mailboxID capability : text) (opaque : list byte) :=
  exchange x allocationHash actionPutRequest mailboxID capability opaque.
Definition courier_ReadRequest (mailboxID capability : text) :=
  exchange x allocationHash actionReadRequest mailboxID capability [].
Definition courier_PutResponse (mailboxID capability : text) (opaque : list byte) :=
  exchange x allocationHash actionPutResponse mailboxID capability opaque.
Definition courier_ReadResponse (mailboxID capability : text) :=
  exchange x allocationHash actionReadResponse mailboxID capability [].
Definition courier_Consume (mailboxID capability : text) :=
  exchange x allocationHash actionConsumeMailbox mailboxID capability [].
(** [register], with the clock of the courier: the registration is also the payload. *)
Definition register (encodedRegistration : list byte) (allocationCapability : text) (courier_now busy now : Z)
    (s : MailboxStore) : MailboxStore * result mailbox_err (list byte) :=
  match ParseCourierRegistration x encodedRegistration courier_now with
  | Err _ => (s, Err ErrMailboxUnavailable)
  | Ok registration =>
      exchange x allocationHash actionCreateMailbox (cr_mailboxID registration) allocationCapability encodedRegistration busy now s
  end.
End Courier.
