(* ===== verification/ExchangeSafety.v ===== *)
(** * The enrollment exchange: codec, end-to-end calls

    The wire has one encoding per message, and a call of the courier over it is the
    mailbox operation it names. *)

From S2P Require Import Prelude GoIO Text Sha256 Protocol Identifiers Base64 Mailbox MailboxSafety Invitation InvitationSafety Exchange.

(** ** The codec *)

Lemma parseMailboxCapability_ok c d :
  parseMailboxCapability c = Ok d ↔ length d = mailboxCapabilitySize ∧ c = RawURLEncode d.
Proof.
  unfold parseMailboxCapability. split.
  - destruct (RawURLDecode c) as [k|]; [|done]. case_guard G; [done|]. intros ->%Ok_inj. bool_prop.
    match goal with H : (_ =? _)%nat = true |- _ => apply Nat.eqb_eq in H end. split; [done|].
    symmetry. by apply dec_stable.
  - intros [Hl ->]. rewrite RawURLDecode_Encode by done. rewrite Hl, Nat.eqb_refl. cbn.
    by rewrite bool_decide_eq_false_2 by (intros H; by apply H).
Qed.

Lemma payload_bound a p : validExchangePayload a p = true → Z.of_nat (length p) <= MaxBoundResponseSize.
Proof. unfold validExchangePayload. intros H. repeat case_match; try done; bool_prop; unfold MaxBoundResponseSize, MaxEnvelopeSize, MaxCourierRegistrationSize, MaxEncryptedRequestSize in *; lia. Qed.

(** The request and response messages share their first twelve bytes. *)
Definition message_of (b : byte) (body : list byte) (n : Z) : list byte :=
  exchangeWireMagic ++ [exchangeWireVersion; b; Byte.x00; Byte.x00] ++ be_put 4 n ++ body.
Lemma message_fields b body n :
  let e := message_of b body n in
  slice 0 4 e = exchangeWireMagic ∧ byte_at e 4 = exchangeWireVersion ∧ byte_at e 5 = b ∧ byte_at e 6 = Byte.x00
  ∧ byte_at e 7 = Byte.x00 ∧ slice 8 4 e = be_put 4 n ∧ drop 12 e = body ∧ length e = (12 + length body)%nat.
Proof.
  by repeat split.
Qed.
Lemma message_inv e :
  (12 <= length e)%nat → slice 0 4 e = exchangeWireMagic → byte_at e 4 = exchangeWireVersion →
  byte_at e 6 = Byte.x00 → byte_at e 7 = Byte.x00 →
  e = message_of (byte_at e 5) (drop 12 e) (be_get (slice 8 4 e)).
Proof.
  intros Hl Hm H4 H6 H7. unfold message_of. rewrite be_put_slice by lia.
  transitivity (slice 0 4 e ++ ([byte_at e 4] ++ [byte_at e 5] ++ [byte_at e 6] ++ [byte_at e 7]) ++ slice 8 4 e ++ drop 12 e);
    [|by rewrite Hm, H4, H6, H7].
  unfold byte_at.
  rewrite !nth_slice by lia. rewrite drop_slice_all, <-!app_assoc. symmetry. glue_slices.
Qed.

Lemma encode_parse_request a m c p e :
  encodeExchangeRequest a m c p = Ok e → parseExchangeRequest e = Ok (ExchangeRequest a m c p).
Proof.
  unfold encodeExchangeRequest. intros H. destruct (ParseID m) as [id|] eqn:Em; [|done].
  destruct (bool_decide (id = _)) eqn:Ez; [done|]. destruct (parseMailboxCapability c) as [d|] eqn:Ec; [|done].
  cbn [mbind result_bind] in H. destruct (validExchangePayload a p) eqn:Ep; [|done]. cbn [negb] in H.
  apply Ok_inj in H. apply parseMailboxCapability_ok in Ec as [Hd ->]. apply parseID_spec in Em as ->.
  pose proof (payload_bound _ _ Ep) as Hp.
  fold (message_of a (arr_bytes id ++ d ++ p) (Z.of_nat (length p))) in H.
  destruct (message_fields a (arr_bytes id ++ d ++ p) (Z.of_nat (length p))) as (F0 & F4 & F5 & F6 & F7 & F8 & Fb & Fl).
  rewrite H in *. rewrite !length_app, length_arr_bytes, Hd in Fl. clear H.
  assert (drop 76 e = p) as Hpay.
  { change 76%nat with (12 + (32 + 32))%nat. rewrite <-drop_drop, Fb, app_assoc.
    apply drop_app_length'. rewrite length_app, length_arr_bytes, Hd. done. }
  unfold parseExchangeRequest.
  change exchangeRequestHeaderSize with 76%nat in *. rewrite F0, F4, F6, F7, F8, Hpay, F5.
  change (slice 12 IDSize e) with (slice (12 + 0) IDSize e).
  change (slice (12 + IDSize) mailboxCapabilitySize e) with (slice (12 + 32) mailboxCapabilitySize e).
  rewrite <-!slice_drop, Fb.
  rewrite (slice_app_l 0 IDSize) by (rewrite length_arr_bytes; done).
  rewrite (slice_all _ IDSize) by apply length_arr_bytes. rewrite arr_copy_bytes, Ez, Ep.
  rewrite (slice_at (arr_bytes id) d p 32 mailboxCapabilitySize) by (done || apply length_arr_bytes).
  rewrite be_get_put, Z.mod_small by (change (256 ^ Z.of_nat 4) with (2 ^ 32); unfold MaxBoundResponseSize, MaxEnvelopeSize in *; lia).
  cbn [negb]. change (mailboxCapabilitySize) with 32%nat in *. unfold IDSize in *.
  replace (length e <? 76)%nat with false by (symmetry; apply Nat.ltb_ge; lia).
  unfold MaxExchangeWireMessage. change exchangeRequestHeaderSize with 76%nat.
  replace (_ <? Z.of_nat (length e)) with false by (symmetry; apply Z.ltb_ge; lia).
  replace (_ =? _ - _) with true by (symmetry; apply Z.eqb_eq; lia).
  rewrite !bool_decide_eq_true_2 by done. done.
Qed.

Lemma parse_encode_request e r :
  parseExchangeRequest e = Ok r → encodeExchangeRequest (xaction r) (mailboxID r) (capability r) (payload r) = Ok e.
Proof.
  unfold parseExchangeRequest. case_guard G; [done|]. case_guard G1; [done|]. case_guard G2; [done|].
  case_guard G3; [done|]. intros <-%Ok_inj. bool_prop. cbn [xaction mailboxID capability payload].
  change exchangeRequestHeaderSize with 76%nat in *.
  match goal with H : (length e <? 76)%nat = false |- _ => apply Nat.ltb_ge in H end.
  unfold encodeExchangeRequest. set (id := arr_copy IDSize _) in *.
  assert (ParseID (ID_String id) = Ok id) as -> by by apply parseID_spec.
  rewrite bool_decide_eq_false_2 by done.
  rewrite (proj2 (parseMailboxCapability_ok _ (slice (12 + IDSize) mailboxCapabilitySize e)))
    by (split; [apply length_slice; unfold IDSize, mailboxCapabilitySize; lia|done]).
  cbn [mbind result_bind]. match goal with H : validExchangePayload _ _ = true |- _ => rewrite H end. cbn [negb]. f_equal.
  etrans; [|symmetry; apply message_inv; (done || lia)]. unfold message_of. do 2 f_equal. f_equal; [f_equal|].
  - rewrite length_drop. lia.
  - unfold id. rewrite arr_bytes_copy by (apply length_slice; unfold IDSize; lia).
    rewrite !drop_slice_all. unfold IDSize, mailboxCapabilitySize.
    rewrite !slice_glue by lia. f_equal. lia.
Qed.

Lemma parse_response_ok e p : parseExchangeResponse e = Ok p ↔ encodeExchangeResponse p true = Ok e.
Proof.
  unfold parseExchangeResponse, encodeExchangeResponse. change exchangeResponseHeaderSize with 12%nat. split.
  - case_guard G; [done|]. case_guard G1; [done|]. intros <-%Ok_inj. bool_prop.
    match goal with H : (length e <? 12)%nat = false |- _ => apply Nat.ltb_ge in H end.
    rewrite length_drop. change (negb true) with false. cbn [andb].
    replace (MaxBoundResponseSize <? Z.of_nat (length e - 12)) with false by (symmetry; apply Z.ltb_ge; lia). cbn [orb]. f_equal.
    etrans; [|symmetry; apply message_inv; (done || lia)]. unfold message_of. rewrite G1. do 3 f_equal. f_equal. lia.
  - case_guard G; [done|]. intros <-%Ok_inj. bool_prop. cbn [negb andb] in *.
    fold (message_of Byte.x00 p (Z.of_nat (length p))).
    destruct (message_fields Byte.x00 p (Z.of_nat (length p))) as (F0 & F4 & F5 & F6 & F7 & F8 & Fb & Fl).
    set (e := message_of _ _ _) in *.
    rewrite F0, F4, F6, F7, F8, F5, Fb, Fl, be_get_put.
    rewrite Z.mod_small by (change (256 ^ Z.of_nat 4) with (2 ^ 32); unfold MaxBoundResponseSize, MaxEnvelopeSize in *; lia).
    replace (12 + length p <? 12)%nat with false by (symmetry; apply Nat.ltb_ge; lia).
    replace (_ + _ <? _) with false by (symmetry; apply Z.ltb_ge; lia).
    replace (_ =? _ - _) with true by (symmetry; apply Z.eqb_eq; lia). done.
Qed.
Lemma parse_failure : parseExchangeResponse failure_message = Err ErrMailboxUnavailable.
Proof. by vm_compute. Qed.

(** ** Calls through the endpoint *)

(** The wire form of a call other than [Create]. *)
Definition wire_of (o : op) : option (byte * text * text * list byte) :=
  match o with
  | OCreate _ _ _ _ _ _ => None
  | OPutRequest id cap blob => Some (actionPutRequest, id, cap, blob)
  | OReadRequest id cap => Some (actionReadRequest, id, cap, [])
  | OPutResponse id cap blob => Some (actionPutResponse, id, cap, blob)
  | OReadResponse id cap => Some (actionReadResponse, id, cap, [])
  | OConsume id cap => Some (actionConsumeMailbox, id, cap, [])
  end.
Lemma perform_apply x h o a id cap p now s :
  wire_of o = Some (a, id, cap, p) → perform x h (ExchangeRequest a id cap p) now s = apply o now s.
Proof. by destruct o; intros [= <- <- <- <-]. Qed.

(** An answer fits a response. *)
Lemma answer_bound o now s b :
  store_ok s → (apply o now s).2 = Ok b → Z.of_nat (length b) <= MaxBoundResponseSize.
Proof.
  intros Hs. destruct (apply_spec now s Hs o) as [-> _]. destruct Hs as [_ Hm]. apply (live_ok now) in Hm.
  assert (∀ r : list byte, r = [] → Z.of_nat (length r) <= MaxBoundResponseSize) as H0 by by intros ? ->.
  assert (∀ id a cap, (spec_read id a cap (live now (slots s))).2 = Ok b → Z.of_nat (length b) <= MaxBoundResponseSize) as Hr.
  { intros id a cap. unfold spec_read. repeat (case_match; try done). intros <-%Ok_inj.
    match goal with H : _ !! id = Some ?x |- _ => destruct (mo_slot _ Hm _ _ H) as [S1 S2 S3] end.
    destruct a; cbn [source] in *; simplify_eq;
      match goal with H : _ = _ :: _ |- _ => rewrite <-H end;
      unfold MaxBoundResponseSize, MaxEnvelopeSize, MaxEncryptedRequestSize in *; lia. }
  destruct o; unfold spec, spec_put; try apply Hr; repeat (case_match; try done); intros <-%Ok_inj; by apply H0.
Qed.

Lemma exchange_apply x h o a id cap p busy now s :
  store_ok s → wire_of o = Some (a, id, cap, p) → is_ok (encodeExchangeRequest a id cap p) = true →
  busy < MaxExchangeConnections → exchange x h a id cap p busy now s = apply o now s.
Proof.
  intros Hs Hw Hok Hb. unfold exchange. destruct (encodeExchangeRequest a id cap p) as [e|] eqn:Ee; [|done].
  unfold Serve. cbn [shape accepted message negb].
  replace (_ <=? busy) with false by (symmetry; apply Z.leb_gt; lia).
  rewrite (encode_parse_request _ _ _ _ _ Ee), (perform_apply _ _ _ _ _ _ _ _ _ Hw).
  pose proof (answer_bound o now s) as Hlen. destruct (apply o now s) as [s' [b|[]]]; [|by rewrite parse_failure].
  specialize (Hlen b Hs eq_refl). destruct (encodeExchangeResponse b true) as [r|] eqn:Er.
  - by rewrite (proj2 (parse_response_ok r b) Er).
  - unfold encodeExchangeResponse in Er. replace (MaxBoundResponseSize <? _) with false in Er by (symmetry; by apply Z.ltb_ge).
    done.
Qed.

(** Only [Create] adds a mailbox. *)
Lemma spec_new o now m id :
  m !! id = None → (spec o now m).1 !! id ≠ None → ∃ a b c d t, o = OCreate id a b c d t.
Proof.
  intros Hn. assert (live now m !! id = None) as Hl.
  { destruct (live now m !! id) eqn:E; [|done]. apply live_lookup in E as [E _]. congruence. }
  unfold spec, spec_put, spec_read. destruct o as [id' a b c d t| | | | |];
    [|repeat (case_match; try done); cbn [fst];
      try (rewrite lookup_insert_ne by congruence); done..].
  destruct (decide (id' = id)) as [->|Hne]; [by exists a, b, c, d, t|].
  repeat (case_match; try done). cbn [fst]. by rewrite lookup_insert_ne.
Qed.
Lemma apply_new o now s id :
  store_ok s → slots s !! id = None → slots (apply o now s).1 !! id ≠ None → ∃ a b c d t, o = OCreate id a b c d t.
Proof.
  intros Hs Hn H. destruct (apply_spec now s Hs o) as [_ [E|[E _]]]; rewrite E in H; [|done].
  by apply (spec_new o now (slots s)).
Qed.

(** ** Properties *)

(** The request wire has one encoding: a message is accepted and read as a request if
    and only if it is the encoding of that request's fields, so every request the courier can
    encode is read back field by field, and no other message (another version, reserved
    bytes set, a wrong length, an oversized or missing payload, a zero mailbox identifier)
    is accepted. The same holds of successful responses. *)
Theorem exchange_wire_exact :
  (∀ encoded r, parseExchangeRequest encoded = Ok r
     ↔ encodeExchangeRequest (xaction r) (mailboxID r) (capability r) (payload r) = Ok encoded)
  ∧ (∀ encoded p, parseExchangeResponse encoded = Ok p ↔ encodeExchangeResponse p true = Ok encoded).
Proof.
  split; [|exact parse_response_ok]. intros encoded [a m c p]. split; [apply parse_encode_request|apply encode_parse_request].
Qed.

(** C17. A courier call is the mailbox operation it names: for every state the store can
    reach, and every call but [Create] whose fields can be encoded, the exchange over the
    wire (encode, serve, parse) has the answer and the effect of that operation on the
    store, when the endpoint has a free slot and the connection carries the two messages. *)
Theorem exchange_end_to_end (x : invitation_env) (calls : list (Z * op)) (h : arr Size) (o : op) (a : byte) (id cap : text) (p : list byte)
    (busy now : Z) :
  let s := (run calls NewMailboxStore).1 in
  wire_of o = Some (a, id, cap, p) → is_ok (encodeExchangeRequest a id cap p) = true → busy < MaxExchangeConnections →
  exchange x h a id cap p busy now s = apply o now s.
Proof. intros s. apply exchange_apply, run_ok, new_ok. Qed.

Lemma exchange_end_to_end_witness :
  (courier_ReadRequest demo_env (arr_zero Size) demo_mailbox (demo_cap 2) 3 2
     (run [(0, demo_create); (1, OPutRequest demo_mailbox (demo_cap 1) [Byte.x07])] NewMailboxStore).1).2 = Ok [Byte.x07].
Proof.
  unfold courier_ReadRequest.
  rewrite (exchange_end_to_end demo_env [(0, demo_create); (1, OPutRequest demo_mailbox (demo_cap 1) [Byte.x07])]
    (arr_zero Size) (OReadRequest demo_mailbox (demo_cap 2)) actionReadRequest demo_mailbox (demo_cap 2) [] 3 2).
  - vm_compute. reflexivity.
  - reflexivity.
  - vm_compute. reflexivity.
  - reflexivity.
Defined.

(** C28. Allocation is gated: a connection adds a mailbox to a store only by a well-formed
    create request whose capability has the hash the relay was configured with, and only the
    mailbox that the verified registration and the request both name. *)
Theorem allocation_gated (x : invitation_env) (calls : list (Z * op)) (h : arr Size) (busy now : Z)
    (c : connection) (id : text) :
  let s := (run calls NewMailboxStore).1 in
  slots s !! id = None → slots (Serve x h busy c now s).1 !! id ≠ None →
  ∃ encoded r d g, message c = Some encoded ∧ parseExchangeRequest encoded = Ok r ∧ xaction r = actionCreateMailbox
    ∧ parseMailboxCapability (capability r) = Ok d ∧ Sum256 (allocationCapabilityDomain ++ d) = arr_bytes h
    ∧ ParseCourierRegistration x (payload r) now = Ok g ∧ cr_mailboxID g = id ∧ mailboxID r = id.
Proof.
  intros s Hn. pose proof (run_ok calls _ new_ok : store_ok s) as Hs. clearbody s. unfold Serve.
  case_guard G1; [done|]. case_guard G2; [done|]. case_guard G3; [done|].
  destruct (message c) as [e|] eqn:Em; [|done]. destruct (parseExchangeRequest e) as [r|] eqn:Er; [|done].
  intros H. assert (slots (perform x h r now s).1 !! id ≠ None) as Hp.
  { destruct (perform x h r now s) as [s' [b|]]; [|done]. by destruct (encodeExchangeResponse b true). }
  clear H. unfold perform in Hp. destruct (bool_decide (xaction r = actionCreateMailbox)) eqn:Ea.
  - unfold AllocationCapabilitySHA256 in Hp. destruct (parseMailboxCapability (capability r)) as [d|] eqn:Ec; [|done].
    cbn [mbind result_bind] in Hp. rewrite hex_decode_encode in Hp. cbn [default] in Hp.
    destruct (negb _) eqn:Eh in Hp; [done|]. destruct (ParseCourierRegistration x _ now) as [g|] eqn:Eg; [|done].
    destruct (negb _) eqn:Ei in Hp; [done|]. bool_prop.
    destruct (apply_new (OCreate (cr_mailboxID g) (cr_requestWrite g) (cr_requestRead g) (cr_responseWrite g)
      (cr_responseRead g) (cr_expires g)) now s id Hs Hn Hp) as (x1 & x2 & x3 & x4 & t & [= Hid _ _ _ _ _]).
    exists e, r, d, g. repeat split; try done. congruence.
  - exfalso. repeat case_bool_decide; try done.
    + by destruct (apply_new (OPutRequest (mailboxID r) (capability r) (payload r)) now s id Hs Hn Hp) as (?&?&?&?&?&?).
    + by destruct (apply_new (OReadRequest (mailboxID r) (capability r)) now s id Hs Hn Hp) as (?&?&?&?&?&?).
    + by destruct (apply_new (OPutResponse (mailboxID r) (capability r) (payload r)) now s id Hs Hn Hp) as (?&?&?&?&?&?).
    + by destruct (apply_new (OReadResponse (mailboxID r) (capability r)) now s id Hs Hn Hp) as (?&?&?&?&?&?).
    + by destruct (apply_new (OConsume (mailboxID r) (capability r)) now s id Hs Hn Hp) as (?&?&?&?&?&?).
Qed.

(** A relay that knows the hash of [demo_cap 5], and a create request that presents it. *)
Definition demo_hash : arr Size := arr_copy Size (Sum256 (allocationCapabilityDomain ++ replicate 32 Byte.x05)).
Definition demo_create_message : list byte :=
  ok_or_nil (encodeExchangeRequest actionCreateMailbox demo_mailbox (demo_cap 5) demo_registration_bytes).

Lemma allocation_gated_witness :
  ∃ e r d, Some demo_create_message = Some e ∧ parseExchangeRequest e = Ok r
    ∧ parseMailboxCapability (capability r) = Ok d ∧ Sum256 (allocationCapabilityDomain ++ d) = arr_bytes demo_hash.
Proof.
  destruct (allocation_gated demo_env [] demo_hash 0 (1600 * Second)
    (Connection true true (Some demo_create_message)) demo_mailbox) as (e & r & d & g & He & Hr & _ & Hd & Hh & _).
  - vm_compute. reflexivity.
  - vm_compute. discriminate.
  - exists e, r, d. exact (conj He (conj Hr (conj Hd Hh))).
Defined.
