(* ===== verification/TargetSession.v ===== *)
(** * Enrollment sessions of the target

    [transcript.go], the sealing of [request_envelope.go], [session.go] and
    [response_binding.go] of [internal/enrollmentexchange]. A [session_env] adds to the
    parameters of invitations and requests the age encryption of a request and the JSON of
    the sessions, receipts and bound responses. *)

From S2P Require Import Prelude GoIO Text Runes Sha256 Base64 Protocol Identifiers Signing PairToken Phrase Mailbox EnrollRequest Invitation.

(** ** Data *)

Inductive SessionPhase :=
| PhasePendingComparison | PhaseTranscriptConfirmed | PhaseResponseVerified
| PhaseApplied | PhaseReady | PhaseCancelled | OtherPhase (name : text).
#[export] Instance SessionPhase_eq_dec : EqDecision SessionPhase.
Proof. solve_decision. Defined.
Inductive ConfirmationOutcome := OutcomeDeferred | OutcomeConfirmed | OutcomeCancelled.

Record boundResponsePayload := {
  brp_Schema : text;
  brp_InvitationSHA256 : text;
  brp_EncryptedRequestSHA256 : text;
  brp_TranscriptSHA256 : text;
  brp_ApprovedRequestSetSHA256 : text;
  brp_EnrollmentResponse : text }.

Record encodedTargetSession := {
  ets_Schema : text;
  ets_Generation : Z;
  ets_Phase : SessionPhase;
  ets_Invitation : text;
  ets_Request : text;
  ets_EncryptedRequest : text;
  ets_InvitationSHA256 : text;
  ets_RequestSHA256 : text;
  ets_EncryptedRequestSHA256 : text;
  ets_TranscriptSHA256 : text;
  ets_ConfirmedTranscriptSHA256 : text;
  ets_ResponseSHA256 : text;
  ets_BoundResponse : text }.

Record encodedOperatorSession := {
  eos_Schema : text;
  eos_Generation : Z;
  eos_Phase : SessionPhase;
  eos_OperatorReceipt : text;
  eos_EncryptedRequest : text;
  eos_TranscriptSHA256 : text;
  eos_ConfirmedTranscriptSHA256 : text }.

Record operatorReceiptPayload := {
  orp_Schema : text;
  orp_Invitation : text;
  orp_InvitationSHA256 : text;
  IntendedRecipient : text;
  IdentityContactReference : text;
  orp_MailboxID : text;
  orp_RequestReadCapability : text;
  orp_ResponseWriteCapability : text;
  orp_RequestDecryptionIdentity : text }.

Record session_env := {
  se_inv : invitation_env;
  se_req : externals;
  (** [age.Encrypt] to a recipient, with the randomness of the call. *)
  age_encrypt : list byte → text → list byte → option (list byte);
  (** [age.Decrypt] with an identity, and [io.ReadAll] of at most so many bytes. *)
  age_decrypt : text → list byte → Z → option (list byte);
  decode_bound : list byte → option boundResponsePayload;
  encode_bound : boundResponsePayload → list byte;
  decode_receipt : list byte → option operatorReceiptPayload;
  encode_receipt : operatorReceiptPayload → list byte;
  decode_target : list byte → option encodedTargetSession;
  encode_target : encodedTargetSession → list byte;
  decode_operator : list byte → option encodedOperatorSession;
  encode_operator : encodedOperatorSession → list byte }.

Record preparedTranscript := {
  pt_invitationSHA256 : arr Size;
  pt_requestSHA256 : arr Size;
  pt_encryptedRequestSHA256 : arr Size;
  pt_fullSHA256 : arr Size;
  pt_phrase : list text;
  pt_request : RequestPayload;
  pt_requestBytes : list byte;
  pt_encryptedRequestBytes : list byte }.

Record TargetSession := MkTarget {
  generation : Z;
  phase : SessionPhase;
  invitationBytes : list byte;
  requestBytes : list byte;
  encryptedRequestBytes : list byte;
  invitationSHA256 : arr Size;
  requestSHA256 : arr Size;
  encryptedRequestSHA256 : arr Size;
  transcriptSHA256 : arr Size;
  confirmedTranscriptSHA256 : arr Size;
  responseSHA256 : arr Size;
  boundResponseBytes : list byte;
  phrase : list text;
  session_invitation : invitation }.
#[export] Instance TargetSession_eta : Eta TargetSession := λ s,
  MkTarget (generation s) (phase s) (invitationBytes s) (requestBytes s) (encryptedRequestBytes s) (invitationSHA256 s)
    (requestSHA256 s) (encryptedRequestSHA256 s) (transcriptSHA256 s) (confirmedTranscriptSHA256 s) (responseSHA256 s)
    (boundResponseBytes s) (phrase s) (session_invitation s).

Inductive session_err :=
| SInvitation (e : invitation_err) | SRequest (e : enroll_err) | SPhrase (e : phrase_err) | SPadding (e : pad_err)
| SealSize | SealRecipient | SealFailed | OpenSize | OpenIdentity | OpenFailed
| BadGenerationOrPhase | SessionIncomplete | PendingHasAuthority | ConfirmedInconsistent | ActivatedUnbound
| CancelledHasAuthority | ConfirmationNotFull | SessionTooLarge | SessionSize | SessionDecode | SessionNotCanonical
| SessionField | SessionDigest | OptionalDigest | ResponseDigest
| WordsUnavailable | ActionUnavailable | TombstoneUnavailable | ComparisonNotPending | CancelApplied
| ConfirmationRequired | BoundSize | BoundEnvelope | BoundEncoding | BoundVerifier | BoundSigner | BoundSignature | BoundPayload
| BoundOther | BoundResponseInvalid | BindInputs | BindSigner | BindTooLarge | NoVerifiedResponse | AppliedDiffers
| ReadyRequiresApplied | ReconcileRequired | Cancelled | ProbeFailed
| ReceiptSize | ReceiptEnvelope | ReceiptEncoding | ReceiptPayload | ReceiptBinding | ReceiptReference | ReceiptSignature
| ReverseWordsHidden | SetRoleOrder | SetRuntime | SetCrossWired
| ReplacementGeneration | StaleGeneration | StoreUnavailable | RetireInputs | RetireCrossWired | OtherExchange.
#[export] Instance session_err_eq_dec : EqDecision session_err.
Proof. solve_decision. Defined.
(** [if err != nil { return err }] around another package's error. *)
Definition within {E F A} (f : E → F) (r : result E A) : result F A := match r with Ok a => Ok a | Err e => Err (f e) end.

Definition targetSessionSchema : text := ascii_bytes "owntransit.enrollment-target-session.v1".
Definition operatorSessionSchema : text := ascii_bytes "owntransit.enrollment-operator-session.v1".
Definition MaxSessionSize : Z := 8 * 2 ^ 20.
Definition boundResponseSchema : text := ascii_bytes "owntransit.enrollment-bound-response.v1".
Definition boundResponseEnvelopeSchema : text := ascii_bytes "owntransit.enrollment-bound-response-envelope.v1".
Definition boundResponseSignatureDomain : text := ascii_bytes "OwnTransit enrollment bound response v1".

Definition sha256 (l : list byte) : arr Size := arr_copy Size (Sum256 l).
Definition digest_hex (d : arr Size) : text := hex_encode (arr_bytes d).
Definition zero_digest (d : arr Size) : bool := bool_decide (d = arr_zero Size).

Section Env.
Context (x : session_env).

(** ** Sealing a request: [request_envelope.go] *)

Definition sealRequest (seed : list byte) (random : nat → option (list byte)) (request : list byte) (recipientText : text)
    (now : Z) : result session_err (list byte) :=
  reject out_of_bound MaxRequestSize request with SealSize;;
  _ ← within SRequest (ParseRequest (se_req x) request now);
  reject negb (bool_decide (age_recipient (se_inv x) recipientText = Some recipientText)) with SealRecipient;;
  plaintext ← within SPadding (padRequest random request);
  match age_encrypt x seed recipientText plaintext with
  | None => Err SealFailed
  | Some ciphertext =>
      reject out_of_bound MaxEncryptedRequestSize ciphertext with SealFailed;;
      Ok ciphertext
  end.

Definition maxPlaintext : Z := List.last requestPlaintextClasses 0.
Definition openRequest (ciphertext : list byte) (identityText : text) (now : Z)
    : result session_err (list byte * RequestPayload) :=
  reject out_of_bound MaxEncryptedRequestSize ciphertext with OpenSize;;
  reject negb (bool_decide (fst <$> age_identity (se_inv x) identityText = Some identityText)) with OpenIdentity;;
  match age_decrypt x identityText ciphertext (maxPlaintext + 1) with
  | None => Err OpenFailed
  | Some plaintext =>
      request ← within SPadding (unpadRequest plaintext);
      payload ← within SRequest (ParseRequest (se_req x) request now);
      Ok (request, payload)
  end.

(** ** [transcript.go] *)

Definition buildPreparedTranscript (invitation request encrypted : list byte) (payload : RequestPayload)
    : result session_err preparedTranscript :=
  fullDigest ← within SPhrase (transcriptDigest invitation request encrypted);
  phrase ← within SPhrase (phraseFromTranscriptDigest fullDigest);
  Ok {| pt_invitationSHA256 := sha256 invitation; pt_requestSHA256 := sha256 request;
        pt_encryptedRequestSHA256 := sha256 encrypted; pt_fullSHA256 := fullDigest; pt_phrase := phrase;
        pt_request := payload; pt_requestBytes := request; pt_encryptedRequestBytes := encrypted |}.

Definition prepareTargetTranscript (seed : list byte) (random : nat → option (list byte)) (t : tentativeInvitation)
    (request : list byte) (now : Z) : result session_err preparedTranscript :=
  inv ← within SInvitation (validateTentativeHandle (se_inv x) t now);
  payload ← within SRequest (ParseRequest (se_req x) request now);
  _ ← within SInvitation (bindRequestToInvitation inv payload);
  ciphertext ← sealRequest seed random request (RequestEncryptionRecipient inv) now;
  buildPreparedTranscript (Encoded t) request ciphertext payload.

Definition prepareOperatorTranscript (t : tentativeInvitation) (operator : operatorExchange) (encrypted : list byte)
    (now : Z) : result session_err preparedTranscript :=
  inv ← within SInvitation (validateTentativeHandle (se_inv x) t now);
  _ ← within SInvitation (validateAgainst (se_inv x) operator (inv_Exchange inv) (RequestEncryptionRecipient inv));
  '(request, payload) ← openRequest encrypted (RequestDecryptionIdentity operator) now;
  _ ← within SInvitation (bindRequestToInvitation inv payload);
  buildPreparedTranscript (Encoded t) request encrypted payload.

(** ** The target session: [session.go] *)

Definition validTargetPhase (p : SessionPhase) : bool := match p with OtherPhase _ => false | _ => true end.

Definition validateShape (s : TargetSession) : result session_err () :=
  reject (generation s =? 0) || negb (validTargetPhase (phase s)) || bool_decide (invitationBytes s = [])
      || bool_decide (requestBytes s = []) || bool_decide (encryptedRequestBytes s = []) with SessionIncomplete;;
  let confirmed := negb (zero_digest (confirmedTranscriptSHA256 s)) in
  let response := negb (zero_digest (responseSHA256 s)) in
  let retainedResponse := negb (bool_decide (boundResponseBytes s = [])) in
  _ ← match phase s with
      | PhasePendingComparison => reject confirmed || response || retainedResponse with PendingHasAuthority;; Ok ()
      | PhaseTranscriptConfirmed => reject negb confirmed || response || retainedResponse with ConfirmedInconsistent;; Ok ()
      | PhaseResponseVerified | PhaseApplied | PhaseReady =>
          reject negb confirmed || negb response || negb retainedResponse
              || negb (bool_decide (sha256 (boundResponseBytes s) = responseSHA256 s)) with ActivatedUnbound;; Ok ()
      | PhaseCancelled => reject confirmed || response || retainedResponse with CancelledHasAuthority;; Ok ()
      | OtherPhase _ => Ok ()
      end;
  reject confirmed && negb (bool_decide (confirmedTranscriptSHA256 s = transcriptSHA256 s)) with ConfirmationNotFull;;
  Ok ().

Definition targetSessionFromPrepared (inv : invitation) (invitationBytes : list byte) (prepared : preparedTranscript)
    (generation : Z) (phase : SessionPhase) (confirmed : arr Size) (boundResponse : list byte)
    : result session_err TargetSession :=
  reject (generation =? 0) || negb (validTargetPhase phase) with BadGenerationOrPhase;;
  let session := {| generation := generation; phase := phase; invitationBytes := invitationBytes;
    requestBytes := pt_requestBytes prepared; encryptedRequestBytes := pt_encryptedRequestBytes prepared;
    invitationSHA256 := pt_invitationSHA256 prepared; requestSHA256 := pt_requestSHA256 prepared;
    encryptedRequestSHA256 := pt_encryptedRequestSHA256 prepared; transcriptSHA256 := pt_fullSHA256 prepared;
    confirmedTranscriptSHA256 := confirmed;
    responseSHA256 := if bool_decide (boundResponse = []) then arr_zero Size else sha256 boundResponse;
    boundResponseBytes := boundResponse; phrase := pt_phrase prepared; session_invitation := inv |} in
  _ ← validateShape session;
  Ok session.

Definition NewTargetSession (seed : list byte) (random : nat → option (list byte)) (invitationBytes signedRequestBytes : list byte)
    (now : Z) : result session_err TargetSession :=
  tentative ← within SInvitation (parseTentativeInvitation (se_inv x) invitationBytes now);
  prepared ← prepareTargetTranscript seed random tentative signedRequestBytes now;
  targetSessionFromPrepared (Invitation tentative) (Encoded tentative) prepared 1 PhasePendingComparison (arr_zero Size) [].

Definition optional_hex (d : arr Size) : text := if zero_digest d then [] else digest_hex d.
Definition encoded_target (s : TargetSession) : encodedTargetSession := {|
  ets_Schema := targetSessionSchema; ets_Generation := generation s; ets_Phase := phase s;
  ets_Invitation := StdEncode (invitationBytes s); ets_Request := StdEncode (requestBytes s);
  ets_EncryptedRequest := StdEncode (encryptedRequestBytes s);
  ets_InvitationSHA256 := digest_hex (invitationSHA256 s); ets_RequestSHA256 := digest_hex (requestSHA256 s);
  ets_EncryptedRequestSHA256 := digest_hex (encryptedRequestSHA256 s); ets_TranscriptSHA256 := digest_hex (transcriptSHA256 s);
  ets_ConfirmedTranscriptSHA256 := optional_hex (confirmedTranscriptSHA256 s);
  ets_ResponseSHA256 := optional_hex (responseSHA256 s);
  ets_BoundResponse := if zero_digest (responseSHA256 s) then [] else StdEncode (boundResponseBytes s) |}.
Definition Encode (s : TargetSession) : result session_err (list byte) :=
  _ ← validateShape s;
  let encoded := encode_target x (encoded_target s) ++ [newline] in
  reject MaxSessionSize <? Z.of_nat (length encoded) with SessionTooLarge;;
  Ok encoded.

Definition decodeOptionalDigest (value : text) : result session_err (arr Size) :=
  if bool_decide (value = []) then Ok (arr_zero Size)
  else match hex_decode value with
       | None => Err OptionalDigest
       | Some decoded =>
           reject negb (length decoded =? Size)%nat || negb (bool_decide (hex_encode decoded = value)) with OptionalDigest;;
           Ok (arr_copy Size decoded)
       end.
Definition session_bytes (value : text) (limit : Z) : result session_err (list byte) :=
  match decodeSessionBytes value limit with Some decoded => Ok decoded | None => Err SessionField end.

(** ** The bound response: [response_binding.go] *)

Definition BindResponse (invitationSHA256 encryptedRequestSHA256 transcriptSHA256 approvedSetSHA256 : text)
    (enrollmentResponse signer : list byte) : result session_err (list byte) :=
  reject negb (validSHA256Hex invitationSHA256) || negb (validSHA256Hex encryptedRequestSHA256)
      || negb (validSHA256Hex transcriptSHA256) || negb (validSHA256Hex approvedSetSHA256) with BindInputs;;
  reject out_of_bound MaxEnvelopeSize enrollmentResponse || negb (length signer =? PrivateKeySize)%nat with BindInputs;;
  let payloadBytes := encode_bound x {| brp_Schema := boundResponseSchema; brp_InvitationSHA256 := invitationSHA256;
    brp_EncryptedRequestSHA256 := encryptedRequestSHA256; brp_TranscriptSHA256 := transcriptSHA256;
    brp_ApprovedRequestSetSHA256 := approvedSetSHA256; brp_EnrollmentResponse := StdEncode enrollmentResponse |} in
  match Sign (inv_ed (se_inv x)) boundResponseSignatureDomain payloadBytes signer with
  | Err _ => Err BindSigner
  | Ok signature =>
      let encoded := seal_envelope (se_inv x) boundResponseEnvelopeSchema (KeyID (ed_public (inv_ed (se_inv x)) signer))
        payloadBytes signature in
      reject MaxBoundResponseSize <? Z.of_nat (length encoded) with BindTooLarge;;
      Ok encoded
  end.

(** The signed payload of a bound response, against the verifier of the invitation. *)
Definition signed_payload (inv : invitation) (encoded : list byte) : result session_err (list byte) :=
  reject out_of_bound MaxBoundResponseSize encoded with BoundSize;;
  match decode_envelope_json (se_inv x) encoded with
  | None => Err BoundEnvelope
  | Some e =>
      reject negb (bool_decide (encoded = encode_envelope_json (se_inv x) e ++ [newline]))
          || negb (bool_decide (env_Schema e = boundResponseEnvelopeSchema)) with BoundEnvelope;;
      match decodeCanonicalBase64 (env_Payload e), decodeCanonicalBase64 (env_Signature e) with
      | Some payloadBytes, Some signature =>
          reject negb (length signature =? SignatureSize)%nat with BoundEncoding;;
          match parse_public (se_inv x) (DeploymentSignerPublicPEM inv) with
          | None => Err BoundVerifier
          | Some publicKey =>
              reject negb (bool_decide (env_SignerKeyID e = inv_DeploymentSignerKeyID inv))
                  || negb (bool_decide (env_SignerKeyID e = KeyID publicKey)) with BoundSigner;;
              reject negb (is_ok (Verify (inv_ed (se_inv x)) boundResponseSignatureDomain payloadBytes signature publicKey))
                with BoundSignature;;
              Ok payloadBytes
          end
      | _, _ => Err BoundEncoding
      end
  end.
Definition verifyBoundResponse (s : TargetSession) (encoded : list byte) : result session_err (list byte) :=
  payloadBytes ← signed_payload (session_invitation s) encoded;
  match decode_bound x payloadBytes with
  | None => Err BoundPayload
  | Some payload =>
      reject negb (bool_decide (encode_bound x payload = payloadBytes))
          || negb (bool_decide (brp_Schema payload = boundResponseSchema)) with BoundPayload;;
      reject negb (bool_decide (brp_InvitationSHA256 payload = digest_hex (invitationSHA256 s)))
          || negb (bool_decide (brp_EncryptedRequestSHA256 payload = digest_hex (encryptedRequestSHA256 s)))
          || negb (bool_decide (brp_TranscriptSHA256 payload = digest_hex (transcriptSHA256 s)))
          || negb (validSHA256Hex (brp_ApprovedRequestSetSHA256 payload)) with BoundOther;;
      match decodeCanonicalBase64 (brp_EnrollmentResponse payload) with
      | None => Err BoundResponseInvalid
      | Some response =>
          reject out_of_bound MaxEnvelopeSize response with BoundResponseInvalid;;
          Ok response
      end
  end.

Definition ParseTargetSession (encoded : list byte) (now : Z) : result session_err TargetSession :=
  reject out_of_bound MaxSessionSize encoded with SessionSize;;
  match decode_target x encoded with
  | None => Err SessionDecode
  | Some value =>
      reject negb (bool_decide (encoded = encode_target x value ++ [newline]))
          || negb (bool_decide (ets_Schema value = targetSessionSchema)) || (ets_Generation value =? 0)
          || negb (validTargetPhase (ets_Phase value)) with SessionNotCanonical;;
      invitationBytes ← session_bytes (ets_Invitation value) MaxInvitationSize;
      requestBytes ← session_bytes (ets_Request value) MaxRequestSize;
      encryptedBytes ← session_bytes (ets_EncryptedRequest value) MaxEncryptedRequestSize;
      tentative ← within SInvitation (parseTentativeInvitation (se_inv x) invitationBytes now);
      request ← within SRequest (ParseRequest (se_req x) requestBytes now);
      _ ← within SInvitation (bindRequestToInvitation (Invitation tentative) request);
      prepared ← buildPreparedTranscript invitationBytes requestBytes encryptedBytes request;
      reject negb (bool_decide (ets_InvitationSHA256 value = digest_hex (pt_invitationSHA256 prepared)))
          || negb (bool_decide (ets_RequestSHA256 value = digest_hex (pt_requestSHA256 prepared)))
          || negb (bool_decide (ets_EncryptedRequestSHA256 value = digest_hex (pt_encryptedRequestSHA256 prepared)))
          || negb (bool_decide (ets_TranscriptSHA256 value = digest_hex (pt_fullSHA256 prepared))) with SessionDigest;;
      confirmed ← decodeOptionalDigest (ets_ConfirmedTranscriptSHA256 value);
      response ← decodeOptionalDigest (ets_ResponseSHA256 value);
      boundResponse ← (if bool_decide (ets_BoundResponse value = []) then Ok []
                       else session_bytes (ets_BoundResponse value) MaxBoundResponseSize);
      reject negb (Bool.eqb (bool_decide (boundResponse = [])) (zero_digest response))
          || negb (bool_decide (boundResponse = [])) && negb (bool_decide (sha256 boundResponse = response)) with ResponseDigest;;
      session ← targetSessionFromPrepared (Invitation tentative) invitationBytes prepared (ets_Generation value)
        (ets_Phase value) confirmed boundResponse;
      _ ← validateShape session;
      _ ← (if bool_decide (boundResponse = []) then Ok [] else verifyBoundResponse session boundResponse);
      Ok session
  end.

(** ** Operations *)

Definition TargetWords (s : TargetSession) : result session_err (list text) :=
  reject bool_decide (phase s = PhaseCancelled) with WordsUnavailable;;
  Ok (take safetyWordsPerDirection (phrase s)).

Record TargetMailboxAction := {
  tma_Endpoint : text; tma_MailboxID : text; tma_RequestWrite : text; tma_ResponseRead : text; tma_EncryptedRequest : list byte }.
Definition MailboxAction (s : TargetSession) : result session_err TargetMailboxAction :=
  reject bool_decide (phase s = PhaseCancelled) || bool_decide (phase s = PhaseReady) with ActionUnavailable;;
  let target := inv_Exchange (session_invitation s) in
  Ok {| tma_Endpoint := Endpoint target; tma_MailboxID := tx_MailboxID target; tma_RequestWrite := RequestWriteCapability target;
        tma_ResponseRead := ResponseReadCapability target; tma_EncryptedRequest := encryptedRequestBytes s |}.
(** The endpoint, mailbox and response-read capability of a session that is ready. *)
Definition MailboxTombstone (s : TargetSession) : result session_err (text * text * text) :=
  reject negb (bool_decide (phase s = PhaseReady)) with TombstoneUnavailable;;
  let target := inv_Exchange (session_invitation s) in
  Ok (Endpoint target, tx_MailboxID target, ResponseReadCapability target).

Definition canonical_word (word : text) : option text :=
  let word := ToLower (TrimSpace word) in
  if (length word <? 3)%nat || (8 <? length word)%nat || negb (forallb lowercase word) then None else Some word.
Definition canonicalComparisonGroup (words : list text) : option text := Join NUL <$> mapM canonical_word words.
(** The comparison that both sides run against their half of the phrase. *)
Definition all_empty (words : list text) : bool := forallb (λ word, bool_decide (TrimSpace word = [])) words.
Definition words_match (words expected : list text) : bool :=
  bool_decide (canonicalComparisonGroup words = Some (Join NUL expected)).

Definition ConfirmProvisionerWords (words : list text) (s : TargetSession)
    : TargetSession * result session_err ConfirmationOutcome :=
  if negb (bool_decide (phase s = PhasePendingComparison)) then (s, Err ComparisonNotPending)
  else if all_empty words then (s, Ok OutcomeDeferred)
  else
    let matched := words_match words (drop safetyWordsPerDirection (phrase s)) in
    let s := s <| generation := wrapu64 (generation s + 1) |> in
    if negb matched
    then (s <| phase := PhaseCancelled |> <| confirmedTranscriptSHA256 := arr_zero Size |>, Ok OutcomeCancelled)
    else (s <| phase := PhaseTranscriptConfirmed |> <| confirmedTranscriptSHA256 := transcriptSHA256 s |>, Ok OutcomeConfirmed).

Definition Cancel (s : TargetSession) : TargetSession * result session_err () :=
  match phase s with
  | PhaseCancelled => (s, Ok ())
  | PhaseApplied | PhaseReady => (s, Err CancelApplied)
  | _ => (s <| generation := wrapu64 (generation s + 1) |> <| phase := PhaseCancelled |>
            <| confirmedTranscriptSHA256 := arr_zero Size |> <| responseSHA256 := arr_zero Size |>
            <| boundResponseBytes := [] |>, Ok ())
  end.

Definition AcceptBoundResponse (encoded : list byte) (s : TargetSession) : TargetSession * result session_err (list byte) :=
  if negb (bool_decide (phase s = PhaseTranscriptConfirmed))
     || negb (bool_decide (confirmedTranscriptSHA256 s = transcriptSHA256 s)) then (s, Err ConfirmationRequired)
  else match verifyBoundResponse s encoded with
       | Err e => (s, Err e)
       | Ok response =>
           (s <| generation := wrapu64 (generation s + 1) |> <| phase := PhaseResponseVerified |>
              <| responseSHA256 := sha256 encoded |> <| boundResponseBytes := encoded |>, Ok response)
       end.

Definition VerifiedEnrollmentResponse (s : TargetSession) : result session_err (list byte) :=
  reject negb (bool_decide (phase s = PhaseResponseVerified)) || bool_decide (boundResponseBytes s = []) with NoVerifiedResponse;;
  verifyBoundResponse s (boundResponseBytes s).

(** The reconciliation callback is an argument; it is called with the verified response. *)
Definition ReconcileAppliedResponse (reconcile : list byte → result session_err ()) (s : TargetSession) : result session_err () :=
  reject negb (bool_decide (phase s = PhaseApplied)) || bool_decide (boundResponseBytes s = []) with ReconcileRequired;;
  response ← verifyBoundResponse s (boundResponseBytes s);
  reconcile response.

Definition RecordApplied (s : TargetSession) : TargetSession * result session_err () :=
  if negb (bool_decide (phase s = PhaseResponseVerified)) || bool_decide (boundResponseBytes s = [])
  then (s, Err NoVerifiedResponse)
  else if negb (bool_decide (sha256 (boundResponseBytes s) = responseSHA256 s)) then (s, Err AppliedDiffers)
  else (s <| generation := wrapu64 (generation s + 1) |> <| phase := PhaseApplied |>, Ok ()).

(** The verdicts of the context and of the probe. *)
Definition CompleteReadyProbe (live probe : bool) (s : TargetSession) : TargetSession * result session_err () :=
  if negb (bool_decide (phase s = PhaseApplied)) then (s, Err ReadyRequiresApplied)
  else if negb live then (s, Err Cancelled)
  else if negb probe then (s, Err ProbeFailed)
  else (s <| generation := wrapu64 (generation s + 1) |> <| phase := PhaseReady |>, Ok ()).

(** Every mutation of a session. *)
Inductive target_op :=
| TConfirm (words : list text) | TCancel | TAccept (encoded : list byte) | TApplied | TReady (live probe : bool).
Definition target_apply (o : target_op) (s : TargetSession) : TargetSession :=
  match o with
  | TConfirm words => (ConfirmProvisionerWords words s).1
  | TCancel => (Cancel s).1
  | TAccept encoded => (AcceptBoundResponse encoded s).1
  | TApplied => (RecordApplied s).1
  | TReady live probe => (CompleteReadyProbe live probe s).1
  end.
Definition target_run (ops : list target_op) (s : TargetSession) : TargetSession := foldl (λ s o, target_apply o s) s ops.
End Env.

Lemma within_inv {E F A} (f : E → F) (r : result E A) a : within f r = Ok a → r = Ok a.
Proof. destruct r; cbn; congruence. Qed.
