(* ===== verification/OperatorSession.v ===== *)
(** * Enrollment sessions of the operator

    The receipts of [issue.go], [operator_session.go] and the approved request set of
    [response_binding.go]. *)

From S2P Require Import Prelude GoIO Text Runes Sha256 Base64 Protocol Identifiers Signing PairToken Phrase Mailbox EnrollRequest Invitation TargetSession.

(** ** Receipts: [issue.go] *)

Definition operatorReceiptSchema : text := ascii_bytes "owntransit.enrollment-operator-receipt.v1".
Definition operatorReceiptEnvelopeSchema : text := ascii_bytes "owntransit.enrollment-operator-receipt-envelope.v1".
Definition operatorReceiptSignatureDomain : text := ascii_bytes "OwnTransit enrollment operator receipt v1".
Definition MaxOperatorReceiptSize : Z := 2 ^ 20.
Definition maxOperatorReferenceSize : Z := 512.

Record parsedOperatorReceipt := {
  por_encoded : list byte;
  por_payload : operatorReceiptPayload;
  por_tentative : tentativeInvitation;
  por_operator : operatorExchange }.

Definition validOperatorReference (value : text) : bool :=
  negb (bool_decide (value = [])) && (Z.of_nat (length value) <=? maxOperatorReferenceSize) && ValidString value
  && bool_decide (TrimSpace value = value)
  && forallb (λ r, (0x20 <=? r_value r) && negb (r_value r =? 0x7f)) (runes value).

(** ** Operator sessions: [operator_session.go] *)

Record OperatorSession := MkOperator {
  op_generation : Z;
  op_phase : SessionPhase;
  op_receiptBytes : list byte;
  op_encryptedRequestBytes : list byte;
  op_transcriptSHA256 : arr Size;
  op_confirmedTranscriptSHA256 : arr Size;
  op_phrase : list text;
  op_receipt : parsedOperatorReceipt;
  op_prepared : preparedTranscript }.
#[export] Instance OperatorSession_eta : Eta OperatorSession := λ s,
  MkOperator (op_generation s) (op_phase s) (op_receiptBytes s) (op_encryptedRequestBytes s) (op_transcriptSHA256 s)
    (op_confirmedTranscriptSHA256 s) (op_phrase s) (op_receipt s) (op_prepared s).

Definition operator_phase (p : SessionPhase) : bool :=
  bool_decide (p = PhasePendingComparison) || bool_decide (p = PhaseTranscriptConfirmed) || bool_decide (p = PhaseCancelled).

(** [OperatorSession.validateShape] *)
Definition operator_shape (s : OperatorSession) : result session_err () :=
  reject (op_generation s =? 0) || bool_decide (op_receiptBytes s = []) || bool_decide (op_encryptedRequestBytes s = [])
    with SessionIncomplete;;
  let confirmed := negb (zero_digest (op_confirmedTranscriptSHA256 s)) in
  match op_phase s with
  | PhasePendingComparison | PhaseCancelled => reject confirmed with PendingHasAuthority;; Ok ()
  | PhaseTranscriptConfirmed =>
      reject negb confirmed || negb (bool_decide (op_confirmedTranscriptSHA256 s = op_transcriptSHA256 s)) with ConfirmationNotFull;;
      Ok ()
  | _ => Err BadGenerationOrPhase
  end.

Section Env.
Context (x : session_env).

Definition signOperatorReceipt (invitationBytes : list byte) (operator : operatorExchange)
    (intendedRecipient identityReference : text) (signer : list byte) (now : Z) : result session_err (list byte) :=
  tentative ← within SInvitation (parseTentativeInvitation (se_inv x) invitationBytes now);
  let inv := Invitation tentative in
  _ ← within SInvitation (validateAgainst (se_inv x) operator (inv_Exchange inv) (RequestEncryptionRecipient inv));
  reject negb (validOperatorReference intendedRecipient) || negb (validOperatorReference identityReference) with ReceiptReference;;
  let payloadBytes := encode_receipt x {| orp_Schema := operatorReceiptSchema; orp_Invitation := StdEncode invitationBytes;
    orp_InvitationSHA256 := inv_SHA256 tentative; IntendedRecipient := intendedRecipient;
    IdentityContactReference := identityReference; orp_MailboxID := ox_MailboxID operator;
    orp_RequestReadCapability := RequestReadCapability operator; orp_ResponseWriteCapability := ResponseWriteCapability operator;
    orp_RequestDecryptionIdentity := RequestDecryptionIdentity operator |} in
  match Sign (inv_ed (se_inv x)) operatorReceiptSignatureDomain payloadBytes signer with
  | Err _ => Err ReceiptSignature
  | Ok signature =>
      let encoded := seal_envelope (se_inv x) operatorReceiptEnvelopeSchema (inv_DeploymentSignerKeyID inv) payloadBytes signature in
      reject MaxOperatorReceiptSize <? Z.of_nat (length encoded) with ReceiptSize;;
      Ok encoded
  end.

(** The receipt's payload inside its envelope, before anything of it is trusted. *)
Definition receipt_payload (encoded : list byte) : result session_err (envelope * list byte * operatorReceiptPayload) :=
  reject out_of_bound MaxOperatorReceiptSize encoded with ReceiptSize;;
  match decode_envelope_json (se_inv x) encoded with
  | None => Err ReceiptEnvelope
  | Some e =>
      reject negb (bool_decide (encoded = encode_envelope_json (se_inv x) e ++ [newline]))
          || negb (bool_decide (env_Schema e = operatorReceiptEnvelopeSchema)) with ReceiptEnvelope;;
      match decodeCanonicalBase64 (env_Payload e) with
      | None => Err ReceiptEncoding
      | Some payloadBytes =>
          match decode_receipt x payloadBytes with
          | None => Err ReceiptPayload
          | Some payload =>
              reject negb (bool_decide (encode_receipt x payload = payloadBytes))
                  || negb (bool_decide (orp_Schema payload = operatorReceiptSchema)) with ReceiptPayload;;
              Ok (e, payloadBytes, payload)
          end
      end
  end.
Definition receipt_operator (payload : operatorReceiptPayload) : operatorExchange := {|
  ox_MailboxID := orp_MailboxID payload; RequestReadCapability := orp_RequestReadCapability payload;
  ResponseWriteCapability := orp_ResponseWriteCapability payload;
  RequestDecryptionIdentity := orp_RequestDecryptionIdentity payload |}.
Definition parseOperatorReceipt (encoded : list byte) (now : Z) : result session_err parsedOperatorReceipt :=
  '(e, payloadBytes, payload) ← receipt_payload encoded;
  invitationBytes ← session_bytes (orp_Invitation payload) MaxInvitationSize;
  tentative ← within SInvitation (parseTentativeInvitation (se_inv x) invitationBytes now);
  let inv := Invitation tentative in
  reject negb (bool_decide (orp_InvitationSHA256 payload = inv_SHA256 tentative))
      || negb (bool_decide (env_SignerKeyID e = inv_DeploymentSignerKeyID inv))
      || negb (validOperatorReference (IntendedRecipient payload))
      || negb (validOperatorReference (IdentityContactReference payload)) with ReceiptBinding;;
  match parse_public (se_inv x) (DeploymentSignerPublicPEM inv), decodeCanonicalBase64 (env_Signature e) with
  | None, _ => Err BoundVerifier
  | _, None => Err ReceiptSignature
  | Some public, Some signature =>
      reject negb (length signature =? SignatureSize)%nat with ReceiptSignature;;
      reject negb (is_ok (Verify (inv_ed (se_inv x)) operatorReceiptSignatureDomain payloadBytes signature public))
        with ReceiptSignature;;
      let operator := receipt_operator payload in
      _ ← within SInvitation (validateAgainst (se_inv x) operator (inv_Exchange inv) (RequestEncryptionRecipient inv));
      Ok {| por_encoded := encoded; por_payload := payload; por_tentative := tentative; por_operator := operator |}
  end.

Definition operatorSessionFromPrepared (receipt : parsedOperatorReceipt) (prepared : preparedTranscript) (encryptedRequest : list byte)
    (generation : Z) (phase : SessionPhase) (confirmed : arr Size) : result session_err OperatorSession :=
  reject (generation =? 0) || negb (operator_phase phase) with BadGenerationOrPhase;;
  let session := {| op_generation := generation; op_phase := phase; op_receiptBytes := por_encoded receipt;
    op_encryptedRequestBytes := encryptedRequest; op_transcriptSHA256 := pt_fullSHA256 prepared;
    op_confirmedTranscriptSHA256 := confirmed; op_phrase := pt_phrase prepared; op_receipt := receipt; op_prepared := prepared |} in
  _ ← operator_shape session;
  Ok session.

Definition NewOperatorSession (operatorReceipt encryptedRequest : list byte) (now : Z) : result session_err OperatorSession :=
  receipt ← parseOperatorReceipt operatorReceipt now;
  prepared ← prepareOperatorTranscript x (por_tentative receipt) (por_operator receipt) encryptedRequest now;
  operatorSessionFromPrepared receipt prepared encryptedRequest 1 PhasePendingComparison (arr_zero Size).

Definition encoded_operator (s : OperatorSession) : encodedOperatorSession := {|
  eos_Schema := operatorSessionSchema; eos_Generation := op_generation s; eos_Phase := op_phase s;
  eos_OperatorReceipt := StdEncode (op_receiptBytes s); eos_EncryptedRequest := StdEncode (op_encryptedRequestBytes s);
  eos_TranscriptSHA256 := digest_hex (op_transcriptSHA256 s);
  eos_ConfirmedTranscriptSHA256 := optional_hex (op_confirmedTranscriptSHA256 s) |}.
Definition operator_Encode (s : OperatorSession) : result session_err (list byte) :=
  _ ← operator_shape s;
  let encoded := encode_operator x (encoded_operator s) ++ [newline] in
  reject MaxSessionSize <? Z.of_nat (length encoded) with SessionTooLarge;;
  Ok encoded.

Definition ParseOperatorSession (encoded : list byte) (now : Z) : result session_err OperatorSession :=
  reject out_of_bound MaxSessionSize encoded with SessionSize;;
  match decode_operator x encoded with
  | None => Err SessionDecode
  | Some value =>
      reject negb (bool_decide (encoded = encode_operator x value ++ [newline]))
          || negb (bool_decide (eos_Schema value = operatorSessionSchema)) || (eos_Generation value =? 0)
          || negb (operator_phase (eos_Phase value)) with SessionNotCanonical;;
      receiptBytes ← session_bytes (eos_OperatorReceipt value) MaxOperatorReceiptSize;
      encryptedRequest ← session_bytes (eos_EncryptedRequest value) MaxEncryptedRequestSize;
      receipt ← parseOperatorReceipt receiptBytes now;
      prepared ← prepareOperatorTranscript x (por_tentative receipt) (por_operator receipt) encryptedRequest now;
      reject negb (bool_decide (eos_TranscriptSHA256 value = digest_hex (pt_fullSHA256 prepared))) with SessionDigest;;
      confirmed ← decodeOptionalDigest (eos_ConfirmedTranscriptSHA256 value);
      operatorSessionFromPrepared receipt prepared encryptedRequest (eos_Generation value) (eos_Phase value) confirmed
  end.

(** ** Operations *)

Record OperatorMailboxAction := {
  oma_Endpoint : text; oma_MailboxID : text; oma_RequestRead : text; oma_ResponseWrite : text }.
Definition operator_MailboxAction (s : OperatorSession) : result session_err OperatorMailboxAction :=
  reject bool_decide (op_phase s = PhaseCancelled) with ActionUnavailable;;
  let r := op_receipt s in
  Ok {| oma_Endpoint := Endpoint (inv_Exchange (Invitation (por_tentative r))); oma_MailboxID := ox_MailboxID (por_operator r);
        oma_RequestRead := RequestReadCapability (por_operator r); oma_ResponseWrite := ResponseWriteCapability (por_operator r) |}.

Record OperatorReview := {
  rv_Role : Role; rv_InstallationID : text; rv_RouteID : text; rv_ConnectorInstallationID : text;
  rv_IntendedRecipient : text; rv_IdentityContactReference : text }.
Definition Review (s : OperatorSession) : result session_err OperatorReview :=
  _ ← operator_shape s;
  let request := pt_request (op_prepared s) in
  Ok {| rv_Role := rq_Role request; rv_InstallationID := InstallationID request; rv_RouteID := rq_RouteID request;
        rv_ConnectorInstallationID := ConnectorInstallationID request;
        rv_IntendedRecipient := IntendedRecipient (por_payload (op_receipt s));
        rv_IdentityContactReference := IdentityContactReference (por_payload (op_receipt s)) |}.
Definition SignedRequest (s : OperatorSession) : result session_err (list byte) :=
  _ ← operator_shape s;
  Ok (pt_requestBytes (op_prepared s)).

Definition ConfirmTargetWords (words : list text) (s : OperatorSession)
    : OperatorSession * result session_err ConfirmationOutcome :=
  if negb (bool_decide (op_phase s = PhasePendingComparison)) then (s, Err ComparisonNotPending)
  else if all_empty words then (s, Ok OutcomeDeferred)
  else
    let matched := words_match words (take safetyWordsPerDirection (op_phrase s)) in
    let s := s <| op_generation := wrapu64 (op_generation s + 1) |> in
    if negb matched
    then (s <| op_phase := PhaseCancelled |> <| op_confirmedTranscriptSHA256 := arr_zero Size |>, Ok OutcomeCancelled)
    else (s <| op_phase := PhaseTranscriptConfirmed |> <| op_confirmedTranscriptSHA256 := op_transcriptSHA256 s |>, Ok OutcomeConfirmed).

Definition operator_confirmed (s : OperatorSession) : bool :=
  bool_decide (op_phase s = PhaseTranscriptConfirmed) && bool_decide (op_confirmedTranscriptSHA256 s = op_transcriptSHA256 s).
Definition ProvisionerWords (s : OperatorSession) : result session_err (list text) :=
  reject negb (operator_confirmed s) with ReverseWordsHidden;;
  Ok (drop safetyWordsPerDirection (op_phrase s)).

(** [OperatorSession.BindResponse] *)
Definition operator_BindResponse (enrollmentResponse : list byte) (approvedSetSHA256 : text) (signer : list byte)
    (s : OperatorSession) : result session_err (list byte) :=
  reject negb (operator_confirmed s) with ConfirmationRequired;;
  match parse_public (se_inv x) (DeploymentSignerPublicPEM (Invitation (por_tentative (op_receipt s)))) with
  | None => Err BoundVerifier
  | Some public =>
      reject negb (length signer =? PrivateKeySize)%nat || negb (bool_decide (ed_public (inv_ed (se_inv x)) signer = public))
        with BindSigner;;
      let prepared := op_prepared s in
      BindResponse x (digest_hex (pt_invitationSHA256 prepared)) (digest_hex (pt_encryptedRequestSHA256 prepared))
        (digest_hex (pt_fullSHA256 prepared)) approvedSetSHA256 enrollmentResponse signer
  end.

(** ** The approved request set: [response_binding.go] *)

Definition approvedRequestSetDomain : text := ascii_bytes "OwnTransit approved enrollment request set v1".
(** The loop over the roles, with what earlier iterations left: the runtime of the first
    request, the route and the installation of the connector's. *)
Fixpoint approved_loop (requests : list (Role * list byte)) (runtime : option RuntimeBinding) (routeID connectorID : text)
    (hashed : list byte) (now : Z) : result session_err (list byte) :=
  match requests with
  | [] => Ok hashed
  | (role, data) :: rest =>
      request ← within SRequest (ParseRequest (se_req x) data now);
      reject negb (bool_decide (rq_Role request = role)) with SetRoleOrder;;
      let r := Runtime request in
      reject match runtime with
             | None => false
             | Some first =>
                 negb (bool_decide (ReleaseID r = ReleaseID first)) || negb (ReleaseSequence r =? ReleaseSequence first)
                 || negb (bool_decide (RuntimeProtocol r = RuntimeProtocol first))
                 || negb (LifecycleGeneration r =? LifecycleGeneration first)
             end with SetRuntime;;
      reject bool_decide (role = RoleClient)
          && (negb (bool_decide (rq_RouteID request = routeID)) || negb (bool_decide (ConnectorInstallationID request = connectorID)))
        with SetCrossWired;;
      let '(routeID, connectorID) :=
        if bool_decide (role = RoleConnector) then (rq_RouteID request, InstallationID request) else (routeID, connectorID) in
      approved_loop rest (Some (default r runtime)) routeID connectorID (hashed ++ writeTranscriptField data) now
  end.
Definition ApprovedRequestSetSHA256 (relayRequest connectorRequest clientRequest : list byte) (now : Z) : result session_err text :=
  hashed ← approved_loop [(RoleRelay, relayRequest); (RoleConnector, connectorRequest); (RoleClient, clientRequest)]
    None [] [] (approvedRequestSetDomain ++ [NUL]) now;
  Ok (hex_encode (Sum256 hashed)).
End Env.

(** Every mutation of a session. *)
Definition operator_run (submissions : list (list text)) (s : OperatorSession) : OperatorSession :=
  foldl (λ s words, (ConfirmTargetWords words s).1) s submissions.
