(* ===== verification/SessionDemo.v ===== *)
(** * A concrete enrollment: toy codecs, one target, one receipt

    The instance at which the session theorems are applied. *)

From S2P Require Import Prelude GoIO Text Runes Sha256 Base64 Protocol Identifiers Signing PairToken Phrase Mailbox MailboxSafety EnrollRequest Invitation InvitationSafety Toy TargetSession OperatorSession.

(** A toy encryption: the trailing zeros of the plaintext are counted. *)
Fixpoint strip (l : list byte) : list byte * Z :=
  match l with
  | [] => ([], 0)
  | b :: rest =>
      let '(s, k) := strip rest in
      if bool_decide (s = []) && bool_decide (b = Byte.x00) then ([], k + 1) else (b :: s, k)
  end.
Lemma strip_spec l : (strip l).1 ++ replicate (Z.to_nat (strip l).2) Byte.x00 = l ∧ 0 <= (strip l).2.
Proof.
  induction l as [|b l [IH Hk]]; [done|]. cbn [strip]. destruct (strip l) as [s k]. cbn [fst snd] in *.
  case_guard G; cbn [fst snd]; [|split; [cbn; by f_equal|done]]. bool_prop. subst. split; [|lia].
  by replace (Z.to_nat (k + 1)) with (S (Z.to_nat k)) by lia.
Qed.

Definition phase_text (p : SessionPhase) : text :=
  match p with
  | PhasePendingComparison => [Byte.x01] | PhaseTranscriptConfirmed => [Byte.x02] | PhaseResponseVerified => [Byte.x03]
  | PhaseApplied => [Byte.x04] | PhaseReady => [Byte.x05] | PhaseCancelled => [Byte.x06] | OtherPhase n => Byte.x07 :: n
  end.
Definition text_phase (t : text) : SessionPhase :=
  match t with
  | [Byte.x01] => PhasePendingComparison | [Byte.x02] => PhaseTranscriptConfirmed | [Byte.x03] => PhaseResponseVerified
  | [Byte.x04] => PhaseApplied | [Byte.x05] => PhaseReady | [Byte.x06] => PhaseCancelled | Byte.x07 :: n => OtherPhase n
  | _ => PhaseCancelled
  end.
Lemma text_phase_text p : text_phase (phase_text p) = p.
Proof. by destruct p. Qed.

Definition ceremony_request : RequestPayload := {|
  rq_Schema := RequestSchema; rq_Role := RoleRelay; InstallationID := ID_String demo_epoch; rq_RouteID := [];
  ConnectorInstallationID := []; Nonce := ID_String demo_session; Sequence := 1; CreatedUnix := 1000; ExpiresUnix := 2000;
  ResponseRecipient := ascii_bytes "age1"; rq_IssuerPins := rq_IssuerPins demo_request;
  DeploymentSignerKeyID := KeyID demo_public; Runtime := demo_runtime; OuterCSR := [Byte.x01]; InnerCSR := [] |}.
Definition ceremony_externals : externals := {|
  decode_envelope := decode_envelope demo_externals; encode_envelope := encode_envelope demo_externals;
  decode_payload := λ _, Some ceremony_request; encode_payload := λ _, [Byte.x7b];
  recipient_text := Some; parse_csr := parse_csr demo_externals; ed := demo_ed |}.

Definition demo_session_env : session_env := {|
  se_inv := demo_env;
  se_req := ceremony_externals;
  age_encrypt := λ _ _ p, let '(s, k) := strip p in Some (enc_texts [s; enc_Z k]);
  age_decrypt := λ _ c n, match dec_texts 2 c with
    | Some [s; k] => Some (take (Z.to_nat n) (s ++ replicate (Z.to_nat (dec_Z k)) Byte.x00)) | _ => None end;
  decode_bound := λ l, match dec_texts 6 l with
    | Some [a; b; c; d; e; f] => Some {| brp_Schema := a; brp_InvitationSHA256 := b; brp_EncryptedRequestSHA256 := c;
        brp_TranscriptSHA256 := d; brp_ApprovedRequestSetSHA256 := e; brp_EnrollmentResponse := f |} | _ => None end;
  encode_bound := λ p, enc_texts [brp_Schema p; brp_InvitationSHA256 p; brp_EncryptedRequestSHA256 p; brp_TranscriptSHA256 p;
    brp_ApprovedRequestSetSHA256 p; brp_EnrollmentResponse p];
  decode_receipt := λ l, match dec_texts 9 l with
    | Some [a; b; c; d; e; f; g; h; i] => Some {| orp_Schema := a; orp_Invitation := b; orp_InvitationSHA256 := c;
        IntendedRecipient := d; IdentityContactReference := e; orp_MailboxID := f; orp_RequestReadCapability := g;
        orp_ResponseWriteCapability := h; orp_RequestDecryptionIdentity := i |} | _ => None end;
  encode_receipt := λ p, enc_texts [orp_Schema p; orp_Invitation p; orp_InvitationSHA256 p; IntendedRecipient p;
    IdentityContactReference p; orp_MailboxID p; orp_RequestReadCapability p; orp_ResponseWriteCapability p;
    orp_RequestDecryptionIdentity p];
  decode_target := λ l, match dec_texts 13 l with
    | Some [a; b; c; d; e; f; g; h; i; j; k; m; n] => Some {| ets_Schema := a; ets_Generation := dec_Z b; ets_Phase := text_phase c;
        ets_Invitation := d; ets_Request := e; ets_EncryptedRequest := f; ets_InvitationSHA256 := g; ets_RequestSHA256 := h;
        ets_EncryptedRequestSHA256 := i; ets_TranscriptSHA256 := j; ets_ConfirmedTranscriptSHA256 := k; ets_ResponseSHA256 := m;
        ets_BoundResponse := n |} | _ => None end;
  encode_target := λ v, enc_texts [ets_Schema v; enc_Z (ets_Generation v); phase_text (ets_Phase v); ets_Invitation v; ets_Request v;
    ets_EncryptedRequest v; ets_InvitationSHA256 v; ets_RequestSHA256 v; ets_EncryptedRequestSHA256 v; ets_TranscriptSHA256 v;
    ets_ConfirmedTranscriptSHA256 v; ets_ResponseSHA256 v; ets_BoundResponse v];
  decode_operator := λ l, match dec_texts 7 l with
    | Some [a; b; c; d; e; f; g] => Some {| eos_Schema := a; eos_Generation := dec_Z b; eos_Phase := text_phase c;
        eos_OperatorReceipt := d; eos_EncryptedRequest := e; eos_TranscriptSHA256 := f; eos_ConfirmedTranscriptSHA256 := g |}
    | _ => None end;
  encode_operator := λ v, enc_texts [eos_Schema v; enc_Z (eos_Generation v); phase_text (eos_Phase v); eos_OperatorReceipt v;
    eos_EncryptedRequest v; eos_TranscriptSHA256 v; eos_ConfirmedTranscriptSHA256 v] |}.

Definition demo_random (n : nat) : option (list byte) := Some (replicate n Byte.x00).
Definition demo_now : Z := 1500 * Second.
(** The invitation, the target's signed request and the operator's receipt, as bytes. *)
Definition ceremony_invitation : list byte := Eval vm_compute in demo_invitation_bytes.
Definition ceremony_signed : list byte := Eval vm_compute in
  match SignRequest ceremony_externals ceremony_request (Some demo_key) demo_now with Ok l => l | Err _ => [] end.
Definition ceremony_receipt : list byte := Eval vm_compute in
  ok_or_nil (signOperatorReceipt demo_session_env ceremony_invitation demo_operator (ascii_bytes "Ann") (ascii_bytes "desk 4")
    demo_key demo_now).


(** The value of a successful result. *)
Definition unwrap {E A} (r : result E A) : is_ok r = true → A :=
  match r with Ok a => λ _, a | Err _ => λ H, False_rect A (diff_false_true H) end.
Lemma unwrap_ok {E A} (r : result E A) (H : is_ok r = true) : r = Ok (unwrap r H).
Proof. by destruct r. Qed.

(** The sessions of both sides, as values. *)
Definition target_result : result session_err TargetSession := Eval vm_compute in
  NewTargetSession demo_session_env [] demo_random ceremony_invitation ceremony_signed demo_now.
Definition demo_target : TargetSession := Eval vm_compute in unwrap target_result eq_refl.
Lemma demo_target_ok :
  NewTargetSession demo_session_env [] demo_random ceremony_invitation ceremony_signed demo_now = Ok demo_target.
Proof. vm_compute. reflexivity. Qed.
Definition receipt_result : result session_err parsedOperatorReceipt := Eval vm_compute in
  parseOperatorReceipt demo_session_env ceremony_receipt demo_now.
Definition demo_receipt : parsedOperatorReceipt := Eval vm_compute in unwrap receipt_result eq_refl.
Lemma demo_receipt_ok : parseOperatorReceipt demo_session_env ceremony_receipt demo_now = Ok demo_receipt.
Proof. vm_compute. reflexivity. Qed.
Definition operator_result : result session_err OperatorSession := Eval vm_compute in
  NewOperatorSession demo_session_env ceremony_receipt (encryptedRequestBytes demo_target) demo_now.
Definition demo_operator_session : OperatorSession := Eval vm_compute in unwrap operator_result eq_refl.
Lemma demo_operator_ok :
  NewOperatorSession demo_session_env ceremony_receipt (encryptedRequestBytes demo_target) demo_now = Ok demo_operator_session.
Proof. vm_compute. reflexivity. Qed.
