(* ===== verification/SessionSafety.v ===== *)
(** * Enrollment sessions: shape, comparison, activation *)

From S2P Require Import Prelude GoIO Text Runes Sha256 Base64 Protocol Identifiers Signing PairToken Phrase Mailbox EnrollRequest Invitation InvitationSafety TargetSession OperatorSession SessionDemo.

(** ** The words of a phrase *)

Definition safety_word (w : text) : Prop := letters w ∧ (3 <= length w <= 8)%nat.
Lemma lowercase_letters w : forallb lowercase w = true ↔ letters w.
Proof.
  unfold letters. rewrite forallb_forall, list.Forall_forall. unfold lowercase.
  split; intros H b Hb; specialize (H b); rewrite <-?list_elem_of_In in *; [|specialize (H Hb); apply andb_true_iff; split; apply Z.leb_le; lia].
  specialize (H Hb). apply andb_true_iff in H as [?%Z.leb_le ?%Z.leb_le]. lia.
Qed.
Lemma safetyWords_safe w : w ∈ safetyWords → safety_word w.
Proof.
  intros Hw. destruct safetyWords_shape as [_ H]. apply (proj1 (list.Forall_forall _ _) H) in Hw as [Hl Hc].
  split; [by apply lowercase_letters|done].
Qed.

Lemma canonical_word_spec w w' :
  canonical_word w = Some w' ↔ ToLower (TrimSpace w) = w' ∧ safety_word w'.
Proof.
  unfold canonical_word, safety_word. case_guard G.
  - split; [done|]. intros [<- [Hl%lowercase_letters Hn]]. rewrite Hl in G. exfalso.
    repeat (apply orb_true_iff in G as [G|G]); [apply Nat.ltb_lt in G; lia..|done].
  - apply orb_false_iff in G as [G Hc%negb_false_iff]. apply orb_false_iff in G as [H1%Nat.ltb_ge H2%Nat.ltb_ge].
    apply lowercase_letters in Hc. split; [intros [= <-]; split; [done|split; [done|lia]]|by intros [-> _]].
Qed.
Lemma canonical_safe w : safety_word w → canonical_word w = Some w.
Proof.
  intros H. apply canonical_word_spec. split; [|done]. destruct H as [Hl _]. by rewrite TrimSpace_letters, ToLower_letters.
Qed.
Lemma canonical_all ws : Forall safety_word ws → mapM canonical_word ws = Some ws.
Proof. induction 1 as [|w ws Hw _ IH]; [done|]. cbn. by rewrite canonical_safe, IH by done. Qed.
Lemma canonical_range ws ws' : mapM canonical_word ws = Some ws' → Forall safety_word ws'.
Proof.
  intros H%mapM_Some. induction H as [|w w' ws ws' Hw _ IH]; constructor; [|done]. by apply canonical_word_spec in Hw as [_ ?].
Qed.
Lemma safe_no_NUL ws : Forall safety_word ws → Forall (λ w, NUL ∉ w) ws.
Proof.
  apply Forall_impl. intros w [Hl _] Hin. apply (proj1 (list.Forall_forall _ _) Hl) in Hin. change (b2z NUL) with 0 in Hin. lia.
Qed.

(** The comparison of the joined groups is the comparison of the words. *)
Lemma words_match_spec words expected :
  expected ≠ [] → Forall safety_word expected → words_match words expected = true ↔ mapM canonical_word words = Some expected.
Proof.
  intros Hne Hs. unfold words_match, canonicalComparisonGroup. rewrite bool_decide_eq_true.
  destruct (mapM canonical_word words) as [ws|] eqn:E; [|done]. cbn [fmap option_fmap option_map].
  split; [|by intros [= ->]]. intros [= H]. f_equal. apply canonical_range in E.
  destruct ws as [|w ws].
  - exfalso. destruct expected as [|e expected]; [done|]. apply Forall_cons_iff in Hs as [[_ He] _].
    destruct expected; cbn in H; subst; [cbn in He; lia|]. destruct e; [cbn in He; lia|done].
  - rewrite <-(Split_Join NUL (w :: ws)), H, Split_Join; [done|done|by apply safe_no_NUL|done|by apply safe_no_NUL].
Qed.

(** No two places of the vocabulary hold the same word. *)
Lemma string_lt_irrefl w : string_lt w w = false.
Proof. induction w as [|b w IH]; [done|]. cbn. by rewrite Z.ltb_irrefl, Z.eqb_refl, IH. Qed.
Lemma string_lt_trans a b c : string_lt a b = true → string_lt b c = true → string_lt a c = true.
Proof.
  revert b c. induction a as [|x a IH]; intros [|y b] [|z c]; try done. cbn [string_lt].
  intros [H1%Z.ltb_lt|[H1%Z.eqb_eq H1']%andb_true_iff]%orb_true_iff [H2%Z.ltb_lt|[H2%Z.eqb_eq H2']%andb_true_iff]%orb_true_iff;
    apply orb_true_iff; try (left; apply Z.ltb_lt; lia).
  right. apply andb_true_iff. split; [apply Z.eqb_eq; lia|by apply (IH b)].
Qed.
Lemma check_words_sorted values previous :
  check_words values previous = Ok () → NoDup values ∧ ∀ v, v ∈ values → string_lt previous v = true.
Proof.
  revert previous. induction values as [|v values IH]; intros previous; [split; [by constructor|set_solver]|]. cbn [check_words].
  case_guard G; [done|]. case_guard G1; [done|]. intros [Hnd Hlt]%IH. apply orb_false_iff in G as [_ G%negb_false_iff].
  split.
  - apply list.NoDup_cons. split; [|done]. intros H%Hlt. by rewrite string_lt_irrefl in H.
  - intros w [->|Hw]%elem_of_cons; [done|]. by apply (string_lt_trans _ v), Hlt.
Qed.
Lemma safetyWords_NoDup : NoDup safetyWords.
Proof.
  pose proof wordList_ok as H. unfold wordList in H. revert H. case_guard G; [done|].
  destruct (CutSuffix _ _) as [body|]; [|done]. case_guard G1; [done|].
  destruct (check_words _ _) as [[]|] eqn:E; [|done]. cbn [mbind result_bind]. intros <-%Ok_inj.
  by apply check_words_sorted in E as [? _].
Qed.

Lemma groups_inj (d d' : arr Size) : words_of safetyWords d = words_of safetyWords d' → groups d = groups d'.
Proof.
  rewrite !words_of_spec. pose proof (groups_range d) as H. pose proof (groups_range d') as H'. revert H H'.
  generalize (groups d) (groups d'). induction l as [|i l IH]; intros [|j l'] H H'; [done..|].
  apply Forall_cons_iff in H as [Hi H]. apply Forall_cons_iff in H' as [Hj H']. cbn [fmap list_fmap]. intros [= Hn Hr].
  f_equal; [|by apply IH]. destruct safetyWords_shape as [Hlen _]. pose proof safetyWords_NoDup as Hnd.
  apply (proj1 (List.NoDup_nth safetyWords [])) in Hn; [lia|by apply NoDup_ListNoDup|rewrite Hlen; lia..].
Qed.

(** ** Shapes *)

Definition authority_ok (s : TargetSession) : Prop :=
  match phase s with
  | PhasePendingComparison | PhaseCancelled =>
      confirmedTranscriptSHA256 s = arr_zero Size ∧ responseSHA256 s = arr_zero Size ∧ boundResponseBytes s = []
  | PhaseTranscriptConfirmed =>
      confirmedTranscriptSHA256 s ≠ arr_zero Size ∧ confirmedTranscriptSHA256 s = transcriptSHA256 s
      ∧ responseSHA256 s = arr_zero Size ∧ boundResponseBytes s = []
  | PhaseResponseVerified | PhaseApplied | PhaseReady =>
      confirmedTranscriptSHA256 s ≠ arr_zero Size ∧ confirmedTranscriptSHA256 s = transcriptSHA256 s
      ∧ responseSHA256 s ≠ arr_zero Size ∧ boundResponseBytes s ≠ [] ∧ sha256 (boundResponseBytes s) = responseSHA256 s
  | OtherPhase _ => False
  end.
Record shape (s : TargetSession) : Prop := {
  sh_generation : generation s ≠ 0;
  sh_invitation : invitationBytes s ≠ [];
  sh_request : requestBytes s ≠ [];
  sh_encrypted : encryptedRequestBytes s ≠ [];
  sh_authority : authority_ok s }.

Ltac guards :=
  repeat first
    [ progress bool_prop
    | match goal with
      | |- context [bool_decide ?P] => destruct (bool_decide P) eqn:?
      | H : context [bool_decide ?P] |- _ => destruct (bool_decide P) eqn:?
      | |- context [?a =? ?b] => destruct (a =? b) eqn:?
      end ].
(** Evaluates the tests that a hypothesis decides. *)
Ltac decide_known :=
  repeat match goal with
  | H : ?P |- context [bool_decide ?P] => rewrite (bool_decide_eq_true_2 P H)
  | H : ¬ ?P |- context [bool_decide ?P] => rewrite (bool_decide_eq_false_2 P H)
  end.
Lemma validateShape_spec s : validateShape s = Ok () ↔ shape s.
Proof.
  unfold validateShape, zero_digest. split.
  - case_guard G; [done|]. bool_prop. intros Hs. split; [done..|]. unfold authority_ok. revert Hs.
    destruct (phase s); try done; guards; cbn; try done; intros _; by split_and?; subst.
  - intros [? ? ? ? Ha]. unfold authority_ok in Ha. rewrite (proj2 (Z.eqb_neq _ _)), !bool_decide_eq_false_2 by done.
    destruct (phase s); [destruct_and?..|done]; decide_known; done.
Qed.

(** ** Mutations *)

(** What no mutation changes. *)
Definition fixed (s : TargetSession) :=
  (invitationBytes s, requestBytes s, encryptedRequestBytes s, invitationSHA256 s, requestSHA256 s, encryptedRequestSHA256 s,
   transcriptSHA256 s, phrase s, session_invitation s).

Section Env.
Context (x : session_env).

Lemma verify_fixed s s' e : fixed s = fixed s' → verifyBoundResponse x s e = verifyBoundResponse x s' e.
Proof. unfold fixed. intros [= _ _ _ Hi _ He Ht _ Hinv]. unfold verifyBoundResponse. by rewrite Hi, He, Ht, Hinv. Qed.

(** The cases of a mutation: nothing, or one of six advances of the generation. *)
Inductive mutation (s : TargetSession) : target_op → TargetSession → Prop :=
| MNone o : mutation s o s
| MConfirm words : phase s = PhasePendingComparison → words_match words (drop safetyWordsPerDirection (phrase s)) = true →
    mutation s (TConfirm words) (s <| generation := wrapu64 (generation s + 1) |> <| phase := PhaseTranscriptConfirmed |>
                                   <| confirmedTranscriptSHA256 := transcriptSHA256 s |>)
| MMismatch words : phase s = PhasePendingComparison → all_empty words = false →
    words_match words (drop safetyWordsPerDirection (phrase s)) = false →
    mutation s (TConfirm words) (s <| generation := wrapu64 (generation s + 1) |> <| phase := PhaseCancelled |>
                                   <| confirmedTranscriptSHA256 := arr_zero Size |>)
| MCancel : phase s ≠ PhaseCancelled → phase s ≠ PhaseApplied → phase s ≠ PhaseReady →
    mutation s TCancel (s <| generation := wrapu64 (generation s + 1) |> <| phase := PhaseCancelled |>
      <| confirmedTranscriptSHA256 := arr_zero Size |> <| responseSHA256 := arr_zero Size |> <| boundResponseBytes := [] |>)
| MAccept encoded response : phase s = PhaseTranscriptConfirmed → confirmedTranscriptSHA256 s = transcriptSHA256 s →
    verifyBoundResponse x s encoded = Ok response →
    mutation s (TAccept encoded) (s <| generation := wrapu64 (generation s + 1) |> <| phase := PhaseResponseVerified |>
      <| responseSHA256 := sha256 encoded |> <| boundResponseBytes := encoded |>)
| MApplied : phase s = PhaseResponseVerified →
    mutation s TApplied (s <| generation := wrapu64 (generation s + 1) |> <| phase := PhaseApplied |>)
| MReady : phase s = PhaseApplied →
    mutation s (TReady true true) (s <| generation := wrapu64 (generation s + 1) |> <| phase := PhaseReady |>).
Lemma target_apply_mutation o s : mutation s o (target_apply x o s).
Proof.
  destruct o as [words| |e| |live probe]; cbn [target_apply].
  - unfold ConfirmProvisionerWords. case_guard G; [by constructor|]. bool_prop. case_guard G1; [by constructor|].
    case_guard G2; bool_prop; by constructor.
  - unfold Cancel. destruct (phase s) eqn:E; try (apply MCancel; congruence); by constructor.
  - unfold AcceptBoundResponse. case_guard G; [by constructor|]. bool_prop.
    destruct (verifyBoundResponse x s e) eqn:E; [by eapply MAccept|by constructor].
  - unfold RecordApplied. case_guard G; [by constructor|]. case_guard G1; [by constructor|]. bool_prop. by constructor.
  - unfold CompleteReadyProbe. case_guard G; [by constructor|]. destruct live, probe; try by constructor. bool_prop. by constructor.
Qed.

Lemma target_run_snoc ops o s : target_run x (ops ++ [o]) s = target_apply x o (target_run x ops s).
Proof. unfold target_run. by rewrite foldl_app. Qed.
Lemma mutation_fixed s o s' : mutation s o s' → fixed s' = fixed s.
Proof. by destruct 1. Qed.
Lemma run_fixed ops s : fixed (target_run x ops s) = fixed s.
Proof.
  induction ops as [|o ops IH] using rev_ind; [done|]. rewrite target_run_snoc.
  by rewrite (mutation_fixed _ _ _ (target_apply_mutation o _)).
Qed.
Lemma mutation_generation s o s' : mutation s o s' → s' = s ∨ generation s' = wrapu64 (generation s + 1).
Proof. destruct 1; [by left|by right..]. Qed.

Lemma verify_bound s e response : verifyBoundResponse x s e = Ok response → out_of_bound MaxBoundResponseSize e = false.
Proof. unfold verifyBoundResponse, signed_payload. by case_guard G. Qed.
Lemma out_of_bound_nil n : out_of_bound n [] = true.
Proof. done. Qed.

Lemma mutation_shape s o s' :
  mutation s o s' → shape s → transcriptSHA256 s ≠ arr_zero Size → 0 <= generation s < 2 ^ 64 - 1 →
  (∀ e, o = TAccept e → sha256 e ≠ arr_zero Size) → shape s'.
Proof.
  intros H [Hg H1 H2 H3 Ha] Ht Hr Hd. assert (wrapu64 (generation s + 1) ≠ 0) as Hw by (unfold wrapu64; rewrite Z.mod_small; lia).
  unfold authority_ok in Ha.
  destruct H as [o|words Hp|words Hp|Hp Hp1 Hp2|e r Hp Hc Hv|Hp|Hp]; try rewrite Hp in Ha; (split; [done || exact Hg|done..|]).
  - done.
  - cbn. destruct Ha as (_ & Hz & Hb). done.
  - cbn. destruct Ha as (_ & Hz & Hb). done.
  - done.
  - cbn. destruct Ha as (Hn & _). split_and!; try done; [by apply Hd|]. intros ->. apply verify_bound in Hv. done.
  - cbn. done.
  - cbn. done.
Qed.
End Env.

(** ** Histories *)

Definition safe_phrase (phrase : list text) : Prop := length phrase = SafetyWordCount ∧ Forall safety_word phrase.
Lemma phrase_safe d p : phraseFromTranscriptDigest d = Ok p → safe_phrase p.
Proof.
  rewrite phrase_ok. intros <-%Ok_inj. split; [by rewrite length_app, !length_words_of|].
  apply Forall_app; split; (eapply Forall_impl; [|apply words_of_valid]); intros w Hw; by apply safetyWords_safe.
Qed.
Lemma safe_half p : safe_phrase p →
  (drop safetyWordsPerDirection p ≠ [] ∧ Forall safety_word (drop safetyWordsPerDirection p))
  ∧ (take safetyWordsPerDirection p ≠ [] ∧ Forall safety_word (take safetyWordsPerDirection p)).
Proof.
  intros [Hl Hf]. unfold safetyWordsPerDirection in *. split; (split; [|by apply Forall_drop || apply Forall_take]).
  - intros H%(f_equal length). rewrite length_drop, Hl in H. cbn in H. lia.
  - intros H%(f_equal length). rewrite length_take, Hl in H. cbn in H. lia.
Qed.

#[local] Opaque phraseFromTranscriptDigest transcriptDigest.

(** What a session starts from. *)
Lemma buildPreparedTranscript_ok i r e p t :
  buildPreparedTranscript i r e p = Ok t →
  transcriptDigest i r e = Ok (pt_fullSHA256 t) ∧ phraseFromTranscriptDigest (pt_fullSHA256 t) = Ok (pt_phrase t)
  ∧ t = {| pt_invitationSHA256 := sha256 i; pt_requestSHA256 := sha256 r; pt_encryptedRequestSHA256 := sha256 e;
           pt_fullSHA256 := pt_fullSHA256 t; pt_phrase := pt_phrase t; pt_request := p; pt_requestBytes := r;
           pt_encryptedRequestBytes := e |}.
Proof.
  unfold buildPreparedTranscript.
  intros (d & Hd%within_inv & (w & Hw%within_inv & <-%Ok_inj)%bind_inv)%bind_inv. by split_and!.
Qed.
Lemma targetSessionFromPrepared_ok inv b p g ph c r s :
  targetSessionFromPrepared inv b p g ph c r = Ok s →
  shape s ∧ validTargetPhase ph = true ∧ s = {| generation := g; phase := ph; invitationBytes := b; requestBytes := pt_requestBytes p;
    encryptedRequestBytes := pt_encryptedRequestBytes p; invitationSHA256 := pt_invitationSHA256 p; requestSHA256 := pt_requestSHA256 p;
    encryptedRequestSHA256 := pt_encryptedRequestSHA256 p; transcriptSHA256 := pt_fullSHA256 p; confirmedTranscriptSHA256 := c;
    responseSHA256 := if bool_decide (r = []) then arr_zero Size else sha256 r; boundResponseBytes := r; phrase := pt_phrase p;
    session_invitation := inv |}.
Proof.
  unfold targetSessionFromPrepared. case_guard G; [done|]. destruct (validateShape _) as [[]|] eqn:E; [|done].
  cbn [mbind result_bind]. intros <-%Ok_inj. bool_prop. by apply validateShape_spec in E.
Qed.

Section Env.
Context (x : session_env).
Implicit Types (s : TargetSession) (ops : list target_op).

(** The bytes of a new session and what they were checked for. *)
Record started (seed : list byte) (random : nat → option (list byte)) (invitationBytes request : list byte) (now : Z)
    (s : TargetSession) (t : tentativeInvitation) (payload : RequestPayload) : Prop := {
  sd_parsed : parseTentativeInvitation (se_inv x) invitationBytes now = Ok t;
  sd_request : ParseRequest (se_req x) request now = Ok payload;
  sd_bound : bindRequestToInvitation (Invitation t) payload = Ok ();
  sd_sealed : sealRequest x seed random request (RequestEncryptionRecipient (Invitation t)) now = Ok (encryptedRequestBytes s);
  sd_digest : transcriptDigest invitationBytes request (encryptedRequestBytes s) = Ok (transcriptSHA256 s);
  sd_phrase : phraseFromTranscriptDigest (transcriptSHA256 s) = Ok (phrase s);
  sd_shape : shape s;
  sd_fields : s = {| generation := 1; phase := PhasePendingComparison; invitationBytes := invitationBytes; requestBytes := request;
    encryptedRequestBytes := encryptedRequestBytes s; invitationSHA256 := sha256 invitationBytes; requestSHA256 := sha256 request;
    encryptedRequestSHA256 := sha256 (encryptedRequestBytes s); transcriptSHA256 := transcriptSHA256 s;
    confirmedTranscriptSHA256 := arr_zero Size; responseSHA256 := arr_zero Size; boundResponseBytes := [];
    phrase := phrase s; session_invitation := Invitation t |} }.
Lemma validateTentativeHandle_ok t now inv :
  validateTentativeHandle (se_inv x) t now = Ok inv → inv = Invitation t.
Proof.
  unfold validateTentativeHandle. destruct (parseTentativeInvitation _ _ _) as [p|]; [|done]. cbn [mbind result_bind].
  case_guard G; [done|]. intros <-%Ok_inj. by bool_prop.
Qed.
Lemma parse_Encoded b now t : parseTentativeInvitation (se_inv x) b now = Ok t → Encoded t = b.
Proof.
  by intros (? & _)%parseTentativeInvitation_ok.
Qed.
Lemma NewTargetSession_ok seed random b r now s :
  NewTargetSession x seed random b r now = Ok s → ∃ t payload, started seed random b r now s t payload.
Proof.
  unfold NewTargetSession. destruct (parseTentativeInvitation _ b now) as [t|] eqn:Et; [|done]. cbn [within mbind result_bind].
  unfold prepareTargetTranscript. destruct (validateTentativeHandle _ t now) as [inv|] eqn:Ei; [|done]. cbn [within mbind result_bind].
  apply validateTentativeHandle_ok in Ei as ->.
  destruct (ParseRequest _ r now) as [p|] eqn:Ep; [|done]. cbn [within mbind result_bind].
  destruct (bindRequestToInvitation _ p) as [[]|] eqn:Eb; [|done]. cbn [within mbind result_bind].
  destruct (sealRequest _ _ _ _ _ _) as [c|] eqn:Es; [|done]. cbn [mbind result_bind].
  destruct (buildPreparedTranscript _ _ _ _) as [pt|] eqn:Ept; [|done]. cbn [mbind result_bind].
  intros (Hsh & _ & ->)%targetSessionFromPrepared_ok. apply buildPreparedTranscript_ok in Ept as (Hd & Hph & Hpt).
  rewrite (parse_Encoded _ _ _ Et) in *. exists t, p.
  rewrite Hpt in Hsh |- *. cbn in Hsh, Hd, Hph |- *. by split.
Qed.
End Env.

(** ** Properties *)

(** C21. Sessions stay well shaped: whatever sequence of mutations a well-shaped session goes
    through (words, cancellations, responses, applications, probes, accepted or refused),
    it remains well shaped, as its encoder demands; its exact bytes, digests and phrase
    never change, and its generation only grows. The hypotheses exclude the exhaustion of
    the 64-bit generation and the all-zero digest, which the code reads as no digest. *)
Theorem session_shape (x : session_env) (ops : list target_op) (s : TargetSession) :
  validateShape s = Ok () → transcriptSHA256 s ≠ arr_zero Size → (∀ e, TAccept e ∈ ops → sha256 e ≠ arr_zero Size) →
  0 <= generation s → generation s + Z.of_nat (length ops) < 2 ^ 64 →
  let s' := target_run x ops s in
  validateShape s' = Ok () ∧ fixed s' = fixed s ∧ generation s <= generation s' <= generation s + Z.of_nat (length ops).
Proof.
  rewrite validateShape_spec. intros Hs Ht Hd Hg Hb. cbv zeta. rewrite validateShape_spec, run_fixed. revert Hd Hb.
  induction ops as [|o ops IH] using rev_ind; intros Hd Hb; [change (target_run x [] s) with s; split_and!; (done || lia)|].
  rewrite length_app in *. cbn [length] in *. rewrite target_run_snoc.
  destruct IH as (IHs & _ & IHg); [intros e He; apply Hd, elem_of_app; by left|lia|].
  pose proof (target_apply_mutation x o (target_run x ops s)) as Hm. split; [|split; [done|]].
  - eapply mutation_shape; [exact Hm|exact IHs| |lia|].
    + pose proof (run_fixed x ops s) as Hf. unfold fixed in Hf. congruence.
    + intros e ->. apply Hd, elem_of_app. right. by left.
  - apply mutation_generation in Hm as [->| ->]; [lia|]. unfold wrapu64. rewrite Z.mod_small; lia.
Qed.

(** An event of a history: a mutation attempted in a given phase. *)
Definition event (x : session_env) (ops : list target_op) (s : TargetSession) (o : target_op) (p : SessionPhase) : Prop :=
  ∃ before after, ops = before ++ o :: after ∧ phase (target_run x before s) = p.
Lemma event_snoc x ops o s o' p : event x ops s o' p → event x (ops ++ [o]) s o' p.
Proof. intros (b & a & -> & H). exists b, (a ++ [o]). by rewrite <-app_assoc. Qed.
Lemma event_last x ops o s p : phase (target_run x ops s) = p → event x (ops ++ [o]) s o p.
Proof. intros H. by exists ops, []. Qed.

(** How far a session is towards activation. *)
Definition progress (p : SessionPhase) : nat :=
  match p with
  | PhaseTranscriptConfirmed => 1 | PhaseResponseVerified => 2 | PhaseApplied => 3 | PhaseReady => 4
  | PhasePendingComparison | PhaseCancelled | OtherPhase _ => 0
  end.
(** Where a phase comes from. *)
Record activation (x : session_env) (ops : list target_op) (s s' : TargetSession) : Prop := {
  ac_confirmed : (1 <= progress (phase s'))%nat →
    ∃ words, event x ops s (TConfirm words) PhasePendingComparison
      ∧ mapM canonical_word words = Some (drop safetyWordsPerDirection (phrase s))
      ∧ confirmedTranscriptSHA256 s' = transcriptSHA256 s;
  ac_verified : (2 <= progress (phase s'))%nat →
    ∃ response, event x ops s (TAccept (boundResponseBytes s')) PhaseTranscriptConfirmed
      ∧ verifyBoundResponse x s (boundResponseBytes s') = Ok response;
  ac_applied : (3 <= progress (phase s'))%nat → event x ops s TApplied PhaseResponseVerified;
  ac_ready : (4 <= progress (phase s'))%nat → event x ops s (TReady true true) PhaseApplied }.

(** A later mutation that keeps the confirmation and the response keeps the events so far. *)
Lemma activation_snoc x ops o s s1 s2 (n : nat) :
  activation x ops s s1 → progress (phase s1) = n → confirmedTranscriptSHA256 s2 = confirmedTranscriptSHA256 s1 →
  boundResponseBytes s2 = boundResponseBytes s1 →
  ((1 <= n)%nat → ∃ words, event x (ops ++ [o]) s (TConfirm words) PhasePendingComparison
      ∧ mapM canonical_word words = Some (drop safetyWordsPerDirection (phrase s))
      ∧ confirmedTranscriptSHA256 s2 = transcriptSHA256 s)
  ∧ ((2 <= n)%nat → ∃ response, event x (ops ++ [o]) s (TAccept (boundResponseBytes s2)) PhaseTranscriptConfirmed
      ∧ verifyBoundResponse x s (boundResponseBytes s2) = Ok response)
  ∧ ((3 <= n)%nat → event x (ops ++ [o]) s TApplied PhaseResponseVerified)
  ∧ ((4 <= n)%nat → event x (ops ++ [o]) s (TReady true true) PhaseApplied).
Proof.
  intros [I1 I2 I3 I4] <- -> ->. split_and!.
  - intros (words & ? & ?)%I1. exists words. split; [by apply event_snoc|done].
  - intros (r & ? & ?)%I2. exists r. split; [by apply event_snoc|done].
  - intros ?%I3. by apply event_snoc.
  - intros ?%I4. by apply event_snoc.
Qed.
Lemma run_activation x ops s :
  phase s = PhasePendingComparison → safe_phrase (phrase s) → activation x ops s (target_run x ops s).
Proof.
  intros Hp Hsafe. apply safe_half in Hsafe as [[Hne Hf] _]. induction ops as [|o ops IH] using rev_ind.
  { change (target_run x [] s) with s. split; rewrite Hp; cbn; lia. }
  pose proof (run_fixed x ops s) as Hfix.
  assert (transcriptSHA256 (target_run x ops s) = transcriptSHA256 s ∧ phrase (target_run x ops s) = phrase s) as [Ht Hph]
    by (unfold fixed in Hfix; split; congruence).
  rewrite target_run_snoc. pose proof (λ s2 n, activation_snoc x ops o s _ s2 n IH) as Hsn.
  destruct (target_apply_mutation x o (target_run x ops s)) as
    [o|words Hq Hw|words Hq Hw|Hq Hq1 Hq2|e r Hq Hc Hv|Hq|Hq]; (destruct (Hsn (target_run x ops s) _ eq_refl eq_refl eq_refl) as (H1 & H2 & H3 & H4) || idtac).
  - by split.
  - split; cbn; try lia. intros _. exists words. split; [by apply event_last|].
    rewrite Hph, words_match_spec in Hw by done. done.
  - split; cbn; lia.
  - split; cbn; lia.
  - rewrite Hq in *. split; cbn; try lia; intros _; [apply H1; cbn; lia|].
    exists r. split; [by apply event_last|]. by rewrite <-(verify_fixed x _ _ _ Hfix).
  - rewrite Hq in *. split; cbn; try lia; intros _; [apply H1; cbn; lia|apply H2; cbn; lia|by apply event_last].
  - rewrite Hq in *. split; cbn; try lia; intros _; [apply H1; cbn; lia|apply H2; cbn; lia|apply H3; cbn; lia|by apply event_last].
Qed.

Lemma started_safe x seed random b r now s t p : started x seed random b r now s t p → safe_phrase (phrase s).
Proof. intros H. eapply phrase_safe, (sd_phrase _ _ _ _ _ _ _ _ _ H). Qed.

(** C4. No activation without the comparison and the operator's response: in every history
    of a new session, a confirmed (or later) phase was reached by an attempt, while the
    comparison was pending, whose three words are the provisioner's half of the phrase of
    this exact transcript; a verified (or later) phase by the acceptance, after that, of a
    response that binds this transcript and carries the signature of the invitation's
    signer; an applied phase by a recorded application of that response; READY by a
    successful probe after that. *)
Theorem activation_requires_comparison (x : session_env) (seed : list byte) (random : nat → option (list byte))
    (b r : list byte) (now : Z) (s : TargetSession) (ops : list target_op) :
  NewTargetSession x seed random b r now = Ok s →
  let s' := target_run x ops s in
  activation x ops s s'
  ∧ ∀ encoded response, verifyBoundResponse x s encoded = Ok response →
      ∃ payload signature publicKey, parse_public (se_inv x) (DeploymentSignerPublicPEM (session_invitation s)) = Some publicKey
        ∧ Verify (inv_ed (se_inv x)) boundResponseSignatureDomain (encode_bound x payload) signature publicKey = Ok ()
        ∧ brp_TranscriptSHA256 payload = digest_hex (transcriptSHA256 s)
        ∧ decodeCanonicalBase64 (brp_EnrollmentResponse payload) = Some response.
Proof.
  intros (t & p & Hs)%NewTargetSession_ok. cbv zeta. split.
  - apply run_activation; [by rewrite (sd_fields _ _ _ _ _ _ _ _ _ Hs)|by eapply started_safe].
  - intros encoded response. unfold verifyBoundResponse, signed_payload.
    intros (pb & (_ & Hsig)%guard_inv & H)%bind_inv. destruct (decode_envelope_json _ encoded) as [e|]; [|done].
    apply guard_inv in Hsig as [_ Hsig]. destruct (decodeCanonicalBase64 (env_Payload e)) as [q|]; [|done].
    destruct (decodeCanonicalBase64 (env_Signature e)) as [sg|]; [|done]. apply guard_inv in Hsig as [_ Hsig].
    destruct (parse_public _ _) as [k|]; [|done]. apply guard_inv in Hsig as [_ Hsig]. apply guard_inv in Hsig as [Hv <-%Ok_inj].
    destruct (decode_bound x q) as [pay|]; [|done]. apply guard_inv in H as [Hc H]. apply guard_inv in H as [Hd H].
    destruct (decodeCanonicalBase64 (brp_EnrollmentResponse pay)) as [re|] eqn:Er; [|done]. apply guard_inv in H as [_ <-%Ok_inj].
    bool_prop. subst q. exists pay, sg, k. split_and!; try done. by destruct (Verify _ _ _ _ _) as [[]|].
Qed.

(** ** The comparison of both sides *)

Lemma confirm_target x seed random b r now s words :
  NewTargetSession x seed random b r now = Ok s →
  (ConfirmProvisionerWords words s).2 =
    Ok (if all_empty words then OutcomeDeferred
        else if bool_decide (mapM canonical_word words = Some (drop safetyWordsPerDirection (phrase s)))
             then OutcomeConfirmed else OutcomeCancelled).
Proof.
  intros (t & p & Hs)%NewTargetSession_ok. unfold ConfirmProvisionerWords.
  assert (phase s = PhasePendingComparison) as -> by by rewrite (sd_fields _ _ _ _ _ _ _ _ _ Hs).
  rewrite bool_decide_eq_true_2 by done. cbn [negb]. destruct (all_empty words); [done|].
  apply started_safe, safe_half in Hs as [[Hne Hf] _]. pose proof (words_match_spec words _ Hne Hf) as Hm.
  case_bool_decide as E; [rewrite (proj2 Hm E)|destruct (words_match _ _); [by destruct E; apply Hm|]]; done.
Qed.
Lemma NewOperatorSession_ok x receipt encrypted now o :
  NewOperatorSession x receipt encrypted now = Ok o →
  ∃ r, parseOperatorReceipt x receipt now = Ok r
    ∧ prepareOperatorTranscript x (por_tentative r) (por_operator r) encrypted now = Ok (op_prepared o)
    ∧ o = {| op_generation := 1; op_phase := PhasePendingComparison; op_receiptBytes := por_encoded r;
             op_encryptedRequestBytes := encrypted; op_transcriptSHA256 := pt_fullSHA256 (op_prepared o);
             op_confirmedTranscriptSHA256 := arr_zero Size; op_phrase := pt_phrase (op_prepared o); op_receipt := r;
             op_prepared := op_prepared o |}.
Proof.
  unfold NewOperatorSession. intros (rc & Hr & (p & Hp & H)%bind_inv)%bind_inv. unfold operatorSessionFromPrepared in H.
  apply guard_inv in H as [_ ([] & _ & <-%Ok_inj)%bind_inv]. by exists rc.
Qed.
Lemma prepared_phrase x t operator encrypted now p :
  prepareOperatorTranscript x t operator encrypted now = Ok p → phraseFromTranscriptDigest (pt_fullSHA256 p) = Ok (pt_phrase p).
Proof.
  unfold prepareOperatorTranscript.
  intros (inv & _ & ([] & _ & ([rq pay] & _ & ([] & _ & (_ & Hp & _)%buildPreparedTranscript_ok)%bind_inv)%bind_inv)%bind_inv)%bind_inv.
  done.
Qed.
Lemma confirm_operator x receipt encrypted now o words :
  NewOperatorSession x receipt encrypted now = Ok o →
  (ConfirmTargetWords words o).2 =
    Ok (if all_empty words then OutcomeDeferred
        else if bool_decide (mapM canonical_word words = Some (take safetyWordsPerDirection (op_phrase o)))
             then OutcomeConfirmed else OutcomeCancelled).
Proof.
  intros (r & _ & Hp & Ho)%NewOperatorSession_ok. unfold ConfirmTargetWords.
  assert (op_phase o = PhasePendingComparison ∧ op_phrase o = pt_phrase (op_prepared o)) as [-> ->] by by rewrite Ho.
  rewrite bool_decide_eq_true_2 by done. cbn [negb]. destruct (all_empty words); [done|].
  apply prepared_phrase, phrase_safe, safe_half in Hp as [_ [Hne Hf]]. pose proof (words_match_spec words _ Hne Hf) as Hm.
  case_bool_decide as E; [rewrite (proj2 Hm E)|destruct (words_match _ _); [by destruct E; apply Hm|]]; done.
Qed.
(** A cancelled session stays cancelled. *)
Lemma cancelled_final x ops s : phase s = PhaseCancelled → target_run x ops s = s.
Proof.
  intros Hp. induction ops as [|o ops IH] using rev_ind; [done|]. rewrite target_run_snoc, IH.
  destruct (target_apply_mutation x o s); congruence.
Qed.

Lemma halves d p : phraseFromTranscriptDigest d = Ok p →
  take safetyWordsPerDirection p = words_of safetyWords (comparisonDigest targetToProvisionerDomain d)
  ∧ drop safetyWordsPerDirection p = words_of safetyWords (comparisonDigest provisionerToTargetDomain d).
Proof.
  rewrite phrase_ok. intros <-%Ok_inj.
  by rewrite take_app_length', drop_app_length' by by rewrite length_words_of.
Qed.

Lemma operator_cancelled_final submissions o : op_phase o = PhaseCancelled → operator_run submissions o = o.
Proof.
  intros Hp. unfold operator_run. induction submissions as [|ws l IH]; [done|]. cbn [foldl]. unfold ConfirmTargetWords at 2.
  by rewrite bool_decide_eq_false_2 by congruence.
Qed.

(** What the words decide against a half of the phrase. *)
Definition decided (words half : list text) : ConfirmationOutcome :=
  if all_empty words then OutcomeDeferred
  else if bool_decide (mapM canonical_word words = Some half) then OutcomeConfirmed else OutcomeCancelled.

(** C19. The comparison, on each side, the target's and the operator's: blank input defers and
    changes nothing; exactly the words of the other half (up to case and surrounding space)
    confirm this transcript; anything else cancels for good, whatever is tried later. When
    the operator confirms the words that the target shows, and the target confirms the ones
    that the operator then reveals, the two transcripts agree on the 33 bits of each
    direction: the words name their bits, for no two places of the vocabulary are equal. *)
Theorem comparison_exact (x : session_env) (seed : list byte) (random : nat → option (list byte))
    (b r receipt encrypted : list byte) (now now' : Z) (s : TargetSession) (o : OperatorSession) :
  NewTargetSession x seed random b r now = Ok s → NewOperatorSession x receipt encrypted now' = Ok o →
  (∀ words, let '(s', outcome) := ConfirmProvisionerWords words s in
    let verdict := decided words (drop safetyWordsPerDirection (phrase s)) in
    outcome = Ok verdict
    ∧ match verdict with
      | OutcomeDeferred => s' = s
      | OutcomeConfirmed => phase s' = PhaseTranscriptConfirmed ∧ confirmedTranscriptSHA256 s' = transcriptSHA256 s
      | OutcomeCancelled => ∀ ops, phase (target_run x ops s') = PhaseCancelled
      end)
  ∧ (∀ words, let '(o', outcome) := ConfirmTargetWords words o in
    let verdict := decided words (take safetyWordsPerDirection (op_phrase o)) in
    outcome = Ok verdict
    ∧ match verdict with
      | OutcomeDeferred => o' = o
      | OutcomeConfirmed => op_phase o' = PhaseTranscriptConfirmed ∧ op_confirmedTranscriptSHA256 o' = op_transcriptSHA256 o
      | OutcomeCancelled => ∀ submissions, op_phase (operator_run submissions o') = PhaseCancelled
                              ∧ ProvisionerWords (operator_run submissions o') = Err ReverseWordsHidden
      end)
  ∧ ∀ shown revealed,
      TargetWords s = Ok shown → (ConfirmTargetWords shown o).2 = Ok OutcomeConfirmed →
      ProvisionerWords (ConfirmTargetWords shown o).1 = Ok revealed →
      (ConfirmProvisionerWords revealed s).2 = Ok OutcomeConfirmed →
      groups (comparisonDigest targetToProvisionerDomain (transcriptSHA256 s))
        = groups (comparisonDigest targetToProvisionerDomain (op_transcriptSHA256 o))
      ∧ groups (comparisonDigest provisionerToTargetDomain (transcriptSHA256 s))
        = groups (comparisonDigest provisionerToTargetDomain (op_transcriptSHA256 o)).
Proof.
  intros Hs Ho. split; [|split].
  - intros words. pose proof (confirm_target x seed random b r now s words Hs) as Hv. fold (decided words (drop safetyWordsPerDirection (phrase s))) in Hv.
    revert Hv. unfold ConfirmProvisionerWords. destruct (bool_decide (phase s = _)); [cbn [negb]|done].
    destruct (all_empty words) eqn:Ee; [unfold decided; by rewrite Ee|].
    destruct (words_match _ _); cbn [negb snd]; intros <-%Ok_inj; (split; [done|]); [done|]. intros ops. by rewrite cancelled_final.
  - intros words. pose proof (confirm_operator x receipt encrypted now' o words Ho) as Hv. fold (decided words (take safetyWordsPerDirection (op_phrase o))) in Hv.
    revert Hv. unfold ConfirmTargetWords. destruct (bool_decide (op_phase o = _)); [cbn [negb]|done].
    destruct (all_empty words) eqn:Ee; [unfold decided; by rewrite Ee|].
    destruct (words_match _ _); cbn [negb snd]; intros <-%Ok_inj; (split; [done|]); [done|]. intros l. by rewrite operator_cancelled_final.
  - intros shown revealed Hw Hc1 Hr Hc2. rewrite (confirm_operator _ _ _ _ _ _ Ho) in Hc1.
    rewrite (confirm_target _ _ _ _ _ _ _ _ Hs) in Hc2.
    destruct (all_empty shown); [done|]. destruct (all_empty revealed); [done|].
    case_bool_decide as E2; [|done]. case_bool_decide as E1; [|done].
    assert (op_phrase (ConfirmTargetWords shown o).1 = op_phrase o) as Hop.
    { unfold ConfirmTargetWords. by repeat (case_guard G; clear G). }
    unfold ProvisionerWords in Hr. apply guard_inv in Hr as [_ <-%Ok_inj].
    rewrite Hop in E2. clear Hop.
    unfold TargetWords in Hw. apply guard_inv in Hw as [_ <-%Ok_inj].
    apply NewTargetSession_ok in Hs as (t & p & Hs). pose proof (sd_phrase _ _ _ _ _ _ _ _ _ Hs) as Hps.
    apply NewOperatorSession_ok in Ho as (rc & _ & Hp & Ho). apply prepared_phrase in Hp.
    pose proof (f_equal op_phrase Ho) as Eq1. pose proof (f_equal op_transcriptSHA256 Ho) as Eq2.
    cbn [op_phrase op_transcriptSHA256] in Eq1, Eq2. clear Ho. rewrite Eq1 in E1, E2. rewrite Eq2.
    pose proof (safe_half _ (phrase_safe _ _ Hps)) as [_ [_ Hf1]]. pose proof (safe_half _ (phrase_safe _ _ Hp)) as [[_ Hf2] _].
    rewrite canonical_all in E1, E2 by done. apply halves in Hps as [H1 H2], Hp as [H3 H4].
    split; apply groups_inj; congruence.
Qed.

(** ** Witnesses: the ceremony of SessionDemo *)

Definition demo_words : list text := drop safetyWordsPerDirection (phrase demo_target).
Definition demo_ops : list target_op := [TConfirm demo_words; TApplied; TCancel].
Lemma session_shape_witness :
  let s' := target_run demo_session_env demo_ops demo_target in
  validateShape s' = Ok () ∧ fixed s' = fixed demo_target ∧ generation demo_target <= generation s' <= generation demo_target + 3.
Proof.
  refine (session_shape demo_session_env demo_ops demo_target _ _ _ _ _).
  - vm_compute. reflexivity.
  - apply (bool_decide_unpack _). vm_compute. exact I.
  - intros e He. exfalso. unfold demo_ops in He.
    repeat (apply elem_of_cons in He as [He|He]; [discriminate He|]). by apply elem_of_nil in He.
  - apply (bool_decide_unpack _). vm_compute. exact I.
  - apply (bool_decide_unpack _). vm_compute. exact I.
Defined.
(** The response that the operator binds, and the whole way to READY. *)
Definition demo_confirmed_operator : OperatorSession :=
  (ConfirmTargetWords (take safetyWordsPerDirection (phrase demo_target)) demo_operator_session).1.
Definition demo_approved : text := hex_encode (replicate 32 Byte.x0a).
Definition ceremony_bound : list byte := Eval vm_compute in
  ok_or_nil (operator_BindResponse demo_session_env [Byte.x07] demo_approved demo_key demo_confirmed_operator).
Definition ready_ops : list target_op := [TConfirm demo_words; TAccept ceremony_bound; TApplied; TReady true true].
Lemma activation_requires_comparison_witness :
  let s' := target_run demo_session_env ready_ops demo_target in
  phase s' = PhaseReady ∧ activation demo_session_env ready_ops demo_target s'.
Proof.
  split; [vm_compute; reflexivity|].
  exact (proj1 (activation_requires_comparison demo_session_env [] demo_random ceremony_invitation ceremony_signed demo_now
    demo_target ready_ops demo_target_ok)).
Defined.
Lemma comparison_exact_witness :
  (ConfirmProvisionerWords demo_words demo_target).2 = Ok OutcomeConfirmed
  ∧ groups (comparisonDigest targetToProvisionerDomain (transcriptSHA256 demo_target))
    = groups (comparisonDigest targetToProvisionerDomain (op_transcriptSHA256 demo_operator_session)).
Proof.
  destruct (comparison_exact demo_session_env [] demo_random ceremony_invitation ceremony_signed ceremony_receipt
    (encryptedRequestBytes demo_target) demo_now demo_now demo_target demo_operator_session demo_target_ok demo_operator_ok) as (H1 & _ & H2).
  split.
  - specialize (H1 demo_words). destruct (ConfirmProvisionerWords demo_words demo_target) as [s' outcome]. cbv zeta in H1.
    destruct H1 as [H1 _]. rewrite H1. vm_compute. reflexivity.
  - refine (proj1 (H2 (take safetyWordsPerDirection (phrase demo_target)) demo_words _ _ _ _)); vm_compute; reflexivity.
Defined.
