(* ===== verification/CeremonySafety.v ===== *)
(** * The enrollment ceremony: both sessions together, and what is stored of them *)

From S2P Require Import Prelude GoIO Text Runes Sha256 Base64 Protocol Identifiers Signing PairToken Phrase Mailbox EnrollRequest Invitation InvitationSafety TargetSession OperatorSession Toy SessionDemo SessionSafety JsonText.

#[local] Opaque phraseFromTranscriptDigest transcriptDigest.

(** What encoding/json writes and reads back unchanged, as for invitations; a phase by its own
    name. *)
Definition named_phase (p : SessionPhase) : Prop := match p with OtherPhase _ => False | _ => True end.
Definition bound_wf (p : boundResponsePayload) : Prop :=
  valid_texts [brp_Schema p; brp_InvitationSHA256 p; brp_EncryptedRequestSHA256 p; brp_TranscriptSHA256 p;
    brp_ApprovedRequestSetSHA256 p; brp_EnrollmentResponse p].
Definition receipt_wf (p : operatorReceiptPayload) : Prop :=
  valid_texts [orp_Schema p; orp_Invitation p; orp_InvitationSHA256 p; IntendedRecipient p; IdentityContactReference p;
    orp_MailboxID p; orp_RequestReadCapability p; orp_ResponseWriteCapability p; orp_RequestDecryptionIdentity p].
Definition target_wf (v : encodedTargetSession) : Prop :=
  valid_texts [ets_Schema v; ets_Invitation v; ets_Request v; ets_EncryptedRequest v; ets_InvitationSHA256 v; ets_RequestSHA256 v;
    ets_EncryptedRequestSHA256 v; ets_TranscriptSHA256 v; ets_ConfirmedTranscriptSHA256 v; ets_ResponseSHA256 v; ets_BoundResponse v]
  ∧ uint64 (ets_Generation v) ∧ named_phase (ets_Phase v).

(** The documented laws of the parameters: what was marshalled, of values that JSON represents,
    is decoded, and what was encrypted to a recipient is decrypted by its identity. *)
Record session_law (x : session_env) : Prop := {
  sl_inv : env_law (se_inv x);
  sl_bound p : bound_wf p → decode_bound x (encode_bound x p) = Some p;
  sl_receipt p : receipt_wf p → decode_receipt x (encode_receipt x p) = Some p;
  sl_target v : target_wf v → decode_target x (encode_target x v ++ [newline]) = Some v;
  sl_age seed identity recipient plaintext ciphertext n :
    age_identity (se_inv x) identity = Some (identity, recipient) →
    age_encrypt x seed recipient plaintext = Some ciphertext →
    age_decrypt x identity ciphertext n = Some (take (Z.to_nat n) plaintext) }.

Lemma digest_valid d : ValidString (digest_hex d).
Proof. apply hex_valid. Qed.
Lemma optional_valid d : ValidString (optional_hex d).
Proof. unfold optional_hex. destruct (zero_digest d); [by apply const_valid|apply digest_valid]. Qed.
(** What a session of a valid phase and a 64-bit generation marshals. *)
Lemma encoded_target_wf s : uint64 (generation s) → validTargetPhase (phase s) = true → target_wf (encoded_target s).
Proof.
  intros Hg Hp. split; [|split; [exact Hg|cbn; by destruct (phase s)]].
  repeat apply valid_texts_cons; [by apply const_valid|apply StdEncode_valid..|apply digest_valid|apply digest_valid|apply digest_valid
    |apply digest_valid|apply optional_valid|apply optional_valid| |apply valid_texts_nil].
  cbn. destruct (zero_digest _); [by apply const_valid|apply StdEncode_valid].
Qed.
(** The generation of a session stays within its type. *)
Lemma run_uint64 x ops s : uint64 (generation s) → uint64 (generation (target_run x ops s)).
Proof.
  intros H. induction ops as [|o ops IH] using rev_ind; [done|]. rewrite target_run_snoc.
  destruct (mutation_generation _ _ _ _ (target_apply_mutation x o (target_run x ops s))) as [->| ->]; [done|apply wrapu64_range].
Qed.

Section Env.
Context (x : session_env).

(** ** The request through its encryption *)

Lemma padRequest_class random l padded :
  (∀ n p, random n = Some p → length p = n) → padRequest random l = Ok padded → Z.of_nat (length padded) <= maxPlaintext.
Proof.
  intros Hr. unfold padRequest. set (min := Z.of_nat headerSize + _). pose proof (class_find min) as Hc.
  destruct (list_find _ _) as [[i c]|]; [|done]. destruct Hc as [Hc Hin].
  set (f := requestPlaintextMagic ++ _). destruct (random _) as [p|] eqn:Ep; [|done]. intros <-%Ok_inj.
  apply Hr in Ep. assert (length f = headerSize + length l)%nat as Hf.
  { unfold f, headerSize. rewrite !length_app, length_be_put, length_Sum256. lia. }
  rewrite length_app, Ep, Hf. assert (c <= maxPlaintext) as Hm.
  { change maxPlaintext with 524288. change requestPlaintextClasses with [65536; 131072; 262144; 524288] in Hin.
    rewrite !elem_of_cons, elem_of_nil in Hin. lia. }
  unfold min in Hc. lia.
Qed.
Lemma open_sealed seed random r recipient identity now c payload :
  session_law x → (∀ n p, random n = Some p → length p = n) →
  age_identity (se_inv x) identity = Some (identity, recipient) → ParseRequest (se_req x) r now = Ok payload →
  sealRequest x seed random r recipient now = Ok c → openRequest x c identity now = Ok (r, payload).
Proof.
  intros Hl Hr Hid Hp. unfold sealRequest. intros (Hsz & H)%guard_inv. apply bind_inv in H as (_ & _ & H).
  apply guard_inv in H as [_ H]. apply bind_inv in H as (padded & Hpad%within_inv & H).
  destruct (age_encrypt x seed recipient padded) as [c'|] eqn:Ec; [|done]. apply guard_inv in H as [Hb <-%Ok_inj].
  unfold openRequest. rewrite Hb, Hid. cbn [fmap option_fmap option_map fst]. rewrite bool_decide_eq_true_2 by done. cbn [negb].
  rewrite (sl_age _ Hl _ _ _ _ _ (maxPlaintext + 1) Hid Ec). pose proof (padRequest_class _ _ _ Hr Hpad).
  rewrite take_ge by lia. unfold out_of_bound in Hsz. apply orb_false_iff in Hsz as [Hz%Z.eqb_neq Hm%Z.ltb_ge].
  rewrite (unpad_pad random r padded) by (done || lia). cbn [within mbind result_bind]. by rewrite Hp.
Qed.

(** A bind that goes on, without evaluating its parts. *)
Lemma bind_intro {E A B} (m : result E A) (f : A → result E B) a b : m = Ok a → f a = Ok b → (m ≫= f) = Ok b.
Proof. by intros ->. Qed.
Lemma within_intro {E F A} (f : E → F) (r : result E A) a : r = Ok a → within f r = Ok a.
Proof. by intros ->. Qed.
Lemma build_intro i r e d w p :
  transcriptDigest i r e = Ok d → phraseFromTranscriptDigest d = Ok w →
  buildPreparedTranscript i r e p = Ok {| pt_invitationSHA256 := sha256 i; pt_requestSHA256 := sha256 r;
    pt_encryptedRequestSHA256 := sha256 e; pt_fullSHA256 := d; pt_phrase := w; pt_request := p; pt_requestBytes := r;
    pt_encryptedRequestBytes := e |}.
Proof.
  intros Hd Hw. unfold buildPreparedTranscript. eapply bind_intro; [apply within_intro, Hd|].
  eapply bind_intro; [apply within_intro, Hw|reflexivity].
Qed.

(** ** Receipts *)

Lemma validateAgainst_identity operator target recipient :
  validateAgainst (se_inv x) operator target recipient = Ok () →
  age_identity (se_inv x) (RequestDecryptionIdentity operator) = Some (RequestDecryptionIdentity operator, recipient).
Proof.
  unfold validateAgainst. intros ([] & _ & H)%bind_inv. apply guard_inv in H as [_ H].
  destruct (parseMailboxCapability (RequestReadCapability operator)), (parseMailboxCapability (ResponseWriteCapability operator)); try done.
  apply guard_inv in H as [_ H].
  apply guard_inv in H as [H _]. by bool_prop.
Qed.
Lemma parseOperatorReceipt_ok encoded now rc :
  parseOperatorReceipt x encoded now = Ok rc →
  por_encoded rc = encoded ∧ out_of_bound MaxOperatorReceiptSize encoded = false
  ∧ parseTentativeInvitation (se_inv x) (Encoded (por_tentative rc)) now = Ok (por_tentative rc)
  ∧ let inv := Invitation (por_tentative rc) in
    validateAgainst (se_inv x) (por_operator rc) (inv_Exchange inv) (RequestEncryptionRecipient inv) = Ok ().
Proof.
  unfold parseOperatorReceipt. intros ([[e pb] p] & Hp & H)%bind_inv. apply bind_inv in H as (b & _ & H).
  apply bind_inv in H as (t & Ht%within_inv & H). apply guard_inv in H as [_ H].
  destruct (parse_public _ _) as [k|]; [|done]. destruct (decodeCanonicalBase64 _) as [sg|]; [|done].
  apply guard_inv in H as [_ H]. apply guard_inv in H as [_ H]. apply bind_inv in H as ([] & Hv%within_inv & <-%Ok_inj).
  cbn [por_encoded por_tentative por_operator]. split; [done|]. split; [|split; [|done]].
  - unfold receipt_payload in Hp. by apply guard_inv in Hp as [? _].
  - by destruct (parseTentativeInvitation_ok _ _ _ _ Ht) as (-> & _).
Qed.

Lemma handle_same t now : parseTentativeInvitation (se_inv x) (Encoded t) now = Ok t →
  validateTentativeHandle (se_inv x) t now = Ok (Invitation t).
Proof. intros H. unfold validateTentativeHandle. rewrite H. cbn [mbind result_bind]. by rewrite !bool_decide_eq_true_2. Qed.

(** The operator opens the target's request and derives the target's transcript. *)
Lemma operator_same_transcript seed random b r now s t payload rc receipt :
  session_law x → (∀ n p, random n = Some p → length p = n) → started x seed random b r now s t payload →
  parseOperatorReceipt x receipt now = Ok rc → Encoded (por_tentative rc) = b →
  por_tentative rc = t ∧
  prepareOperatorTranscript x (por_tentative rc) (por_operator rc) (encryptedRequestBytes s) now = Ok {|
    pt_invitationSHA256 := sha256 b; pt_requestSHA256 := sha256 r; pt_encryptedRequestSHA256 := sha256 (encryptedRequestBytes s);
    pt_fullSHA256 := transcriptSHA256 s; pt_phrase := phrase s; pt_request := payload; pt_requestBytes := r;
    pt_encryptedRequestBytes := encryptedRequestBytes s |}.
Proof.
  intros Hl Hr [Hpi Hpr Hbd Hse Hdg Hph _ _] (_ & _ & Ht & Hv)%parseOperatorReceipt_ok Hb. cbv zeta in Hv.
  rewrite Hb in Ht. assert (por_tentative rc = t) as Heq by congruence. split; [done|]. rewrite Heq in *.
  unfold prepareOperatorTranscript. rewrite handle_same by congruence. cbn [within mbind result_bind]. rewrite Hv.
  cbn [within mbind result_bind]. rewrite (open_sealed _ _ _ _ _ _ _ _ Hl Hr (validateAgainst_identity _ _ _ Hv) Hpr Hse).
  cbn [mbind result_bind]. rewrite Hbd. cbn [within mbind result_bind]. rewrite Hb. by apply build_intro.
Qed.

(** ** The bound response *)

Lemma bound_accepted s response approved signer encoded publicKey :
  session_law x → generated (inv_ed (se_inv x)) signer →
  parse_public (se_inv x) (DeploymentSignerPublicPEM (session_invitation s)) = Some publicKey →
  inv_DeploymentSignerKeyID (session_invitation s) = KeyID publicKey → ed_public (inv_ed (se_inv x)) signer = publicKey →
  BindResponse x (digest_hex (invitationSHA256 s)) (digest_hex (encryptedRequestSHA256 s)) (digest_hex (transcriptSHA256 s))
    approved response signer = Ok encoded →
  verifyBoundResponse x s encoded = Ok response.
Proof.
  intros Hl Hgen Hpub Hkey Hsk. pose proof (el_ed _ (sl_inv _ Hl)) as Hed. unfold BindResponse. intros (Hhex & H)%guard_inv.
  apply guard_inv in H as [Hb H]. apply orb_false_iff in Hb as [Hb _].
  destruct (Sign _ _ _ _) as [sg|] eqn:Es; [|done]. apply guard_inv in H as [Hsz <-%Ok_inj].
  pose proof (Verify_Sign _ _ _ _ _ Hed Hgen Es) as Hv. pose proof (Sign_size _ _ _ _ _ Hed Es) as Hlen. rewrite Hsk in *. bool_prop.
  unfold verifyBoundResponse, signed_payload. rewrite (sealed_size (se_inv x)) by by apply Z.ltb_ge.
  rewrite sealed_envelope_read; [|apply sl_inv, Hl|by apply plain_const|apply KeyID_valid]. cbn [env_Schema env_SignerKeyID env_Payload env_Signature].
  unfold seal_envelope. rewrite !(bool_decide_eq_true_2 (_ = _)) by done. rewrite !decodeCanonicalBase64_encode. cbn [negb orb].
  rewrite Hlen, Nat.eqb_refl, Hpub. cbn [negb orb]. rewrite !(bool_decide_eq_true_2 (_ = _)) by congruence. rewrite Hv.
  cbn [negb orb is_ok mbind result_bind]. rewrite (sl_bound _ Hl); [|
    repeat apply valid_texts_cons; [by apply const_valid|apply digest_valid|apply digest_valid|apply digest_valid
      |by apply SHA256Hex_valid|apply StdEncode_valid|apply valid_texts_nil]].
  cbn [brp_Schema brp_InvitationSHA256 brp_EncryptedRequestSHA256 brp_TranscriptSHA256 brp_ApprovedRequestSetSHA256 brp_EnrollmentResponse].
  rewrite !(bool_decide_eq_true_2 (_ = _)) by done. cbn [negb orb].
  match goal with H : validSHA256Hex approved = true |- _ => rewrite H end. cbn [negb].
  rewrite decodeCanonicalBase64_encode, Hb. done.
Qed.
End Env.

(** ** The stored form *)

Lemma decodeSessionBytes_encode l limit : out_of_bound limit l = false → decodeSessionBytes (StdEncode l) limit = Some l.
Proof. intros H. unfold decodeSessionBytes. by rewrite decodeCanonicalBase64_encode, H. Qed.
Lemma session_bytes_encode l limit : out_of_bound limit l = false → session_bytes (StdEncode l) limit = Ok l.
Proof. intros H. unfold session_bytes. by rewrite decodeSessionBytes_encode. Qed.
Lemma hex_encode_nonempty l : l ≠ [] → hex_encode l ≠ [].
Proof. destruct l as [|b l]; [done|]. intros _. unfold hex_encode. cbn [fmap list_fmap concat]. by rewrite hex_put_2. Qed.
Lemma decodeOptionalDigest_hex d : decodeOptionalDigest (optional_hex d) = Ok d.
Proof.
  unfold optional_hex, zero_digest, decodeOptionalDigest. destruct (bool_decide (d = _)) eqn:E; bool_prop; [by rewrite E|].
  unfold digest_hex. rewrite bool_decide_eq_false_2.
  - rewrite hex_decode_encode, length_arr_bytes, Nat.eqb_refl, bool_decide_eq_true_2 by done. cbn [negb orb].
    by rewrite arr_copy_bytes.
  - apply hex_encode_nonempty. intros H%(f_equal length). by rewrite length_arr_bytes in H.
Qed.
Lemma ParseRequest_same x encoded now now' p p' :
  ParseRequest x encoded now = Ok p → ParseRequest x encoded now' = Ok p' → p = p'.
Proof.
  unfold ParseRequest. intros H H'. apply guard_inv in H as [_ H], H' as [_ H'].
  destruct (decode_envelope x encoded) as [e|]; [|done]. apply guard_inv in H as [_ H], H' as [_ H'].
  destruct (decodeCanonicalBase64 _) as [pb|]; [|done]. destruct (decodeCanonicalBase64 (sr_Signature e)) as [sg|]; [|done].
  apply guard_inv in H as [_ H], H' as [_ H']. destruct (decode_payload x pb) as [q|]; [|done].
  apply bind_inv in H as ([] & _ & H), H' as ([] & _ & H'). apply bind_inv in H as ([[o i] rt] & _ & H), H' as ([[o' i'] rt'] & _ & H').
  destruct (csr_key o), (csr_key o'); try done. apply guard_inv in H as [_ H], H' as [_ H']. congruence.
Qed.
Lemma sealed_bounds x seed random r recipient now c :
  sealRequest x seed random r recipient now = Ok c → out_of_bound MaxRequestSize r = false ∧ out_of_bound MaxEncryptedRequestSize c = false.
Proof.
  unfold sealRequest. intros (Hr & H)%guard_inv. apply bind_inv in H as (_ & _ & H). apply guard_inv in H as [_ H].
  apply bind_inv in H as (p & _ & H). destruct (age_encrypt _ _ _ _); [|done]. by apply guard_inv in H as [? <-%Ok_inj].
Qed.

Lemma from_prepared_intro inv b p g ph c r s :
  s = {| generation := g; phase := ph; invitationBytes := b; requestBytes := pt_requestBytes p;
    encryptedRequestBytes := pt_encryptedRequestBytes p; invitationSHA256 := pt_invitationSHA256 p; requestSHA256 := pt_requestSHA256 p;
    encryptedRequestSHA256 := pt_encryptedRequestSHA256 p; transcriptSHA256 := pt_fullSHA256 p; confirmedTranscriptSHA256 := c;
    responseSHA256 := if bool_decide (r = []) then arr_zero Size else sha256 r; boundResponseBytes := r; phrase := pt_phrase p;
    session_invitation := inv |} →
  g ≠ 0 → validTargetPhase ph = true → validateShape s = Ok () → targetSessionFromPrepared inv b p g ph c r = Ok s.
Proof.
  intros -> Hg Hp Hs. unfold targetSessionFromPrepared. rewrite (proj2 (Z.eqb_neq _ _) Hg), Hp. cbn [negb orb].
  eapply bind_intro; [exact Hs|reflexivity].
Qed.
Lemma response_digest l d :
  l = [] ∧ d = arr_zero Size ∨ l ≠ [] ∧ d ≠ arr_zero Size ∧ sha256 l = d →
  (if bool_decide (l = []) then arr_zero Size else sha256 l) = d.
Proof. intros [[-> ->]|(H1 & H2 & H3)]; [by rewrite bool_decide_eq_true_2|by rewrite bool_decide_eq_false_2]. Qed.

(** What parsing rebuilds, from the fields of a session and its invitation. *)
Lemma parse_target_intro x s t p now encoded :
  session_law x → uint64 (generation s) → Encode x s = Ok encoded →
  parseTentativeInvitation (se_inv x) (invitationBytes s) now = Ok t → ParseRequest (se_req x) (requestBytes s) now = Ok p →
  bindRequestToInvitation (Invitation t) p = Ok () →
  out_of_bound MaxRequestSize (requestBytes s) = false → out_of_bound MaxEncryptedRequestSize (encryptedRequestBytes s) = false →
  buildPreparedTranscript (invitationBytes s) (requestBytes s) (encryptedRequestBytes s) p = Ok {|
    pt_invitationSHA256 := sha256 (invitationBytes s); pt_requestSHA256 := sha256 (requestBytes s);
    pt_encryptedRequestSHA256 := sha256 (encryptedRequestBytes s); pt_fullSHA256 := transcriptSHA256 s; pt_phrase := phrase s;
    pt_request := p; pt_requestBytes := requestBytes s; pt_encryptedRequestBytes := encryptedRequestBytes s |} →
  session_invitation s = Invitation t →
  invitationSHA256 s = sha256 (invitationBytes s) → requestSHA256 s = sha256 (requestBytes s) →
  encryptedRequestSHA256 s = sha256 (encryptedRequestBytes s) →
  (boundResponseBytes s ≠ [] → ∃ response, verifyBoundResponse x s (boundResponseBytes s) = Ok response) →
  ParseTargetSession x encoded now = Ok s.
Proof.
  intros Hl Hgen (u & Hsh & H)%bind_inv Ht Hp Hbd Hr He Hd Hinv Hi1 Hi2 Hi3 Hv. destruct u.
  apply guard_inv in H as [Hsz <-%Ok_inj]. pose proof Hsh as [Hg _ _ _ Ha]%validateShape_spec.
  unfold ParseTargetSession. assert (out_of_bound MaxSessionSize (encode_target x (encoded_target s) ++ [newline]) = false) as ->.
  { unfold out_of_bound. rewrite Hsz, orb_false_r. apply Z.eqb_neq. rewrite length_app. cbn. lia. }
  assert (validTargetPhase (phase s) = true) as Hvp by (unfold authority_ok in Ha; by destruct (phase s)).
  rewrite (sl_target _ Hl) by by apply encoded_target_wf.
  cbn [encoded_target ets_Schema ets_Generation ets_Phase ets_Invitation ets_Request ets_EncryptedRequest ets_InvitationSHA256
    ets_RequestSHA256 ets_EncryptedRequestSHA256 ets_TranscriptSHA256 ets_ConfirmedTranscriptSHA256 ets_ResponseSHA256 ets_BoundResponse].
  rewrite !(bool_decide_eq_true_2 (_ = _)), (proj2 (Z.eqb_neq _ _) Hg), Hvp by done. cbn [negb orb].
  destruct (parseTentativeInvitation_ok _ _ _ _ Ht) as (_ & _ & Hib & _).
  rewrite !session_bytes_encode by done. cbn [mbind result_bind]. rewrite Ht. cbn [within mbind result_bind]. rewrite Hp.
  cbn [within mbind result_bind]. rewrite Hbd. cbn [within mbind result_bind].
  eapply bind_intro; [exact Hd|]. cbn [pt_invitationSHA256 pt_requestSHA256 pt_encryptedRequestSHA256 pt_fullSHA256].
  rewrite Hi1, Hi2, Hi3, !(bool_decide_eq_true_2 (_ = _)) by done. cbn [negb orb]. rewrite !decodeOptionalDigest_hex.
  cbn [mbind result_bind].
  assert (boundResponseBytes s = [] ∧ responseSHA256 s = arr_zero Size
          ∨ boundResponseBytes s ≠ [] ∧ responseSHA256 s ≠ arr_zero Size ∧ sha256 (boundResponseBytes s) = responseSHA256 s) as Hcase.
  { unfold authority_ok in Ha. destruct (phase s); naive_solver. }
  assert (targetSessionFromPrepared (Invitation t) (invitationBytes s) {| pt_invitationSHA256 := sha256 (invitationBytes s);
      pt_requestSHA256 := sha256 (requestBytes s); pt_encryptedRequestSHA256 := sha256 (encryptedRequestBytes s);
      pt_fullSHA256 := transcriptSHA256 s; pt_phrase := phrase s; pt_request := p; pt_requestBytes := requestBytes s;
      pt_encryptedRequestBytes := encryptedRequestBytes s |} (generation s) (phase s) (confirmedTranscriptSHA256 s)
      (boundResponseBytes s) = Ok s) as Hfrom.
  { apply from_prepared_intro; try done. cbn [pt_invitationSHA256 pt_requestSHA256 pt_encryptedRequestSHA256 pt_fullSHA256 pt_phrase
      pt_requestBytes pt_encryptedRequestBytes]. rewrite <-Hi1, <-Hi2, <-Hi3, <-Hinv.
    rewrite (response_digest _ _ Hcase). by destruct s. }
  destruct Hcase as [[Hb E]|(E1 & E2 & E3)]; unfold zero_digest.
  - rewrite Hb in *. rewrite !(bool_decide_eq_true_2 (_ = _)) by done. cbn [mbind result_bind eqb negb orb andb].
    rewrite !(bool_decide_eq_true_2 (_ = _)) by done. cbn [mbind result_bind Bool.eqb negb orb andb].
    rewrite Hfrom. cbn [mbind result_bind]. by rewrite Hsh.
  - destruct (Hv E1) as [response Hv']. rewrite (bool_decide_eq_false_2 (responseSHA256 s = _)) by done.
    assert (StdEncode (boundResponseBytes s) ≠ []) as Hne.
    { intros Hn. pose proof (decodeCanonicalBase64_encode (boundResponseBytes s)) as Hdec. rewrite Hn in Hdec. by injection Hdec. }
    rewrite (bool_decide_eq_false_2 (StdEncode _ = _)) by done.
    rewrite session_bytes_encode by by eapply verify_bound. cbn [mbind result_bind].
    rewrite (bool_decide_eq_false_2 (boundResponseBytes s = _)), (bool_decide_eq_true_2 (sha256 _ = _)) by done.
    cbn [mbind result_bind Bool.eqb negb orb andb]. rewrite Hfrom. cbn [mbind result_bind]. rewrite Hsh. cbn [mbind result_bind].
    by rewrite Hv'.
Qed.

(** ** Properties *)

Lemma started_build x seed random b r now s t p :
  started x seed random b r now s t p →
  buildPreparedTranscript b r (encryptedRequestBytes s) p = Ok {|
    pt_invitationSHA256 := sha256 b; pt_requestSHA256 := sha256 r; pt_encryptedRequestSHA256 := sha256 (encryptedRequestBytes s);
    pt_fullSHA256 := transcriptSHA256 s; pt_phrase := phrase s; pt_request := p; pt_requestBytes := r;
    pt_encryptedRequestBytes := encryptedRequestBytes s |}.
Proof. intros [_ _ _ _ Hd Hw _ _]. by apply build_intro. Qed.
(** The fields of a new session, one by one. *)
Lemma started_fields x seed random b r now s t p :
  started x seed random b r now s t p →
  phase s = PhasePendingComparison ∧ invitationBytes s = b ∧ requestBytes s = r ∧ invitationSHA256 s = sha256 b
  ∧ requestSHA256 s = sha256 r ∧ encryptedRequestSHA256 s = sha256 (encryptedRequestBytes s) ∧ session_invitation s = Invitation t.
Proof.
  intros [_ _ _ _ _ _ _ H]. split_and!; [apply (f_equal phase) in H|apply (f_equal invitationBytes) in H
    |apply (f_equal requestBytes) in H|apply (f_equal invitationSHA256) in H|apply (f_equal requestSHA256) in H
    |apply (f_equal encryptedRequestSHA256) in H|apply (f_equal session_invitation) in H]; exact H.
Qed.

(** C20. Crash recovery: what a session stores at any point of its history is read back as
    that very session, with its comparison, its confirmation and its verified response, as
    long as the invitation and the request are still valid. *)
Theorem session_roundtrip (x : session_env) (seed : list byte) (random : nat → option (list byte)) (b r : list byte)
    (now now' : Z) (s : TargetSession) (ops : list target_op) (encoded : list byte) (t : tentativeInvitation) (p : RequestPayload) :
  session_law x → NewTargetSession x seed random b r now = Ok s →
  parseTentativeInvitation (se_inv x) b now' = Ok t → ParseRequest (se_req x) r now' = Ok p →
  Encode x (target_run x ops s) = Ok encoded → ParseTargetSession x encoded now' = Ok (target_run x ops s).
Proof.
  intros Hl (t0 & p0 & Hs)%NewTargetSession_ok Ht Hp He. pose proof (started_build _ _ _ _ _ _ _ _ _ Hs) as Hbuild.
  pose proof (started_safe _ _ _ _ _ _ _ _ _ Hs) as Hsafe.
  assert (generation s = 1) as F0 by by rewrite (sd_fields _ _ _ _ _ _ _ _ _ Hs). pose proof (started_fields _ _ _ _ _ _ _ _ _ Hs) as Hf.
  destruct Hs as [Hpi Hpr Hbd Hse _ _ _ _].
  assert (t0 = t) as -> by by eapply parse_same. assert (p0 = p) as -> by by eapply ParseRequest_same.
  apply sealed_bounds in Hse as [Hrb Heb]. pose proof (run_fixed x ops s) as Hfix. unfold fixed in Hfix.
  destruct Hf as (Hph & F1 & F2 & F3 & F4 & F5 & F6).
  pose proof (run_activation x ops s Hph Hsafe) as [_ Hver _ _]. injection Hfix as G1 G2 G3 G4 G5 G6 G7 G8 G9.
  assert (verifyBoundResponse x (target_run x ops s) = verifyBoundResponse x s) as Hvf.
  { unfold verifyBoundResponse. by rewrite G4, G6, G7, G9. }
  assert (uint64 (generation (target_run x ops s))) as Hgen by (apply run_uint64; rewrite F0; by split).
  eapply (parse_target_intro x (target_run x ops s) t p); try eassumption; rewrite ?G1, ?G2, ?G3, ?F1, ?F2; try assumption.
  - by rewrite G7, G8.
  - by rewrite G9, F6.
  - by rewrite G4, F3.
  - by rewrite G5, F4.
  - by rewrite G6, F5.
  - intros Hb. destruct Hver as (resp & _ & Hv); [|exists resp; by rewrite Hvf].
    apply bind_inv in He as ([] & Hsh%validateShape_spec & _). destruct Hsh as [_ _ _ _ Ha]. unfold authority_ok in Ha.
    destruct (phase (target_run x ops s)); cbn; (lia || naive_solver).
Qed.

(** The steps of an honest ceremony. *)
Lemma all_empty_safe ws : ws ≠ [] → Forall safety_word ws → all_empty ws = false.
Proof.
  destruct ws as [|w ws]; [done|]. intros _ [[Hl Hn] _]%Forall_cons_iff. cbn. rewrite TrimSpace_letters by done.
  rewrite bool_decide_eq_false_2; [done|]. intros ->. cbn in Hn. lia.
Qed.
Lemma confirm_target_ok s ws :
  phase s = PhasePendingComparison → ws = drop safetyWordsPerDirection (phrase s) → ws ≠ [] → Forall safety_word ws →
  ConfirmProvisionerWords ws s = (s <| generation := wrapu64 (generation s + 1) |> <| phase := PhaseTranscriptConfirmed |>
    <| confirmedTranscriptSHA256 := transcriptSHA256 s |>, Ok OutcomeConfirmed).
Proof.
  intros Hp -> Hne Hf. unfold ConfirmProvisionerWords. rewrite Hp, bool_decide_eq_true_2, all_empty_safe by done. cbn [negb].
  by rewrite (proj2 (words_match_spec _ _ Hne Hf) (canonical_all _ Hf)).
Qed.
Lemma confirm_operator_ok o ws :
  op_phase o = PhasePendingComparison → ws = take safetyWordsPerDirection (op_phrase o) → ws ≠ [] → Forall safety_word ws →
  ConfirmTargetWords ws o = (o <| op_generation := wrapu64 (op_generation o + 1) |> <| op_phase := PhaseTranscriptConfirmed |>
    <| op_confirmedTranscriptSHA256 := op_transcriptSHA256 o |>, Ok OutcomeConfirmed).
Proof.
  intros Hp -> Hne Hf. unfold ConfirmTargetWords. rewrite Hp, bool_decide_eq_true_2, all_empty_safe by done. cbn [negb].
  by rewrite (proj2 (words_match_spec _ _ Hne Hf) (canonical_all _ Hf)).
Qed.

Lemma operator_starts x seed random b r receipt now s t p rc :
  session_law x → (∀ n p, random n = Some p → length p = n) → started x seed random b r now s t p →
  parseOperatorReceipt x receipt now = Ok rc → Encoded (por_tentative rc) = b →
  ∃ o, NewOperatorSession x receipt (encryptedRequestBytes s) now = Ok o ∧ op_phase o = PhasePendingComparison
    ∧ op_phrase o = phrase s ∧ op_transcriptSHA256 o = transcriptSHA256 s ∧ op_receipt o = rc ∧ por_tentative rc = t
    ∧ SignedRequest o = Ok r ∧ pt_invitationSHA256 (op_prepared o) = sha256 b
    ∧ pt_encryptedRequestSHA256 (op_prepared o) = sha256 (encryptedRequestBytes s)
    ∧ pt_fullSHA256 (op_prepared o) = transcriptSHA256 s.
Proof.
  intros Hl Hr Hs Hrc Hb. destruct (operator_same_transcript _ _ _ _ _ _ _ _ _ _ _ Hl Hr Hs Hrc Hb) as [Ht Hp].
  destruct (sd_shape _ _ _ _ _ _ _ _ _ Hs) as [_ _ _ He _]. destruct (parseOperatorReceipt_ok _ _ _ _ Hrc) as (Hpe & Hsz & _).
  clear Hs. assert (receipt ≠ []) as Hne by (intros ->; done).
  unfold NewOperatorSession. set (pre := {| pt_invitationSHA256 := _ |}) in *.
  eexists. split; [eapply bind_intro; [exact Hrc|]; eapply bind_intro; [exact Hp|]; unfold operatorSessionFromPrepared;
    cbn [Z.eqb orb negb operator_phase]; eapply bind_intro; [|reflexivity]|].
  - unfold operator_shape, zero_digest. cbn [op_generation op_receiptBytes op_encryptedRequestBytes op_phase op_confirmedTranscriptSHA256].
    rewrite Hpe, !(bool_decide_eq_false_2 (_ = [])), (bool_decide_eq_true_2 (arr_zero _ = _)) by done. done.
  - cbn [op_phase op_phrase op_transcriptSHA256 op_receipt op_prepared]. split_and!; try done.
    unfold SignedRequest, operator_shape, zero_digest.
    cbn [op_generation op_receiptBytes op_encryptedRequestBytes op_phase op_confirmedTranscriptSHA256].
    by rewrite Hpe, !(bool_decide_eq_false_2 (_ = [])), (bool_decide_eq_true_2 (arr_zero _ = _)) by done.
Qed.
(** Acceptance, application and probe. *)
Lemma confirmed_to_ready x s encoded response :
  phase s = PhaseTranscriptConfirmed → confirmedTranscriptSHA256 s = transcriptSHA256 s →
  verifyBoundResponse x s encoded = Ok response →
  (AcceptBoundResponse x encoded s).2 = Ok response
  ∧ phase (target_run x [TAccept encoded; TApplied; TReady true true] s) = PhaseReady
  ∧ session_invitation (target_run x [TAccept encoded; TApplied; TReady true true] s) = session_invitation s.
Proof.
  intros Hp Hc Hv. pose proof (verify_bound _ _ _ _ Hv) as Hb.
  assert (encoded ≠ []) as Hne by (intros ->; done).
  assert (AcceptBoundResponse x encoded s = (s <| generation := wrapu64 (generation s + 1) |> <| phase := PhaseResponseVerified |>
              <| responseSHA256 := sha256 encoded |> <| boundResponseBytes := encoded |>, Ok response)) as Ha.
  { unfold AcceptBoundResponse. by rewrite Hp, Hc, !bool_decide_eq_true_2, Hv. }
  cbn [target_run foldl target_apply]. rewrite Ha. cbn [fst snd]. split; [done|]. unfold RecordApplied.
  cbn. rewrite (bool_decide_eq_false_2 (encoded = _)), (bool_decide_eq_true_2 (sha256 _ = _)) by done. done.
Qed.

(** C5. The ceremony completes: when the target and the operator hold the same invitation,
    the operator opens the target's sealed request and derives the same transcript; reading
    the target's words confirms the operator, which then reveals its words; these confirm
    the target; the response that the operator binds is accepted, byte for byte; and after
    the recorded application and a successful probe the target is READY and holds the
    tombstone of its mailbox. *)
Theorem ceremony_completes (x : session_env) (seed : list byte) (random : nat → option (list byte)) (b r receipt : list byte)
    (now : Z) (s : TargetSession) (rc : parsedOperatorReceipt) :
  session_law x → (∀ n p, random n = Some p → length p = n) →
  NewTargetSession x seed random b r now = Ok s → parseOperatorReceipt x receipt now = Ok rc → Encoded (por_tentative rc) = b →
  ∃ o, NewOperatorSession x receipt (encryptedRequestBytes s) now = Ok o ∧ op_transcriptSHA256 o = transcriptSHA256 s
    ∧ SignedRequest o = Ok r
    ∧ let shown := take safetyWordsPerDirection (phrase s) in let revealed := drop safetyWordsPerDirection (phrase s) in
      let o' := (ConfirmTargetWords shown o).1 in
      TargetWords s = Ok shown ∧ (ConfirmTargetWords shown o).2 = Ok OutcomeConfirmed ∧ ProvisionerWords o' = Ok revealed
      ∧ ∀ response approved signer encoded, generated (inv_ed (se_inv x)) signer →
          operator_BindResponse x response approved signer o' = Ok encoded →
          let s1 := (ConfirmProvisionerWords revealed s).1 in
          (AcceptBoundResponse x encoded s1).2 = Ok response
          ∧ let s' := target_run x [TConfirm revealed; TAccept encoded; TApplied; TReady true true] s in
            phase s' = PhaseReady
            ∧ MailboxTombstone s' = let target := inv_Exchange (session_invitation s) in
                Ok (Endpoint target, tx_MailboxID target, ResponseReadCapability target).
Proof.
  intros Hl Hr (t & p & Hs)%NewTargetSession_ok Hrc Hb.
  destruct (operator_starts _ _ _ _ _ _ _ _ _ _ _ Hl Hr Hs Hrc Hb) as (o & Ho & Oph & Owd & Otr & Orc & Ot & Osr & O1 & O2 & O3).
  destruct (started_fields _ _ _ _ _ _ _ _ _ Hs) as (Fp & F1 & F2 & F3 & F4 & F5 & F6).
  destruct (safe_half _ (started_safe _ _ _ _ _ _ _ _ _ Hs)) as [[Hd1 Hd2] [Ht1 Ht2]].
  destruct (parseTentativeInvitation_ok _ _ _ _ (sd_parsed _ _ _ _ _ _ _ _ _ Hs)) as (_ & _ & _ & _ & k & sg & Hk & Hid & _).
  clear Hs. exists o. split; [exact Ho|]. split; [exact Otr|]. split; [exact Osr|]. cbv zeta.
  rewrite (confirm_operator_ok o _ Oph) by (done || by rewrite Owd). cbn [fst snd].
  split; [unfold TargetWords; by rewrite Fp|]. split; [done|]. split.
  { unfold ProvisionerWords, operator_confirmed. cbn. by rewrite (bool_decide_eq_true_2 (op_transcriptSHA256 o = _)), Owd. }
  intros response approved signer encoded Hgen Hbind.
  unfold operator_BindResponse, operator_confirmed in Hbind. apply guard_inv in Hbind as [_ Hbind].
  cbn [op_receipt op_prepared] in Hbind.
  change (op_receipt (o <| op_generation := wrapu64 (op_generation o + 1) |> <| op_phase := PhaseTranscriptConfirmed |>
    <| op_confirmedTranscriptSHA256 := op_transcriptSHA256 o |>)) with (op_receipt o) in Hbind.
  change (op_prepared (o <| op_generation := wrapu64 (op_generation o + 1) |> <| op_phase := PhaseTranscriptConfirmed |>
    <| op_confirmedTranscriptSHA256 := op_transcriptSHA256 o |>)) with (op_prepared o) in Hbind.
  rewrite Orc, Ot, Hk in Hbind. apply guard_inv in Hbind as [Hsk Hbind]. rewrite O1, O2, O3, <-F3, <-F5 in Hbind. bool_prop.
  assert (verifyBoundResponse x s encoded = Ok response) as Hv
    by (eapply (bound_accepted x s); try eassumption; by rewrite F6).
  rewrite (confirm_target_ok s _ Fp eq_refl Hd1 Hd2). cbn [fst].
  change (target_run x (?a :: ?l) s) with (target_run x l (target_apply x a s)).
  cbn [target_apply]. rewrite (confirm_target_ok s _ Fp eq_refl Hd1 Hd2). cbn [fst].
  set (s1 := s <| generation := _ |> <| phase := _ |> <| confirmedTranscriptSHA256 := _ |>).
  destruct (confirmed_to_ready x s1 encoded response) as (A1 & A2 & A3); [done|done|by rewrite (verify_fixed x s1 s)|].
  split; [exact A1|]. split; [exact A2|]. unfold MailboxTombstone. by rewrite A2, A3.
Qed.

(** ** Witnesses: the ceremony of SessionDemo *)

Lemma demo_session_law : session_law demo_session_env.
Proof.
  split.
  - exact demo_env_law.
  - intros [a b c d e f] _. unfold demo_session_env. cbn [decode_bound encode_bound brp_Schema brp_InvitationSHA256
      brp_EncryptedRequestSHA256 brp_TranscriptSHA256 brp_ApprovedRequestSetSHA256 brp_EnrollmentResponse].
    by rewrite <-(app_nil_r (enc_texts _)), (dec_enc_texts [a; b; c; d; e; f]).
  - intros [a b c d e f g h i] _. unfold demo_session_env. cbn [decode_receipt encode_receipt orp_Schema orp_Invitation
      orp_InvitationSHA256 IntendedRecipient IdentityContactReference orp_MailboxID orp_RequestReadCapability
      orp_ResponseWriteCapability orp_RequestDecryptionIdentity].
    by rewrite <-(app_nil_r (enc_texts _)), (dec_enc_texts [a; b; c; d; e; f; g; h; i]).
  - intros [a b c d e f g h i j k m n] _. unfold demo_session_env. cbn [decode_target encode_target ets_Schema ets_Generation ets_Phase
      ets_Invitation ets_Request ets_EncryptedRequest ets_InvitationSHA256 ets_RequestSHA256 ets_EncryptedRequestSHA256
      ets_TranscriptSHA256 ets_ConfirmedTranscriptSHA256 ets_ResponseSHA256 ets_BoundResponse].
    rewrite (dec_enc_texts [a; enc_Z b; phase_text c; d; e; f; g; h; i; j; k; m; n]). by rewrite dec_enc_Z, text_phase_text.
  - intros seed identity recipient plaintext ciphertext n _. unfold demo_session_env. cbn [age_encrypt age_decrypt].
    pose proof (strip_spec plaintext) as [Hs _]. destruct (strip plaintext) as [s k]. cbn [fst snd] in Hs.
    intros [= <-]. rewrite <-(app_nil_r (enc_texts _)), (dec_enc_texts [s; enc_Z k]), dec_enc_Z. by rewrite Hs.
Qed.
Lemma demo_random_length n p : demo_random n = Some p → length p = n.
Proof. intros [= <-]. apply length_replicate. Qed.

Lemma demo_same : Encoded (por_tentative demo_receipt) = ceremony_invitation.
Proof. vm_compute. reflexivity. Qed.
Lemma demo_invitation_is_ok : is_ok (parseTentativeInvitation (se_inv demo_session_env) ceremony_invitation demo_now) = true.
Proof. vm_compute. reflexivity. Qed.
Lemma demo_request_is_ok : is_ok (ParseRequest (se_req demo_session_env) ceremony_signed demo_now) = true.
Proof. vm_compute. reflexivity. Qed.
Definition demo_stored : list byte := Eval vm_compute in
  ok_or_nil (Encode demo_session_env (target_run demo_session_env demo_ops demo_target)).
Lemma demo_stored_ok : Encode demo_session_env (target_run demo_session_env demo_ops demo_target) = Ok demo_stored.
Proof. vm_compute. reflexivity. Qed.

Lemma session_roundtrip_witness :
  ParseTargetSession demo_session_env demo_stored demo_now =
    Ok (target_run demo_session_env demo_ops demo_target).
Proof.
  exact (session_roundtrip demo_session_env [] demo_random ceremony_invitation ceremony_signed demo_now demo_now demo_target demo_ops
    _ _ _ demo_session_law demo_target_ok (unwrap_ok _ demo_invitation_is_ok) (unwrap_ok _ demo_request_is_ok)
    demo_stored_ok).
Defined.
Lemma ceremony_bound_ok :
  operator_BindResponse demo_session_env [Byte.x07] demo_approved demo_key demo_confirmed_operator = Ok ceremony_bound.
Proof. vm_compute. reflexivity. Qed.
Lemma ceremony_completes_witness :
  let revealed := drop safetyWordsPerDirection (phrase demo_target) in
  op_transcriptSHA256 demo_operator_session = transcriptSHA256 demo_target ∧ SignedRequest demo_operator_session = Ok ceremony_signed
  ∧ (AcceptBoundResponse demo_session_env ceremony_bound (ConfirmProvisionerWords revealed demo_target).1).2 = Ok [Byte.x07]
  ∧ phase (target_run demo_session_env [TConfirm revealed; TAccept ceremony_bound; TApplied; TReady true true] demo_target) = PhaseReady.
Proof.
  destruct (ceremony_completes demo_session_env [] demo_random ceremony_invitation ceremony_signed ceremony_receipt demo_now demo_target
    demo_receipt demo_session_law demo_random_length demo_target_ok demo_receipt_ok demo_same) as (o & Ho & Ht & Hr & _ & _ & _ & H).
  pose proof (Ok_inj _ _ (eq_trans (eq_sym Ho) demo_operator_ok)) as E. rewrite E in Ht, Hr, H.
  destruct (H [Byte.x07] demo_approved demo_key ceremony_bound (demo_generated Byte.x05) ceremony_bound_ok) as (H1 & H2 & _).
  exact (conj Ht (conj Hr (conj H1 H2))).
Defined.
