(* ===== verification/Issue.v ===== *)
(** * Issuing an invitation

    [IssueInvitation] of [issue.go], [newMailboxExchange] of [mailbox.go] and
    [client_bootstrap.go] of [internal/enrollmentexchange]: the package the operator hands
    out, and that each of its three readers accepts its part. *)

From S2P Require Import Prelude GoIO Text Sha256 Base64 Protocol Identifiers Signing PairToken Phrase Mailbox MailboxSafety EnrollRequest Invitation InvitationSafety TargetSession OperatorSession CeremonySafety SessionDemo Runes JsonText.

Record InvitationOptions := {
  io_Role : Role;
  io_RouteID : text;
  io_ConnectorInstallationID : text;
  io_Runtime : RuntimeBinding;
  io_Trust : Trust;
  ExchangeEndpoint : text;
  Validity : Z;
  io_IntendedRecipient : text;
  io_IdentityContactReference : text }.
Record IssuedInvitation := { ii_Invitation : list byte; OperatorReceipt : list byte; CourierRegistrationBytes : list byte }.

(** What the generation relies on outside the repository: [age.GenerateX25519Identity] (the
    identity and its recipient), the PEM of a public key, and the issuers of a trust bundle. *)
Record issue_env := {
  is_session : session_env;
  generate_identity : option (text * text);
  marshal_public : list byte → text;
  IssuerPinsFromTrust : Trust → Z → option IssuerPins }.

Inductive issue_err :=
| IssueInputs | IssueReferences | IssueVerifier | IssueIssuers | IssueRandom | RandomRepeated | IssueIdentity
| IssueExchange (e : invitation_err) | IssueSession (e : session_err).

(** ** [newMailboxExchange] *)

Section Env.
Context (x : issue_env).
#[local] Notation inv_env := (se_inv (is_session x)).

(** The loop that draws independent capabilities. *)
Fixpoint draw_capabilities (n : nat) (decoded : list (list byte)) (rand : reader)
    : result issue_err (list (list byte)) * reader :=
  match n with
  | O => (Ok decoded, rand)
  | S n =>
      match read_full mailboxCapabilitySize rand with
      | (Err _, rand) => (Err IssueRandom, rand)
      | (Ok value, rand) =>
          if bool_decide (value ∈ decoded) then (Err RandomRepeated, rand)
          else draw_capabilities n (decoded ++ [value]) rand
      end
  end.

Definition newMailboxExchange (endpoint : text) (rand : reader)
    : result issue_err (targetExchange * operatorExchange * text) * reader :=
  match randomID rand with
  | (Err _, rand) => (Err IssueRandom, rand)
  | (Ok id, rand) =>
      let mailboxID := ID_String id in
      match draw_capabilities 4 [] rand with
      | (Err e, rand) => (Err e, rand)
      | (Ok decoded, rand) =>
          let capability n := RawURLEncode (nth n decoded []) in
          (match generate_identity x with
           | None => Err IssueIdentity
           | Some (identity, recipient) =>
               let target := {| Endpoint := endpoint; tx_MailboxID := mailboxID;
                 RequestWriteCapability := capability 0%nat; ResponseReadCapability := capability 1%nat;
                 RequestReadCapabilityCommitment := mailboxCapabilityCommitment mailboxID request_read (capability 2%nat);
                 ResponseWriteCapabilityCommitment := mailboxCapabilityCommitment mailboxID response_write (capability 3%nat) |} in
               _ ← within IssueExchange (exchange_validate inv_env target);
               Ok (target, {| ox_MailboxID := mailboxID; RequestReadCapability := capability 2%nat;
                              ResponseWriteCapability := capability 3%nat; RequestDecryptionIdentity := identity |}, recipient)
           end, rand)
      end
  end.

(** ** [IssueInvitation] *)

Definition issued_payload (options : InvitationOptions) (id : arr IDSize) (pins : IssuerPins) (target : targetExchange)
    (recipient : text) (public : list byte) (now : Z) : invitation := {|
  inv_Schema := invitationSchema; InvitationID := ID_String id; inv_CreatedUnix := unix_sec now;
  inv_ExpiresUnix := unix_sec (unix_sec now * Second + Validity options); MinimumLifecycle := CurrentLifecycleGeneration;
  inv_Role := io_Role options; inv_RouteID := io_RouteID options;
  inv_ConnectorInstallationID := io_ConnectorInstallationID options; inv_Runtime := io_Runtime options;
  inv_Trust := io_Trust options; inv_IssuerPins := pins; DeploymentSignerPublicPEM := marshal_public x public;
  inv_DeploymentSignerKeyID := KeyID public; inv_Exchange := target; RequestEncryptionRecipient := recipient |}.

Definition IssueInvitation (options : InvitationOptions) (signer : list byte) (now : Z) (rand : reader)
    : result issue_err IssuedInvitation :=
  let now := unix_sec now * Second in
  reject is_zero now || negb (length signer =? PrivateKeySize)%nat || (Validity options <=? 0)
      || (maxInvitationValidity <? Validity options) with IssueInputs;;
  reject negb (validOperatorReference (io_IntendedRecipient options))
      || negb (validOperatorReference (io_IdentityContactReference options)) with IssueReferences;;
  let public := ed_public (inv_ed inv_env) signer in
  match parse_public inv_env (marshal_public x public), IssuerPinsFromTrust x (io_Trust options) now with
  | None, _ => Err IssueVerifier
  | Some _, None => Err IssueIssuers
  | Some _, Some pins =>
      let '(exchange, rand) := newMailboxExchange (ExchangeEndpoint options) rand in
      '(target, operator, recipient) ← exchange;
      match randomID rand with
      | (Err _, _) => Err IssueRandom
      | (Ok id, _) =>
          let inv := issued_payload options id pins target recipient public now in
          invitationBytes ← within IssueExchange (signInvitation inv_env inv signer now);
          receiptBytes ← within IssueSession (signOperatorReceipt (is_session x) invitationBytes operator
            (io_IntendedRecipient options) (io_IdentityContactReference options) signer now);
          registrationBytes ← within IssueExchange (signCourierRegistration inv_env invitationBytes target operator signer now);
          Ok {| ii_Invitation := invitationBytes; OperatorReceipt := receiptBytes;
                CourierRegistrationBytes := registrationBytes |}
      end
  end.

(** ** [PrepareClientBootstrap] *)

Record ClientBootstrap := {
  cb_InvitationSHA256 : text; cb_ExpiresUnix : Z; cb_Runtime : RuntimeBinding; cb_Trust : Trust;
  cb_DeploymentSignerPublicPEM : text; cb_RouteID : text; cb_ConnectorInstallationID : text }.
Definition PrepareClientBootstrap (encoded : list byte) (expectedRuntime : RuntimeBinding) (now : Z)
    : result issue_err ClientBootstrap :=
  tentative ← within IssueExchange (parseTentativeInvitation inv_env encoded now);
  let inv := Invitation tentative in
  reject negb (bool_decide (inv_Role inv = RoleClient)) || negb (bool_decide (inv_Runtime inv = expectedRuntime))
    with IssueExchange BindingMismatch;;
  Ok {| cb_InvitationSHA256 := inv_SHA256 tentative; cb_ExpiresUnix := inv_ExpiresUnix inv; cb_Runtime := inv_Runtime inv;
        cb_Trust := inv_Trust inv; cb_DeploymentSignerPublicPEM := DeploymentSignerPublicPEM inv;
        cb_RouteID := inv_RouteID inv; cb_ConnectorInstallationID := inv_ConnectorInstallationID inv |}.
End Env.

(** ** The readers of the package *)

Section Laws.
Context (x : session_env).

Lemma seal_nonempty schema keyID payload signature : seal_envelope (se_inv x) schema keyID payload signature ≠ [].
Proof. unfold seal_envelope. by destruct (encode_envelope_json _ _). Qed.

Lemma reference_valid t : validOperatorReference t = true → ValidString t.
Proof. unfold validOperatorReference. rewrite !andb_true_iff. intros [[[_ H] _] _]. by apply Is_true_true. Qed.
(** A signed receipt is read back as its own record, by whoever reads the invitation. *)
Lemma sign_parse_receipt invitationBytes t operator recipient reference signer encoded now now' :
  session_law x → generated (inv_ed (se_inv x)) signer → ValidString (RequestDecryptionIdentity operator) →
  ValidString (ox_MailboxID operator) → parseTentativeInvitation (se_inv x) invitationBytes now' = Ok t →
  parse_public (se_inv x) (DeploymentSignerPublicPEM (Invitation t)) = Some (ed_public (inv_ed (se_inv x)) signer) →
  signOperatorReceipt x invitationBytes operator recipient reference signer now = Ok encoded →
  ∃ payload, parseOperatorReceipt x encoded now' =
      Ok {| por_encoded := encoded; por_payload := payload; por_tentative := t; por_operator := operator |}
    ∧ IntendedRecipient payload = recipient ∧ IdentityContactReference payload = reference.
Proof.
  intros Hl Hgen Hv1 Hv2 Ht Hpub. unfold signOperatorReceipt. intros (t' & Ht'%within_inv & H)%bind_inv.
  assert (t' = t) as -> by by eapply parse_same. apply bind_inv in H as ([] & Ha%within_inv & H).
  apply guard_inv in H as [Href H]. cbv zeta in H. revert H. set (payload := {| orp_Schema := _ |}). intros H.
  destruct (Sign _ _ _ _) as [sig|] eqn:Es; [|done]. apply guard_inv in H as [Hsize <-%Ok_inj].
  pose proof (el_ed _ (sl_inv _ Hl)) as Hed. pose proof (Verify_Sign _ _ _ _ _ Hed Hgen Es) as Hver.
  pose proof (Sign_size _ _ _ _ _ Hed Es) as Hlen.
  pose proof (parseTentativeInvitation_ok _ _ _ _ Ht) as (_ & Hsha & Hb & _ & k & _ & _ & Hid & _).
  destruct (validateAgainst_valid _ _ _ _ Ha) as [Hv3 Hv4].
  assert (receipt_wf payload) as Hwf.
  { apply orb_false_iff in Href as [R1%negb_false_iff R2%negb_false_iff].
    repeat apply valid_texts_cons; [by apply const_valid|apply StdEncode_valid|cbn [payload orp_InvitationSHA256]; rewrite Hsha; apply hex_valid
      |by apply reference_valid|by apply reference_valid|exact Hv2|exact Hv3|exact Hv4|exact Hv1|apply valid_texts_nil]. }
  exists payload. split; [|done]. unfold parseOperatorReceipt, receipt_payload.
  rewrite sealed_size by done. rewrite sealed_envelope_read; [|apply sl_inv, Hl|by apply plain_const|rewrite Hid; apply KeyID_valid].
  unfold seal_envelope. cbn [env_Schema env_Payload env_Signature env_SignerKeyID].
  rewrite !(bool_decide_eq_true_2 (_ = _)) by done. rewrite !decodeCanonicalBase64_encode, (sl_receipt _ Hl) by exact Hwf.
  cbn [negb orb]. rewrite !(bool_decide_eq_true_2 (_ = _)) by done. cbn [negb orb mbind result_bind].
  change (orp_Invitation payload) with (StdEncode invitationBytes). rewrite session_bytes_encode by done.
  cbn [mbind result_bind]. rewrite Ht. cbn [within mbind result_bind].
  change (IntendedRecipient payload) with recipient. change (IdentityContactReference payload) with reference.
  cbn [env_Signature env_SignerKeyID]. rewrite Hpub, decodeCanonicalBase64_encode, Hlen, Nat.eqb_refl, Hver. cbn [negb orb is_ok].
  change (receipt_operator payload) with {| ox_MailboxID := ox_MailboxID operator;
    RequestReadCapability := RequestReadCapability operator; ResponseWriteCapability := ResponseWriteCapability operator;
    RequestDecryptionIdentity := RequestDecryptionIdentity operator |}.
  replace {| ox_MailboxID := _ |} with operator by by destruct operator.
  rewrite Ha, !(bool_decide_eq_true_2 (_ = _)) by done. cbn [negb orb]. by rewrite Href.
Qed.
(** What a valid invitation says of its roles and times. *)
Lemma validate_named inv now :
  invitation_validate (se_inv x) inv now = Ok () →
  named_role (inv_Role inv) ∧ named_role (RuntimeRole (inv_Runtime inv)) ∧ 0 < inv_CreatedUnix inv < inv_ExpiresUnix inv
  ∧ MinimumLifecycle inv = CurrentLifecycleGeneration.
Proof.
  unfold invitation_validate. cbv zeta. case_guard G; [done|]. case_guard G1; [done|]. case_guard G2; [done|]. case_guard G3; [done|].
  case_guard G4; [done|]. destruct (RuntimeBinding_Validate _ _); [|done]. case_guard G5; [done|]. intros _. bool_prop.
  assert (named_role (inv_Role inv)) as Hn.
  { match goal with H : role_binding inv = true |- _ => unfold role_binding in H end. by destruct (inv_Role inv). }
  match goal with H : RuntimeRole _ = inv_Role inv |- _ => rewrite H end. split_and!; (done || lia).
Qed.
End Laws.

(** What is issued from options in valid text with 64-bit numbers, and what the generators
    outside the repository make: the PEM of a key, the pins of a trust bundle and the texts of
    an age identity are text. *)
Definition options_wf (o : InvitationOptions) : Prop :=
  valid_texts [io_RouteID o; io_ConnectorInstallationID o; ExchangeEndpoint o]
  ∧ (let r := io_Runtime o in valid_texts [ReleaseID r; ArtifactSHA256 r; OS r; Arch r; RuntimeProtocol r; ConnectorTarget r])
  ∧ uint64 (ReleaseSequence (io_Runtime o)) ∧ uint64 (LifecycleGeneration (io_Runtime o)) ∧ trust_wf (io_Trust o).
Record issue_law (x : issue_env) : Prop := {
  il_session : session_law (is_session x);
  il_public k : ValidString (marshal_public x k);
  il_pins t now pins : IssuerPinsFromTrust x t now = Some pins → pins_wf pins;
  il_identity identity recipient : generate_identity x = Some (identity, recipient) → ValidString identity ∧ ValidString recipient }.

Lemma newMailboxExchange_made x endpoint rand target operator recipient rand' :
  issue_law x → ValidString endpoint → newMailboxExchange x endpoint rand = (Ok (target, operator, recipient), rand') →
  Endpoint target = endpoint ∧ exchange_wf target ∧ ValidString recipient
  ∧ ValidString (ox_MailboxID operator) ∧ ValidString (RequestDecryptionIdentity operator).
Proof.
  intros Hl He. unfold newMailboxExchange. destruct (randomID rand) as [[i|] ?]; [|done].
  destruct (draw_capabilities _ _ _) as [[d|] ?]; [|done]. destruct (generate_identity x) as [[i1 i2]|] eqn:Ei; [|done].
  intros [= H <-]. apply bind_inv in H as ([] & _ & [= <- <- <-]). destruct (il_identity _ Hl _ _ Ei) as [Hi Hr].
  cbn [Endpoint ox_MailboxID RequestDecryptionIdentity]. split; [done|]. split; [|split; [exact Hr|split; [apply ID_String_valid|exact Hi]]].
  repeat apply valid_texts_cons; [exact He|apply ID_String_valid|apply RawURLEncode_valid|apply RawURLEncode_valid|apply hex_valid
    |apply hex_valid|apply valid_texts_nil].
Qed.

(** The issued invitation is in valid text and in range. *)
Lemma issued_wf x options id pins target recipient public now :
  issue_law x → options_wf options → now <= max_int64 → Validity options <= maxInvitationValidity →
  pins_wf pins → exchange_wf target → ValidString recipient →
  let inv := issued_payload x options id pins target recipient public (unix_sec now * Second) in
  invitation_validate (se_inv (is_session x)) inv (unix_sec now * Second) = Ok () → invitation_wf inv.
Proof.
  intros Hl (Ht & Hrt & Hr1 & Hr2 & Htr) Hnow Hval Hp Hx Hrec inv Hv.
  destruct (validate_named _ _ _ Hv) as (Hn1 & Hn2 & Htimes & Hmin).
  apply Forall_cons_iff in Ht as [T1 Ht]. apply Forall_cons_iff in Ht as [T2 _].
  assert (inv_ExpiresUnix inv <= max_int64) as Hmax.
  { change (inv_ExpiresUnix inv) with ((unix_sec now * Second / Second * Second + Validity options) / Second). rewrite Z.div_mul by done.
    unfold unix_sec, maxInvitationValidity, Hour, Minute, Second, max_int64 in *. apply Z.div_le_upper_bound; [lia|].
    pose proof (Z.mul_div_le now 1000000000 ltac:(lia)). lia. }
  unfold max_int64 in Hmax. split; [|split; [|split]| | | | |].
  - repeat apply valid_texts_cons; [by apply const_valid|apply ID_String_valid|exact T1|exact T2|apply il_public, Hl|apply KeyID_valid
      |exact Hrec|apply valid_texts_nil].
  - unfold int64. lia.
  - unfold int64. lia.
  - rewrite Hmin. by vm_compute.
  - exact Hn1.
  - split; [exact Hrt|]. split; [exact Hr1|]. split; [exact Hr2|exact Hn2].
  - exact Htr.
  - exact Hp.
  - exact Hx.
Qed.

(** C22. Everything that is issued with a generated key is accepted: the target reads the invitation, the operator
    reads its receipt and the relay's courier reads the registration of one package as long as
    the invitation is valid, and it is valid when it is issued; the three agree on the
    invitation, on the mailbox and on its four capabilities, and the receipt keeps the
    references that the operator gave. *)
Theorem issued_package_accepted (x : issue_env) (options : InvitationOptions) (signer : list byte) (now : Z) (rand : reader)
    (package : IssuedInvitation) :
  issue_law x → options_wf options → generated (inv_ed (se_inv (is_session x))) signer → now <= max_int64 →
  IssueInvitation x options signer now rand = Ok package →
  ∃ inv operator, let t := {| Invitation := inv; Encoded := ii_Invitation package;
                              inv_SHA256 := hex_encode (Sum256 (ii_Invitation package)) |} in
    let ie := se_inv (is_session x) in
    invitation_validate ie inv (unix_sec now * Second) = Ok ()
    ∧ inv_Runtime inv = io_Runtime options ∧ inv_Role inv = io_Role options
    ∧ ∀ now', invitation_validate ie inv now' = Ok () →
      parseTentativeInvitation ie (ii_Invitation package) now' = Ok t
      ∧ (∃ payload, parseOperatorReceipt (is_session x) (OperatorReceipt package) now' =
           Ok {| por_encoded := OperatorReceipt package; por_payload := payload; por_tentative := t; por_operator := operator |}
         ∧ IntendedRecipient payload = io_IntendedRecipient options
         ∧ IdentityContactReference payload = io_IdentityContactReference options)
      ∧ ParseCourierRegistration ie (CourierRegistrationBytes package) now' = Ok {|
          cr_endpoint := ExchangeEndpoint options; cr_mailboxID := tx_MailboxID (inv_Exchange inv);
          cr_expires := unix_instant (inv_ExpiresUnix inv); cr_requestWrite := RequestWriteCapability (inv_Exchange inv);
          cr_requestRead := RequestReadCapability operator; cr_responseWrite := ResponseWriteCapability operator;
          cr_responseRead := ResponseReadCapability (inv_Exchange inv) |}.
Proof.
  intros Hlaw Hwf Hgen Hnow. pose proof (il_session _ Hlaw) as Hl. unfold IssueInvitation. intros [Hg H]%guard_inv. apply guard_inv in H as [_ H].
  destruct (parse_public _ _) as [pub|] eqn:Epub; [|done]. destruct (IssuerPinsFromTrust _ _ _) as [pins|] eqn:Epins; [|done].
  destruct (newMailboxExchange _ _ _) as [exchange rand'] eqn:En. apply bind_inv in H as ([[target operator] recipient] & -> & H).
  destruct (randomID rand') as [[id|] ?]; [|done]. revert H. set (inv := issued_payload _ _ _ _ _ _ _ _).
  intros (ib & Hi%within_inv & H)%bind_inv. apply bind_inv in H as (rb & Hr%within_inv & H).
  apply bind_inv in H as (gb & Hg'%within_inv & <-%Ok_inj). cbn [ii_Invitation OperatorReceipt CourierRegistrationBytes].
  assert (ValidString (ExchangeEndpoint options)) as Hend.
  { destruct Hwf as (Hw & _). apply Forall_cons_iff in Hw as [_ Hw]. apply Forall_cons_iff in Hw as [_ Hw]. apply Forall_cons_iff in Hw as [Hw _]. exact Hw. }
  destruct (newMailboxExchange_made _ _ _ _ _ _ _ Hlaw Hend En)
    as (Hep & Hxw & Hrec & Hmb & Hidn).
  assert (invitation_validate (se_inv (is_session x)) inv (unix_sec now * Second) = Ok ()) as Hv0.
  { unfold signInvitation in Hi. apply guard_inv in Hi as [_ Hi]. by apply bind_inv in Hi as ([] & ? & _). }
  assert (invitation_wf inv) as Hiw.
  { apply issued_wf; [exact Hlaw|exact Hwf|exact Hnow| |by eapply il_pins|exact Hxw|exact Hrec|exact Hv0].
    apply orb_false_iff in Hg as [_ Hg]. by apply Z.ltb_ge. }
  exists inv, operator. cbv zeta. split; [exact Hv0|split; [done|split; [done|]]].
  intros now' Hv. pose proof (sign_parse_invitation _ _ _ _ _ _ (sl_inv _ Hl) Hgen Hiw Hi Hv) as Ht.
  pose proof (sign_signer _ _ _ _ _ Hi) as Hs. split; [exact Ht|]. split.
  - eapply sign_parse_receipt; [exact Hl|exact Hgen|exact Hidn|exact Hmb|exact Ht|exact Hs|exact Hr].
  - rewrite <-Hep. exact (sign_parse_registration _ ib {| Invitation := inv; Encoded := ib; inv_SHA256 := hex_encode (Sum256 ib) |}
      operator signer gb _ now' (sl_inv _ Hl) Hgen Hiw Ht Hs Hg').
Qed.

(** ** A concrete package *)

Definition demo_issue_env : issue_env := {|
  is_session := demo_session_env; generate_identity := Some (ascii_bytes "age1", ascii_bytes "age1");
  marshal_public := λ k, if ValidString k then k else []; IssuerPinsFromTrust := λ _ _, Some (rq_IssuerPins demo_request) |}.
Definition demo_options : InvitationOptions := {|
  io_Role := inv_Role demo_invitation; io_RouteID := inv_RouteID demo_invitation;
  io_ConnectorInstallationID := inv_ConnectorInstallationID demo_invitation; io_Runtime := inv_Runtime demo_invitation;
  io_Trust := inv_Trust demo_invitation; ExchangeEndpoint := Endpoint demo_exchange; Validity := Hour;
  io_IntendedRecipient := ascii_bytes "Ann"; io_IdentityContactReference := ascii_bytes "desk 4" |}.
Definition demo_rand : reader := (λ n, (replicate 32 (z2b n), None)) <$> [9; 1; 2; 3; 4; 8].
Definition package_result : result issue_err IssuedInvitation := Eval vm_compute in
  IssueInvitation demo_issue_env demo_options demo_key demo_now demo_rand.
Definition demo_package : IssuedInvitation := Eval vm_compute in unwrap package_result eq_refl.
Lemma demo_package_ok : IssueInvitation demo_issue_env demo_options demo_key demo_now demo_rand = Ok demo_package.
Proof. vm_compute. reflexivity. Qed.
Lemma demo_options_wf : options_wf demo_options.
Proof.
  split; [apply valid_texts_forallb; vm_compute; reflexivity|]. split; [apply valid_texts_forallb; vm_compute; reflexivity|].
  split; [by vm_compute|]. split; [by vm_compute|]. apply valid_texts_forallb. vm_compute. reflexivity.
Qed.
Lemma demo_issue_law : issue_law demo_issue_env.
Proof.
  split.
  - exact demo_session_law.
  - intros k. cbn [demo_issue_env marshal_public]. destruct (ValidString k) eqn:E; [by apply Is_true_true|exact I].
  - intros t now pins [= <-]. exact demo_pins_wf.
  - intros i r [= <- <-]. split; by apply const_valid.
Qed.
Lemma issued_package_accepted_witness : ∃ inv payload operator,
  parseTentativeInvitation demo_env (ii_Invitation demo_package) demo_now
    = Ok {| Invitation := inv; Encoded := ii_Invitation demo_package; inv_SHA256 := hex_encode (Sum256 (ii_Invitation demo_package)) |}
  ∧ parseOperatorReceipt demo_session_env (OperatorReceipt demo_package) demo_now = Ok {|
      por_encoded := OperatorReceipt demo_package; por_payload := payload;
      por_tentative := {| Invitation := inv; Encoded := ii_Invitation demo_package;
                          inv_SHA256 := hex_encode (Sum256 (ii_Invitation demo_package)) |};
      por_operator := operator |}.
Proof.
  destruct (issued_package_accepted demo_issue_env demo_options demo_key demo_now demo_rand demo_package demo_issue_law demo_options_wf
    (demo_generated Byte.x05) ltac:(by vm_compute) demo_package_ok) as (inv & operator & Hv & _ & _ & H).
  destruct (H demo_now Hv) as (H1 & (payload & H2 & _) & _). exact (ex_intro _ inv (ex_intro _ payload (ex_intro _ operator (conj H1 H2)))).
Defined.
