(* ===== verification/Syscalls.v ===== *)
(** * System calls

    Programs that talk to the kernel, as the sources use [golang.org/x/sys/unix] and
    [crypto/rand]. The kernel is a script of replies: a program is a function from the replies
    it will get to the calls it makes, and it stops where the script ends. So a theorem about
    every script is a theorem about every behaviour of the kernel and about a process that is
    killed before any of its calls. *)

From S2P Require Import Prelude.

(** [EAGAIN] is [EWOULDBLOCK]. *)
Inductive errno := ENOENT | EEXIST | EINTR | EWOULDBLOCK | EACCES | ERANGE | OtherErrno (n : Z).
#[export] Instance errno_eq_dec : EqDecision errno.
Proof. solve_decision. Defined.

Inductive oflag := O_RDONLY | O_WRONLY | O_RDWR | O_CREAT | O_EXCL | O_NOFOLLOW | O_CLOEXEC | O_DIRECTORY | O_NONBLOCK.
#[export] Instance oflag_eq_dec : EqDecision oflag.
Proof. solve_decision. Defined.
Inductive lock_op := LOCK_EX | LOCK_SH | LOCK_UN.
#[export] Instance lock_op_eq_dec : EqDecision lock_op.
Proof. solve_decision. Defined.

Record Stat_t := { st_Mode : Z; st_Nlink : Z; st_Size : Z; st_Uid : Z; st_Gid : Z; st_Dev : Z; st_Ino : Z }.
#[export] Instance Stat_t_eq_dec : EqDecision Stat_t.
Proof. solve_decision. Defined.

Inductive syscall :=
| OpenRootDir (flags : list oflag)
| OpenPath (path : list byte) (flags : list oflag)
| Openat (dir : Z) (name : list byte) (flags : list oflag) (perm : Z)
| Fstat (fd : Z) | Fchmod (fd perm : Z)
| Write (fd : Z) (data : list byte) | Read (fd : Z) (size : Z)
| Fsync (fd : Z) | Close (fd : Z)
| Renameat (dir : Z) (old new : list byte)
| Unlinkat (dir : Z) (name : list byte) (removedir : bool)
| Mkdirat (dir : Z) (name : list byte) (perm : Z)
| Flock (fd : Z) (op : lock_op) (nonblocking : bool)
| Dup (fd : Z) | Rewind (fd : Z)
| Fchown (fd uid gid : Z) | Fchownat (dir : Z) (name : list byte) (uid gid : Z)
| Fstatat (dir : Z) (name : list byte)
| Linkat (dir : Z) (old new : list byte)
| Symlinkat (target : list byte) (dir : Z) (name : list byte) | Readlinkat (dir : Z) (name : list byte) (size : Z)
| ReadDir (fd : Z) | Flistxattr (fd size : Z)
| Geteuid | Random (size : Z).
#[export] Instance syscall_eq_dec : EqDecision syscall.
Proof. solve_decision. Defined.

(** What a call returns; each call reads its own part. *)
Record reply := { r_errno : option errno; r_number : Z; r_stat : Stat_t; r_data : list byte; r_names : list (list byte) }.
#[export] Instance reply_eq_dec : EqDecision reply.
Proof. solve_decision. Defined.

Definition event : Type := syscall * reply.
(** The calls made, the replies left, and the value returned unless the script ended. *)
Definition IO (A : Type) : Type := list reply → list event * list reply * option A.

#[export] Instance io_ret : MRet IO := λ A a s, ([], s, Some a).
#[export] Instance io_bind : MBind IO := λ A B f m s,
  let '(t1, s1, o) := m s in
  match o with
  | None => (t1, s1, None)
  | Some a => let '(t2, s2, o) := f a s1 in (t1 ++ t2, s2, o)
  end.
Definition sys (c : syscall) : IO reply := λ s,
  match s with
  | [] => ([], [], None)
  | r :: s => ([(c, r)], s, Some r)
  end.

(** [if err := m; err != nil { return err }; k] *)
Definition and_then {E A B} (m : IO (result E A)) (f : A → IO (result E B)) : IO (result E B) :=
  r ← m; match r with Ok a => f a | Err e => mret (Err e) end.
Notation "'must' x ':=' m ';;' k" := (and_then m (λ x, k))
  (at level 100, x pattern at level 0, m at level 99, k at level 200, right associativity,
   format "'[v' 'must'  x  ':='  m  ';;' '/' k ']'") : go_scope.
(** [reject] in a program. *)
Notation "'refuse' b 'with' e ';;' k" := (if b then mret (Err e) else k)
  (at level 100, b at level 99, e at level 99, k at level 200, right associativity,
   format "'[v' 'refuse'  b  'with'  e  ';;' '/' k ']'") : go_scope.
(** [defer cleanup()] *)
Definition deferring {A B} (cleanup : IO B) (m : IO A) : IO A := a ← m; _ ← cleanup; mret a.

(** ** Executions *)

(** [m] makes exactly the calls [t] and returns [a]. *)
Definition runs {A} (m : IO A) (t : list event) (a : A) : Prop := ∃ s s', m s = (t, s', Some a).
(** [t] are calls that [m] makes, to its end or to where it stops. *)
Definition prefix_of_run {A} (m : IO A) (t : list event) : Prop := ∃ s s' o, m s = (t, s', o).

Section Runs.
Context {A B E : Type}.

Lemma runs_ret (a b : A) t : runs (mret a) t b ↔ t = [] ∧ b = a.
Proof. split; [intros (s & s' & [= <- _ <-]); done|intros [-> ->]; by exists [], []]. Qed.
Lemma runs_sys c t r : runs (sys c) t r ↔ t = [(c, r)].
Proof.
  split; [|intros ->; by exists [r], []]. intros ([|r' s] & s' & H); [done|]. injection H as <- _ <-. done.
Qed.

Lemma runs_bind (m : IO A) (f : A → IO B) t b :
  runs (m ≫= f) t b → ∃ t1 t2 a, t = t1 ++ t2 ∧ runs m t1 a ∧ runs (f a) t2 b.
Proof.
  intros (s & s' & H). unfold mbind, io_bind in H. destruct (m s) as [[t1 s1] [a|]] eqn:Em; [|done].
  destruct (f a s1) as [[t2 s2] o] eqn:Ef. injection H as <- -> ->. exists t1, t2, a. split_and!; [done|by eexists _, _|by eexists _, _].
Qed.
Lemma prefix_bind (m : IO A) (f : A → IO B) t :
  prefix_of_run (m ≫= f) t →
  prefix_of_run m t ∨ ∃ t1 t2 a, t = t1 ++ t2 ∧ runs m t1 a ∧ prefix_of_run (f a) t2.
Proof.
  intros (s & s' & o & H). unfold mbind, io_bind in H. destruct (m s) as [[t1 s1] [a|]] eqn:Em.
  - destruct (f a s1) as [[t2 s2] o'] eqn:Ef. injection H as <- -> ->. right.
    exists t1, t2, a. split_and!; [done|by eexists _, _|by eexists _, _, _].
  - injection H as <- <- <-. left. by eexists _, _, _.
Qed.
Lemma prefix_ret (a : A) t : prefix_of_run (mret a : IO A) t → t = [].
Proof. by intros (s & s' & o & [= <- _ _]). Qed.
Lemma prefix_sys c t : prefix_of_run (sys c) t → t = [] ∨ ∃ r, t = [(c, r)].
Proof. intros ([|r s] & s' & o & H); injection H as <- _ _; [by left|right; by eexists]. Qed.
Lemma runs_prefix (m : IO A) t a : runs m t a → prefix_of_run m t.
Proof. intros (s & s' & H). by eexists _, _, _. Qed.
End Runs.
