(* ===== verification/SecureFS.v ===== *)
(** * Private directories: [internal/securefs/securefs.go]

    Every method of [Root] and [Lock] as a program over [Syscalls]. Octal modes are written in
    hexadecimal. The read lock of a root is not modelled: a root is used by one call at a time. *)

From S2P Require Import Prelude GoIO Text Runes Protocol Identifiers Syscalls.

Definition MaxReadBytes : Z := 8 * 2 ^ 20.
Definition maxComponentLength : Z := 128.
Definition temporaryAttempts : nat := 32.

Inductive fs_err :=
| FErrno (e : errno) | ErrClosed | ErrLocked | BadComponent | BadPath | BadMode | BadLimit | TooLarge | ZeroWrite
| NotRegular | NotDirectory | NotOwned | NotPrivate | NotPrivateFile | FileDiffers | FileChanged | ChangedRepeatedly
| NoTemporary | NotPrivateLock.
#[export] Instance fs_err_eq_dec : EqDecision fs_err.
Proof. solve_decision. Defined.
(** [errors.Is] *)
Definition is_errno (e : errno) (err : fs_err) : bool := bool_decide (err = FErrno e).

Record Root := { root_fd : Z; root_open : bool }.
Record Lock := { lock_fd : Z; lock_open : bool }.

Definition S_IFMT : Z := 0xf000.
Definition S_IFREG : Z := 0x8000.
Definition S_IFDIR : Z := 0x4000.
Definition mode_type (s : Stat_t) : Z := Z.land (st_Mode s) S_IFMT.
(** [stat.Mode & 07777] *)
Definition mode_bits (s : Stat_t) : Z := Z.land (st_Mode s) 0xfff.
Definition single_regular (s : Stat_t) : bool := (mode_type s =? S_IFREG) && (st_Nlink s =? 1).

(** A call whose failure is wrapped and returned. *)
Definition call (c : syscall) : IO (result fs_err reply) :=
  r ← sys c; mret (match r_errno r with Some e => Err (FErrno e) | None => Ok r end).
(** [_ = c] *)
Definition ignore (c : syscall) : IO () := _ ← sys c; mret ().
(** [c] on the way out of a failed function. *)
Definition failing {A} (c : syscall) (e : fs_err) : IO (result fs_err A) := _ ← ignore c; mret (Err e).

(** ** Names and modes *)

Definition component_char (c : byte) : bool :=
  let z := b2z c in
  ((97 <=? z) && (z <=? 122)) || ((65 <=? z) && (z <=? 90)) || ((48 <=? z) && (z <=? 57)) || (z =? 46) || (z =? 95) || (z =? 45).
Definition dot : text := ascii_bytes ".".
Definition dotdot : text := ascii_bytes "..".
(** The characters of a name that is all ASCII are its bytes; no other name passes. *)
Definition validateComponent (name : text) : result fs_err () :=
  reject bool_decide (name = []) || (maxComponentLength <? Z.of_nat (length name)) || bool_decide (name = dot)
      || bool_decide (name = dotdot) with BadComponent;;
  reject negb (forallb component_char name) with BadComponent;;
  Ok ().

Definition slash : byte := Byte.x2f.
(** [filepath.Clean] of a rooted path, by its components. *)
Definition clean_step (out : list text) (c : text) : list text :=
  if bool_decide (c = []) || bool_decide (c = dot) then out
  else if bool_decide (c = dotdot) then removelast out else out ++ [c].
Definition Clean_rooted (path : text) : text := slash :: Join slash (foldl clean_step [] (Split slash (drop 1 path))).
Definition IsAbs (path : text) : bool := bool_decide (list.head path = Some slash).

Definition absoluteComponents (path : text) : result fs_err (list text) :=
  reject bool_decide (path = []) || negb (IsAbs path) || negb (bool_decide (Clean_rooted path = path))
      || bool_decide (path = [slash]) with BadPath;;
  let components := Split slash (drop 1 path) in
  reject existsb (λ c, bool_decide (c = []) || bool_decide (c = dot) || bool_decide (c = dotdot)
                       || bool_decide (Byte.x00 ∈ c)) components with BadPath;;
  Ok components.

Definition perm_of (mode : Z) : Z := Z.land mode 0x1ff.
Definition filePermissions (mode : Z) : result fs_err Z :=
  reject negb (mode =? perm_of mode) || (perm_of mode =? 0) || negb (Z.land (perm_of mode) 0x49 =? 0)
      || negb (Z.land (perm_of mode) 0x12 =? 0) with BadMode;;
  Ok (perm_of mode).
Definition directoryPermissions (mode : Z) : result fs_err Z :=
  reject negb (mode =? perm_of mode) || (perm_of mode =? 0) || negb (Z.land (perm_of mode) 0x3f =? 0) with BadMode;;
  Ok (perm_of mode).

(** ** Descriptors *)

Definition requireDirectory (fd : Z) : IO (result fs_err ()) :=
  must r := call (Fstat fd);;
  refuse negb (mode_type (r_stat r) =? S_IFDIR) with NotDirectory;;
  mret (Ok ()).
Definition requirePrivateRoot (fd : Z) : IO (result fs_err ()) :=
  must r := call (Fstat fd);;
  refuse negb (mode_type (r_stat r) =? S_IFDIR) with NotDirectory;;
  euid ← sys Geteuid;
  refuse negb (st_Uid (r_stat r) =? r_number euid mod 2 ^ 32) with NotOwned;;
  refuse negb (Z.land (st_Mode (r_stat r)) 0x3f =? 0) with NotPrivate;;
  mret (Ok ()).
Definition prepareRegularFile (fd permissions : Z) : IO (result fs_err ()) :=
  must r := call (Fstat fd);;
  refuse negb (single_regular (r_stat r)) with NotRegular;;
  must _ := call (Fchmod fd permissions);;
  mret (Ok ()).

Definition openRegularAt (directory : Z) (name : text) (flags : list oflag) : IO (result fs_err (Z * Stat_t)) :=
  must r := call (Openat directory name (flags ++ [O_NOFOLLOW; O_CLOEXEC]) 0);;
  let fd := r_number r in
  st ← sys (Fstat fd);
  match r_errno st with
  | Some e => failing (Close fd) (FErrno e)
  | None =>
      if negb (single_regular (r_stat st)) then failing (Close fd) NotRegular
      else mret (Ok (fd, r_stat st))
  end.
Definition read_flags : list oflag := [O_RDONLY; O_NONBLOCK].
Definition create_flags : list oflag := [O_WRONLY; O_CREAT; O_EXCL; O_NOFOLLOW; O_CLOEXEC].
Definition directory_flags : list oflag := [O_RDONLY; O_DIRECTORY; O_NOFOLLOW; O_CLOEXEC].

Definition inspectReplaceTarget (directory : Z) (name : text) : IO (result fs_err ()) :=
  r ← openRegularAt directory name read_flags;
  match r with
  | Ok (fd, _) => must _ := call (Close fd);; mret (Ok ())
  | Err e => if is_errno ENOENT e then mret (Ok ()) else mret (Err e)
  end.

(** ** Whole reads and writes

    The loops go on while replies come; each of them ends with an error, with the last byte,
    or where the script does. *)

(** A count outside of the buffer, which the kernel excludes, would panic; the model stops. *)
Definition valid_count (data : list byte) (n : Z) : bool := (0 <=? n) && (n <=? Z.of_nat (length data)).
Fixpoint writeAll_from (fd : Z) (data : list byte) (s : list reply) : list event * list reply * option (result fs_err ()) :=
  match data with
  | [] => ([], s, Some (Ok ()))
  | _ =>
      match s with
      | [] => ([], [], None)
      | r :: s =>
          let e := (Write fd data, r) in
          match r_errno r with
          | Some EINTR => let '(t, s, o) := writeAll_from fd data s in (e :: t, s, o)
          | Some x => ([e], s, Some (Err (FErrno x)))
          | None =>
              if r_number r =? 0 then ([e], s, Some (Err ZeroWrite))
              else if negb (valid_count data (r_number r)) then ([e], s, None)
              else let '(t, s, o) := writeAll_from fd (drop (Z.to_nat (r_number r)) data) s in (e :: t, s, o)
          end
      end
  end.
Definition writeAll (fd : Z) (data : list byte) : IO (result fs_err ()) := writeAll_from fd data.

Definition read_buffer : Z := 32 * 2 ^ 10.
(** The loop shared by [readFile] and [readAllBounded]: a limit on what is collected. *)
Fixpoint read_bounded (fd limit : Z) (contents : list byte) (s : list reply)
    : list event * list reply * option (result fs_err (list byte)) :=
  match s with
  | [] => ([], [], None)
  | r :: s =>
      let e := (Read fd read_buffer, r) in
      match r_errno r with
      | Some EINTR => let '(t, s, o) := read_bounded fd limit contents s in (e :: t, s, o)
      | Some x => ([e], s, Some (Err (FErrno x)))
      | None =>
          if limit <? Z.of_nat (length contents) + Z.of_nat (length (r_data r)) then ([e], s, Some (Err TooLarge))
          else if bool_decide (r_data r = []) then ([e], s, Some (Ok contents))
          else let '(t, s, o) := read_bounded fd limit (contents ++ r_data r) s in (e :: t, s, o)
      end
  end.
Definition readAllBounded (fd limit : Z) : IO (result fs_err (list byte)) :=
  refuse (limit <? 0) || (MaxReadBytes <? limit) with BadLimit;;
  read_bounded fd limit [].

(** ** Roots *)

Fixpoint open_chain (fd : Z) (components : list text) : IO (result fs_err Z) :=
  match components with
  | [] => mret (Ok fd)
  | component :: rest =>
      next ← sys (Openat fd component directory_flags 0);
      closed ← sys (Close fd);
      match r_errno next, r_errno closed with
      | Some e, _ => mret (Err (FErrno e))
      | None, Some e => failing (Close (r_number next)) (FErrno e)
      | None, None => open_chain (r_number next) rest
      end
  end.
Definition openDirectoryChain (components : list text) : IO (result fs_err Z) :=
  must r := call (OpenRootDir directory_flags);;
  open_chain (r_number r) components.

Definition private_root (fd : Z) : IO (result fs_err Root) :=
  r ← requirePrivateRoot fd;
  match r with
  | Err e => failing (Close fd) e
  | Ok _ => mret (Ok {| root_fd := fd; root_open := true |})
  end.
Definition OpenRoot (path : text) : IO (result fs_err Root) :=
  match absoluteComponents path with
  | Err e => mret (Err e)
  | Ok components => must fd := openDirectoryChain components;; private_root fd
  end.

(** A call whose failure closes the new root. *)
Definition or_close (fd : Z) (c : syscall) : IO (result fs_err reply) :=
  r ← call c;
  match r with Ok r => mret (Ok r) | Err e => failing (Close fd) e end.
Definition CreateRoot (path : text) : IO (result fs_err Root) :=
  match absoluteComponents path with
  | Err e => mret (Err e)
  | Ok components =>
      must parent := openDirectoryChain (removelast components);;
      let name := List.last components [] in
      deferring (ignore (Close parent))
        (must _ := call (Mkdirat parent name 0x1c0);;
         must r := call (Openat parent name directory_flags 0);;
         let fd := r_number r in
         must _ := or_close fd (Fchmod fd 0x1c0);;
         must root := private_root fd;;
         must _ := or_close fd (Fsync fd);;
         must _ := or_close fd (Fsync parent);;
         mret (Ok root))
  end.

(** [Root.Close] *)
Definition closeRoot (root : Root) : IO (Root * result fs_err ()) :=
  if root_open root
  then r ← call (Close (root_fd root));
       mret ({| root_fd := root_fd root; root_open := false |}, match r with Ok _ => Ok () | Err e => Err e end)
  else mret (root, Ok ()).
Definition Sync (root : Root) : IO (result fs_err ()) :=
  refuse negb (root_open root) with ErrClosed;;
  must _ := call (Fsync (root_fd root));;
  mret (Ok ()).

(** The name is checked before the root. *)
Definition with_name {A} (root : Root) (name : text) (k : IO (result fs_err A)) : IO (result fs_err A) :=
  match validateComponent name with
  | Err e => mret (Err e)
  | Ok _ => if root_open root then k else mret (Err ErrClosed)
  end.
(** The name, then the mode, then the root. *)
Definition with_mode {A} (root : Root) (name : text) (mode : result fs_err Z) (k : Z → IO (result fs_err A))
    : IO (result fs_err A) :=
  match validateComponent name, mode with
  | Err e, _ => mret (Err e)
  | Ok _, Err e => mret (Err e)
  | Ok _, Ok permissions => if root_open root then k permissions else mret (Err ErrClosed)
  end.

Definition MkdirExclusive (root : Root) (name : text) (mode : Z) : IO (result fs_err ()) :=
  with_mode root name (directoryPermissions mode) (λ permissions,
    must _ := call (Mkdirat (root_fd root) name permissions);;
    must r := call (Openat (root_fd root) name directory_flags 0);;
    let child := r_number r in
    d ← requireDirectory child;
    match d with
    | Err e => failing (Close child) e
    | Ok _ =>
        must _ := or_close child (Fchmod child permissions);;
        must _ := or_close child (Fsync child);;
        must _ := call (Close child);;
        must _ := call (Fsync (root_fd root));;
        mret (Ok ())
    end).

Definition OpenDir (root : Root) (name : text) : IO (result fs_err Root) :=
  with_name root name
    (must r := call (Openat (root_fd root) name directory_flags 0);;
     private_root (r_number r)).

(** The deferred call of [UnlinkFile] and [RemoveDir] returns its own error last. *)
Definition removed (root : Root) (fd : Z) (c : syscall) : IO (result fs_err ()) :=
  must _ := or_close fd c;;
  closed ← sys (Close fd);
  must _ := call (Fsync (root_fd root));;
  mret (match r_errno closed with Some e => Err (FErrno e) | None => Ok () end).
Definition RemoveDir (root : Root) (name : text) : IO (result fs_err ()) :=
  with_name root name
    (must r := call (Openat (root_fd root) name directory_flags 0);;
     let fd := r_number r in
     p ← requirePrivateRoot fd;
     match p with
     | Err e => failing (Close fd) e
     | Ok _ => removed root fd (Unlinkat (root_fd root) name true)
     end).
Definition UnlinkFile (root : Root) (name : text) : IO (result fs_err ()) :=
  with_name root name
    (must opened := openRegularAt (root_fd root) name read_flags;;
     let '(fd, _) := opened in
     removed root fd (Unlinkat (root_fd root) name false)).

(** ** Files *)

(** Filling a new file; the flag says whether the descriptor is still to be closed. *)
Definition fill (fd permissions : Z) (data : list byte) : IO (bool * result fs_err ()) :=
  p ← prepareRegularFile fd permissions;
  match p with
  | Err e => mret (true, Err e)
  | Ok _ =>
      w ← writeAll fd data;
      match w with
      | Err e => mret (true, Err e)
      | Ok _ =>
          s ← call (Fsync fd);
          match s with
          | Err e => mret (true, Err e)
          | Ok _ =>
              c ← call (Close fd);
              mret (false, match c with Err e => Err e | Ok _ => Ok () end)
          end
      end
  end.
(** The deferred clean-up: close what is open, unlink what was not finished. *)
Definition discard {A} (fd : Z) (still_open : bool) (unlink : syscall) (e : fs_err) : IO (result fs_err A) :=
  _ ← (if still_open then ignore (Close fd) else mret ());
  failing unlink e.

(** Filling a file that was just created under [name] and syncing its directory, or removing it. *)
Definition fill_or_discard (dir fd permissions : Z) (name : text) (data : list byte) : IO (result fs_err ()) :=
  f ← fill fd permissions data;
  let '(still_open, r) := f in
  match r with
  | Err e => discard fd still_open (Unlinkat dir name false) e
  | Ok _ =>
      s ← call (Fsync dir);
      match s with
      | Err e => failing (Unlinkat dir name false) e
      | Ok _ => mret (Ok ())
      end
  end.

Definition CreateExclusive (root : Root) (name : text) (data : list byte) (mode : Z) : IO (result fs_err ()) :=
  with_mode root name (filePermissions mode) (λ permissions,
    must r := call (Openat (root_fd root) name create_flags permissions);;
    fill_or_discard (root_fd root) (r_number r) permissions name data).

(** The inspection of an existing file by [EnsureFile]. *)
Definition same_file (fd permissions : Z) (stat : Stat_t) (data : list byte) : IO (result fs_err ()) :=
  if negb (mode_bits stat =? permissions) || negb (st_Size stat =? Z.of_nat (length data)) then failing (Close fd) FileDiffers
  else
    contents ← readAllBounded fd (Z.of_nat (length data));
    final ← sys (Fstat fd);
    closed ← sys (Close fd);
    mret (match contents, r_errno final, r_errno closed with
          | Err e, _, _ => Err e
          | Ok _, Some e, _ => Err (FErrno e)
          | Ok _, None, Some e => Err (FErrno e)
          | Ok contents, None, None =>
              if negb (single_regular (r_stat final)) || negb (mode_bits (r_stat final) =? permissions)
                 || negb (st_Size (r_stat final) =? Z.of_nat (length data)) || negb (bool_decide (contents = data))
              then Err FileChanged else Ok ()
          end).
Fixpoint ensure_attempts (attempts : nat) (dir permissions : Z) (name : text) (data : list byte) : IO (result fs_err ()) :=
  match attempts with
  | O => mret (Err ChangedRepeatedly)
  | S attempts =>
      opened ← openRegularAt dir name read_flags;
      match opened with
      | Ok (fd, stat) => same_file fd permissions stat data
      | Err e =>
          if negb (is_errno ENOENT e) then mret (Err e)
          else
            r ← call (Openat dir name create_flags permissions);
            match r with
            | Err e => if is_errno EEXIST e then ensure_attempts attempts dir permissions name data else mret (Err e)
            | Ok r => fill_or_discard dir (r_number r) permissions name data
            end
      end
  end.
Definition EnsureFile (root : Root) (name : text) (data : list byte) (mode : Z) : IO (result fs_err ()) :=
  with_mode root name
    (reject MaxReadBytes <? Z.of_nat (length data) with TooLarge;; filePermissions mode)
    (λ permissions, ensure_attempts 4 (root_fd root) permissions name data).

Definition readFile (root : Root) (name : text) (limit mode : Z) : IO (result fs_err (list byte)) :=
  match validateComponent name with
  | Err e => mret (Err e)
  | Ok _ =>
      refuse (limit <=? 0) || (MaxReadBytes <? limit) with BadLimit;;
      refuse negb (root_open root) with ErrClosed;;
      must opened := openRegularAt (root_fd root) name read_flags;;
      let '(fd, stat) := opened in
      deferring (ignore (Close fd))
        (refuse negb (mode =? 0) && negb (mode_bits stat =? mode) with NotPrivateFile;;
         refuse (st_Size stat <? 0) || (limit <? st_Size stat) with TooLarge;;
         read_bounded fd limit [])
  end.
Definition ReadFile (root : Root) (name : text) (limit : Z) : IO (result fs_err (list byte)) := readFile root name limit 0.
Definition ReadPrivateFile (root : Root) (name : text) (limit : Z) : IO (result fs_err (list byte)) :=
  readFile root name limit 0x180.

Definition temporary_prefix : text := ascii_bytes ".owntransit-tmp-".
Fixpoint temporary_attempts (attempts : nat) (dir permissions : Z) : IO (result fs_err (text * Z)) :=
  match attempts with
  | O => mret (Err NoTemporary)
  | S attempts =>
      must random := call (Random 12);;
      let name := temporary_prefix ++ hex_encode (r_data random) in
      r ← call (Openat dir name create_flags permissions);
      match r with
      | Ok r => mret (Ok (name, r_number r))
      | Err e => if is_errno EEXIST e then temporary_attempts attempts dir permissions else mret (Err e)
      end
  end.
Definition createTemporary (dir permissions : Z) : IO (result fs_err (text * Z)) :=
  temporary_attempts temporaryAttempts dir permissions.

Definition ReplaceFile (root : Root) (name : text) (data : list byte) (mode : Z) : IO (result fs_err ()) :=
  with_mode root name (filePermissions mode) (λ permissions,
    let dir := root_fd root in
    must _ := inspectReplaceTarget dir name;;
    must created := createTemporary dir permissions;;
    let '(temporary, fd) := created in
    f ← fill fd permissions data;
    let '(still_open, r) := f in
    match r with
    | Err e => discard fd still_open (Unlinkat dir temporary false) e
    | Ok _ =>
        renamed ← call (Renameat dir temporary name);
        match renamed with
        | Err e => failing (Unlinkat dir temporary false) e
        | Ok _ => must _ := call (Fsync dir);; mret (Ok ())
        end
    end).

(** ** Locks *)

Definition private_lock_file (s : Stat_t) : bool := single_regular s && (Z.land (st_Mode s) 0x3f =? 0).
Definition lock_flags : list oflag := [O_RDWR; O_NONBLOCK; O_NOFOLLOW; O_CLOEXEC].
Definition new_lock_flags : list oflag := [O_RDWR; O_NONBLOCK; O_CREAT; O_EXCL; O_NOFOLLOW; O_CLOEXEC].
(** The checks on an opened lock file. *)
Definition check_lock_file (fd : Z) (created : bool) : IO (result fs_err (Z * bool)) :=
  must st := or_close fd (Fstat fd);;
  if negb (private_lock_file (r_stat st)) then failing (Close fd) NotPrivateLock
  else if created
  then must _ := or_close fd (Fchmod fd 0x180);;
       must _ := or_close fd (Fsync fd);;
       mret (Ok (fd, true))
  else mret (Ok (fd, false)).
Fixpoint lock_attempts (attempts : nat) (dir : Z) (name : text) : IO (result fs_err (Z * bool)) :=
  match attempts with
  | O => mret (Err ChangedRepeatedly)
  | S attempts =>
      r ← call (Openat dir name lock_flags 0);
      match r with
      | Ok r => check_lock_file (r_number r) false
      | Err e =>
          if negb (is_errno ENOENT e) then mret (Err e)
          else
            r ← call (Openat dir name new_lock_flags 0x180);
            match r with
            | Ok r => check_lock_file (r_number r) true
            | Err e => if is_errno EEXIST e then lock_attempts attempts dir name else mret (Err e)
            end
      end
  end.
Definition openLockFile (dir : Z) (name : text) : IO (result fs_err (Z * bool)) := lock_attempts 4 dir name.

Definition tryFlock (root : Root) (name : text) (operation : lock_op) : IO (result fs_err Lock) :=
  with_name root name
    (must opened := openLockFile (root_fd root) name;;
     let '(fd, created) := opened in
     must _ := (if created then must _ := or_close fd (Fsync (root_fd root));; mret (Ok ()) else mret (Ok ()));;
     locked ← call (Flock fd operation true);
     match locked with
     | Ok _ => mret (Ok {| lock_fd := fd; lock_open := true |})
     | Err e => failing (Close fd) (if is_errno EWOULDBLOCK e then ErrLocked else e)
     end).
Definition TryLock (root : Root) (name : text) : IO (result fs_err Lock) := tryFlock root name LOCK_EX.
Definition TrySharedLock (root : Root) (name : text) : IO (result fs_err Lock) := tryFlock root name LOCK_SH.
(** [Lock.Close] *)
Definition closeLock (lock : Lock) : IO (Lock * result fs_err ()) :=
  if negb (lock_open lock) then mret (lock, Ok ())
  else
    unlocked ← sys (Flock (lock_fd lock) LOCK_UN false);
    closed ← sys (Close (lock_fd lock));
    mret ({| lock_fd := lock_fd lock; lock_open := false |},
          match r_errno unlocked, r_errno closed with
          | Some e, _ => Err (FErrno e) | None, Some e => Err (FErrno e) | None, None => Ok () end).
