(* ===== verification/CrashLogic.v ===== *)
(** * A directory under a documented kernel, and a crash logic for its programs

    What the programs rely on of the kernel: the effect of a successful call on the files of
    one directory, and which replies it may give ([allowed]). Of a file it separates what
    processes see ([names], [inodes]) from what a power loss certainly keeps ([durable],
    [synced]). [crash_triple] is a Hoare triple with a crash condition: the condition holds
    after every prefix of the calls, where the process is killed. *)

From S2P Require Import Prelude GoIO Text Runes Protocol Identifiers Syscalls.

Record world := MkWorld {
  names : gmap text Z;
  durable : gmap text Z;
  inodes : gmap Z (list byte);
  synced : gmap Z (list byte);
  handles : gmap Z (Z * nat);
  fresh : Z }.
#[export] Instance world_eta : Eta world := λ w,
  MkWorld (names w) (durable w) (inodes w) (synced w) (handles w) (fresh w).

Section Directory.
(** The descriptor of the directory. *)
Context (dir : Z).

(** ** The kernel *)

Definition overwrite (contents : list byte) (off : nat) (data : list byte) : list byte :=
  take off contents ++ data ++ drop (off + length data) contents.

(** The effect of a call that did not fail. A close releases its descriptor even if it fails. *)
Definition success (c : syscall) (r : reply) (w : world) : world :=
  match c with
  | Openat d n flags _ =>
      if negb (d =? dir) || bool_decide (O_DIRECTORY ∈ flags) then w
      else if bool_decide (O_CREAT ∈ flags)
      then w <| names := <[n := fresh w]> (names w) |> <| inodes := <[fresh w := []]> (inodes w) |>
             <| handles := <[r_number r := (fresh w, 0%nat)]> (handles w) |> <| fresh := fresh w + 1 |>
      else match names w !! n with
           | Some i => w <| handles := <[r_number r := (i, 0%nat)]> (handles w) |>
           | None => w
           end
  | Write fd data =>
      match handles w !! fd with
      | Some (i, off) =>
          let part := take (Z.to_nat (r_number r)) data in
          w <| inodes := <[i := overwrite (default [] (inodes w !! i)) off part]> (inodes w) |>
            <| handles := <[fd := (i, (off + length part)%nat)]> (handles w) |>
      | None => w
      end
  | Read fd _ =>
      match handles w !! fd with
      | Some (i, off) => w <| handles := <[fd := (i, (off + length (r_data r))%nat)]> (handles w) |>
      | None => w
      end
  | Fsync fd =>
      if fd =? dir then w <| durable := names w |>
      else match handles w !! fd with
           | Some (i, _) => w <| synced := <[i := default [] (inodes w !! i)]> (synced w) |>
           | None => w
           end
  | Renameat d old new =>
      if negb (d =? dir) then w
      else match names w !! old with
           | Some i => w <| names := <[new := i]> (delete old (names w)) |>
           | None => w
           end
  | Unlinkat d n removedir => if negb (d =? dir) || removedir then w else w <| names := delete n (names w) |>
  | Linkat d old new =>
      if negb (d =? dir) then w
      else match names w !! old with
           | Some i => w <| names := <[new := i]> (names w) |>
           | None => w
           end
  | Symlinkat target d n =>
      if negb (d =? dir) then w
      else w <| names := <[n := fresh w]> (names w) |> <| inodes := <[fresh w := target]> (inodes w) |>
             <| synced := <[fresh w := target]> (synced w) |> <| fresh := fresh w + 1 |>
  | _ => w
  end.
Definition effect (e : event) (w : world) : world :=
  let '(c, r) := e in
  match c with
  | Close fd => w <| handles := delete fd (handles w) |>
  | _ => match r_errno r with None => success c r w | Some _ => w end
  end.

(** What a reply says is true of the directory. *)
Definition allowed (e : event) (w : world) : Prop :=
  let '(c, r) := e in
  match c with
  | Openat d n flags _ =>
      match r_errno r with
      | Some ENOENT => d = dir → O_DIRECTORY ∉ flags → O_CREAT ∉ flags → names w !! n = None
      | Some _ => True
      | None => handles w !! r_number r = None ∧ r_number r ≠ dir
                ∧ (d = dir → O_DIRECTORY ∉ flags →
                   if bool_decide (O_CREAT ∈ flags) then O_EXCL ∈ flags → names w !! n = None else is_Some (names w !! n))
      end
  | OpenRootDir _ | OpenPath _ _ | Dup _ => r_errno r = None → handles w !! r_number r = None ∧ r_number r ≠ dir
  | Fstatat d n => d = dir → match r_errno r with Some ENOENT => names w !! n = None | Some _ => True | None => is_Some (names w !! n) end
  | Linkat d old new => d = dir → r_errno r = None → is_Some (names w !! old) ∧ names w !! new = None
  | Symlinkat _ d n => d = dir → r_errno r = None → names w !! n = None
  | Readlinkat d n size => d = dir → r_errno r = None → ∃ i, names w !! n = Some i ∧
      r_data r = take (Z.to_nat size) (default [] (inodes w !! i)) ∧ r_number r = Z.of_nat (length (r_data r))
  | Fstat fd => r_errno r ≠ Some ENOENT ∧ (r_errno r = None → ∀ i off, handles w !! fd = Some (i, off) →
      st_Size (r_stat r) = Z.of_nat (length (default [] (inodes w !! i))))
  | Read fd _ => r_errno r = None → ∀ i off, handles w !! fd = Some (i, off) →
      let rest := drop off (default [] (inodes w !! i)) in
      r_data r = take (length (r_data r)) rest ∧ (r_data r = [] → rest = [])
  | Write _ data => r_errno r = None → 0 <= r_number r <= Z.of_nat (length data)
  | _ => True
  end.

Definition run (t : list event) (w : world) : world := foldl (λ w e, effect e w) w t.
Fixpoint conforms (t : list event) (w : world) : Prop :=
  match t with [] => True | e :: t => allowed e w ∧ conforms t (effect e w) end.

Lemma run_app t1 t2 w : run (t1 ++ t2) w = run t2 (run t1 w).
Proof. apply foldl_app. Qed.
Lemma conforms_app t1 t2 w : conforms (t1 ++ t2) w ↔ conforms t1 w ∧ conforms t2 (run t1 w).
Proof. revert w. induction t1 as [|e t1 IH]; intros w; cbn; [tauto|]. rewrite IH. tauto. Qed.

(** ** Triples *)

Definition crash_triple {A} (P : world → Prop) (m : IO A) (C : world → Prop) (Q : A → world → Prop) : Prop :=
  ∀ w t, P w → conforms t w →
    (prefix_of_run m t → C (run t w)) ∧ ∀ a, runs m t a → Q a (run t w).

Lemma triple_ret {A} (P : world → Prop) (a : A) (C : world → Prop) (Q : A → world → Prop) :
  (∀ w, P w → C w) → (∀ w, P w → Q a w) → crash_triple P (mret a) C Q.
Proof.
  intros HC HQ w t Hw _. split; [intros ->%prefix_ret; by apply HC|]. intros b [-> ->]%runs_ret. by apply HQ.
Qed.
Lemma triple_bind {A B} (P : world → Prop) (m : IO A) (f : A → IO B) C R Q :
  crash_triple P m C R → (∀ a, crash_triple (R a) (f a) C Q) → crash_triple P (m ≫= f) C Q.
Proof.
  intros Hm Hf w t Hw Hc. split.
  - intros [Hp|(t1 & t2 & a & -> & Hr & Hp)]%prefix_bind; [by apply (Hm w t)|].
    apply conforms_app in Hc as [H1 H2]. rewrite run_app. eapply (Hf a); [|exact H2|exact Hp]. by apply (Hm w t1).
  - intros b (t1 & t2 & a & -> & Hr & Hp)%runs_bind. apply conforms_app in Hc as [H1 H2]. rewrite run_app.
    eapply (Hf a); [|exact H2|exact Hp]. by apply (Hm w t1).
Qed.
Lemma triple_sys (P : world → Prop) (c : syscall) (C : world → Prop) (Q : reply → world → Prop) :
  (∀ w, P w → C w) → (∀ w r, P w → allowed (c, r) w → C (effect (c, r) w) ∧ Q r (effect (c, r) w)) →
  crash_triple P (sys c) C Q.
Proof.
  intros HC HQ w t Hw Hc. split.
  - intros [->|[r ->]]%prefix_sys; [by apply HC|]. destruct Hc as [Ha _]. by apply HQ.
  - intros r ->%runs_sys. destruct Hc as [Ha _]. by apply HQ.
Qed.
Lemma triple_weaken {A} (P P' : world → Prop) (m : IO A) (C C' : world → Prop) (Q Q' : A → world → Prop) :
  crash_triple P m C Q → (∀ w, P' w → P w) → (∀ w, C w → C' w) → (∀ a w, Q a w → Q' a w) → crash_triple P' m C' Q'.
Proof. intros H HP HC HQ w t Hw Hc. destruct (H w t (HP _ Hw) Hc) as [H1 H2]. split; auto. Qed.
Lemma triple_pre {A} (P : world → Prop) (m : IO A) C Q :
  (∀ w, P w → crash_triple (λ w', w' = w) m C Q) → crash_triple P m C Q.
Proof. intros H w t Hw Hc. by apply (H w Hw). Qed.
(** [if err := m; err != nil { return err }; f] *)
Lemma triple_then {A B E} (P : world → Prop) (m : IO (result E A)) (f : A → IO (result E B)) C R Q :
  crash_triple P m C R → (∀ e w, R (Err e) w → C w) → (∀ e w, R (Err e) w → Q (Err e) w) →
  (∀ a, crash_triple (R (Ok a)) (f a) C Q) → crash_triple P (and_then m f) C Q.
Proof.
  intros Hm HC HQ Hf. eapply triple_bind; [exact Hm|]. intros [a|e]; [apply Hf|].
  apply triple_ret; [apply HC|apply HQ].
Qed.

(** A call that does not touch the directory. *)
Definition neutral (c : syscall) : bool :=
  match c with
  | Openat d _ flags _ => negb (d =? dir) || bool_decide (O_DIRECTORY ∈ flags)
  | Close _ | Write _ _ | Read _ _ | Fsync _ | Renameat _ _ _ | Unlinkat _ _ _ | Linkat _ _ _ | Symlinkat _ _ _ => false
  | _ => true
  end.
Lemma neutral_effect c r w : neutral c = true → effect (c, r) w = w.
Proof. destruct c; try done; intros H; cbn in *; try (by destruct (r_errno r)). rewrite H. by destruct (r_errno r). Qed.
Lemma triple_neutral P c (C : world → Prop) : neutral c = true → (∀ w, P w → C w) → crash_triple P (sys c) C (λ _, P).
Proof. intros Hn HC. apply triple_sys; [exact HC|]. intros w r Hw _. rewrite neutral_effect by done. split; auto. Qed.
End Directory.
