(* ===== verification/SecureFSSafety.v ===== *)
(** * Crash safety of private directories *)

From S2P Require Import Prelude GoIO Text Runes Protocol Identifiers Syscalls SecureFS CrashLogic.

Section Directory.
Context (dir : Z).
#[local] Notation triple := (crash_triple dir).

(** ** Rules for the combinators of [SecureFS] *)

Lemma triple_call (P : world → Prop) c (C : world → Prop) (Q : result fs_err reply → world → Prop) :
  (∀ fd, c ≠ Close fd) → (∀ w, P w → C w) →
  (∀ w r, P w → allowed dir (c, r) w → r_errno r = None → C (success dir c r w) ∧ Q (Ok r) (success dir c r w)) →
  (∀ w r e, P w → allowed dir (c, r) w → r_errno r = Some e → Q (Err (FErrno e)) w) →
  triple P (call c) C Q.
Proof.
  intros Hc HC Hok Herr. unfold call.
  assert (∀ r w, effect dir (c, r) w = match r_errno r with None => success dir c r w | Some _ => w end) as He.
  { intros r w. destruct c; try done. by destruct (Hc fd). }
  eapply (triple_bind _ _ _ _ _
    (λ r w, C w ∧ Q (match r_errno r with Some e => Err (FErrno e) | None => Ok r end) w)).
  - apply triple_sys; [exact HC|]. intros w r Hw Ha. rewrite He. destruct (r_errno r) as [e|] eqn:E.
    + split; [by apply HC|]. split; [by apply HC|]. by eapply Herr.
    + destruct (Hok w r Hw Ha E). done.
  - intros r. apply triple_ret; tauto.
Qed.
Lemma triple_call_neutral P c (C : world → Prop) :
  neutral dir c = true → (∀ w, P w → C w) → triple P (call c) C (λ _, P).
Proof.
  intros Hn HC. apply triple_call; [intros fd ->; done|exact HC| |done].
  intros w r Hw _ He. pose proof (neutral_effect dir c r w Hn) as H.
  assert (success dir c r w = w) as ->; [|split; auto]. destruct c; cbn in H; rewrite ?He in H; try done.
Qed.
Lemma triple_ignore (P Q C : world → Prop) c :
  (∀ w, P w → C w) → (∀ w r, P w → allowed dir (c, r) w → C (effect dir (c, r) w) ∧ Q (effect dir (c, r) w)) →
  triple P (ignore c) C (λ _, Q).
Proof.
  intros HC HQ. unfold ignore. eapply (triple_bind _ _ _ _ _ (λ _ w, C w ∧ Q w)).
  - apply triple_sys; [exact HC|]. intros w r Hw Ha. destruct (HQ w r Hw Ha). tauto.
  - intros r. apply triple_ret; tauto.
Qed.
Lemma triple_failing {A} (P Q C : world → Prop) c e :
  (∀ w, P w → C w) → (∀ w r, P w → allowed dir (c, r) w → C (effect dir (c, r) w) ∧ Q (effect dir (c, r) w)) →
  triple P (failing (A := A) c e) C (λ r w, r = Err e ∧ Q w).
Proof.
  intros HC HQ. unfold failing. eapply (triple_bind _ _ _ _ _ (λ _ w, C w ∧ Q w)).
  - apply triple_ignore; [exact HC|]. intros w r Hw Ha. destruct (HQ w r Hw Ha). tauto.
  - intros _. apply triple_ret; tauto.
Qed.

Lemma triple_call_close (P Q C : world → Prop) fd :
  (∀ w, P w → C w) → (∀ w, P w → C (w <| handles := delete fd (handles w) |>) ∧ Q (w <| handles := delete fd (handles w) |>)) →
  triple P (call (Close fd)) C (λ _, Q).
Proof.
  intros HC HQ. unfold call. eapply (triple_bind _ _ _ _ _ (λ _ w, C w ∧ Q w)).
  - apply triple_sys; [exact HC|]. intros w r Hw _. destruct (HQ w Hw). done.
  - intros r. apply triple_ret; tauto.
Qed.
Lemma triple_stop {A} (P : world → Prop) (a : A) C (Q : A → world → Prop) :
  (∀ w, P w → C w ∧ Q a w) → triple P (mret a) C Q.
Proof. intros H. apply triple_ret; intros w Hw; by destruct (H w Hw). Qed.

(** ** Looking without touching *)

(** Only descriptors differ. *)
Definition same_files (w w' : world) : Prop :=
  names w' = names w ∧ durable w' = durable w ∧ inodes w' = inodes w ∧ synced w' = synced w ∧ fresh w' = fresh w.
Lemma same_files_refl w : same_files w w.
Proof. done. Qed.
Lemma same_close w w' fd r : same_files w w' → same_files w (effect dir (Close fd, r) w').
Proof. by intros (?&?&?&?&?). Qed.
Hint Resolve same_files_refl same_close : core.

Lemma triple_close w0 e A : triple (same_files w0) (failing (A := A) (Close e) NotRegular) (same_files w0) (λ r w, r = Err NotRegular ∧ same_files w0 w).
Proof. apply triple_failing; [done|]. intros w r Hw _. split; by apply same_close. Qed.

Lemma open_effect flags name perm r w i :
  O_DIRECTORY ∉ flags → O_CREAT ∉ flags → names w !! name = Some i →
  success dir (Openat dir name flags perm) r w = w <| handles := <[r_number r := (i, 0%nat)]> (handles w) |>.
Proof. intros H1 H2 H3. cbn. by rewrite Z.eqb_refl, !bool_decide_eq_false_2, H3. Qed.
Lemma create_effect flags name perm r w :
  O_DIRECTORY ∉ flags → O_CREAT ∈ flags →
  success dir (Openat dir name flags perm) r w = w <| names := <[name := fresh w]> (names w) |>
    <| inodes := <[fresh w := []]> (inodes w) |> <| handles := <[r_number r := (fresh w, 0%nat)]> (handles w) |> <| fresh := fresh w + 1 |>.
Proof. intros H1 H2. cbn. by rewrite Z.eqb_refl, bool_decide_eq_false_2, bool_decide_eq_true_2. Qed.

Definition opened (w0 : world) (name : text) (r : result fs_err (Z * Stat_t)) (w : world) : Prop :=
  same_files w0 w ∧
  match r with
  | Ok (fd, st) => ∃ i, names w0 !! name = Some i ∧ handles w !! fd = Some (i, 0%nat) ∧ fd ≠ dir
      ∧ st_Size st = Z.of_nat (length (default [] (inodes w0 !! i)))
  | Err e => is_errno ENOENT e = true → names w0 !! name = None
  end.
Lemma openRegularAt_spec w0 name :
  triple (same_files w0) (openRegularAt dir name read_flags) (same_files w0) (opened w0 name).
Proof.
  unfold openRegularAt.
  eapply (triple_then _ _ _ _ _ (λ r w, same_files w0 w ∧ match r with
    | Ok r => ∃ i, names w0 !! name = Some i ∧ handles w !! r_number r = Some (i, 0%nat) ∧ r_number r ≠ dir
    | Err e => is_errno ENOENT e = true → names w0 !! name = None end)).
  - apply triple_call; [done|done| |].
    + intros w r Hw Ha He. pose proof Hw as (Hn & _). cbn in Ha. rewrite He in Ha. destruct Ha as (Hh & Hd & Hi). specialize (Hi eq_refl ltac:(set_solver)).
      assert (O_CREAT ∉ read_flags ++ [O_NOFOLLOW; O_CLOEXEC]) as Hc by set_solver. rewrite bool_decide_eq_false_2 in Hi by done.
      destruct Hi as [i Hi]. rewrite (open_effect _ _ _ _ _ i) by (done || set_solver).
      split; [by destruct Hw as (?&?&?&?&?)|]. split; [by destruct Hw as (?&?&?&?&?)|].
      exists i. rewrite <-Hn. split; [done|]. split; [|done]. apply lookup_insert_eq.
    + intros w r e Hw Ha He. split; [done|]. cbn in Ha. rewrite He in Ha. intros Hx. unfold is_errno in Hx. bool_prop.
      injection Hx as ->. destruct Hw as (Hn & _). rewrite <-Hn. apply Ha; [done|set_solver|set_solver].
  - by intros e w [? _].
  - intros e w [? H]. by split.
  - intros r. eapply (triple_bind _ _ _ _ _ (λ st w, same_files w0 w ∧ r_errno st ≠ Some ENOENT
      ∧ ∃ i, names w0 !! name = Some i ∧ handles w !! r_number r = Some (i, 0%nat) ∧ r_number r ≠ dir
        ∧ (r_errno st = None → st_Size (r_stat st) = Z.of_nat (length (default [] (inodes w0 !! i)))))).
    + apply triple_sys; [by intros w [? _]|]. intros w st (Hw & i & H1 & H2 & H3) [Ha1 Ha2].
      rewrite neutral_effect by done. split; [done|]. split; [done|]. split; [done|]. exists i. split_and!; try done.
      intros He. rewrite (Ha2 He _ _ H2). by destruct Hw as (_&_&->&_&_).
    + intros st. destruct (r_errno st) as [e|] eqn:E.
      * eapply triple_weaken; [apply (triple_failing (λ w, same_files w0 w ∧ e ≠ ENOENT) (λ w, same_files w0 w ∧ e ≠ ENOENT) (same_files w0))| | |].
        -- tauto.
        -- intros w r' [Hw He] _. split; [by apply same_close|]. split; [by apply same_close|done].
        -- intros w (Hw & He & _). split; [done|congruence].
        -- done.
        -- intros a w [-> [Hw He]]. split; [done|]. unfold is_errno. intros Hx. bool_prop. congruence.
      * case_guard G.
        -- eapply triple_weaken; [apply (triple_close w0 (r_number r))|by intros w (? & _)|done|].
           intros a w [-> ?]. by split.
        -- apply triple_ret; [by intros w (? & _)|]. intros w (Hw & _ & i & H1 & H2 & H3 & H4). split; [done|].
           exists i. by split_and!; auto.
Qed.

(** A loop over its script: one lemma gives both halves of a triple. *)
Lemma triple_loop {A} (P : world → Prop) (m : IO A) (C : world → Prop) (Q : A → world → Prop) :
  (∀ s w t s' o, m s = (t, s', o) → P w → conforms dir t w →
    C (run dir t w) ∧ ∀ a, o = Some a → Q a (run dir t w)) → triple P m C Q.
Proof.
  intros H w t Hw Hc. split.
  - intros (s & s' & o & Hm). by eapply H.
  - intros a (s & s' & Hm). by eapply H.
Qed.

(** ** A new file *)

(** The file [n] was created after [w0] as inode [i] and holds [k]; nothing else changed. *)
Record filled (w0 : world) (n : text) (i : Z) (k : list byte) (w : world) : Prop := {
  fi_names : names w = <[n := i]> (names w0);
  fi_durable : durable w = durable w0;
  fi_new : i = fresh w0;
  fi_fresh : fresh w = fresh w0 + 1;
  fi_data : inodes w !! i = Some k;
  fi_below j : j ≠ i → inodes w !! j = inodes w0 !! j ∧ synced w !! j = synced w0 !! j }.
Definition filling (w0 : world) (n : text) (fd i : Z) (k : list byte) (w : world) : Prop :=
  filled w0 n i k w ∧ handles w !! fd = Some (i, length k) ∧ fd ≠ dir.
Definition partial (w0 : world) (n : text) (i : Z) (w : world) : Prop := ∃ k, filled w0 n i k w.

Lemma filled_handles w0 n i k w h : filled w0 n i k w → filled w0 n i k (w <| handles := h |>).
Proof. intros []. by constructor. Qed.
Lemma write_at_end w0 n fd i k w r data :
  filling w0 n fd i k w → valid_count data (r_number r) = true →
  filling w0 n fd i (k ++ take (Z.to_nat (r_number r)) data) (success dir (Write fd data) r w).
Proof.
  intros (Hf & Hh & Hd) Hv. cbn. rewrite Hh. split; [|split; [|done]].
  - destruct Hf as [H1 H2 H3 H4 H5 H6]. constructor; try done.
    + cbn. rewrite lookup_insert_eq, H5. cbn [default]. unfold overwrite. rewrite (take_ge k), (drop_ge k) by lia. by rewrite app_nil_r.
    + intros j Hj. cbn. rewrite lookup_insert_ne by done. by apply H6.
  - cbn. by rewrite lookup_insert_eq, length_app.
Qed.
Lemma writeAll_spec w0 n fd i k data :
  triple (filling w0 n fd i k) (writeAll fd data) (partial w0 n i)
    (λ r w, match r with Ok _ => filling w0 n fd i (k ++ data) w | Err _ => partial w0 n i w end).
Proof.
  apply triple_loop. intros s. revert k data. unfold writeAll. induction s as [|r s IH]; intros k data w t s' o Hm Hw Hc.
  - assert (partial w0 n i w) as Hp by (destruct Hw as [? _]; by eexists). destruct data as [|b data].
    + injection Hm as <- _ <-. split; [done|]. intros a [= <-]. by rewrite app_nil_r.
    + injection Hm as <- _ <-. by split.
  - assert (partial w0 n i w) as Hp by (destruct Hw as [? _]; by eexists). destruct data as [|b data].
    { injection Hm as <- _ <-. split; [done|]. intros a [= <-]. by rewrite app_nil_r. }
    cbn [writeAll_from] in Hm. destruct (r_errno r) as [e|] eqn:Ee.
    + assert (effect dir (Write fd (b :: data), r) w = w) as Heff by (cbn; by rewrite Ee).
      destruct (decide (e = EINTR)) as [->|He].
      * destruct (writeAll_from fd (b :: data) s) as [[t1 s1] o1] eqn:E1. injection Hm as <- _ <-.
        destruct Hc as [_ Hc]. cbn [run foldl]. rewrite Heff in *. by eapply IH.
      * assert (t = [(Write fd (b :: data), r)] ∧ o = Some (Err (FErrno e))) as [-> ->]
          by (destruct e; try done; injection Hm as <- _ <-; done).
        cbn [run foldl]. rewrite Heff. split; [done|]. by intros a [= <-].
    + assert (effect dir (Write fd (b :: data), r) w = success dir (Write fd (b :: data)) r w) as Heff by (cbn; by rewrite Ee).
      destruct (r_number r =? 0) eqn:Gz.
      { injection Hm as <- _ <-. cbn [run foldl]. rewrite Heff. assert (partial w0 n i (success dir (Write fd (b :: data)) r w)).
        { pose proof (write_at_end w0 n fd i k w r (b :: data) Hw) as [Hx _]; [|by eexists].
          unfold valid_count. apply Z.eqb_eq in Gz. rewrite Gz. apply andb_true_intro. split; apply Z.leb_le; [done|apply Nat2Z.is_nonneg]. }
        split; [done|]. by intros a [= <-]. }
      destruct (negb (valid_count (b :: data) (r_number r))) eqn:Gv.
      { injection Hm as <- _ <-. destruct Hc as [Ha _]. specialize (Ha Ee). unfold valid_count in Gv. apply negb_true_iff, andb_false_iff in Gv as [Gv|Gv]; bool_prop; lia. }
      destruct (writeAll_from fd _ s) as [[t1 s1] o1] eqn:E1. injection Hm as <- _ <-. destruct Hc as [_ Hc].
      cbn [run foldl]. rewrite Heff in *. bool_prop.
      destruct (IH _ _ _ _ _ _ E1 (write_at_end _ _ _ _ _ _ _ _ Hw Gv) Hc) as [H1 H2]. split; [done|]. intros a Ha.
      specialize (H2 a Ha). by rewrite <-app_assoc, take_drop in H2.
Qed.

Lemma prepare_spec (P C : world → Prop) fd permissions :
  (∀ w, P w → C w) → triple P (prepareRegularFile fd permissions) C (λ _, P).
Proof.
  intros HC. unfold prepareRegularFile. eapply (triple_then _ _ _ _ _ (λ _, P)).
  - by apply triple_call_neutral.
  - by intros _.
  - by intros _.
  - intros r. case_guard G; [by apply triple_ret|]. eapply (triple_then _ _ _ _ _ (λ _, P)).
    + by apply triple_call_neutral.
    + by intros _.
    + by intros _.
    + intros _. by apply triple_ret.
Qed.

(** A filled file whose bytes are on the disk. *)
Definition complete (w0 : world) (n : text) (i : Z) (data : list byte) (w : world) : Prop :=
  filled w0 n i data w ∧ synced w !! i = Some data.
Lemma fill_spec w0 n fd i permissions data :
  triple (filling w0 n fd i []) (fill fd permissions data) (partial w0 n i)
    (λ f w, match f.2 with Ok _ => complete w0 n i data w | Err _ => partial w0 n i w end).
Proof.
  assert (∀ k w, filling w0 n fd i k w → partial w0 n i w) as Hp by (intros k w [? _]; by eexists).
  unfold fill. eapply (triple_bind _ _ _ _ _ (λ _, filling w0 n fd i [])); [apply prepare_spec, Hp|].
  intros [_|e]; [|apply triple_stop; intros w Hw; pose proof (Hp _ _ Hw); by split].
  eapply triple_bind; [apply writeAll_spec|]. intros [_|e]; [|by apply triple_stop]. cbn [app].
  eapply (triple_bind _ _ _ _ _ (λ r w, match r with Ok _ => complete w0 n i data w | Err _ => partial w0 n i w end)).
  - apply triple_call; [done|apply Hp| |by intros w r e Hw _ _; apply (Hp _ _ Hw)].
    intros w r (Hf & Hh & Hd) _ _. cbn. rewrite (proj2 (Z.eqb_neq fd dir)), Hh by done. destruct Hf as [H1 H2 H3 H4 H5 H6].
    assert (filled w0 n i data (w <| synced := <[i := default [] (inodes w !! i)]> (synced w) |>)) as Hf.
    { constructor; try done. intros j Hj. cbn. rewrite lookup_insert_ne by done. by apply H6. }
    split; [by eexists|]. split; [done|]. cbn. by rewrite lookup_insert_eq, H5.
  - intros [_|e]; [|by apply triple_stop].
    eapply (triple_bind _ _ _ _ _ (λ _, complete w0 n i data)).
    + apply triple_call_close; [intros w [? _]; by eexists|]. intros w [Hf Hs].
      assert (filled w0 n i data (w <| handles := delete fd (handles w) |>)) by by apply filled_handles.
      split; [by eexists|]. by split.
    + intros [_|e]; apply triple_stop; intros w [Hf Hs]; (split; [by eexists|]); cbn; [by split|by eexists].
Qed.

Lemma create_file_spec w0 n permissions :
  triple (same_files w0) (call (Openat dir n create_flags permissions)) (λ w, same_files w0 w ∨ partial w0 n (fresh w0) w)
    (λ r w, match r with
            | Ok r => names w0 !! n = None ∧ filling w0 n (r_number r) (fresh w0) [] w
            | Err _ => same_files w0 w
            end).
Proof.
  apply triple_call; [done|by left| |done].
  intros w r (H1 & H2 & H3 & H4 & H5) Ha He. cbn in Ha. rewrite He, bool_decide_eq_true_2 in Ha by set_solver.
  destruct Ha as (_ & Hd & Hn). specialize (Hn eq_refl ltac:(set_solver)). rewrite create_effect by set_solver. rewrite H5.
  assert (filled w0 n (fresh w0) [] (w <| names := <[n := fresh w0]> (names w) |> <| inodes := <[fresh w0 := []]> (inodes w) |>
    <| handles := <[r_number r := (fresh w0, 0%nat)]> (handles w) |> <| fresh := fresh w0 + 1 |>)) as Hf.
  { constructor; cbn; try congruence; [by rewrite lookup_insert_eq|]. intros j Hj. rewrite lookup_insert_ne by done. by rewrite H3, H4. }
  split; [right; by eexists|]. split; [rewrite <-H1; apply Hn; set_solver|]. split; [done|]. split; [|done].
  cbn. by rewrite lookup_insert_eq.
Qed.

Definition temporary_name (n : text) : Prop := temporary_prefix `prefix_of` n.
Definition tmp_made (w0 : world) (r : result fs_err (text * Z)) (w : world) : Prop :=
  match r with
  | Ok (n, fd) => temporary_name n ∧ names w0 !! n = None ∧ filling w0 n fd (fresh w0) [] w
  | Err _ => same_files w0 w
  end.
Definition maybe_tmp (w0 w : world) : Prop :=
  same_files w0 w ∨ ∃ n, temporary_name n ∧ partial w0 n (fresh w0) w.
Lemma createTemporary_spec w0 permissions :
  triple (same_files w0) (createTemporary dir permissions) (maybe_tmp w0) (tmp_made w0).
Proof.
  unfold createTemporary. induction temporaryAttempts as [|m IH]; [by apply triple_stop; intros w Hw; split; [left|]|].
  cbn [temporary_attempts]. eapply (triple_then _ _ _ _ _ (λ _, same_files w0)).
  - apply triple_call_neutral; [done|]. by left.
  - by left.
  - done.
  - intros random. cbv zeta. set (n := temporary_prefix ++ _). assert (temporary_name n) as Ht by by eexists.
    eapply triple_bind.
    + eapply triple_weaken; [apply (create_file_spec w0 n permissions)|done| |done].
      intros w [?|?]; [by left|right; by exists n].
    + intros [r|e].
      * apply triple_stop. intros w [Hn Hf]. split; [|done]. right. exists n. split; [done|]. destruct Hf as [? _]. by eexists.
      * case_guard G; [done|]. apply triple_stop. intros w Hw. split; [by left|done].
Qed.

(** ** [ReplaceFile] *)

(** Nothing but temporary names and descriptors changed. *)
Record untouched (w0 w : world) : Prop := {
  un_names m : ¬ temporary_name m → names w !! m = names w0 !! m;
  un_durable : durable w = durable w0;
  un_below j : j < fresh w0 → inodes w !! j = inodes w0 !! j ∧ synced w !! j = synced w0 !! j;
  un_fresh : fresh w0 <= fresh w }.
(** [name] is a new file whose bytes are on the disk; no other name changed. *)
Record replaced (w0 : world) (name : text) (data : list byte) (w : world) : Prop := {
  rp_names m : ¬ temporary_name m → m ≠ name → names w !! m = names w0 !! m;
  rp_new : ∃ i, names w !! name = Some i ∧ i < fresh w ∧ inodes w !! i = Some data ∧ synced w !! i = Some data;
  rp_below j : j < fresh w0 → inodes w !! j = inodes w0 !! j ∧ synced w !! j = synced w0 !! j;
  rp_fresh : fresh w0 <= fresh w }.
Definition unsynced (w0 : world) (name : text) (data : list byte) (w : world) : Prop :=
  replaced w0 name data w ∧ durable w = durable w0.
Definition installed (w0 : world) (name : text) (data : list byte) (w : world) : Prop :=
  replaced w0 name data w ∧ durable w = names w.
Definition stage (w0 : world) (name : text) (data : list byte) (w : world) : Prop :=
  untouched w0 w ∨ unsynced w0 name data w ∨ installed w0 name data w.

Lemma same_untouched w0 w : same_files w0 w → untouched w0 w.
Proof. intros (H1&H2&H3&H4&H5). constructor; [intros; by rewrite H1|done|intros; by rewrite H3, H4|lia]. Qed.
Lemma partial_untouched w0 n i w : temporary_name n → partial w0 n i w → untouched w0 w.
Proof.
  intros Ht (k & [H1 H2 H3 H4 H5 H6]). constructor; [|done| |lia].
  - intros m Hm. rewrite H1, lookup_insert_ne; [done|]. by intros ->.
  - intros j Hj. apply H6. lia.
Qed.
Lemma maybe_untouched w0 w : maybe_tmp w0 w → untouched w0 w.
Proof. intros [?|(n & Hn & ?)]; [by apply same_untouched|by eapply partial_untouched]. Qed.
Lemma unlinked_untouched w0 n r w : temporary_name n → untouched w0 w → untouched w0 (effect dir (Unlinkat dir n false, r) w).
Proof.
  intros Ht [H1 H2 H3 H4]. cbn. destruct (r_errno r); [done|]. rewrite Z.eqb_refl. constructor; [|done..].
  intros m Hm. cbn. rewrite lookup_delete_ne; [by apply H1|]. by intros ->.
Qed.
Lemma closed_untouched w0 fd r w : untouched w0 w → untouched w0 (effect dir (Close fd, r) w).
Proof. by intros []. Qed.
Lemma discard_spec {A} w0 n fd open e C :
  temporary_name n → (∀ w, untouched w0 w → C w) →
  triple (untouched w0) (discard (A := A) fd open (Unlinkat dir n false) e) C (λ r w, r = Err e ∧ untouched w0 w).
Proof.
  intros Ht HC. unfold discard. eapply (triple_bind _ _ _ _ _ (λ _, untouched w0)).
  - destruct open; [|by apply triple_ret]. apply triple_ignore; [done|]. intros w r Hw _.
    split; [apply HC|]; by apply closed_untouched.
  - intros _. apply triple_failing; [done|]. intros w r Hw _. split; [apply HC|]; by apply unlinked_untouched.
Qed.

Lemma rename_replaced w0 n name data r w :
  temporary_name n → ¬ temporary_name name → complete w0 n (fresh w0) data w →
  unsynced w0 name data (success dir (Renameat dir n name) r w).
Proof.
  intros Ht Hn ([H1 H2 _ H4 H5 H6] & Hs). cbn. rewrite Z.eqb_refl, H1, lookup_insert_eq. split; [|done]. constructor; cbn.
  - intros m Hm Hne. rewrite lookup_insert_ne, lookup_delete_ne, lookup_insert_ne; [done|by intros ->..|done].
  - exists (fresh w0). rewrite lookup_insert_eq. split_and!; [done|lia|done|done].
  - intros j Hj. apply H6. lia.
  - lia.
Qed.
Lemma sync_installed w0 name data r w :
  unsynced w0 name data w → installed w0 name data (success dir (Fsync dir) r w).
Proof. intros [[H1 H2 H3 H4] _]. cbn. rewrite Z.eqb_refl. by split; [constructor|]. Qed.

Lemma inspect_spec w0 name : triple (same_files w0) (inspectReplaceTarget dir name) (same_files w0) (λ _, same_files w0).
Proof.
  unfold inspectReplaceTarget. eapply triple_bind; [apply openRegularAt_spec|]. intros [[fd st]|e].
  - eapply (triple_then _ _ _ _ _ (λ _, same_files w0)); [|done|done|intros _; by apply triple_stop].
    apply triple_call_close; [by intros w [? _]|]. intros w [(?&?&?&?&?) _]. by split.
  - case_guard G; apply triple_stop; by intros w [? _].
Qed.

(** The one function that both the crash and the sequential theorems read. *)
Lemma ReplaceFile_spec w0 root name data mode :
  root_fd root = dir → ¬ temporary_name name →
  triple (λ w, w = w0) (ReplaceFile root name data mode) (stage w0 name data)
    (λ r w, match r with Ok _ => installed w0 name data w | Err _ => stage w0 name data w end).
Proof.
  intros Hroot Hn. unfold ReplaceFile, with_mode.
  assert (∀ A (e : fs_err), triple (λ w, w = w0) (mret (Err e)) (stage w0 name data)
    (λ (r : result fs_err A) w, match r with Ok _ => installed w0 name data w | Err _ => stage w0 name data w end)) as Hfail.
  { intros A e. apply triple_stop. intros w ->. assert (stage w0 name data w0) by (left; by apply same_untouched). done. }
  destruct (validateComponent name); [|apply Hfail]. destruct (filePermissions mode) as [permissions|]; [|apply Hfail].
  destruct (root_open root); [|apply Hfail]. rewrite Hroot. clear Hfail.
  assert (∀ w, untouched w0 w → stage w0 name data w) as Hu by by left.
  eapply (triple_then _ _ _ _ _ (λ _, same_files w0)).
  { eapply triple_weaken; [apply (inspect_spec w0 name)|by intros w ->|by intros w ?%same_untouched; left|done]. }
  { by intros _ w ?%same_untouched%Hu. }
  { by intros _ w ?%same_untouched%Hu. }
  intros _. eapply triple_then.
  { eapply triple_weaken; [apply (createTemporary_spec w0 permissions)|done|by intros w ?%maybe_untouched%Hu|intros ? ? H; exact H]. }
  { by intros e w ?%same_untouched%Hu. }
  { by intros e w ?%same_untouched%Hu. }
  intros [n fd]. cbn [tmp_made]. apply triple_pre. intros w1 (Ht & Hnone & Hf).
  eapply triple_bind.
  { eapply triple_weaken; [apply (fill_spec w0 n fd (fresh w0) permissions data)|by intros ? ->| |intros ? ? H; exact H].
    intros w H. by eapply Hu, partial_untouched. }
  intros [open [[]|e]]; cbn [snd].
  2:{ eapply triple_weaken; [apply (discard_spec w0 n fd open e (stage w0 name data) Ht Hu)| |done|intros ? w [-> H]; by apply Hu].
      intros w H. by eapply partial_untouched. }
  eapply (triple_bind _ _ _ _ _ (λ r w, match r with Ok _ => unsynced w0 name data w | Err _ => untouched w0 w end)).
  - apply triple_call; [done| | |].
    + intros w [H _]. eapply Hu, partial_untouched; [exact Ht|by eexists].
    + intros w r Hw _ _. pose proof (rename_replaced w0 n name data r w Ht Hn Hw). split; [by right; left|done].
    + intros w r e [H _] _ _. eapply partial_untouched; [exact Ht|by eexists].
  - intros [_|e].
    + eapply (triple_then _ _ _ _ _ (λ r w, match r with Ok _ => installed w0 name data w | Err _ => unsynced w0 name data w end)).
      * apply triple_call; [done|by right; left| |done]. intros w r Hw _ _.
        pose proof (sync_installed w0 name data r w Hw). split; [by right; right|done].
      * intros e w Hw. by right; left.
      * intros e w Hw. by right; left.
      * intros _. apply triple_stop. intros w Hw. split; [by right; right|done].
    + eapply triple_weaken; [apply (triple_failing (untouched w0) (untouched w0) (stage w0 name data))|done|done|intros ? w [-> H]; by apply Hu].
      * done.
      * intros w r Hw _. split; [apply Hu|]; by apply unlinked_untouched.
Qed.

(** ** [ReadFile] *)

Definition reading (w0 : world) (fd i : Z) (contents : list byte) (w : world) : Prop :=
  same_files w0 w ∧ handles w !! fd = Some (i, length contents)
  ∧ contents = take (length contents) (default [] (inodes w0 !! i)).
Lemma read_more w0 fd i contents w r :
  reading w0 fd i contents w → allowed dir (Read fd read_buffer, r) w → r_errno r = None →
  reading w0 fd i (contents ++ r_data r) (success dir (Read fd read_buffer) r w)
  ∧ (r_data r = [] → contents = default [] (inodes w0 !! i)).
Proof.
  intros (Hs & Hh & Hc) Ha He. destruct (Ha He _ _ Hh) as [Hd Hz]. pose proof Hs as (_ & _ & Hi & _). rewrite Hi in Hd, Hz.
  set (full := default [] (inodes w0 !! i)) in *. assert (length contents <= length full)%nat as Hl
    by (apply (f_equal length) in Hc; rewrite length_take in Hc; lia).
  split.
  - cbn. rewrite Hh. split; [by destruct Hs as (?&?&?&?&?)|]. split; [cbn; by rewrite lookup_insert_eq, length_app|].
    fold full. rewrite length_app, <-take_take_drop, <-Hc, <-Hd. done.
  - intros Hr. specialize (Hz Hr). rewrite <-(take_drop (length contents) full), Hz, app_nil_r. done.
Qed.
Lemma read_bounded_spec w0 fd i limit :
  triple (reading w0 fd i []) (read_bounded fd limit []) (same_files w0)
    (λ r w, same_files w0 w ∧ ∀ l, r = Ok l → l = default [] (inodes w0 !! i) ∧ (l = [] ∨ Z.of_nat (length l) <= limit)).
Proof.
  apply triple_loop. intros s.
  assert (∀ s contents w t s' o, contents = [] ∨ Z.of_nat (length contents) <= limit →
    read_bounded fd limit contents s = (t, s', o) → reading w0 fd i contents w → conforms dir t w →
    same_files w0 (run dir t w) ∧ ∀ a, o = Some a → same_files w0 (run dir t w)
      ∧ ∀ l, a = Ok l → l = default [] (inodes w0 !! i) ∧ (l = [] ∨ Z.of_nat (length l) <= limit)) as H; [|by intros w t s' o; apply H; left].
  clear s. intros s. induction s as [|r s IH]; intros contents w t s' o Hl Hm Hw Hc.
  - injection Hm as <- _ <-. by destruct Hw as [? _].
  - cbn [read_bounded] in Hm. destruct (r_errno r) as [e|] eqn:Ee.
    + assert (effect dir (Read fd read_buffer, r) w = w) as Heff by (cbn; by rewrite Ee).
      destruct (decide (e = EINTR)) as [->|He].
      * destruct (read_bounded fd limit contents s) as [[t1 s1] o1] eqn:E1. injection Hm as <- _ <-. destruct Hc as [_ Hc].
        cbn [run foldl]. rewrite Heff in *. by eapply IH.
      * assert (t = [(Read fd read_buffer, r)] ∧ o = Some (Err (FErrno e))) as [-> ->]
          by (destruct e; try done; injection Hm as <- _ <-; done).
        cbn [run foldl]. rewrite Heff. destruct Hw as [Hw _]. split; [done|]. intros a [= <-]. by split.
    + assert (effect dir (Read fd read_buffer, r) w = success dir (Read fd read_buffer) r w) as Heff by (cbn; by rewrite Ee).
      destruct (limit <? _) eqn:Gl.
      { injection Hm as <- _ <-. destruct Hc as [Ha _]. destruct (read_more _ _ _ _ _ _ Hw Ha Ee) as [(Hs & _) _].
        cbn [run foldl]. rewrite Heff. split; [done|]. intros a [= <-]. by split. }
      destruct (bool_decide (r_data r = [])) eqn:Gz.
      { injection Hm as <- _ <-. destruct Hc as [Ha _]. destruct (read_more _ _ _ _ _ _ Hw Ha Ee) as [(Hs & _) Hf].
        cbn [run foldl]. rewrite Heff. split; [done|]. intros a [= <-]. split; [done|]. intros l [= <-]. bool_prop. auto. }
      destruct (read_bounded fd limit _ s) as [[t1 s1] o1] eqn:E1. injection Hm as <- _ <-. destruct Hc as [Ha Hc].
      destruct (read_more _ _ _ _ _ _ Hw Ha Ee) as [Hr _]. cbn [run foldl]. rewrite Heff in *. bool_prop.
      eapply IH; [|exact E1|exact Hr|exact Hc]. right. rewrite length_app. lia.
Qed.

Lemma triple_deferring_close {A} w0 (P : world → Prop) (m : IO A) fd (Q : A → Prop) :
  triple P m (same_files w0) (λ a w, same_files w0 w ∧ Q a) →
  triple P (deferring (ignore (Close fd)) m) (same_files w0) (λ a w, same_files w0 w ∧ Q a).
Proof.
  intros Hm. unfold deferring. eapply triple_bind; [exact Hm|]. intros a.
  eapply (triple_bind _ _ _ _ _ (λ _ w, same_files w0 w ∧ Q a)).
  - apply triple_ignore; [by intros w [? _]|]. intros w r [Hw Ha] _. pose proof (same_close w0 w fd r Hw). done.
  - intros _. apply triple_stop. intros w Hw. by split; [destruct Hw|].
Qed.

(** Reading changes nothing; what it returns is the whole file, within the limit. *)
Lemma readFile_spec w0 root name limit mode :
  root_fd root = dir →
  triple (same_files w0) (readFile root name limit mode) (same_files w0)
    (λ r w, same_files w0 w ∧ match r with
      | Ok l => (∃ i, names w0 !! name = Some i ∧ l = default [] (inodes w0 !! i)) ∧ Z.of_nat (length l) <= limit
      | Err e => True end).
Proof.
  intros Hroot. unfold readFile. destruct (validateComponent name); [|by apply triple_stop].
  case_guard G; [by apply triple_stop|]. case_guard G1; [by apply triple_stop|]. rewrite Hroot. bool_prop.
  eapply triple_then; [apply openRegularAt_spec|by intros e w [? _]|intros e w [? _]; by split|].
  intros [fd st]. apply triple_pre. intros w1 (Hs & i & H1 & H2 & H3 & H4).
  eapply triple_weaken; [apply (triple_deferring_close w0 (reading w0 fd i [])
      (refuse negb (mode =? 0) && negb (mode_bits st =? mode) with NotPrivateFile;;
       refuse (st_Size st <? 0) || (limit <? st_Size st) with TooLarge;; read_bounded fd limit []) fd
      (λ r, match r with
      | Ok l => (∃ i, names w0 !! name = Some i ∧ l = default [] (inodes w0 !! i)) ∧ Z.of_nat (length l) <= limit
      | Err e => True end))|by intros ? ->|done|done].
  assert (∀ e : fs_err, triple (reading w0 fd i []) (mret (Err e)) (same_files w0)
    (λ (a : result fs_err (list byte)) w, same_files w0 w ∧ match a with
      | Ok l => (∃ i, names w0 !! name = Some i ∧ l = default [] (inodes w0 !! i)) ∧ Z.of_nat (length l) <= limit
      | Err e => True end)) as Hfail by (intros e; apply triple_stop; intros w [? _]; done).
  case_guard G2; [apply Hfail|]. case_guard G3; [apply Hfail|].
  eapply triple_weaken; [apply read_bounded_spec|done|done|]. intros [l|e] w [Hw Hl]; [|done]. split; [done|].
  destruct (Hl l eq_refl) as [H5 H6]. split; [by exists i|]. destruct H6 as [->|?]; cbn; lia.
Qed.
End Directory.
