(* ===== verification/DirectoryView.v ===== *)
(** * A private directory as a map, and what its operations do to it

    The abstract contract of [securefs]: a directory is a finite map from names to contents.
    [directory] is a map that both processes and a power loss agree on; [visible] is what
    processes see. Temporary names are not part of either. *)

From S2P Require Import Prelude GoIO Text Runes Protocol Identifiers Syscalls SecureFS CrashLogic SecureFSSafety.

Abbreviation view := (gmap text (list byte)).

(** What an entry shows to processes, and to processes and after a power loss alike. *)
Definition seen (w : world) (e : option Z) (c : option (list byte)) : Prop :=
  match e with None => c = None | Some i => i < fresh w ∧ ∃ b, c = Some b ∧ inodes w !! i = Some b end.
Definition kept (w : world) (e : option Z) (c : option (list byte)) : Prop :=
  match e with None => c = None | Some i => i < fresh w ∧ ∃ b, c = Some b ∧ inodes w !! i = Some b ∧ synced w !! i = Some b end.

Definition directory (w : world) (v : view) : Prop :=
  ∀ m, ¬ temporary_name m → kept w (names w !! m) (v !! m) ∧ kept w (durable w !! m) (v !! m).
(** Every entry shows the file of one map or of the other, whole. *)
Definition between (w : world) (v v' : view) : Prop :=
  ∀ m, ¬ temporary_name m → (kept w (names w !! m) (v !! m) ∨ kept w (names w !! m) (v' !! m))
                            ∧ (kept w (durable w !! m) (v !! m) ∨ kept w (durable w !! m) (v' !! m)).
Definition visible (w : world) (v : view) : Prop := ∀ m, ¬ temporary_name m → seen w (names w !! m) (v !! m).

Lemma directory_between w v v' : directory w v ∨ directory w v' → between w v v'.
Proof. intros [H|H] m Hm; destruct (H m Hm); auto. Qed.

(** Entries keep their meaning when only fresh inodes change. *)
Section Stable.
Context (w0 w : world).
Context (Hbelow : ∀ j, j < fresh w0 → inodes w !! j = inodes w0 !! j ∧ synced w !! j = synced w0 !! j) (Hf : fresh w0 <= fresh w).
Lemma kept_stable e c : kept w0 e c → kept w e c.
Proof.
  destruct e as [i|]; [|done]. intros (Hi & b & -> & H1 & H2). destruct (Hbelow i Hi) as [E1 E2].
  split; [lia|]. exists b. by rewrite E1, E2.
Qed.
Lemma seen_stable e c : seen w0 e c → seen w e c.
Proof.
  destruct e as [i|]; [|done]. intros (Hi & b & -> & H1). destruct (Hbelow i Hi) as [E1 _].
  split; [lia|]. exists b. by rewrite E1.
Qed.
End Stable.

Lemma untouched_directory w0 w v : untouched w0 w → directory w0 v → directory w v.
Proof.
  intros [H1 H2 H3 H4] Hv m Hm. destruct (Hv m Hm). rewrite (H1 m Hm), H2. split; by eapply kept_stable.
Qed.
Lemma untouched_visible w0 w v : untouched w0 w → visible w0 v → visible w v.
Proof. intros [H1 H2 H3 H4] Hv m Hm. rewrite (H1 m Hm). eapply seen_stable; [done|done|by apply Hv]. Qed.
Lemma replaced_entry w0 name data w v m :
  replaced w0 name data w → ¬ temporary_name m → kept w0 (names w0 !! m) (v !! m) →
  kept w (names w !! m) ((<[name := data]> v : view) !! m).
Proof.
  intros [H1 (i & Hi & Hlt & H2 & H3) H4 H5] Hm Hk. destruct (decide (m = name)) as [->|Hne].
  - rewrite Hi, lookup_insert_eq. split; [done|]. by exists data.
  - rewrite lookup_insert_ne, H1 by done. by eapply kept_stable.
Qed.
Lemma replaced_visible w0 name data w v :
  replaced w0 name data w → visible w0 v → visible w (<[name := data]> v).
Proof.
  intros [H1 (i & Hi & Hlt & H2 & H3) H4 H5] Hv m Hm. destruct (decide (m = name)) as [->|Hne].
  - rewrite Hi, lookup_insert_eq. split; [done|]. by exists data.
  - rewrite lookup_insert_ne, H1 by done. eapply seen_stable; [done|done|by apply Hv].
Qed.
Lemma stage_between w0 name data w v :
  directory w0 v → stage w0 name data w → between w v (<[name := data]> v).
Proof.
  intros Hv [H|[[H Hd]|[H Hd]]].
  - apply directory_between. left. by eapply untouched_directory.
  - intros m Hm. destruct (Hv m Hm) as [K1 K2]. split; [right; by eapply replaced_entry|]. left. rewrite Hd.
    destruct H as [_ _ H4 H5]. by eapply kept_stable.
  - apply directory_between. right. intros m Hm. destruct (Hv m Hm) as [K1 _]. rewrite Hd. split; by eapply replaced_entry.
Qed.

Section Directory.
Context (dir : Z).
#[local] Notation triple := (crash_triple dir).

(** The visible effect of a replacement: all or nothing, at every point. *)
Lemma replace_visible v root name data mode :
  root_fd root = dir → ¬ temporary_name name →
  triple (λ w, visible w v) (ReplaceFile root name data mode)
    (λ w, visible w v ∨ visible w (<[name := data]> v))
    (λ r w, match r with Ok _ => visible w (<[name := data]> v) | Err _ => visible w v ∨ visible w (<[name := data]> v) end).
Proof.
  intros Hr Hn. apply triple_pre. intros w0 Hv.
  assert (∀ w, stage w0 name data w → visible w v ∨ visible w (<[name := data]> v)) as Hs.
  { intros w [H|[[H _]|[H _]]]; [left; by eapply untouched_visible|right; by eapply replaced_visible..]. }
  eapply triple_weaken; [by apply (ReplaceFile_spec dir w0)|done|exact Hs|].
  intros [u|e] w H; [destruct H as [H _]; by eapply replaced_visible|by apply Hs].
Qed.

(** A read returns what is seen. *)
Lemma readFile_visible v root name limit mode :
  root_fd root = dir → ¬ temporary_name name →
  triple (λ w, visible w v) (readFile root name limit mode) (λ w, visible w v)
    (λ r w, visible w v ∧ match r with Ok l => v !! name = Some l ∧ Z.of_nat (length l) <= limit | Err _ => True end).
Proof.
  intros Hr Hn. apply triple_pre. intros w0 Hv.
  assert (∀ w, same_files w0 w → visible w v) as Hs by (intros w H; eapply untouched_visible; [by apply same_untouched|done]).
  eapply triple_weaken; [by apply (readFile_spec dir w0 root name limit mode)|intros w ->; apply same_files_refl|exact Hs|].
  intros [l|e] w [Hw H]; [|split; [by apply Hs|done]]. destruct H as [(i & Hi & ->) Hl]. split; [by apply Hs|]. split; [|done].
  specialize (Hv name Hn). rewrite Hi in Hv. destruct Hv as (_ & b & -> & ->). done.
Qed.
Lemma read_visible v root name limit :
  root_fd root = dir → ¬ temporary_name name →
  triple (λ w, visible w v) (ReadFile root name limit) (λ w, visible w v)
    (λ r w, visible w v ∧ match r with Ok l => v !! name = Some l ∧ Z.of_nat (length l) <= limit | Err _ => True end).
Proof. apply readFile_visible. Qed.

(** ** Calls that no name or content depends on *)

Definition quiet (c : syscall) : bool := match c with Close _ | Fsync _ => true | _ => neutral dir c end.
Definition undisturbed (P : world → Prop) : Prop := ∀ c r w, quiet c = true → P w → P (effect dir (c, r) w).
Lemma visible_undisturbed v : undisturbed (λ w, visible w v).
Proof.
  intros c r w Hq Hv. destruct c; try (rewrite neutral_effect; done); [|done].
  cbn. destruct (r_errno r); [done|]. case_guard G; [done|]. destruct (handles w !! fd) as [[i off]|]; done.
Qed.
Lemma undisturbed_or P Q : undisturbed P → undisturbed Q → undisturbed (λ w, P w ∨ Q w).
Proof. intros HP HQ c r w Hq [H|H]; [left; by apply HP|right; by apply HQ]. Qed.
Lemma undisturbed_and (F : Prop) P : undisturbed P → undisturbed (λ w, F ∧ P w).
Proof. intros HP c r w Hq [HF H]. split; [done|by apply HP]. Qed.

Section Quiet.
Context (P : world → Prop) (HP : undisturbed P).
Lemma quiet_sys c : quiet c = true → triple P (sys c) P (λ _, P).
Proof. intros Hq. apply triple_sys; [done|]. intros w r Hw _. split; by apply HP. Qed.
Lemma quiet_call c : quiet c = true → triple P (call c) P (λ _, P).
Proof. intros Hq. eapply triple_bind; [by apply quiet_sys|]. intros r. by apply triple_stop. Qed.
Lemma quiet_ignore c : quiet c = true → triple P (ignore c) P (λ _, P).
Proof. intros Hq. eapply triple_bind; [by apply quiet_sys|]. intros r. by apply triple_stop. Qed.
Lemma quiet_failing {A} c e : quiet c = true → triple P (failing (A := A) c e) P (λ r w, r = Err e ∧ P w).
Proof. intros Hq. eapply triple_bind; [by apply quiet_ignore|]. intros r. by apply triple_stop. Qed.
Lemma quiet_or_close fd c : quiet c = true → triple P (or_close fd c) P (λ _, P).
Proof.
  intros Hq. eapply triple_bind; [by apply quiet_call|]. intros [r|e]; [by apply triple_stop|].
  eapply triple_weaken; [by apply quiet_failing|done|done|]. by intros ? w [-> ?].
Qed.
Lemma quiet_then {A B E} (m : IO (result E A)) (f : A → IO (result E B)) :
  triple P m P (λ _, P) → (∀ a, triple P (f a) P (λ _, P)) → triple P (and_then m f) P (λ _, P).
Proof. intros Hm Hf. by eapply triple_then; [exact Hm|..]. Qed.
Lemma quiet_closeLock lock : triple P (closeLock lock) P (λ _, P).
Proof.
  unfold closeLock. case_guard G; [by apply triple_stop|]. eapply triple_bind; [by apply quiet_sys|]. intros unlocked.
  eapply triple_bind; [by apply quiet_sys|]. intros closed. by apply triple_stop.
Qed.
End Quiet.
Lemma triple_deferring {A B} P (m : IO A) (cleanup : IO B) (C : world → Prop) (Q : A → world → Prop) :
  triple P m C Q → (∀ a w, Q a w → C w) → (∀ a, undisturbed (Q a)) →
  (∀ P', undisturbed P' → triple P' cleanup P' (λ _, P')) → triple P (deferring cleanup m) C Q.
Proof.
  intros Hm HC HQ Hcl. unfold deferring. eapply triple_bind; [exact Hm|]. intros a. eapply triple_bind.
  - eapply triple_weaken; [apply (Hcl (Q a)), HQ|done|by intros w ?%HC|intros ? ? Hx; exact Hx].
  - intros ?. apply triple_stop. intros w Hw. split; [by eapply HC|done].
Qed.

(** ** [TryLock] *)

(** The lock file may come to exist, empty; nothing else is seen. *)
Definition locking (v : view) (name : text) (w : world) : Prop :=
  visible w v ∨ (v !! name = None ∧ visible w (<[name := []]> v)).
Lemma locking_undisturbed v name : undisturbed (locking v name).
Proof. apply undisturbed_or; [|apply undisturbed_and]; apply visible_undisturbed. Qed.
Hint Resolve visible_undisturbed locking_undisturbed : core.

(** An open that fails, or that finds the file, is seen by nobody. *)
Lemma open_visible v name flags :
  O_CREAT ∉ flags → O_DIRECTORY ∉ flags →
  triple (λ w, visible w v) (call (Openat dir name flags 0)) (λ w, visible w v) (λ _ w, visible w v).
Proof.
  intros Hc Hd. apply triple_call; [done|done| |done]. intros w r Hw Ha He. cbn in Ha. rewrite He, bool_decide_eq_false_2 in Ha by done.
  destruct Ha as (_ & _ & Ha). destruct (Ha eq_refl Hd) as [i Hi]. rewrite (open_effect _ _ _ _ _ _ i) by done. done.
Qed.
Lemma create_visible v name flags perm :
  O_CREAT ∈ flags → O_EXCL ∈ flags → O_DIRECTORY ∉ flags → ¬ temporary_name name →
  triple (λ w, visible w v) (call (Openat dir name flags perm)) (locking v name)
    (λ r w, match r with Ok _ => v !! name = None ∧ visible w (<[name := []]> v) | Err _ => visible w v end).
Proof.
  intros Hc Hx Hd Hn. apply triple_call; [done|by left| |done]. intros w r Hw Ha He. cbn in Ha.
  rewrite He, bool_decide_eq_true_2 in Ha by done. destruct Ha as (_ & _ & Ha). pose proof (Ha eq_refl Hd Hx) as Hnone.
  rewrite create_effect by done. assert (v !! name = None) as Hv by (specialize (Hw name Hn); by rewrite Hnone in Hw).
  assert (∀ h, visible (w <| names := <[name := fresh w]> (names w) |> <| inodes := <[fresh w := []]> (inodes w) |>
    <| handles := h |> <| fresh := fresh w + 1 |>) (<[name := []]> v)) as H; [|split; [right|]; done].
  intros h m Hm. cbn. destruct (decide (m = name)) as [->|Hne].
  - rewrite !lookup_insert_eq. split; [cbn; lia|]. exists []. cbn. by rewrite lookup_insert_eq.
  - rewrite !lookup_insert_ne by done. specialize (Hw m Hm). destruct (names w !! m) as [i|]; [|done].
    destruct Hw as (Hi & b & -> & Hb). split; [cbn; lia|]. exists b. cbn. rewrite lookup_insert_ne; [done|lia].
Qed.
Lemma check_lock_quiet P fd created : undisturbed P → triple P (check_lock_file fd created) P (λ _, P).
Proof.
  intros HP. unfold check_lock_file. apply (quiet_then P); [by apply quiet_or_close|]. intros st. case_guard G.
  - eapply triple_weaken; [by apply quiet_failing|done|done|]. by intros ? w [-> ?].
  - destruct created; [|by apply triple_stop]. apply (quiet_then P); [by apply quiet_or_close|]. intros _.
    apply (quiet_then P); [by apply quiet_or_close|]. intros _. by apply triple_stop.
Qed.
Lemma TryLock_visible v root name :
  root_fd root = dir → ¬ temporary_name name →
  triple (λ w, visible w v) (TryLock root name) (locking v name) (λ _, locking v name).
Proof.
  intros Hr Hn. unfold TryLock, tryFlock, with_name. assert (∀ w, visible w v → locking v name w) as Hl by by left.
  assert (∀ A (e : fs_err), triple (λ w, visible w v) (mret (Err e)) (locking v name) (λ (_ : result fs_err A), locking v name)) as Hfail.
  { intros A e. apply triple_stop. by intros w ?%Hl. }
  destruct (validateComponent name); [|apply Hfail]. destruct (root_open root); [|apply Hfail]. rewrite Hr.
  eapply (triple_then _ _ _ _ _ (λ _, locking v name)); [|done|done|].
  - unfold openLockFile. generalize 4%nat; intros attempts; induction attempts as [|attempts IH]; [apply Hfail|]. cbn [lock_attempts].
    eapply triple_bind; [eapply triple_weaken; [apply (open_visible v name lock_flags); set_solver|done|exact Hl|intros ? ? H; exact H]|].
    intros [r|e]; [eapply triple_weaken; [by apply (check_lock_quiet (locking v name))|exact Hl|done|done]|].
    case_guard G; [apply Hfail|].
    eapply triple_bind; [apply (create_visible v name new_lock_flags); (set_solver || done)|]. intros [r'|e'].
    + eapply triple_weaken; [by apply (check_lock_quiet (locking v name))|by right|done|done].
    + case_guard G'; [exact IH|apply Hfail].
  - intros [fd created]. apply (quiet_then (locking v name)).
    + destruct created; [|by apply triple_stop]. apply (quiet_then (locking v name)); [by apply quiet_or_close|].
      intros _. by apply triple_stop.
    + intros _. eapply triple_bind; [by apply (quiet_call (locking v name))|]. intros [r|e]; [by apply triple_stop|].
      eapply triple_weaken; [by apply (quiet_failing (locking v name))|done|done|]. by intros ? w [-> ?].
Qed.

(** ** [UnlinkFile] *)

Definition unlinking (v : view) (name : text) (w : world) : Prop := visible w v ∨ visible w (delete name v).
Lemma unlinking_undisturbed v name : undisturbed (unlinking v name).
Proof. apply undisturbed_or; apply visible_undisturbed. Qed.
Lemma unlink_effect_visible v name r w :
  ¬ temporary_name name → visible w v → visible (success dir (Unlinkat dir name false) r w) (delete name v).
Proof.
  intros Hn Hv m Hm. cbn. rewrite Z.eqb_refl. cbn. destruct (decide (m = name)) as [->|Hne].
  - by rewrite !lookup_delete_eq.
  - rewrite !lookup_delete_ne by done. by apply Hv.
Qed.
Lemma opened_visible v name w0 : visible w0 v →
  triple (λ w, w = w0) (openRegularAt dir name read_flags) (λ w, visible w v) (λ r w, visible w v ∧ opened dir w0 name r w).
Proof.
  intros Hv. assert (∀ w, same_files w0 w → visible w v) as Hs
    by (intros w H; eapply untouched_visible; [by apply same_untouched|done]).
  eapply triple_weaken; [apply (openRegularAt_spec dir w0 name)|intros w ->; apply same_files_refl|exact Hs|].
  intros r w H. split; [apply Hs, H|done].
Qed.
Lemma UnlinkFile_visible v root name :
  root_fd root = dir → ¬ temporary_name name →
  triple (λ w, visible w v) (UnlinkFile root name) (unlinking v name)
    (λ r w, match r with Ok _ => visible w (delete name v) | Err _ => unlinking v name w end).
Proof.
  intros Hr Hn. assert (∀ w, visible w v → unlinking v name w) as Hl by by left.
  assert (∀ (e : fs_err), triple (λ w, visible w v) (mret (Err e)) (unlinking v name)
    (λ (r : result fs_err ()) w, match r with Ok _ => visible w (delete name v) | Err _ => unlinking v name w end)) as Hfail.
  { intros e. apply triple_stop. by intros w ?%Hl. }
  unfold UnlinkFile, with_name. destruct (validateComponent name); [|apply Hfail]. destruct (root_open root); [|apply Hfail].
  rewrite Hr. apply triple_pre. intros w0 Hv.
  eapply triple_then; [eapply triple_weaken; [by apply (opened_visible v name w0)|done|exact Hl|intros ? ? H; exact H]| | |].
  1,2: by intros e w [?%Hl _].
  intros [fd st]. unfold removed.
  eapply (triple_then _ _ _ _ _ (λ r w, match r with Ok _ => visible w (delete name v) | Err _ => visible w v end)).
  - unfold or_close. eapply (triple_bind _ _ _ _ _ (λ r w, match r with Ok _ => visible w (delete name v) | Err _ => visible w v end)).
    + apply triple_call; [done|by intros w [? _]; apply Hl| |by intros ???[? _]]. intros w r [Hw _] _ _.
      pose proof (unlink_effect_visible v name r w Hn Hw). split; [by right|done].
    + intros [r|e]; [by apply triple_stop; intros w ?; split; [right|]|].
      eapply triple_weaken; [by apply (quiet_failing _ (visible_undisturbed v))|done|exact Hl|by intros ? w [-> ?]].
  - by intros e w ?%Hl.
  - by intros e w ?%Hl.
  - intros _. eapply triple_weaken; [apply (triple_bind _ _ _ _ (λ w, visible w (delete name v)) (λ _ w, visible w (delete name v)))| | |].
    + by apply (quiet_sys _ (visible_undisturbed _)).
    + intros closed. eapply (quiet_then (λ w, visible w _)); [by apply (quiet_call _ (visible_undisturbed _))|].
      intros _. by apply triple_stop.
    + done.
    + by right.
    + intros [u|e] w H; [done|by right].
Qed.

(** ** [EnsureFile] *)

(** A file under creation. *)
Definition creating (v : view) (name : text) (w : world) : Prop :=
  v !! name = None ∧ (visible w v ∨ ∃ k, visible w (<[name := k]> v)).
Definition ensuring (v : view) (name : text) (w : world) : Prop := visible w v ∨ creating v name w.
Lemma creating_undisturbed v name : undisturbed (creating v name).
Proof.
  apply undisturbed_and, undisturbed_or; [apply visible_undisturbed|]. intros c r w Hq [k Hk]. exists k.
  by apply (visible_undisturbed (<[name := k]> v)).
Qed.
Lemma filled_visible w0 name i k w v :
  ¬ temporary_name name → visible w0 v → filled w0 name i k w → visible w (<[name := k]> v).
Proof.
  intros Hn Hv [H1 H2 H3 H4 H5 H6] m Hm. rewrite H1. destruct (decide (m = name)) as [->|Hne].
  - rewrite !lookup_insert_eq. split; [lia|]. by exists k.
  - rewrite !lookup_insert_ne by done. apply (seen_stable w0 w); [|by rewrite H4; lia|by apply Hv]. intros j Hj. apply H6. lia.
Qed.
Lemma unlink_creating v name r w :
  ¬ temporary_name name → creating v name w → creating v name (effect dir (Unlinkat dir name false, r) w).
Proof.
  intros Hn [Hnone Hv]. split; [done|]. cbn. destruct (r_errno r); [done|]. left.
  assert (∀ v', delete name v' = v → visible w v' → visible (success dir (Unlinkat dir name false) r w) v) as H.
  { intros v' <- Hv'. by apply unlink_effect_visible. }
  destruct Hv as [Hv|[k Hv]]; eapply H; try exact Hv; [by apply delete_id|by apply delete_insert_id].
Qed.
Lemma fill_or_discard_visible w0 v fd i permissions name data :
  ¬ temporary_name name → visible w0 v → v !! name = None →
  triple (filling dir w0 name fd i []) (fill_or_discard dir fd permissions name data) (creating v name)
    (λ r w, match r with Ok _ => visible w (<[name := data]> v) | Err _ => creating v name w end).
Proof.
  intros Hn Hv Hnone. assert (∀ w, partial w0 name i w → creating v name w) as Hp.
  { intros w [k Hk]. split; [done|]. right. exists k. by eapply filled_visible. }
  assert (∀ A (e : fs_err), triple (creating v name) (failing (A := A) (Unlinkat dir name false) e) (creating v name)
    (λ r w, r = Err e ∧ creating v name w)) as Hunlink.
  { intros A e. apply triple_failing; [done|]. intros w r Hw _. pose proof (unlink_creating v name r w Hn Hw). done. }
  unfold fill_or_discard. eapply triple_bind.
  { eapply triple_weaken; [apply fill_spec|done|exact Hp|intros ? ? H; exact H]. }
  intros [open [[]|e]]; cbn [snd].
  - eapply (triple_bind _ _ _ _ _ (λ _ w, visible w (<[name := data]> v))).
    + eapply triple_weaken; [apply (quiet_call (λ w, visible w (<[name := data]> v))); [apply visible_undisturbed|done]| | |done].
      * intros w [Hf _]. by eapply filled_visible.
      * intros w Hw. split; [done|]. right. by exists data.
    + assert (∀ w, visible w (<[name := data]> v) → creating v name w) as Hc by (intros w Hw; split; [done|]; right; by exists data).
      intros [r|e]; [apply triple_stop; intros w Hw; split; [by apply Hc|done]|].
      eapply triple_weaken; [apply Hunlink|exact Hc|done|by intros ? w [-> ?]].
  - unfold discard. eapply (triple_bind _ _ _ _ _ (λ _, creating v name)).
    + eapply triple_weaken; [|exact Hp|intros w H; exact H|intros ? ? H; exact H].
      destruct open; [apply (quiet_ignore _ (creating_undisturbed v name)); done|by apply triple_stop].
    + intros _. eapply triple_weaken; [apply Hunlink|done|done|by intros ? w [-> ?]].
Qed.
Lemma same_file_spec w0 fd i permissions st data :
  triple (reading w0 fd i []) (same_file fd permissions st data) (same_files w0)
    (λ r w, same_files w0 w ∧ (r = Ok () → data = default [] (inodes w0 !! i))).
Proof.
  unfold same_file. case_guard G.
  - eapply triple_weaken; [apply (triple_failing dir (same_files w0) (same_files w0) (same_files w0)); [done|]| |done|].
    + intros w r Hw _. pose proof (same_close dir w0 w fd r Hw). done.
    + by intros w [? _].
    + by intros ? w [-> ?].
  - eapply (triple_bind _ _ _ _ _ (λ r w, same_files w0 w ∧ ∀ l, r = Ok l → l = default [] (inodes w0 !! i))).
    + unfold readAllBounded. case_guard G1; [by apply triple_stop; intros w [? _]|].
      eapply triple_weaken; [apply read_bounded_spec|done|done|]. intros r w [Hw Hl]. split; [done|]. intros l Hr. by apply Hl.
    + intros contents. apply triple_pre. intros w1 [Hw1 Hl].
      eapply (triple_bind _ _ _ _ _ (λ _, same_files w0)).
      { eapply triple_weaken; [apply (triple_neutral dir (same_files w0) (Fstat fd) (same_files w0)); done|by intros w ->|done|done]. }
      intros final. eapply (triple_bind _ _ _ _ _ (λ _, same_files w0)).
      { apply triple_sys; [done|]. intros w r Hw _. pose proof (same_close dir w0 w fd r Hw). done. }
      intros closed. apply triple_stop. intros w Hw. split; [done|]. split; [done|].
      destruct contents as [l|]; [|done]. destruct (r_errno final); [done|]. destruct (r_errno closed); [done|].
      case_guard G2; [done|]. intros _. bool_prop. rewrite <-(Hl l eq_refl). by symmetry.
Qed.
(** Whatever the outcome, an existing file is not changed; a success means that the exact
    contents are there. *)
Lemma EnsureFile_visible v root name data mode :
  root_fd root = dir → ¬ temporary_name name →
  triple (λ w, visible w v) (EnsureFile root name data mode) (ensuring v name)
    (λ r w, match r with
            | Ok _ => (v !! name = None ∨ v !! name = Some data) ∧ visible w (<[name := data]> v)
            | Err _ => ensuring v name w end).
Proof.
  intros Hr Hn. set (Q := λ (r : result fs_err ()) w, match r with
    | Ok _ => (v !! name = None ∨ v !! name = Some data) ∧ visible w (<[name := data]> v) | Err _ => ensuring v name w end).
  assert (∀ w, visible w v → ensuring v name w) as Hl by by left.
  assert (∀ (e : fs_err), triple (λ w, visible w v) (mret (Err e)) (ensuring v name) Q) as Hfail.
  { intros e. apply triple_stop. by intros w ?%Hl. }
  unfold EnsureFile, with_mode. destruct (validateComponent name); [|apply Hfail].
  destruct (MaxReadBytes <? _); [apply Hfail|]. destruct (filePermissions mode) as [permissions|]; [|apply Hfail]. destruct (root_open root); [|apply Hfail]. rewrite Hr.
  generalize 4%nat; intros attempts. induction attempts as [|attempts IH]; [apply Hfail|]. cbn [ensure_attempts].
  apply triple_pre. intros w0 Hv.
  eapply triple_bind; [eapply triple_weaken; [by apply (opened_visible v name w0)|done|exact Hl|intros ? ? H; exact H]|].
  assert (∀ w, same_files w0 w → visible w v) as Hs by (intros w H; eapply untouched_visible; [by apply same_untouched|done]).
  intros [[fd st]|e].
  - apply triple_pre. intros w1 (_ & Hs1 & i & H1 & H2 & H3 & H4). eapply triple_weaken; [apply (same_file_spec w0 fd i permissions st data)| | |].
    + by intros w ->.
    + by intros w ?%Hs%Hl.
    + intros [[]|e] w [Hw Hd]; [|by apply Hl, Hs]. specialize (Hv name Hn) as Hv'. rewrite H1 in Hv'.
      destruct Hv' as (_ & b & Hb & Hi). rewrite Hi in Hd. cbn in Hd. unfold Q; rewrite (Hd eq_refl). split; [by right|].
      rewrite insert_id by done. by apply Hs.
  - case_guard G; [apply triple_stop; intros w [Hw _]; pose proof (Hl w Hw); done|]. bool_prop.
    apply triple_pre. intros w1 (Hv1 & Hs1 & Hnone). specialize (Hnone G).
    assert (v !! name = None) as Hvn by (specialize (Hv name Hn); by rewrite Hnone in Hv).
    eapply triple_bind; [eapply triple_weaken; [apply (create_file_spec dir w1 name permissions)|intros w ->; apply same_files_refl| |intros ? ? H; exact H]|].
    + intros w [Hw|[k Hk]]; [left; eapply untouched_visible; [by apply same_untouched|done]|].
      right. split; [done|]. right. exists k. by eapply filled_visible.
    + intros [r|e'].
      * eapply triple_weaken; [apply (fill_or_discard_visible w1 v (r_number r) (fresh w1) permissions name data Hn Hv1 Hvn)|by intros w [_ ?]|by right|].
        intros [u|e'] w H; [split; [by left|done]|by right].
      * assert (∀ w, same_files w1 w → visible w v) as Hs' by (intros w H; eapply untouched_visible; [by apply same_untouched|done]).
        case_guard G'; [eapply triple_weaken; [exact IH|exact Hs'|done|done]|].
        apply triple_stop. intros w Hw%Hs'%Hl. done.
Qed.
End Directory.

(** C14. Replacing a file is crash safe: started on a directory that is settled on the disk,
    [ReplaceFile] leaves, wherever it is killed, fails or loses power, a directory in which
    each name has its old contents or, for the replaced name, the new ones, whole; when it
    reports success the new contents are settled on the disk. *)
Theorem replace_crash_safe (v : view) (root : Root) (name : text) (data : list byte) (mode : Z)
    (w : world) (t : list event) :
  ¬ temporary_name name → directory w v → conforms (root_fd root) t w →
  let w' := run (root_fd root) t w in
  (prefix_of_run (ReplaceFile root name data mode) t → between w' v (<[name := data]> v))
  ∧ (runs (ReplaceFile root name data mode) t (Ok ()) → directory w' (<[name := data]> v)).
Proof.
  intros Hn Hv Hc w'.
  destruct (ReplaceFile_spec (root_fd root) w root name data mode eq_refl Hn w t eq_refl Hc) as [H1 H2]. split.
  - intros Hp. eapply stage_between; [exact Hv|by apply H1].
  - intros Hr. destruct (H2 _ Hr) as [H Hd]. intros m Hm. destruct (Hv m Hm) as [K1 _].
    fold w' in H, Hd. rewrite Hd. split; by eapply replaced_entry.
Qed.

(** ** A concrete replacement *)

Definition reply_of (n : Z) (st : Stat_t) (d : list byte) : reply := {| r_errno := None; r_number := n; r_stat := st; r_data := d; r_names := [] |}.
Definition file_stat (size : Z) : Stat_t := {| st_Mode := 0x8180; st_Nlink := 1; st_Size := size; st_Uid := 0; st_Gid := 0; st_Dev := 0; st_Ino := 0 |}.
Definition plain (n : Z) : reply := reply_of n (file_stat 0) [].
Definition demo_dir : Root := {| root_fd := 3; root_open := true |}.
Definition demo_name : text := ascii_bytes "a".
Definition demo_view : view := {[ demo_name := [Byte.x01] ]}.
Definition demo_world : world := {|
  names := {[ demo_name := 1 ]}; durable := {[ demo_name := 1 ]}; inodes := {[ 1 := [Byte.x01] ]};
  synced := {[ 1 := [Byte.x01] ]}; handles := ∅; fresh := 2 |}.
Definition demo_data : list byte := [Byte.x02; Byte.x03].
(** The two bytes are written one by one, with an interrupted call in between. *)
Definition demo_script : list reply :=
  [plain 4; reply_of 0 (file_stat 1) []; plain 0; reply_of 0 (file_stat 0) (replicate 12 Byte.x0a); plain 5; plain 0; plain 0;
   plain 1; {| r_errno := Some EINTR; r_number := -1; r_stat := file_stat 0; r_data := []; r_names := [] |}; plain 1; plain 0; plain 0; plain 0; plain 0].
Definition demo_trace : list event := Eval vm_compute in (ReplaceFile demo_dir demo_name demo_data 0x180 demo_script).1.1.
Lemma demo_runs : runs (ReplaceFile demo_dir demo_name demo_data 0x180) demo_trace (Ok ()).
Proof. exists demo_script, []. vm_compute. reflexivity. Qed.
Lemma demo_not_temporary : ¬ temporary_name demo_name.
Proof. intros [k Hk]. by vm_compute in Hk. Qed.

Ltac solve_conforms :=
  repeat match goal with
  | |- _ ∧ _ => split
  | |- True => exact I
  | H : ?a = ?b |- False => discriminate H
  | H : _ :: _ = [] |- _ => discriminate H
  | |- False => match goal with H : _ → False |- _ => apply H end
  | |- list_elem_of _ _ => set_solver
  | |- _ → _ => intros ?
  | |- ∀ _, _ => intros ?
  | H : Some _ = Some _ |- _ => injection H as ? ?; subst
  | |- _ = _ => vm_compute; reflexivity
  | |- _ ≠ _ => vm_compute; congruence
  | |- is_Some _ => by eexists
  | |- ∃ _, Some _ = Some _ => by eexists
  | |- (_ <= _)%Z => vm_compute; congruence
  end.
Lemma demo_conforms : conforms 3 demo_trace demo_world.
Proof.
  unfold demo_trace. cbn [conforms]. vm_compute. solve_conforms.
Qed.
Lemma demo_directory : directory demo_world demo_view.
Proof.
  intros m Hm. unfold demo_world, demo_view. cbn [names durable]. destruct (decide (m = demo_name)) as [->|Hne].
  - rewrite !lookup_singleton_eq. split; (split; [vm_compute; reflexivity|by exists [Byte.x01]]).
  - by rewrite !lookup_singleton_ne.
Qed.
Lemma replace_crash_safe_witness :
  directory (run 3 demo_trace demo_world) (<[demo_name := demo_data]> demo_view).
Proof.
  exact (proj2 (replace_crash_safe demo_view demo_dir demo_name demo_data 0x180 demo_world demo_trace
    demo_not_temporary demo_directory demo_conforms) demo_runs).
Defined.
