(* ===== verification/SessionStore.v ===== *)
(** * The durable stores of the enrollment sessions

    [store.go] of [internal/enrollmentexchange], over the private directories of [SecureFS]:
    exclusive creation, loading, the generation compare-and-swap and the retirement. *)

From S2P Require Import Prelude GoIO Text Runes Sha256 Protocol Identifiers PairToken Phrase TargetSession OperatorSession Syscalls SecureFS.

Inductive store_err := SFs (e : fs_err) | SSession (e : session_err).
#[export] Instance store_err_eq_dec : EqDecision store_err.
Proof. solve_decision. Defined.
Definition fs {A} (m : IO (result fs_err A)) : IO (result store_err A) := r ← m; mret (within SFs r).
Definition session {A} (r : result session_err A) : IO (result store_err A) := mret (within SSession r).
Definition not_exist {A} (r : result fs_err A) : bool := match r with Err e => is_errno ENOENT e | Ok _ => false end.

Definition targetSessionFile : text := ascii_bytes "target-session.json".
Definition operatorSessionFile : text := ascii_bytes "operator-session.json".
Definition sessionLockFile : text := ascii_bytes "exchange.lock".

(** The two stores differ in their file and in the session they keep. *)
Record store (S : Type) := {
  file : text;
  encode : S → result session_err (list byte);
  parse : list byte → Z → result session_err S;
  session_generation : S → Z }.
Arguments file {S}. Arguments encode {S}. Arguments parse {S}. Arguments session_generation {S}.

Definition createOrOpenInterruptedStore (rootPath : text) : IO (result store_err Root) :=
  created ← CreateRoot rootPath;
  match created with
  | Ok root => mret (Ok root)
  | Err e => if negb (is_errno EEXIST e) then mret (Err (SFs e)) else fs (OpenRoot rootPath)
  end.
(** [defer root.Close()], the lock, and [defer lock.Close()]. *)
Definition with_root {A} (root : Root) (k : IO (result store_err A)) : IO (result store_err A) :=
  deferring (closeRoot root) k.
Definition locked {A} (root : Root) (k : IO (result store_err A)) : IO (result store_err A) :=
  must lock := fs (TryLock root sessionLockFile);;
  deferring (closeLock lock) k.

Section Store.
Context {S : Type} (st : store S).

Definition create_locked (root : Root) (encoded : list byte) : IO (result store_err ()) :=
  locked root (fs (EnsureFile root (file st) encoded 0x180)).
Definition CreateStore (rootPath : text) (s : S) : IO (result store_err ()) :=
  must encoded := session (encode st s);;
  must root := createOrOpenInterruptedStore rootPath;;
  with_root root (create_locked root encoded).

Definition load_locked (root : Root) (now : Z) : IO (result store_err S) :=
  locked root
    (must encoded := fs (ReadFile root (file st) MaxSessionSize);;
     session (parse st encoded now)).
Definition LoadStore (rootPath : text) (now : Z) : IO (result store_err S) :=
  must root := fs (OpenRoot rootPath);;
  with_root root (load_locked root now).

(** The critical section of a replacement. *)
Definition compare_and_swap (root : Root) (expectedGeneration : Z) (encoded : list byte) (now : Z) : IO (result store_err ()) :=
  must currentBytes := fs (ReadFile root (file st) MaxSessionSize);;
  must current := session (parse st currentBytes now);;
  refuse negb (session_generation st current =? expectedGeneration) with SSession StaleGeneration;;
  fs (ReplaceFile root (file st) encoded 0x180).
Definition ReplaceStore (rootPath : text) (expectedGeneration : Z) (s : S) (now : Z) : IO (result store_err ()) :=
  refuse (expectedGeneration =? 0) || negb (session_generation st s =? wrapu64 (expectedGeneration + 1))
    with SSession ReplacementGeneration;;
  must encoded := session (encode st s);;
  must root := fs (OpenRoot rootPath);;
  with_root root (locked root (compare_and_swap root expectedGeneration encoded now)).
End Store.

Section Env.
Context (x : session_env).

Definition target_store : store TargetSession := {|
  file := targetSessionFile; encode := Encode x; parse := ParseTargetSession x; session_generation := generation |}.
Definition operator_store : store OperatorSession := {|
  file := operatorSessionFile; encode := operator_Encode x; parse := ParseOperatorSession x; session_generation := op_generation |}.

Definition CreateTargetStore := CreateStore target_store.
Definition LoadTargetStore := LoadStore target_store.
Definition ReplaceTargetStore := ReplaceStore target_store.
Definition CreateOperatorStore := CreateStore operator_store.
Definition LoadOperatorStore := LoadStore operator_store.
Definition ReplaceOperatorStore := ReplaceStore operator_store.

Definition OpenOperatorStore (rootPath : text) (operatorReceipt encryptedRequest : list byte) (now : Z)
    : IO (result store_err OperatorSession) :=
  must candidate := session (NewOperatorSession x operatorReceipt encryptedRequest now);;
  created ← CreateOperatorStore rootPath candidate;
  match created with
  | Ok _ => mret (Ok candidate)
  | Err _ =>
      must existing := LoadOperatorStore rootPath now;;
      refuse negb (bool_decide (op_receiptBytes existing = operatorReceipt))
          || negb (bool_decide (op_encryptedRequestBytes existing = encryptedRequest)) with SSession OtherExchange;;
      mret (Ok existing)
  end.

(** ** Retirement *)

Definition unlink_lock (root : Root) : IO (result store_err ()) :=
  r ← UnlinkFile root sessionLockFile;
  match r with
  | Ok _ => mret (Ok ())
  | Err e => if is_errno ENOENT e then mret (Ok ()) else mret (Err (SFs e))
  end.
Definition retire_matches (s : TargetSession) (expectedReadyGeneration : Z) (expectedRequestSHA256 : text) : bool :=
  (if bool_decide (phase s = PhaseApplied) && (generation s <? 2 ^ 64 - 1) then generation s + 1 =? expectedReadyGeneration
   else bool_decide (phase s = PhaseReady) && (generation s =? expectedReadyGeneration))
  && bool_decide (digest_hex (requestSHA256 s) = expectedRequestSHA256).
Definition retire_locked (root : Root) (expectedReadyGeneration : Z) (expectedRequestSHA256 : text) (validationTime : Z)
    : IO (result store_err ()) :=
  encoded ← ReadFile root targetSessionFile MaxSessionSize;
  match encoded with
  | Err e => if is_errno ENOENT e then unlink_lock root else mret (Err (SFs e))
  | Ok encoded =>
      must s := session (ParseTargetSession x encoded (unix_sec validationTime * Second));;
      refuse negb (retire_matches s expectedReadyGeneration expectedRequestSHA256) with SSession RetireCrossWired;;
      must _ := fs (UnlinkFile root targetSessionFile);;
      unlink_lock root
  end.
Definition RetireTargetStore (rootPath : text) (expectedReadyGeneration : Z) (expectedRequestSHA256 : text) (validationTime : Z)
    : IO (result store_err ()) :=
  refuse (expectedReadyGeneration <? 2) || is_zero validationTime || negb (length expectedRequestSHA256 =? Size * 2)%nat
    with SSession RetireInputs;;
  match hex_decode expectedRequestSHA256 with
  | None => mret (Err (SSession RetireInputs))
  | Some decoded =>
      refuse negb (length decoded =? Size)%nat || negb (bool_decide (hex_encode decoded = expectedRequestSHA256))
        with SSession RetireInputs;;
      opened ← OpenRoot rootPath;
      match opened with
      | Err e => if is_errno ENOENT e then mret (Ok ()) else mret (Err (SFs e))
      | Ok root => with_root root (locked root (retire_locked root expectedReadyGeneration expectedRequestSHA256 validationTime))
      end
  end.
End Env.
