(* ===== verification/SessionStoreSafety.v ===== *)
(** * Compare-and-swap of the session stores

    The client of [DirectoryView]: its proofs read the visible effect of each directory
    operation and nothing of the system calls below. What a store promises is the
    class [StoreLaws]; both sessions implement it. *)

From S2P Require Import Prelude GoIO Text Runes Sha256 Protocol Identifiers Phrase EnrollRequest Invitation TargetSession OperatorSession SessionSafety CeremonySafety Syscalls SecureFS CrashLogic SecureFSSafety DirectoryView SessionStore.

#[local] Opaque phraseFromTranscriptDigest transcriptDigest.

(** A store keeps its session in one file of its own, beside the lock and the temporary files of
    replacements. *)
Class StoreLaws {S : Type} (st : store S) : Prop :=
  store_file : ¬ temporary_name (file st) ∧ file st ≠ sessionLockFile.

Section Store.
Context {S : Type} (st : store S) `{!StoreLaws st} (dir : Z).
#[local] Notation triple := (crash_triple dir).

(** The store holds these bytes. *)
Definition holds (w : world) (c : option (list byte)) : Prop := ∃ v, visible w v ∧ v !! file st = c.
Lemma holds_unique w c c' : holds w c → holds w c' → c = c'.
Proof.
  destruct store_file as [Hn _]. intros (v & Hv & <-) (v' & Hv' & <-). specialize (Hv _ Hn). specialize (Hv' _ Hn).
  destruct (names w !! file st); [|congruence]. destruct Hv as (_ & b & -> & H), Hv' as (_ & b' & -> & H'). congruence.
Qed.
(** The swap of a replacement, from [c]. *)
Definition swaps (expected : Z) (encoded : list byte) (now : Z) (c : option (list byte)) (w : world) : Prop :=
  (∃ bytes current, c = Some bytes ∧ parse st bytes now = Ok current ∧ session_generation st current = expected)
  ∧ holds w (Some encoded).

Lemma holds_undisturbed c : undisturbed dir (λ w, holds w c).
Proof. intros k r w Hq (v & Hv & Hc). exists v. split; [by apply visible_undisturbed|done]. Qed.
Lemma swaps_undisturbed e b now c : undisturbed dir (swaps e b now c).
Proof. apply undisturbed_and, holds_undisturbed. Qed.

Lemma triple_fs {A} P (m : IO (result fs_err A)) C Q :
  triple P m C (λ r w, Q (within SFs r) w) → (∀ r w, Q r w → C w) → triple P (fs m) C Q.
Proof. intros Hm HC. unfold fs. eapply triple_bind; [exact Hm|]. intros r. apply triple_stop. intros w Hw. split; [by eapply HC|done]. Qed.

(** The critical section, with the lock held. *)
Lemma cas_spec v root expected encoded now :
  root_fd root = dir →
  let C w := holds w (v !! file st) ∨ swaps expected encoded now (v !! file st) w in
  triple (λ w, visible w v) (compare_and_swap st root expected encoded now) C
    (λ r w, match r with Ok _ => swaps expected encoded now (v !! file st) w | Err _ => C w end).
Proof.
  intros Hr C. destruct store_file as [Hn _].
  assert (∀ w, visible w v → C w) as HC by (intros w Hw; left; by exists v).
  assert (∀ (e : store_err), triple (λ w, visible w v) (mret (Err e)) C
    (λ (r : result store_err ()) w, match r with Ok _ => swaps expected encoded now (v !! file st) w | Err _ => C w end)) as Hfail.
  { intros e. apply triple_stop. by intros w ?%HC. }
  unfold compare_and_swap.
  eapply (triple_then _ _ _ _ _ (λ r w, visible w v ∧ match r with Ok l => v !! file st = Some l | Err _ => True end)).
  { apply triple_fs; [|by intros r w [? _]; apply HC]. eapply triple_weaken; [by apply (read_visible dir v root (file st) MaxSessionSize)|done|exact HC|].
    intros [l|e] w [Hw Hl]; [by destruct Hl|done]. }
  { by intros e w [?%HC _]. }
  { by intros e w [?%HC _]. }
  intros l. apply triple_pre. intros w0 [Hv Hl].
  eapply (triple_then _ _ _ _ _ (λ r w, visible w v ∧ r = within SSession (parse st l now))).
  { apply triple_stop. intros w ->. pose proof (HC _ Hv). done. }
  { by intros e w [?%HC _]. }
  { by intros e w [?%HC _]. }
  intros current. apply triple_pre. intros w1 [Hv1 Hp]. destruct (parse st l now) as [s|] eqn:Ep; [|done].
  injection Hp as ->. case_guard G.
  { eapply triple_weaken; [apply (Hfail (SSession StaleGeneration))|by intros w ->|done|done]. }
  bool_prop. assert (∀ w, visible w (<[file st := encoded]> v) → swaps expected encoded now (v !! file st) w) as Hs.
  { intros w Hw. split; [by exists l, s|]. exists (<[file st := encoded]> v). by rewrite lookup_insert_eq. }
  assert (∀ w, visible w v ∨ visible w (<[file st := encoded]> v) → C w) as HC' by (intros w [?|?]; [by apply HC|right; by apply Hs]).
  apply triple_fs; [|intros [] w ?; [by right|done]].
  eapply triple_weaken; [apply (replace_visible dir v root (file st) encoded 0x180 Hr Hn)|by intros w ->|exact HC'|].
  intros [u|e] w H; [by apply Hs|by apply HC'].
Qed.

(** C18. A replacement of a stored session is an atomic compare-and-swap of its generation: at
    every point of its run, killed or failed, the store holds the bytes it had before, or those
    bytes were a session of the expected generation and the store holds the new one; a success
    is the latter. *)
Theorem store_cas (root : Root) (expected now : Z) (encoded : list byte) (c : option (list byte)) (w : world) (t : list event) :
  root_fd root = dir → holds w c → conforms dir t w →
  let m := locked root (compare_and_swap st root expected encoded now) in
  (prefix_of_run m t → holds (run dir t w) c ∨ swaps expected encoded now c (run dir t w))
  ∧ (runs m t (Ok ()) → swaps expected encoded now c (run dir t w)).
Proof.
  intros Hr (v & Hv & <-) Hc m. destruct store_file as [Hn Hne].
  set (C w := holds w (v !! file st) ∨ swaps expected encoded now (v !! file st) w).
  assert (undisturbed dir C) as HU by (apply undisturbed_or; [apply holds_undisturbed|apply swaps_undisturbed]).
  assert (∀ w, locking v sessionLockFile w → ∃ v', visible w v' ∧ v' !! file st = v !! file st) as Hl.
  { intros w' [H|[_ H]]; [by exists v|]. exists (<[sessionLockFile := []]> v). by rewrite lookup_insert_ne. }
  assert (¬ temporary_name sessionLockFile) as Hlock by (intros [k Hk]; by vm_compute in Hk).
  assert (triple (λ w, visible w v) m C (λ r w, match r with Ok _ => swaps expected encoded now (v !! file st) w | Err _ => C w end)) as H.
  { unfold m, locked. eapply (triple_then _ _ _ _ _ (λ _, locking v sessionLockFile)).
    - apply triple_fs; [|intros _ w' (v' & ? & ?)%Hl; left; by exists v'].
      eapply triple_weaken; [by apply (TryLock_visible dir v root sessionLockFile)|done| |done].
      intros w' (v' & ? & ?)%Hl. left. by exists v'.
    - intros _ w' (v' & ? & ?)%Hl. left. by exists v'.
    - intros _ w' (v' & ? & ?)%Hl. left. by exists v'.
    - intros lock. apply triple_pre. intros w0 (v' & Hv' & Heq)%Hl. apply triple_deferring.
      + unfold C. rewrite <-Heq. eapply triple_weaken; [by apply (cas_spec v' root expected encoded now)|by intros w' ->|done|done].
      + intros [u|e] w' Hw'; [by right|exact Hw'].
      + intros [u|e]; [apply swaps_undisturbed|exact HU].
      + intros P' HP'. by apply quiet_closeLock. }
  destruct (H w t Hv Hc) as [H1 H2]. split; [exact H1|]. intros Hrun. exact (H2 _ Hrun).
Qed.
End Store.

(** ** The two stores *)

#[export] Instance target_store_laws x : StoreLaws (target_store x).
Proof. split; [intros [k Hk]; by vm_compute in Hk|by vm_compute]. Qed.
#[export] Instance operator_store_laws x : StoreLaws (operator_store x).
Proof. split; [intros [k Hk]; by vm_compute in Hk|by vm_compute]. Qed.

(** ** A concrete writer, on a store of one-byte sessions *)

Definition byte_store : store Z := {|
  file := targetSessionFile;
  encode := λ z, if (0 <? z) && (z <? 256) then Ok [z2b z] else Err SessionIncomplete;
  parse := λ l _, match l with [b] => Ok (b2z b) | _ => Err SessionDecode end;
  session_generation := id |}.
#[export] Instance byte_store_laws : StoreLaws byte_store.
Proof. split; [intros [k Hk]; by vm_compute in Hk|by vm_compute]. Qed.

Definition store_world : world := {|
  names := <[sessionLockFile := 0]> {[ targetSessionFile := 1 ]}; durable := <[sessionLockFile := 0]> {[ targetSessionFile := 1 ]};
  inodes := <[0 := []]> {[ 1 := [Byte.x01] ]}; synced := <[0 := []]> {[ 1 := [Byte.x01] ]}; handles := ∅; fresh := 2 |}.
Definition lock_replies : list reply := [plain 4; plain 0; plain 0].
Definition read_replies (b : byte) : list reply :=
  [plain 5; reply_of 0 (file_stat 1) []; reply_of 1 (file_stat 0) [b]; plain 0; plain 0].
Definition write_replies : list reply :=
  [plain 5; reply_of 0 (file_stat 1) []; plain 0; reply_of 0 (file_stat 0) (replicate 12 Byte.x0a); plain 5; plain 0; plain 0;
   plain 1; plain 0; plain 0; plain 0; plain 0].
Definition writer_section : IO (result store_err ()) :=
  locked demo_dir (compare_and_swap byte_store demo_dir 1 [z2b 2] 0).
Definition first_trace : list event := Eval vm_compute in
  (writer_section (lock_replies ++ read_replies Byte.x01 ++ write_replies ++ [plain 0; plain 0])).1.1.
Lemma first_runs : runs writer_section first_trace (Ok ()).
Proof. eexists (lock_replies ++ read_replies Byte.x01 ++ write_replies ++ [plain 0; plain 0]), []. vm_compute. reflexivity. Qed.
Lemma first_conforms : conforms 3 first_trace store_world.
Proof.
  unfold first_trace. cbn [conforms]. vm_compute. solve_conforms.
Qed.
Lemma store_holds : holds byte_store store_world (Some [Byte.x01]).
Proof.
  exists (<[sessionLockFile := []]> {[ targetSessionFile := [Byte.x01] ]}). split; [|vm_compute; reflexivity].
  intros m Hm. unfold store_world. cbn [names inodes fresh]. destruct (decide (m = sessionLockFile)) as [->|H1].
  - rewrite !lookup_insert_eq. split; [done|]. by exists [].
  - rewrite !(lookup_insert_ne _ sessionLockFile) by done. destruct (decide (m = targetSessionFile)) as [->|H2].
    + rewrite !lookup_singleton_eq. split; [done|]. by exists [Byte.x01].
    + by rewrite !lookup_singleton_ne.
Qed.
Lemma store_cas_witness : swaps byte_store 1 [z2b 2] 0 (Some [Byte.x01]) (run 3 first_trace store_world).
Proof.
  refine (proj2 (store_cas byte_store 3 demo_dir 1 0 [z2b 2] (Some [Byte.x01]) store_world first_trace eq_refl _ _) _).
  - exact store_holds.
  - exact first_conforms.
  - exact first_runs.
Defined.
