(* ===== verification/Release.v ===== *)
(** * Software releases and release policies: [internal/release]

    [manifest.go], [policy.go] and [evidence.go]: the signed manifest of a release with its
    exact matrix of artifacts, the signed policy that is a monotonic floor, the verdict on an
    installation, and the documents that a bundle must contain. Records are encoded with
    [StrictJson]; [url.Parse], [url.QueryEscape], [url.PathEscape] and the time format are in
    a [release_env] with Ed25519. *)

From stdpp Require Import sorting.
From S2P Require Import Prelude GoIO Text Runes Sha256 Base64 Protocol Identifiers Signing Invitation StrictJson.

(** ** Strings *)

(** [left < right] on strings. *)
Fixpoint text_ltb (s t : text) : bool :=
  match s, t with
  | [], [] => false
  | [], _ :: _ => true
  | _ :: _, [] => false
  | a :: s, b :: t => (b2z a <? b2z b) || (b2z a =? b2z b) && text_ltb s t
  end.
Definition text_leb (s t : text) : bool := negb (text_ltb t s).
Definition text_le (s t : text) : Prop := text_leb s t = true.
#[export] Instance text_le_dec : RelDecision text_le.
Proof. intros s t. unfold text_le. apply _. Defined.
(** [sort.Strings] *)
Definition sort_strings (l : list text) : list text := merge_sort text_le l.

Definition is_lower (c : byte) : bool := in_range 97 122 c.
Definition is_upper (c : byte) : bool := in_range 65 90 c.
Definition alnum (c : byte) : bool := is_lower c || is_upper c || digit c.
Definition lower_alnum (c : byte) : bool := is_lower c || digit c.
(** [^[a-zA-Z0-9][a-zA-Z0-9._+-]{0,127}$] *)
Definition safeToken (s : text) : bool :=
  match s with
  | c :: rest => alnum c && forallb (λ c, alnum c || bool_decide (c ∈ [Byte.x2e; Byte.x5f; Byte.x2b; Byte.x2d])) rest
                 && (length rest <=? 127)%nat
  | [] => false
  end.
(** [^go1\.[0-9]+(\.[0-9]+)?$] *)
Definition goVersion (s : text) : bool :=
  match CutPrefix s (ascii_bytes "go1.") with
  | Some rest =>
      let parts := Split Byte.x2e rest in
      (length parts <=? 2)%nat && forallb (λ p, negb (bool_decide (p = [])) && forallb digit p) parts
  | None => false
  end.
(** [^[a-z0-9]+(([._]|__|-+)[a-z0-9]+)*$], as an automaton: the last character was none or a
    finished separator, a letter or digit, one [_], or a run of [-]. *)
Inductive component_state := Need | Letter | Underscore | Dashes.
Definition component_step (q : component_state) (c : byte) : option component_state :=
  if lower_alnum c then Some Letter
  else match q with
       | Letter =>
           if bool_decide (c = Byte.x2e) then Some Need
           else if bool_decide (c = Byte.x5f) then Some Underscore
           else if bool_decide (c = Byte.x2d) then Some Dashes
           else None
       | Underscore => if bool_decide (c = Byte.x5f) then Some Need else None
       | Dashes => if bool_decide (c = Byte.x2d) then Some Dashes else None
       | Need => None
       end.
Fixpoint component_run (q : component_state) (s : text) : bool :=
  match s with
  | [] => match q with Letter => true | _ => false end
  | c :: s => match component_step q c with Some q => component_run q s | None => false end
  end.
Definition repositoryComponent (s : text) : bool := component_run Need s.

(** [strings.Cut] *)
Fixpoint Cut (s sep : text) : option (text * text) :=
  match CutPrefix s sep, s with
  | Some rest, _ => Some ([], rest)
  | None, [] => None
  | None, c :: s => '(before, after) ← Cut s sep; Some (c :: before, after)
  end.
(** [strconv.Atoi]: a sign is accepted. *)
Definition Atoi (s : text) : option Z :=
  match s with
  | Byte.x2b :: ((Byte.x2d :: _) as rest) => None
  | Byte.x2b :: rest => ParseInt rest 64
  | _ => ParseInt s 64
  end.

(** ** Data *)

Record Source := MkSource { s_Repository : text; s_Commit : text; s_Dirty : bool; s_ManifestSHA256 : text }.
Record Toolchain := MkToolchain { GoVersion : text; BuilderImage : text }.
Record Artifact := MkArtifact {
  a_Name : text; a_File : text; a_SHA256 : text; a_Size : Z; a_OS : text; a_Arch : text; a_Role : text; a_Format : text;
  a_SSHTarget : text; a_SBOM : text }.
Record Evidence := MkEvidence { e_Name : text; e_File : text; e_SHA256 : text; e_Size : Z; e_Kind : text }.
Record Manifest := MkManifest {
  m_Schema : text; m_Product : text; m_Version : text; m_ReleaseID : text; m_Sequence : Z; m_CreatedUnix : Z; m_Protocol : text;
  m_License : text; m_MinimumLifecycle : Z; m_Source : Source; m_Toolchain : Toolchain; m_Artifacts : gslice Artifact;
  m_Evidence : gslice Evidence }.
Record Signature := MkSignature { g_Schema : text; g_KeyID : text; g_SHA256 : text; g_Signature : text }.
Record Policy := MkPolicy {
  p_Schema : text; p_Product : text; p_Sequence : Z; p_CreatedUnix : Z; p_ReleaseKeyID : text; p_MinimumReleaseSequence : Z;
  p_MinimumLifecycle : Z; p_TombstonedReleaseIDs : gslice text }.

#[export] Instance Source_eta : Eta Source := λ s, MkSource (s_Repository s) (s_Commit s) (s_Dirty s) (s_ManifestSHA256 s).
#[export] Instance Toolchain_eta : Eta Toolchain := λ t, MkToolchain (GoVersion t) (BuilderImage t).
#[export] Instance Artifact_eta : Eta Artifact := λ a,
  MkArtifact (a_Name a) (a_File a) (a_SHA256 a) (a_Size a) (a_OS a) (a_Arch a) (a_Role a) (a_Format a) (a_SSHTarget a) (a_SBOM a).
#[export] Instance Evidence_eta : Eta Evidence := λ e, MkEvidence (e_Name e) (e_File e) (e_SHA256 e) (e_Size e) (e_Kind e).
#[export] Instance Manifest_eta : Eta Manifest := λ m,
  MkManifest (m_Schema m) (m_Product m) (m_Version m) (m_ReleaseID m) (m_Sequence m) (m_CreatedUnix m) (m_Protocol m) (m_License m)
    (m_MinimumLifecycle m) (m_Source m) (m_Toolchain m) (m_Artifacts m) (m_Evidence m).
#[export] Instance Signature_eta : Eta Signature := λ g, MkSignature (g_Schema g) (g_KeyID g) (g_SHA256 g) (g_Signature g).
#[export] Instance Policy_eta : Eta Policy := λ p,
  MkPolicy (p_Schema p) (p_Product p) (p_Sequence p) (p_CreatedUnix p) (p_ReleaseKeyID p) (p_MinimumReleaseSequence p)
    (p_MinimumLifecycle p) (p_TombstonedReleaseIDs p).
#[export] Instance Source_eq_dec : EqDecision Source. Proof. solve_decision. Defined.
#[export] Instance Toolchain_eq_dec : EqDecision Toolchain. Proof. solve_decision. Defined.
#[export] Instance Artifact_eq_dec : EqDecision Artifact. Proof. solve_decision. Defined.
#[export] Instance Evidence_eq_dec : EqDecision Evidence. Proof. solve_decision. Defined.
#[export] Instance Signature_eq_dec : EqDecision Signature. Proof. solve_decision. Defined.
#[export] Instance Policy_eq_dec : EqDecision Policy. Proof. solve_decision. Defined.

Record PolicyAnchor := {
  pa_HighestPolicySequence : Z; pa_MinimumReleaseSequence : Z; pa_MinimumLifecycle : Z; pa_TombstonedReleaseIDs : gslice text }.
Record VerifiedPolicy := { vp_policy : Policy; vp_keyID : text; vp_valid : bool }.
Record InstallPolicy := {
  HighestSequence : Z; RunningLifecycle : Z; ArtifactName : text; ExpectedOS : text; ExpectedArch : text; ExpectedRole : text;
  ExpectedArtifactSHA256 : text; ip_TombstonedReleaseIDs : gslice text; VerifiedReleasePolicy : option VerifiedPolicy;
  ExactReplayReleaseID : text }.

Inductive release_err :=
| UnsupportedSchema | BadVersion | BadReleaseID | BadSource | BadRepository | BadToolchain | BadMatrixSize | BadEvidenceCount
| BadRecord | DuplicateName | DuplicateFile | UnknownArtifact | ArtifactOrder | ArtifactProfile | BadSBOM | BadKind | EvidenceOrder
| NoLicenses | NoProjectLicense | NoProvenance | SBOMAbsent | SBOMReused | SBOMUnreferenced
| ReleaseTooLarge | ReleaseSize | ReleaseDecode | NotCanonical | ReleaseSigning (e : signing_err)
| SignatureDecode | WrongSignatureRecord | SignatureNotCanonical | DigestMismatch | SignatureEncoding
| PolicyFields | PolicyKeyID (e : signing_err) | TooManyTombstones | BadTombstone | TombstoneOrder
| AnchorNotEmpty | AnchorIncomplete | AnchorTombstones | PolicyReplay | PolicyWeakens | PolicyDropsTombstone
| NoCommittedPolicy | PolicyNotVerified | PolicyNotExact | BadRetained | BelowReleaseFloor | BelowLifecycleFloor | Tombstoned
| IncompleteInstallPolicy | BadExpectedDigest | PolicyRequired | SignerNotAuthorized | ReplayOrDowngrade | LifecycleTooOld
| ArtifactMismatch | ArtifactAbsent
| ProvenanceBinding | ProvenanceProfile | ProvenanceSubjects | SpdxIdentity | SpdxNamespace | SpdxFiles | SpdxSubject | SpdxPackages
| SpdxPackage | SpdxOrder | SpdxDuplicate | SpdxReference | SpdxLocation | SpdxRelationship | LicenseEvidence.
#[export] Instance release_err_eq_dec : EqDecision release_err.
Proof. solve_decision. Defined.

(** *** Encodings *)

#[export] Instance Source_field : Field Source := {
  to_json s := JObject (member "repository" text_field (s_Repository s) ++ member "commit" text_field (s_Commit s)
    ++ member "dirty" bool_field (s_Dirty s) ++ member "source_manifest_sha256" text_field (s_ManifestSHA256 s) ++ []);
  zero_value := MkSource [] [] false [];
  assign := assign_struct [
    field_at "repository" text_field s_Repository (λ v s, s <| s_Repository := v |>);
    field_at "commit" text_field s_Commit (λ v s, s <| s_Commit := v |>);
    field_at "dirty" bool_field s_Dirty (λ v s, s <| s_Dirty := v |>);
    field_at "source_manifest_sha256" text_field s_ManifestSHA256 (λ v s, s <| s_ManifestSHA256 := v |>)] }.
#[export] Instance Toolchain_field : Field Toolchain := {
  to_json t := JObject (member "go_version" text_field (GoVersion t) ++ member "builder_image" text_field (BuilderImage t) ++ []);
  zero_value := MkToolchain [] [];
  assign := assign_struct [
    field_at "go_version" text_field GoVersion (λ v t, t <| GoVersion := v |>);
    field_at "builder_image" text_field BuilderImage (λ v t, t <| BuilderImage := v |>)] }.
#[export] Instance Artifact_field : Field Artifact := {
  to_json a := JObject (member "name" text_field (a_Name a) ++ member "file" text_field (a_File a)
    ++ member "sha256" text_field (a_SHA256 a) ++ member "size" (int_field 64) (a_Size a) ++ member "os" text_field (a_OS a)
    ++ member "arch" text_field (a_Arch a) ++ member "role" text_field (a_Role a) ++ member "format" text_field (a_Format a)
    ++ member_omitempty "ssh_target" (a_SSHTarget a) ++ member "sbom" text_field (a_SBOM a) ++ []);
  zero_value := MkArtifact [] [] [] 0 [] [] [] [] [] [];
  assign := assign_struct [
    field_at "name" text_field a_Name (λ v a, a <| a_Name := v |>);
    field_at "file" text_field a_File (λ v a, a <| a_File := v |>);
    field_at "sha256" text_field a_SHA256 (λ v a, a <| a_SHA256 := v |>);
    field_at "size" (int_field 64) a_Size (λ v a, a <| a_Size := v |>);
    field_at "os" text_field a_OS (λ v a, a <| a_OS := v |>);
    field_at "arch" text_field a_Arch (λ v a, a <| a_Arch := v |>);
    field_at "role" text_field a_Role (λ v a, a <| a_Role := v |>);
    field_at "format" text_field a_Format (λ v a, a <| a_Format := v |>);
    field_at "ssh_target" text_field a_SSHTarget (λ v a, a <| a_SSHTarget := v |>);
    field_at "sbom" text_field a_SBOM (λ v a, a <| a_SBOM := v |>)] }.
#[export] Instance Evidence_field : Field Evidence := {
  to_json e := JObject (member "name" text_field (e_Name e) ++ member "file" text_field (e_File e)
    ++ member "sha256" text_field (e_SHA256 e) ++ member "size" (int_field 64) (e_Size e) ++ member "kind" text_field (e_Kind e) ++ []);
  zero_value := MkEvidence [] [] [] 0 [];
  assign := assign_struct [
    field_at "name" text_field e_Name (λ v e, e <| e_Name := v |>);
    field_at "file" text_field e_File (λ v e, e <| e_File := v |>);
    field_at "sha256" text_field e_SHA256 (λ v e, e <| e_SHA256 := v |>);
    field_at "size" (int_field 64) e_Size (λ v e, e <| e_Size := v |>);
    field_at "kind" text_field e_Kind (λ v e, e <| e_Kind := v |>)] }.
#[export] Instance Manifest_field : Field Manifest := {
  to_json m := JObject (member "schema" text_field (m_Schema m) ++ member "product" text_field (m_Product m)
    ++ member "version" text_field (m_Version m) ++ member "release_id" text_field (m_ReleaseID m)
    ++ member "sequence" (uint_field 64) (m_Sequence m) ++ member "created_unix" (int_field 64) (m_CreatedUnix m)
    ++ member "protocol" text_field (m_Protocol m) ++ member "license" text_field (m_License m)
    ++ member "minimum_lifecycle" (uint_field 64) (m_MinimumLifecycle m) ++ member "source" Source_field (m_Source m)
    ++ member "toolchain" Toolchain_field (m_Toolchain m) ++ member "artifacts" (slice_field Artifact_field) (m_Artifacts m)
    ++ member "evidence" (slice_field Evidence_field) (m_Evidence m) ++ []);
  zero_value := MkManifest [] [] [] [] 0 0 [] [] 0 zero_value zero_value None None;
  assign := assign_struct [
    field_at "schema" text_field m_Schema (λ v m, m <| m_Schema := v |>);
    field_at "product" text_field m_Product (λ v m, m <| m_Product := v |>);
    field_at "version" text_field m_Version (λ v m, m <| m_Version := v |>);
    field_at "release_id" text_field m_ReleaseID (λ v m, m <| m_ReleaseID := v |>);
    field_at "sequence" (uint_field 64) m_Sequence (λ v m, m <| m_Sequence := v |>);
    field_at "created_unix" (int_field 64) m_CreatedUnix (λ v m, m <| m_CreatedUnix := v |>);
    field_at "protocol" text_field m_Protocol (λ v m, m <| m_Protocol := v |>);
    field_at "license" text_field m_License (λ v m, m <| m_License := v |>);
    field_at "minimum_lifecycle" (uint_field 64) m_MinimumLifecycle (λ v m, m <| m_MinimumLifecycle := v |>);
    field_at "source" Source_field m_Source (λ v m, m <| m_Source := v |>);
    field_at "toolchain" Toolchain_field m_Toolchain (λ v m, m <| m_Toolchain := v |>);
    field_at "artifacts" (slice_field Artifact_field) m_Artifacts (λ v m, m <| m_Artifacts := v |>);
    field_at "evidence" (slice_field Evidence_field) m_Evidence (λ v m, m <| m_Evidence := v |>)] }.
(** The two signature records differ in the name of their digest. *)
Definition signature_field (digest : string) : Field Signature := {|
  to_json := λ g, JObject (member "schema" text_field (g_Schema g) ++ member "key_id" text_field (g_KeyID g)
    ++ member digest text_field (g_SHA256 g) ++ member "signature" text_field (g_Signature g) ++ []);
  zero_value := MkSignature [] [] [] [];
  assign := assign_struct [
    field_at "schema" text_field g_Schema (λ v g, g <| g_Schema := v |>);
    field_at "key_id" text_field g_KeyID (λ v g, g <| g_KeyID := v |>);
    field_at digest text_field g_SHA256 (λ v g, g <| g_SHA256 := v |>);
    field_at "signature" text_field g_Signature (λ v g, g <| g_Signature := v |>)] |}.
Definition Signature_field : Field Signature := signature_field "manifest_sha256".
Definition PolicySignature_field : Field Signature := signature_field "policy_sha256".
#[export] Instance Policy_field : Field Policy := {
  to_json p := JObject (member "schema" text_field (p_Schema p) ++ member "product" text_field (p_Product p)
    ++ member "sequence" (uint_field 64) (p_Sequence p) ++ member "created_unix" (int_field 64) (p_CreatedUnix p)
    ++ member "release_key_id" text_field (p_ReleaseKeyID p)
    ++ member "minimum_release_sequence" (uint_field 64) (p_MinimumReleaseSequence p)
    ++ member "minimum_lifecycle" (uint_field 64) (p_MinimumLifecycle p)
    ++ member "tombstoned_release_ids" (slice_field text_field) (p_TombstonedReleaseIDs p) ++ []);
  zero_value := MkPolicy [] [] 0 0 [] 0 0 None;
  assign := assign_struct [
    field_at "schema" text_field p_Schema (λ v p, p <| p_Schema := v |>);
    field_at "product" text_field p_Product (λ v p, p <| p_Product := v |>);
    field_at "sequence" (uint_field 64) p_Sequence (λ v p, p <| p_Sequence := v |>);
    field_at "created_unix" (int_field 64) p_CreatedUnix (λ v p, p <| p_CreatedUnix := v |>);
    field_at "release_key_id" text_field p_ReleaseKeyID (λ v p, p <| p_ReleaseKeyID := v |>);
    field_at "minimum_release_sequence" (uint_field 64) p_MinimumReleaseSequence (λ v p, p <| p_MinimumReleaseSequence := v |>);
    field_at "minimum_lifecycle" (uint_field 64) p_MinimumLifecycle (λ v p, p <| p_MinimumLifecycle := v |>);
    field_at "tombstoned_release_ids" (slice_field text_field) p_TombstonedReleaseIDs (λ v p, p <| p_TombstonedReleaseIDs := v |>)] }.

(** ** The artifact matrix *)

Definition ArtifactFormatExecutable : text := ascii_bytes "executable".
Definition ArtifactFormatOCI : text := ascii_bytes "oci".
Definition productionConnectorTarget : text := ascii_bytes "tcp4/127.0.0.1:22".
Definition canonicalRepository : text := ascii_bytes "https://github.com/sentrybottale/owntransit".

Record artifactProfile := { ap_File : text; ap_OS : text; ap_Arch : text; ap_Role : text; ap_Format : text; ap_SSHTarget : text }.
Definition profile (file os arch role : string) (format target : text) : artifactProfile := {|
  ap_File := ascii_bytes file; ap_OS := ascii_bytes os; ap_Arch := ascii_bytes arch; ap_Role := ascii_bytes role;
  ap_Format := format; ap_SSHTarget := target |}.
Definition initialArtifactMatrix : list (text * artifactProfile) := [
  (ascii_bytes "client-darwin-arm64", profile "artifacts/owntransit-darwin-arm64" "darwin" "arm64" "client" ArtifactFormatExecutable []);
  (ascii_bytes "client-linux-amd64", profile "artifacts/owntransit-linux-amd64" "linux" "amd64" "client" ArtifactFormatExecutable []);
  (ascii_bytes "connector-linux-amd64", profile "artifacts/owntransit-connector-linux-amd64" "linux" "amd64" "connector" ArtifactFormatExecutable productionConnectorTarget);
  (ascii_bytes "relay-linux-amd64", profile "artifacts/owntransit-relay-linux-amd64.oci.tar" "linux" "amd64" "relay" ArtifactFormatOCI []);
  (ascii_bytes "lifecycle-darwin-arm64", profile "artifacts/owntransitctl-darwin-arm64" "darwin" "arm64" "lifecycle" ArtifactFormatExecutable []);
  (ascii_bytes "lifecycle-linux-amd64", profile "artifacts/owntransitctl-linux-amd64" "linux" "amd64" "lifecycle" ArtifactFormatExecutable []);
  (ascii_bytes "provisioner-darwin-arm64", profile "artifacts/owntransit-provision-darwin-arm64" "darwin" "arm64" "provisioner" ArtifactFormatExecutable []);
  (ascii_bytes "provisioner-linux-amd64", profile "artifacts/owntransit-provision-linux-amd64" "linux" "amd64" "provisioner" ArtifactFormatExecutable []);
  (ascii_bytes "launcher-darwin-arm64", profile "artifacts/owntransit-launcher-darwin-arm64" "darwin" "arm64" "launcher" ArtifactFormatExecutable []);
  (ascii_bytes "client-linux-arm64", profile "artifacts/owntransit-linux-arm64" "linux" "arm64" "client" ArtifactFormatExecutable []);
  (ascii_bytes "connector-linux-arm64", profile "artifacts/owntransit-connector-linux-arm64" "linux" "arm64" "connector" ArtifactFormatExecutable productionConnectorTarget);
  (ascii_bytes "relay-linux-arm64", profile "artifacts/owntransit-relay-linux-arm64.oci.tar" "linux" "arm64" "relay" ArtifactFormatOCI []);
  (ascii_bytes "lifecycle-linux-arm64", profile "artifacts/owntransitctl-linux-arm64" "linux" "arm64" "lifecycle" ArtifactFormatExecutable []);
  (ascii_bytes "provisioner-linux-arm64", profile "artifacts/owntransit-provision-linux-arm64" "linux" "arm64" "provisioner" ArtifactFormatExecutable [])].
(** The order of the matrix above. *)
Definition initialArtifactOrder : list text := fst <$> initialArtifactMatrix.
Definition find_profile (name : text) : option artifactProfile := snd ∘ snd <$> list_find (λ p, p.1 = name) initialArtifactMatrix.

Definition ArtifactMatrix : list Artifact :=
  (λ p : text * artifactProfile, {|
     a_Name := p.1; a_File := ap_File p.2; a_SHA256 := []; a_Size := 0; a_OS := ap_OS p.2; a_Arch := ap_Arch p.2;
     a_Role := ap_Role p.2; a_Format := ap_Format p.2; a_SSHTarget := ap_SSHTarget p.2;
     a_SBOM := ascii_bytes "sbom-" ++ p.1 |}) <$> initialArtifactMatrix.

(** ** Verdicts on strings *)

Definition slash : byte := Byte.x2f.
Definition maximumSize : Z := 2 ^ 40.
Definition validRelativePath (value : text) : bool :=
  negb (bool_decide (value = []) || (512 <? Z.of_nat (length value)) || bool_decide (list.head value = Some slash)
        || bool_decide (list.last value = Some slash))
  && forallb (λ c, safeToken c && negb (bool_decide (c = ascii_bytes ".")) && negb (bool_decide (c = ascii_bytes ".."))) (Split slash value).
Definition validDigest (value : text) : bool :=
  match hex_decode value with
  | Some decoded => (length decoded =? Size)%nat && bool_decide (hex_encode decoded = value)
  | None => false
  end.
Definition validCommit (value : text) : bool :=
  ((length value =? 40)%nat || (length value =? 64)%nat)
  && match hex_decode value with Some _ => bool_decide (ToLower value = value) | None => false end.
Definition validRegistryHost (host : text) : bool :=
  negb (bool_decide (host = [])) && (Z.of_nat (length host) <=? 253)
  && forallb (λ l : text, negb (bool_decide (l = [])) && (Z.of_nat (length l) <=? 63)
       && lower_alnum (nth 0 l Byte.x00) && lower_alnum (nth (length l - 1) l Byte.x00)
       && forallb (λ c, lower_alnum c || bool_decide (c = Byte.x2d)) (slice 1 (length l - 2) l)) (Split Byte.x2e host).
Definition validRegistry (registry : text) : bool :=
  let parsed :=
    match Cut registry [Byte.x3a] with
    | None => Some (registry, false)
    | Some (host, portText) =>
        if bool_decide (Byte.x3a ∈ portText) then None
        else port ← Atoi portText; if (port <? 1) || (65535 <? port) then None else Some (host, true)
    end in
  match parsed with
  | None => false
  | Some (host, hasPort) =>
      (bool_decide (host = ascii_bytes "localhost") || bool_decide (Byte.x2e ∈ host) || hasPort) && validRegistryHost host
  end.
Definition validBuilderImage (value : text) : bool :=
  (length (filter (λ c, c = Byte.x40) value) =? 1)%nat
  && match Cut value (ascii_bytes "@sha256:") with
     | None => false
     | Some (image, digest) =>
         validDigest digest
         && match Cut image [slash] with
            | None => false
            | Some (registry, repository) =>
                validRegistry registry && negb (bool_decide (repository = [])) && forallb repositoryComponent (Split slash repository)
            end
     end.
Definition validEvidenceKind (kind : text) : bool :=
  bool_decide (kind ∈ ascii_bytes <$> ["sbom"; "licenses"; "project-license"; "provenance"; "package-payload"; "test-report"; "race-report";
    "vet-report"; "vulnerability-report"; "reproducibility-report"; "platform-signature"; "notarization"]).
(** A canonical identifier that is not zero. *)
Definition valid_id (value : text) : bool :=
  match ParseID value with Ok id => negb (bool_decide (id = arr_zero IDSize)) | Err _ => false end.

(** ** The manifest: [manifest.go] *)

Record release_env := {
  re_ed : ed25519;
  (** [url.Parse] *)
  re_parse_url : text → option URL;
  (** [url.QueryEscape], [url.PathEscape], and [time.Unix(s, 0).UTC().Format(time.RFC3339)]. *)
  QueryEscape : text → text;
  PathEscape : text → text;
  format_time : Z → text }.

Definition ManifestSchema : text := ascii_bytes "owntransit.software-release.v1".
Definition SignatureSchema : text := ascii_bytes "owntransit.software-release-signature.v1".
Definition signatureDomain : text := ascii_bytes "OwnTransit software release manifest v1".
Definition MaxManifestSize : Z := 2 ^ 20.
Definition MaxSignatureSize : Z := 16 * 2 ^ 10.
Definition LegacyV1Protocol : text := ascii_bytes "forthgate/1".
Definition owntransit : text := ascii_bytes "owntransit".

(** The names and files of the records so far. *)
Definition seen : Type := gset text * gset text.
Definition validateRecord (name file digest : text) (size : Z) (s : seen) : result release_err seen :=
  reject negb (safeToken name) || negb (validRelativePath file) || negb (validDigest digest) || (size <=? 0) || (maximumSize <? size)
    with BadRecord;;
  reject bool_decide (name ∈ s.1) with DuplicateName;;
  reject bool_decide (file ∈ s.2) with DuplicateFile;;
  Ok ({[name]} ∪ s.1, {[file]} ∪ s.2).

Definition matches_profile (a : Artifact) (p : artifactProfile) : bool :=
  bool_decide (a_File a = ap_File p) && bool_decide (a_OS a = ap_OS p) && bool_decide (a_Arch a = ap_Arch p)
  && bool_decide (a_Role a = ap_Role p) && bool_decide (a_Format a = ap_Format p) && bool_decide (a_SSHTarget a = ap_SSHTarget p).
(** The artifacts, each with the name at its place in the order. *)
Fixpoint validate_artifacts (artifacts : list Artifact) (order : list text) (s : seen) : result release_err seen :=
  match artifacts with
  | [] => Ok s
  | a :: artifacts =>
      s ← validateRecord (a_Name a) (a_File a) (a_SHA256 a) (a_Size a) s;
      match find_profile (a_Name a) with
      | None => Err UnknownArtifact
      | Some p =>
          reject negb (bool_decide (list.head order = Some (a_Name a))) with ArtifactOrder;;
          reject negb (matches_profile a p) with ArtifactProfile;;
          reject negb (safeToken (a_SBOM a)) with BadSBOM;;
          validate_artifacts artifacts (tail order) s
      end
  end.

Fixpoint validate_evidence (evidence : list Evidence) (previous : option text) (s : seen) : result release_err () :=
  match evidence with
  | [] => Ok ()
  | e :: evidence =>
      s ← validateRecord (e_Name e) (e_File e) (e_SHA256 e) (e_Size e) s;
      reject negb (validEvidenceKind (e_Kind e)) with BadKind;;
      reject match previous with Some p => text_leb (e_Name e) p | None => false end with EvidenceOrder;;
      validate_evidence evidence (Some (e_Name e)) s
  end.
Definition count_records (p : Evidence → bool) (evidence : list Evidence) : nat := length (List.filter p evidence).
Definition is_record (name kind : string) (e : Evidence) : bool :=
  bool_decide (e_Name e = ascii_bytes name) && bool_decide (e_Kind e = ascii_bytes kind).
(** [evidenceByName[name]]; the names are unique. *)
Definition evidenceByName (evidence : list Evidence) (name : text) : option Evidence :=
  snd <$> list_find (λ e, e_Name e = name) evidence.
Definition is_sbom (e : Evidence) : bool := bool_decide (e_Kind e = ascii_bytes "sbom").
Fixpoint validate_sboms (artifacts : list Artifact) (evidence : list Evidence) (used : gset text) : result release_err (gset text) :=
  match artifacts with
  | [] => Ok used
  | a :: artifacts =>
      reject negb (match evidenceByName evidence (a_SBOM a) with Some e => is_sbom e | None => false end) with SBOMAbsent;;
      reject bool_decide (a_SBOM a ∈ used) with SBOMReused;;
      validate_sboms artifacts evidence ({[a_SBOM a]} ∪ used)
  end.

Section Env.
Context (x : release_env).

Definition valid_repository (repository : text) : bool :=
  match re_parse_url x repository with
  | None => false
  | Some u =>
      bool_decide (url_String u = canonicalRepository) && bool_decide (Scheme u = ascii_bytes "https") && negb (has_User u)
      && bool_decide (RawQuery u = []) && bool_decide (Fragment u = [])
  end.

(** [Manifest.Validate] *)
Definition Validate (m : Manifest) : result release_err () :=
  reject negb (bool_decide (m_Schema m = ManifestSchema)) || negb (bool_decide (m_Product m = owntransit))
      || negb (bool_decide (m_Protocol m = LegacyV1Protocol)) || negb (bool_decide (m_License m = ascii_bytes "Apache-2.0"))
    with UnsupportedSchema;;
  reject negb (safeToken (m_Version m)) || (m_Sequence m =? 0) || (m_CreatedUnix m <=? 0) || (m_MinimumLifecycle m =? 0) with BadVersion;;
  reject negb (valid_id (m_ReleaseID m)) with BadReleaseID;;
  reject s_Dirty (m_Source m) || negb (validDigest (s_ManifestSHA256 (m_Source m))) || negb (validCommit (s_Commit (m_Source m)))
    with BadSource;;
  reject negb (valid_repository (s_Repository (m_Source m))) with BadRepository;;
  reject negb (goVersion (GoVersion (m_Toolchain m))) || negb (validBuilderImage (BuilderImage (m_Toolchain m))) with BadToolchain;;
  let artifacts := elems (m_Artifacts m) in
  let evidence := elems (m_Evidence m) in
  reject negb (length artifacts =? length initialArtifactMatrix)%nat with BadMatrixSize;;
  reject bool_decide (evidence = []) || (32 <? length evidence)%nat with BadEvidenceCount;;
  s ← validate_artifacts artifacts initialArtifactOrder (∅, ∅);
  _ ← validate_evidence evidence None s;
  reject negb (count_records (is_record "third-party-licenses" "licenses") evidence =? 1)%nat with NoLicenses;;
  reject negb (count_records (λ e, is_record "project-license" "project-license" e && bool_decide (e_File e = ascii_bytes "LICENSE"))
                 evidence =? 1)%nat with NoProjectLicense;;
  reject negb (count_records (is_record "provenance" "provenance") evidence =? 1)%nat with NoProvenance;;
  used ← validate_sboms artifacts evidence ∅;
  reject existsb (λ e, is_sbom e && negb (bool_decide (e_Name e ∈ used))) evidence with SBOMUnreferenced;;
  Ok ().

Definition Encode (m : Manifest) : result release_err (list byte) :=
  _ ← Validate m;
  let encoded := Marshal Manifest_field m in
  reject MaxManifestSize <=? Z.of_nat (length encoded) with ReleaseTooLarge;;
  Ok (encoded ++ [newline]).
Definition ParseManifest (encoded : list byte) : result release_err Manifest :=
  reject bool_decide (encoded = []) || (MaxManifestSize <? Z.of_nat (length encoded)) with ReleaseSize;;
  match Decode Manifest_field encoded with
  | None => Err ReleaseDecode
  | Some m =>
      _ ← Validate m;
      match Encode m with
      | Ok canonical => reject negb (bool_decide (encoded = canonical)) with NotCanonical;; Ok m
      | Err _ => Err NotCanonical
      end
  end.

(** The record of a signature, and its verification, of the bytes [payload] in a domain:
    shared by manifests and policies. *)
Definition encodeSignature (F : Field Signature) (g : Signature) : list byte := Marshal F g ++ [newline].
Definition sign_record (F : Field Signature) (schema domain payload privateKey : list byte) : result release_err (list byte) :=
  match Sign (re_ed x) domain payload privateKey with
  | Err e => Err (ReleaseSigning e)
  | Ok signature => Ok (encodeSignature F {|
      g_Schema := schema; g_KeyID := KeyID (ed_public (re_ed x) privateKey); g_SHA256 := hex_encode (Sum256 payload);
      g_Signature := StdEncode signature |})
  end.
Definition verify_record (F : Field Signature) (schema domain payload signatureBytes publicKey : list byte) : result release_err Signature :=
  match Decode F signatureBytes with
  | None => Err SignatureDecode
  | Some g =>
      reject negb (bool_decide (g_Schema g = schema)) || negb (bool_decide (g_KeyID g = KeyID publicKey)) with WrongSignatureRecord;;
      reject negb (bool_decide (signatureBytes = encodeSignature F g)) with SignatureNotCanonical;;
      reject negb (bool_decide (g_SHA256 g = hex_encode (Sum256 payload))) with DigestMismatch;;
      match StdDecode (g_Signature g) with
      | None => Err SignatureEncoding
      | Some signature =>
          reject negb (bool_decide (StdEncode signature = g_Signature g)) with SignatureEncoding;;
          match Signing.Verify (re_ed x) domain payload signature publicKey with
          | Err e => Err (ReleaseSigning e)
          | Ok _ => Ok g
          end
      end
  end.
Definition bad_sizes (maximum : Z) (payload signatureBytes : list byte) : bool :=
  bool_decide (payload = []) || (maximum <? Z.of_nat (length payload)) || bool_decide (signatureBytes = [])
  || (MaxSignatureSize <? Z.of_nat (length signatureBytes)).

Definition SignManifest (m : Manifest) (privateKey : list byte) : result release_err (list byte * list byte) :=
  manifestBytes ← Encode m;
  signatureBytes ← sign_record Signature_field SignatureSchema signatureDomain manifestBytes privateKey;
  Ok (manifestBytes, signatureBytes).
Definition VerifyManifest (manifestBytes signatureBytes publicKey : list byte) : result release_err Manifest :=
  reject bad_sizes MaxManifestSize manifestBytes signatureBytes with ReleaseSize;;
  _ ← verify_record Signature_field SignatureSchema signatureDomain manifestBytes signatureBytes publicKey;
  ParseManifest manifestBytes.

(** ** The policy: [policy.go] *)

Definition PolicySchema : text := ascii_bytes "owntransit.software-release-policy.v1".
Definition PolicySignatureSchema : text := ascii_bytes "owntransit.software-release-policy-signature.v1".
Definition policySignatureDomain : text := ascii_bytes "OwnTransit software release policy v1".
Definition MaxPolicySize : Z := 256 * 2 ^ 10.
Definition maximumTombstones : nat := 4096.

(** Valid identifiers in strictly increasing order. *)
Fixpoint validate_tombstones (ids : list text) (previous : option text) : result release_err () :=
  match ids with
  | [] => Ok ()
  | id :: ids =>
      reject negb (valid_id id) with BadTombstone;;
      reject match previous with Some p => text_leb id p | None => false end with TombstoneOrder;;
      validate_tombstones ids (Some id)
  end.
(** [Policy.Validate] *)
Definition validate_policy (p : Policy) : result release_err () :=
  reject negb (bool_decide (p_Schema p = PolicySchema)) || negb (bool_decide (p_Product p = owntransit)) || (p_Sequence p =? 0)
      || (p_CreatedUnix p <=? 0) || (p_MinimumReleaseSequence p =? 0) || (p_MinimumLifecycle p =? 0) with PolicyFields;;
  match ValidateKeyID (p_ReleaseKeyID p) with
  | Err e => Err (PolicyKeyID e)
  | Ok _ =>
      reject (maximumTombstones <? length (elems (p_TombstonedReleaseIDs p)))%nat with TooManyTombstones;;
      validate_tombstones (elems (p_TombstonedReleaseIDs p)) None
  end.

Definition EncodePolicy (p : Policy) : result release_err (list byte) :=
  _ ← validate_policy p;
  let encoded := Marshal Policy_field p in
  reject MaxPolicySize <=? Z.of_nat (length encoded) with ReleaseTooLarge;;
  Ok (encoded ++ [newline]).
Definition ParsePolicy (encoded : list byte) : result release_err Policy :=
  reject bool_decide (encoded = []) || (MaxPolicySize <? Z.of_nat (length encoded)) with ReleaseSize;;
  match Decode Policy_field encoded with
  | None => Err ReleaseDecode
  | Some p =>
      _ ← validate_policy p;
      match EncodePolicy p with
      | Ok canonical => reject negb (bool_decide (encoded = canonical)) with NotCanonical;; Ok p
      | Err _ => Err NotCanonical
      end
  end.
Definition SignPolicy (p : Policy) (privateKey : list byte) : result release_err (list byte * list byte) :=
  policyBytes ← EncodePolicy p;
  signatureBytes ← sign_record PolicySignature_field PolicySignatureSchema policySignatureDomain policyBytes privateKey;
  Ok (policyBytes, signatureBytes).

(** [VerifiedPolicy.Value] copies the tombstones. *)
Definition Value (v : VerifiedPolicy) : Policy :=
  (vp_policy v) <| p_TombstonedReleaseIDs := append_nil (elems (p_TombstonedReleaseIDs (vp_policy v))) |>.
Definition NextAnchor (v : VerifiedPolicy) : result release_err PolicyAnchor :=
  reject negb (vp_valid v) with PolicyNotVerified;;
  Ok {| pa_HighestPolicySequence := p_Sequence (vp_policy v);
        pa_MinimumReleaseSequence := p_MinimumReleaseSequence (vp_policy v);
        pa_MinimumLifecycle := p_MinimumLifecycle (vp_policy v);
        pa_TombstonedReleaseIDs := append_nil (elems (p_TombstonedReleaseIDs (vp_policy v))) |}.

Definition verifySignedPolicy (policyBytes signatureBytes publicKey : list byte) : result release_err VerifiedPolicy :=
  reject bad_sizes MaxPolicySize policyBytes signatureBytes with ReleaseSize;;
  g ← verify_record PolicySignature_field PolicySignatureSchema policySignatureDomain policyBytes signatureBytes publicKey;
  p ← ParsePolicy policyBytes;
  Ok {| vp_policy := p; vp_keyID := g_KeyID g; vp_valid := true |}.

(** The sorted copy is compared with the list itself, place by place. *)
Fixpoint sorted_tombstones (sorted ids : list text) (previous : option text) : bool :=
  match sorted, ids with
  | [], _ => true
  | id :: sorted, original :: ids =>
      valid_id id && negb (bool_decide (previous = Some id)) && bool_decide (id = original) && sorted_tombstones sorted ids (Some id)
  | _ :: _, [] => false
  end.
Definition validatePolicyAnchor (a : PolicyAnchor) : result release_err () :=
  let ids := elems (pa_TombstonedReleaseIDs a) in
  if pa_HighestPolicySequence a =? 0 then
    reject negb (pa_MinimumReleaseSequence a =? 0) || negb (pa_MinimumLifecycle a =? 0) || negb (bool_decide (ids = [])) with AnchorNotEmpty;;
    Ok ()
  else
    reject (pa_MinimumReleaseSequence a =? 0) || (pa_MinimumLifecycle a =? 0) || (maximumTombstones <? length ids)%nat with AnchorIncomplete;;
    reject negb (sorted_tombstones (sort_strings ids) ids None) with AnchorTombstones;;
    Ok ().
(** The cursor [index] is the rest of [required]. *)
Fixpoint containsEvery (values required : list text) : bool :=
  match values with
  | [] => bool_decide (required = [])
  | value :: values =>
      match required with
      | r :: rest => if text_ltb r value then false
                     else containsEvery values (if bool_decide (r = value) then rest else required)
      | [] => containsEvery values []
      end
  end.
Fixpoint equalStrings (l r : list text) : bool :=
  match l, r with
  | [], [] => true
  | a :: l, b :: r => bool_decide (a = b) && equalStrings l r
  | _, _ => false
  end.

Definition VerifyPolicyAdvance (policyBytes signatureBytes publicKey : list byte) (a : PolicyAnchor) : result release_err VerifiedPolicy :=
  v ← verifySignedPolicy policyBytes signatureBytes publicKey;
  reject bad_sizes MaxPolicySize policyBytes signatureBytes with ReleaseSize;;
  _ ← validatePolicyAnchor a;
  let p := vp_policy v in
  reject p_Sequence p <=? pa_HighestPolicySequence a with PolicyReplay;;
  reject (p_MinimumReleaseSequence p <? pa_MinimumReleaseSequence a) || (p_MinimumLifecycle p <? pa_MinimumLifecycle a) with PolicyWeakens;;
  reject negb (containsEvery (elems (p_TombstonedReleaseIDs p)) (elems (pa_TombstonedReleaseIDs a))) with PolicyDropsTombstone;;
  Ok v.
Definition VerifyPolicyAtAnchor (policyBytes signatureBytes publicKey : list byte) (a : PolicyAnchor) : result release_err VerifiedPolicy :=
  _ ← validatePolicyAnchor a;
  reject pa_HighestPolicySequence a =? 0 with NoCommittedPolicy;;
  v ← verifySignedPolicy policyBytes signatureBytes publicKey;
  next ← NextAnchor v;
  reject negb (pa_HighestPolicySequence next =? pa_HighestPolicySequence a)
      || negb (pa_MinimumReleaseSequence next =? pa_MinimumReleaseSequence a)
      || negb (pa_MinimumLifecycle next =? pa_MinimumLifecycle a)
      || negb (equalStrings (elems (pa_TombstonedReleaseIDs next)) (elems (pa_TombstonedReleaseIDs a))) with PolicyNotExact;;
  Ok v.
Definition AuthorizeRetainedRelease (v : VerifiedPolicy) (releaseID : text) (sequence runningLifecycle : Z) : result release_err () :=
  reject negb (vp_valid v) with PolicyNotVerified;;
  reject negb (valid_id releaseID) || (sequence =? 0) || (runningLifecycle =? 0) with BadRetained;;
  reject sequence <? p_MinimumReleaseSequence (vp_policy v) with BelowReleaseFloor;;
  reject runningLifecycle <? p_MinimumLifecycle (vp_policy v) with BelowLifecycleFloor;;
  reject bool_decide (releaseID ∈ elems (p_TombstonedReleaseIDs (vp_policy v))) with Tombstoned;;
  Ok ().

(** ** The verdict on an installation *)

Fixpoint check_tombstones (ids : list text) (releaseID : text) : result release_err () :=
  match ids with
  | [] => Ok ()
  | id :: ids =>
      reject negb (valid_id id) with BadTombstone;;
      reject bool_decide (id = releaseID) with Tombstoned;;
      check_tombstones ids releaseID
  end.
(** The first artifact of the wanted name decides. *)
Fixpoint select_artifact (artifacts : list Artifact) (p : InstallPolicy) : result release_err Artifact :=
  match artifacts with
  | [] => Err ArtifactAbsent
  | a :: artifacts =>
      if negb (bool_decide (a_Name a = ArtifactName p)) then select_artifact artifacts p
      else
        reject negb (bool_decide (a_OS a = ExpectedOS p)) || negb (bool_decide (a_Arch a = ExpectedArch p))
            || negb (bool_decide (a_Role a = ExpectedRole p))
            || negb (bool_decide (ExpectedArtifactSHA256 p = [])) && negb (bool_decide (a_SHA256 a = ExpectedArtifactSHA256 p))
          with ArtifactMismatch;;
        Ok a
  end.
Definition VerifyForInstall (manifestBytes signatureBytes publicKey : list byte) (p : InstallPolicy) : result release_err (Manifest * Artifact) :=
  reject (RunningLifecycle p =? 0) || bool_decide (ArtifactName p = []) || bool_decide (ExpectedOS p = [])
      || bool_decide (ExpectedArch p = []) || bool_decide (ExpectedRole p = []) with IncompleteInstallPolicy;;
  reject negb (bool_decide (ExpectedArtifactSHA256 p = [])) && negb (validDigest (ExpectedArtifactSHA256 p)) with BadExpectedDigest;;
  match VerifiedReleasePolicy p with
  | None => Err PolicyRequired
  | Some v =>
      reject negb (vp_valid v) with PolicyRequired;;
      let vp := vp_policy v in
      reject negb (bool_decide (p_ReleaseKeyID vp = KeyID publicKey)) with SignerNotAuthorized;;
      m ← VerifyManifest manifestBytes signatureBytes publicKey;
      reject (m_Sequence m <=? HighestSequence p)
          && (negb (m_Sequence m =? HighestSequence p) || negb (bool_decide (m_ReleaseID m = ExactReplayReleaseID p))) with ReplayOrDowngrade;;
      reject m_Sequence m <? p_MinimumReleaseSequence vp with BelowReleaseFloor;;
      reject RunningLifecycle p <? p_MinimumLifecycle vp with BelowLifecycleFloor;;
      reject RunningLifecycle p <? m_MinimumLifecycle m with LifecycleTooOld;;
      _ ← check_tombstones (elems (ip_TombstonedReleaseIDs p) ++ elems (p_TombstonedReleaseIDs vp)) (m_ReleaseID m);
      a ← select_artifact (elems (m_Artifacts m)) p;
      Ok (m, a)
  end.
End Env.
