(* ===== verification/ReleaseBundle.v ===== *)
(** * The documents and the files of a release bundle

    [evidence.go] and [bundle_unix.go] of [internal/release]: the build provenance and the SPDX
    documents that a bundle must contain, the measurement of its files through descriptors, and
    the verification of a whole bundle. *)

From S2P Require Import Prelude GoIO Text Runes Sha256 Base64 Protocol Identifiers Signing Invitation StrictJson Release Syscalls SecureFS.

(** ** Data *)

Record ProvenanceSubject := MkSubject { ps_Name : text; ps_File : text; ps_SHA256 : text; ps_Size : Z }.
Record Provenance := MkProvenance {
  pv_Schema : text; pv_Product : text; pv_Version : text; pv_ReleaseID : text; pv_Sequence : Z; pv_CreatedUnix : Z; pv_Protocol : text;
  pv_License : text; pv_Source : Source; pv_Toolchain : Toolchain; BuildProfile : text; SourceDateEpoch : Z; CGOEnabled : bool;
  Trimpath : bool; BuildVCS : bool; Subjects : gslice ProvenanceSubject }.
Record SPDXCreationInfo := MkCreation { Created : text; Creators : gslice text }.
Record SPDXChecksum := MkChecksum { Algorithm : text; ChecksumValue : text }.
Record SPDXFile := MkFile { FileName : text; f_SPDXID : text; Checksums : gslice SPDXChecksum; f_LicenseConcluded : text; f_CopyrightText : text }.
Record SPDXExternalRef := MkRef { ReferenceCategory : text; ReferenceType : text; ReferenceLocator : text }.
Record SPDXPackage := MkPackage {
  k_Name : text; k_SPDXID : text; VersionInfo : text; DownloadLocation : text; FilesAnalyzed : bool; LicenseConcluded : text;
  LicenseDeclared : text; CopyrightText : text; ExternalRefs : gslice SPDXExternalRef }.
Record SPDXRelationship := MkRelationship { SPDXElementID : text; RelationshipType : text; RelatedSPDXElement : text }.
Record SPDXDocument := MkDocument {
  d_SPDXVersion : text; DataLicense : text; d_SPDXID : text; d_Name : text; DocumentNamespace : text; CreationInfo : SPDXCreationInfo;
  Files : gslice SPDXFile; Packages : gslice SPDXPackage; Relationships : gslice SPDXRelationship }.

#[export] Instance Subject_eta : Eta ProvenanceSubject := λ s, MkSubject (ps_Name s) (ps_File s) (ps_SHA256 s) (ps_Size s).
#[export] Instance Provenance_eta : Eta Provenance := λ p,
  MkProvenance (pv_Schema p) (pv_Product p) (pv_Version p) (pv_ReleaseID p) (pv_Sequence p) (pv_CreatedUnix p) (pv_Protocol p) (pv_License p)
    (pv_Source p) (pv_Toolchain p) (BuildProfile p) (SourceDateEpoch p) (CGOEnabled p) (Trimpath p) (BuildVCS p) (Subjects p).
#[export] Instance Creation_eta : Eta SPDXCreationInfo := λ c, MkCreation (Created c) (Creators c).
#[export] Instance Checksum_eta : Eta SPDXChecksum := λ c, MkChecksum (Algorithm c) (ChecksumValue c).
#[export] Instance File_eta : Eta SPDXFile := λ f, MkFile (FileName f) (f_SPDXID f) (Checksums f) (f_LicenseConcluded f) (f_CopyrightText f).
#[export] Instance Ref_eta : Eta SPDXExternalRef := λ r, MkRef (ReferenceCategory r) (ReferenceType r) (ReferenceLocator r).
#[export] Instance Package_eta : Eta SPDXPackage := λ k,
  MkPackage (k_Name k) (k_SPDXID k) (VersionInfo k) (DownloadLocation k) (FilesAnalyzed k) (LicenseConcluded k) (LicenseDeclared k)
    (CopyrightText k) (ExternalRefs k).
#[export] Instance Relationship_eta : Eta SPDXRelationship := λ r,
  MkRelationship (SPDXElementID r) (RelationshipType r) (RelatedSPDXElement r).
#[export] Instance Document_eta : Eta SPDXDocument := λ d,
  MkDocument (d_SPDXVersion d) (DataLicense d) (d_SPDXID d) (d_Name d) (DocumentNamespace d) (CreationInfo d) (Files d) (Packages d) (Relationships d).
#[export] Instance Relationship_eq_dec : EqDecision SPDXRelationship. Proof. solve_decision. Defined.

#[export] Instance Subject_field : Field ProvenanceSubject := {
  to_json s := JObject (member "name" text_field (ps_Name s) ++ member "file" text_field (ps_File s)
    ++ member "sha256" text_field (ps_SHA256 s) ++ member "size" (int_field 64) (ps_Size s) ++ []);
  zero_value := MkSubject [] [] [] 0;
  assign := assign_struct [
    field_at "name" text_field ps_Name (λ v s, s <| ps_Name := v |>);
    field_at "file" text_field ps_File (λ v s, s <| ps_File := v |>);
    field_at "sha256" text_field ps_SHA256 (λ v s, s <| ps_SHA256 := v |>);
    field_at "size" (int_field 64) ps_Size (λ v s, s <| ps_Size := v |>)] }.
#[export] Instance Provenance_field : Field Provenance := {
  to_json p := JObject (member "schema" text_field (pv_Schema p) ++ member "product" text_field (pv_Product p)
    ++ member "version" text_field (pv_Version p) ++ member "release_id" text_field (pv_ReleaseID p)
    ++ member "sequence" (uint_field 64) (pv_Sequence p) ++ member "created_unix" (int_field 64) (pv_CreatedUnix p)
    ++ member "protocol" text_field (pv_Protocol p) ++ member "license" text_field (pv_License p)
    ++ member "source" Source_field (pv_Source p) ++ member "toolchain" Toolchain_field (pv_Toolchain p)
    ++ member "build_profile" text_field (BuildProfile p) ++ member "source_date_epoch" (int_field 64) (SourceDateEpoch p)
    ++ member "cgo_enabled" bool_field (CGOEnabled p) ++ member "trimpath" bool_field (Trimpath p)
    ++ member "build_vcs" bool_field (BuildVCS p) ++ member "subjects" (slice_field Subject_field) (Subjects p) ++ []);
  zero_value := MkProvenance [] [] [] [] 0 0 [] [] zero_value zero_value [] 0 false false false None;
  assign := assign_struct [
    field_at "schema" text_field pv_Schema (λ v p, p <| pv_Schema := v |>);
    field_at "product" text_field pv_Product (λ v p, p <| pv_Product := v |>);
    field_at "version" text_field pv_Version (λ v p, p <| pv_Version := v |>);
    field_at "release_id" text_field pv_ReleaseID (λ v p, p <| pv_ReleaseID := v |>);
    field_at "sequence" (uint_field 64) pv_Sequence (λ v p, p <| pv_Sequence := v |>);
    field_at "created_unix" (int_field 64) pv_CreatedUnix (λ v p, p <| pv_CreatedUnix := v |>);
    field_at "protocol" text_field pv_Protocol (λ v p, p <| pv_Protocol := v |>);
    field_at "license" text_field pv_License (λ v p, p <| pv_License := v |>);
    field_at "source" Source_field pv_Source (λ v p, p <| pv_Source := v |>);
    field_at "toolchain" Toolchain_field pv_Toolchain (λ v p, p <| pv_Toolchain := v |>);
    field_at "build_profile" text_field BuildProfile (λ v p, p <| BuildProfile := v |>);
    field_at "source_date_epoch" (int_field 64) SourceDateEpoch (λ v p, p <| SourceDateEpoch := v |>);
    field_at "cgo_enabled" bool_field CGOEnabled (λ v p, p <| CGOEnabled := v |>);
    field_at "trimpath" bool_field Trimpath (λ v p, p <| Trimpath := v |>);
    field_at "build_vcs" bool_field BuildVCS (λ v p, p <| BuildVCS := v |>);
    field_at "subjects" (slice_field Subject_field) Subjects (λ v p, p <| Subjects := v |>)] }.
#[export] Instance Creation_field : Field SPDXCreationInfo := {
  to_json c := JObject (member "created" text_field (Created c) ++ member "creators" (slice_field text_field) (Creators c) ++ []);
  zero_value := MkCreation [] None;
  assign := assign_struct [
    field_at "created" text_field Created (λ v c, c <| Created := v |>);
    field_at "creators" (slice_field text_field) Creators (λ v c, c <| Creators := v |>)] }.
#[export] Instance Checksum_field : Field SPDXChecksum := {
  to_json c := JObject (member "algorithm" text_field (Algorithm c) ++ member "checksumValue" text_field (ChecksumValue c) ++ []);
  zero_value := MkChecksum [] [];
  assign := assign_struct [
    field_at "algorithm" text_field Algorithm (λ v c, c <| Algorithm := v |>);
    field_at "checksumValue" text_field ChecksumValue (λ v c, c <| ChecksumValue := v |>)] }.
#[export] Instance File_field : Field SPDXFile := {
  to_json f := JObject (member "fileName" text_field (FileName f) ++ member "SPDXID" text_field (f_SPDXID f)
    ++ member "checksums" (slice_field Checksum_field) (Checksums f) ++ member "licenseConcluded" text_field (f_LicenseConcluded f)
    ++ member "copyrightText" text_field (f_CopyrightText f) ++ []);
  zero_value := MkFile [] [] None [] [];
  assign := assign_struct [
    field_at "fileName" text_field FileName (λ v f, f <| FileName := v |>);
    field_at "SPDXID" text_field f_SPDXID (λ v f, f <| f_SPDXID := v |>);
    field_at "checksums" (slice_field Checksum_field) Checksums (λ v f, f <| Checksums := v |>);
    field_at "licenseConcluded" text_field f_LicenseConcluded (λ v f, f <| f_LicenseConcluded := v |>);
    field_at "copyrightText" text_field f_CopyrightText (λ v f, f <| f_CopyrightText := v |>)] }.
#[export] Instance Ref_field : Field SPDXExternalRef := {
  to_json r := JObject (member "referenceCategory" text_field (ReferenceCategory r) ++ member "referenceType" text_field (ReferenceType r)
    ++ member "referenceLocator" text_field (ReferenceLocator r) ++ []);
  zero_value := MkRef [] [] [];
  assign := assign_struct [
    field_at "referenceCategory" text_field ReferenceCategory (λ v r, r <| ReferenceCategory := v |>);
    field_at "referenceType" text_field ReferenceType (λ v r, r <| ReferenceType := v |>);
    field_at "referenceLocator" text_field ReferenceLocator (λ v r, r <| ReferenceLocator := v |>)] }.
#[export] Instance Package_field : Field SPDXPackage := {
  to_json k := JObject (member "name" text_field (k_Name k) ++ member "SPDXID" text_field (k_SPDXID k)
    ++ member "versionInfo" text_field (VersionInfo k) ++ member "downloadLocation" text_field (DownloadLocation k)
    ++ member "filesAnalyzed" bool_field (FilesAnalyzed k) ++ member "licenseConcluded" text_field (LicenseConcluded k)
    ++ member "licenseDeclared" text_field (LicenseDeclared k) ++ member "copyrightText" text_field (CopyrightText k)
    ++ member "externalRefs" (slice_field Ref_field) (ExternalRefs k) ++ []);
  zero_value := MkPackage [] [] [] [] false [] [] [] None;
  assign := assign_struct [
    field_at "name" text_field k_Name (λ v k, k <| k_Name := v |>);
    field_at "SPDXID" text_field k_SPDXID (λ v k, k <| k_SPDXID := v |>);
    field_at "versionInfo" text_field VersionInfo (λ v k, k <| VersionInfo := v |>);
    field_at "downloadLocation" text_field DownloadLocation (λ v k, k <| DownloadLocation := v |>);
    field_at "filesAnalyzed" bool_field FilesAnalyzed (λ v k, k <| FilesAnalyzed := v |>);
    field_at "licenseConcluded" text_field LicenseConcluded (λ v k, k <| LicenseConcluded := v |>);
    field_at "licenseDeclared" text_field LicenseDeclared (λ v k, k <| LicenseDeclared := v |>);
    field_at "copyrightText" text_field CopyrightText (λ v k, k <| CopyrightText := v |>);
    field_at "externalRefs" (slice_field Ref_field) ExternalRefs (λ v k, k <| ExternalRefs := v |>)] }.
#[export] Instance Relationship_field : Field SPDXRelationship := {
  to_json r := JObject (member "spdxElementId" text_field (SPDXElementID r) ++ member "relationshipType" text_field (RelationshipType r)
    ++ member "relatedSpdxElement" text_field (RelatedSPDXElement r) ++ []);
  zero_value := MkRelationship [] [] [];
  assign := assign_struct [
    field_at "spdxElementId" text_field SPDXElementID (λ v r, r <| SPDXElementID := v |>);
    field_at "relationshipType" text_field RelationshipType (λ v r, r <| RelationshipType := v |>);
    field_at "relatedSpdxElement" text_field RelatedSPDXElement (λ v r, r <| RelatedSPDXElement := v |>)] }.
#[export] Instance Document_field : Field SPDXDocument := {
  to_json d := JObject (member "spdxVersion" text_field (d_SPDXVersion d) ++ member "dataLicense" text_field (DataLicense d)
    ++ member "SPDXID" text_field (d_SPDXID d) ++ member "name" text_field (d_Name d)
    ++ member "documentNamespace" text_field (DocumentNamespace d) ++ member "creationInfo" Creation_field (CreationInfo d)
    ++ member "files" (slice_field File_field) (Files d) ++ member "packages" (slice_field Package_field) (Packages d)
    ++ member "relationships" (slice_field Relationship_field) (Relationships d) ++ []);
  zero_value := MkDocument [] [] [] [] [] zero_value None None None;
  assign := assign_struct [
    field_at "spdxVersion" text_field d_SPDXVersion (λ v d, d <| d_SPDXVersion := v |>);
    field_at "dataLicense" text_field DataLicense (λ v d, d <| DataLicense := v |>);
    field_at "SPDXID" text_field d_SPDXID (λ v d, d <| d_SPDXID := v |>);
    field_at "name" text_field d_Name (λ v d, d <| d_Name := v |>);
    field_at "documentNamespace" text_field DocumentNamespace (λ v d, d <| DocumentNamespace := v |>);
    field_at "creationInfo" Creation_field CreationInfo (λ v d, d <| CreationInfo := v |>);
    field_at "files" (slice_field File_field) Files (λ v d, d <| Files := v |>);
    field_at "packages" (slice_field Package_field) Packages (λ v d, d <| Packages := v |>);
    field_at "relationships" (slice_field Relationship_field) Relationships (λ v d, d <| Relationships := v |>)] }.

(** ** [evidence.go] *)

Definition equals (t : text) (s : string) : bool := bool_decide (t = ascii_bytes s).
Definition differ (t u : text) : bool := negb (bool_decide (t = u)).
Definition MaxEvidenceDocumentSize : Z := 16 * 2 ^ 20.
Definition BuildProfileName : text := ascii_bytes "owntransit.v1.exact-fourteen".
Definition SPDXDocumentID : text := ascii_bytes "SPDXRef-DOCUMENT".
Definition SPDXArtifactID : text := ascii_bytes "SPDXRef-Artifact".
Definition NOASSERTION : text := ascii_bytes "NOASSERTION".
Definition BIP39PackageVersion : text := ascii_bytes "ce1862ac6bcffa1dd20aad858380e51e66e949ea".
Definition BIP39DownloadLocation : text :=
  ascii_bytes "https://raw.githubusercontent.com/bitcoin/bips/ce1862ac6bcffa1dd20aad858380e51e66e949ea/bip-0039/english.txt".
Definition BIP39PackagePURL : text := ascii_bytes "pkg:generic/bip39-english-wordlist@ce1862ac6bcffa1dd20aad858380e51e66e949ea".
Definition LicenseEvidenceHeader : text := ascii_bytes "OwnTransit third-party license evidence v1" ++ [newline].

(** [Provenance.ValidateForManifest] *)
Definition subject_of (a : Artifact) (s : ProvenanceSubject) : bool :=
  bool_decide (ps_Name s = a_Name a) && bool_decide (ps_File s = a_File a) && bool_decide (ps_SHA256 s = a_SHA256 a) && (ps_Size s =? a_Size a).
Definition validate_provenance (p : Provenance) (m : Manifest) : result release_err () :=
  reject negb (equals (pv_Schema p) "owntransit.build-provenance.v1") || differ (pv_Product p) (m_Product m) || differ (pv_Version p) (m_Version m)
      || differ (pv_ReleaseID p) (m_ReleaseID m) || negb (pv_Sequence p =? m_Sequence m) || negb (pv_CreatedUnix p =? m_CreatedUnix m)
      || differ (pv_Protocol p) (m_Protocol m) || differ (pv_License p) (m_License m) || negb (bool_decide (pv_Source p = m_Source m))
      || negb (bool_decide (pv_Toolchain p = m_Toolchain m)) with ProvenanceBinding;;
  reject differ (BuildProfile p) BuildProfileName || negb (SourceDateEpoch p =? m_CreatedUnix m) || CGOEnabled p || negb (Trimpath p)
      || BuildVCS p with ProvenanceProfile;;
  reject negb (length (elems (Subjects p)) =? length (elems (m_Artifacts m)))%nat
      || negb (forallb (λ p, subject_of p.1 p.2) (zip (elems (m_Artifacts m)) (elems (Subjects p)))) with ProvenanceSubjects;;
  Ok ().
(** What the two kinds of documents share. *)
Definition encode_document {A} (F : Field A) (validate : A → result release_err ()) (a : A) : result release_err (list byte) :=
  _ ← validate a;
  let encoded := Marshal F a in
  reject MaxEvidenceDocumentSize <=? Z.of_nat (length encoded) with ReleaseTooLarge;;
  Ok (encoded ++ [newline]).
Definition parse_document {A} (F : Field A) (validate : A → result release_err ()) (encoded : list byte) : result release_err A :=
  reject bool_decide (encoded = []) || (MaxEvidenceDocumentSize <? Z.of_nat (length encoded)) with ReleaseSize;;
  match Decode F encoded with
  | None => Err ReleaseDecode
  | Some a =>
      _ ← validate a;
      match encode_document F validate a with
      | Ok canonical => reject negb (bool_decide (encoded = canonical)) with NotCanonical;; Ok a
      | Err _ => Err NotCanonical
      end
  end.
Definition EncodeProvenance (p : Provenance) (m : Manifest) : result release_err (list byte) :=
  encode_document Provenance_field (λ p, validate_provenance p m) p.
Definition ParseProvenance (encoded : list byte) (m : Manifest) : result release_err Provenance :=
  parse_document Provenance_field (λ p, validate_provenance p m) encoded.

Definition validSPDXText (value : text) : bool :=
  negb (bool_decide (value = [])) && (Z.of_nat (length value) <=? 256) && bool_decide (TrimSpace value = value)
  && forallb (λ r, negb ((r_value r <? 0x20) || (r_value r =? 0x7f))) (runes value).
Definition validateLicenseEvidence (encoded : list byte) : result release_err () :=
  reject (length encoded <=? length LicenseEvidenceHeader)%nat || (MaxEvidenceDocumentSize <? Z.of_nat (length encoded))
      || negb (bool_decide (is_Some (CutPrefix encoded LicenseEvidenceHeader))) || negb (bool_decide (list.last encoded = Some newline))
    with LicenseEvidence;;
  Ok ().

Section Env.
Context (x : release_env).

Definition validSPDXPackageReference (k : SPDXPackage) : bool :=
  match elems (ExternalRefs k) with
  | [r] =>
      equals (ReferenceCategory r) "PACKAGE-MANAGER" && equals (ReferenceType r) "purl"
      && (if equals (k_Name k) "Go standard library" then
            bool_decide (is_Some (CutPrefix (VersionInfo k) (ascii_bytes "go1.")))
            && bool_decide (ReferenceLocator r = ascii_bytes "pkg:golang/std@" ++ QueryEscape x (VersionInfo k))
            && equals (DownloadLocation k) "https://go.dev/" && equals (LicenseDeclared k) "BSD-3-Clause"
          else if equals (k_Name k) "BIP-39 English word list" then
            bool_decide (VersionInfo k = BIP39PackageVersion) && bool_decide (DownloadLocation k = BIP39DownloadLocation)
            && equals (LicenseDeclared k) "MIT" && equals (CopyrightText k) "Copyright (c) 2013 BIP-39 authors"
            && bool_decide (ReferenceLocator r = BIP39PackagePURL)
          else
            bool_decide (DownloadLocation k = NOASSERTION)
            && bool_decide (ReferenceLocator r = ascii_bytes "pkg:golang/" ++ PathEscape x (k_Name k) ++ ascii_bytes "@" ++ QueryEscape x (VersionInfo k)))
  | _ => false
  end.
Definition bad_location (location : text) : bool :=
  match re_parse_url x location with
  | None => true
  | Some u => negb (equals (Scheme u) "https") || bool_decide (Host u = []) || has_User u || negb (bool_decide (Fragment u = []))
  end.
Fixpoint validate_packages (packages : list SPDXPackage) (previous : option text) (ids : gset text) : result release_err () :=
  match packages with
  | [] => Ok ()
  | k :: packages =>
      reject negb (validSPDXText (k_Name k)) || negb (safeToken (k_SPDXID k)) || negb (validSPDXText (VersionInfo k)) || FilesAnalyzed k
          || bool_decide (LicenseConcluded k = []) || bool_decide (LicenseDeclared k = []) || bool_decide (CopyrightText k = [])
          || negb (length (elems (ExternalRefs k)) =? 1)%nat with SpdxPackage;;
      reject match previous with Some p => text_leb (k_SPDXID k) p | None => false end with SpdxOrder;;
      reject bool_decide (k_SPDXID k ∈ ids) with SpdxDuplicate;;
      reject negb (validSPDXPackageReference k) with SpdxReference;;
      reject differ (DownloadLocation k) NOASSERTION && bad_location (DownloadLocation k) with SpdxLocation;;
      validate_packages packages (Some (k_SPDXID k)) ({[k_SPDXID k]} ∪ ids)
  end.
Definition dependency_of (k : SPDXPackage) : SPDXRelationship := {|
  SPDXElementID := k_SPDXID k; RelationshipType := ascii_bytes "BUILD_DEPENDENCY_OF"; RelatedSPDXElement := SPDXArtifactID |}.
Definition describes : SPDXRelationship := {|
  SPDXElementID := SPDXDocumentID; RelationshipType := ascii_bytes "DESCRIBES"; RelatedSPDXElement := SPDXArtifactID |}.
Definition subject_file (f : SPDXFile) (a : Artifact) : bool :=
  bool_decide (FileName f = a_File a) && bool_decide (f_SPDXID f = SPDXArtifactID) && bool_decide (f_LicenseConcluded f = NOASSERTION)
  && bool_decide (f_CopyrightText f = NOASSERTION)
  && match elems (Checksums f) with [c] => equals (Algorithm c) "SHA256" && bool_decide (ChecksumValue c = a_SHA256 a) | _ => false end.

(** [SPDXDocument.ValidateForArtifact] *)
Definition validate_spdx (d : SPDXDocument) (m : Manifest) (a : Artifact) : result release_err () :=
  let expectedNamespace := ascii_bytes "https://spdx.org/spdxdocs/owntransit-" ++ m_ReleaseID m ++ ascii_bytes "-" ++ a_Name a in
  let creators := elems (Creators (CreationInfo d)) in
  reject negb (equals (d_SPDXVersion d) "SPDX-2.3") || negb (equals (DataLicense d) "CC0-1.0") || differ (d_SPDXID d) SPDXDocumentID
      || differ (d_Name d) (ascii_bytes "owntransit-" ++ a_Name a) || differ (DocumentNamespace d) expectedNamespace
      || differ (Created (CreationInfo d)) (format_time x (m_CreatedUnix m))
      || negb (bool_decide (creators = [ascii_bytes "Tool: OwnTransit release evidence v1"])) with SpdxIdentity;;
  reject match re_parse_url x (DocumentNamespace d) with
         | None => true
         | Some u => negb (equals (Scheme u) "https") || negb (equals (Host u) "spdx.org") || negb (bool_decide (RawQuery u = []))
                     || negb (bool_decide (Fragment u = []))
         end with SpdxNamespace;;
  match elems (Files d) with
  | [f] =>
      reject negb (subject_file f a) with SpdxSubject;;
      let packages := elems (Packages d) in
      reject bool_decide (packages = []) || (4096 <? Z.of_nat (length packages)) with SpdxPackages;;
      _ ← validate_packages packages None {[SPDXDocumentID; SPDXArtifactID]};
      reject negb (bool_decide (elems (Relationships d) = describes :: (dependency_of <$> packages))) with SpdxRelationship;;
      Ok ()
  | _ => Err SpdxFiles
  end.
Definition EncodeSPDX (d : SPDXDocument) (m : Manifest) (a : Artifact) : result release_err (list byte) :=
  encode_document Document_field (λ d, validate_spdx d m a) d.
Definition ParseSPDX (encoded : list byte) (m : Manifest) (a : Artifact) : result release_err SPDXDocument :=
  parse_document Document_field (λ d, validate_spdx d m a) encoded.

(** ** [bundle_unix.go] *)

Inductive bundle_err :=
| BRelease (e : release_err) | BErrno (e : errno)
| BundleRootPath | BundleRootCanonical | UnprotectedDirectory | RecordMetadata | UnprotectedFile | EvidenceTooLarge
| SizeChanged | MetadataChanged | DigestDiffers | LicenseDiffers | BundleMismatch | PathSet | BadPath | DuplicatePath.
#[export] Instance bundle_err_eq_dec : EqDecision bundle_err.
Proof. solve_decision. Defined.

Record VerifiedBundle := { vb_Manifest : Manifest; vb_valid : bool }.
Record Measurement := { ms_SHA256 : text; ms_Size : Z }.

Definition release {A} (r : result release_err A) : IO (result bundle_err A) :=
  mret (match r with Ok a => Ok a | Err e => Err (BRelease e) end).
Definition bcall (c : syscall) : IO (result bundle_err reply) :=
  r ← sys c; mret (match r_errno r with Some e => Err (BErrno e) | None => Ok r end).
Definition bfailing {A} (c : syscall) (e : bundle_err) : IO (result bundle_err A) := _ ← ignore c; mret (Err e).
(** [stat.Mode & 0o022] *)
Definition others_write (s : Stat_t) : bool := negb (Z.land (st_Mode s) 0x12 =? 0).

Definition requireProtectedDirectory (fd : Z) : IO (result bundle_err ()) :=
  must r := bcall (Fstat fd);;
  refuse negb (mode_type (r_stat r) =? S_IFDIR) || others_write (r_stat r) with UnprotectedDirectory;;
  mret (Ok ()).

(** The descent to the root of a bundle; the last directory is checked. *)
Fixpoint open_bundle_chain (fd : Z) (components : list text) : IO (result bundle_err Z) :=
  match components with
  | [] => mret (Ok fd)
  | c :: rest =>
      if bool_decide (c = []) || equals c "." || equals c ".." then bfailing (Close fd) BundleRootCanonical
      else
        next ← sys (Openat fd c directory_flags 0);
        _ ← ignore (Close fd);
        match r_errno next with
        | Some e => mret (Err (BErrno e))
        | None =>
            let fd := r_number next in
            match rest with
            | [] => p ← requireProtectedDirectory fd;
                    match p with Err e => bfailing (Close fd) e | Ok _ => mret (Ok fd) end
            | _ => open_bundle_chain fd rest
            end
        end
  end.
Definition openProtectedBundleRoot (path : text) : IO (result bundle_err Z) :=
  refuse negb (bool_decide (list.head path = Some slash)) || bool_decide (path = [slash]) || bool_decide (list.last path = Some slash)
    with BundleRootPath;;
  must r := bcall (OpenRootDir directory_flags);;
  open_bundle_chain (r_number r) (Split slash (drop 1 path)).

(** The directory of a file of the bundle, each step checked. *)
Fixpoint open_parents (fd : Z) (components : list text) : IO (result bundle_err Z) :=
  match components with
  | [] => mret (Ok fd)
  | c :: rest =>
      next ← sys (Openat fd c directory_flags 0);
      _ ← ignore (Close fd);
      match r_errno next with
      | Some e => mret (Err (BErrno e))
      | None =>
          p ← requireProtectedDirectory (r_number next);
          match p with Err e => bfailing (Close (r_number next)) e | Ok _ => open_parents (r_number next) rest end
      end
  end.

(** [io.CopyBuffer] of an [io.LimitReader] over a file: all that was read. *)
Definition copy_buffer : Z := 64 * 2 ^ 10.
Fixpoint copy_limited (fd limit : Z) (contents : list byte) (s : list reply)
    : list event * list reply * option (result bundle_err (list byte)) :=
  if limit <=? Z.of_nat (length contents) then ([], s, Some (Ok contents))
  else
    match s with
    | [] => ([], [], None)
    | r :: s =>
        let e := (Read fd (Z.min copy_buffer (limit - Z.of_nat (length contents))), r) in
        match r_errno r with
        | Some EINTR => let '(t, s, o) := copy_limited fd limit contents s in (e :: t, s, o)
        | Some x => ([e], s, Some (Err (BErrno x)))
        | None =>
            if bool_decide (r_data r = []) then ([e], s, Some (Ok contents))
            else let '(t, s, o) := copy_limited fd limit (contents ++ r_data r) s in (e :: t, s, o)
        end
    end.

Definition protected_file (s : Stat_t) : bool := (mode_type s =? S_IFREG) && (st_Nlink s =? 1) && negb (others_write s).
(** A file of the bundle, from its name to its parent and to the checks on it. *)
Definition with_bundle_file {A} (rootFD : Z) (path : text) (k : Z → IO (result bundle_err A)) : IO (result bundle_err A) :=
  let components := Split slash path in
  must d := bcall (Dup rootFD);;
  must directoryFD := open_parents (r_number d) (removelast components);;
  deferring (ignore (Close directoryFD))
    (must r := bcall (Openat directoryFD (List.last components []) [O_RDONLY; O_NOFOLLOW; O_CLOEXEC; O_NONBLOCK] 0);;
     deferring (ignore (Close (r_number r))) (k (r_number r))).

Definition verifyBundleRecord (rootFD : Z) (path expectedDigest : text) (expectedSize : Z) (retain : bool)
    : IO (result bundle_err (list byte)) :=
  refuse negb (validRelativePath path) || negb (validDigest expectedDigest) || (expectedSize <=? 0) || (maximumSize <? expectedSize)
    with RecordMetadata;;
  with_bundle_file rootFD path (λ fd,
    must before := bcall (Fstat fd);;
    refuse negb (protected_file (r_stat before)) || negb (st_Size (r_stat before) =? expectedSize) with UnprotectedFile;;
    refuse retain && (MaxEvidenceDocumentSize <? expectedSize) with EvidenceTooLarge;;
    must contents := copy_limited fd (expectedSize + 1) [];;
    refuse negb (Z.of_nat (length contents) =? expectedSize) with SizeChanged;;
    must after := bcall (Fstat fd);;
    refuse negb (protected_file (r_stat after)) || negb (st_Size (r_stat after) =? st_Size (r_stat before)) with MetadataChanged;;
    refuse negb (bool_decide (hex_encode (Sum256 contents) = expectedDigest)) with DigestDiffers;;
    mret (Ok (if retain then contents else []))).

Definition measureBundleRecord (rootFD : Z) (path : text) : IO (result bundle_err Measurement) :=
  with_bundle_file rootFD path (λ fd,
    must before := bcall (Fstat fd);;
    let size := st_Size (r_stat before) in
    refuse negb (protected_file (r_stat before)) || (size <=? 0) || (maximumSize <? size) with UnprotectedFile;;
    copied ← copy_limited fd (size + 1) [];
    match copied with
    | Err _ => mret (Err SizeChanged)
    | Ok contents =>
        refuse negb (Z.of_nat (length contents) =? size) with SizeChanged;;
        after ← sys (Fstat fd);
        refuse bool_decide (is_Some (r_errno after)) || negb (protected_file (r_stat after)) || negb (st_Size (r_stat after) =? size)
          with MetadataChanged;;
        mret (Ok {| ms_SHA256 := hex_encode (Sum256 contents); ms_Size := size |})
    end).
Fixpoint measure_paths (rootFD : Z) (paths : list text) (measured : gmap text Measurement) : IO (result bundle_err (gmap text Measurement)) :=
  match paths with
  | [] => mret (Ok measured)
  | path :: paths =>
      refuse negb (validRelativePath path) with BadPath;;
      refuse bool_decide (is_Some (measured !! path)) with DuplicatePath;;
      must m := measureBundleRecord rootFD path;;
      measure_paths rootFD paths (<[path := m]> measured)
  end.
Definition MeasureBundleFiles (rootPath : text) (paths : list text) : IO (result bundle_err (gmap text Measurement)) :=
  refuse bool_decide (paths = []) || (128 <? Z.of_nat (length paths)) with PathSet;;
  must rootFD := openProtectedBundleRoot rootPath;;
  deferring (ignore (Close rootFD)) (measure_paths rootFD paths ∅).

(** The records in order; the contents of the evidence, by name. *)
Fixpoint verify_artifacts (rootFD : Z) (artifacts : list Artifact) : IO (result bundle_err ()) :=
  match artifacts with
  | [] => mret (Ok ())
  | a :: artifacts =>
      must _ := verifyBundleRecord rootFD (a_File a) (a_SHA256 a) (a_Size a) false;;
      verify_artifacts rootFD artifacts
  end.
Fixpoint verify_evidence (rootFD : Z) (evidence : list Evidence) (contents : gmap text (list byte))
    : IO (result bundle_err (gmap text (list byte))) :=
  match evidence with
  | [] => mret (Ok contents)
  | e :: evidence =>
      must c := verifyBundleRecord rootFD (e_File e) (e_SHA256 e) (e_Size e) true;;
      verify_evidence rootFD evidence (<[e_Name e := c]> contents)
  end.
Fixpoint parse_sboms (artifacts : list Artifact) (m : Manifest) (contents : gmap text (list byte)) : result release_err () :=
  match artifacts with
  | [] => Ok ()
  | a :: artifacts => _ ← ParseSPDX (default [] (contents !! a_SBOM a)) m a; parse_sboms artifacts m contents
  end.
(** [bytes.Contains] *)
Definition Contains (s sub : list byte) : bool := bool_decide (is_Some (Cut s sub)).

Definition VerifyBundle (rootPath : text) (manifestBytes signatureBytes publicKey : list byte) : IO (result bundle_err VerifiedBundle) :=
  must m := release (VerifyManifest x manifestBytes signatureBytes publicKey);;
  must rootFD := openProtectedBundleRoot rootPath;;
  deferring (ignore (Close rootFD))
    (must _ := verify_artifacts rootFD (elems (m_Artifacts m));;
     must contents := verify_evidence rootFD (elems (m_Evidence m)) ∅;;
     must _ := release (ParseProvenance (default [] (contents !! ascii_bytes "provenance")) m);;
     must _ := release (parse_sboms (elems (m_Artifacts m)) m contents);;
     must _ := release (validateLicenseEvidence (default [] (contents !! ascii_bytes "third-party-licenses")));;
     let projectLicense := default [] (contents !! ascii_bytes "project-license") in
     refuse negb (equals (m_License m) "Apache-2.0") || negb (Contains projectLicense (ascii_bytes "Apache License"))
         || negb (Contains projectLicense (ascii_bytes "Version 2.0")) with LicenseDiffers;;
     mret (Ok {| vb_Manifest := m; vb_valid := true |})).
Definition VerifyBundleForInstall (rootPath : text) (manifestBytes signatureBytes releaseKey : list byte) (p : InstallPolicy)
    : IO (result bundle_err (VerifiedBundle * Artifact)) :=
  must bundle := VerifyBundle rootPath manifestBytes signatureBytes releaseKey;;
  must r := release (VerifyForInstall x manifestBytes signatureBytes releaseKey p);;
  let '(m, a) := r in
  refuse differ (m_ReleaseID m) (m_ReleaseID (vb_Manifest bundle)) || negb (m_Sequence m =? m_Sequence (vb_Manifest bundle))
    with BundleMismatch;;
  mret (Ok (bundle, a)).
End Env.
