(* ===== verification/PackageData.v ===== *)
(** * Package transactions: records and decisions

    [decision.go], the records, validations and encodings of [transaction_unix.go],
    [package_anchor_unix.go] and [runtimeIdentityFromReceipt] of [internal/packagetxn]. *)

From S2P Require Import Prelude GoIO Text Runes Sha256 Base64 Protocol Identifiers Signing Invitation StrictJson Syscalls SecureFS Release ReleaseBundle.
From stdpp Require Import sorting.
Open Scope Z_scope.

(** ** Data *)

Inductive decisionOperation := operationInstall | operationRollback | OtherOperation (name : text).
#[export] Instance decisionOperation_eq_dec : EqDecision decisionOperation.
Proof. solve_decision. Defined.
Inductive journalPhase := phasePlanned | phaseStaged | phaseSelected | phaseRetiring | phaseComplete | OtherPhase (name : text).
#[export] Instance journalPhase_eq_dec : EqDecision journalPhase.
Proof. solve_decision. Defined.

(** The modes of [fs.FileMode] that the package uses: permission bits and [ModeSetgid]. *)
Definition ModeSetgid : Z := 2 ^ 22.

Record decisionFile := { df_ArtifactName : text; SourcePath : text; InstallName : text; df_SHA256 : text; df_Size : Z; df_Mode : Z; df_GID : Z }.
Record decision := MkDecision {
  seal : text; operation : decisionOperation; bundleRoot : text; releaseID : text; sequence : Z; manifestSHA256 : text; dec_role : text;
  dec_os : text; dec_arch : text; files : list decisionFile; anchorBefore : text; anchorTarget : text; policySHA256 : text }.
#[export] Instance decision_eta : Eta decision := λ d,
  MkDecision (seal d) (operation d) (bundleRoot d) (releaseID d) (sequence d) (manifestSHA256 d) (dec_role d) (dec_os d) (dec_arch d)
    (files d) (anchorBefore d) (anchorTarget d) (policySHA256 d).
(** [decision{}] *)
Definition no_decision : decision := MkDecision [] (OtherOperation []) [] [] 0 [] [] [] [] [] [] [] [].

Record selectorRecord := MkSelector {
  sel_Schema : text; Generation : Z; Current : text; CurrentReceiptSHA256 : text; Previous : text; PreviousReceiptSHA256 : text }.
#[export] Instance selectorRecord_eq_dec : EqDecision selectorRecord.
Proof. solve_decision. Defined.
#[export] Instance selectorRecord_eta : Eta selectorRecord := λ s,
  MkSelector (sel_Schema s) (Generation s) (Current s) (CurrentReceiptSHA256 s) (Previous s) (PreviousReceiptSHA256 s).
Record journalRecord := MkJournal {
  j_Schema : text; Phase : journalPhase; Operation : decisionOperation; j_Role : text; j_ReleaseID : text; j_Sequence : Z;
  j_ManifestSHA256 : text; ReceiptSHA256 : text; PolicySHA256 : text; AnchorBeforeSHA256 : text; AnchorTargetSHA256 : text;
  RetiredReleaseID : text; RetiredReceiptSHA256 : text; Before : selectorRecord; Target : selectorRecord }.
#[export] Instance journalRecord_eq_dec : EqDecision journalRecord.
Proof. solve_decision. Defined.
#[export] Instance journalRecord_eta : Eta journalRecord := λ j,
  MkJournal (j_Schema j) (Phase j) (Operation j) (j_Role j) (j_ReleaseID j) (j_Sequence j) (j_ManifestSHA256 j) (ReceiptSHA256 j)
    (PolicySHA256 j) (AnchorBeforeSHA256 j) (AnchorTargetSHA256 j) (RetiredReleaseID j) (RetiredReceiptSHA256 j) (Before j) (Target j).
Record receiptFile := MkReceiptFile { rf_ArtifactName : text; rf_Name : text; rf_SHA256 : text; rf_Size : Z; rf_Mode : Z; rf_GID : Z }.
#[export] Instance receiptFile_eta : Eta receiptFile := λ f,
  MkReceiptFile (rf_ArtifactName f) (rf_Name f) (rf_SHA256 f) (rf_Size f) (rf_Mode f) (rf_GID f).
Record receiptRecord := MkReceipt {
  r_Schema : text; r_Role : text; r_OS : text; r_Arch : text; r_ReleaseID : text; r_Sequence : Z; r_ManifestSHA256 : text;
  r_Files : gslice receiptFile }.
#[export] Instance receiptRecord_eta : Eta receiptRecord := λ r,
  MkReceipt (r_Schema r) (r_Role r) (r_OS r) (r_Arch r) (r_ReleaseID r) (r_Sequence r) (r_ManifestSHA256 r) (r_Files r).
Record packageAnchor := MkAnchor {
  pk_Schema : text; pk_Generation : Z; pk_Role : text; PreviousSHA256 : text; pk_PolicyKeyID : text; pk_PolicySHA256 : text;
  pk_ReleaseKeyID : text; HighestPolicySequence : Z; MinimumReleaseSequence : Z; MinimumLifecycle : Z;
  TombstonedReleaseIDs : gslice text; HighestReleaseSequence : Z; SelectorGeneration : Z; CurrentReleaseID : text;
  pk_CurrentReceiptSHA256 : text; PreviousReleaseID : text; pk_PreviousReceiptSHA256 : text }.
#[export] Instance packageAnchor_eq_dec : EqDecision packageAnchor.
Proof. solve_decision. Defined.
#[export] Instance packageAnchor_eta : Eta packageAnchor := λ a,
  MkAnchor (pk_Schema a) (pk_Generation a) (pk_Role a) (PreviousSHA256 a) (pk_PolicyKeyID a) (pk_PolicySHA256 a) (pk_ReleaseKeyID a)
    (HighestPolicySequence a) (MinimumReleaseSequence a) (MinimumLifecycle a) (TombstonedReleaseIDs a) (HighestReleaseSequence a)
    (SelectorGeneration a) (CurrentReleaseID a) (pk_CurrentReceiptSHA256 a) (PreviousReleaseID a) (pk_PreviousReceiptSHA256 a).
Record RuntimeIdentity := MkRuntime {
  ReleaseID : text; ReleaseSequence : Z; ArtifactSHA256 : text; LauncherSHA256 : text; ri_OS : text; ri_Arch : text; ri_Role : text }.

Inductive package_err :=
| PErrno (e : errno) | PBundle (e : bundle_err) | PRelease (e : release_err) | PSigning (e : signing_err)
| ErrLocked | ErrReplay | ErrResidue | ErrInvalidDecision
| BundleRootInvalid | PlatformMismatch | LifecycleDuplicate | LifecycleAbsent | LifecycleFormat | LauncherDuplicate | LauncherAbsent
| EvidenceIncomplete | PrimaryProfile | FileSet | FileRecord | FileReserved | FileOrder
| SelectorInvalid | ReceiptInvalid | ReceiptFileInvalid | ReceiptOrder | MetadataSize | MetadataDecode | MetadataNotCanonical
| AnchorInvalid | PkgPolicySigner | KeysInvalid | RolePlatform | RuntimeAbsent
| ManagerInvalid | DirectoryName | DirectoryUnprotected | ACLDenied | AnchorDisagrees | AnchorChanged | JournalDiffers | GateRequired
| RollbackTarget | RollbackFloor | RollbackTombstone | RecoverFirst | SignedInputRequired | LifecycleMissing | MeasurementFailed
| LifecycleDiffers | LifecyclePath | PolicyOnly | ExactPolicyRequired | AnchorReconstruction | ResultInvalid | ReadLimit | ShortWrite
| SourceInvalid | SourceChanged | StageDigest | RetirementInvalid | NoCurrentRuntime | RootPath | RoleInvalid | OperationFailed | Interrupted.
#[export] Instance package_err_eq_dec : EqDecision package_err.
Proof. solve_decision. Defined.

(** *** Names *)

Definition decisionSeal : text := ascii_bytes "owntransit authenticated package decision v1".
Definition journalSchema : text := ascii_bytes "owntransit.package-journal.v1".
Definition receiptSchema : text := ascii_bytes "owntransit.package-receipt.v1".
Definition selectorSchema : text := ascii_bytes "owntransit.package-selector.v1".
Definition packageAnchorSchema : text := ascii_bytes "owntransit.package-anchor.v1".
Definition lockFileName : text := ascii_bytes "transaction.lock".
Definition releasesDirectory : text := ascii_bytes "releases".
Definition journalFileName : text := ascii_bytes "journal.json".
Definition journalStageName : text := ascii_bytes ".journal.stage".
Definition selectorFileName : text := ascii_bytes "selector.json".
Definition selectorStageName : text := ascii_bytes ".selector.stage".
Definition activeLinkName : text := ascii_bytes "current".
Definition activeLinkStageName : text := ascii_bytes ".current.stage".
Definition receiptFileName : text := ascii_bytes "receipt.json".
Definition receiptStageName : text := ascii_bytes ".receipt.stage".
Definition packageAnchorFileName : text := ascii_bytes "anchor.json".
Definition packageAnchorStageName : text := ascii_bytes ".anchor.stage".
Definition packageAnchorLockFileName : text := ascii_bytes "anchor.lock".
Definition maximumMetadataSize : Z := 64 * 2 ^ 10.
Definition maximumFileCount : nat := 8.
Definition packageLifecycleGeneration : Z := 1.

(** ** Encodings *)

Definition operation_text (o : decisionOperation) : text :=
  match o with operationInstall => ascii_bytes "install" | operationRollback => ascii_bytes "rollback" | OtherOperation t => t end.
Definition operation_of (t : text) : decisionOperation :=
  if bool_decide (t = ascii_bytes "install") then operationInstall
  else if bool_decide (t = ascii_bytes "rollback") then operationRollback else OtherOperation t.
Definition phase_text (p : journalPhase) : text :=
  match p with
  | phasePlanned => ascii_bytes "planned" | phaseStaged => ascii_bytes "staged" | phaseSelected => ascii_bytes "selected"
  | phaseRetiring => ascii_bytes "retiring" | phaseComplete => ascii_bytes "complete" | OtherPhase t => t
  end.
Definition phase_of (t : text) : journalPhase :=
  if bool_decide (t = ascii_bytes "planned") then phasePlanned
  else if bool_decide (t = ascii_bytes "staged") then phaseStaged
  else if bool_decide (t = ascii_bytes "selected") then phaseSelected
  else if bool_decide (t = ascii_bytes "retiring") then phaseRetiring
  else if bool_decide (t = ascii_bytes "complete") then phaseComplete else OtherPhase t.
#[export] Instance operation_field : Field decisionOperation := {
  to_json o := JString (operation_text o);
  zero_value := OtherOperation [];
  assign v old := match v with JString t => Some (operation_of t) | JNull => Some old | _ => None end }.
#[export] Instance phase_field : Field journalPhase := {
  to_json p := JString (phase_text p);
  zero_value := OtherPhase [];
  assign v old := match v with JString t => Some (phase_of t) | JNull => Some old | _ => None end }.
#[export] Instance selector_field : Field selectorRecord := {
  to_json s := JObject (member "schema" text_field (sel_Schema s) ++ member "generation" (uint_field 64) (Generation s)
    ++ member "current" text_field (Current s) ++ member "current_receipt_sha256" text_field (CurrentReceiptSHA256 s)
    ++ member "previous" text_field (Previous s) ++ member "previous_receipt_sha256" text_field (PreviousReceiptSHA256 s) ++ []);
  zero_value := MkSelector [] 0 [] [] [] [];
  assign := assign_struct [
    field_at "schema" text_field sel_Schema (λ v s, s <| sel_Schema := v |>);
    field_at "generation" (uint_field 64) Generation (λ v s, s <| Generation := v |>);
    field_at "current" text_field Current (λ v s, s <| Current := v |>);
    field_at "current_receipt_sha256" text_field CurrentReceiptSHA256 (λ v s, s <| CurrentReceiptSHA256 := v |>);
    field_at "previous" text_field Previous (λ v s, s <| Previous := v |>);
    field_at "previous_receipt_sha256" text_field PreviousReceiptSHA256 (λ v s, s <| PreviousReceiptSHA256 := v |>)] }.
#[export] Instance journal_field : Field journalRecord := {
  to_json j := JObject (member "schema" text_field (j_Schema j) ++ member "phase" phase_field (Phase j)
    ++ member "operation" operation_field (Operation j) ++ member "role" text_field (j_Role j)
    ++ member "release_id" text_field (j_ReleaseID j) ++ member "sequence" (uint_field 64) (j_Sequence j)
    ++ member "manifest_sha256" text_field (j_ManifestSHA256 j) ++ member "receipt_sha256" text_field (ReceiptSHA256 j)
    ++ member_omitempty "policy_sha256" (PolicySHA256 j) ++ member_omitempty "anchor_before_sha256" (AnchorBeforeSHA256 j)
    ++ member_omitempty "anchor_target_sha256" (AnchorTargetSHA256 j) ++ member_omitempty "retired_release_id" (RetiredReleaseID j)
    ++ member_omitempty "retired_receipt_sha256" (RetiredReceiptSHA256 j)
    ++ member "before" selector_field (Before j) ++ member "target" selector_field (Target j) ++ []);
  zero_value := MkJournal [] zero_value zero_value [] [] 0 [] [] [] [] [] [] [] zero_value zero_value;
  assign := assign_struct [
    field_at "schema" text_field j_Schema (λ v j, j <| j_Schema := v |>);
    field_at "phase" phase_field Phase (λ v j, j <| Phase := v |>);
    field_at "operation" operation_field Operation (λ v j, j <| Operation := v |>);
    field_at "role" text_field j_Role (λ v j, j <| j_Role := v |>);
    field_at "release_id" text_field j_ReleaseID (λ v j, j <| j_ReleaseID := v |>);
    field_at "sequence" (uint_field 64) j_Sequence (λ v j, j <| j_Sequence := v |>);
    field_at "manifest_sha256" text_field j_ManifestSHA256 (λ v j, j <| j_ManifestSHA256 := v |>);
    field_at "receipt_sha256" text_field ReceiptSHA256 (λ v j, j <| ReceiptSHA256 := v |>);
    field_at "policy_sha256" text_field PolicySHA256 (λ v j, j <| PolicySHA256 := v |>);
    field_at "anchor_before_sha256" text_field AnchorBeforeSHA256 (λ v j, j <| AnchorBeforeSHA256 := v |>);
    field_at "anchor_target_sha256" text_field AnchorTargetSHA256 (λ v j, j <| AnchorTargetSHA256 := v |>);
    field_at "retired_release_id" text_field RetiredReleaseID (λ v j, j <| RetiredReleaseID := v |>);
    field_at "retired_receipt_sha256" text_field RetiredReceiptSHA256 (λ v j, j <| RetiredReceiptSHA256 := v |>);
    field_at "before" selector_field Before (λ v j, j <| Before := v |>);
    field_at "target" selector_field Target (λ v j, j <| Target := v |>)] }.
#[export] Instance receiptFile_field : Field receiptFile := {
  to_json f := JObject (member "artifact_name" text_field (rf_ArtifactName f) ++ member "name" text_field (rf_Name f)
    ++ member "sha256" text_field (rf_SHA256 f) ++ member "size" (int_field 64) (rf_Size f) ++ member "mode" (uint_field 32) (rf_Mode f)
    ++ member "gid" (uint_field 32) (rf_GID f) ++ []);
  zero_value := MkReceiptFile [] [] [] 0 0 0;
  assign := assign_struct [
    field_at "artifact_name" text_field rf_ArtifactName (λ v f, f <| rf_ArtifactName := v |>);
    field_at "name" text_field rf_Name (λ v f, f <| rf_Name := v |>);
    field_at "sha256" text_field rf_SHA256 (λ v f, f <| rf_SHA256 := v |>);
    field_at "size" (int_field 64) rf_Size (λ v f, f <| rf_Size := v |>);
    field_at "mode" (uint_field 32) rf_Mode (λ v f, f <| rf_Mode := v |>);
    field_at "gid" (uint_field 32) rf_GID (λ v f, f <| rf_GID := v |>)] }.
#[export] Instance receipt_field : Field receiptRecord := {
  to_json r := JObject (member "schema" text_field (r_Schema r) ++ member "role" text_field (r_Role r) ++ member "os" text_field (r_OS r)
    ++ member "arch" text_field (r_Arch r) ++ member "release_id" text_field (r_ReleaseID r)
    ++ member "sequence" (uint_field 64) (r_Sequence r) ++ member "manifest_sha256" text_field (r_ManifestSHA256 r)
    ++ member "files" (slice_field receiptFile_field) (r_Files r) ++ []);
  zero_value := MkReceipt [] [] [] [] [] 0 [] None;
  assign := assign_struct [
    field_at "schema" text_field r_Schema (λ v r, r <| r_Schema := v |>);
    field_at "role" text_field r_Role (λ v r, r <| r_Role := v |>);
    field_at "os" text_field r_OS (λ v r, r <| r_OS := v |>);
    field_at "arch" text_field r_Arch (λ v r, r <| r_Arch := v |>);
    field_at "release_id" text_field r_ReleaseID (λ v r, r <| r_ReleaseID := v |>);
    field_at "sequence" (uint_field 64) r_Sequence (λ v r, r <| r_Sequence := v |>);
    field_at "manifest_sha256" text_field r_ManifestSHA256 (λ v r, r <| r_ManifestSHA256 := v |>);
    field_at "files" (slice_field receiptFile_field) r_Files (λ v r, r <| r_Files := v |>)] }.
#[export] Instance anchor_field : Field packageAnchor := {
  to_json a := JObject (member "schema" text_field (pk_Schema a) ++ member "generation" (uint_field 64) (pk_Generation a)
    ++ member "role" text_field (pk_Role a) ++ member_omitempty "previous_sha256" (PreviousSHA256 a)
    ++ member_omitempty "policy_key_id" (pk_PolicyKeyID a) ++ member_omitempty "policy_sha256" (pk_PolicySHA256 a)
    ++ member_omitempty "release_key_id" (pk_ReleaseKeyID a) ++ member "highest_policy_sequence" (uint_field 64) (HighestPolicySequence a)
    ++ member "minimum_release_sequence" (uint_field 64) (MinimumReleaseSequence a)
    ++ member "minimum_lifecycle" (uint_field 64) (MinimumLifecycle a)
    ++ member "tombstoned_release_ids" (slice_field text_field) (TombstonedReleaseIDs a)
    ++ member "highest_release_sequence" (uint_field 64) (HighestReleaseSequence a)
    ++ member "selector_generation" (uint_field 64) (SelectorGeneration a) ++ member_omitempty "current_release_id" (CurrentReleaseID a)
    ++ member_omitempty "current_receipt_sha256" (pk_CurrentReceiptSHA256 a) ++ member_omitempty "previous_release_id" (PreviousReleaseID a)
    ++ member_omitempty "previous_receipt_sha256" (pk_PreviousReceiptSHA256 a) ++ []);
  zero_value := MkAnchor [] 0 [] [] [] [] [] 0 0 0 None 0 0 [] [] [] [];
  assign := assign_struct [
    field_at "schema" text_field pk_Schema (λ v a, a <| pk_Schema := v |>);
    field_at "generation" (uint_field 64) pk_Generation (λ v a, a <| pk_Generation := v |>);
    field_at "role" text_field pk_Role (λ v a, a <| pk_Role := v |>);
    field_at "previous_sha256" text_field PreviousSHA256 (λ v a, a <| PreviousSHA256 := v |>);
    field_at "policy_key_id" text_field pk_PolicyKeyID (λ v a, a <| pk_PolicyKeyID := v |>);
    field_at "policy_sha256" text_field pk_PolicySHA256 (λ v a, a <| pk_PolicySHA256 := v |>);
    field_at "release_key_id" text_field pk_ReleaseKeyID (λ v a, a <| pk_ReleaseKeyID := v |>);
    field_at "highest_policy_sequence" (uint_field 64) HighestPolicySequence (λ v a, a <| HighestPolicySequence := v |>);
    field_at "minimum_release_sequence" (uint_field 64) MinimumReleaseSequence (λ v a, a <| MinimumReleaseSequence := v |>);
    field_at "minimum_lifecycle" (uint_field 64) MinimumLifecycle (λ v a, a <| MinimumLifecycle := v |>);
    field_at "tombstoned_release_ids" (slice_field text_field) TombstonedReleaseIDs (λ v a, a <| TombstonedReleaseIDs := v |>);
    field_at "highest_release_sequence" (uint_field 64) HighestReleaseSequence (λ v a, a <| HighestReleaseSequence := v |>);
    field_at "selector_generation" (uint_field 64) SelectorGeneration (λ v a, a <| SelectorGeneration := v |>);
    field_at "current_release_id" text_field CurrentReleaseID (λ v a, a <| CurrentReleaseID := v |>);
    field_at "current_receipt_sha256" text_field pk_CurrentReceiptSHA256 (λ v a, a <| pk_CurrentReceiptSHA256 := v |>);
    field_at "previous_release_id" text_field PreviousReleaseID (λ v a, a <| PreviousReleaseID := v |>);
    field_at "previous_receipt_sha256" text_field pk_PreviousReceiptSHA256 (λ v a, a <| pk_PreviousReceiptSHA256 := v |>)] }.

(** ** Verdicts on strings and modes *)

Definition validRole (role : text) : bool :=
  bool_decide (role ∈ ascii_bytes <$> ["client"; "connector"; "relay"; "provisioner"]).
Definition validReleaseID : text → bool := valid_id.
Definition valid_digest (value : text) : bool :=
  (length value =? 64)%nat && forallb (λ c, digit c || in_range 97 102 c) value.
Definition validToken (value : text) : bool :=
  negb (bool_decide (value = [])) && (Z.of_nat (length value) <=? 128)
  && forallb (λ c, alnum c || bool_decide (c ∈ [Byte.x2e; Byte.x5f; Byte.x2d])) value.
Definition validComponent (value : text) : bool := validToken value && negb (bool_decide (value = dot)) && negb (bool_decide (value = dotdot)).
(** [filepath.Clean] of a relative path. *)
Definition clean_relative_step (out : list text) (c : text) : list text :=
  if bool_decide (c = []) || bool_decide (c = dot) then out
  else if bool_decide (c = dotdot) then
    match list.last out with
    | None => [dotdot]
    | Some l => if bool_decide (l = dotdot) then out ++ [dotdot] else removelast out
    end
  else out ++ [c].
Definition Clean_relative (path : text) : text :=
  match foldl clean_relative_step [] (Split slash path) with [] => dot | out => Runes.Join slash out end.
Definition valid_relative_path (value : text) : bool :=
  negb (bool_decide (value = []) || (512 <? Z.of_nat (length value)) || bool_decide (list.head value = Some slash)
        || negb (bool_decide (Clean_relative value = value)))
  && forallb validComponent (Split slash value).
Definition canonical_absolute (path : text) : bool :=
  negb (bool_decide (path = [])) && IsAbs path && bool_decide (Clean_rooted path = path).

Definition setgid (mode : Z) : bool := negb (Z.land mode ModeSetgid =? 0).
Definition unixInstallMode (mode : Z) : Z := let value := perm_of mode in if setgid mode then Z.lor value 0x400 else value.
Definition decodeInstallMode (mode : Z) : Z :=
  let value := Z.land mode 0x1ff in if negb (Z.land mode 0x400 =? 0) then Z.lor value ModeSetgid else value.
(** 0600, 0644, 0700, 0750, 0755, 02750, 02751 *)
Definition validInstallMode (mode : Z) : bool :=
  bool_decide (unixInstallMode mode ∈ [0x180; 0x1a4; 0x1c0; 0x1e8; 0x1ed; 0x5e8; 0x5e9]).

(** ** Decisions: [decision.go] *)

Definition evidenceDecisionFile (e : Evidence) (installName : text) (gid : Z) : decisionFile := {|
  df_ArtifactName := e_Name e; SourcePath := e_File e; InstallName := installName; df_SHA256 := e_SHA256 e; df_Size := e_Size e;
  df_Mode := 0x1a4; df_GID := gid |}.
Definition artifactDecisionFile (a : Artifact) (installName : text) (mode gid : Z) : decisionFile := {|
  df_ArtifactName := a_Name a; SourcePath := a_File a; InstallName := installName; df_SHA256 := a_SHA256 a; df_Size := a_Size a;
  df_Mode := mode; df_GID := gid |}.
(** The name, mode, group and need of a lifecycle executable of the role's artifact. *)
Definition primaryInstallProfile (a : Artifact) (ownerGID readerGID : Z) : result package_err (text * Z * Z * bool) :=
  let executable := bool_decide (a_Format a = ArtifactFormatExecutable) in
  if equals (a_Role a) "client" then
    reject negb executable || (readerGID =? 0) with PrimaryProfile;;
    if equals (a_OS a) "darwin" then Ok (ascii_bytes "owntransit-real", 0x1e8, readerGID, true)
    else Ok (ascii_bytes "owntransit", 0x1ed, ownerGID, true)
  else if equals (a_Role a) "connector" then
    reject negb executable || (readerGID =? 0) with PrimaryProfile;;
    Ok (ascii_bytes "owntransit-connector", 0x1e8, readerGID, true)
  else if equals (a_Role a) "relay" then
    reject negb (bool_decide (a_Format a = ArtifactFormatOCI)) with PrimaryProfile;;
    Ok (ascii_bytes "owntransit-relay.oci.tar", 0x180, ownerGID, true)
  else if equals (a_Role a) "provisioner" then
    reject negb executable with PrimaryProfile;;
    Ok (ascii_bytes "owntransit-provision", 0x1ed, ownerGID, true)
  else Err PrimaryProfile.

Definition bad_decision_file (f : decisionFile) : bool :=
  negb (validToken (df_ArtifactName f)) || negb (valid_relative_path (SourcePath f)) || negb (validComponent (InstallName f))
  || negb (valid_digest (df_SHA256 f)) || (df_Size f <=? 0) || (maximumSize <? df_Size f) || negb (validInstallMode (df_Mode f))
  || setgid (df_Mode f) && (df_GID f =? 0).
Fixpoint validate_files (fs : list decisionFile) (previous : option text) : result package_err () :=
  match fs with
  | [] => Ok ()
  | f :: fs =>
      reject bad_decision_file f with FileRecord;;
      reject bool_decide (InstallName f = receiptFileName) || bool_decide (InstallName f = receiptStageName) with FileReserved;;
      reject match previous with Some p => text_leb (InstallName f) p | None => false end with FileOrder;;
      validate_files fs (Some (InstallName f))
  end.
Definition validateDecisionFiles (fs : list decisionFile) : result package_err () :=
  reject bool_decide (fs = []) || (maximumFileCount <? length fs)%nat with FileSet;;
  validate_files fs None.
#[export] Instance decisionFile_eq_dec : EqDecision decisionFile.
Proof. solve_decision. Defined.

(** [validateDecision] *)
Definition anchor_binding (policy before target : text) : bool :=
  bool_decide (policy = []) && bool_decide (before = []) && bool_decide (target = [])
  || valid_digest policy && valid_digest before && valid_digest target && negb (bool_decide (before = target)).
Definition validateDecision (d : decision) : result package_err () :=
  reject negb (bool_decide (seal d = decisionSeal))
      || negb (bool_decide (operation d = operationInstall)) && negb (bool_decide (operation d = operationRollback))
      || negb (validRole (dec_role d)) || negb (validReleaseID (releaseID d)) || (sequence d =? 0) || negb (valid_digest (manifestSHA256 d))
      || negb (validToken (dec_os d)) || negb (validToken (dec_arch d)) with ErrInvalidDecision;;
  reject (if bool_decide (operation d = operationInstall) then negb (canonical_absolute (bundleRoot d)) else negb (bool_decide (bundleRoot d = [])))
    with ErrInvalidDecision;;
  reject negb (anchor_binding (policySHA256 d) (anchorBefore d) (anchorTarget d)) with ErrInvalidDecision;;
  match validateDecisionFiles (files d) with Ok _ => Ok () | Err _ => Err ErrInvalidDecision end.

(** [verifyDecision] *)
Record verification := {
  BundleRoot : text; ManifestBytes : list byte; v_Signature : list byte; ReleaseKey : list byte; v_InstallPolicy : InstallPolicy;
  LocalOS : text; LocalArch : text; OwnerGID : Z; ReaderGID : Z }.
Definition matching (role : string) (selected : Artifact) (a : Artifact) : bool :=
  equals (a_Role a) role && bool_decide (a_OS a = a_OS selected) && bool_decide (a_Arch a = a_Arch selected).
(** The one executable artifact of a role for the platform of [selected]. *)
Definition lifecycle_of (artifacts : list Artifact) (selected : Artifact) : result package_err Artifact :=
  match List.filter (matching "lifecycle" selected) artifacts with
  | [] => Err LifecycleAbsent
  | [a] => reject negb (bool_decide (a_Format a = ArtifactFormatExecutable)) with LifecycleFormat;; Ok a
  | _ => Err LifecycleDuplicate
  end.
Definition launcher_of (artifacts : list Artifact) (selected : Artifact) : result package_err Artifact :=
  match List.filter (matching "launcher" selected) artifacts with
  | [] => Err LauncherAbsent
  | [a] => reject negb (bool_decide (a_Format a = ArtifactFormatExecutable)) with LauncherAbsent;; Ok a
  | _ => Err LauncherDuplicate
  end.
Definition license_of (evidence : list Evidence) (name kind : string) : result package_err Evidence :=
  match evidenceByName evidence (ascii_bytes name) with
  | Some e => reject negb (equals (e_Kind e) kind) with EvidenceIncomplete;; Ok e
  | None => Err EvidenceIncomplete
  end.
Definition install_name_le (f g : decisionFile) : Prop := text_leb (InstallName f) (InstallName g) = true.
#[export] Instance install_name_le_dec : RelDecision install_name_le.
Proof. intros f g. unfold install_name_le. apply _. Defined.
(** The files of a decision, from the verified manifest and the selected artifact. *)
Definition decision_files (m : Manifest) (selected : Artifact) (ownerGID readerGID : Z) : result package_err (list decisionFile) :=
  let artifacts := elems (m_Artifacts m) in
  let evidence := elems (m_Evidence m) in
  '(name, mode, gid, needsLifecycle) ← primaryInstallProfile selected ownerGID readerGID;
  let primary := [artifactDecisionFile selected name mode gid] in
  let proxy := if equals (a_Role selected) "client" && equals (a_OS selected) "linux"
               then [artifactDecisionFile selected (ascii_bytes "owntransit-proxy") (Z.lor ModeSetgid 0x1e8) readerGID] else [] in
  lifecycle ← (if needsLifecycle : bool
               then a ← lifecycle_of artifacts selected; Ok [artifactDecisionFile a (ascii_bytes "owntransitctl") 0x1c0 ownerGID]
               else Ok []);
  launcher ← (if equals (a_Role selected) "client" && equals (a_OS selected) "darwin"
              then a ← launcher_of artifacts selected; Ok [artifactDecisionFile a (ascii_bytes "owntransit") (Z.lor ModeSetgid 0x1e9) readerGID]
              else Ok []);
  project ← license_of evidence "project-license" "project-license";
  third ← license_of evidence "third-party-licenses" "licenses";
  let fs := merge_sort install_name_le (primary ++ proxy ++ lifecycle ++ launcher
              ++ [evidenceDecisionFile project (ascii_bytes "LICENSE") ownerGID;
                  evidenceDecisionFile third (ascii_bytes "THIRD_PARTY_LICENSES.txt") ownerGID]) in
  _ ← validateDecisionFiles fs;
  Ok fs.
(** The platform of the process is an argument. *)
Definition verifyDecision (x : release_env) (goos goarch : text) (input : verification) : IO (result package_err decision) :=
  refuse negb (canonical_absolute (BundleRoot input)) || bool_decide (BundleRoot input = [slash]) with BundleRootInvalid;;
  r ← VerifyBundleForInstall x (BundleRoot input) (ManifestBytes input) (v_Signature input) (ReleaseKey input) (v_InstallPolicy input);
  match r with
  | Err e => mret (Err (PBundle e))
  | Ok (bundle, selected) =>
      let m := vb_Manifest bundle in
      let localOS := if bool_decide (LocalOS input = []) then goos else LocalOS input in
      let localArch := if bool_decide (LocalArch input = []) then goarch else LocalArch input in
      refuse negb (bool_decide (a_OS selected = localOS)) || negb (bool_decide (a_Arch selected = localArch)) with PlatformMismatch;;
      mret (fs ← decision_files m selected (OwnerGID input) (ReaderGID input);
            Ok {| seal := decisionSeal; operation := operationInstall; bundleRoot := BundleRoot input; releaseID := m_ReleaseID m;
                  sequence := m_Sequence m; manifestSHA256 := hex_encode (Sum256 (ManifestBytes input)); dec_role := a_Role selected;
                  dec_os := a_OS selected; dec_arch := a_Arch selected; files := fs; anchorBefore := []; anchorTarget := [];
                  policySHA256 := [] |})
  end.

(** ** Records: validation and canonical bytes *)

Definition bad_selector (s : selectorRecord) : bool :=
  negb (bool_decide (sel_Schema s = selectorSchema))
  || if Generation s =? 0 then
       negb (bool_decide (Current s = [])) || negb (bool_decide (CurrentReceiptSHA256 s = [])) || negb (bool_decide (Previous s = []))
       || negb (bool_decide (PreviousReceiptSHA256 s = []))
     else
       negb (validReleaseID (Current s)) || negb (valid_digest (CurrentReceiptSHA256 s))
       || negb (Bool.eqb (bool_decide (Previous s = [])) (bool_decide (PreviousReceiptSHA256 s = [])))
       || negb (bool_decide (Previous s = []))
          && (negb (validReleaseID (Previous s)) || negb (valid_digest (PreviousReceiptSHA256 s)) || bool_decide (Previous s = Current s)).
Definition validateSelector (s : selectorRecord) : result package_err () := reject bad_selector s with SelectorInvalid;; Ok ().
Definition known_phase (p : journalPhase) : bool := match p with OtherPhase _ => false | _ => true end.
Definition known_operation (o : decisionOperation) : bool := match o with OtherOperation _ => false | _ => true end.
Definition validJournalAnchorBinding (j : journalRecord) : bool := anchor_binding (PolicySHA256 j) (AnchorBeforeSHA256 j) (AnchorTargetSHA256 j).
Definition validateJournal (j : journalRecord) : result package_err () :=
  reject negb (bool_decide (j_Schema j = journalSchema)) || negb (known_phase (Phase j)) || negb (known_operation (Operation j))
      || negb (validRole (j_Role j)) || negb (validReleaseID (j_ReleaseID j)) || (j_Sequence j =? 0)
      || negb (valid_digest (j_ManifestSHA256 j)) || negb (valid_digest (ReceiptSHA256 j))
      || bad_selector (Before j) || bad_selector (Target j)
      || negb (Generation (Target j) =? wrapu64 (Generation (Before j) + 1)) || negb (bool_decide (Current (Target j) = j_ReleaseID j))
      || negb (bool_decide (CurrentReceiptSHA256 (Target j) = ReceiptSHA256 j)) || negb (validJournalAnchorBinding j) with ErrResidue;;
  reject (if bool_decide (Operation j = operationInstall) then
            negb (bool_decide (Previous (Target j) = Current (Before j)))
            || negb (bool_decide (PreviousReceiptSHA256 (Target j) = CurrentReceiptSHA256 (Before j)))
            || negb (bool_decide (RetiredReleaseID j = Previous (Before j)))
            || negb (bool_decide (RetiredReceiptSHA256 j = PreviousReceiptSHA256 (Before j)))
          else
            bool_decide (Previous (Before j) = []) || negb (bool_decide (Current (Target j) = Previous (Before j)))
            || negb (bool_decide (CurrentReceiptSHA256 (Target j) = PreviousReceiptSHA256 (Before j)))
            || negb (bool_decide (Previous (Target j) = Current (Before j)))
            || negb (bool_decide (PreviousReceiptSHA256 (Target j) = CurrentReceiptSHA256 (Before j)))
            || negb (bool_decide (RetiredReleaseID j = [])) || negb (bool_decide (RetiredReceiptSHA256 j = []))) with ErrResidue;;
  reject negb (Bool.eqb (bool_decide (RetiredReleaseID j = [])) (bool_decide (RetiredReceiptSHA256 j = [])))
      || negb (bool_decide (RetiredReleaseID j = [])) && (negb (validReleaseID (RetiredReleaseID j)) || negb (valid_digest (RetiredReceiptSHA256 j)))
    with ErrResidue;;
  Ok ().
Definition bad_receipt_file (f : receiptFile) : bool :=
  negb (validToken (rf_ArtifactName f)) || negb (validComponent (rf_Name f)) || bool_decide (rf_Name f = receiptFileName)
  || bool_decide (rf_Name f = receiptStageName) || negb (valid_digest (rf_SHA256 f)) || (rf_Size f <=? 0) || (maximumSize <? rf_Size f)
  || negb (validInstallMode (decodeInstallMode (rf_Mode f))) || negb (Z.land (rf_Mode f) 0x400 =? 0) && (rf_GID f =? 0).
Fixpoint validate_receipt_files (fs : list receiptFile) (previous : option text) : result package_err () :=
  match fs with
  | [] => Ok ()
  | f :: fs =>
      reject bad_receipt_file f with ReceiptFileInvalid;;
      reject match previous with Some p => text_leb (rf_Name f) p | None => false end with ReceiptOrder;;
      validate_receipt_files fs (Some (rf_Name f))
  end.
Definition validateReceipt (r : receiptRecord) : result package_err () :=
  reject negb (bool_decide (r_Schema r = receiptSchema)) || negb (validRole (r_Role r)) || negb (validToken (r_OS r))
      || negb (validToken (r_Arch r)) || negb (validReleaseID (r_ReleaseID r)) || (r_Sequence r =? 0)
      || negb (valid_digest (r_ManifestSHA256 r)) || (length (elems (r_Files r)) =? 0)%nat || (maximumFileCount <? length (elems (r_Files r)))%nat
    with ReceiptInvalid;;
  validate_receipt_files (elems (r_Files r)) None.

Definition empty_anchor_fields (a : packageAnchor) : bool :=
  bool_decide (PreviousSHA256 a = []) && bool_decide (pk_PolicyKeyID a = []) && bool_decide (pk_PolicySHA256 a = [])
  && bool_decide (pk_ReleaseKeyID a = []) && (HighestPolicySequence a =? 0) && (MinimumReleaseSequence a =? 0) && (MinimumLifecycle a =? 0)
  && bool_decide (elems (TombstonedReleaseIDs a) = []) && (HighestReleaseSequence a =? 0) && (SelectorGeneration a =? 0)
  && bool_decide (CurrentReleaseID a = []) && bool_decide (pk_CurrentReceiptSHA256 a = []) && bool_decide (PreviousReleaseID a = [])
  && bool_decide (pk_PreviousReceiptSHA256 a = []).
Definition validatePackageAnchor (a : packageAnchor) : result package_err () :=
  reject negb (bool_decide (pk_Schema a = packageAnchorSchema)) || negb (validRole (pk_Role a)) with AnchorInvalid;;
  if pk_Generation a =? 0 then reject negb (empty_anchor_fields a) with AnchorInvalid;; Ok ()
  else
    reject negb (valid_digest (PreviousSHA256 a)) || negb (valid_digest (pk_PolicySHA256 a)) || negb (is_ok (ValidateKeyID (pk_PolicyKeyID a)))
        || negb (is_ok (ValidateKeyID (pk_ReleaseKeyID a))) || (HighestPolicySequence a =? 0) || (MinimumReleaseSequence a =? 0)
        || (MinimumLifecycle a =? 0) || (HighestReleaseSequence a =? 0) || (SelectorGeneration a =? 0)
        || negb (validReleaseID (CurrentReleaseID a)) || negb (valid_digest (pk_CurrentReceiptSHA256 a)) with AnchorInvalid;;
    reject negb (Bool.eqb (bool_decide (PreviousReleaseID a = [])) (bool_decide (pk_PreviousReceiptSHA256 a = []))) with AnchorInvalid;;
    reject negb (bool_decide (PreviousReleaseID a = []))
        && (negb (validReleaseID (PreviousReleaseID a)) || negb (valid_digest (pk_PreviousReceiptSHA256 a))
            || bool_decide (PreviousReleaseID a = CurrentReleaseID a)) with AnchorInvalid;;
    reject (maximumTombstones <? length (elems (TombstonedReleaseIDs a)))%nat with AnchorInvalid;;
    reject negb (is_ok (validate_tombstones (elems (TombstonedReleaseIDs a)) None)) with AnchorInvalid;;
    Ok ().

Definition encodeCanonical {A} (F : Field A) (a : A) : result package_err (list byte) :=
  let encoded := Marshal F a ++ [newline] in
  reject maximumMetadataSize <? Z.of_nat (length encoded) with MetadataSize;;
  Ok encoded.
Definition decodeCanonical {A} (F : Field A) (encoder : A → result package_err (list byte)) (encoded : list byte) : result package_err A :=
  reject bool_decide (encoded = []) || (maximumMetadataSize <? Z.of_nat (length encoded)) with MetadataSize;;
  match Decode F encoded with
  | None => Err MetadataDecode
  | Some a =>
      reencoded ← encoder a;
      reject negb (bool_decide (encoded = reencoded)) with MetadataNotCanonical;;
      Ok a
  end.
Definition encodeSelector (s : selectorRecord) : result package_err (list byte) := _ ← validateSelector s; encodeCanonical selector_field s.
Definition encodeJournal (j : journalRecord) : result package_err (list byte) := _ ← validateJournal j; encodeCanonical journal_field j.
Definition encodeReceipt (r : receiptRecord) : result package_err (list byte) := _ ← validateReceipt r; encodeCanonical receipt_field r.
Definition encodePackageAnchor (a : packageAnchor) : result package_err (list byte) := _ ← validatePackageAnchor a; encodeCanonical anchor_field a.
Definition digestBytes (contents : list byte) : text := hex_encode (Sum256 contents).
Definition digestPackageAnchor (a : packageAnchor) : text := match encodePackageAnchor a with Ok encoded => digestBytes encoded | Err _ => [] end.
Definition emptySelector : selectorRecord := MkSelector selectorSchema 0 [] [] [] [].
Definition emptyPackageAnchor (role : text) : packageAnchor := MkAnchor packageAnchorSchema 0 role [] [] [] [] 0 0 0 None 0 0 [] [] [] [].

(** ** Decisions and receipts *)

Definition receipt_of (d : decision) : receiptRecord := {|
  r_Schema := receiptSchema; r_Role := dec_role d; r_OS := dec_os d; r_Arch := dec_arch d; r_ReleaseID := releaseID d;
  r_Sequence := sequence d; r_ManifestSHA256 := manifestSHA256 d;
  r_Files := Some ((λ f, {| rf_ArtifactName := df_ArtifactName f; rf_Name := InstallName f; rf_SHA256 := df_SHA256 f; rf_Size := df_Size f;
                            rf_Mode := unixInstallMode (df_Mode f); rf_GID := df_GID f |}) <$> files d) |}.
Definition receiptForDecision (d : decision) : result package_err (receiptRecord * list byte * text) :=
  let receipt := receipt_of d in
  encoded ← encodeReceipt receipt;
  Ok (receipt, encoded, digestBytes encoded).
Definition unavailable_bundle : text := ascii_bytes "/unavailable-after-authenticated-staging".
Definition decisionFromReceipt (o : decisionOperation) (r : receiptRecord) (before target policy : text) : result package_err decision :=
  _ ← validateReceipt r;
  let d := {|
    seal := decisionSeal; operation := o; bundleRoot := if bool_decide (o = operationInstall) then unavailable_bundle else [];
    releaseID := r_ReleaseID r; sequence := r_Sequence r; manifestSHA256 := r_ManifestSHA256 r; dec_role := r_Role r; dec_os := r_OS r;
    dec_arch := r_Arch r;
    files := (λ f, {| df_ArtifactName := rf_ArtifactName f; SourcePath := rf_Name f; InstallName := rf_Name f; df_SHA256 := rf_SHA256 f;
                      df_Size := rf_Size f; df_Mode := decodeInstallMode (rf_Mode f); df_GID := rf_GID f |}) <$> elems (r_Files r);
    anchorBefore := before; anchorTarget := target; policySHA256 := policy |} in
  _ ← validateDecision d;
  Ok d.
Definition rollbackDecisionFromReceipt (r : receiptRecord) (before target policy : text) : result package_err decision :=
  decisionFromReceipt operationRollback r before target policy.
Definition journalMatchesDecision (j : journalRecord) (d : decision) (receiptDigest : text) : bool :=
  bool_decide (j_Schema j = journalSchema) && bool_decide (Operation j = operation d) && bool_decide (j_Role j = dec_role d)
  && bool_decide (j_ReleaseID j = releaseID d) && (j_Sequence j =? sequence d) && bool_decide (j_ManifestSHA256 j = manifestSHA256 d)
  && bool_decide (ReceiptSHA256 j = receiptDigest) && bool_decide (PolicySHA256 j = policySHA256 d)
  && bool_decide (AnchorBeforeSHA256 j = anchorBefore d) && bool_decide (AnchorTargetSHA256 j = anchorTarget d).

(** ** The runtime of a receipt: [runtime_identity_unix.go] *)

Definition artifactNameForRole (role goos goarch : text) : result package_err text :=
  let platform := role ++ [slash] ++ goos ++ [slash] ++ goarch in
  match list_find (λ name : string, platform = ascii_bytes name)
    ["client/darwin/arm64"; "client/linux/amd64"; "client/linux/arm64"; "connector/linux/amd64"; "connector/linux/arm64"; "relay/linux/amd64";
     "relay/linux/arm64"; "provisioner/darwin/arm64"; "provisioner/linux/amd64"; "provisioner/linux/arm64"] with
  | Some _ => Ok ((λ c, if bool_decide (c = slash) then Byte.x2d else c) <$> platform)
  | None => Err RolePlatform
  end.
Fixpoint artifact_digest (fs : list receiptFile) (name digest : text) : result package_err text :=
  match fs with
  | [] => Ok digest
  | f :: fs =>
      if negb (bool_decide (rf_ArtifactName f = name)) then artifact_digest fs name digest
      else reject negb (bool_decide (digest = [])) && negb (bool_decide (digest = rf_SHA256 f)) with RuntimeAbsent;;
           artifact_digest fs name (rf_SHA256 f)
  end.
Fixpoint launcher_digest (fs : list receiptFile) (digest : text) : result package_err text :=
  match fs with
  | [] => Ok digest
  | f :: fs =>
      if negb (equals (rf_ArtifactName f) "launcher-darwin-arm64") then launcher_digest fs digest
      else reject negb (bool_decide (digest = [])) || negb (equals (rf_Name f) "owntransit") || negb (rf_Mode f =? 0x5e9) || (rf_GID f =? 0)
             with RuntimeAbsent;;
           launcher_digest fs (rf_SHA256 f)
  end.
Definition runtimeIdentityFromReceipt (r : receiptRecord) : result package_err RuntimeIdentity :=
  name ← artifactNameForRole (r_Role r) (r_OS r) (r_Arch r);
  artifact ← artifact_digest (elems (r_Files r)) name [];
  reject negb (valid_digest artifact) with RuntimeAbsent;;
  launcher ← (if equals (r_Role r) "client" && equals (r_OS r) "darwin" && equals (r_Arch r) "arm64"
              then d ← launcher_digest (elems (r_Files r)) []; reject negb (valid_digest d) with RuntimeAbsent;; Ok d
              else Ok []);
  Ok {| ReleaseID := r_ReleaseID r; ReleaseSequence := r_Sequence r; ArtifactSHA256 := artifact; LauncherSHA256 := launcher;
        ri_OS := r_OS r; ri_Arch := r_Arch r; ri_Role := r_Role r |}.
