(* ===== verification/PackageStorage.v ===== *)
(** * Package transactions: storage

    [storage_unix.go], [acl_linux.go], [running_unix.go] and the file operations of
    [transaction_unix.go] of [internal/packagetxn], as programs over [Syscalls]. The access
    control lists are those of Linux; the manager has no lock hook. *)

From S2P Require Import Prelude GoIO Text Runes Sha256 Base64 Protocol Identifiers Signing Invitation StrictJson Syscalls SecureFS Release ReleaseBundle PackageData.

(** [Manager]: an open one, by its descriptors and its configuration. *)
Record Manager := {
  rootFD : Z; rootDevice : Z; anchorFD : Z; anchorDevice : Z; hasAnchor : bool; role : text; ownerUID : Z; ownerGID : Z; readerGID : Z;
  platformOS : text; platformArch : text; rootPath : text; enforceExecutablePath : bool }.

Definition pcall (c : syscall) : IO (result package_err reply) :=
  r ← sys c; mret (match r_errno r with Some e => Err (PErrno e) | None => Ok r end).
Definition pfailing {A} (c : syscall) (e : package_err) : IO (result package_err A) := _ ← ignore c; mret (Err e).
(** A check whose failure closes a descriptor. *)
Definition pguard {A} (fd : Z) (m : IO (result package_err A)) : IO (result package_err A) :=
  r ← m; match r with Ok a => mret (Ok a) | Err e => pfailing (Close fd) e end.
(** [defer]: the close of a descriptor, then an unlink unless the file was published. *)
Definition finish {A} (fd : Z) (unlink : option syscall) (r : result package_err A) : IO (result package_err A) :=
  _ ← ignore (Close fd);
  _ ← match unlink with Some c => ignore c | None => mret () end;
  mret r.

(** ** Access control lists: [verifyPackageACL] *)

Definition acl_name (name : text) : bool := Contains (ToLower name) (ascii_bytes "acl").
Fixpoint acl_attempts (n : nat) (fd : Z) : IO (result package_err ()) :=
  match n with
  | O => mret (Err ACLDenied)
  | S n =>
      must r := pcall (Flistxattr fd 0);;
      let size := r_number r in
      if size =? 0 then mret (Ok ())
      else
        a ← sys (Flistxattr fd size);
        match r_errno a with
        | Some ERANGE => acl_attempts n fd
        | Some e => mret (Err (PErrno e))
        | None =>
            refuse (r_number a <? 0) || (size <? r_number a) with ACLDenied;;
            refuse existsb acl_name (Split Byte.x00 (take (Z.to_nat (r_number a)) (r_data a))) with ACLDenied;;
            mret (Ok ())
        end
  end.
Definition verifyPackageACL (fd : Z) : IO (result package_err ()) := acl_attempts 4 fd.

(** ** Directories *)

Definition requireProtectedAncestor (fd uid gid : Z) : IO (result package_err ()) :=
  must r := pcall (Fstat fd);;
  let st := r_stat r in
  refuse negb (mode_type st =? S_IFDIR) || negb (st_Uid st =? uid) || negb (st_Gid st =? gid) || others_write st with DirectoryUnprotected;;
  verifyPackageACL fd.
Definition requireDirectory (fd uid gid mode : Z) : IO (result package_err ()) :=
  must r := pcall (Fstat fd);;
  let st := r_stat r in
  refuse negb (mode_type st =? S_IFDIR) || negb (st_Uid st =? uid) || negb (st_Gid st =? gid) || negb (mode_bits st =? mode) with ErrResidue;;
  verifyPackageACL fd.

Fixpoint root_chain (fd uid gid : Z) (strict : bool) (components : list text) : IO (result package_err Z) :=
  match components with
  | [] => mret (Ok fd)
  | c :: rest =>
      next ← sys (Openat fd c directory_flags 0);
      _ ← ignore (Close fd);
      match r_errno next with
      | Some e => mret (Err (PErrno e))
      | None =>
          let fd := r_number next in
          must _ := (if strict || bool_decide (rest = []) then pguard fd (requireProtectedAncestor fd uid gid) else mret (Ok ()));;
          root_chain fd uid gid strict rest
      end
  end.
Definition openRootChain (path : text) (uid gid finalMode : Z) (strict : bool) : IO (result package_err Z) :=
  must r := pcall (OpenRootDir directory_flags);;
  must _ := (if strict then pguard (r_number r) (requireProtectedAncestor (r_number r) uid gid) else mret (Ok ()));;
  must fd := root_chain (r_number r) uid gid strict (Split slash (default path (CutPrefix path [slash])));;
  must _ := pguard fd (requireDirectory fd uid gid finalMode);;
  mret (Ok fd).

Definition ensureDirectory (parent : Z) (name : text) (uid gid mode expectedDevice : Z) : IO (result package_err Z) :=
  refuse negb (validComponent name) with DirectoryName;;
  m ← sys (Mkdirat parent name 0x1c0);
  match r_errno m with
  | None | Some EEXIST =>
      let created := bool_decide (r_errno m = None) in
      must r := pcall (Openat parent name directory_flags 0);;
      let fd := r_number r in
      must _ := (if created
                 then must _ := pguard fd (pcall (Fchown fd uid gid));; must _ := pguard fd (pcall (Fchmod fd mode));; mret (Ok ())
                 else mret (Ok ()));;
      must _ := pguard fd (requireDirectory fd uid gid mode);;
      must st := pguard fd (pcall (Fstat fd));;
      must _ := (if st_Dev (r_stat st) =? expectedDevice then mret (Ok ()) else pfailing (Close fd) ErrResidue);;
      must _ := (if created
                 then must _ := pguard fd (pcall (Fsync fd));; must _ := pguard fd (pcall (Fsync parent));; mret (Ok ())
                 else mret (Ok ()));;
      mret (Ok fd)
  | Some e => mret (Err (PErrno e))
  end.
Definition ensurePrivateDirectory (parent : Z) (name : text) (uid gid expectedDevice : Z) : IO (result package_err Z) :=
  ensureDirectory parent name uid gid 0x1c0 expectedDevice.
Definition packageDirectoryProfile (m : Manager) : Z * Z :=
  if equals (role m) "provisioner" && equals (platformOS m) "linux" then (ownerGID m, 0x1ed) else (readerGID m, 0x1e8).
Definition ensurePackageDirectory (parent : Z) (name : text) (m : Manager) : IO (result package_err Z) :=
  let '(gid, mode) := packageDirectoryProfile m in ensureDirectory parent name (ownerUID m) gid mode (rootDevice m).
Definition requirePackageDirectory (fd : Z) (m : Manager) : IO (result package_err ()) :=
  let '(gid, mode) := packageDirectoryProfile m in requireDirectory fd (ownerUID m) gid mode.

(** [os.File.ReadDir] of a second descriptor. *)
Definition directoryNames (directory : Z) : IO (result package_err (list text)) :=
  must r := pcall (Openat directory dot directory_flags 0);;
  deferring (ignore (Close (r_number r)))
    (must entries := pcall (ReadDir (r_number r));;
     mret (Ok (sort_strings (r_names entries)))).
Definition requireAllowedDirectoryEntries (directory : Z) (allowed : gset text) : IO (result package_err ()) :=
  must names := directoryNames directory;;
  refuse existsb (λ n, negb (bool_decide (n ∈ allowed))) names with ErrResidue;;
  mret (Ok ()).

(** ** Regular files *)

Definition regular (st : Stat_t) (links uid gid mode : Z) : bool :=
  (mode_type st =? S_IFREG) && (st_Nlink st =? links) && (st_Uid st =? uid) && (st_Gid st =? gid) && (mode_bits st =? mode).
Definition requireRegularFile (fd uid gid mode exactSize : Z) : IO (result package_err Stat_t) :=
  must r := pcall (Fstat fd);;
  let st := r_stat r in
  refuse negb (regular st 1 uid gid mode) || (0 <=? exactSize) && negb (st_Size st =? exactSize) with ErrResidue;;
  must _ := verifyPackageACL fd;;
  mret (Ok st).
Definition same_inode (s t : Stat_t) : bool := (st_Dev s =? st_Dev t) && (st_Ino s =? st_Ino t).

(** A read loop with a buffer of [buffer] bytes and a limit on what is collected: [readFD] and
    [hashExactFD]. *)
Fixpoint read_loop (fd buffer limit : Z) (contents : list byte) (s : list reply)
    : list event * list reply * option (result package_err (list byte)) :=
  match s with
  | [] => ([], [], None)
  | r :: s =>
      let e := (Read fd buffer, r) in
      match r_errno r with
      | Some EINTR => let '(t, s, o) := read_loop fd buffer limit contents s in (e :: t, s, o)
      | Some x => ([e], s, Some (Err (PErrno x)))
      | None =>
          if limit <? Z.of_nat (length contents) + Z.of_nat (length (r_data r)) then ([e], s, Some (Err ReadLimit))
          else if bool_decide (r_data r = []) then ([e], s, Some (Ok contents))
          else let '(t, s, o) := read_loop fd buffer limit (contents ++ r_data r) s in (e :: t, s, o)
      end
  end.
Definition readFD (fd limit : Z) : IO (result package_err (list byte)) :=
  refuse (limit <? 0) || (maximumSize <? limit) with ReadLimit;;
  must _ := pcall (Rewind fd);;
  read_loop fd (32 * 2 ^ 10) limit [].
(** The loop of [securefs]. *)
Definition writeAll (fd : Z) (contents : list byte) : IO (result package_err ()) :=
  r ← SecureFS.writeAll fd contents;
  mret (match r with Ok a => Ok a | Err (FErrno e) => Err (PErrno e) | Err _ => Err ShortWrite end).

Definition open_read_flags : list oflag := [O_RDONLY; O_NONBLOCK; O_NOFOLLOW; O_CLOEXEC].
Definition readOptionalExactFile (directory : Z) (name : text) (mode limit : Z) (m : Manager) : IO (result package_err (option (list byte))) :=
  r ← sys (Openat directory name open_read_flags 0);
  match r_errno r with
  | Some ENOENT => mret (Ok None)
  | Some _ => mret (Err ErrResidue)
  | None =>
      let fd := r_number r in
      deferring (ignore (Close fd))
        (must before := requireRegularFile fd (ownerUID m) (ownerGID m) mode (-1);;
         refuse (st_Size before <? 0) || (limit <? st_Size before) with ErrResidue;;
         must contents := readFD fd limit;;
         must after := requireRegularFile fd (ownerUID m) (ownerGID m) mode (st_Size before);;
         refuse negb (same_inode before after) || negb (Z.of_nat (length contents) =? st_Size after) with ErrResidue;;
         mret (Ok (Some contents)))
  end.

(** *** Stages *)

Definition requireAuthorizedMetadataStage (fd : Z) (m : Manager) : IO (result package_err ()) :=
  must r := pcall (Fstat fd);;
  let st := r_stat r in
  refuse negb (mode_type st =? S_IFREG) || negb (st_Nlink st =? 1) || negb (st_Uid st =? ownerUID m) || negb (st_Gid st =? ownerGID m)
      || negb (Z.ldiff (mode_bits st) 0x180 =? 0) || (st_Size st <? 0) || (maximumMetadataSize <? st_Size st) with ErrResidue;;
  verifyPackageACL fd.
Definition removeAuthorizedStage (directory : Z) (stage : text) (m : Manager) : IO (result package_err ()) :=
  first ← sys (Openat directory stage open_read_flags 0);
  r ← (if bool_decide (r_errno first = Some EACCES)
       then sys (Openat directory stage [O_WRONLY; O_NONBLOCK; O_NOFOLLOW; O_CLOEXEC] 0) else mret first);
  match r_errno r with
  | Some ENOENT => mret (Ok ())
  | Some _ => mret (Err ErrResidue)
  | None =>
      let fd := r_number r in
      deferring (ignore (Close fd))
        (must _ := requireAuthorizedMetadataStage fd m;;
         must _ := pcall (Unlinkat directory stage false);;
         must _ := pcall (Fsync directory);;
         mret (Ok ()))
  end.

(** The stage is written, synced and closed; the descriptor that is left to the deferred close. *)
Definition fill_stage (fd : Z) (contents : list byte) (m : Manager) : IO (Z * result package_err ()) :=
  w ← (must _ := pcall (Fchown fd (ownerUID m) (ownerGID m));;
       must _ := pcall (Fchmod fd 0x180);;
       must _ := requireRegularFile fd (ownerUID m) (ownerGID m) 0x180 0;;
       must _ := writeAll fd contents;;
       must _ := pcall (Fsync fd);;
       mret (Ok ()));
  match w with
  | Err e => mret (fd, Err e)
  | Ok _ => c ← pcall (Close fd); mret (-1, match c with Ok _ => Ok () | Err e => Err e end)
  end.
Definition replaceCanonicalFile (directory : Z) (target stage : text) (contents : list byte) (m : Manager) : IO (result package_err ()) :=
  must _ := removeAuthorizedStage directory stage m;;
  must r := pcall (Openat directory stage create_flags 0x180);;
  f ← fill_stage (r_number r) contents m;
  let '(fd, filled) := f in
  let unlink := Some (Unlinkat directory stage false) in
  match filled with
  | Err e => finish fd unlink (Err e)
  | Ok _ =>
      t ← readOptionalExactFile directory target 0x180 maximumMetadataSize m;
      match t with
      | Err e => finish fd unlink (Err e)
      | Ok _ =>
          renamed ← pcall (Renameat directory stage target);
          match renamed with
          | Err e => finish fd unlink (Err e)
          | Ok _ =>
              synced ← pcall (Fsync directory);
              finish fd None (match synced with Ok _ => Ok () | Err e => Err e end)
          end
      end
  end.

(** *** The active link *)

Definition activeLinkTarget (releaseID : text) : text := releasesDirectory ++ [slash] ++ releaseID.
Definition link_buffer : Z := 512.
Definition S_IFLNK : Z := 0xa000.
Definition readActiveLink (directory : Z) (name : text) (m : Manager) : IO (result package_err (option text)) :=
  r ← sys (Fstatat directory name);
  match r_errno r with
  | Some ENOENT => mret (Ok None)
  | Some _ => mret (Err ErrResidue)
  | None =>
      let st := r_stat r in
      refuse negb (mode_type st =? S_IFLNK) || negb (st_Nlink st =? 1) || negb (st_Uid st =? ownerUID m) || negb (st_Gid st =? ownerGID m)
        with ErrResidue;;
      l ← sys (Readlinkat directory name link_buffer);
      refuse bool_decide (is_Some (r_errno l)) || (r_number l <=? 0) || (r_number l =? link_buffer) with ErrResidue;;
      let target := r_data l in
      match CutPrefix target (releasesDirectory ++ [slash]) with
      | None => mret (Err ErrResidue)
      | Some releaseID =>
          refuse negb (validReleaseID releaseID) || negb (bool_decide (target = activeLinkTarget releaseID)) with ErrResidue;;
          mret (Ok (Some releaseID))
      end
  end.
Definition removeActiveLinkStage (directory : Z) (m : Manager) : IO (result package_err ()) :=
  must exists_ := readActiveLink directory activeLinkStageName m;;
  if bool_decide (exists_ = None) then mret (Ok ())
  else
    must _ := pcall (Unlinkat directory activeLinkStageName false);;
    must _ := pcall (Fsync directory);;
    mret (Ok ()).
(** The link must be there and lead to [releaseID]. *)
Definition active_link_is (directory : Z) (name releaseID : text) (m : Manager) : IO (result package_err ()) :=
  must actual := readActiveLink directory name m;;
  refuse negb (bool_decide (actual = Some releaseID)) with ErrResidue;;
  mret (Ok ()).
Definition unlinking {A} (directory : Z) (m : IO (result package_err A)) : IO (result package_err A) :=
  r ← m;
  match r with Ok a => mret (Ok a) | Err e => pfailing (Unlinkat directory activeLinkStageName false) e end.
Definition replaceActiveLink (directory : Z) (releaseID : text) (m : Manager) : IO (result package_err ()) :=
  refuse negb (validReleaseID releaseID) with ReceiptInvalid;;
  must _ := removeActiveLinkStage directory m;;
  must _ := pcall (Symlinkat (activeLinkTarget releaseID) directory activeLinkStageName);;
  must _ := unlinking directory
    (must _ := pcall (Fchownat directory activeLinkStageName (ownerUID m) (ownerGID m));;
     must _ := active_link_is directory activeLinkStageName releaseID m;;
     must _ := pcall (Fsync directory);;
     must _ := pcall (Renameat directory activeLinkStageName activeLinkName);;
     mret (Ok ()));;
  must _ := pcall (Fsync directory);;
  active_link_is directory activeLinkName releaseID m.

(** ** The role lock *)

Definition normalizeRoleLock (fd uid gid : Z) : IO (result package_err Stat_t) :=
  must r := pcall (Fstat fd);;
  let st := r_stat r in
  let mode := mode_bits st in
  refuse negb (mode_type st =? S_IFREG) || negb (st_Nlink st =? 1) || negb (st_Uid st =? uid) || negb (st_Gid st =? gid)
      || negb (Z.ldiff mode 0x180 =? 0) || negb (st_Size st =? 0) with ErrResidue;;
  must _ := verifyPackageACL fd;;
  must _ := (if mode =? 0x180 then mret (Ok ())
             else must _ := pcall (Fchmod fd 0x180);; must _ := pcall (Fsync fd);; mret (Ok ()));;
  requireRegularFile fd uid gid 0x180 0.
(** The lock file is created, or opened as its mode allows. *)
Definition open_role_lock (directory : Z) (name : text) : IO (result package_err (Z * bool)) :=
  c ← sys (Openat directory name [O_RDWR; O_CREAT; O_EXCL; O_NOFOLLOW; O_CLOEXEC] 0x180);
  match r_errno c with
  | None => mret (Ok (r_number c, true))
  | Some EEXIST =>
      rw ← sys (Openat directory name [O_RDWR; O_NOFOLLOW; O_CLOEXEC; O_NONBLOCK] 0);
      w ← (if bool_decide (r_errno rw = Some EACCES) then sys (Openat directory name [O_WRONLY; O_NOFOLLOW; O_CLOEXEC; O_NONBLOCK] 0) else mret rw);
      r ← (if bool_decide (r_errno w = Some EACCES) then sys (Openat directory name [O_RDONLY; O_NOFOLLOW; O_CLOEXEC; O_NONBLOCK] 0) else mret w);
      mret (match r_errno r with Some e => Err (PErrno e) | None => Ok (r_number r, false) end)
  | Some e => mret (Err (PErrno e))
  end.
(** What is checked, and synced, while the lock is held. *)
Definition check_role_lock (directory : Z) (name : text) (fd uid gid : Z) (created : bool) (before : Stat_t) : IO (result package_err ()) :=
  must s := pcall (Fstatat directory name);;
  let selected := r_stat s in
  refuse negb (mode_type selected =? S_IFREG) || negb (same_inode selected before) with ErrResidue;;
  refuse negb (st_Size before =? 0) with ErrResidue;;
  must _ := (if created : bool then must _ := pcall (Fsync fd);; must _ := pcall (Fsync directory);; mret (Ok ()) else mret (Ok ()));;
  must after := requireRegularFile fd uid gid 0x180 0;;
  refuse negb (same_inode after before) with ErrResidue;;
  mret (Ok ()).
Definition acquireDescriptorLock (directory : Z) (name : text) (uid gid : Z) : IO (result package_err Z) :=
  must opened := open_role_lock directory name;;
  let '(fd, created) := opened in
  pguard fd
    (must _ := (if created : bool
                then must _ := pcall (Fchown fd uid gid);; must _ := pcall (Fchmod fd 0x180);; mret (Ok ()) else mret (Ok ()));;
     must before := normalizeRoleLock fd uid gid;;
     locked ← sys (Flock fd LOCK_EX true);
     match r_errno locked with
     | Some EWOULDBLOCK => mret (Err ErrLocked)
     | Some e => mret (Err (PErrno e))
     | None =>
         r ← check_role_lock directory name fd uid gid created before;
         match r with Ok _ => mret (Ok fd) | Err e => pfailing (Flock fd LOCK_UN false) e end
     end).
(** [descriptorLock.close]; the callers drop its error. *)
Definition close_lock (fd : Z) : IO () := if fd <? 0 then mret () else _ ← ignore (Flock fd LOCK_UN false); ignore (Close fd).

(** ** Installed files *)

Definition payloadStageName (name : text) : text := dot ++ name ++ ascii_bytes ".stage".
Definition openOptionalFile (directory : Z) (name : text) : IO (result package_err (option Z)) :=
  r ← sys (Openat directory name open_read_flags 0);
  mret (match r_errno r with
        | Some ENOENT => Ok None
        | Some _ => Err ErrResidue
        | None => Ok (Some (r_number r))
        end).
Definition hashExactFD (fd expectedSize : Z) : IO (result package_err text) :=
  refuse (expectedSize <=? 0) || (maximumSize <? expectedSize) with ReadLimit;;
  must _ := pcall (Rewind fd);;
  must contents := read_loop fd (64 * 2 ^ 10) expectedSize [];;
  refuse negb (Z.of_nat (length contents) =? expectedSize) with SourceChanged;;
  mret (Ok (digestBytes contents)).
Definition same_file_state (s t : Stat_t) : bool :=
  same_inode s t && (st_Mode s =? st_Mode t) && (st_Size s =? st_Size t) && (st_Nlink s =? st_Nlink t).
Definition verifyOpenInstalledFile (fd mode gid size : Z) (digest : text) (m : Manager) (links : Z) : IO (result package_err ()) :=
  must b := pcall (Fstat fd);;
  let before := r_stat b in
  refuse negb (regular before links (ownerUID m) gid (unixInstallMode mode)) || negb (st_Size before =? size) with ErrResidue;;
  must _ := verifyPackageACL fd;;
  must value := hashExactFD fd size;;
  must a := pcall (Fstat fd);;
  refuse negb (same_file_state before (r_stat a)) with ErrResidue;;
  refuse negb (bool_decide (value = digest)) with ErrResidue;;
  mret (Ok ()).
Definition verifyInstalledFile (directory : Z) (name : text) (mode gid size : Z) (digest : text) (m : Manager) : IO (result package_err ()) :=
  must opened := openOptionalFile directory name;;
  match opened with
  | None => mret (Err ErrResidue)
  | Some fd => deferring (ignore (Close fd)) (verifyOpenInstalledFile fd mode gid size digest m 1)
  end.
Definition verify_record_file (directory : Z) (f : decisionFile) (m : Manager) : IO (result package_err ()) :=
  verifyInstalledFile directory (InstallName f) (df_Mode f) (df_GID f) (df_Size f) (df_SHA256 f) m.

Definition requireAuthorizedPartialStage (fd : Z) (f : decisionFile) (m : Manager) : IO (result package_err ()) :=
  must r := pcall (Fstat fd);;
  let st := r_stat r in
  let mode := mode_bits st in
  refuse negb (mode_type st =? S_IFREG) || negb (st_Nlink st =? 1) || negb (st_Uid st =? ownerUID m) || negb (st_Gid st =? df_GID f)
      || negb (mode =? 0x180) && negb (mode =? unixInstallMode (df_Mode f)) || (st_Size st <? 0) || (df_Size f <? st_Size st) with ErrResidue;;
  verifyPackageACL fd.
Definition close_optional (fd : option Z) : IO () := match fd with Some fd => ignore (Close fd) | None => mret () end.
Definition unlink_stage (directory : Z) (stage : text) : IO (result package_err ()) :=
  must _ := pcall (Unlinkat directory stage false);;
  must _ := pcall (Fsync directory);;
  mret (Ok ()).
(** What an interrupted publication left: the answer says whether the file is in place. *)
Definition recover_opened (releaseFD : Z) (f : decisionFile) (stage : text) (m : Manager) (stageFD finalFD : option Z) : IO (result package_err bool) :=
  match finalFD, stageFD with
  | Some final, Some staged =>
      must s := pcall (Fstat staged);;
      must t := pcall (Fstat final);;
      refuse negb (same_inode (r_stat s) (r_stat t)) || negb (st_Nlink (r_stat s) =? 2) || negb (st_Nlink (r_stat t) =? 2) with ErrResidue;;
      must _ := verifyOpenInstalledFile final (df_Mode f) (df_GID f) (df_Size f) (df_SHA256 f) m 2;;
      must _ := unlink_stage releaseFD stage;;
      must _ := verify_record_file releaseFD f m;;
      mret (Ok true)
  | Some final, None =>
      must _ := verifyOpenInstalledFile final (df_Mode f) (df_GID f) (df_Size f) (df_SHA256 f) m 1;;
      mret (Ok true)
  | None, Some staged =>
      must _ := requireAuthorizedPartialStage staged f m;;
      must _ := unlink_stage releaseFD stage;;
      mret (Ok false)
  | None, None => mret (Ok false)
  end.
Definition recoverPayloadStage (releaseFD : Z) (f : decisionFile) (stage : text) (m : Manager) : IO (result package_err bool) :=
  must stageFD := openOptionalFile releaseFD stage;;
  deferring (close_optional stageFD)
    (must finalFD := openOptionalFile releaseFD (InstallName f);;
     deferring (close_optional finalFD) (recover_opened releaseFD f stage m stageFD finalFD)).

(** *** Sources *)

Definition requireProtectedSourceDirectory (fd : Z) : IO (result package_err ()) :=
  must r := pcall (Fstat fd);;
  refuse negb (mode_type (r_stat r) =? S_IFDIR) || others_write (r_stat r) with DirectoryUnprotected;;
  verifyPackageACL fd.
Definition validFilesystemComponent (c : text) : bool :=
  negb (bool_decide (c = [])) && negb (bool_decide (c = dot)) && negb (bool_decide (c = dotdot)) && (Z.of_nat (length c) <=? 255)
  && negb (bool_decide (Byte.x00 ∈ c)).
Fixpoint bundle_chain (fd : Z) (components : list text) : IO (result package_err Z) :=
  match components with
  | [] => mret (Ok fd)
  | c :: rest =>
      if negb (validFilesystemComponent c) then pfailing (Close fd) SourceInvalid
      else
        next ← sys (Openat fd c directory_flags 0);
        _ ← ignore (Close fd);
        match r_errno next with
        | Some e => mret (Err (PErrno e))
        | None =>
            let fd := r_number next in
            must _ := (if bool_decide (rest = []) then pguard fd (requireProtectedSourceDirectory fd) else mret (Ok ()));;
            bundle_chain fd rest
        end
  end.
Definition openProtectedBundle (path : text) : IO (result package_err Z) :=
  must r := pcall (OpenRootDir directory_flags);;
  bundle_chain (r_number r) (Split slash (default path (CutPrefix path [slash]))).
Fixpoint source_parents (fd : Z) (components : list text) : IO (result package_err Z) :=
  match components with
  | [] => mret (Ok fd)
  | c :: rest =>
      next ← sys (Openat fd c directory_flags 0);
      _ ← ignore (Close fd);
      match r_errno next with
      | Some e => mret (Err (PErrno e))
      | None =>
          must _ := pguard (r_number next) (requireProtectedSourceDirectory (r_number next));;
          source_parents (r_number next) rest
      end
  end.
Definition openProtectedSourceFile (bundleFD : Z) (path : text) (expectedSize : Z) : IO (result package_err Z) :=
  refuse negb (valid_relative_path path) || (expectedSize <=? 0) || (maximumSize <? expectedSize) with SourceInvalid;;
  let components := Split slash path in
  must d := pcall (Dup bundleFD);;
  must directoryFD := source_parents (r_number d) (removelast components);;
  deferring (ignore (Close directoryFD))
    (must r := pcall (Openat directoryFD (List.last components []) open_read_flags 0);;
     let fd := r_number r in
     pguard fd
       (must s := pcall (Fstat fd);;
        let st := r_stat s in
        refuse negb (mode_type st =? S_IFREG) || negb (st_Nlink st =? 1) || negb (st_Size st =? expectedSize) || others_write st with SourceInvalid;;
        must _ := verifyPackageACL fd;;
        mret (Ok fd))).

(** The copy: each chunk is written before the next is read. Every turn takes a reply, so the
    length of the script is enough turns ([copy_turns_enough]). *)
Fixpoint copy_turns (n : nat) (source destination expectedSize : Z) (copied : list byte) : IO (result package_err (list byte)) :=
  match n with
  | O => λ s, ([], s, None)
  | S n =>
      r ← sys (Read source (64 * 2 ^ 10));
      match r_errno r with
      | Some EINTR => copy_turns n source destination expectedSize copied
      | Some e => mret (Err (PErrno e))
      | None =>
          let copied := copied ++ r_data r in
          if bool_decide (r_data r = []) then mret (Ok copied)
          else
            refuse expectedSize <? Z.of_nat (length copied) with SourceChanged;;
            must _ := writeAll destination (r_data r);;
            copy_turns n source destination expectedSize copied
      end
  end.
Definition copy_loop (source destination expectedSize : Z) : IO (result package_err (list byte)) :=
  λ s, copy_turns (S (length s)) source destination expectedSize [] s.
Definition copyAuthenticatedFile (source destination expectedSize : Z) : IO (result package_err text) :=
  must b := pcall (Fstat source);;
  must copied := copy_loop source destination expectedSize;;
  refuse negb (Z.of_nat (length copied) =? expectedSize) with SourceChanged;;
  must a := pcall (Fstat source);;
  refuse negb (same_file_state (r_stat b) (r_stat a)) || negb (st_Nlink (r_stat a) =? 1) with SourceChanged;;
  mret (Ok (digestBytes copied)).

(** *** Publication *)

(** The stage of a payload, filled, checked and closed; the descriptor left to the deferred close. *)
Definition fill_payload (source fd : Z) (f : decisionFile) (m : Manager) : IO (Z * result package_err ()) :=
  w ← (must _ := pcall (Fchown fd (ownerUID m) (df_GID f));;
       must _ := pcall (Fchmod fd 0x180);;
       must _ := requireRegularFile fd (ownerUID m) (df_GID f) 0x180 0;;
       must digest := copyAuthenticatedFile source fd (df_Size f);;
       refuse negb (bool_decide (digest = df_SHA256 f)) with StageDigest;;
       must _ := pcall (Fchmod fd (unixInstallMode (df_Mode f)));;
       must _ := pcall (Fsync fd);;
       must _ := requireRegularFile fd (ownerUID m) (df_GID f) (unixInstallMode (df_Mode f)) (df_Size f);;
       mret (Ok ()));
  match w with
  | Err e => mret (fd, Err e)
  | Ok _ => c ← pcall (Close fd); mret (-1, match c with Ok _ => Ok () | Err e => Err e end)
  end.
(** The link to the final name, then the removal of the stage; [k] runs once it is removed. *)
Definition publish_stage (directory fd : Z) (stage target : text) (filled : result package_err ()) (k : IO (result package_err ()))
    : IO (result package_err ()) :=
  p ← match filled with
      | Err e => mret (Err e)
      | Ok _ =>
          must _ := pcall (Linkat directory stage target);;
          must _ := pcall (Fsync directory);;
          must _ := pcall (Unlinkat directory stage false);;
          mret (Ok ())
      end;
  match p with
  | Err e => finish fd (Some (Unlinkat directory stage false)) (Err e)
  | Ok _ =>
      r ← (must _ := pcall (Fsync directory);; k);
      finish fd None r
  end.
Definition stageAuthenticatedFile (releaseFD bundleFD : Z) (f : decisionFile) (m : Manager) : IO (result package_err ()) :=
  let stage := payloadStageName (InstallName f) in
  must ready := recoverPayloadStage releaseFD f stage m;;
  if ready : bool then mret (Ok ())
  else
    must source := openProtectedSourceFile bundleFD (SourcePath f) (df_Size f);;
    deferring (ignore (Close source))
      (must r := pcall (Openat releaseFD stage create_flags 0x180);;
       filled ← fill_payload source (r_number r) f m;
       publish_stage releaseFD (fst filled) stage (InstallName f) (snd filled) (verify_record_file releaseFD f m)).

Definition receipt_file (contents : list byte) (digest : text) (m : Manager) : decisionFile := {|
  df_ArtifactName := []; SourcePath := []; InstallName := receiptFileName; df_SHA256 := digest; df_Size := Z.of_nat (length contents);
  df_Mode := 0x180; df_GID := ownerGID m |}.
Definition fill_exact (fd : Z) (contents : list byte) (mode : Z) (expectedDigest : text) (m : Manager) : IO (Z * result package_err ()) :=
  w ← (must _ := pcall (Fchown fd (ownerUID m) (ownerGID m));;
       must _ := pcall (Fchmod fd (perm_of mode));;
       must _ := writeAll fd contents;;
       must _ := pcall (Fsync fd);;
       must _ := requireRegularFile fd (ownerUID m) (ownerGID m) (perm_of mode) (Z.of_nat (length contents));;
       refuse negb (bool_decide (digestBytes contents = expectedDigest)) with StageDigest;;
       mret (Ok ()));
  match w with
  | Err e => mret (fd, Err e)
  | Ok _ => c ← pcall (Close fd); mret (-1, match c with Ok _ => Ok () | Err e => Err e end)
  end.
Definition publishExactBytes (directory : Z) (target stage : text) (contents : list byte) (mode : Z) (expectedDigest : text) (m : Manager)
    : IO (result package_err ()) :=
  let f := {| df_ArtifactName := []; SourcePath := []; InstallName := target; df_SHA256 := expectedDigest;
              df_Size := Z.of_nat (length contents); df_Mode := mode; df_GID := ownerGID m |} in
  must ready := recoverPayloadStage directory f stage m;;
  if ready : bool then mret (Ok ())
  else
    must r := pcall (Openat directory stage create_flags 0x180);;
    filled ← fill_exact (r_number r) contents mode expectedDigest m;
    publish_stage directory (fst filled) stage target (snd filled) (mret (Ok ())).

(** ** Release directories *)

Fixpoint verify_receipt_files (releaseFD : Z) (fs : list receiptFile) (m : Manager) : IO (result package_err ()) :=
  match fs with
  | [] => mret (Ok ())
  | f :: fs =>
      must _ := verifyInstalledFile releaseFD (rf_Name f) (decodeInstallMode (rf_Mode f)) (rf_GID f) (rf_Size f) (rf_SHA256 f) m;;
      verify_receipt_files releaseFD fs m
  end.
Definition receipt_names (r : receiptRecord) : gset text := {[receiptFileName]} ∪ list_to_set (rf_Name <$> elems (r_Files r)).
Definition verifyOpenReleaseDirectory (releaseFD : Z) (expected : receiptRecord) (expectedBytes : list byte) (expectedDigest : text) (m : Manager)
    : IO (result package_err ()) :=
  must _ := mret (validateReceipt expected);;
  must canonical := mret (encodeReceipt expected);;
  refuse negb (bool_decide (canonical = expectedBytes)) || negb (bool_decide (digestBytes expectedBytes = expectedDigest)) with ReceiptInvalid;;
  must _ := requireAllowedDirectoryEntries releaseFD (receipt_names expected);;
  must contents := readOptionalExactFile releaseFD receiptFileName 0x180 maximumMetadataSize m;;
  refuse negb (bool_decide (contents = Some expectedBytes)) with ErrResidue;;
  verify_receipt_files releaseFD (elems (r_Files expected)) m.
Definition loadAndVerifyRelease (releasesFD : Z) (releaseID : text) (m : Manager) : IO (result package_err (receiptRecord * list byte * text)) :=
  refuse negb (validReleaseID releaseID) with ErrResidue;;
  opened ← sys (Openat releasesFD releaseID directory_flags 0);
  refuse bool_decide (is_Some (r_errno opened)) with ErrResidue;;
  let releaseFD := r_number opened in
  deferring (ignore (Close releaseFD))
    (must _ := requirePackageDirectory releaseFD m;;
     must contents := readOptionalExactFile releaseFD receiptFileName 0x180 maximumMetadataSize m;;
     match contents with
     | None => mret (Err ErrResidue)
     | Some receiptBytes =>
         match decodeCanonical receipt_field encodeReceipt receiptBytes with
         | Err _ => mret (Err ErrResidue)
         | Ok receipt =>
             refuse negb (bool_decide (r_ReleaseID receipt = releaseID)) || negb (bool_decide (r_Role receipt = role m)) with ErrResidue;;
             let digest := digestBytes receiptBytes in
             must _ := verifyOpenReleaseDirectory releaseFD receipt receiptBytes digest m;;
             mret (Ok (receipt, receiptBytes, digest))
         end
     end).
Definition verifyReleaseDirectory (releasesFD : Z) (releaseID : text) (expected : option receiptRecord) (expectedDigest : text) (m : Manager)
    : IO (result package_err ()) :=
  must loaded := loadAndVerifyRelease releasesFD releaseID m;;
  let '(_, receiptBytes, digest) := loaded in
  must _ := match expected with
            | None => mret (Ok ())
            | Some expected =>
                must expectedBytes := mret (encodeReceipt expected);;
                refuse negb (bool_decide (receiptBytes = expectedBytes)) with ErrResidue;;
                mret (Ok ())
            end;;
  refuse negb (bool_decide (expectedDigest = [])) && negb (bool_decide (digest = expectedDigest)) with ErrResidue;;
  mret (Ok ()).

Fixpoint stage_files (releaseFD bundleFD : Z) (fs : list decisionFile) (m : Manager) : IO (result package_err ()) :=
  match fs with
  | [] => mret (Ok ())
  | f :: fs => must _ := stageAuthenticatedFile releaseFD bundleFD f m;; stage_files releaseFD bundleFD fs m
  end.
Definition staging_names (d : decision) : gset text :=
  {[receiptFileName; receiptStageName]} ∪ list_to_set (InstallName <$> files d) ∪ list_to_set (payloadStageName ∘ InstallName <$> files d).
Definition stageReleaseDirectory (releasesFD bundleFD : Z) (d : decision) (receipt : receiptRecord) (receiptBytes : list byte)
    (receiptDigest : text) (m : Manager) : IO (result package_err ()) :=
  must releaseFD := ensurePackageDirectory releasesFD (releaseID d) m;;
  deferring (ignore (Close releaseFD))
    (must _ := requireAllowedDirectoryEntries releaseFD (staging_names d);;
     must ready := recoverPayloadStage releaseFD (receipt_file receiptBytes receiptDigest m) receiptStageName m;;
     if ready : bool then verifyOpenReleaseDirectory releaseFD receipt receiptBytes receiptDigest m
     else
       must _ := stage_files releaseFD bundleFD (files d) m;;
       must _ := publishExactBytes releaseFD receiptFileName receiptStageName receiptBytes 0x180 receiptDigest m;;
       must _ := pcall (Fsync releaseFD);;
       must _ := pcall (Fsync releasesFD);;
       verifyOpenReleaseDirectory releaseFD receipt receiptBytes receiptDigest m).

Fixpoint retire_files (releaseFD : Z) (fs : list receiptFile) (m : Manager) : IO (result package_err ()) :=
  match fs with
  | [] => mret (Ok ())
  | f :: fs =>
      must opened := openOptionalFile releaseFD (rf_Name f);;
      match opened with
      | None => retire_files releaseFD fs m
      | Some fd =>
          must _ := pguard fd (verifyOpenInstalledFile fd (decodeInstallMode (rf_Mode f)) (rf_GID f) (rf_Size f) (rf_SHA256 f) m 1);;
          _ ← ignore (Close fd);
          must _ := pcall (Unlinkat releaseFD (rf_Name f) false);;
          must _ := pcall (Fsync releaseFD);;
          retire_files releaseFD fs m
      end
  end.
Definition remove_release (releasesFD releaseFD : Z) (releaseID : text) : IO (result package_err ()) :=
  must _ := requireAllowedDirectoryEntries releaseFD ∅;;
  must _ := pcall (Unlinkat releasesFD releaseID true);;
  must _ := pcall (Fsync releasesFD);;
  mret (Ok ()).
Definition retireReleaseDirectory (releasesFD : Z) (releaseID expectedReceiptDigest : text) (m : Manager) : IO (result package_err ()) :=
  refuse negb (validReleaseID releaseID) || negb (valid_digest expectedReceiptDigest) with RetirementInvalid;;
  opened ← sys (Openat releasesFD releaseID directory_flags 0);
  match r_errno opened with
  | Some ENOENT => mret (Ok ())
  | Some _ => mret (Err ErrResidue)
  | None =>
      let releaseFD := r_number opened in
      deferring (ignore (Close releaseFD))
        (must _ := requirePackageDirectory releaseFD m;;
         must contents := readOptionalExactFile releaseFD receiptFileName 0x180 maximumMetadataSize m;;
         match contents with
         | None => remove_release releasesFD releaseFD releaseID
         | Some receiptBytes =>
             refuse negb (bool_decide (digestBytes receiptBytes = expectedReceiptDigest)) with ErrResidue;;
             match decodeCanonical receipt_field encodeReceipt receiptBytes with
             | Err _ => mret (Err ErrResidue)
             | Ok receipt =>
                 refuse negb (bool_decide (r_ReleaseID receipt = releaseID)) || negb (bool_decide (r_Role receipt = role m)) with ErrResidue;;
                 must _ := requireAllowedDirectoryEntries releaseFD (receipt_names receipt);;
                 must _ := retire_files releaseFD (elems (r_Files receipt)) m;;
                 must _ := unlink_stage releaseFD receiptFileName;;
                 remove_release releasesFD releaseFD releaseID
             end
         end)
  end.

(** ** The running executable: [measureRunningExecutable] *)

Record packageMeasurement := { pm_Path : text; pm_SHA256 : text; pm_Size : Z }.
(** [path] is what [os.Executable] and [filepath.EvalSymlinks] gave. *)
Definition measureRunningExecutable (path : text) : IO (result package_err packageMeasurement) :=
  refuse negb (IsAbs path) || negb (bool_decide (Clean_rooted path = path)) with MeasurementFailed;;
  must r := pcall (OpenPath path open_read_flags);;
  let fd := r_number r in
  deferring (ignore (Close fd))
    (must b := pcall (Fstat fd);;
     let before := r_stat b in
     euid ← sys Geteuid;
     refuse negb (mode_type before =? S_IFREG) || negb (st_Nlink before =? 1) || negb (st_Uid before =? r_number euid mod 2 ^ 32)
         || others_write before || (st_Size before <=? 0) || (2 ^ 30 <? st_Size before) with MeasurementFailed;;
     must _ := verifyPackageACL fd;;
     must digest := hashExactFD fd (st_Size before);;
     must a := pcall (Fstat fd);;
     refuse negb (same_file_state before (r_stat a)) with MeasurementFailed;;
     mret (Ok {| pm_Path := path; pm_SHA256 := digest; pm_Size := st_Size before |})).
