(* ===== verification/PackageTxn.v ===== *)
(** * Package transactions: the journal, the selector and the lifecycle

    The transaction engine of [transaction_unix.go], the external anchor of
    [package_anchor_unix.go], the entry points of [lifecycle_unix.go] and
    [WithCurrentRuntimeIdentity] of [internal/packagetxn]. A manager is open and not copied,
    and its mutex is not modelled; [hook] decides the injected interruptions, [measured] is the
    measurement of the running executable. *)

From S2P Require Import Prelude GoIO Text Runes Sha256 Base64 Protocol Identifiers Signing Invitation StrictJson Syscalls SecureFS Release ReleaseBundle PackageData PackageStorage.

Inductive failurePoint :=
| pointJournalPlanned | pointReleaseStaged | pointJournalStaged | pointSelectorCommit | pointActiveCommit | pointJournalSelected
| pointJournalRetiring | pointReleaseRetired | pointJournalComplete.
Record Result := {
  res_Role : text; res_Current : text; res_Previous : text; res_Generation : Z; Installed : bool; Resumed : bool; Idempotent : bool;
  Runtime : option RuntimeIdentity }.
Record transactionState := MkState { selector : selectorRecord; journal : option journalRecord; activeReleaseID : text }.
Definition selectionGate : Type := journalRecord → selectorRecord → IO (result package_err ()).

(** ** Verdicts on an interrupted transaction *)

Definition validateResumeSelector (j : journalRecord) (s : selectorRecord) : result package_err () :=
  match Phase j with
  | phasePlanned => reject negb (bool_decide (s = Before j)) with ErrResidue;; Ok ()
  | phaseStaged => reject negb (bool_decide (s = Before j)) && negb (bool_decide (s = Target j)) with ErrResidue;; Ok ()
  | phaseSelected | phaseRetiring | phaseComplete => reject negb (bool_decide (s = Target j)) with ErrResidue;; Ok ()
  | OtherPhase _ => Err ErrResidue
  end.
Definition validateResumeActiveLink (j : journalRecord) (s : selectorRecord) (active : text) : result package_err () :=
  match Phase j with
  | phasePlanned => reject negb (bool_decide (active = Current (Before j))) with ErrResidue;; Ok ()
  | phaseStaged =>
      if bool_decide (active = Current (Before j)) then Ok ()
      else if bool_decide (s = Target j) && bool_decide (active = Current (Target j)) then Ok () else Err ErrResidue
  | phaseSelected | phaseRetiring | phaseComplete => reject negb (bool_decide (active = Current (Target j))) with ErrResidue;; Ok ()
  | OtherPhase _ => Err ErrResidue
  end.

Section Manager.
Context (m : Manager).

Definition resultFromSelector (s : selectorRecord) (receipt : option receiptRecord) (installed resumed idempotent : bool) : result package_err Result :=
  let res := {| res_Role := role m; res_Current := Current s; res_Previous := Previous s; res_Generation := Generation s;
                Installed := installed; Resumed := resumed; Idempotent := idempotent; Runtime := None |} in
  if bool_decide (Current s = []) then
    match receipt with Some _ => Err ResultInvalid | None => Ok res end
  else
    match receipt with
    | None => Err ResultInvalid
    | Some r =>
        reject negb (bool_decide (r_Role r = role m)) || negb (bool_decide (r_ReleaseID r = Current s)) with ResultInvalid;;
        match runtimeIdentityFromReceipt r with
        | Err e => if hasAnchor m then Err e else Ok res
        | Ok identity => Ok {| res_Role := role m; res_Current := Current s; res_Previous := Previous s; res_Generation := Generation s;
                               Installed := installed; Resumed := resumed; Idempotent := idempotent; Runtime := Some identity |}
        end
    end.

(** ** Records on disk *)

Definition read_record {A} (F : Field A) (encoder : A → result package_err (list byte)) (directory : Z) (name : text)
    : IO (result package_err (option A)) :=
  must contents := readOptionalExactFile directory name 0x180 maximumMetadataSize m;;
  mret (match contents with
        | None => Ok None
        | Some encoded => match decodeCanonical F encoder encoded with Ok a => Ok (Some a) | Err _ => Err ErrResidue end
        end).
Definition readSelector (roleFD : Z) : IO (result package_err (option selectorRecord)) := read_record selector_field encodeSelector roleFD selectorFileName.
Definition readJournal (roleFD : Z) : IO (result package_err (option journalRecord)) := read_record journal_field encodeJournal roleFD journalFileName.
Definition replaceJournal (roleFD : Z) (j : journalRecord) : IO (result package_err ()) :=
  must encoded := mret (encodeJournal j);; replaceCanonicalFile roleFD journalFileName journalStageName encoded m.
Definition replaceSelector (roleFD : Z) (s : selectorRecord) : IO (result package_err ()) :=
  must encoded := mret (encodeSelector s);; replaceCanonicalFile roleFD selectorFileName selectorStageName encoded m.
Definition cleanAuthorizedMetadataStages (roleFD : Z) (p : journalPhase) : IO (result package_err ()) :=
  match p with
  | phaseStaged => must _ := removeAuthorizedStage roleFD journalStageName m;; removeAuthorizedStage roleFD selectorStageName m
  | phasePlanned | phaseSelected | phaseRetiring => removeAuthorizedStage roleFD journalStageName m
  | phaseComplete => mret (Ok ())
  | OtherPhase _ => mret (Err ErrResidue)
  end.

(** ** [inspectTransactionState] *)

Definition optional_name {A} (o : option A) (name : text) : gset text := match o with Some _ => {[name]} | None => ∅ end.
(** The release [id] is complete and has the expected receipt. *)
Definition require_release (releasesFD : Z) (id digest : text) : IO (result package_err receiptRecord) :=
  must loaded := loadAndVerifyRelease releasesFD id m;;
  let '(receipt, _, actual) := loaded in
  refuse negb (bool_decide (actual = digest)) with ErrResidue;;
  mret (Ok receipt).
Definition when (b : bool) (k : IO (result package_err ())) : IO (result package_err ()) := if b then k else mret (Ok ()).
Definition nonempty (t : text) : bool := negb (bool_decide (t = [])).
Definition out_of_order (j : journalRecord) (prior : receiptRecord) : bool :=
  bool_decide (Operation j = operationInstall) && (j_Sequence j <=? r_Sequence prior)
  || bool_decide (Operation j = operationRollback) && (r_Sequence prior <=? j_Sequence j).
Definition receipt_differs (j : journalRecord) (r : receiptRecord) : bool :=
  negb (bool_decide (r_Role r = j_Role j)) || negb (bool_decide (r_ReleaseID r = j_ReleaseID j)) || negb (r_Sequence r =? j_Sequence j)
  || negb (bool_decide (r_ManifestSHA256 r = j_ManifestSHA256 j)).
Definition inspect_journal (releasesFD : Z) (j : journalRecord) (s : selectorRecord) (active : text) : IO (result package_err ()) :=
  must _ := mret (validateJournal j);;
  refuse negb (bool_decide (j_Role j = role m)) with ErrResidue;;
  must _ := mret (validateResumeSelector j s);;
  must _ := mret (validateResumeActiveLink j s active);;
  must _ := when (nonempty (Current (Before j)))
    (must prior := require_release releasesFD (Current (Before j)) (CurrentReceiptSHA256 (Before j));;
     refuse out_of_order j prior with ErrResidue;;
     mret (Ok ()));;
  must _ := when (nonempty (Previous (Before j)) && negb (bool_decide (Phase j = phaseRetiring)) && negb (bool_decide (Phase j = phaseComplete)))
    (must _ := require_release releasesFD (Previous (Before j)) (PreviousReceiptSHA256 (Before j));; mret (Ok ()));;
  when (bool_decide (Phase j ∈ [phaseStaged; phaseSelected; phaseComplete]))
    (must receipt := require_release releasesFD (j_ReleaseID j) (ReceiptSHA256 j);;
     refuse receipt_differs j receipt with ErrResidue;;
     mret (Ok ())).
(** The releases that the selector and the journal explain. *)
Definition named (t : text) : gset text := if nonempty t then {[t]} else ∅.
Definition allowed_releases (s : selectorRecord) (j : option journalRecord) : gset text :=
  named (Current s) ∪ named (Previous s)
  ∪ match j with
    | Some j => if bool_decide (Phase j = phaseComplete) then ∅ else {[j_ReleaseID j]} ∪ named (RetiredReleaseID j)
    | None => ∅
    end.
Definition inspectTransactionState (roleFD releasesFD : Z) : IO (result package_err transactionState) :=
  must _ := removeAuthorizedStage roleFD journalStageName m;;
  must _ := removeAuthorizedStage roleFD selectorStageName m;;
  must _ := removeActiveLinkStage roleFD m;;
  must stored := readSelector roleFD;;
  let s := default emptySelector stored in
  must j := readJournal roleFD;;
  refuse bool_decide (is_Some stored) && bool_decide (j = None) with ErrResidue;;
  must link := readActiveLink roleFD activeLinkName m;;
  let active := default [] link in
  must _ := requireAllowedDirectoryEntries roleFD
    ({[lockFileName; releasesDirectory]} ∪ optional_name stored selectorFileName ∪ optional_name j journalFileName ∪ optional_name link activeLinkName);;
  must _ := when (nonempty (Current s)) (must _ := require_release releasesFD (Current s) (CurrentReceiptSHA256 s);; mret (Ok ()));;
  must _ := when (nonempty (Previous s)) (must _ := require_release releasesFD (Previous s) (PreviousReceiptSHA256 s);; mret (Ok ()));;
  must _ := match j with Some j => inspect_journal releasesFD j s active | None => mret (Ok ()) end;;
  must _ := requireAllowedDirectoryEntries releasesFD (allowed_releases s j);;
  refuse bool_decide (j = None) && negb (bool_decide (active = Current s)) with ErrResidue;;
  mret (Ok {| selector := s; journal := j; activeReleaseID := active |}).

(** ** [install] and [resume] *)

Section Hook.
Context (hook : failurePoint → bool).

Definition runHook (p : failurePoint) : IO (result package_err ()) := refuse hook p with Interrupted;; mret (Ok ()).
(** [replaceJournal], then the hook. *)
Definition record_phase (roleFD : Z) (j : journalRecord) (p : failurePoint) : IO (result package_err ()) :=
  must _ := replaceJournal roleFD j;; runHook p.

Definition stage_release (roleFD releasesFD : Z) (d : decision) (receipt : receiptRecord) (receiptBytes : list byte) (receiptDigest : text)
    (j : journalRecord) : IO (result package_err journalRecord) :=
  must _ := (if bool_decide (operation d = operationInstall) then
               must bundleFD := openProtectedBundle (bundleRoot d);;
               r ← stageReleaseDirectory releasesFD bundleFD d receipt receiptBytes receiptDigest m;
               _ ← ignore (Close bundleFD);
               mret r
             else verifyReleaseDirectory releasesFD (releaseID d) (Some receipt) receiptDigest m);;
  must _ := runHook pointReleaseStaged;;
  let j := j <| Phase := phaseStaged |> in
  must _ := record_phase roleFD j pointJournalStaged;;
  mret (Ok j).
Definition is_selected (j : journalRecord) (s : selectorRecord) : bool :=
  bool_decide (Current s = Current (Target j)) && (Generation s =? Generation (Target j)).
(** The gate, if there is one; without one a journal that names an anchor stops here. *)
Definition pass_gate (gate : option selectionGate) (j : journalRecord) (s : selectorRecord) : IO (result package_err ()) :=
  match gate with
  | Some gate => gate j s
  | None => refuse nonempty (AnchorTargetSHA256 j) with GateRequired;; mret (Ok ())
  end.
Definition commit_selector (roleFD : Z) (gate : option selectionGate) (j : journalRecord) (s : selectorRecord) : IO (result package_err ()) :=
  if is_selected j s then mret (Ok ())
  else
    must _ := pass_gate gate j s;;
    must _ := replaceSelector roleFD (Target j);;
    runHook pointSelectorCommit.
Definition commit_active (roleFD : Z) (j : journalRecord) (active : text) : IO (result package_err ()) :=
  if bool_decide (active = Current (Target j)) then mret (Ok ())
  else
    refuse negb (bool_decide (active = Current (Before j))) with ErrResidue;;
    must _ := replaceActiveLink roleFD (Current (Target j)) m;;
    runHook pointActiveCommit.
Definition record_selected (roleFD : Z) (j : journalRecord) : IO (result package_err journalRecord) :=
  if bool_decide (Phase j ∈ [phaseStaged; phasePlanned]) then
    let j := j <| Phase := phaseSelected |> in
    must _ := record_phase roleFD j pointJournalSelected;;
    mret (Ok j)
  else mret (Ok j).
Definition retire (roleFD releasesFD : Z) (j : journalRecord) : IO (result package_err journalRecord) :=
  if negb (nonempty (RetiredReleaseID j)) then mret (Ok j)
  else
    must j := (if bool_decide (Phase j = phaseRetiring) then mret (Ok j)
               else let j := j <| Phase := phaseRetiring |> in
                    must _ := record_phase roleFD j pointJournalRetiring;; mret (Ok j));;
    must _ := retireReleaseDirectory releasesFD (RetiredReleaseID j) (RetiredReceiptSHA256 j) m;;
    must _ := runHook pointReleaseRetired;;
    mret (Ok j).

Definition resume (roleFD releasesFD : Z) (d : decision) (receipt : receiptRecord) (receiptBytes : list byte) (receiptDigest : text)
    (state : transactionState) (j : journalRecord) (gate : option selectionGate) (resuming : bool) : IO (result package_err Result) :=
  must _ := mret (validateResumeSelector j (selector state));;
  must _ := cleanAuthorizedMetadataStages roleFD (Phase j);;
  must j := (if bool_decide (Phase j = phasePlanned)
             then stage_release roleFD releasesFD d receipt receiptBytes receiptDigest j
             else must _ := verifyReleaseDirectory releasesFD (releaseID d) (Some receipt) receiptDigest m;; mret (Ok j));;
  must _ := commit_selector roleFD gate j (selector state);;
  must _ := commit_active roleFD j (activeReleaseID state);;
  must j := record_selected roleFD j;;
  must j := retire roleFD releasesFD j;;
  let j := j <| Phase := phaseComplete |> in
  must _ := record_phase roleFD j pointJournalComplete;;
  must _ := verifyReleaseDirectory releasesFD (releaseID d) (Some receipt) receiptDigest m;;
  (* [state.activeReleaseID] is now the target *)
  refuse negb (bool_decide (Current (Target j) = releaseID d)) with ErrResidue;;
  mret (resultFromSelector (Target j) (Some receipt) true resuming false).

(** The selector that a decision asks for, and the release that it retires. *)
Definition next_selector (s : selectorRecord) (d : decision) (receiptDigest : text) : result package_err (selectorRecord * text * text) :=
  if bool_decide (operation d = operationInstall) then
    Ok ({| sel_Schema := selectorSchema; Generation := wrapu64 (Generation s + 1); Current := releaseID d; CurrentReceiptSHA256 := receiptDigest;
           Previous := Current s; PreviousReceiptSHA256 := CurrentReceiptSHA256 s |}, Previous s, PreviousReceiptSHA256 s)
  else
    reject negb (bool_decide (Previous s = releaseID d)) || negb (bool_decide (PreviousReceiptSHA256 s = receiptDigest)) with RollbackTarget;;
    Ok ({| sel_Schema := selectorSchema; Generation := wrapu64 (Generation s + 1); Current := Previous s;
           CurrentReceiptSHA256 := PreviousReceiptSHA256 s; Previous := Current s; PreviousReceiptSHA256 := CurrentReceiptSHA256 s |}, [], []).
Definition planned_journal (d : decision) (receiptDigest : text) (s : selectorRecord) : result package_err journalRecord :=
  '(target, retired, retiredReceipt) ← next_selector s d receiptDigest;
  Ok {| j_Schema := journalSchema; Phase := phasePlanned; Operation := operation d; j_Role := role m; j_ReleaseID := releaseID d;
        j_Sequence := sequence d; j_ManifestSHA256 := manifestSHA256 d; ReceiptSHA256 := receiptDigest; PolicySHA256 := policySHA256 d;
        AnchorBeforeSHA256 := anchorBefore d; AnchorTargetSHA256 := anchorTarget d; RetiredReleaseID := retired;
        RetiredReceiptSHA256 := retiredReceipt; Before := s; Target := target |}.
Definition maxGeneration : Z := 2 ^ 64 - 1.

(** Installing the release that is already current. *)
Definition install_again (releasesFD : Z) (d : decision) (receipt : receiptRecord) (receiptDigest : text) (state : transactionState)
    : IO (result package_err Result) :=
  must _ := verifyReleaseDirectory releasesFD (releaseID d) (Some receipt) receiptDigest m;;
  refuse negb (bool_decide (CurrentReceiptSHA256 (selector state) = receiptDigest)) with ErrResidue;;
  match journal state with
  | None => mret (Err ErrResidue)
  | Some j =>
      refuse negb (bool_decide (Phase j = phaseComplete)) || negb (journalMatchesDecision j d receiptDigest) with ErrResidue;;
      refuse negb (bool_decide (activeReleaseID state = releaseID d)) with ErrResidue;;
      mret (resultFromSelector (selector state) (Some receipt) false false true)
  end.
Definition install_new (roleFD releasesFD : Z) (d : decision) (receipt : receiptRecord) (receiptBytes : list byte) (receiptDigest : text)
    (state : transactionState) (gate : option selectionGate) : IO (result package_err Result) :=
  must _ := when (nonempty (Current (selector state)) && bool_decide (operation d = operationInstall))
    (must loaded := loadAndVerifyRelease releasesFD (Current (selector state)) m;;
     refuse sequence d <=? r_Sequence (fst (fst loaded)) with ErrReplay;;
     mret (Ok ()));;
  refuse Generation (selector state) =? maxGeneration with ErrResidue;;
  must j := mret (planned_journal d receiptDigest (selector state));;
  must _ := record_phase roleFD j pointJournalPlanned;;
  resume roleFD releasesFD d receipt receiptBytes receiptDigest (MkState (selector state) (Some j) (activeReleaseID state)) j gate false.
Definition install_locked (roleFD releasesFD : Z) (d : decision) (gate : option selectionGate) : IO (result package_err Result) :=
  must r := mret (receiptForDecision d);;
  let '(receipt, receiptBytes, receiptDigest) := r in
  must state := inspectTransactionState roleFD releasesFD;;
  match journal state with
  | Some j =>
      if bool_decide (Phase j = phaseComplete) then
        if bool_decide (operation d = operationInstall) && bool_decide (Current (selector state) = releaseID d)
        then install_again releasesFD d receipt receiptDigest state
        else install_new roleFD releasesFD d receipt receiptBytes receiptDigest state gate
      else
        refuse negb (journalMatchesDecision j d receiptDigest) with ErrResidue;;
        resume roleFD releasesFD d receipt receiptBytes receiptDigest state j gate true
  | None =>
      if bool_decide (operation d = operationInstall) && bool_decide (Current (selector state) = releaseID d)
      then install_again releasesFD d receipt receiptDigest state
      else install_new roleFD releasesFD d receipt receiptBytes receiptDigest state gate
  end.
(** [defer unix.Close(fd)], [defer lock.close()] *)
Definition with_fd {A} (open : IO (result package_err Z)) (k : Z → IO (result package_err A)) : IO (result package_err A) :=
  must fd := open;; deferring (ignore (Close fd)) (k fd).
Definition with_role_lock {A} (roleFD : Z) (k : IO (result package_err A)) : IO (result package_err A) :=
  must lock := acquireDescriptorLock roleFD lockFileName (ownerUID m) (ownerGID m);; deferring (close_lock lock) k.
Definition with_role {A} (k : Z → IO (result package_err A)) : IO (result package_err A) :=
  with_fd (ensurePackageDirectory (rootFD m) (role m) m) (λ roleFD, with_role_lock roleFD (k roleFD)).
Definition with_releases {A} (roleFD : Z) (k : Z → IO (result package_err A)) : IO (result package_err A) :=
  with_fd (ensurePackageDirectory roleFD releasesDirectory m) k.
Definition install (d : decision) (gate : option selectionGate) : IO (result package_err Result) :=
  must _ := mret (validateDecision d);;
  refuse negb (bool_decide (dec_role d = role m)) with ErrInvalidDecision;;
  refuse negb (bool_decide (dec_os d = platformOS m)) || negb (bool_decide (dec_arch d = platformArch m)) with ErrInvalidDecision;;
  refuse existsb (λ f, negb (df_GID f =? ownerGID m) && negb (df_GID f =? readerGID m)) (files d) with ErrInvalidDecision;;
  with_role (λ roleFD, with_releases roleFD (λ releasesFD, install_locked roleFD releasesFD d gate)).
End Hook.

(** ** The external anchor: [package_anchor_unix.go] *)

(** The anchor, its bytes and their digest. *)
Definition readPackageAnchor (anchorRoleFD : Z) : IO (result package_err (packageAnchor * text)) :=
  must _ := removeAuthorizedStage anchorRoleFD packageAnchorStageName m;;
  must contents := readOptionalExactFile anchorRoleFD packageAnchorFileName 0x180 maximumMetadataSize m;;
  must _ := requireAllowedDirectoryEntries anchorRoleFD ({[packageAnchorLockFileName]} ∪ optional_name contents packageAnchorFileName);;
  match contents with
  | None =>
      let a := emptyPackageAnchor (role m) in
      must encoded := mret (encodePackageAnchor a);;
      mret (Ok (a, digestBytes encoded))
  | Some contents =>
      match decodeCanonical anchor_field encodePackageAnchor contents with
      | Err _ => mret (Err ErrResidue)
      | Ok a => refuse negb (bool_decide (pk_Role a = role m)) with ErrResidue;; mret (Ok (a, digestBytes contents))
      end
  end.
Definition replacePackageAnchor (anchorRoleFD : Z) (contents : list byte) : IO (result package_err ()) :=
  must a := mret (decodeCanonical anchor_field encodePackageAnchor contents);;
  refuse negb (bool_decide (pk_Role a = role m)) with AnchorInvalid;;
  replaceCanonicalFile anchorRoleFD packageAnchorFileName packageAnchorStageName contents m.
Definition anchor_selects (a : packageAnchor) (s : selectorRecord) : bool :=
  (SelectorGeneration a =? Generation s) && bool_decide (CurrentReleaseID a = Current s)
  && bool_decide (pk_CurrentReceiptSHA256 a = CurrentReceiptSHA256 s) && bool_decide (PreviousReleaseID a = Previous s)
  && bool_decide (pk_PreviousReceiptSHA256 a = PreviousReceiptSHA256 s).
Definition validateAnchorAgainstSnapshot (a : packageAnchor) (anchorDigest : text) (state : transactionState) : result package_err () :=
  reject negb (valid_digest anchorDigest) with AnchorInvalid;;
  if (if pk_Generation a =? 0 then Generation (selector state) =? 0 else anchor_selects a (selector state)) then Ok ()
  else
    match journal state with
    | None => Err AnchorDisagrees
    | Some j =>
        reject bool_decide (Phase j = phaseComplete) || negb (bool_decide (AnchorTargetSHA256 j = anchorDigest))
            || negb (anchor_selects a (Target j)) with AnchorDisagrees;;
        Ok ()
    end.
(** The compare-and-swap that must precede the selector. *)
Definition anchorGate (anchorRoleFD : Z) (expectedBefore : text) (target : packageAnchor) : selectionGate := λ j s,
  must targetBytes := mret (encodePackageAnchor target);;
  let targetDigest := digestBytes targetBytes in
  refuse negb (bool_decide (AnchorBeforeSHA256 j = expectedBefore)) || negb (bool_decide (AnchorTargetSHA256 j = targetDigest))
      || negb (bool_decide (PolicySHA256 j = pk_PolicySHA256 target)) with JournalDiffers;;
  refuse negb (bool_decide (s = Before j)) with ErrResidue;;
  must current := readPackageAnchor anchorRoleFD;;
  let currentDigest := snd current in
  if bool_decide (currentDigest = targetDigest) then mret (Ok ())
  else
    refuse negb (bool_decide (currentDigest = expectedBefore)) with AnchorChanged;;
    replacePackageAnchor anchorRoleFD targetBytes.
Definition anchorPolicyKeyID (a : packageAnchor) (supplied : list byte) : text :=
  if pk_Generation a =? 0 then KeyID supplied else pk_PolicyKeyID a.

(** ** The lifecycle: [lifecycle_unix.go] *)

Record ApplyInput := {
  ai_BundleRoot : text; ai_ManifestBytes : list byte; ManifestSignature : list byte; ai_ReleaseKey : list byte; PolicyBytes : list byte;
  PolicySignatureBytes : list byte; PolicyKey : list byte }.
Record lifecycleSnapshot := {
  state : transactionState; currentReceipt : option receiptRecord; previousReceipt : option receiptRecord; runningReceipt : option receiptRecord }.

Definition load_named (releasesFD : Z) (id : text) : IO (result package_err (option receiptRecord)) :=
  if nonempty id then must loaded := loadAndVerifyRelease releasesFD id m;; mret (Ok (Some (fst (fst loaded)))) else mret (Ok None).
Definition readLifecycleSnapshotLocked (roleFD : Z) : IO (result package_err lifecycleSnapshot) :=
  with_releases roleFD (λ releasesFD,
    must st := inspectTransactionState roleFD releasesFD;;
    must current := load_named releasesFD (Current (selector st));;
    must previous := load_named releasesFD (Previous (selector st));;
    must running := load_named releasesFD (activeReleaseID st);;
    mret (Ok {| state := st; currentReceipt := current; previousReceipt := previous; runningReceipt := running |})).
Definition readLifecycleSnapshot : IO (result package_err lifecycleSnapshot) := with_role readLifecycleSnapshotLocked.
Definition readLifecycleReceipt (id : text) : IO (result package_err (receiptRecord * text)) :=
  with_role (λ roleFD, with_releases roleFD (λ releasesFD,
    must loaded := loadAndVerifyRelease releasesFD id m;; let '(receipt, _, digest) := loaded in mret (Ok (receipt, digest)))).
Definition lockAnchorRole : IO (result package_err (Z * Z)) :=
  must roleFD := ensurePrivateDirectory (anchorFD m) (role m) (ownerUID m) (ownerGID m) (anchorDevice m);;
  must lock := pguard roleFD (acquireDescriptorLock roleFD packageAnchorLockFileName (ownerUID m) (ownerGID m));;
  mret (Ok (roleFD, lock)).
Definition with_anchor {A} (k : Z → IO (result package_err A)) : IO (result package_err A) :=
  must locked := lockAnchorRole;;
  let '(roleFD, lock) := locked in
  deferring (ignore (Close roleFD)) (deferring (close_lock lock) (k roleFD)).
Definition requireLifecycleManager : bool := hasAnchor m && (0 <=? anchorFD m).

Definition owntransitctl : text := ascii_bytes "owntransitctl".
(** [filepath.Join] of clean parts. *)
Definition path_join (parts : list text) : text := Runes.Join slash parts.
(** The executable that must be running: digest, size and path. *)
Definition expected_lifecycle (snapshot : lifecycleSnapshot) (candidate : decision) : result package_err (option (text * Z * text)) :=
  let find (r : receiptRecord) := snd <$> list_find (λ f, rf_Name f = owntransitctl) (elems (r_Files r)) in
  match runningReceipt snapshot, currentReceipt snapshot with
  | Some running, _ =>
      Ok ((λ f, (rf_SHA256 f, rf_Size f, path_join [rootPath m; role m; releasesDirectory; r_ReleaseID running; rf_Name f])) <$> find running)
  | None, Some current =>
      reject negb (bool_decide (seal candidate = decisionSeal)) with SignedInputRequired;;
      Ok ((λ f, (rf_SHA256 f, rf_Size f, [])) <$> find current)
  | None, None =>
      Ok ((λ f : nat * decisionFile, (df_SHA256 f.2, df_Size f.2, path_join [bundleRoot candidate; SourcePath f.2]))
          <$> list_find (λ f, InstallName f = owntransitctl) (files candidate))
  end.
Definition verifyRunningLifecycle (measured : IO (result package_err packageMeasurement)) (snapshot : lifecycleSnapshot) (candidate : decision)
    : IO (result package_err ()) :=
  must expected := mret (expected_lifecycle snapshot candidate);;
  match expected with
  | None => mret (Err LifecycleMissing)
  | Some (digest, size, path) =>
      refuse negb (valid_digest digest) || (size <=? 0) with LifecycleMissing;;
      must actual := measured;;
      refuse negb (bool_decide (pm_SHA256 actual = digest)) || negb (pm_Size actual =? size) with LifecycleDiffers;;
      refuse enforceExecutablePath m && (bool_decide (path = []) || negb (bool_decide (pm_Path actual = path))) with LifecyclePath;;
      mret (Ok ())
  end.

Definition verifyPolicyForPackageAnchor (x : release_env) (input : ApplyInput) (a : packageAnchor) : result package_err (VerifiedPolicy * bool * text) :=
  reject negb (length (ai_ReleaseKey input) =? PublicKeySize)%nat || negb (length (PolicyKey input) =? PublicKeySize)%nat with KeysInvalid;;
  reject bool_decide (KeyID (ai_ReleaseKey input) = KeyID (PolicyKey input)) with KeysInvalid;;
  let policyDigest := digestBytes (PolicyBytes input) in
  let policyAnchor := {| pa_HighestPolicySequence := HighestPolicySequence a; pa_MinimumReleaseSequence := MinimumReleaseSequence a;
                         pa_MinimumLifecycle := MinimumLifecycle a; pa_TombstonedReleaseIDs := append_nil (elems (TombstonedReleaseIDs a)) |} in
  reject negb (pk_Generation a =? 0) && negb (bool_decide (KeyID (PolicyKey input) = pk_PolicyKeyID a)) with PkgPolicySigner;;
  if negb (pk_Generation a =? 0) && bool_decide (policyDigest = pk_PolicySHA256 a) then
    match VerifyPolicyAtAnchor x (PolicyBytes input) (PolicySignatureBytes input) (PolicyKey input) policyAnchor with
    | Ok v => Ok (v, false, policyDigest)
    | Err e => Err (PRelease e)
    end
  else
    match VerifyPolicyAdvance x (PolicyBytes input) (PolicySignatureBytes input) (PolicyKey input) policyAnchor with
    | Ok v => Ok (v, true, policyDigest)
    | Err e => Err (PRelease e)
    end.
Definition targetAnchorForInstall (before : packageAnchor) (policy : VerifiedPolicy) (policyDigest policyKeyID : text) (s : selectorRecord) (d : decision)
    : result package_err packageAnchor :=
  reject pk_Generation before =? maxGeneration with ErrResidue;;
  match NextAnchor policy with
  | Err e => Err (PRelease e)
  | Ok next =>
      reject negb (bool_decide (Current s = releaseID d)) || bool_decide (CurrentReceiptSHA256 s = []) with AnchorInvalid;;
      beforeBytes ← encodePackageAnchor before;
      Ok {| pk_Schema := packageAnchorSchema; pk_Generation := wrapu64 (pk_Generation before + 1); pk_Role := dec_role d;
            PreviousSHA256 := digestBytes beforeBytes; pk_PolicyKeyID := policyKeyID; pk_PolicySHA256 := policyDigest;
            pk_ReleaseKeyID := p_ReleaseKeyID (Value policy); HighestPolicySequence := pa_HighestPolicySequence next;
            MinimumReleaseSequence := pa_MinimumReleaseSequence next; MinimumLifecycle := pa_MinimumLifecycle next;
            TombstonedReleaseIDs := append_nil (elems (pa_TombstonedReleaseIDs next));
            HighestReleaseSequence := Z.max (HighestReleaseSequence before) (sequence d); SelectorGeneration := Generation s;
            CurrentReleaseID := Current s; pk_CurrentReceiptSHA256 := CurrentReceiptSHA256 s; PreviousReleaseID := Previous s;
            pk_PreviousReceiptSHA256 := PreviousReceiptSHA256 s |}
  end.

(** *** Apply *)

Definition install_policy (a : packageAnchor) (v : VerifiedPolicy) (artifactName : text) : InstallPolicy := {|
  HighestSequence := HighestReleaseSequence a; RunningLifecycle := packageLifecycleGeneration; ArtifactName := artifactName;
  ExpectedOS := platformOS m; ExpectedArch := platformArch m; ExpectedRole := role m; ExpectedArtifactSHA256 := [];
  ip_TombstonedReleaseIDs := append_nil (elems (TombstonedReleaseIDs a)); VerifiedReleasePolicy := Some v;
  ExactReplayReleaseID := CurrentReleaseID a |}.
(** What to install, behind which anchor, with which gate: decided before anything changes. *)
Record plan := { plan_decision : decision; gate_before : text; gate_target : packageAnchor }.
Definition bind_anchor (d : decision) (policy before target : text) : decision :=
  d <| policySHA256 := policy |> <| anchorBefore := before |> <| anchorTarget := target |>.
Definition plan_resume (a : packageAnchor) (anchorDigest : text) (v : VerifiedPolicy) (policyDigest policyKeyID : text) (j : journalRecord)
    (d : decision) (receiptDigest : text) : result package_err plan :=
  let d := bind_anchor d (PolicySHA256 j) (AnchorBeforeSHA256 j) (AnchorTargetSHA256 j) in
  reject negb (journalMatchesDecision j d receiptDigest) with ErrResidue;;
  reject negb (bool_decide (policyDigest = PolicySHA256 j)) with ExactPolicyRequired;;
  reject negb (bool_decide (anchorDigest = AnchorBeforeSHA256 j)) && negb (bool_decide (anchorDigest = AnchorTargetSHA256 j)) with AnchorDisagrees;;
  target ← (if bool_decide (anchorDigest = AnchorTargetSHA256 j) then Ok a
            else
              t ← targetAnchorForInstall a v policyDigest policyKeyID (Target j) d;
              reject negb (bool_decide (digestPackageAnchor t = AnchorTargetSHA256 j)) with AnchorReconstruction;;
              Ok t);
  Ok {| plan_decision := d; gate_before := anchorDigest; gate_target := target |}.
Definition plan_again (a : packageAnchor) (anchorDigest : text) (policyAdvanced : bool) (policyDigest : text) (st : transactionState) (d : decision)
    : result package_err plan :=
  reject policyAdvanced || negb (bool_decide (policyDigest = pk_PolicySHA256 a)) with PolicyOnly;;
  match journal st with
  | Some j =>
      reject negb (bool_decide (Phase j = phaseComplete)) with ErrResidue;;
      Ok {| plan_decision := bind_anchor d (PolicySHA256 j) (AnchorBeforeSHA256 j) (AnchorTargetSHA256 j); gate_before := anchorDigest; gate_target := a |}
  | None => Err ErrResidue
  end.
Definition plan_new (a : packageAnchor) (anchorDigest : text) (v : VerifiedPolicy) (policyDigest policyKeyID : text) (s : selectorRecord)
    (d : decision) (receiptDigest : text) : result package_err plan :=
  reject Generation s =? maxGeneration with ErrResidue;;
  let target := {| sel_Schema := selectorSchema; Generation := wrapu64 (Generation s + 1); Current := releaseID d;
                   CurrentReceiptSHA256 := receiptDigest; Previous := Current s; PreviousReceiptSHA256 := CurrentReceiptSHA256 s |} in
  t ← targetAnchorForInstall a v policyDigest policyKeyID target d;
  targetBytes ← encodePackageAnchor t;
  Ok {| plan_decision := bind_anchor d policyDigest anchorDigest (digestBytes targetBytes); gate_before := anchorDigest; gate_target := t |}.
Definition plan_apply (a : packageAnchor) (anchorDigest : text) (v : VerifiedPolicy) (policyAdvanced : bool) (policyDigest policyKeyID : text)
    (st : transactionState) (d : decision) : result package_err plan :=
  r ← receiptForDecision d;
  let receiptDigest := snd r in
  match journal st with
  | Some j =>
      if negb (bool_decide (Phase j = phaseComplete)) then plan_resume a anchorDigest v policyDigest policyKeyID j d receiptDigest
      else if bool_decide (Current (selector st) = releaseID d) then plan_again a anchorDigest policyAdvanced policyDigest st d
      else plan_new a anchorDigest v policyDigest policyKeyID (selector st) d receiptDigest
  | None =>
      if bool_decide (Current (selector st) = releaseID d) then plan_again a anchorDigest policyAdvanced policyDigest st d
      else plan_new a anchorDigest v policyDigest policyKeyID (selector st) d receiptDigest
  end.

Section Lifecycle.
Context (hook : failurePoint → bool) (measured : IO (result package_err packageMeasurement)).

(** A preflight stops where the installation would start. *)
Definition run_plan (anchorRoleFD : Z) (preflight : bool) (p : plan) : IO (result package_err (option Result)) :=
  if preflight then mret (Ok None)
  else must r := install hook (plan_decision p) (Some (anchorGate anchorRoleFD (gate_before p) (gate_target p)));; mret (Ok (Some r)).
(** The anchor and the snapshot that every entry point starts from. *)
Definition with_snapshot {A} (k : Z → packageAnchor → text → lifecycleSnapshot → IO (result package_err A)) : IO (result package_err A) :=
  refuse negb requireLifecycleManager with ManagerInvalid;;
  with_anchor (λ anchorRoleFD,
    must read := readPackageAnchor anchorRoleFD;;
    let '(a, anchorDigest) := read in
    must snapshot := readLifecycleSnapshot;;
    must _ := mret (validateAnchorAgainstSnapshot a anchorDigest (state snapshot));;
    k anchorRoleFD a anchorDigest snapshot).

Definition apply (x : release_env) (goos goarch : text) (input : ApplyInput) (preflight : bool) : IO (result package_err (option Result)) :=
  with_snapshot (λ anchorRoleFD a anchorDigest snapshot,
    must verified := mret (verifyPolicyForPackageAnchor x input a);;
    let '(v, policyAdvanced, policyDigest) := verified in
    must artifactName := mret (artifactNameForRole (role m) (platformOS m) (platformArch m));;
    must d := verifyDecision x goos goarch {|
      BundleRoot := ai_BundleRoot input; ManifestBytes := ai_ManifestBytes input; v_Signature := ManifestSignature input;
      ReleaseKey := ai_ReleaseKey input; v_InstallPolicy := install_policy a v artifactName; LocalOS := platformOS m; LocalArch := platformArch m;
      OwnerGID := ownerGID m; ReaderGID := readerGID m |};;
    refuse negb (bool_decide (KeyID (PolicyKey input) = anchorPolicyKeyID a (PolicyKey input))) with PkgPolicySigner;;
    must _ := verifyRunningLifecycle measured snapshot d;;
    must p := mret (plan_apply a anchorDigest v policyAdvanced policyDigest (KeyID (PolicyKey input)) (state snapshot) d);;
    run_plan anchorRoleFD preflight p).
Definition Apply x goos goarch input := apply x goos goarch input false.
Definition PreflightApply x goos goarch input := apply x goos goarch input true.

(** *** Rollback *)

Definition plan_rollback (toReleaseID : text) (a : packageAnchor) (anchorDigest : text) (snapshot : lifecycleSnapshot) : result package_err receiptRecord :=
  let st := state snapshot in
  reject match journal st with Some j => negb (bool_decide (Phase j = phaseComplete)) | None => true end with RecoverFirst;;
  match previousReceipt snapshot with
  | None => Err RollbackTarget
  | Some previous =>
      reject negb (nonempty toReleaseID) || negb (bool_decide (toReleaseID = Previous (selector st)))
          || negb (bool_decide (toReleaseID = PreviousReleaseID a)) with RollbackTarget;;
      reject (r_Sequence previous <? MinimumReleaseSequence a) || (packageLifecycleGeneration <? MinimumLifecycle a) with RollbackFloor;;
      reject bool_decide (toReleaseID ∈ elems (TombstonedReleaseIDs a)) with RollbackTombstone;;
      Ok previous
  end.
Definition swapped (s : selectorRecord) : selectorRecord := {|
  sel_Schema := selectorSchema; Generation := wrapu64 (Generation s + 1); Current := Previous s; CurrentReceiptSHA256 := PreviousReceiptSHA256 s;
  Previous := Current s; PreviousReceiptSHA256 := CurrentReceiptSHA256 s |}.
Definition rollback_anchor (a : packageAnchor) (anchorDigest : text) (target : selectorRecord) : packageAnchor :=
  a <| pk_Generation := wrapu64 (pk_Generation a + 1) |> <| PreviousSHA256 := anchorDigest |> <| SelectorGeneration := Generation target |>
    <| CurrentReleaseID := Current target |> <| pk_CurrentReceiptSHA256 := CurrentReceiptSHA256 target |>
    <| PreviousReleaseID := Previous target |> <| pk_PreviousReceiptSHA256 := PreviousReceiptSHA256 target |>.
Definition plan_swap (a : packageAnchor) (anchorDigest : text) (s : selectorRecord) (previous : receiptRecord) : result package_err plan :=
  reject (Generation s =? maxGeneration) || (pk_Generation a =? maxGeneration) with ErrResidue;;
  let t := rollback_anchor a anchorDigest (swapped s) in
  targetBytes ← encodePackageAnchor t;
  d ← rollbackDecisionFromReceipt previous anchorDigest (digestBytes targetBytes) (pk_PolicySHA256 a);
  Ok {| plan_decision := d; gate_before := anchorDigest; gate_target := t |}.
Definition rollback (toReleaseID : text) (preflight : bool) : IO (result package_err (option Result)) :=
  with_snapshot (λ anchorRoleFD a anchorDigest snapshot,
    must previous := mret (plan_rollback toReleaseID a anchorDigest snapshot);;
    must _ := verifyRunningLifecycle measured snapshot no_decision;;
    must p := mret (plan_swap a anchorDigest (selector (state snapshot)) previous);;
    run_plan anchorRoleFD preflight p).
Definition Rollback toReleaseID := rollback toReleaseID false.
Definition PreflightRollback toReleaseID := rollback toReleaseID true.

(** *** Recover *)

Definition recover_interrupted (anchorRoleFD : Z) (a : packageAnchor) (anchorDigest : text) (snapshot : lifecycleSnapshot) (j : journalRecord)
    (preflight : bool) : IO (result package_err (option Result)) :=
  refuse bool_decide (Phase j = phasePlanned) || negb (bool_decide (AnchorTargetSHA256 j = anchorDigest))
      || negb (bool_decide (PolicySHA256 j = pk_PolicySHA256 a)) || negb (bool_decide (PreviousSHA256 a = AnchorBeforeSHA256 j))
    with SignedInputRequired;;
  must _ := verifyRunningLifecycle measured snapshot no_decision;;
  must read := readLifecycleReceipt (j_ReleaseID j);;
  let '(receipt, receiptDigest) := read in
  refuse negb (bool_decide (receiptDigest = ReceiptSHA256 j)) || negb (r_Sequence receipt =? j_Sequence j)
      || negb (bool_decide (r_ManifestSHA256 receipt = j_ManifestSHA256 j)) with ErrResidue;;
  must d := mret (decisionFromReceipt (Operation j) receipt (AnchorBeforeSHA256 j) (AnchorTargetSHA256 j) (PolicySHA256 j));;
  run_plan anchorRoleFD preflight {| plan_decision := d; gate_before := AnchorBeforeSHA256 j; gate_target := a |}.
Definition recover (preflight : bool) : IO (result package_err (option Result)) :=
  with_snapshot (λ anchorRoleFD a anchorDigest snapshot,
    let st := state snapshot in
    let settled :=
      must _ := match currentReceipt snapshot with
                | Some _ => verifyRunningLifecycle measured snapshot no_decision
                | None => mret (Ok ())
                end;;
      must r := mret (resultFromSelector (selector st) (currentReceipt snapshot) false false true);;
      mret (Ok (Some r)) in
    match journal st with
    | None => settled
    | Some j => if bool_decide (Phase j = phaseComplete) then settled
                else recover_interrupted anchorRoleFD a anchorDigest snapshot j preflight
    end).
Definition Recover := recover false.
Definition PreflightRecover := recover true.

(** *** A guarded operation on the current runtime *)

Definition current_runtime (snapshot : lifecycleSnapshot) : result package_err receiptRecord :=
  let st := state snapshot in
  match currentReceipt snapshot, runningReceipt snapshot with
  | Some current, Some running =>
      reject negb (nonempty (Current (selector st))) || negb (bool_decide (activeReleaseID st = Current (selector st)))
          || negb (bool_decide (r_ReleaseID current = r_ReleaseID running)) with NoCurrentRuntime;;
      Ok current
  | _, _ => Err NoCurrentRuntime
  end.
Definition WithCurrentRuntimeIdentity (operation : RuntimeIdentity → IO (result package_err ())) : IO (result package_err ()) :=
  refuse negb requireLifecycleManager with ManagerInvalid;;
  with_anchor (λ anchorRoleFD,
    must read := readPackageAnchor anchorRoleFD;;
    let '(a, anchorDigest) := read in
    with_role (λ roleFD,
      must snapshot := readLifecycleSnapshotLocked roleFD;;
      must _ := mret (validateAnchorAgainstSnapshot a anchorDigest (state snapshot));;
      must current := mret (current_runtime snapshot);;
      must _ := verifyRunningLifecycle measured snapshot no_decision;;
      must identity := mret (runtimeIdentityFromReceipt current);;
      operation identity)).
End Lifecycle.
End Manager.

(** ** Opening *)

Definition bad_root (path : text) : bool := negb (canonical_absolute path) || bool_decide (path = [slash]).
Definition openManager (path role goos goarch : text) (uid gid : Z) (strict : bool) : IO (result package_err Manager) :=
  refuse negb (validRole role) with RoleInvalid;;
  refuse bad_root path with RootPath;;
  must fd := openRootChain path uid gid 0x1ed strict;;
  must st := pguard fd (pcall (Fstat fd));;
  mret (Ok {| rootFD := fd; rootDevice := st_Dev (r_stat st); anchorFD := -1; anchorDevice := 0; hasAnchor := false; role := role;
              ownerUID := uid; ownerGID := gid; readerGID := gid; platformOS := goos; platformArch := goarch; rootPath := path;
              enforceExecutablePath := false |}).
(** [filepath.Rel] of clean absolute paths says that [child] is strictly below [parent]. *)
Fixpoint below (parent child : list text) : bool :=
  match parent, child with
  | [], [] => false
  | [], _ :: _ => true
  | p :: parent, c :: child => bool_decide (p = c) && below parent child
  | _ :: _, [] => false
  end.
Definition path_parts (path : text) : list text := filter (λ c, c ≠ []) (Split slash path).
Definition nestedPath (parent child : text) : bool := below (path_parts parent) (path_parts child).
Definition openLifecycleManager (packageRoot rollbackAnchorRoot role goos goarch : text) (uid gid : Z) (strict : bool) : IO (result package_err Manager) :=
  refuse nestedPath packageRoot rollbackAnchorRoot || nestedPath rollbackAnchorRoot packageRoot with RootPath;;
  must m := openManager packageRoot role goos goarch uid gid strict;;
  must fd := pguard (rootFD m) (openRootChain rollbackAnchorRoot uid gid 0x1c0 strict);;
  let both {A} (k : IO (result package_err A)) : IO (result package_err A) := pguard (rootFD m) (pguard fd k) in
  must p := both (pcall (Fstat (rootFD m)));;
  must a := both (pcall (Fstat fd));;
  must _ := both (refuse same_inode (r_stat p) (r_stat a) with RootPath;; mret (Ok ()));;
  mret (Ok {| rootFD := rootFD m; rootDevice := rootDevice m; anchorFD := fd; anchorDevice := st_Dev (r_stat a); hasAnchor := true;
              role := role; ownerUID := uid; ownerGID := gid; readerGID := gid; platformOS := goos; platformArch := goarch;
              rootPath := packageRoot; enforceExecutablePath := strict |}).
Definition OpenLifecycle (packageRoot rollbackAnchorRoot role goos goarch : text) (readerGID : Z) : IO (result package_err Manager) :=
  euid ← sys Geteuid;
  refuse negb (r_number euid =? 0) with ManagerInvalid;;
  refuse (if equals role "provisioner" then negb (readerGID =? 0) else (readerGID <=? 0) || (2 ^ 32 <=? readerGID)) with ManagerInvalid;;
  must m := openLifecycleManager packageRoot rollbackAnchorRoot role goos goarch 0 0 true;;
  mret (Ok {| rootFD := rootFD m; rootDevice := rootDevice m; anchorFD := anchorFD m; anchorDevice := anchorDevice m; hasAnchor := hasAnchor m;
              role := role; ownerUID := ownerUID m; ownerGID := ownerGID m; readerGID := readerGID mod 2 ^ 32; platformOS := platformOS m;
              platformArch := platformArch m; rootPath := rootPath m; enforceExecutablePath := enforceExecutablePath m |}).
(** [Manager.Close]: a package root is closed even if its anchor cannot be. *)
Definition closeManager (m : Manager) : IO (result package_err ()) :=
  must _ := (if hasAnchor m then must _ := pguard (rootFD m) (pcall (Close (anchorFD m)));; mret (Ok ()) else mret (Ok ()));;
  must _ := pcall (Close (rootFD m));;
  mret (Ok ()).
