(* ===== verification/ReleaseSafety.v ===== *)
(** * Properties of releases and policies

    The canonical documents of [Release], the monotonic floor of a policy and the verdict on
    an installation. *)

From stdpp Require Import sorting.
From S2P Require Import Prelude GoIO Text Runes Sha256 Base64 Protocol Identifiers Signing Invitation StrictJson StrictJsonSafety JsonText Release.
Open Scope Z_scope.

(** ** Records whose strings are UTF-8 and whose integers fit their types *)

Definition Source_wf (s : Source) : Prop :=
  ValidString (s_Repository s) ∧ ValidString (s_Commit s) ∧ ValidString (s_ManifestSHA256 s).
Definition Toolchain_wf (t : Toolchain) : Prop := ValidString (GoVersion t) ∧ ValidString (BuilderImage t).
Definition Artifact_wf (a : Artifact) : Prop :=
  ValidString (a_Name a) ∧ ValidString (a_File a) ∧ ValidString (a_SHA256 a) ∧ int64 (a_Size a) ∧ ValidString (a_OS a)
  ∧ ValidString (a_Arch a) ∧ ValidString (a_Role a) ∧ ValidString (a_Format a) ∧ ValidString (a_SSHTarget a) ∧ ValidString (a_SBOM a).
Definition Evidence_wf (e : Evidence) : Prop :=
  ValidString (e_Name e) ∧ ValidString (e_File e) ∧ ValidString (e_SHA256 e) ∧ int64 (e_Size e) ∧ ValidString (e_Kind e).
Definition Manifest_wf (m : Manifest) : Prop :=
  ValidString (m_Schema m) ∧ ValidString (m_Product m) ∧ ValidString (m_Version m) ∧ ValidString (m_ReleaseID m) ∧ uint64 (m_Sequence m)
  ∧ int64 (m_CreatedUnix m) ∧ ValidString (m_Protocol m) ∧ ValidString (m_License m) ∧ uint64 (m_MinimumLifecycle m)
  ∧ Source_wf (m_Source m) ∧ Toolchain_wf (m_Toolchain m) ∧ Forall Artifact_wf (elems (m_Artifacts m))
  ∧ Forall Evidence_wf (elems (m_Evidence m)).
Definition Signature_wf (g : Signature) : Prop :=
  ValidString (g_Schema g) ∧ ValidString (g_KeyID g) ∧ ValidString (g_SHA256 g) ∧ ValidString (g_Signature g).
Definition Policy_wf (p : Policy) : Prop :=
  ValidString (p_Schema p) ∧ ValidString (p_Product p) ∧ uint64 (p_Sequence p) ∧ int64 (p_CreatedUnix p) ∧ ValidString (p_ReleaseKeyID p)
  ∧ uint64 (p_MinimumReleaseSequence p) ∧ uint64 (p_MinimumLifecycle p) ∧ Forall (λ t, ValidString t) (elems (p_TombstonedReleaseIDs p)).

#[export] Instance Artifact_wf_dec a : Decision (Artifact_wf a).
Proof. unfold Artifact_wf, int64. apply _. Defined.
#[export] Instance Evidence_wf_dec e : Decision (Evidence_wf e).
Proof. unfold Evidence_wf, int64. apply _. Defined.
#[export] Instance Manifest_wf_dec m : Decision (Manifest_wf m).
Proof. unfold Manifest_wf, Source_wf, Toolchain_wf, uint64, int64. apply _. Defined.

#[export] Instance Source_lawful : LawfulField Source_field Source_wf.
Proof. lawful_struct Source_field 1. Defined.
#[export] Instance Toolchain_lawful : LawfulField Toolchain_field Toolchain_wf.
Proof. lawful_struct Toolchain_field 1. Defined.
#[export] Instance Artifact_lawful : LawfulField Artifact_field Artifact_wf.
Proof. lawful_struct Artifact_field 1. Defined.
#[export] Instance Evidence_lawful : LawfulField Evidence_field Evidence_wf.
Proof. lawful_struct Evidence_field 1. Defined.
#[export] Instance Policy_lawful : LawfulField Policy_field Policy_wf.
Proof. lawful_struct Policy_field 2. Defined.
#[export] Instance Signature_lawful : LawfulField Signature_field Signature_wf.
Proof. unfold Signature_field. lawful_struct signature_field 1. Defined.
#[export] Instance PolicySignature_lawful : LawfulField PolicySignature_field Signature_wf.
Proof. unfold PolicySignature_field. lawful_struct signature_field 1. Defined.
#[export] Instance Manifest_lawful : LawfulField Manifest_field Manifest_wf.
Proof. lawful_struct Manifest_field 3. Defined.

(** ** Identifiers and keys are plain *)

Lemma valid_id_inv t : valid_id t = true → ∃ id : ID, id ≠ arr_zero IDSize ∧ t = formatID (arr_bytes id).
Proof.
  unfold valid_id. destruct (ParseID t) as [id|] eqn:E; [|done]. intros H. bool_prop. exists id. split; [done|].
  by apply parseID_spec.
Qed.
Lemma plain_id t : valid_id t = true → plain t.
Proof. intros (id & _ & ->)%valid_id_inv. apply plain_formatID. Qed.
Lemma plain_key t : ValidateKeyID t = Ok () → plain t.
Proof.
  intros H. destruct (proj1 (proj1 (ValidateKeyID_exact t)) H) as (d & _ & ->).
  apply plain_app; [by repeat constructor|apply plain_StdEncode].
Qed.
(** ** Order of strings *)

Lemma text_ltb_irrefl s : text_ltb s s = false.
Proof. induction s as [|a s IH]; [done|]. cbn. by rewrite Z.ltb_irrefl, Z.eqb_refl, IH. Qed.
Lemma text_ltb_trans s t u : text_ltb s t = true → text_ltb t u = true → text_ltb s u = true.
Proof.
  revert t u. induction s as [|a s IH]; intros [|b t] [|c u]; try done. cbn.
  intros [H1|[H1 H2]%andb_true_iff]%orb_true_iff [H3|[H3 H4]%andb_true_iff]%orb_true_iff; apply orb_true_iff; bool_prop.
  - left. apply Z.ltb_lt. lia.
  - left. apply Z.ltb_lt. lia.
  - left. apply Z.ltb_lt. lia.
  - right. rewrite (IH t u) by done. rewrite andb_true_r. apply Z.eqb_eq. lia.
Qed.
Lemma text_ltb_total s t : text_ltb s t = false → text_ltb t s = false → s = t.
Proof.
  revert t. induction s as [|a s IH]; intros [|b t]; try done. cbn.
  intros [H1 H2]%orb_false_iff [H3 H4]%orb_false_iff. bool_prop. assert (b2z a = b2z b) as E by lia.
  rewrite E, Z.eqb_refl in *. cbn in *. f_equal; [by apply b2z_inj|by apply IH].
Qed.

(** Strictly increasing, after [previous]. *)
Fixpoint increasing (previous : option text) (l : list text) : Prop :=
  match l with
  | [] => True
  | t :: l => match previous with Some p => text_ltb p t = true | None => True end ∧ increasing (Some t) l
  end.
Lemma increasing_above p l t : increasing (Some p) l → t ∈ l → text_ltb p t = true.
Proof.
  revert p. induction l as [|u l IH]; intros p; [by intros _ ?%elem_of_nil|]. intros [H1 H2] [->|H3]%elem_of_cons; [done|].
  eapply text_ltb_trans; [exact H1|]. by apply IH.
Qed.
Lemma validate_tombstones_inv ids previous : validate_tombstones ids previous = Ok () →
  Forall (λ id, valid_id id = true) ids ∧ increasing previous ids.
Proof.
  revert previous. induction ids as [|id ids IH]; intros previous H; [done|]. cbn [validate_tombstones] in H. ok_inv H. bool_prop.
  destruct (IH _ H) as [H1 H2]. split; [by constructor|]. split; [|done]. destruct previous as [p|]; [|done].
  unfold text_leb in *. bool_prop. done.
Qed.
(** What the merge walk accepts is included. *)
Lemma containsEvery_sub values required : containsEvery values required = true → ∀ t, t ∈ required → t ∈ values.
Proof.
  revert required. induction values as [|v values IH]; intros required; cbn [containsEvery].
  - intros ->%bool_decide_eq_true t Ht. done.
  - destruct required as [|r rest]; [by intros _ t ?%elem_of_nil|]. destruct (text_ltb r v); [done|].
    case_bool_decide as E; intros H t Ht; apply elem_of_cons.
    + subst. apply elem_of_cons in Ht as [->|Ht]; [by left|right]. by eapply IH.
    + right. by eapply IH.
Qed.

(** ** Documents *)

(** The integers of a policy, in their types. *)
Definition policy_ranges (p : Policy) : Prop :=
  uint64 (p_Sequence p) ∧ int64 (p_CreatedUnix p) ∧ uint64 (p_MinimumReleaseSequence p) ∧ uint64 (p_MinimumLifecycle p).
Lemma policy_wf p : policy_ranges p → validate_policy p = Ok () → Policy_wf p.
Proof.
  intros (H1 & H2 & H3 & H4) H. unfold validate_policy in H. ok_inv H. bool_prop.
  destruct (ValidateKeyID (p_ReleaseKeyID p)) as [[]|] eqn:Ek; [|done]. ok_inv H. destruct (validate_tombstones_inv _ _ H) as [Hv _].
  unfold Policy_wf. split_and!; try done.
  - by replace (p_Schema p) with PolicySchema by done.
  - by replace (p_Product p) with owntransit by done.
  - by apply plain_valid, plain_key.
  - eapply list.Forall_impl; [exact Hv|]. intros t Ht. by apply plain_valid, plain_id.
Qed.
Lemma ParsePolicy_EncodePolicy p b : policy_ranges p → EncodePolicy p = Ok b → ParsePolicy b = Ok p.
Proof.
  intros Hr H. pose proof H as Hc. unfold EncodePolicy in H. ok_inv H. apply Ok_inj in H as <-. destruct a.
  pose proof (policy_wf p Hr E) as Hw. unfold ParsePolicy. bool_prop.
  rewrite bool_decide_eq_false_2 by (by apply (Marshal_nonempty Policy_field Policy_wf)).
  rewrite length_app, (proj2 (Z.ltb_ge _ _)) by (cbn [length]; lia). cbn [orb].
  rewrite (Decode_Marshal Policy_field Policy_wf) by (done || apply newline_spaces). rewrite E. cbn [mbind result_bind].
  rewrite Hc. by rewrite bool_decide_eq_true_2.
Qed.
Lemma ParsePolicy_inv b p : ParsePolicy b = Ok p → EncodePolicy p = Ok b ∧ validate_policy p = Ok ().
Proof.
  unfold ParsePolicy. intros H. ok_inv H. destruct (Decode Policy_field b) as [p'|]; [|done]. ok_inv H. destruct a.
  destruct (EncodePolicy p') as [c|] eqn:Ec; [|done]. ok_inv H. injection H as <-. bool_prop. by subst c.
Qed.

Section Env.
Context (x : release_env).

Lemma ParseManifest_Encode m b : Manifest_wf m → Encode x m = Ok b → ParseManifest x b = Ok m.
Proof.
  intros Hw H. pose proof H as Hc. unfold Encode in H. ok_inv H. apply Ok_inj in H as <-. destruct a. unfold ParseManifest. bool_prop.
  rewrite bool_decide_eq_false_2 by (by apply (Marshal_nonempty Manifest_field Manifest_wf)).
  rewrite length_app, (proj2 (Z.ltb_ge _ _)) by (cbn [length]; lia). cbn [orb].
  rewrite (Decode_Marshal Manifest_field Manifest_wf) by (done || apply newline_spaces). rewrite E. cbn [mbind result_bind].
  rewrite Hc. by rewrite bool_decide_eq_true_2.
Qed.
Lemma ParseManifest_inv b m : ParseManifest x b = Ok m → Encode x m = Ok b ∧ Validate x m = Ok ().
Proof.
  unfold ParseManifest. intros H. ok_inv H. destruct (Decode Manifest_field b) as [m'|]; [|done]. ok_inv H. destruct a.
  destruct (Encode x m') as [c|] eqn:Ec; [|done]. ok_inv H. injection H as <-. bool_prop. by subst c.
Qed.

(** *** Signature records *)

Lemma signature_length digest g : plain (ascii_bytes digest) →
  plain (g_Schema g) → plain (g_KeyID g) → plain (g_SHA256 g) → plain (g_Signature g) →
  (length (encodeSignature (signature_field digest) g)
   <= 64 + length (ascii_bytes digest) + length (g_Schema g) + length (g_KeyID g) + length (g_SHA256 g) + length (g_Signature g))%nat.
Proof.
  intros Hd H1 H2 H3 H4. unfold encodeSignature, Marshal. cbn [to_json signature_field member text_field app print].
  cbn [fmap list_fmap Join]. unfold print_string. cbn [fst snd print]. unfold print_string.
  rewrite !(plain_body (ascii_bytes digest)), !(plain_body (g_Schema g)), !(plain_body (g_KeyID g)),
    !(plain_body (g_SHA256 g)), !(plain_body (g_Signature g)) by done.
  change (string_body (ascii_bytes "schema")) with (ascii_bytes "schema").
  change (string_body (ascii_bytes "key_id")) with (ascii_bytes "key_id").
  change (string_body (ascii_bytes "signature")) with (ascii_bytes "signature").
  repeat (rewrite length_app || cbn [length]).
  change (length (ascii_bytes "schema")) with 6%nat. change (length (ascii_bytes "key_id")) with 6%nat.
  change (length (ascii_bytes "signature")) with 9%nat. lia.
Qed.
(** What is signed verifies, with a record of bounded size. *)
Lemma verify_sign_record digest `{!LawfulField (signature_field digest) Signature_wf} schema domain payload key b :
  ed25519_law (re_ed x) → generated (re_ed x) key → plain (ascii_bytes digest) → plain schema → (length (ascii_bytes digest) + length schema <= 1000)%nat →
  field_height (F := signature_field digest) <= maxNestingDepth →
  sign_record x (signature_field digest) schema domain payload key = Ok b →
  b ≠ [] ∧ Z.of_nat (length b) <= MaxSignatureSize
  ∧ ∃ g, verify_record x (signature_field digest) schema domain payload b (ed_public (re_ed x) key) = Ok g
         ∧ g_KeyID g = KeyID (ed_public (re_ed x) key).
Proof.
  intros Hlaw Hgen Hd Hs Hl Hh H. unfold sign_record in H. destruct (Sign (re_ed x) domain payload key) as [sig|] eqn:Es; [|done].
  apply Ok_inj in H as <-. set (g := {| g_Schema := schema |}).
  assert (plain (g_KeyID g) ∧ plain (g_SHA256 g) ∧ plain (g_Signature g)) as (P1 & P2 & P3)
    by (split_and!; [apply plain_KeyID|apply plain_hex|apply plain_StdEncode]).
  assert (Signature_wf g) as Hw by (split_and!; apply plain_valid; done).
  pose proof (signature_length digest g Hd Hs P1 P2 P3) as Hlen. cbn [g_KeyID g_SHA256 g_Signature g_Schema g] in Hlen.
  unfold KeyID in Hlen. rewrite length_app, !length_StdEncode, length_hex_encode, !length_Sum256, (Sign_size _ _ _ _ _ Hlaw Es) in Hlen.
  split_and!.
  - by eapply (Marshal_nonempty (signature_field digest) Signature_wf).
  - transitivity 1500; [|by vm_compute]. clear -Hl Hlen. set (L := length (encodeSignature _ g)) in *. clearbody L.
    change (length keyPrefix) with 7%nat in Hlen.
    change (b64_chars_of Size) with 43%nat in Hlen. change (b64_chars_of SignatureSize) with 86%nat in Hlen. change Size with 32%nat in Hlen.
    change ((4 - 43 mod 4) mod 4)%nat with 1%nat in Hlen. change ((4 - 86 mod 4) mod 4)%nat with 2%nat in Hlen. lia.
  - exists g. split; [|done]. unfold verify_record. unfold encodeSignature. rewrite (Decode_Marshal (signature_field digest) Signature_wf g [newline]) by (done || apply newline_spaces).
    cbn [g_Schema g_KeyID g_SHA256 g_Signature g]. rewrite !bool_decide_eq_true_2 by done. cbn [negb orb].
    rewrite StdDecode_Encode. rewrite bool_decide_eq_true_2 by done. cbn [negb].
    by rewrite (Verify_Sign _ _ _ _ _ Hlaw Hgen Es).
Qed.

Lemma verifySignedPolicy_SignPolicy p key pb sb :
  ed25519_law (re_ed x) → generated (re_ed x) key → policy_ranges p → SignPolicy x p key = Ok (pb, sb) →
  verifySignedPolicy x pb sb (ed_public (re_ed x) key)
  = Ok {| vp_policy := p; vp_keyID := KeyID (ed_public (re_ed x) key); vp_valid := true |}.
Proof.
  intros Hlaw Hgen Hr H. unfold SignPolicy in H. ok_inv H. apply Ok_inj in H as [= -> ->].
  destruct (verify_sign_record "policy_sha256" (LawfulField0 := PolicySignature_lawful) PolicySignatureSchema policySignatureDomain pb key sb Hlaw Hgen) as (H1 & H2 & g & H3 & H4);
    [by repeat constructor..|vm_compute; lia|by vm_compute|exact E0|].
  pose proof (ParsePolicy_EncodePolicy p pb Hr E) as Hp. unfold verifySignedPolicy, bad_sizes.
  unfold EncodePolicy in E. ok_inv E. bool_prop. apply Ok_inj in E.
  pose proof (Marshal_nonempty Policy_field Policy_wf p [newline]) as Hne. rewrite E in Hne.
  rewrite (bool_decide_eq_false_2 (pb = [])) by (apply Hne; [apply policy_wf; [done|by destruct a]|by vm_compute]).
  rewrite (bool_decide_eq_false_2 (sb = [])), (proj2 (Z.ltb_ge _ (Z.of_nat (length sb)))) by (done || lia).
  rewrite <-E at 1. rewrite length_app, (proj2 (Z.ltb_ge _ _)) by (cbn [length]; lia). cbn [orb].
  unfold PolicySignature_field. rewrite H3. cbn [mbind result_bind]. rewrite Hp. cbn [mbind result_bind]. by rewrite H4.
Qed.
Lemma VerifyManifest_SignManifest m key mb sb :
  ed25519_law (re_ed x) → generated (re_ed x) key → Manifest_wf m → SignManifest x m key = Ok (mb, sb) →
  VerifyManifest x mb sb (ed_public (re_ed x) key) = Ok m.
Proof.
  intros Hlaw Hgen Hr H. unfold SignManifest in H. ok_inv H. apply Ok_inj in H as [= -> ->].
  destruct (verify_sign_record "manifest_sha256" (LawfulField0 := Signature_lawful) SignatureSchema signatureDomain mb key sb Hlaw Hgen) as (H1 & H2 & g & H3 & H4);
    [by repeat constructor..|vm_compute; lia|by vm_compute|exact E0|].
  pose proof (ParseManifest_Encode m mb Hr E) as Hp. unfold VerifyManifest, bad_sizes.
  unfold Encode in E. ok_inv E. bool_prop. apply Ok_inj in E.
  pose proof (Marshal_nonempty Manifest_field Manifest_wf m [newline]) as Hne. rewrite E in Hne.
  rewrite (bool_decide_eq_false_2 (mb = [])) by (by apply Hne).
  rewrite (bool_decide_eq_false_2 (sb = [])), (proj2 (Z.ltb_ge _ (Z.of_nat (length sb)))) by (done || lia).
  rewrite <-E at 1. rewrite length_app, (proj2 (Z.ltb_ge _ _)) by (cbn [length]; lia). cbn [orb].
  unfold Signature_field. rewrite H3. cbn [mbind result_bind]. exact Hp.
Qed.
Lemma sign_record_succeeds F schema domain payload key :
  bad_domain domain = false → payload ≠ [] → Z.of_nat (length payload) <= maximumSignaturePayloadSize → length key = PrivateKeySize →
  ∃ sb, sign_record x F schema domain payload key = Ok sb.
Proof.
  intros Hd Hp Hl Hk. unfold sign_record, Sign. assert (bad_payload payload = false) as Hb.
  { apply orb_false_iff. split; [by apply bool_decide_eq_false|by apply Z.ltb_ge]. }
  rewrite Hd, Hb, Hk, Nat.eqb_refl. cbn [orb negb]. rewrite signatureInput_ok by done. cbn [mbind result_bind]. by eexists.
Qed.
Lemma SignPolicy_succeeds p key pb :
  EncodePolicy p = Ok pb → length key = PrivateKeySize → ∃ sb, SignPolicy x p key = Ok (pb, sb).
Proof.
  intros He Hk. unfold SignPolicy. rewrite He. cbn [mbind result_bind]. unfold EncodePolicy in He. ok_inv He. bool_prop. apply Ok_inj in He.
  destruct (sign_record_succeeds PolicySignature_field PolicySignatureSchema policySignatureDomain pb key) as [sb ->]; [by vm_compute| | |done|].
  - rewrite <-He. by intros [_ ?]%app_eq_nil.
  - rewrite <-He, length_app. unfold MaxPolicySize, maximumSignaturePayloadSize in *. cbn [length]. lia.
  - by exists sb.
Qed.
Lemma SignManifest_succeeds m key mb :
  Encode x m = Ok mb → length key = PrivateKeySize → ∃ sb, SignManifest x m key = Ok (mb, sb).
Proof.
  intros He Hk. unfold SignManifest. rewrite He. cbn [mbind result_bind]. unfold Encode in He. ok_inv He. bool_prop. apply Ok_inj in He.
  destruct (sign_record_succeeds Signature_field SignatureSchema signatureDomain mb key) as [sb ->]; [by vm_compute| | |done|].
  - rewrite <-He. by intros [_ ?]%app_eq_nil.
  - rewrite <-He, length_app. unfold MaxManifestSize, maximumSignaturePayloadSize in *. cbn [length]. lia.
  - by exists sb.
Qed.

(** ** Policies *)

Lemma verify_record_inv F schema domain payload sb pk g :
  verify_record x F schema domain payload sb pk = Ok g →
  g_KeyID g = KeyID pk ∧ ∃ sig, ed_verify (re_ed x) pk (domain ++ [Byte.x00] ++ payload) sig = true.
Proof.
  unfold verify_record. destruct (Decode F sb) as [g'|]; [|done]. intros H. ok_inv H. bool_prop.
  destruct (StdDecode (g_Signature g')) as [sig|]; [|done]. ok_inv H.
  destruct (Signing.Verify (re_ed x) domain payload sig pk) as [u|] eqn:Ev; [|done]. injection H as <-. split; [done|]. exists sig.
  unfold Signing.Verify in Ev. ok_inv Ev. bool_prop. rewrite signatureInput_ok in E by done. apply Ok_inj in E. by subst.
Qed.
Lemma verifySignedPolicy_inv pb sb pk v : verifySignedPolicy x pb sb pk = Ok v →
  vp_valid v = true ∧ vp_keyID v = KeyID pk ∧ EncodePolicy (vp_policy v) = Ok pb ∧ validate_policy (vp_policy v) = Ok ()
  ∧ ∃ sig, ed_verify (re_ed x) pk (policySignatureDomain ++ [Byte.x00] ++ pb) sig = true.
Proof.
  unfold verifySignedPolicy. intros H. ok_inv H. apply Ok_inj in H as <-. destruct (ParsePolicy_inv _ _ E0) as [H1 H2].
  destruct (verify_record_inv _ _ _ _ _ _ _ E) as [H3 H4]. by split_and!.
Qed.

(** The anchor that a policy leaves behind. *)
Definition anchor_of (p : Policy) : PolicyAnchor := {|
  pa_HighestPolicySequence := p_Sequence p; pa_MinimumReleaseSequence := p_MinimumReleaseSequence p;
  pa_MinimumLifecycle := p_MinimumLifecycle p; pa_TombstonedReleaseIDs := append_nil (elems (p_TombstonedReleaseIDs p)) |}.
Lemma elems_append_nil {A} (l : list A) : elems (append_nil l) = l.
Proof. by destruct l. Qed.
(** [a'] allows nothing that [a] forbids. *)
Record no_weaker (a a' : PolicyAnchor) : Prop := {
  nw_sequence : pa_HighestPolicySequence a <= pa_HighestPolicySequence a';
  nw_release : pa_MinimumReleaseSequence a <= pa_MinimumReleaseSequence a';
  nw_lifecycle : pa_MinimumLifecycle a <= pa_MinimumLifecycle a';
  nw_tombstones t : t ∈ elems (pa_TombstonedReleaseIDs a) → t ∈ elems (pa_TombstonedReleaseIDs a') }.
#[export] Instance no_weaker_preorder : PreOrder no_weaker.
Proof.
  split; [by constructor|]. intros a b c [H1 H2 H3 H4] [K1 K2 K3 K4]. constructor; [lia..|]. intros t Ht. by apply K4, H4.
Qed.
Lemma VerifyPolicyAdvance_inv pb sb pk a v : VerifyPolicyAdvance x pb sb pk a = Ok v →
  verifySignedPolicy x pb sb pk = Ok v ∧ no_weaker a (anchor_of (vp_policy v))
  ∧ pa_HighestPolicySequence a < p_Sequence (vp_policy v).
Proof.
  unfold VerifyPolicyAdvance. intros H. ok_inv H. apply Ok_inj in H as <-. bool_prop. split; [done|]. split; [|done].
  constructor; cbn [anchor_of pa_HighestPolicySequence pa_MinimumReleaseSequence pa_MinimumLifecycle pa_TombstonedReleaseIDs]; [lia..|].
  rewrite elems_append_nil. by apply containsEvery_sub.
Qed.
Lemma equalStrings_eq l r : equalStrings l r = true → l = r.
Proof.
  revert r. induction l as [|a l IH]; intros [|b r]; try done. cbn. intros [->%bool_decide_eq_true H]%andb_true_iff. by rewrite (IH r).
Qed.
Lemma VerifyPolicyAtAnchor_inv pb sb pk a v : VerifyPolicyAtAnchor x pb sb pk a = Ok v →
  verifySignedPolicy x pb sb pk = Ok v ∧ pa_HighestPolicySequence a = p_Sequence (vp_policy v)
  ∧ pa_MinimumReleaseSequence a = p_MinimumReleaseSequence (vp_policy v) ∧ pa_MinimumLifecycle a = p_MinimumLifecycle (vp_policy v)
  ∧ elems (pa_TombstonedReleaseIDs a) = elems (p_TombstonedReleaseIDs (vp_policy v)).
Proof.
  unfold VerifyPolicyAtAnchor. intros H. ok_inv H. apply Ok_inj in H as <-. unfold NextAnchor in E1. ok_inv E1. apply Ok_inj in E1 as <-.
  cbn [pa_HighestPolicySequence pa_MinimumReleaseSequence pa_MinimumLifecycle pa_TombstonedReleaseIDs] in G0.
  rewrite elems_append_nil in G0. bool_prop.
  match goal with H : equalStrings _ _ = true |- _ => apply equalStrings_eq in H end. by split_and!.
Qed.
Definition advance (a a' : PolicyAnchor) : Prop :=
  ∃ pb sb pk v, VerifyPolicyAdvance x pb sb pk a = Ok v ∧ NextAnchor v = Ok a'.
Lemma advance_inv a a' : advance a a' → no_weaker a a' ∧ pa_HighestPolicySequence a < pa_HighestPolicySequence a'.
Proof.
  intros (pb & sb & pk & v & H & Hn). destruct (VerifyPolicyAdvance_inv _ _ _ _ _ H) as (_ & H1 & H2).
  unfold NextAnchor in Hn. ok_inv Hn. apply Ok_inj in Hn as <-. done.
Qed.
End Env.

(** ** The artifacts of a manifest *)

Lemma validate_artifacts_inv artifacts order s s' : validate_artifacts artifacts order s = Ok s' →
  (∀ k, (k < length artifacts)%nat → a_Name <$> artifacts !! k = order !! k)
  ∧ Forall (λ a, ∃ p, find_profile (a_Name a) = Some p ∧ matches_profile a p = true ∧ validDigest (a_SHA256 a) = true) artifacts.
Proof.
  revert order s. induction artifacts as [|a artifacts IH]; intros order s H; [split; [cbn; lia|done]|].
  cbn [validate_artifacts] in H. ok_inv H. destruct (find_profile (a_Name a)) as [p|] eqn:Ep; [|done]. ok_inv H. bool_prop.
  destruct (IH _ _ H) as [H1 H2]. unfold validateRecord in E. ok_inv E. bool_prop. split.
  - intros [|k] Hk; cbn; [by destruct order|]. rewrite H1 by (cbn in Hk; lia). by destruct order.
  - constructor; [|done]. by exists p.
Qed.
(** The names of a valid manifest are the matrix, in its order. *)
Lemma Validate_names x m : Validate x m = Ok () → a_Name <$> elems (m_Artifacts m) = initialArtifactOrder.
Proof.
  unfold Validate. intros H. ok_inv H. destruct (validate_artifacts_inv _ _ _ _ E) as [H1 _]. bool_prop.
  match goal with H : (length (elems _) =? _)%nat = true |- _ => apply Nat.eqb_eq in H end.
  apply list_eq. intros k. rewrite list_lookup_fmap. destruct (decide (k < length (elems (m_Artifacts m)))%nat) as [Hk|Hk]; [by apply H1|].
  rewrite lookup_ge_None_2, lookup_ge_None_2; [done| |lia]. unfold initialArtifactOrder. rewrite length_fmap. lia.
Qed.
Lemma order_nodup : NoDup initialArtifactOrder.
Proof. apply (bool_decide_unpack _). by vm_compute. Qed.
Lemma artifact_unique x m a b : Validate x m = Ok () →
  a ∈ elems (m_Artifacts m) → b ∈ elems (m_Artifacts m) → a_Name a = a_Name b → a = b.
Proof.
  intros Hv [i Hi]%list_elem_of_lookup [j Hj]%list_elem_of_lookup E. pose proof order_nodup as Hn.
  rewrite <-(Validate_names x m Hv) in Hn.
  assert (i = j) as ->; [|congruence]. eapply NoDup_lookup; [exact Hn|by rewrite list_lookup_fmap, Hi|by rewrite list_lookup_fmap, Hj, E].
Qed.
Lemma select_artifact_inv artifacts p a : select_artifact artifacts p = Ok a →
  a ∈ artifacts ∧ a_Name a = ArtifactName p ∧ a_OS a = ExpectedOS p ∧ a_Arch a = ExpectedArch p ∧ a_Role a = ExpectedRole p
  ∧ (ExpectedArtifactSHA256 p ≠ [] → a_SHA256 a = ExpectedArtifactSHA256 p).
Proof.
  induction artifacts as [|b artifacts IH]; [done|]. cbn [select_artifact]. case_guard G.
  - intros H. destruct (IH H) as [H1 H2]. split; [by apply elem_of_cons; right|done].
  - intros H. ok_inv H. injection H as <-. bool_prop. split_and!; try done; [by apply elem_of_cons; left|].
    intros Hne. match goal with H : _ && _ = false |- _ => apply andb_false_iff in H as [H|H] end; bool_prop; done.
Qed.
Lemma check_tombstones_inv ids id : check_tombstones ids id = Ok () → id ∉ ids.
Proof.
  induction ids as [|t ids IH]; [by intros _ ?%elem_of_nil|]. cbn [check_tombstones]. intros H. ok_inv H. bool_prop.
  apply not_elem_of_cons. split; [done|by apply IH].
Qed.
Lemma VerifyManifest_inv x mb sb pk m : VerifyManifest x mb sb pk = Ok m →
  Encode x m = Ok mb ∧ Validate x m = Ok () ∧ ∃ sig, ed_verify (re_ed x) pk (signatureDomain ++ [Byte.x00] ++ mb) sig = true.
Proof.
  unfold VerifyManifest. intros H. ok_inv H. destruct (ParseManifest_inv _ _ _ H) as [H1 H2].
  by destruct (verify_record_inv _ _ _ _ _ _ _ _ E) as [_ H3].
Qed.

(** ** Properties *)

(** C6. An installation is authorized only by a committed policy that names the signer of the
    manifest: the manifest is the canonical encoding of a valid release whose bytes that key
    signed in the manifest domain, it is newer than everything installed (or exactly the
    release that is being replayed), at or above every floor, on no list of tombstones, and
    the artifact is the only one of the requested name, for the requested platform and role. *)
Theorem install_sound (x : release_env) (mb sb pk : list byte) (p : InstallPolicy) (m : Manifest) (a : Artifact) :
  VerifyForInstall x mb sb pk p = Ok (m, a) →
  ∃ v, VerifiedReleasePolicy p = Some v ∧ vp_valid v = true ∧ p_ReleaseKeyID (vp_policy v) = KeyID pk
    ∧ (∃ sig, ed_verify (re_ed x) pk (signatureDomain ++ [Byte.x00] ++ mb) sig = true)
    ∧ Encode x m = Ok mb ∧ Validate x m = Ok ()
    ∧ (HighestSequence p < m_Sequence m ∨ m_Sequence m = HighestSequence p ∧ m_ReleaseID m = ExactReplayReleaseID p)
    ∧ p_MinimumReleaseSequence (vp_policy v) <= m_Sequence m ∧ p_MinimumLifecycle (vp_policy v) <= RunningLifecycle p
    ∧ m_MinimumLifecycle m <= RunningLifecycle p
    ∧ m_ReleaseID m ∉ elems (ip_TombstonedReleaseIDs p) ∧ m_ReleaseID m ∉ elems (p_TombstonedReleaseIDs (vp_policy v))
    ∧ a ∈ elems (m_Artifacts m) ∧ a_Name a = ArtifactName p ∧ a_OS a = ExpectedOS p ∧ a_Arch a = ExpectedArch p
    ∧ a_Role a = ExpectedRole p ∧ (∀ b, b ∈ elems (m_Artifacts m) → a_Name b = ArtifactName p → b = a).
Proof.
  unfold VerifyForInstall. intros H. ok_inv H. destruct (VerifiedReleasePolicy p) as [v|] eqn:Ev; [|done]. ok_inv H.
  apply Ok_inj in H as [= -> ->]. destruct (VerifyManifest_inv _ _ _ _ _ E) as (He & Hv & Hs).
  destruct (select_artifact_inv _ _ _ E1) as (Ha & Hn & Ho & Har & Hr & _). destruct a1. apply check_tombstones_inv in E0.
  rewrite not_elem_of_app in E0. destruct E0 as [T1 T2]. bool_prop. exists v. split_and!; try done.
  - match goal with H : (m_Sequence m <=? _) && _ = false |- _ => apply andb_false_iff in H as [?|[? ?]%orb_false_iff]; [left|right] end;
      bool_prop; [lia|split; [lia|done]].
  - intros b Hb Eb. eapply artifact_unique; [done..|by rewrite Hn].
Qed.

(** C12. Signed documents. What is accepted is exactly what the encoder writes: there is one
    encoding per policy and per manifest, and a value in range is read back from it. A
    verified policy or manifest is the canonical encoding of what is returned, with a signature
    of these bytes in the document's own domain. And, under the documented law of Ed25519, what
    a generated key signs is verified by its public key. *)
Theorem documents_exact (x : release_env) :
  (∀ p b, ParsePolicy b = Ok p → EncodePolicy p = Ok b)
  ∧ (∀ p b, policy_ranges p → EncodePolicy p = Ok b → ParsePolicy b = Ok p)
  ∧ (∀ m b, ParseManifest x b = Ok m → Encode x m = Ok b)
  ∧ (∀ m b, Manifest_wf m → Encode x m = Ok b → ParseManifest x b = Ok m)
  ∧ (∀ pb sb pk v, verifySignedPolicy x pb sb pk = Ok v →
       EncodePolicy (vp_policy v) = Ok pb ∧ vp_keyID v = KeyID pk
       ∧ ∃ sig, ed_verify (re_ed x) pk (policySignatureDomain ++ [Byte.x00] ++ pb) sig = true)
  ∧ (∀ mb sb pk m, VerifyManifest x mb sb pk = Ok m →
       Encode x m = Ok mb ∧ ∃ sig, ed_verify (re_ed x) pk (signatureDomain ++ [Byte.x00] ++ mb) sig = true)
  ∧ (ed25519_law (re_ed x) → ∀ key, generated (re_ed x) key →
       (∀ p pb sb, policy_ranges p → SignPolicy x p key = Ok (pb, sb) →
          verifySignedPolicy x pb sb (ed_public (re_ed x) key)
          = Ok {| vp_policy := p; vp_keyID := KeyID (ed_public (re_ed x) key); vp_valid := true |})
       ∧ ∀ m mb sb, Manifest_wf m → SignManifest x m key = Ok (mb, sb) →
          VerifyManifest x mb sb (ed_public (re_ed x) key) = Ok m).
Proof.
  split_and!.
  - by intros p b [H _]%ParsePolicy_inv.
  - intros p b Hr. by apply ParsePolicy_EncodePolicy.
  - by intros m b [H _]%ParseManifest_inv.
  - intros m b Hw. by apply ParseManifest_Encode.
  - intros pb sb pk v Hv. destruct (verifySignedPolicy_inv _ _ _ _ _ Hv) as (_ & H2 & H1 & _ & H3). split_and!; done.
  - intros mb sb pk m Hv. destruct (VerifyManifest_inv _ _ _ _ _ Hv) as (H1 & _ & H3). split; done.
  - intros Hlaw key Hgen. split; [intros p pb sb; by apply verifySignedPolicy_SignPolicy|intros m mb sb; by apply VerifyManifest_SignManifest].
Qed.

(** C10. The policy is a monotonic floor: along any sequence of accepted advances the policy
    sequence strictly grows, so no policy is accepted twice, and no floor is lowered and no
    tombstone is lost; so what a later committed policy authorizes, no earlier one forbids. *)
Theorem policy_monotone (x : release_env) (a a' : PolicyAnchor) : tc (advance x) a a' →
  pa_HighestPolicySequence a < pa_HighestPolicySequence a' ∧ no_weaker a a'
  ∧ ∀ pb sb pk v id seq lifecycle, VerifyPolicyAtAnchor x pb sb pk a' = Ok v →
      AuthorizeRetainedRelease v id seq lifecycle = Ok () →
      pa_MinimumReleaseSequence a <= seq ∧ pa_MinimumLifecycle a <= lifecycle ∧ id ∉ elems (pa_TombstonedReleaseIDs a).
Proof.
  intros Ht. assert (pa_HighestPolicySequence a < pa_HighestPolicySequence a' ∧ no_weaker a a') as [Hl Hw].
  { induction Ht as [a a' H|a b a' H _ [IH1 IH2]]; destruct (advance_inv _ _ _ H) as [H1 H2]; [done|].
    split; [lia|by etransitivity]. }
  split_and!; [done..|]. intros pb sb pk v id seq lifecycle Hv Ha.
  destruct (VerifyPolicyAtAnchor_inv _ _ _ _ _ _ Hv) as (_ & _ & E1 & E2 & E3). destruct Hw as [_ N1 N2 N3].
  unfold AuthorizeRetainedRelease in Ha. ok_inv Ha. bool_prop. split_and!; [lia..|]. intros Hin%N3. by rewrite E3 in Hin.
Qed.

(** ** Witnesses *)

Definition demo_url : URL := {|
  Scheme := ascii_bytes "https"; Host := ascii_bytes "github.com"; Hostname := ascii_bytes "github.com"; Port := []; has_User := false;
  RawQuery := []; Fragment := []; ForceQuery := false; Opaque_part := []; RawPath := []; Path := ascii_bytes "/sentrybottale/owntransit";
  url_String := canonicalRepository |}.
Definition demo_env : release_env := {|
  re_ed := demo_ed; re_parse_url := λ t, if bool_decide (t = canonicalRepository) then Some demo_url else None;
  QueryEscape := id; PathEscape := id; format_time := λ _, [] |}.
Definition demo_id (n : Z) : text := formatID (replicate 31 Byte.x00 ++ [z2b n]).
Definition demo_private : list byte := replicate 64 Byte.x05.
Definition demo_public : list byte := replicate 32 Byte.x05.
Definition demo_digest : text := hex_encode (replicate 32 Byte.x07).
Definition demo_evidence (name file kind : string) : Evidence := {|
  e_Name := ascii_bytes name; e_File := ascii_bytes file; e_SHA256 := demo_digest; e_Size := 10; e_Kind := ascii_bytes kind |}.
Definition demo_sboms : list Evidence :=
  (λ n, {| e_Name := ascii_bytes "sbom-" ++ n; e_File := ascii_bytes "evidence/sbom-" ++ n; e_SHA256 := demo_digest; e_Size := 10;
           e_Kind := ascii_bytes "sbom" |}) <$> sort_strings initialArtifactOrder.
Definition demo_manifest : Manifest := {|
  m_Schema := ManifestSchema; m_Product := owntransit; m_Version := ascii_bytes "1.0.0"; m_ReleaseID := demo_id 1; m_Sequence := 7;
  m_CreatedUnix := 1700000000; m_Protocol := LegacyV1Protocol; m_License := ascii_bytes "Apache-2.0"; m_MinimumLifecycle := 1;
  m_Source := {| s_Repository := canonicalRepository; s_Commit := hex_encode (replicate 20 Byte.x07); s_Dirty := false;
                 s_ManifestSHA256 := demo_digest |};
  m_Toolchain := {| GoVersion := ascii_bytes "go1.24.1"; BuilderImage := ascii_bytes "docker.io/library/golang@sha256:" ++ demo_digest |};
  m_Artifacts := Some ((λ a, a <| a_SHA256 := demo_digest |> <| a_Size := 10 |>) <$> ArtifactMatrix);
  m_Evidence := Some (demo_evidence "project-license" "LICENSE" "project-license" :: demo_evidence "provenance" "evidence/provenance.json" "provenance"
                      :: demo_sboms ++ [demo_evidence "third-party-licenses" "evidence/THIRD_PARTY_LICENSES.txt" "licenses"]) |}.
Definition demo_policy (sequence : Z) : Policy := {|
  p_Schema := PolicySchema; p_Product := owntransit; p_Sequence := sequence; p_CreatedUnix := 1700000000;
  p_ReleaseKeyID := keyPrefix ++ StdEncode (replicate 32 Byte.x07); p_MinimumReleaseSequence := sequence; p_MinimumLifecycle := 1;
  p_TombstonedReleaseIDs := Some [demo_id 2] |}.
Definition demo_install : InstallPolicy := {|
  HighestSequence := 6; RunningLifecycle := 1; ArtifactName := ascii_bytes "client-linux-amd64"; ExpectedOS := ascii_bytes "linux";
  ExpectedArch := ascii_bytes "amd64"; ExpectedRole := ascii_bytes "client"; ExpectedArtifactSHA256 := []; ip_TombstonedReleaseIDs := None;
  VerifiedReleasePolicy := Some {| vp_policy := (demo_policy 3) <| p_ReleaseKeyID := KeyID demo_public |>; vp_keyID := []; vp_valid := true |};
  ExactReplayReleaseID := [] |}.

Lemma demo_encodes : ∃ mb, Encode demo_env demo_manifest = Ok mb.
Proof. assert (is_ok (Encode demo_env demo_manifest) = true) as H by (by vm_compute). destruct (Encode _ _) as [mb|]; [by exists mb|done]. Qed.
Lemma demo_manifest_wf : Manifest_wf demo_manifest.
Proof. apply (bool_decide_unpack _). vm_compute. exact I. Qed.
Definition demo_artifact : Artifact := nth 1 (elems (m_Artifacts demo_manifest)) (MkArtifact [] [] [] 0 [] [] [] [] [] []).
Lemma demo_key_size : length demo_private = PrivateKeySize.
Proof. done. Qed.

Lemma install_sound_witness : ∃ mb sb m a,
  VerifyForInstall demo_env mb sb demo_public demo_install = Ok (m, a)
  ∧ a_Name a = ascii_bytes "client-linux-amd64" ∧ m_ReleaseID m ∉ [demo_id 2].
Proof.
  destruct demo_encodes as [mb He]. destruct (SignManifest_succeeds demo_env demo_manifest demo_private mb He demo_key_size) as [sb Hs].
  pose proof (VerifyManifest_SignManifest demo_env _ demo_private _ _ demo_ed_law (demo_generated Byte.x05) demo_manifest_wf Hs) as Hv.
  change (ed_public (re_ed demo_env) demo_private) with demo_public in Hv.
  exists mb, sb, demo_manifest, demo_artifact.
  assert (VerifyForInstall demo_env mb sb demo_public demo_install = Ok (demo_manifest, demo_artifact)) as H.
  { unfold VerifyForInstall. rewrite Hv. cbn [VerifiedReleasePolicy demo_install vp_valid vp_policy].
    rewrite (bool_decide_eq_true_2 (p_ReleaseKeyID _ = KeyID demo_public)) by reflexivity. vm_compute. reflexivity. }
  split; [exact H|]. destruct (install_sound _ _ _ _ _ _ _ H) as (v & [= <-] & _ & _ & _ & _ & _ & _ & _ & _ & _ & _ & Ht & _ & Hn & _).
  split; [exact Hn|exact Ht].
Defined.
Lemma demo_policy_encodes n : n ∈ [1; 2] → ∃ pb, EncodePolicy (demo_policy n) = Ok pb.
Proof.
  intros Hn. assert (is_ok (EncodePolicy (demo_policy n)) = true) as H
    by (rewrite !elem_of_cons, elem_of_nil in Hn; destruct Hn as [->|[->|[]]]; by vm_compute).
  destruct (EncodePolicy _) as [pb|]; [by exists pb|done].
Qed.
Lemma documents_exact_witness : ∃ pb mb sb, ParsePolicy pb = Ok (demo_policy 1) ∧ ParseManifest demo_env mb = Ok demo_manifest
  ∧ VerifyManifest demo_env mb sb demo_public = Ok demo_manifest.
Proof.
  destruct (demo_policy_encodes 1) as [pb Hp]; [by left|]. destruct demo_encodes as [mb Hm].
  destruct (SignManifest_succeeds demo_env demo_manifest demo_private mb Hm demo_key_size) as [sb Hs]. exists pb, mb, sb.
  destruct (documents_exact demo_env) as (_ & H1 & _ & H2 & _ & _ & H3).
  split; [apply H1; [by repeat split|exact Hp]|]. split; [apply H2; [exact demo_manifest_wf|exact Hm]|].
  exact (proj2 (H3 demo_ed_law demo_private (demo_generated Byte.x05)) demo_manifest mb sb demo_manifest_wf Hs).
Defined.

Definition no_anchor : PolicyAnchor := {|
  pa_HighestPolicySequence := 0; pa_MinimumReleaseSequence := 0; pa_MinimumLifecycle := 0; pa_TombstonedReleaseIDs := None |}.
(** The first policy and a stricter second one are accepted. *)
Lemma demo_advance a n : n ∈ [1; 2] → validatePolicyAnchor a = Ok () → pa_HighestPolicySequence a < n →
  pa_MinimumReleaseSequence a <= n → pa_MinimumLifecycle a <= 1 →
  containsEvery (elems (p_TombstonedReleaseIDs (demo_policy n))) (elems (pa_TombstonedReleaseIDs a)) = true →
  advance demo_env a (anchor_of (demo_policy n)).
Proof.
  intros Hn Ha H1 H2 H3 H4. destruct (demo_policy_encodes n Hn) as [pb Hp].
  destruct (SignPolicy_succeeds demo_env _ demo_private pb Hp demo_key_size) as [sb Hs].
  assert (policy_ranges (demo_policy n)) as Hr by (rewrite !elem_of_cons, elem_of_nil in Hn; destruct Hn as [->|[->|[]]]; by repeat split).
  pose proof (verifySignedPolicy_SignPolicy demo_env _ demo_private _ _ demo_ed_law (demo_generated Byte.x05) Hr Hs) as Hv.
  exists pb, sb, (ed_public (re_ed demo_env) demo_private), {| vp_policy := demo_policy n; vp_keyID := KeyID (ed_public (re_ed demo_env) demo_private); vp_valid := true |}.
  split; [|reflexivity]. unfold VerifyPolicyAdvance. rewrite Hv.
  cbn [mbind result_bind vp_policy]. assert (bad_sizes MaxPolicySize pb sb = false) as ->.
  { revert Hv. unfold verifySignedPolicy. by destruct (bad_sizes _ _ _). }
  rewrite Ha. cbn [mbind result_bind]. rewrite (proj2 (Z.leb_gt _ _)), !(proj2 (Z.ltb_ge _ _)), H4 by done. reflexivity.
Qed.
Lemma policy_monotone_witness :
  no_weaker no_anchor (anchor_of (demo_policy 2)) ∧ 0 < pa_HighestPolicySequence (anchor_of (demo_policy 2)).
Proof.
  destruct (policy_monotone demo_env no_anchor (anchor_of (demo_policy 2))) as (H1 & H2 & _); [|exact (conj H2 H1)].
  eapply (tc_l _ _ (anchor_of (demo_policy 1))); [|apply tc_once]; apply demo_advance;
    first [by left|by right; left|reflexivity|done|lia].
Defined.

(** ** The long s *)

(** A key spelt with U+017F: [strings.ToLower] leaves that rune as it is, and [encoding/json]
    folds it into the letter s when it looks for the field. *)
Definition long_s_key : text := ascii_bytes "go_ver" ++ [Byte.xc5; Byte.xbf] ++ ascii_bytes "ion".
Definition aliased_toolchain : list byte :=
  print (JObject [(ascii_bytes "go_version", JString (ascii_bytes "go1.1")); (long_s_key, JString (ascii_bytes "go1.2"));
                  (ascii_bytes "builder_image", JString [])]).
(** The check for aliases passes and one field is assigned twice; with a capital S it refuses. *)
Lemma alias_assigned_twice :
  Decode Toolchain_field aliased_toolchain = Some (MkToolchain (ascii_bytes "go1.2") [])
  ∧ Decode Toolchain_field (print (JObject [(ascii_bytes "go_version", JString []); (ascii_bytes "go_verSion", JString [])])) = None.
Proof. split; vm_compute; reflexivity. Qed.
