(* ===== verification/PackageSafety.v ===== *)
(** * Properties of package records and lifecycle decisions

    The canonical records of [PackageData], the external anchor as a monotonic floor, and the
    plans of an installation and of a rollback in [PackageTxn]. *)

From S2P Require Import Prelude GoIO Text Runes Sha256 Base64 Protocol Identifiers Signing Invitation StrictJson StrictJsonSafety JsonText Syscalls SecureFS Release ReleaseSafety ReleaseBundle PackageData PackageStorage PackageTxn.

(** ** Records whose integers fit their types *)

Definition uint32 (z : Z) : Prop := 0 <= z < 2 ^ 32.
Definition selector_ranges (s : selectorRecord) : Prop := uint64 (Generation s).
Definition journal_ranges (j : journalRecord) : Prop := uint64 (j_Sequence j) ∧ selector_ranges (Before j) ∧ selector_ranges (Target j).
Definition receipt_ranges (r : receiptRecord) : Prop :=
  uint64 (r_Sequence r) ∧ Forall (λ f, int64 (rf_Size f) ∧ uint32 (rf_Mode f) ∧ uint32 (rf_GID f)) (elems (r_Files r)).
Definition anchor_ranges (a : packageAnchor) : Prop :=
  uint64 (pk_Generation a) ∧ uint64 (HighestPolicySequence a) ∧ uint64 (MinimumReleaseSequence a) ∧ uint64 (MinimumLifecycle a)
  ∧ uint64 (HighestReleaseSequence a) ∧ uint64 (SelectorGeneration a).

Definition phase_wf (p : journalPhase) : Prop := known_phase p = true.
Definition operation_wf (o : decisionOperation) : Prop := known_operation o = true.
Definition selector_wf (s : selectorRecord) : Prop :=
  ValidString (sel_Schema s) ∧ uint64 (Generation s) ∧ ValidString (Current s) ∧ ValidString (CurrentReceiptSHA256 s)
  ∧ ValidString (Previous s) ∧ ValidString (PreviousReceiptSHA256 s).
Definition journal_wf (j : journalRecord) : Prop :=
  ValidString (j_Schema j) ∧ phase_wf (Phase j) ∧ operation_wf (Operation j) ∧ ValidString (j_Role j) ∧ ValidString (j_ReleaseID j)
  ∧ uint64 (j_Sequence j) ∧ ValidString (j_ManifestSHA256 j) ∧ ValidString (ReceiptSHA256 j) ∧ ValidString (PolicySHA256 j)
  ∧ ValidString (AnchorBeforeSHA256 j) ∧ ValidString (AnchorTargetSHA256 j) ∧ ValidString (RetiredReleaseID j)
  ∧ ValidString (RetiredReceiptSHA256 j) ∧ selector_wf (Before j) ∧ selector_wf (Target j).
Definition receiptFile_wf (f : receiptFile) : Prop :=
  ValidString (rf_ArtifactName f) ∧ ValidString (rf_Name f) ∧ ValidString (rf_SHA256 f) ∧ int64 (rf_Size f) ∧ uint32 (rf_Mode f) ∧ uint32 (rf_GID f).
Definition receipt_wf (r : receiptRecord) : Prop :=
  ValidString (r_Schema r) ∧ ValidString (r_Role r) ∧ ValidString (r_OS r) ∧ ValidString (r_Arch r) ∧ ValidString (r_ReleaseID r)
  ∧ uint64 (r_Sequence r) ∧ ValidString (r_ManifestSHA256 r) ∧ Forall receiptFile_wf (elems (r_Files r)).
Definition anchor_wf (a : packageAnchor) : Prop :=
  ValidString (pk_Schema a) ∧ uint64 (pk_Generation a) ∧ ValidString (pk_Role a) ∧ ValidString (PreviousSHA256 a)
  ∧ ValidString (pk_PolicyKeyID a) ∧ ValidString (pk_PolicySHA256 a) ∧ ValidString (pk_ReleaseKeyID a) ∧ uint64 (HighestPolicySequence a)
  ∧ uint64 (MinimumReleaseSequence a) ∧ uint64 (MinimumLifecycle a) ∧ Forall (λ t, ValidString t) (elems (TombstonedReleaseIDs a))
  ∧ uint64 (HighestReleaseSequence a) ∧ uint64 (SelectorGeneration a) ∧ ValidString (CurrentReleaseID a)
  ∧ ValidString (pk_CurrentReceiptSHA256 a) ∧ ValidString (PreviousReleaseID a) ∧ ValidString (pk_PreviousReceiptSHA256 a).

#[export] Instance phase_lawful : LawfulField phase_field phase_wf.
Proof. refine {| field_height := 0 |}; by intros []. Defined.
#[export] Instance operation_lawful : LawfulField operation_field operation_wf.
Proof. refine {| field_height := 0 |}; by intros []. Defined.
#[export] Instance selector_lawful : LawfulField selector_field selector_wf.
Proof. lawful_struct selector_field 1. Defined.
#[export] Instance journal_lawful : LawfulField journal_field journal_wf.
Proof. lawful_struct journal_field 2. Defined.
#[export] Instance receiptFile_lawful : LawfulField receiptFile_field receiptFile_wf.
Proof. lawful_struct receiptFile_field 1. Defined.
#[export] Instance receipt_lawful : LawfulField receipt_field receipt_wf.
Proof. lawful_struct receipt_field 3. Defined.
#[export] Instance anchor_lawful : LawfulField anchor_field anchor_wf.
Proof. lawful_struct anchor_field 2. Defined.

(** ** What validation says of the strings *)

Lemma plain_valid_digest t : valid_digest t = true → plain t.
Proof. intros H. unfold valid_digest in H. bool_prop. eapply plain_forallb; [|done]. by intros []. Qed.
Lemma plain_token t : validToken t = true → plain t.
Proof. intros H. unfold validToken in H. bool_prop. eapply plain_forallb; [|done]. by intros []. Qed.
Lemma plain_component t : validComponent t = true → plain t.
Proof. intros H. unfold validComponent in H. bool_prop. by apply plain_token. Qed.
Lemma plain_role t : validRole t = true → plain t.
Proof.
  unfold validRole. intros H%bool_decide_eq_true. apply plain_const.
  cbn [fmap list_fmap] in H. rewrite !elem_of_cons, elem_of_nil in H. destruct H as [->|[->|[->|[->|[]]]]]; by vm_compute.
Qed.
Ltac plain_string :=
  first [assumption|exact plain_nil|done|match goal with |- Is_true (ValidString _) => apply plain_valid | _ => idtac end;
  match goal with
  | H : plain ?t |- plain ?t => exact H
  | H : ?t = [] |- plain ?t => rewrite H; exact plain_nil
  | H : valid_digest ?t = true |- plain ?t => exact (plain_valid_digest t H)
  | H : validReleaseID ?t = true |- plain ?t => exact (plain_id t H)
  | H : validToken ?t = true |- plain ?t => exact (plain_token t H)
  | H : validComponent ?t = true |- plain ?t => exact (plain_component t H)
  | H : validRole ?t = true |- plain ?t => exact (plain_role t H)
  | H : ValidateKeyID ?t = Ok () |- plain ?t => exact (plain_key t H)
  end].

(** A guard made of [||] that does not fire. *)
Ltac guards := repeat match goal with H : orb _ _ = false |- _ => apply orb_false_iff in H as [? ?] end; bool_prop.

Lemma selector_strings s : bad_selector s = false →
  plain (Current s) ∧ plain (CurrentReceiptSHA256 s) ∧ plain (Previous s) ∧ plain (PreviousReceiptSHA256 s) ∧ sel_Schema s = selectorSchema.
Proof.
  unfold bad_selector. intros H. guards. destruct (Generation s =? 0); guards; [split_and!; plain_string|].
  match goal with H : Bool.eqb _ _ = true |- _ => apply eqb_prop in H; rename H into He end.
  destruct (decide (Previous s = [])) as [E|E].
  - rewrite (bool_decide_eq_true_2 _ E) in He. symmetry in He. bool_prop. split_and!; plain_string.
  - rewrite (bool_decide_eq_false_2 _ E) in *. cbn [negb andb] in *. guards. split_and!; plain_string.
Qed.
Lemma selector_fits s : bad_selector s = false → selector_ranges s → selector_wf s.
Proof.
  intros (H1 & H2 & H3 & H4 & E)%selector_strings Hr.
  assert (plain (sel_Schema s)) by (rewrite E; apply plain_const; by vm_compute). unfold selector_wf. split_and!; plain_string.
Qed.
Lemma binding_strings policy before target : anchor_binding policy before target = true → plain policy ∧ plain before ∧ plain target.
Proof. unfold anchor_binding. intros [H|H]%orb_true_iff; bool_prop; subst; split_and!; plain_string. Qed.
Lemma journal_fits j : validateJournal j = Ok () → journal_ranges j → journal_wf j.
Proof.
  unfold validateJournal. intros H (R1 & R2 & R3). ok_inv H. guards.
  match goal with H : validJournalAnchorBinding j = true |- _ => apply binding_strings in H as (? & ? & ?) end.
  match goal with H : Bool.eqb _ _ = true |- _ => apply eqb_prop in H; rename H into He end.
  assert (plain (RetiredReleaseID j) ∧ plain (RetiredReceiptSHA256 j)) as [? ?].
  { destruct (decide (RetiredReleaseID j = [])) as [E|E].
    - rewrite (bool_decide_eq_true_2 _ E) in He. symmetry in He. bool_prop. split; plain_string.
    - rewrite (bool_decide_eq_false_2 _ E) in *. cbn [negb andb] in *. guards. split; plain_string. }
  assert (selector_wf (Before j) ∧ selector_wf (Target j)) as [? ?] by (split; by apply selector_fits).
  assert (plain (j_Schema j)) by (replace (j_Schema j) with journalSchema by done; apply plain_const; by vm_compute).
  unfold journal_wf. split_and!; plain_string.
Qed.
Lemma receipt_files_strings fs previous : validate_receipt_files fs previous = Ok () →
  Forall (λ f, plain (rf_ArtifactName f) ∧ plain (rf_Name f) ∧ plain (rf_SHA256 f)) fs.
Proof.
  revert previous. induction fs as [|f fs IH]; intros previous H; [constructor|]. cbn [validate_receipt_files] in H. ok_inv H.
  unfold bad_receipt_file in *. guards. constructor; [split_and!; plain_string|by eapply IH].
Qed.
Lemma receipt_fits r : validateReceipt r = Ok () → receipt_ranges r → receipt_wf r.
Proof.
  unfold validateReceipt. intros H (R1 & R2). ok_inv H. guards. apply receipt_files_strings in H.
  assert (plain (r_Schema r)) by (replace (r_Schema r) with receiptSchema by done; apply plain_const; by vm_compute).
  unfold receipt_wf. split_and!; try plain_string.
  apply list.Forall_forall. intros f Hf. rewrite list.Forall_forall in R2, H. destruct (R2 f Hf) as (? & ? & ?), (H f Hf) as (? & ? & ?).
  unfold receiptFile_wf. split_and!; plain_string.
Qed.
Lemma is_ok_unit {E} (r : result E ()) : is_ok r = true → r = Ok ().
Proof. by destruct r as [[]|]. Qed.
Lemma anchor_fits a : validatePackageAnchor a = Ok () → anchor_ranges a → anchor_wf a.
Proof.
  unfold validatePackageAnchor. intros H (R1 & R2 & R3 & R4 & R5 & R6). ok_inv H. guards.
  assert (plain (pk_Schema a)) as Hs by (replace (pk_Schema a) with packageAnchorSchema by done; apply plain_const; by vm_compute).
  assert (∀ l, Forall (λ id, valid_id id = true) l → Forall (λ t, ValidString t) l) as Hv
    by (intros l Hl; eapply list.Forall_impl; [exact Hl|]; intros t Ht; by apply plain_valid, plain_id).
  destruct (pk_Generation a =? 0); ok_inv H; guards.
  - unfold empty_anchor_fields in *. bool_prop. unfold anchor_wf. split_and!; try plain_string.
    by match goal with H : elems (TombstonedReleaseIDs a) = [] |- _ => rewrite H end.
  - match goal with H : Bool.eqb _ _ = true |- _ => apply eqb_prop in H; rename H into He end.
    repeat match goal with H : is_ok _ = true |- _ => apply is_ok_unit in H end.
    match goal with H : validate_tombstones _ _ = Ok () |- _ => apply validate_tombstones_inv in H as [Ht _] end.
    assert (plain (PreviousReleaseID a) ∧ plain (pk_PreviousReceiptSHA256 a)) as [? ?].
    { destruct (decide (PreviousReleaseID a = [])) as [E|E].
      - rewrite (bool_decide_eq_true_2 _ E) in He. symmetry in He. bool_prop. split; plain_string.
      - rewrite (bool_decide_eq_false_2 _ E) in *. cbn [negb andb] in *. guards. split; plain_string. }
    unfold anchor_wf. split_and!; first [plain_string|by apply Hv].
Qed.

(** ** Canonical records *)

Section Canonical.
Context {A} (F : Field A) (wf : A → Prop) `{!LawfulField F wf} (validate : A → result package_err ()).
Context (Hh : field_height (F := F) <= maxNestingDepth).
#[local] Notation encode a := (validate a ≫= λ _, encodeCanonical F a).
Lemma decode_encode a b : wf a → encode a = Ok b → decodeCanonical F (λ a, encode a) b = Ok a.
Proof.
  intros Hw He. pose proof He as Hc. apply bind_inv in He as (u & Hu & He). unfold encodeCanonical in He. ok_inv He. apply Ok_inj in He. unfold decodeCanonical.
  subst b. rewrite (bool_decide_eq_false_2 _ (Marshal_nonempty F wf a [newline] Hw Hh)), G. cbn [orb].
  rewrite (Decode_Marshal F wf a [newline] Hw Hh newline_spaces), Hc. cbn [mbind result_bind].
  by rewrite bool_decide_eq_true_2.
Qed.
Lemma decode_inv (encoder : A → result package_err (list byte)) a b : decodeCanonical F encoder b = Ok a → encoder a = Ok b.
Proof.
  unfold decodeCanonical. intros H. ok_inv H. destruct (Decode F b) as [a'|]; [|done]. ok_inv H. apply Ok_inj in H as <-. bool_prop. by subst.
Qed.
End Canonical.

Lemma encodeSelector_inv s b : encodeSelector s = Ok b → bad_selector s = false.
Proof. unfold encodeSelector, validateSelector. intros H. by ok_inv H; ok_inv E. Qed.
Lemma decodeSelector s b : selector_ranges s → encodeSelector s = Ok b → decodeCanonical selector_field encodeSelector b = Ok s.
Proof.
  intros Hr He. refine (decode_encode selector_field selector_wf validateSelector _ s b _ He); [by vm_compute|].
  apply selector_fits; [by eapply encodeSelector_inv|done].
Qed.
Lemma encodeJournal_inv j b : encodeJournal j = Ok b → validateJournal j = Ok ().
Proof. unfold encodeJournal. intros H. ok_inv H. by destruct a. Qed.
Lemma decodeJournal j b : journal_ranges j → encodeJournal j = Ok b → decodeCanonical journal_field encodeJournal b = Ok j.
Proof.
  intros Hr He. refine (decode_encode journal_field journal_wf validateJournal _ j b _ He); [by vm_compute|].
  apply journal_fits; [by eapply encodeJournal_inv|done].
Qed.
Lemma decodeReceipt r b : receipt_ranges r → encodeReceipt r = Ok b → decodeCanonical receipt_field encodeReceipt b = Ok r.
Proof.
  intros Hr He. refine (decode_encode receipt_field receipt_wf validateReceipt _ r b _ He); [by vm_compute|].
  apply receipt_fits; [|done]. unfold encodeReceipt in He. ok_inv He. by destruct a.
Qed.
Lemma encodePackageAnchor_inv a b : encodePackageAnchor a = Ok b → validatePackageAnchor a = Ok ().
Proof. unfold encodePackageAnchor. intros H. ok_inv H. by destruct a0. Qed.
Lemma decodeAnchor a b : anchor_ranges a → encodePackageAnchor a = Ok b → decodeCanonical anchor_field encodePackageAnchor b = Ok a.
Proof.
  intros Hr He. refine (decode_encode anchor_field anchor_wf validatePackageAnchor _ a b _ He); [by vm_compute|].
  apply anchor_fits; [by eapply encodePackageAnchor_inv|done].
Qed.

(** ** The external anchor as a floor *)

(** The floors of an anchor, as the policy anchor of [release]. *)
Definition floors (a : packageAnchor) : PolicyAnchor := {|
  pa_HighestPolicySequence := HighestPolicySequence a; pa_MinimumReleaseSequence := MinimumReleaseSequence a;
  pa_MinimumLifecycle := MinimumLifecycle a; pa_TombstonedReleaseIDs := append_nil (elems (TombstonedReleaseIDs a)) |}.
(** [a'] is the next anchor after [a]: chained to it by its digest, and no weaker. *)
Record successor (a a' : packageAnchor) : Prop := {
  su_floors : no_weaker (floors a) (floors a');
  su_highest : HighestReleaseSequence a <= HighestReleaseSequence a';
  su_generation : pk_Generation a' = pk_Generation a + 1;
  su_chain : PreviousSHA256 a' = digestPackageAnchor a }.

Lemma next_generation g : uint64 g → g =? maxGeneration = false → wrapu64 (g + 1) = g + 1.
Proof. intros Hg H. bool_prop. unfold maxGeneration, uint64, wrapu64 in *. apply Z.mod_small. lia. Qed.
Lemma anchor_of_floors p a' : HighestPolicySequence a' = p_Sequence p → MinimumReleaseSequence a' = p_MinimumReleaseSequence p →
  MinimumLifecycle a' = p_MinimumLifecycle p → TombstonedReleaseIDs a' = append_nil (elems (p_TombstonedReleaseIDs p)) → floors a' = anchor_of p.
Proof. intros E1 E2 E3 E4. unfold floors, anchor_of. by rewrite E1, E2, E3, E4, elems_append_nil. Qed.
Lemma policy_for_anchor x input a v advanced digest : verifyPolicyForPackageAnchor x input a = Ok (v, advanced, digest) →
  no_weaker (floors a) (anchor_of (vp_policy v)) ∧ vp_valid v = true ∧ digest = digestBytes (PolicyBytes input)
  ∧ (advanced = true → HighestPolicySequence a < p_Sequence (vp_policy v)).
Proof.
  unfold verifyPolicyForPackageAnchor. intros H. ok_inv H. fold (floors a) in H. destruct (_ && _) in H.
  - destruct (VerifyPolicyAtAnchor _ _ _ _ _) as [v'|] eqn:E; [|done]. apply Ok_inj in H as [= <- <- <-].
    destruct (VerifyPolicyAtAnchor_inv _ _ _ _ _ _ E) as (Hv & E1 & E2 & E3 & E4).
    destruct (verifySignedPolicy_inv _ _ _ _ _ Hv) as (Hok & _). split_and!; [|done..]. constructor; cbn -[elems append_nil] in *; [lia..|].
    intros t Ht. rewrite elems_append_nil. by rewrite <-E4.
  - destruct (VerifyPolicyAdvance _ _ _ _ _) as [v'|] eqn:E; [|done]. apply Ok_inj in H as [= <- <- <-].
    destruct (VerifyPolicyAdvance_inv _ _ _ _ _ _ E) as (Hv & Hw & Hl).
    destruct (verifySignedPolicy_inv _ _ _ _ _ Hv) as (Hok & _). by split_and!.
Qed.
Lemma target_successor a v digest key s d t : anchor_ranges a → no_weaker (floors a) (anchor_of (vp_policy v)) →
  targetAnchorForInstall a v digest key s d = Ok t →
  successor a t ∧ sequence d <= HighestReleaseSequence t ∧ anchor_selects t s = true ∧ pk_PolicySHA256 t = digest.
Proof.
  intros (Hg & _) Hw H. unfold targetAnchorForInstall in H. ok_inv H. destruct (NextAnchor v) as [n|] eqn:En; [|done]. ok_inv H.
  unfold NextAnchor in En. ok_inv En. apply Ok_inj in En as <-. apply Ok_inj in H as Et. split_and!.
  - assert (floors t = anchor_of (vp_policy v)) as Ef
      by (apply anchor_of_floors; rewrite <-Et; [done..|]; cbn -[elems append_nil]; by rewrite elems_append_nil).
    constructor; [by rewrite Ef|rewrite <-Et; cbn -[digestPackageAnchor]..]; [lia|by apply next_generation|by unfold digestPackageAnchor; rewrite E].
  - rewrite <-Et. cbn. lia.
  - rewrite <-Et. unfold anchor_selects. cbn. by rewrite Z.eqb_refl, !bool_decide_eq_true_2.
  - by rewrite <-Et.
Qed.
Lemma rollback_successor a s : anchor_ranges a → pk_Generation a =? maxGeneration = false →
  successor a (rollback_anchor a (digestPackageAnchor a) (swapped s)).
Proof. intros (Hg & _) H. constructor; cbn -[digestPackageAnchor]; [done|lia|by apply next_generation|done]. Qed.

(** ** Properties *)

(** C9. The external anchor is a hash chain of monotonic floors. Whatever [apply] and [rollback]
    plan against the anchor they read, the anchor that their gate commits is that anchor
    itself or its successor: one generation later, naming its digest, with no policy sequence,
    release floor, lifecycle floor or highest release sequence lowered and no tombstone
    dropped. *)
Theorem anchor_monotone (x : release_env) (a : packageAnchor) : anchor_ranges a →
  (∀ input v advanced policyDigest st d p,
     verifyPolicyForPackageAnchor x input a = Ok (v, advanced, policyDigest) →
     plan_apply a (digestPackageAnchor a) v advanced policyDigest (KeyID (PolicyKey input)) st d = Ok p →
     gate_target p = a ∨ successor a (gate_target p))
  ∧ (∀ s previous p, plan_swap a (digestPackageAnchor a) s previous = Ok p →
       successor a (gate_target p) ∧ floors (gate_target p) = floors a).
Proof.
  intros Ha. split.
  - intros input v advanced pd st d p Hv H. destruct (policy_for_anchor _ _ _ _ _ _ Hv) as (Hw & _).
    assert (∀ s d t, targetAnchorForInstall a v pd (KeyID (PolicyKey input)) s d = Ok t → successor a t) as Ht
      by (intros s d' t Ht; by destruct (target_successor _ _ _ _ _ _ _ Ha Hw Ht)).
    unfold plan_apply in H. ok_inv H.
    assert (∀ r, plan_new a (digestPackageAnchor a) v pd (KeyID (PolicyKey input)) (selector st) d r = Ok p → successor a (gate_target p)) as Hnew.
    { intros r Hn. unfold plan_new in Hn. ok_inv Hn. apply Ok_inj in Hn as <-. by eapply Ht. }
    assert (plan_again a (digestPackageAnchor a) advanced pd st d = Ok p → gate_target p = a) as Hagain.
    { unfold plan_again. intros Hn. ok_inv Hn. destruct (journal st); [|done]. ok_inv Hn. by apply Ok_inj in Hn as <-. }
    revert H. destruct (journal st) as [j|]; [case_guard G|];
      [|case_guard G2; intros H; [by left; apply Hagain|right; by eapply Hnew]..].
    intros H. unfold plan_resume in H. ok_inv H. apply Ok_inj in H as <-. cbn. revert E0. case_guard G3; [by intros E0%Ok_inj; left|].
    intros E0. ok_inv E0. apply Ok_inj in E0 as <-. right. by eapply Ht.
  - intros s previous p H. unfold plan_swap in H. ok_inv H. apply Ok_inj in H as <-. guards. cbn. split; [|done].
    apply rollback_successor; [done|]. by apply Z.eqb_neq.
Qed.

(** C11. Records on disk have one encoding: within the ranges of their integers, a selector, a
    journal, a receipt or an anchor is read from exactly the bytes that its encoder gives. *)
Theorem records_exact :
  (∀ s b, selector_ranges s → decodeCanonical selector_field encodeSelector b = Ok s ↔ encodeSelector s = Ok b)
  ∧ (∀ j b, journal_ranges j → decodeCanonical journal_field encodeJournal b = Ok j ↔ encodeJournal j = Ok b)
  ∧ (∀ r b, receipt_ranges r → decodeCanonical receipt_field encodeReceipt b = Ok r ↔ encodeReceipt r = Ok b)
  ∧ (∀ a b, anchor_ranges a → decodeCanonical anchor_field encodePackageAnchor b = Ok a ↔ encodePackageAnchor a = Ok b).
Proof.
  split_and!; intros ? b Hr; (split; [apply decode_inv|]).
  - by apply decodeSelector.
  - by apply decodeJournal.
  - by apply decodeReceipt.
  - by apply decodeAnchor.
Qed.

(** ** Witnesses *)

Definition demo_file (name : string) : decisionFile := {|
  df_ArtifactName := ascii_bytes "client-linux-amd64"; SourcePath := ascii_bytes name; InstallName := ascii_bytes name;
  df_SHA256 := demo_digest; df_Size := 10; df_Mode := 0x1ed; df_GID := 0 |}.
Definition demo_decision : decision :=
  MkDecision decisionSeal operationInstall (ascii_bytes "/bundle") (demo_id 1) 7 demo_digest (ascii_bytes "client") (ascii_bytes "linux")
    (ascii_bytes "amd64") [demo_file "owntransit"] [] [] [].
Definition demo_anchor : packageAnchor := emptyPackageAnchor (ascii_bytes "client").
Definition demo_state : transactionState := MkState emptySelector None [].
Definition demo_policy_bytes : list byte := Eval vm_compute in Marshal Policy_field (demo_policy 1) ++ [newline].
Definition demo_policy_signature : list byte :=
  Eval vm_compute in match SignPolicy demo_env (demo_policy 1) demo_private with Ok (_, sb) => sb | Err _ => [] end.
Definition demo_input : ApplyInput := {|
  ai_BundleRoot := ascii_bytes "/bundle"; ai_ManifestBytes := []; ManifestSignature := []; ai_ReleaseKey := replicate 32 Byte.x06;
  PolicyBytes := demo_policy_bytes; PolicySignatureBytes := demo_policy_signature; PolicyKey := demo_public |}.
Definition demo_plan : result package_err plan :=
  '(v, advanced, policyDigest) ← verifyPolicyForPackageAnchor demo_env demo_input demo_anchor;
  plan_apply demo_anchor (digestPackageAnchor demo_anchor) v advanced policyDigest (KeyID (PolicyKey demo_input)) demo_state demo_decision.
Lemma demo_plan_ok : (p ← demo_plan; Ok (pk_Generation (gate_target p))) = Ok 1.
Proof. vm_compute. reflexivity. Qed.
Lemma anchor_monotone_witness : ∃ p, demo_plan = Ok p ∧ successor demo_anchor (gate_target p).
Proof.
  pose proof demo_plan_ok as Hp. destruct demo_plan as [p|e] eqn:E; [|discriminate Hp]. exists p. split; [reflexivity|].
  unfold demo_plan in E. apply bind_inv in E as ([[v advanced] policyDigest] & Hv & H).
  assert (anchor_ranges demo_anchor) as Hr by (by repeat split).
  destruct (proj1 (anchor_monotone demo_env demo_anchor Hr) _ _ _ _ _ _ _ Hv H) as [Ht|Ht]; [|exact Ht].
  cbn [mbind result_bind] in Hp. rewrite Ht in Hp. discriminate Hp.
Defined.
Lemma records_exact_witness : ∃ b, encodeSelector emptySelector = Ok b ∧ decodeCanonical selector_field encodeSelector b = Ok emptySelector.
Proof.
  assert (is_ok (encodeSelector emptySelector) = true) as H by (by vm_compute).
  destruct (encodeSelector emptySelector) as [b|] eqn:E; [|done]. exists b. split; [done|].
  apply (proj1 records_exact); [by repeat split|exact E].
Defined.
