(* ===== verification/TraceLogic.v ===== *)
(** * Histories of calls

    Which calls a program of [Syscalls] may make after which others: a triple over the history
    of events, with a condition [ok] that every event must satisfy when it happens. A program
    that is killed makes a prefix of its calls, so the condition holds at every crash point. *)

From S2P Require Import Prelude Syscalls.

(** [c] was made and succeeded. *)
Definition succeeded (c : syscall) (h : list event) : Prop := ∃ r, (c, r) ∈ h ∧ r_errno r = None.
(** [m] was run to its end within the history and returned [a]. *)
Definition returned {A} (m : IO A) (a : A) (h : list event) : Prop := ∃ h1 t h2, h = h1 ++ t ++ h2 ∧ runs m t a.
(** What holds of a history holds of all that extend it. *)
Definition stable (P : list event → Prop) : Prop := ∀ h t, P h → P (h ++ t).

Lemma stable_succeeded c : stable (succeeded c).
Proof. intros h t (r & Hr & He). exists r. by rewrite elem_of_app; split; [left|]. Qed.
Lemma stable_returned {A} (m : IO A) a : stable (returned m a).
Proof. intros h t (h1 & u & h2 & -> & Hu). exists h1, u, (h2 ++ t). by rewrite <- !app_assoc. Qed.
Lemma stable_const (P : Prop) : stable (λ _, P).
Proof. by intros h t H. Qed.
Lemma stable_and P Q : stable P → stable Q → stable (λ h, P h ∧ Q h).
Proof. intros HP HQ h t [H1 H2]. split; [by apply HP|by apply HQ]. Qed.
Lemma stable_or P Q : stable P → stable Q → stable (λ h, P h ∨ Q h).
Proof. intros HP HQ h t [H|H]; [left; by apply HP|right; by apply HQ]. Qed.
Lemma stable_exists {X} (P : X → list event → Prop) : (∀ x, stable (P x)) → stable (λ h, ∃ x, P x h).
Proof. intros HP h t [x H]. exists x. by apply HP. Qed.
Create HintDb history.
#[export] Hint Resolve stable_succeeded stable_returned stable_const stable_and stable_or stable_exists : history.

(** A run of a sequence that succeeds. *)
Lemma runs_then {E A B} (m : IO (result E A)) (f : A → IO (result E B)) t b :
  runs (and_then m f) t (Ok b) → ∃ t1 t2 a, t = t1 ++ t2 ∧ runs m t1 (Ok a) ∧ runs (f a) t2 (Ok b).
Proof. intros (t1 & t2 & [a|e] & -> & H1 & H2)%runs_bind; [by eexists _, _, _|]. by apply runs_ret in H2 as [_ ?]. Qed.
Lemma succeeded_mid c r t1 t2 : r_errno r = None → succeeded c (t1 ++ (c, r) :: t2).
Proof. intros H. exists r. split; [|done]. apply elem_of_app. right. by left. Qed.
Lemma returned_succeeded {A} (m : IO A) a c h : (∀ t, runs m t a → succeeded c t) → returned m a h → succeeded c h.
Proof.
  intros H (h1 & t & h2 & -> & (r & Hr & He)%H). exists r. split; [|done]. rewrite !elem_of_app. by right; left.
Qed.

(** The calls that a script leads to, up to the [n]-th of them. *)
Definition trace {A} (m : IO A) (s : list reply) : list event := fst (fst (m s)).
Lemma prefix_of_trace {A} (m : IO A) s n c : fst <$> trace m s !! n = Some c →
  ∃ r, prefix_of_run m (take n (trace m s) ++ (c, r) :: drop (S n) (trace m s)).
Proof.
  destruct (trace m s !! n) as [[c' r]|] eqn:E; [|done]. intros [= ->]. exists r. rewrite take_drop_middle by done.
  exists s, (snd (fst (m s))), (snd (m s)). unfold trace. by destruct (m s) as [[t s'] o].
Qed.

(** ** Programs that make only plain calls *)

Section Quiet.
Context (plain : syscall → bool).
Definition quiet {A} (m : IO A) : Prop := ∀ s t s' o, m s = (t, s', o) → Forall (λ e, plain e.1 = true) t.

Lemma plain_ret {A} (a : A) : quiet (mret a).
Proof. by intros s t s' o [= <- _ _]. Qed.
Lemma plain_stop {A} : quiet (λ s, ([], s, None) : list event * list reply * option A).
Proof. by intros s t s' o [= <- _ _]. Qed.
Lemma plain_sys c : plain c = true → quiet (sys c).
Proof. intros Hc [|r s] t s' o [= <- _ _]; [done|]. by repeat constructor. Qed.
Lemma plain_bind {A B} (m : IO A) (f : A → IO B) : quiet m → (∀ a, quiet (f a)) → quiet (m ≫= f).
Proof.
  intros Hm Hf s t s' o H. unfold mbind, io_bind in H. destruct (m s) as [[t1 s1] [a|]] eqn:Em.
  - destruct (f a s1) as [[t2 s2] o'] eqn:Ef. injection H as <- _ _. apply Forall_app. split; [by eapply Hm|by eapply Hf].
  - injection H as <- _ _. by eapply Hm.
Qed.
(** A program that looks at the script, as the loops do. *)
Lemma plain_script {A} (m : list reply → IO A) : (∀ s, quiet (m s)) → quiet (λ s, m s s).
Proof. intros H s t s' o Hm. by eapply H. Qed.
Lemma plain_then {E A B} (m : IO (result E A)) (f : A → IO (result E B)) : quiet m → (∀ a, quiet (f a)) → quiet (and_then m f).
Proof. intros Hm Hf. apply plain_bind; [done|]. intros [a|e]; [done|apply plain_ret]. Qed.
Lemma plain_defer {A B} (c : IO B) (m : IO A) : quiet c → quiet m → quiet (deferring c m).
Proof. intros Hc Hm. apply plain_bind; [done|]. intros a. apply plain_bind; [done|]. intros _. apply plain_ret. Qed.
End Quiet.
Lemma plain_mono (p q : syscall → bool) {A} (m : IO A) : (∀ c, p c = true → q c = true) → quiet p m → quiet q m.
Proof. intros Hq Hm s t s' o H. eapply list.Forall_impl; [by eapply Hm|]. intros e He. by apply Hq. Qed.

(** ** Triples *)

Section Holds.
Context (ok : list event → event → Prop).

Definition holds {A} (P : list event → Prop) (m : IO A) (Q : A → list event → Prop) : Prop :=
  ∀ h s t s' o, P h → m s = (t, s', o) →
    (∀ t1 e t2, t = t1 ++ e :: t2 → ok (h ++ t1) e) ∧ (∀ a, o = Some a → Q a (h ++ t)).

Lemma holds_ret {A} (P : list event → Prop) (a : A) Q : (∀ h, P h → Q a h) → holds P (mret a) Q.
Proof.
  intros HQ h s t s' o HP [= <- _ <-]. split; [by intros t1 e t2 Ht; destruct t1|]. intros b [= <-]. rewrite app_nil_r. by apply HQ.
Qed.
Lemma holds_sys P c (Q : reply → list event → Prop) : (∀ h r, P h → ok h (c, r) ∧ Q r (h ++ [(c, r)])) → holds P (sys c) Q.
Proof.
  intros HQ h [|r s] t s' o HP [= <- _ <-]; [by split; [intros t1 e t2 Ht; destruct t1|]|]. destruct (HQ h r HP) as [H1 H2].
  split; [|by intros a [= <-]]. intros t1 e t2 Ht. destruct t1 as [|e1 [|e2 t1]]; try done. injection Ht as <- _. by rewrite app_nil_r.
Qed.
Lemma holds_bind {A B} P (m : IO A) R (f : A → IO B) Q : holds P m R → (∀ a, holds (R a) (f a) Q) → holds P (m ≫= f) Q.
Proof.
  intros Hm Hf h s t s' o HP H. unfold mbind, io_bind in H. destruct (m s) as [[t1 s1] [a|]] eqn:Em.
  - destruct (f a s1) as [[t2 s2] o'] eqn:Ef. injection H as <- _ <-. destruct (Hm _ _ _ _ _ HP Em) as [H1 H1'].
    destruct (Hf a _ _ _ _ _ (H1' a eq_refl) Ef) as [H2 H2']. split; [|by rewrite app_assoc].
    intros u e v Hu. apply app_eq_inv in Hu as [(w & -> & Hw)|(w & -> & Hw)].
    + destruct w as [|e' w]; [rewrite app_nil_r in *; specialize (H2 [] e v); rewrite app_nil_r in H2; by apply H2|]. injection Hw as <- _. by eapply H1.
    + rewrite app_assoc. by eapply H2.
  - injection H as <- _ <-. destruct (Hm _ _ _ _ _ HP Em) as [H1 _]. by split.
Qed.
Lemma holds_then {E A B} P (m : IO (result E A)) R (f : A → IO (result E B)) Q :
  holds P m R → (∀ a, holds (R (Ok a)) (f a) Q) → (∀ e h, R (Err e) h → Q (Err e) h) → holds P (and_then m f) Q.
Proof. intros Hm Hf He. eapply holds_bind; [exact Hm|]. intros [a|e]; [apply Hf|]. apply holds_ret. apply He. Qed.
Lemma holds_weaken {A} P (P' : list event → Prop) (m : IO A) Q (Q' : A → list event → Prop) :
  holds P m Q → (∀ h, P' h → P h) → (∀ a h, Q a h → Q' a h) → holds P' m Q'.
Proof. intros H HP HQ h s t s' o Hh Hm. destruct (H h s t s' o (HP h Hh) Hm) as [H1 H2]. split; [done|]. intros a Ha. by apply HQ, H2. Qed.
(** A fact about the program that its precondition implies. *)
Lemma holds_pure {A} (F : Prop) P (m : IO A) Q : (∀ h, P h → F) → (F → holds P m Q) → holds P m Q.
Proof. intros HF H h s t s' o Hh. apply H; [by eapply HF|done]. Qed.
Lemma holds_try {E A B} P (r : result E A) (f : A → IO (result E B)) Q :
  (∀ a, r = Ok a → holds P (f a) Q) → (∀ e h, P h → Q (Err e) h) → holds P (and_then (mret r) f) Q.
Proof.
  intros Hf He. eapply (holds_bind P _ (λ a h, P h ∧ a = r)); [by apply holds_ret|]. intros a.
  apply (holds_pure (a = r)); [by intros h [_ ?]|]. intros ->. destruct r as [a|e].
  - eapply holds_weaken; [by apply Hf|by intros h [? _]|done].
  - apply holds_ret. intros h [Hh _]. by apply He.
Qed.
(** A program whose calls are all in order is left alone by a stable condition. *)
Lemma holds_quiet {A} plain P (m : IO A) :
  quiet plain m → stable P → (∀ h c r, P h → plain c = true → ok h (c, r)) → holds P m (λ a h, P h ∧ returned m a h).
Proof.
  intros Hq HP Hok h s t s' o Hh Hm. split.
  - intros t1 [c r] t2 ->. apply Hok; [by apply HP|]. apply Hq, Forall_app in Hm as [_ Hm]. by apply Forall_cons_iff in Hm as [Hm _].
  - intros a ->. split; [by apply HP|]. exists h, t, []. rewrite app_nil_r. by split; [|eexists _, _].
Qed.
Lemma holds_defer {A B} plain P (c : IO B) (m : IO A) Q : holds P m Q → quiet plain c → (∀ a, stable (Q a)) →
  (∀ h c r, plain c = true → ok h (c, r)) → holds P (deferring c m) Q.
Proof.
  intros Hm Hc HQ Hok. eapply holds_bind; [exact Hm|]. intros a. eapply holds_bind; [by eapply holds_quiet; eauto|]. intros b.
  apply holds_ret. by intros h [H _].
Qed.

(** The condition holds at every event of a run. *)
Lemma holds_prefix {A} (m : IO A) Q t1 e t2 : holds (λ _, True) m Q → prefix_of_run m (t1 ++ e :: t2) → ok t1 e.
Proof. intros H (s & s' & o & Hm). destruct (H [] s _ s' o I Hm) as [H1 _]. by eapply H1. Qed.
End Holds.
