(* ===== verification/PackageCalls.v ===== *)
(** * The calls of package transactions

    Which calls the operations of [PackageStorage] and [PackageTxn] make: most of them neither
    rename, link nor remove a directory ([calm]); the few that do make one such call, and
    succeed only after it. *)

From stdpp Require Import sorting.
From S2P Require Import Prelude GoIO Text Runes Sha256 Base64 Protocol Identifiers Signing Invitation StrictJson Syscalls SecureFS Release ReleaseBundle PackageData PackageStorage PackageTxn TraceLogic.
Open Scope Z_scope.

(** ** Programs that neither rename nor remove a directory *)

(** No rename, no link, no directory removed. *)
Definition calm (c : syscall) : bool :=
  match c with Renameat _ _ _ | Linkat _ _ _ | Unlinkat _ _ true => false | _ => true end.
Definition plain (c : syscall) : bool := match c with Linkat _ _ _ => true | _ => calm c end.
(** Nor any write. *)
Definition reads (c : syscall) : bool := match c with Write _ _ => false | _ => calm c end.
Notation still := (quiet calm).
Notation silent := (quiet plain).
Lemma calm_plain c : calm c = true → plain c = true.
Proof. by destruct c. Qed.
Lemma reads_calm c : reads c = true → calm c = true.
Proof. by destruct c. Qed.

Create HintDb quiet.
#[export] Hint Constants Opaque : quiet.
Ltac quiet_step :=
  match goal with
  | |- quiet _ (mret _) => apply plain_ret
  | |- quiet _ (sys _) => apply plain_sys; reflexivity
  | |- quiet _ (_ ≫= _) => apply plain_bind; [|intros ?]
  | |- quiet _ (and_then _ _) => apply plain_then; [|intros ?]
  | |- quiet _ (deferring _ _) => apply plain_defer
  | |- quiet _ (let _ := _ in _) => cbv zeta
  | |- quiet _ (match ?x with _ => _ end) => destruct x
  | |- _ => solve [auto with quiet]
  end.
Ltac go_quiet := repeat quiet_step.

Lemma calm_pcall p c : p c = true → quiet p (pcall c).
Proof. intros H. unfold pcall. apply plain_bind; [by apply plain_sys|intros; apply plain_ret]. Qed.
Lemma calm_ignore p c : p c = true → quiet p (ignore c).
Proof. intros H. unfold ignore. apply plain_bind; [by apply plain_sys|intros; apply plain_ret]. Qed.
Lemma calm_pfailing {A} p c e : p c = true → quiet p (pfailing c e : IO (result package_err A)).
Proof. intros H. unfold pfailing. apply plain_bind; [by apply calm_ignore|intros; apply plain_ret]. Qed.
Lemma calm_pguard {A} p fd (m : IO (result package_err A)) : p (Close fd) = true → quiet p m → quiet p (pguard fd m).
Proof. intros Hp H. unfold pguard. apply plain_bind; [done|]. intros [a|e]; [apply plain_ret|by apply calm_pfailing]. Qed.
Lemma calm_finish {A} p fd u (r : result package_err A) : p (Close fd) = true → match u with Some c => p c = true | None => True end →
  quiet p (finish fd u r).
Proof.
  intros Hp H. unfold finish. apply plain_bind; [by apply calm_ignore|]. intros ?. apply plain_bind; [|intros; apply plain_ret].
  destruct u; [by apply calm_ignore|apply plain_ret].
Qed.
#[export] Hint Extern 1 (quiet _ (pcall _)) => (apply calm_pcall; reflexivity) : quiet.
#[export] Hint Extern 1 (quiet _ (ignore _)) => (apply calm_ignore; reflexivity) : quiet.
#[export] Hint Extern 1 (quiet _ (pfailing _ _)) => (apply calm_pfailing; reflexivity) : quiet.
#[export] Hint Extern 1 (quiet _ (finish _ _ _)) => (apply calm_finish; [reflexivity|exact I || reflexivity]) : quiet.
#[export] Hint Extern 5 (quiet plain _) => (apply (plain_mono calm); [exact calm_plain|]) : quiet.
#[export] Hint Extern 6 (quiet calm _) => (apply (plain_mono reads); [exact reads_calm|]) : quiet.
Ltac quiet_go := repeat first [quiet_step | match goal with |- quiet _ (pguard _ _) => apply calm_pguard; [reflexivity|] end].

Lemma silent_acl fd : quiet reads (verifyPackageACL fd).
Proof. unfold verifyPackageACL. generalize 4%nat as n. induction n as [|n IH]; cbn [acl_attempts]; quiet_go. Qed.
#[export] Hint Resolve silent_acl : quiet.
Lemma silent_requireDirectory fd uid gid mode : still (requireDirectory fd uid gid mode).
Proof. unfold requireDirectory. quiet_go. Qed.
#[export] Hint Resolve silent_requireDirectory : quiet.
Lemma silent_ensureDirectory parent name uid gid mode device : still (ensureDirectory parent name uid gid mode device).
Proof. unfold ensureDirectory. quiet_go. Qed.
#[export] Hint Resolve silent_ensureDirectory : quiet.
Lemma silent_ensurePackageDirectory parent name m : still (ensurePackageDirectory parent name m).
Proof. unfold ensurePackageDirectory. quiet_go. Qed.
Lemma silent_requirePackageDirectory fd m : still (requirePackageDirectory fd m).
Proof. unfold requirePackageDirectory. quiet_go. Qed.
Lemma silent_entries directory allowed : still (requireAllowedDirectoryEntries directory allowed).
Proof. unfold requireAllowedDirectoryEntries, directoryNames. quiet_go. Qed.
#[export] Hint Resolve silent_ensurePackageDirectory silent_requirePackageDirectory silent_entries : quiet.
Lemma silent_requireRegularFile fd uid gid mode size : quiet reads (requireRegularFile fd uid gid mode size).
Proof. unfold requireRegularFile. quiet_go. Qed.
#[export] Hint Resolve silent_requireRegularFile : quiet.
Lemma silent_read_loop fd buffer limit contents : quiet reads (read_loop fd buffer limit contents).
Proof.
  intros s. revert contents. induction s as [|r s IH]; intros contents t s' o H; cbn [read_loop] in H; [by injection H as <- _ _|].
  repeat case_match; simplify_eq; repeat constructor; by eapply IH.
Qed.
Lemma silent_writeAll_from fd data : still (SecureFS.writeAll fd data).
Proof.
  intros s. revert data. unfold SecureFS.writeAll. induction s as [|r s IH]; intros data t s' o H; destruct data as [|b data]; cbn [writeAll_from] in H; try by injection H as <- _ _.
  repeat case_match; simplify_eq; repeat constructor; by eapply IH.
Qed.
#[export] Hint Resolve silent_read_loop silent_writeAll_from : quiet.
Lemma silent_writeAll fd data : still (writeAll fd data).
Proof. unfold writeAll. quiet_go. Qed.
Lemma silent_readFD fd limit : quiet reads (readFD fd limit).
Proof. unfold readFD. quiet_go. Qed.
#[export] Hint Resolve silent_writeAll silent_readFD : quiet.
Lemma silent_readOptional directory name mode limit m : quiet reads (readOptionalExactFile directory name mode limit m).
Proof. unfold readOptionalExactFile. quiet_go. Qed.
Lemma silent_removeStage directory stage m : still (removeAuthorizedStage directory stage m).
Proof. unfold removeAuthorizedStage, requireAuthorizedMetadataStage. quiet_go. Qed.
Lemma silent_fill_stage fd contents m : still (fill_stage fd contents m).
Proof. unfold fill_stage. quiet_go. Qed.
Lemma silent_readActiveLink directory name m : still (readActiveLink directory name m).
Proof. unfold readActiveLink. quiet_go. Qed.
#[export] Hint Resolve silent_readOptional silent_removeStage silent_fill_stage silent_readActiveLink : quiet.
Lemma silent_removeLinkStage directory m : still (removeActiveLinkStage directory m).
Proof. unfold removeActiveLinkStage. quiet_go. Qed.
Lemma silent_link_is directory name id m : still (active_link_is directory name id m).
Proof. unfold active_link_is. quiet_go. Qed.
Lemma silent_lock directory name uid gid : still (acquireDescriptorLock directory name uid gid).
Proof. unfold acquireDescriptorLock, open_role_lock, normalizeRoleLock, check_role_lock. quiet_go. Qed.
Lemma silent_close_lock fd : still (close_lock fd).
Proof. unfold close_lock. quiet_go. Qed.
#[export] Hint Resolve silent_removeLinkStage silent_link_is silent_lock silent_close_lock : quiet.
Lemma silent_openOptional directory name : still (openOptionalFile directory name).
Proof. unfold openOptionalFile. quiet_go. Qed.
Lemma silent_verifyOpen fd mode gid size digest m links : still (verifyOpenInstalledFile fd mode gid size digest m links).
Proof. unfold verifyOpenInstalledFile, hashExactFD. quiet_go. Qed.
#[export] Hint Resolve silent_openOptional silent_verifyOpen : quiet.
Lemma silent_verifyInstalled directory name mode gid size digest m : still (verifyInstalledFile directory name mode gid size digest m).
Proof. unfold verifyInstalledFile. quiet_go. Qed.
#[export] Hint Resolve silent_verifyInstalled : quiet.
Lemma silent_close_optional fd : still (close_optional fd).
Proof. unfold close_optional. quiet_go. Qed.
Lemma silent_unlink_stage directory stage : still (unlink_stage directory stage).
Proof. unfold unlink_stage. quiet_go. Qed.
#[export] Hint Resolve silent_close_optional silent_unlink_stage : quiet.
Lemma silent_recover releaseFD f stage m : still (recoverPayloadStage releaseFD f stage m).
Proof. unfold recoverPayloadStage, recover_opened, verify_record_file, requireAuthorizedPartialStage. quiet_go. Qed.
#[export] Hint Resolve silent_recover : quiet.

(** *** Sources and staging *)

Lemma silent_source_dir fd : still (requireProtectedSourceDirectory fd).
Proof. unfold requireProtectedSourceDirectory. quiet_go. Qed.
#[export] Hint Resolve silent_source_dir : quiet.
Lemma silent_bundle_chain components : ∀ fd, still (bundle_chain fd components).
Proof. induction components as [|c rest IH]; intros fd; cbn [bundle_chain]; quiet_go. Qed.
Lemma silent_source_parents components : ∀ fd, still (source_parents fd components).
Proof. induction components as [|c rest IH]; intros fd; cbn [source_parents]; quiet_go. Qed.
#[export] Hint Resolve silent_bundle_chain silent_source_parents : quiet.
Lemma silent_openBundle path : still (openProtectedBundle path).
Proof. unfold openProtectedBundle. quiet_go. Qed.
Lemma silent_openSource bundleFD path size : still (openProtectedSourceFile bundleFD path size).
Proof. unfold openProtectedSourceFile. quiet_go. Qed.
Lemma silent_copy_turns n source destination size : ∀ copied, still (copy_turns n source destination size copied).
Proof. induction n as [|n IH]; intros copied; cbn [copy_turns]; [apply plain_stop|]. quiet_go. Qed.
#[export] Hint Resolve silent_openBundle silent_openSource silent_copy_turns : quiet.
Lemma silent_copy_loop source destination size : still (copy_loop source destination size).
Proof. unfold copy_loop. apply (plain_script calm (λ s, copy_turns (S (length s)) source destination size [])). quiet_go. Qed.
#[export] Hint Resolve silent_copy_loop : quiet.
Lemma silent_publish directory fd stage target filled k : silent k → silent (publish_stage directory fd stage target filled k).
Proof. intros Hk. unfold publish_stage. quiet_go. Qed.
Lemma silent_stageFile releaseFD bundleFD f m : silent (stageAuthenticatedFile releaseFD bundleFD f m).
Proof.
  unfold stageAuthenticatedFile, fill_payload, copyAuthenticatedFile. quiet_go; apply silent_publish; unfold verify_record_file; quiet_go.
Qed.
Lemma silent_publishExact directory target stage contents mode digest m : silent (publishExactBytes directory target stage contents mode digest m).
Proof. unfold publishExactBytes, fill_exact. quiet_go; apply silent_publish; quiet_go. Qed.
#[export] Hint Resolve silent_stageFile silent_publishExact : quiet.
Lemma silent_stage_files releaseFD bundleFD fs m : silent (stage_files releaseFD bundleFD fs m).
Proof. induction fs as [|f fs IH]; cbn [stage_files]; quiet_go. Qed.
Lemma silent_verify_files releaseFD fs m : still (verify_receipt_files releaseFD fs m).
Proof. induction fs as [|f fs IH]; cbn [verify_receipt_files]; quiet_go. Qed.
#[export] Hint Resolve silent_stage_files silent_verify_files : quiet.
Lemma silent_verifyOpenRelease releaseFD r bytes digest m : still (verifyOpenReleaseDirectory releaseFD r bytes digest m).
Proof. unfold verifyOpenReleaseDirectory. quiet_go. Qed.
#[export] Hint Resolve silent_verifyOpenRelease : quiet.
Lemma silent_load releasesFD id m : still (loadAndVerifyRelease releasesFD id m).
Proof. unfold loadAndVerifyRelease. quiet_go. Qed.
#[export] Hint Resolve silent_load : quiet.
Lemma silent_verifyRelease releasesFD id r digest m : still (verifyReleaseDirectory releasesFD id r digest m).
Proof. unfold verifyReleaseDirectory. quiet_go. Qed.
Lemma silent_stageRelease releasesFD bundleFD d r bytes digest m : silent (stageReleaseDirectory releasesFD bundleFD d r bytes digest m).
Proof. unfold stageReleaseDirectory. quiet_go. Qed.
#[export] Hint Resolve silent_verifyRelease silent_stageRelease : quiet.
Lemma silent_retire_files releaseFD fs m : still (retire_files releaseFD fs m).
Proof. induction fs as [|f fs IH]; cbn [retire_files]; quiet_go. Qed.
#[export] Hint Resolve silent_retire_files : quiet.

(** *** The state of a role *)

Section State.
Context (m : Manager).
Lemma silent_require_release releasesFD id digest : still (require_release m releasesFD id digest).
Proof. unfold require_release. quiet_go. Qed.
Hint Resolve silent_require_release : quiet.
Lemma silent_when b k : still k → still (when b k).
Proof. intros H. unfold when. quiet_go. Qed.
Lemma silent_inspect_journal releasesFD j s active : still (inspect_journal m releasesFD j s active).
Proof. unfold inspect_journal, when. quiet_go. Qed.
Hint Resolve silent_inspect_journal : quiet.
Lemma silent_read_record {A} (F : Field A) encoder directory name : still (read_record m F encoder directory name).
Proof. unfold read_record. quiet_go. Qed.
Hint Resolve silent_read_record : quiet.
Lemma silent_inspect roleFD releasesFD : still (inspectTransactionState m roleFD releasesFD).
Proof. unfold inspectTransactionState, readSelector, readJournal, when. quiet_go. Qed.
Lemma silent_cleanStages roleFD p : still (cleanAuthorizedMetadataStages m roleFD p).
Proof. unfold cleanAuthorizedMetadataStages. quiet_go. Qed.
Lemma silent_readAnchor anchorRoleFD : still (readPackageAnchor m anchorRoleFD).
Proof. unfold readPackageAnchor. quiet_go. Qed.
Lemma silent_runHook hook p : still (runHook hook p).
Proof. unfold runHook. quiet_go. Qed.
End State.
#[export] Hint Resolve silent_inspect silent_cleanStages silent_readAnchor silent_runHook : quiet.

(** ** Written bytes *)

(** The bytes that successful calls read from, or wrote to, a descriptor. *)
Definition bytes_read (fd : Z) (t : list event) : list byte :=
  concat ((λ e : event, match e with
                        | (Read f _, r) => if (f =? fd) && bool_decide (r_errno r = None) then r_data r else []
                        | _ => []
                        end) <$> t).
Definition bytes_written (fd : Z) (t : list event) : list byte :=
  concat ((λ e : event, match e with
                        | (Write f l, r) => if (f =? fd) && bool_decide (r_errno r = None) then take (Z.to_nat (r_number r)) l else []
                        | _ => []
                        end) <$> t).
Lemma bytes_read_app fd t u : bytes_read fd (t ++ u) = bytes_read fd t ++ bytes_read fd u.
Proof. unfold bytes_read. by rewrite fmap_app, concat_app. Qed.
Lemma bytes_written_app fd t u : bytes_written fd (t ++ u) = bytes_written fd t ++ bytes_written fd u.
Proof. unfold bytes_written. by rewrite fmap_app, concat_app. Qed.
Lemma writeAll_exact fd data t : runs (SecureFS.writeAll fd data) t (Ok ()) → bytes_written fd t = data ∧ ∀ f, bytes_read f t = [].
Proof.
  intros (s & s' & H). revert data t H. unfold SecureFS.writeAll. induction s as [|r s IH]; intros [|b data] t H; cbn [writeAll_from] in H; simplify_eq; [done..|].
  destruct (r_errno r) as [e|] eqn:Ee.
  - destruct e; try done. destruct (writeAll_from fd (b :: data) s) as [[t1 s1] o] eqn:E. simplify_eq. destruct (IH _ _ E) as [H1 H2].
    split; [|done]. cbn. rewrite Ee, Z.eqb_refl. cbn. exact H1.
  - destruct (r_number r =? 0); [done|]. destruct (negb (valid_count (b :: data) (r_number r))) eqn:Ev; [done|].
    destruct (writeAll_from fd (drop (Z.to_nat (r_number r)) (b :: data)) s) as [[t1 s1] o] eqn:E. simplify_eq. destruct (IH _ _ E) as [H1 H2].
    split; [|done]. unfold bytes_written. cbn [fmap list_fmap concat]. rewrite Ee, Z.eqb_refl. cbn [andb bool_decide].
    rewrite bool_decide_eq_true_2 by done. fold (bytes_written fd t1). rewrite H1. apply take_drop.
Qed.
(** Calls that write nothing, or to no file at all. *)
Lemma reads_unwritten {A} (m : IO A) t a fd : quiet reads m → runs m t a → bytes_written fd t = [].
Proof.
  intros Hq (s & s' & H). apply Hq in H. clear Hq. induction t as [|[c r] t IH]; [done|]. apply Forall_cons_iff in H as [Hc Ht].
  unfold bytes_written in *. cbn [fmap list_fmap concat]. rewrite (IH Ht). by destruct c.
Qed.
(** The file [target] was replaced: exclusively created under the name of its stage, with
    exactly these bytes written to it and synced, and renamed. *)
Definition replaced (directory : Z) (stage target : text) (contents : list byte) (h : list event) : Prop :=
  ∃ before created t synced renamed after,
    h = before ++ (Openat directory stage create_flags 0x180, created) :: t ++ synced ++ (Renameat directory stage target, renamed) :: after
    ∧ r_errno created = None ∧ bytes_written (r_number created) t = contents
    ∧ succeeded (Fsync (r_number created)) synced ∧ bytes_written (r_number created) synced = [] ∧ r_errno renamed = None.
Lemma replaced_app directory stage target contents h1 h h2 :
  replaced directory stage target contents h → replaced directory stage target contents (h1 ++ h ++ h2).
Proof.
  intros (b & c & t & s & r & a & -> & H). exists (h1 ++ b), c, t, s, r, (a ++ h2). split; [|exact H].
  rewrite <-!app_assoc. cbn [app]. by rewrite <-!app_assoc.
Qed.
Lemma stable_replaced directory stage target contents : stable (replaced directory stage target contents).
Proof. intros h t H. by apply (replaced_app _ _ _ _ [] h t). Qed.
Lemma returned_replaced {A} (m : IO A) a directory stage target contents h :
  (∀ t, runs m t a → replaced directory stage target contents t) → returned m a h → replaced directory stage target contents h.
Proof. intros H (h1 & t & h2 & -> & Ht%H). by apply replaced_app. Qed.
(** The link [name] was replaced by one to the release [id], made under the name of its stage. *)
Definition relinked (directory : Z) (id : text) (h : list event) : Prop :=
  ∃ before linked between renamed after,
    h = before ++ (Symlinkat (activeLinkTarget id) directory activeLinkStageName, linked)
          :: between ++ (Renameat directory activeLinkStageName activeLinkName, renamed) :: after
    ∧ r_errno linked = None ∧ r_errno renamed = None.
Lemma relinked_app directory id h1 h h2 : relinked directory id h → relinked directory id (h1 ++ h ++ h2).
Proof.
  intros (b & c & t & r & a & -> & H). exists (h1 ++ b), c, t, r, (a ++ h2). split; [|exact H].
  rewrite <-!app_assoc. cbn [app]. by rewrite <-!app_assoc.
Qed.
Lemma stable_relinked directory id : stable (relinked directory id).
Proof. intros h t H. by apply (relinked_app _ _ [] h t). Qed.
Lemma returned_relinked {A} (m : IO A) a directory id h :
  (∀ t, runs m t a → relinked directory id t) → returned m a h → relinked directory id h.
Proof. intros H (h1 & t & h2 & -> & Ht%H). by apply relinked_app. Qed.
#[export] Hint Resolve stable_replaced stable_relinked : history.

(** ** Commits *)

(** Plain calls, and one that is not. *)
Definition or_call (c c' : syscall) : bool := plain c' || bool_decide (c' = c).
Lemma quiet_or {A} c (m : IO A) : silent m → quiet (or_call c) m.
Proof. apply plain_mono. intros c' H. unfold or_call. by rewrite H. Qed.
Lemma calm_itself c : quiet (or_call c) (pcall c).
Proof. apply calm_pcall. unfold or_call. by rewrite bool_decide_eq_true_2, orb_true_r. Qed.
Lemma quiet_replace directory target stage contents m :
  quiet (or_call (Renameat directory stage target)) (replaceCanonicalFile directory target stage contents m).
Proof.
  unfold replaceCanonicalFile. repeat first [apply calm_itself | quiet_step | apply quiet_or; solve [auto with quiet]].
Qed.
Lemma runs_pcall c t r : runs (pcall c) t (Ok r) → t = [(c, r)] ∧ r_errno r = None.
Proof. unfold pcall. intros (t1 & t2 & a & -> & ->%runs_sys & [-> H]%runs_ret)%runs_bind. destruct (r_errno a) eqn:E; [done|]. by injection H as ->. Qed.
Lemma runs_finish {A} fd u (r a : result package_err A) t : runs (finish fd u r) t a → a = r.
Proof. unfold finish. intros (t1 & t2 & x & -> & _ & (t3 & t4 & y & -> & _ & [_ ->]%runs_ret)%runs_bind)%runs_bind. done. Qed.
Lemma succeeded_app_r c h t : succeeded c t → succeeded c (h ++ t).
Proof. intros (r & Hr & He). exists r. split; [|done]. apply elem_of_app. by right. Qed.
Lemma unwritten_pcall c fd t r : reads c = true → runs (pcall c) t r → bytes_written fd t = [].
Proof. intros Hc. apply reads_unwritten. by apply calm_pcall. Qed.
Lemma fill_stage_written fd contents m t fd' : runs (fill_stage fd contents m) t (fd', Ok ()) →
  ∃ w s, t = w ++ s ∧ bytes_written fd w = contents ∧ succeeded (Fsync fd) s ∧ bytes_written fd s = [].
Proof.
  unfold fill_stage. intros (t1 & t2 & w & -> & H & Hc)%runs_bind. destruct w as [[]|e]; [|by apply runs_ret in Hc as [_ ?]].
  apply runs_bind in Hc as (c1 & c2 & c & -> & Hc%(unwritten_pcall _ fd) & [-> _]%runs_ret); [|done].
  apply runs_then in H as (u1 & u2 & ? & -> & H1%(unwritten_pcall _ fd) & H); [|done].
  apply runs_then in H as (u3 & u4 & ? & -> & H2%(unwritten_pcall _ fd) & H); [|done].
  apply runs_then in H as (u5 & u6 & ? & -> & H3%(reads_unwritten _ _ _ fd) & H); [|auto with quiet].
  apply runs_then in H as (u7 & u8 & [] & -> & H4 & H). unfold writeAll in H4.
  apply runs_bind in H4 as (u9 & u10 & w & -> & H4 & [-> Hx]%runs_ret).
  destruct w as [[]|e]; [|by destruct e]. apply writeAll_exact in H4 as [H4 _].
  apply runs_then in H as (u11 & u12 & r & -> & [-> Hr]%runs_pcall & [-> _]%runs_ret).
  exists (u1 ++ u3 ++ u5 ++ u9), ((Fsync fd, r) :: c1). rewrite !bytes_written_app, H1, H2, H3, H4, app_nil_r.
  split; [by rewrite !app_nil_r, <-!app_assoc|]. split; [done|]. split; [by apply (succeeded_mid _ _ [])|].
  change ((Fsync fd, r) :: c1) with ([(Fsync fd, r)] ++ c1). by rewrite bytes_written_app, Hc.
Qed.
Lemma replace_replaced directory target stage contents m t :
  runs (replaceCanonicalFile directory target stage contents m) t (Ok ()) → replaced directory stage target contents t.
Proof.
  unfold replaceCanonicalFile. intros (t1 & t2 & _ & -> & _ & H)%runs_then. apply runs_then in H as (t3 & t4 & r & -> & [-> Hr]%runs_pcall & H).
  apply runs_bind in H as (t5 & t6 & [fd [[]|e]] & -> & Hf & H); [|by apply runs_finish in H].
  apply runs_bind in H as (t7 & t8 & [x|e] & -> & Ht & H); [|by apply runs_finish in H].
  apply (reads_unwritten _ _ _ (r_number r)) in Ht; [|auto with quiet].
  apply runs_bind in H as (t9 & t10 & [y|e] & -> & Hy & H); [|by apply runs_finish in H]. apply runs_pcall in Hy as [-> Hy].
  apply fill_stage_written in Hf as (w & s & -> & Hw & Hs & Hn).
  exists t1, r, w, (s ++ t7), y, t10. split; [cbn [app]; by rewrite <-!app_assoc|]. split; [done|]. split; [done|].
  split; [by apply stable_succeeded|]. split; [by rewrite bytes_written_app, Hn, Ht|done].
Qed.
Lemma quiet_link directory id m : quiet (or_call (Renameat directory activeLinkStageName activeLinkName)) (replaceActiveLink directory id m).
Proof.
  unfold replaceActiveLink, unlinking. repeat first [apply calm_itself | quiet_step | apply quiet_or; solve [auto with quiet]].
Qed.
Lemma link_relinked directory id m t :
  runs (replaceActiveLink directory id m) t (Ok ()) → relinked directory id t.
Proof.
  unfold replaceActiveLink, unlinking. case_guard G; [by intros [_ ?]%runs_ret|]. intros (t1 & t2 & _ & -> & _ & H)%runs_then.
  apply runs_then in H as (t3 & t4 & r & -> & [-> Hl]%runs_pcall & H). apply runs_then in H as (t5 & t6 & [] & -> & H & _).
  apply runs_bind in H as (t7 & t8 & [[]|e] & -> & H & H'); [|by apply runs_bind in H' as (? & ? & ? & -> & _ & [_ ?]%runs_ret)].
  apply runs_then in H as (u1 & u2 & ? & -> & _ & H). apply runs_then in H as (u3 & u4 & ? & -> & _ & H).
  apply runs_then in H as (u5 & u6 & ? & -> & _ & H). apply runs_then in H as (u7 & u8 & y & -> & [-> Hr]%runs_pcall & _).
  exists t1, r, (u1 ++ u3 ++ u5), y, (u8 ++ t8 ++ t6). split; [|done]. by cbn [app]; rewrite <-!app_assoc.
Qed.

Definition plain_or_rmdir (c : syscall) : bool := plain c || match c with Unlinkat _ _ true => true | _ => false end.
Lemma quiet_retire releasesFD id digest m : quiet plain_or_rmdir (retireReleaseDirectory releasesFD id digest m).
Proof.
  assert (∀ A (k : IO A), silent k → quiet plain_or_rmdir k) as Hp.
  { intros A k. apply plain_mono. intros c H. unfold plain_or_rmdir. by rewrite H. }
  unfold retireReleaseDirectory, remove_release. repeat first [quiet_step | apply Hp; solve [auto with quiet]].
Qed.
