(* ===== verification/KernelDemo.v ===== *)
(** * A kernel to run on

    One process on an empty machine, as a function from calls to replies: enough of a file
    system for the concrete runs that witness the theorems about programs. Nothing is proved
    about it and no theorem assumes it; the replies it gives are the script of a run. *)

From stdpp Require Import sorting.
From S2P Require Import Prelude GoIO Text Runes Invitation Syscalls SecureFS.
Open Scope Z_scope.

Record node := MkNode { kind : Z; perm : Z; owner : Z; group : Z; links : Z; inode : Z; contents : list byte }.
#[export] Instance node_eta : Eta node := λ n, MkNode (kind n) (perm n) (owner n) (group n) (links n) (inode n) (contents n).
Record kernel := MkKernel {
  descriptors : gmap Z Z; offsets : gmap Z Z; entries : gmap (Z * text) Z; nodes : gmap Z node; next_fd : Z; next_inode : Z }.
#[export] Instance kernel_eta : Eta kernel := λ k,
  MkKernel (descriptors k) (offsets k) (entries k) (nodes k) (next_fd k) (next_inode k).

Definition zero_stat : Stat_t := {| st_Mode := 0; st_Nlink := 0; st_Size := 0; st_Uid := 0; st_Gid := 0; st_Dev := 0; st_Ino := 0 |}.
Definition done_with (n : Z) (data : list byte) : reply := {| r_errno := None; r_number := n; r_stat := zero_stat; r_data := data; r_names := [] |}.
Definition yes : reply := done_with 0 [].
Definition no (e : errno) : reply := {| r_errno := Some e; r_number := 0; r_stat := zero_stat; r_data := []; r_names := [] |}.
Definition listing (names : list text) : reply := {| r_errno := None; r_number := 0; r_stat := zero_stat; r_data := []; r_names := names |}.
(** One device, number 5. *)
Definition stat_of (n : node) : reply := {|
  r_errno := None; r_number := 0;
  r_stat := {| st_Mode := kind n + perm n; st_Nlink := links n; st_Size := Z.of_nat (length (contents n)); st_Uid := owner n; st_Gid := group n;
               st_Dev := 5; st_Ino := inode n |};
  r_data := []; r_names := [] |}.

Definition node_of (k : kernel) (fd : Z) : Z := default (-1) (descriptors k !! fd).
Definition open_node (k : kernel) (i : Z) : reply * kernel :=
  (done_with (next_fd k) [],
   k <| descriptors := <[next_fd k := i]> (descriptors k) |> <| offsets := <[next_fd k := 0]> (offsets k) |> <| next_fd := next_fd k + 1 |>).
Definition new_node (k : kernel) (d : Z) (name : text) (n : Z → node) : kernel :=
  k <| entries := <[(d, name) := next_inode k]> (entries k) |> <| nodes := <[next_inode k := n (next_inode k)]> (nodes k) |>
    <| next_inode := next_inode k + 1 |>.
Definition change (k : kernel) (i : Z) (f : node → node) : kernel := k <| nodes := alter f i (nodes k) |>.
(** A call about an existing entry. *)
Definition with_entry (k : kernel) (fd : Z) (name : text) (f : Z → Z → node → reply * kernel) : reply * kernel :=
  match entries k !! (node_of k fd, name) with
  | None => (no ENOENT, k)
  | Some i => match nodes k !! i with Some n => f (node_of k fd) i n | None => (no ENOENT, k) end
  end.

Definition serve (c : syscall) (k : kernel) : reply * kernel :=
  match c with
  | OpenRootDir _ => open_node k 0
  | Openat fd name flags p =>
      let d := node_of k fd in
      if bool_decide (name = dot) then open_node k d
      else match entries k !! (d, name) with
           | Some i => if bool_decide (O_EXCL ∈ flags) then (no EEXIST, k) else open_node k i
           | None => if bool_decide (O_CREAT ∈ flags)
                     then open_node (new_node k d name (λ i, MkNode S_IFREG p 0 0 1 i [])) (next_inode k) else (no ENOENT, k)
           end
  | Fstat fd => match nodes k !! node_of k fd with Some n => (stat_of n, k) | None => (no ENOENT, k) end
  | Fchmod fd p => (yes, change k (node_of k fd) (λ n, n <| perm := p |>))
  | Fchown fd u g => (yes, change k (node_of k fd) (λ n, n <| owner := u |> <| group := g |>))
  | Write fd l => (done_with (Z.of_nat (length l)) [], change k (node_of k fd) (λ n, n <| contents := contents n ++ l |>))
  | Read fd _ =>
      let o := default 0 (offsets k !! fd) in
      let l := match nodes k !! node_of k fd with Some n => drop (Z.to_nat o) (contents n) | None => [] end in
      (done_with (Z.of_nat (length l)) l, k <| offsets := <[fd := o + Z.of_nat (length l)]> (offsets k) |>)
  | Rewind fd => (yes, k <| offsets := <[fd := 0]> (offsets k) |>)
  | Renameat fd old new => with_entry k fd old (λ d i _, (yes, k <| entries := <[(d, new) := i]> (delete (d, old) (entries k)) |>))
  | Unlinkat fd name _ => with_entry k fd name (λ d i _, (yes, change (k <| entries := delete (d, name) (entries k) |>) i (λ n, n <| links := links n - 1 |>)))
  | Linkat fd old new => with_entry k fd old (λ d i _, (yes, change (k <| entries := <[(d, new) := i]> (entries k) |>) i (λ n, n <| links := links n + 1 |>)))
  | Mkdirat fd name p =>
      match entries k !! (node_of k fd, name) with
      | Some _ => (no EEXIST, k)
      | None => (yes, new_node k (node_of k fd) name (λ i, MkNode S_IFDIR p 0 0 2 i []))
      end
  | Dup fd => open_node k (node_of k fd)
  | Fstatat fd name => with_entry k fd name (λ _ _ n, (stat_of n, k))
  | Symlinkat target fd name => (yes, new_node k (node_of k fd) name (λ i, MkNode 0xa000 0x1ff 0 0 1 i target))
  | Readlinkat fd name _ => with_entry k fd name (λ _ _ n, (done_with (Z.of_nat (length (contents n))) (contents n), k))
  | ReadDir fd => (listing ((λ e, snd (fst e)) <$> List.filter (λ e, fst (fst e) =? node_of k fd) (map_to_list (entries k))), k)
  | _ => (yes, k)
  end.
(** The script of a run: a program asks for its next call once it has been given the replies so far. *)
Fixpoint play {A} (n : nat) (m : IO A) (script : list reply) (k : kernel) : list reply :=
  match n with
  | O => script
  | S n =>
      let '(t, _, _) := m (script ++ [yes]) in
      match drop (length script) t with
      | [] => script
      | (c, _) :: _ => let '(r, k) := serve c k in play n m (script ++ [r]) k
      end
  end.
