(* ===== verification/RunDemo.v ===== *)
(** * A concrete installation

    The first installation of a client release on an empty package root, played against
    [KernelDemo]: the script of its replies, for the witnesses. *)

From stdpp Require Import sorting.
From S2P Require Import Prelude GoIO Text Runes Sha256 Base64 Protocol Identifiers Signing Invitation StrictJson Syscalls SecureFS Release PackageData PackageStorage PackageTxn ReleaseSafety TraceLogic KernelDemo.
Open Scope Z_scope.

Definition payload : list byte := replicate 10 Byte.x41.
Definition client : text := ascii_bytes "client".
Definition executable : text := ascii_bytes "owntransit".
(** The root is node 0, the package root node 1 (descriptor 3), the anchor's role directory
    node 2 (descriptor 4), the bundle node 3 (descriptor 2). *)
Definition machine : kernel := {|
  descriptors := {[2 := 3; 3 := 1; 4 := 2]}; offsets := ∅;
  entries := {[(0, ascii_bytes "bundle") := 3; (3, executable) := 4; (2, packageAnchorLockFileName) := 5]};
  nodes := list_to_map [
    (0, MkNode S_IFDIR 0x1ed 0 0 2 0 []); (1, MkNode S_IFDIR 0x1ed 0 0 2 1 []); (2, MkNode S_IFDIR 0x1c0 0 0 2 2 []);
    (3, MkNode S_IFDIR 0x1ed 0 0 2 3 []); (4, MkNode S_IFREG 0x1ed 0 0 1 4 payload); (5, MkNode S_IFREG 0x180 0 0 1 5 [])];
  next_fd := 5; next_inode := 6 |}.
Definition manager : Manager := {|
  rootFD := 3; rootDevice := 5; anchorFD := 9; anchorDevice := 5; hasAnchor := true; role := client; ownerUID := 0; ownerGID := 0; readerGID := 7;
  platformOS := ascii_bytes "linux"; platformArch := ascii_bytes "amd64"; rootPath := ascii_bytes "/packages"; enforceExecutablePath := false |}.
Definition payload_file : decisionFile := {|
  df_ArtifactName := ascii_bytes "client-linux-amd64"; SourcePath := executable; InstallName := executable; df_SHA256 := digestBytes payload;
  df_Size := 10; df_Mode := 0x1ed; df_GID := 0 |}.
Definition unbound : decision := {|
  seal := decisionSeal; operation := operationInstall; bundleRoot := ascii_bytes "/bundle"; releaseID := demo_id 1; sequence := 7;
  manifestSHA256 := demo_digest; dec_role := client; dec_os := ascii_bytes "linux"; dec_arch := ascii_bytes "amd64";
  files := [payload_file];
  anchorBefore := []; anchorTarget := []; policySHA256 := [] |}.
Definition old_anchor : packageAnchor := emptyPackageAnchor client.
Definition old_digest : text := Eval vm_compute in digestPackageAnchor old_anchor.
Definition new_anchor : packageAnchor := {|
  pk_Schema := packageAnchorSchema; pk_Generation := 1; pk_Role := client; PreviousSHA256 := old_digest; pk_PolicyKeyID := KeyID demo_public;
  pk_PolicySHA256 := demo_digest; pk_ReleaseKeyID := KeyID demo_public; HighestPolicySequence := 1; MinimumReleaseSequence := 1;
  MinimumLifecycle := 1; TombstonedReleaseIDs := None; HighestReleaseSequence := 7; SelectorGeneration := 1; CurrentReleaseID := demo_id 1;
  pk_CurrentReceiptSHA256 := match receiptForDecision unbound with Ok (_, _, digest) => digest | Err _ => [] end; PreviousReleaseID := [];
  pk_PreviousReceiptSHA256 := [] |}.
Definition bound : decision := Eval vm_compute in bind_anchor unbound demo_digest old_digest (digestPackageAnchor new_anchor).
Definition never (p : failurePoint) : bool := false.
Definition target_anchor : packageAnchor := Eval vm_compute in new_anchor.
Definition installation : IO (result package_err Result) := install manager never bound (Some (anchorGate manager 4 old_digest target_anchor)).
Definition replies : list reply := Eval vm_compute in play 400 installation [] machine.
(** The staging of its one file. *)
Definition staging : IO (result package_err ()) := stageAuthenticatedFile 3 2 payload_file manager.
Definition staging_replies : list reply := Eval vm_compute in play 100 staging [] machine.
Definition staging_history : list event := trace staging staging_replies.
(** The calls of the installation with these replies. *)
Definition history : list event := trace installation replies.
