(* ===== verification/PackageRun.v ===== *)
(** * The order of a package transaction

    Every installation commits the external anchor, then the selector, then the active link,
    and only then retires a release. *)

From stdpp Require Import sorting.
From S2P Require Import Prelude GoIO Text Runes Sha256 Base64 Protocol Identifiers Signing Invitation StrictJson Syscalls SecureFS Release ReleaseBundle PackageData PackageStorage PackageTxn TraceLogic PackageCalls RunDemo.
Open Scope Z_scope.

(** ** The order of the commits *)

Section Order.
Context (m : Manager) (anchorRoleFD : Z) (before : text) (target : packageAnchor) (d : decision).
Let gate : selectionGate := anchorGate m anchorRoleFD before target.

(** The journal that a transaction on the inspected state works off: one that was
    interrupted, or the one that is planned. *)
Definition transaction (st : transactionState) (j : journalRecord) : Prop :=
  journal st = Some j ∧ Phase j ≠ phaseComplete ∧ AnchorTargetSHA256 j = anchorTarget d
  ∨ ∃ receiptDigest, planned_journal m d receiptDigest (selector st) = Ok j.
Definition inspected (st : transactionState) (h : list event) : Prop :=
  ∃ roleFD releasesFD, returned (inspectTransactionState m roleFD releasesFD) (Ok st) h.
(** The external anchor is the target, whose digest the decision names: an anchor of that digest
    was found in place, or the file was replaced by exactly the target's canonical bytes. *)
Definition anchor_committed (h : list event) : Prop :=
  (∃ b, encodePackageAnchor target = Ok b ∧ digestBytes b = anchorTarget d)
  ∧ ((∃ b, encodePackageAnchor target = Ok b ∧ replaced anchorRoleFD packageAnchorStageName packageAnchorFileName b h)
     ∨ ∃ a, returned (readPackageAnchor m anchorRoleFD) (Ok (a, anchorTarget d)) h).
(** The selector and the active link are those that the journal asks for: they were found in
    place or replaced by exactly those. *)
Definition selector_committed (roleFD : Z) (h : list event) : Prop :=
  ∃ st j, inspected st h ∧ transaction st j
    ∧ ((∃ b, encodeSelector (Target j) = Ok b ∧ replaced roleFD selectorStageName selectorFileName b h) ∨ is_selected j (selector st) = true).
Definition link_committed (h : list event) : Prop :=
  ∃ st j, inspected st h ∧ transaction st j
    ∧ ((∃ roleFD, relinked roleFD (Current (Target j)) h) ∨ activeReleaseID st = Current (Target j)).
(** What must have happened before a call. *)
Definition in_order (h : list event) (e : event) : Prop :=
  match e.1 with
  | Renameat roleFD _ name =>
      (name = selectorFileName → anchor_committed h) ∧ (name = activeLinkName → selector_committed roleFD h)
  | Unlinkat _ _ true => link_committed h
  | _ => True
  end.

Lemma stable_inspected st : stable (inspected st).
Proof. unfold inspected. auto with history. Qed.
Lemma stable_anchor_committed : stable anchor_committed.
Proof. unfold anchor_committed. auto 8 with history. Qed.
Hint Resolve stable_inspected stable_anchor_committed : history.
Lemma stable_selector_committed roleFD : stable (selector_committed roleFD).
Proof. unfold selector_committed. auto 12 with history. Qed.
Lemma stable_link_committed : stable link_committed.
Proof. unfold link_committed. auto 12 with history. Qed.
Hint Resolve stable_selector_committed stable_link_committed : history.

Notation holds := (TraceLogic.holds in_order).
Lemma in_order_plain h c r : plain c = true → in_order h (c, r).
Proof. destruct c; try done. by destruct removedir. Qed.
Lemma holds_silent {A} (P : list event → Prop) (k : IO A) : silent k → stable P → holds P k (λ a h, P h ∧ returned k a h).
Proof. intros Hk HP. apply (holds_quiet _ plain); [done..|]. intros h c r _. apply in_order_plain. Qed.
Lemma holds_commit {A} (P : list event → Prop) (k : IO A) c : quiet (or_call c) k → stable P → (∀ h r, P h → in_order h (c, r)) →
  holds P k (λ a h, P h ∧ returned k a h).
Proof.
  intros Hk HP Hc. apply (holds_quiet _ (or_call c)); [done..|]. intros h c' r Hh [Hp| ->%bool_decide_eq_true]%orb_prop.
  - by apply in_order_plain.
  - by apply Hc.
Qed.

Lemma gate_commits j s : quiet (or_call (Renameat anchorRoleFD packageAnchorStageName packageAnchorFileName)) (gate j s).
Proof.
  unfold gate, anchorGate, replacePackageAnchor. repeat first [apply quiet_replace | quiet_step | apply quiet_or; solve [auto with quiet]].
Qed.
Lemma gate_passed j s t : AnchorTargetSHA256 j = anchorTarget d → runs (gate j s) t (Ok ()) → anchor_committed t.
Proof.
  intros Hj. unfold gate, anchorGate. intros (t1 & t2 & b & -> & [-> Hb]%runs_ret & H)%runs_then. symmetry in Hb.
  revert H. case_guard G1; [by intros [_ ?]%runs_ret|]. case_guard G2; [by intros [_ ?]%runs_ret|].
  intros (t3 & t4 & [a digest] & -> & Ha & H)%runs_then. bool_prop. cbn [snd] in H.
  assert (digestBytes b = anchorTarget d) as Hd by congruence. split; [by exists b|].
  revert H. case_guard G3; bool_prop.
  - intros [-> _]%runs_ret. right. exists a. exists [], t3, []. rewrite !app_nil_r. split; [done|]. by rewrite <- Hd, <- G3.
  - case_guard G4; [by intros [_ ?]%runs_ret|]. unfold replacePackageAnchor.
    intros (t5 & t6 & a' & -> & _ & H)%runs_then. revert H. case_guard G5; [by intros [_ ?]%runs_ret|].
    intros H%replace_replaced. left. exists b. split; [done|]. cbn [app]. rewrite <-(app_nil_r t6), (app_assoc t3). by apply replaced_app.
Qed.
Lemma gate_returned j s h : AnchorTargetSHA256 j = anchorTarget d → returned (gate j s) (Ok ()) h → anchor_committed h.
Proof.
  intros Hj (h1 & t & h2 & -> & [Hb [[b [Eb Hs]]|[a (t1 & u & t2 & -> & Hu)]]]%gate_passed); [..|done].
  - split; [done|]. left. exists b. split; [done|]. by apply replaced_app.
  - split; [done|]. right. exists a. exists (h1 ++ t1), u, (t2 ++ h2). by rewrite <- !app_assoc.
Qed.

(** *** The steps of a resumption *)

Context (hook : failurePoint → bool).
Lemma quiet_record roleFD j p : quiet (or_call (Renameat roleFD journalStageName journalFileName)) (record_phase m hook roleFD j p).
Proof. unfold record_phase, replaceJournal. repeat first [apply quiet_replace | quiet_step | apply quiet_or; solve [auto with quiet]]. Qed.
Lemma journal_in_order h roleFD r : in_order h (Renameat roleFD journalStageName journalFileName, r).
Proof. by split. Qed.
(** A journal that differs in its phase only. *)
Definition same_work (j j' : journalRecord) : Prop := ∃ p, j' = j <| Phase := p |>.
Lemma runs_if {A} (b : bool) (k k' : IO A) t a : runs (if b then k else k') t a → runs k t a ∨ runs k' t a.
Proof. destruct b; auto. Qed.
Lemma same_work_refl j : same_work j j.
Proof. exists (Phase j). by destruct j. Qed.
Lemma stage_release_same roleFD releasesFD r bytes digest j t j' :
  runs (stage_release m hook roleFD releasesFD d r bytes digest j) t (Ok j') → same_work j j'.
Proof.
  unfold stage_release. intros (t1 & t2 & ? & -> & _ & H)%runs_then. apply runs_then in H as (t3 & t4 & ? & -> & _ & H).
  apply runs_then in H as (t5 & t6 & ? & -> & _ & H). apply runs_ret in H as [_ H]. injection H as ->. by eexists.
Qed.
Lemma record_selected_same roleFD j t j' : runs (record_selected m hook roleFD j) t (Ok j') → same_work j j'.
Proof.
  unfold record_selected. case_guard G; [|intros [_ [= ->]]%runs_ret; apply same_work_refl].
  intros (t1 & t2 & ? & -> & _ & [_ [= ->]]%runs_ret)%runs_then. by eexists.
Qed.
Lemma quiet_stage_release roleFD releasesFD r bytes digest j :
  quiet (or_call (Renameat roleFD journalStageName journalFileName)) (stage_release m hook roleFD releasesFD d r bytes digest j).
Proof.
  unfold stage_release. repeat first [apply quiet_record | quiet_step | apply quiet_or; solve [auto with quiet]].
Qed.
Lemma quiet_record_selected roleFD j : quiet (or_call (Renameat roleFD journalStageName journalFileName)) (record_selected m hook roleFD j).
Proof. unfold record_selected. repeat first [apply quiet_record | quiet_step]. Qed.

Lemma quiet_selector roleFD s : quiet (or_call (Renameat roleFD selectorStageName selectorFileName)) (replaceSelector m roleFD s).
Proof. unfold replaceSelector. eapply plain_then; [apply plain_ret|]. intros ?. apply quiet_replace. Qed.
Lemma holds_selector st j j' roleFD : transaction st j → same_work j j' → AnchorTargetSHA256 j = anchorTarget d →
  holds (inspected st) (commit_selector m hook roleFD (Some gate) j' (selector st))
    (λ a h, inspected st h ∧ (a = Ok () → selector_committed roleFD h)).
Proof.
  intros Ht [p ->] Ha. unfold commit_selector. case_guard G.
  { apply holds_ret. intros h Hh. split; [done|]. intros _. exists st, j. split; [done|]. split; [done|]. by right. }
  cbn [pass_gate]. eapply holds_then.
  { eapply holds_commit; [apply gate_commits|auto with history|by split]. }
  2: { intros e h [Hh _]. by split. }
  intros []. eapply holds_then.
  { eapply (holds_weaken _ (λ h, inspected st h ∧ anchor_committed h)); [|intros h [Hh Hg]; split; [done|by eapply gate_returned]|intros a h H; exact H].
    eapply holds_commit; [apply quiet_selector|auto with history|by intros h r [_ Hc]; split]. }
  2: { intros e h [[Hh _] _]. by split. }
  intros []. eapply (holds_weaken _ (λ h, inspected st h ∧ selector_committed roleFD h)).
  - apply holds_silent; auto with quiet history.
  - intros h [[Hh _] (h1 & t & h2 & -> & Hr)]. split; [done|]. exists st, j. split; [done|]. split; [done|]. left.
    unfold replaceSelector in Hr. apply runs_then in Hr as (t1 & t2 & b & -> & [-> Hb]%runs_ret & Hr%replace_replaced).
    exists b. split; [by symmetry|]. by apply replaced_app.
  - intros a h [[Hh Hs] _]. by split.
Qed.
Lemma holds_active st j j' roleFD : transaction st j → same_work j j' →
  holds (λ h, inspected st h ∧ selector_committed roleFD h) (commit_active m hook roleFD j' (activeReleaseID st)) (λ a h, a = Ok () → link_committed h).
Proof.
  intros Ht [p ->]. unfold commit_active. case_guard G; bool_prop.
  { apply holds_ret. intros h [Hh _] _. exists st, j. split; [done|]. split; [done|]. by right. }
  case_guard G2; [by apply holds_ret|]. eapply holds_then.
  { eapply holds_commit; [apply quiet_link|auto with history|by intros h r [_ Hs]; split]. }
  2: { done. }
  intros []. eapply (holds_weaken _ link_committed); [apply holds_silent; auto with quiet history| |by intros a h [? _]].
  intros h [[Hh _] Hr]. exists st, j. split; [done|]. split; [done|]. left. exists roleFD.
  eapply returned_relinked; [|exact Hr]. intros t. apply link_relinked.
Qed.
(** The calls that remain once the link is committed. *)
Definition closing (roleFD : Z) (c : syscall) : bool := or_call (Renameat roleFD journalStageName journalFileName) c || plain_or_rmdir c.
Lemma closing_plain roleFD {A} (k : IO A) : silent k → quiet (closing roleFD) k.
Proof. apply plain_mono. intros c H. unfold closing, or_call. by rewrite H. Qed.
Lemma closing_record roleFD j p : quiet (closing roleFD) (record_phase m hook roleFD j p).
Proof. eapply plain_mono; [|apply quiet_record]. intros c H. unfold closing. by rewrite H. Qed.
Lemma closing_selected roleFD j : quiet (closing roleFD) (record_selected m hook roleFD j).
Proof. eapply plain_mono; [|apply quiet_record_selected]. intros c H. unfold closing. by rewrite H. Qed.
Lemma closing_retire roleFD releasesFD j : quiet (closing roleFD) (retire m hook roleFD releasesFD j).
Proof.
  assert (∀ releasesFD id digest, quiet (closing roleFD) (retireReleaseDirectory releasesFD id digest m)) as Hall.
  { intros. eapply plain_mono; [|apply quiet_retire]. intros c H. unfold closing. by rewrite H, orb_true_r. }
  unfold retire. repeat first [apply closing_record | apply Hall | quiet_step | apply closing_plain; solve [auto with quiet]].
Qed.
Lemma holds_closing {A} roleFD (k : IO A) : quiet (closing roleFD) k → holds link_committed k (λ _ _, True).
Proof.
  intros Hq. eapply holds_weaken; [eapply (holds_quiet _ _ _ _ Hq); [auto with history|]|done|done].
  intros h c r Hh [[Hp| ->%bool_decide_eq_true]%orb_prop|[Hp|Hp]%orb_prop]%orb_prop;
    [by apply in_order_plain|apply journal_in_order|by apply in_order_plain|].
  destruct c; try done. by destruct removedir.
Qed.

Lemma holds_resume st st' j roleFD releasesFD receipt bytes digest resuming :
  transaction st j → AnchorTargetSHA256 j = anchorTarget d → selector st' = selector st → activeReleaseID st' = activeReleaseID st →
  holds (inspected st) (resume m hook roleFD releasesFD d receipt bytes digest st' j (Some gate) resuming) (λ _ _, True).
Proof.
  intros Ht Ha Es El. unfold resume. rewrite Es, El.
  eapply holds_then; [apply holds_silent; auto with quiet history; apply plain_ret| |done]. intros [].
  eapply (holds_weaken _ (inspected st)); [|by intros h [? _]|intros a h H; exact H].
  eapply holds_then; [apply holds_silent; auto with quiet history| |done]. intros [].
  eapply (holds_weaken _ (inspected st)); [|by intros h [? _]|intros a h H; exact H].
  eapply (holds_then _ _ _ (λ a h, inspected st h ∧ ∀ j', a = Ok j' → same_work j j')); [| |done].
  { case_guard G.
    - eapply holds_weaken; [eapply (holds_commit (inspected st)); [apply quiet_stage_release|auto with history|intros; apply journal_in_order]|intros h H; exact H|].
      intros a h [Hh (h1 & t & h2 & _ & Hr)]. split; [done|]. intros j' ->. by eapply stage_release_same.
    - eapply holds_weaken; [eapply (holds_silent (inspected st)); [|auto with history]|intros h H; exact H|].
      { eapply plain_then; [auto with quiet|intros; apply plain_ret]. }
      intros a h [Hh (h1 & t & h2 & _ & Hr)]. split; [done|]. intros j' ->. apply runs_then in Hr as (? & ? & ? & _ & _ & [_ [= ->]]%runs_ret).
      apply same_work_refl. }
  intros j'. apply (holds_pure _ (same_work j j')); [by intros h [_ H]; apply H|]. intros Hw.
  eapply holds_then; [eapply holds_weaken; [by apply (holds_selector st j j' roleFD)|by intros h [? _]|intros a h H; exact H]| |done].
  intros []. eapply holds_then; [eapply holds_weaken; [by apply (holds_active st j j' roleFD)|by intros h [? H]; split; [|apply H]|intros a h H; exact H]| |done].
  intros []. eapply (holds_weaken _ link_committed); [|by intros h H; apply H|done]. apply (holds_closing roleFD).
  repeat first [apply closing_record | apply closing_selected | apply closing_retire | quiet_step | apply closing_plain; solve [auto with quiet]].
Qed.

(** *** The whole installation *)

Lemma planned_target s digest j : planned_journal m d digest s = Ok j → AnchorTargetSHA256 j = anchorTarget d.
Proof. unfold planned_journal. intros H. ok_inv H. destruct a as [[? ?] ?]. by apply Ok_inj in H as <-. Qed.
Lemma holds_install_new st roleFD releasesFD receipt bytes digest :
  holds (inspected st) (install_new m hook roleFD releasesFD d receipt bytes digest st (Some gate)) (λ _ _, True).
Proof.
  unfold install_new. eapply holds_then; [eapply (holds_silent (inspected st)); [|auto with history]| |done].
  { unfold when. quiet_go. }
  intros []. case_guard G; [by apply holds_ret|].   eapply (holds_weaken _ (inspected st)); [|by intros h [? _]|intros a h H; exact H].
  apply holds_try; [|done]. intros j Ej. assert (transaction st j) as Ht by (right; by eexists).
  eapply holds_then; [eapply (holds_commit (inspected st)); [apply quiet_record|auto with history|intros; apply journal_in_order]| |done].
  intros []. eapply (holds_weaken _ (inspected st)); [|by intros h [? _]|intros a h H; exact H].
  apply (holds_resume st); [done|by eapply planned_target|done..].
Qed.
Lemma holds_install_locked roleFD releasesFD :
  holds (λ _, True) (install_locked m hook roleFD releasesFD d (Some gate)) (λ _ _, True).
Proof.
  unfold install_locked. apply holds_try; [|done]. intros [[receipt bytes] digest] _.
  eapply holds_then; [eapply (holds_silent (λ _, True)); auto with quiet history| |done]. intros st.
  eapply (holds_weaken _ (inspected st)); [|intros h [_ H]; by exists roleFD, releasesFD|intros a h H; exact H].
  assert (∀ b : bool, holds (inspected st) (if b then install_again m releasesFD d receipt digest st
        else install_new m hook roleFD releasesFD d receipt bytes digest st (Some gate)) (λ _ _, True)) as Hn.
  { intros []; [|apply holds_install_new]. eapply holds_weaken; [eapply (holds_silent (inspected st)); [|auto with history]|by intros h H; apply H|done].
    unfold install_again. quiet_go. }
  destruct (journal st) as [j|] eqn:Ej; [|apply Hn]. case_guard G; [apply Hn|].
  case_guard G2; [by apply holds_ret|]. unfold journalMatchesDecision in G2. bool_prop. 
  apply (holds_resume st); [|done..]. left. by split_and!.
Qed.
Lemma holds_open {A} open (k : Z → IO (result package_err A)) cleanup : silent open → (∀ fd, silent (cleanup fd)) →
  (∀ fd, holds (λ _, True) (k fd) (λ _ _, True)) →
  holds (λ _, True) (must fd := open;; deferring (cleanup fd : IO ()) (k fd)) (λ _ _, True).
Proof.
  intros Ho Hc Hk. eapply holds_then; [eapply (holds_silent (λ _, True)); auto with history| |done]. intros fd.
  eapply (holds_weaken _ (λ _, True)); [|done|intros a h H; exact H].
  eapply (holds_defer _ plain); [apply Hk|apply Hc|intros a; apply (stable_const True)|apply in_order_plain].
Qed.
Lemma holds_install : holds (λ _, True) (install m hook d (Some gate)) (λ _ _, True).
Proof.
  unfold install. apply holds_try; [|done]. intros [] _. do 3 (case_guard G; [by apply holds_ret|clear G]).
  unfold with_role, with_releases, with_role_lock, with_fd.
  apply holds_open; [auto with quiet|auto with quiet|]. intros roleFD. apply holds_open; [auto with quiet|auto with quiet|]. intros _.
  apply holds_open; [auto with quiet|auto with quiet|]. intros releasesFD. apply holds_install_locked.
Qed.
End Order.

(** C7. The commits of an installation come in one order, whatever the kernel answers and wherever
    the process dies: the selector is renamed into place only when the external anchor is the
    one that the decision names, found by that digest or replaced by exactly its canonical
    bytes; the active link only after the selector, in the same directory, was replaced by
    exactly the one that the transaction's journal asks for; and a release is removed only after
    the link to the transaction's release; unless the state that the transaction found already
    had that step behind it. A replaced file was exclusively created, written with exactly
    those bytes, synced, and renamed. *)
Theorem install_order (m : Manager) (hook : failurePoint → bool) (d : decision) (anchorRoleFD : Z) (before : text) (target : packageAnchor)
    (t1 : list event) (e : event) (t2 : list event) :
  prefix_of_run (install m hook d (Some (anchorGate m anchorRoleFD before target))) (t1 ++ e :: t2) →
  in_order m anchorRoleFD target d t1 e.
Proof. intros H. eapply holds_prefix; [apply holds_install|exact H]. Qed.

(** ** Witnesses *)

Lemma history_renames :
  (fst <$> history !! 200%nat, fst <$> history !! 209%nat)
  = (Some (Renameat 5 selectorStageName selectorFileName), Some (Renameat 5 activeLinkStageName activeLinkName)).
Proof. vm_compute. reflexivity. Qed.
Lemma install_order_witness :
  anchor_committed manager 4 target_anchor bound (take 200 history) ∧ selector_committed manager bound 5 (take 209 history).
Proof.
  destruct (prefix_of_trace installation replies 200 (Renameat 5 selectorStageName selectorFileName) (f_equal fst history_renames)) as [r Hr].
  destruct (prefix_of_trace installation replies 209 (Renameat 5 activeLinkStageName activeLinkName) (f_equal snd history_renames)) as [r' Hr'].
  unfold installation in Hr, Hr'. split.
  - destruct (install_order manager never bound 4 old_digest target_anchor _ (_, r) _ Hr) as [H _]. exact (H eq_refl).
  - destruct (install_order manager never bound 4 old_digest target_anchor _ (_, r') _ Hr') as [_ H]. exact (H eq_refl).
Defined.
