(* ===== verification/PackageCopy.v ===== *)
(** * Authenticated copies

    What reaches the disk under the final name of a payload: the bytes that were read, of the
    declared size and digest. *)

From stdpp Require Import sorting.
From S2P Require Import Prelude GoIO Text Runes Sha256 Base64 Protocol Identifiers Signing Invitation StrictJson Syscalls SecureFS Release ReleaseBundle PackageData PackageStorage PackageTxn TraceLogic PackageCalls RunDemo.
Open Scope Z_scope.

(** ** Copies *)

Lemma copy_turns_exact n source destination size : ∀ copied t c,
  runs (copy_turns n source destination size copied) t (Ok c) →
  c = copied ++ bytes_read source t ∧ bytes_written destination t = bytes_read source t.
Proof.
  induction n as [|n IH]; intros copied t c H; [by destruct H as (? & ? & ?)|]. cbn [copy_turns] in H.
  apply runs_bind in H as (t1 & t2 & r & -> & ->%runs_sys & H). rewrite bytes_read_app, bytes_written_app.
  assert (bytes_written destination [(Read source (64 * 2 ^ 10), r)] = []) as -> by done.
  assert (bytes_read source [(Read source (64 * 2 ^ 10), r)] = if bool_decide (r_errno r = None) then r_data r else []) as ->.
  { unfold bytes_read. cbn. rewrite Z.eqb_refl. cbn. by rewrite app_nil_r. }
  destruct (r_errno r) as [e|] eqn:Ee.
  - rewrite bool_decide_eq_false_2 by done. destruct e; try by apply runs_ret in H as [_ ?]. by apply IH in H.
  - rewrite bool_decide_eq_true_2 by done. revert H. case_guard G1; bool_prop.
    + intros [-> [= ->]]%runs_ret. rewrite G1. cbn. by rewrite app_nil_r.
    + case_guard G2; [by intros [_ ?]%runs_ret|]. intros (t3 & t4 & u & -> & Hw & [-> Hr]%IH)%runs_then.
      unfold writeAll in Hw. apply runs_bind in Hw as (t5 & t6 & w & -> & Hw & [-> Hx]%runs_ret).
      destruct w as [[]|e]; [|by destruct e]. apply writeAll_exact in Hw as [Hw Hn].
      rewrite app_nil_r, bytes_read_app, bytes_written_app, Hw, Hn, Hr. by rewrite <- app_assoc.
Qed.
(** The fuel of the copy is never what ends it. *)
Lemma writeAll_suffix fd data : ∀ s t s' o, SecureFS.writeAll fd data s = (t, s', o) → (length s' <= length s)%nat.
Proof.
  intros s. revert data. unfold SecureFS.writeAll. induction s as [|r s IH]; intros [|b data] t s' o H; cbn [writeAll_from] in H; simplify_eq; [done..|].
  cbn [length]. repeat case_match; simplify_eq; try lia; match goal with E : writeAll_from _ _ _ = _ |- _ => apply IH in E; lia end.
Qed.
Lemma copy_turns_enough source destination size n : ∀ k s copied, (length s < n)%nat → (length s < k)%nat →
  copy_turns n source destination size copied s = copy_turns k source destination size copied s.
Proof.
  induction n as [|n IH]; intros [|k] s copied Hn Hk; try lia. cbn [copy_turns]. unfold mbind, io_bind, sys.
  destruct s as [|r s]; [done|]. cbn [length] in *. destruct (r_errno r) as [[]|]; try done; [by rewrite (IH k) by lia|].
  case_guard G1; [done|]. case_guard G2; [done|]. unfold and_then, mbind, io_bind, writeAll, mbind, io_bind.
  destruct (SecureFS.writeAll destination (r_data r) s) as [[t1 s1] [w|]] eqn:E; [|done]. apply writeAll_suffix in E.
  unfold mret, io_ret. destruct w as [[]|[]]; [by rewrite (IH k) by lia|done..].
Qed.
Lemma copy_exact source destination size t digest : runs (copyAuthenticatedFile source destination size) t (Ok digest) →
  bytes_written destination t = bytes_read source t ∧ Z.of_nat (length (bytes_read source t)) = size ∧ digest = digestBytes (bytes_read source t).
Proof.
  assert (∀ f t r, runs (pcall (Fstat f)) t r → ∀ fd, bytes_read fd t = [] ∧ bytes_written fd t = []) as Hp.
  { unfold pcall. by intros f u r (t1 & t2 & a & -> & ->%runs_sys & [-> _]%runs_ret)%runs_bind fd. }
  unfold copyAuthenticatedFile. intros (t1 & t2 & b & -> & Hb & H)%runs_then. apply runs_then in H as (t3 & t4 & c & -> & Hc & H).
  revert H. case_guard G1; [by intros [_ ?]%runs_ret|]. intros (t5 & t6 & a & -> & Ha & H)%runs_then.
  revert H. case_guard G2; [by intros [_ ?]%runs_ret|]. intros [-> [= ->]]%runs_ret. bool_prop.
  destruct Hc as (s & s' & Hc). destruct (copy_turns_exact (S (length s)) source destination size [] t3 c) as [-> Hw]; [by exists s, s'|].
  rewrite !bytes_read_app, !bytes_written_app, Hw.
  rewrite !(λ fd, proj1 (Hp _ _ _ Hb fd)), !(λ fd, proj2 (Hp _ _ _ Hb fd)), !(λ fd, proj1 (Hp _ _ _ Ha fd)), !(λ fd, proj2 (Hp _ _ _ Ha fd)).
  cbn [app bytes_read bytes_written fmap list_fmap concat]. by rewrite !app_nil_r.
Qed.

(** ** Publication *)

(** A copy of the declared bytes was completed, and then synced. *)
Definition authentic (f : decisionFile) (h : list event) : Prop := ∃ h1 t h2 source fd,
  h = h1 ++ t ++ h2 ∧ bytes_written fd t = bytes_read source t ∧ Z.of_nat (length (bytes_written fd t)) = df_Size f
  ∧ digestBytes (bytes_written fd t) = df_SHA256 f ∧ succeeded (Fsync fd) h2.
(** Every link puts the stage of [f] in place, and only once its bytes are authentic. *)
Definition links_authentic (releaseFD : Z) (f : decisionFile) (h : list event) (e : event) : Prop :=
  match e.1 with
  | Linkat directory stage name =>
      directory = releaseFD ∧ stage = payloadStageName (InstallName f) ∧ name = InstallName f ∧ authentic f h
  | _ => True
  end.
Lemma stable_authentic f : stable (authentic f).
Proof.
  intros h u (h1 & t & h2 & source & fd & -> & H1 & H2 & H3 & H4). exists h1, t, (h2 ++ u), source, fd.
  rewrite <- !app_assoc. split_and!; [done..|by apply stable_succeeded].
Qed.
Lemma authentic_at f h1 t h2 : authentic f t → authentic f (h1 ++ t ++ h2).
Proof.
  intros (t1 & u & t2 & source & fd & -> & H1 & H2 & H3 & H4). exists (h1 ++ t1), u, (t2 ++ h2), source, fd.
  rewrite <- !app_assoc. split_and!; [done..|by apply stable_succeeded].
Qed.
Lemma fill_authentic source fd f m t fd' : runs (fill_payload source fd f m) t (fd', Ok ()) → authentic f t.
Proof.
  unfold fill_payload. intros (t1 & t2 & w & -> & H & H')%runs_bind. destruct w as [[]|e]; [clear H'|by apply runs_ret in H' as [_ ?]].
  apply runs_then in H as (u1 & u2 & ? & -> & _ & H). apply runs_then in H as (u3 & u4 & ? & -> & _ & H).
  apply runs_then in H as (u5 & u6 & ? & -> & _ & H). apply runs_then in H as (u7 & u8 & digest & -> & Hc & H).
  apply copy_exact in Hc as (H1 & H2 & ->). revert H. case_guard G; [by intros [_ ?]%runs_ret|]. bool_prop.
  intros (u9 & u10 & ? & -> & _ & H)%runs_then. apply runs_then in H as (u11 & u12 & r0 & -> & [-> Hs]%runs_pcall & _).
  exists (u1 ++ u3 ++ u5), u7, ((u9 ++ [(Fsync fd, r0)] ++ u12) ++ t2), source, fd. rewrite H1. rewrite <- !app_assoc. split_and!; try done.
  exists r0. split; [|done]. rewrite !elem_of_app, list_elem_of_singleton. tauto.
Qed.

Section Stage.
Context (releaseFD : Z) (f : decisionFile) (m : Manager).
Notation holds := (TraceLogic.holds (links_authentic releaseFD f)).
Definition calm_or_link (c : syscall) : bool :=
  calm c || bool_decide (c = Linkat releaseFD (payloadStageName (InstallName f)) (InstallName f)).
Lemma holds_calm {A} (P : list event → Prop) (k : IO A) : quiet calm k → stable P → holds P k (λ a h, P h ∧ returned k a h).
Proof. intros Hk HP. apply (holds_quiet _ calm); [done..|]. intros h c r _ Hc. by destruct c. Qed.
Lemma calm_link {A} (k : IO A) : quiet calm k → quiet calm_or_link k.
Proof. apply plain_mono. intros c H. unfold calm_or_link. by rewrite H. Qed.
Lemma publish_calm fd stage target e k : quiet calm k → quiet calm (publish_stage releaseFD fd stage target (Err e) k).
Proof. intros Hk. unfold publish_stage. apply plain_bind; [exact (plain_ret _ _)|]. intros p. quiet_go. Qed.
Lemma publish_links fd k : quiet calm k →
  quiet calm_or_link (publish_stage releaseFD fd (payloadStageName (InstallName f)) (InstallName f) (Ok ()) k).
Proof.
  intros Hk. unfold publish_stage. apply plain_bind.
  - eapply plain_then; [apply calm_pcall; unfold calm_or_link; by rewrite bool_decide_eq_true_2, orb_true_r|]. intros _. apply calm_link. quiet_go.
  - intros p. apply calm_link. quiet_go.
Qed.
Lemma holds_stage bundleFD : holds (λ _, True) (stageAuthenticatedFile releaseFD bundleFD f m) (λ _ _, True).
Proof.
  unfold stageAuthenticatedFile. eapply holds_then; [eapply (holds_calm (λ _, True)); auto with quiet history| |done].
  intros []; [by apply holds_ret|]. eapply (holds_weaken _ (λ _, True)); [|done|intros a h H; exact H].
  eapply holds_then; [eapply (holds_calm (λ _, True)); auto with quiet history| |done]. intros source.
  eapply (holds_weaken _ (λ _, True)); [|done|intros a h H; exact H].
  eapply (holds_defer _ calm); [|auto with quiet|intros a; apply (stable_const True)|intros h c r Hc; by destruct c].
  eapply holds_then; [eapply (holds_calm (λ _, True)); auto with quiet history| |done]. intros r.
  eapply (holds_weaken _ (λ _, True)); [|done|intros a h H; exact H].
  eapply holds_bind.
  { eapply (holds_calm (λ _, True)); [|auto with history]. unfold fill_payload, copyAuthenticatedFile. quiet_go. }
  intros [fd [[]|e]]; cbn [fst snd].
  - eapply (holds_weaken _ (authentic f)); [| |done].
    + apply (holds_quiet _ calm_or_link); [apply publish_links; unfold verify_record_file; auto with quiet|apply stable_authentic|].
      intros h c r' Ha [Hc| ->%bool_decide_eq_true]%orb_prop; [by destruct c|by split_and!].
    + intros h [_ (h1 & t & h2 & -> & Ht%fill_authentic)]. by apply authentic_at.
  - eapply holds_weaken; [eapply (holds_calm (λ _, True)); [apply publish_calm; unfold verify_record_file; auto with quiet|auto with history]|done|done].
Qed.
End Stage.

(** C8. Only authenticated bytes get a name in a release: a payload is linked into place, under its
    own name, only after exactly its declared number of bytes was read, the same bytes were
    written, their digest was that of the signed record, and the file was synced; so at every
    crash point a payload in place is complete. *)
Theorem publish_authentic (releaseFD bundleFD : Z) (f : decisionFile) (m : Manager) (t1 : list event) (e : event) (t2 : list event) :
  prefix_of_run (stageAuthenticatedFile releaseFD bundleFD f m) (t1 ++ e :: t2) → links_authentic releaseFD f t1 e.
Proof. intros H. eapply holds_prefix; [apply holds_stage|exact H]. Qed.

(** ** Witnesses *)

Lemma staging_links : fst <$> trace staging staging_replies !! 22%nat = Some (Linkat 3 (payloadStageName executable) executable).
Proof. vm_compute. reflexivity. Qed.
Lemma publish_authentic_witness : authentic payload_file (take 22 staging_history).
Proof.
  destruct (prefix_of_trace staging staging_replies 22 (Linkat 3 (payloadStageName executable) executable) staging_links) as [r Hr].
  unfold staging in Hr at 1. destruct (publish_authentic 3 2 payload_file manager _ (_, r) _ Hr) as (_ & _ & _ & H). exact H.
Defined.
