(* ===== verification/PairOffer.v ===== *)
(** * Receiver offers and short pairing codes: [internal/pairoffer/offer.go]

    A public offer carries the advertisement of a receiver under a locator and a proof that
    are derived from a private 256-bit secret; the short code is the secret with a checksum.
    Everything is computable: SHA-256, HMAC, base64url and the JSON of [StrictJson]. *)

From S2P Require Import Prelude GoIO Text Runes Sha256 Base64 Protocol StrictJson StrictJsonSafety JsonText.
Open Scope Z_scope.

Definition CodePrefix : text := ascii_bytes "otpair2.".
Definition CodeSize : nat := 56.
Definition MaxAdvertisementBytes : Z := 128 * 2 ^ 10.
Definition MaxOfferBytes : Z := 192 * 2 ^ 10.
Definition offerSchema : text := ascii_bytes "owntransit.receiver-offer.v1".
Definition locatorDomain : text := ascii_bytes "OwnTransit receiver offer locator v1" ++ [Byte.x00].
Definition proofDomain : text := ascii_bytes "OwnTransit receiver offer proof v1" ++ [Byte.x00].
Definition checksumDomain : text := ascii_bytes "OwnTransit receiver short code checksum v1" ++ [Byte.x00].

(** [ErrInvalid] *)
Inductive offer_err := ErrInvalid.
#[export] Instance offer_err_eq_dec : EqDecision offer_err.
Proof. solve_decision. Defined.

Record Offer := MkOffer { Locator_of : arr Size; Advertisement : list byte; Proof_of : arr Size }.
Record wireOffer := MkWire { w_Schema : text; w_Locator : text; w_Advertisement : text; w_Proof : text }.
#[export] Instance wireOffer_eta : Eta wireOffer := λ w, MkWire (w_Schema w) (w_Locator w) (w_Advertisement w) (w_Proof w).
#[export] Instance wireOffer_field : Field wireOffer := {
  to_json w := JObject (member "schema" text_field (w_Schema w) ++ member "locator" text_field (w_Locator w)
    ++ member "advertisement" text_field (w_Advertisement w) ++ member "proof" text_field (w_Proof w) ++ []);
  zero_value := MkWire [] [] [] [];
  assign := assign_struct [
    field_at "schema" text_field w_Schema (λ v w, w <| w_Schema := v |>);
    field_at "locator" text_field w_Locator (λ v w, w <| w_Locator := v |>);
    field_at "advertisement" text_field w_Advertisement (λ v w, w <| w_Advertisement := v |>);
    field_at "proof" text_field w_Proof (λ v w, w <| w_Proof := v |>)] }.

(** ** Operations *)

Definition digest (domain : text) (input : list byte) : arr Size := arr_copy Size (Sum256 (domain ++ input)).
Definition makeProof (secret : arr Size) (ad : list byte) : arr Size :=
  arr_copy Size (hmac_sha256 (arr_bytes secret) (proofDomain ++ ad)).
Definition bad_advertisement (ad : list byte) : bool :=
  (Z.of_nat (length ad) =? 0) || (MaxAdvertisementBytes <? Z.of_nat (length ad)).
Definition wire_of (offer : Offer) : wireOffer :=
  MkWire offerSchema (hex_encode (arr_bytes (Locator_of offer))) (RawURLEncode (Advertisement offer))
    (RawURLEncode (arr_bytes (Proof_of offer))).

Definition Encode (offer : Offer) : result offer_err (list byte) :=
  reject bad_advertisement (Advertisement offer) with ErrInvalid;;
  let encoded := Marshal wireOffer_field (wire_of offer) in
  reject MaxOfferBytes <? Z.of_nat (length encoded) + 1 with ErrInvalid;;
  Ok (encoded ++ [newline]).

(** [base64.RawURLEncoding.EncodedLen] *)
Definition EncodedLen (n : Z) : Z := (8 * n + 5) / 6.
(** The checks of [Parse] on the lengths of the decoded strings. *)
Definition bad_wire (w : wireOffer) : bool :=
  negb (length (w_Locator w) =? Size * 2)%nat || negb (length (w_Proof w) =? b64_chars_of Size)%nat
  || (Z.of_nat (length (w_Advertisement w)) =? 0)
  || (EncodedLen MaxAdvertisementBytes <? Z.of_nat (length (w_Advertisement w))).
Definition Parse (encoded : list byte) : result offer_err Offer :=
  reject (Z.of_nat (length encoded) =? 0) || (MaxOfferBytes <? Z.of_nat (length encoded)) with ErrInvalid;;
  match Decode wireOffer_field encoded with
  | None => Err ErrInvalid
  | Some wire =>
      reject negb (bool_decide (w_Schema wire = offerSchema)) with ErrInvalid;;
      reject negb (bool_decide (Marshal wireOffer_field wire ++ [newline] = encoded)) || bad_wire wire with ErrInvalid;;
      match hex_decode (w_Locator wire), RawURLDecode (w_Proof wire), RawURLDecode (w_Advertisement wire) with
      | Some locator, Some proof, Some ad =>
          reject negb (bool_decide (hex_encode locator = w_Locator wire)) with ErrInvalid;;
          reject negb (length proof =? Size)%nat || negb (bool_decide (RawURLEncode proof = w_Proof wire)) with ErrInvalid;;
          reject bad_advertisement ad || negb (bool_decide (RawURLEncode ad = w_Advertisement wire)) with ErrInvalid;;
          Ok (MkOffer (arr_copy Size locator) ad (arr_copy Size proof))
      | _, _, _ => Err ErrInvalid
      end
  end.

Definition code_payload (secret : arr Size) : list byte :=
  arr_bytes secret ++ take 4 (arr_bytes (digest checksumDomain (arr_bytes secret))).
(** The code of a secret, and the offer that may be published. *)
Definition New (secret : arr Size) (ad : list byte) : result offer_err (list byte * list byte) :=
  reject bad_advertisement ad with ErrInvalid;;
  encoded ← Encode (MkOffer (digest locatorDomain (arr_bytes secret)) ad (makeProof secret ad));
  Ok (CodePrefix ++ RawURLEncode (code_payload secret), encoded).

Definition Secret (code : list byte) : result offer_err (arr Size) :=
  reject negb (length code =? CodeSize)%nat with ErrInvalid;;
  match CutPrefix code CodePrefix with
  | None => Err ErrInvalid
  | Some body =>
      match RawURLDecode body with
      | None => Err ErrInvalid
      | Some payload =>
          reject negb (length payload =? Size + 4)%nat with ErrInvalid;;
          let secret := take Size payload in
          reject negb (bool_decide (RawURLEncode payload = body))
              || negb (bool_decide (take 4 (arr_bytes (digest checksumDomain secret)) = drop Size payload)) with ErrInvalid;;
          Ok (arr_copy Size secret)
      end
  end.
Definition ValidateCode (code : list byte) : result offer_err () := _ ← Secret code; Ok ().
Definition Locator (code : list byte) : result offer_err (arr Size) :=
  secret ← Secret code; Ok (digest locatorDomain (arr_bytes secret)).

(** Both comparisons are made before the verdict. *)
Definition Verify (code encodedOffer : list byte) : result offer_err (list byte) :=
  secret ← Secret code;
  offer ← Parse encodedOffer;
  let locatorOK := bool_decide (digest locatorDomain (arr_bytes secret) = Locator_of offer) in
  let proofOK := bool_decide (makeProof secret (Advertisement offer) = Proof_of offer) in
  reject negb (locatorOK && proofOK) with ErrInvalid;;
  Ok (Advertisement offer).

(** ** Proofs *)

Definition wireOffer_wf (w : wireOffer) : Prop :=
  ValidString (w_Schema w) ∧ ValidString (w_Locator w) ∧ ValidString (w_Advertisement w) ∧ ValidString (w_Proof w).
#[export] Instance wireOffer_lawful : LawfulField wireOffer_field wireOffer_wf.
Proof. lawful_struct wireOffer_field 1. Defined.

Lemma wire_of_wf offer : wireOffer_wf (wire_of offer).
Proof. split_and!; [done|apply plain_valid, plain_hex|apply plain_valid, plain_RawURLEncode..]. Qed.

Lemma b64_mono n m : (n <= m)%nat → (b64_chars_of n <= b64_chars_of m)%nat.
Proof. intros H. unfold b64_chars_of. apply Nat.Div0.div_le_mono. lia. Qed.
Lemma EncodedLen_of_nat n : EncodedLen (Z.of_nat n) = Z.of_nat (b64_chars_of n).
Proof. unfold EncodedLen, b64_chars_of. rewrite Nat2Z.inj_div. f_equal. lia. Qed.
Lemma EncodedLen_mono n m : n <= m → EncodedLen n <= EncodedLen m.
Proof. intros H. unfold EncodedLen. apply Z.div_le_mono; lia. Qed.
Lemma b64_pos n : (0 < n)%nat → (0 < b64_chars_of n)%nat.
Proof. intros H. pose proof (b64_mono 1 n H). by change (b64_chars_of 1) with 2%nat in *; lia. Qed.

Lemma Encode_inv o e : Encode o = Ok e →
  bad_advertisement (Advertisement o) = false ∧ e = Marshal wireOffer_field (wire_of o) ++ [newline] ∧ Z.of_nat (length e) <= MaxOfferBytes.
Proof.
  unfold Encode. intros H. ok_inv H. apply Ok_inj in H as <-. split_and!; [done..|]. bool_prop. rewrite length_app. cbn [length]. lia.
Qed.
Lemma Encode_Ok o e : bad_advertisement (Advertisement o) = false → e = Marshal wireOffer_field (wire_of o) ++ [newline] →
  Z.of_nat (length e) <= MaxOfferBytes → Encode o = Ok e.
Proof.
  intros Ha He Hl. unfold Encode. rewrite Ha. rewrite (proj2 (Z.ltb_ge _ _)); [by rewrite He|].
  subst e. rewrite length_app in Hl. cbn [length] in Hl. lia.
Qed.
Lemma wire_sizes o : bad_advertisement (Advertisement o) = false → bad_wire (wire_of o) = false.
Proof.
  unfold bad_advertisement, bad_wire. intros H. bool_prop. cbn [wire_of w_Locator w_Proof w_Advertisement].
  rewrite length_hex_encode, !length_RawURLEncode, !length_arr_bytes. rewrite (Nat.mul_comm 2), !Nat.eqb_refl. cbn [negb orb].
  pose proof (b64_pos (length (Advertisement o)) ltac:(lia)).
  pose proof (EncodedLen_mono (Z.of_nat (length (Advertisement o))) MaxAdvertisementBytes ltac:(lia)) as Hm. rewrite EncodedLen_of_nat in Hm.
  apply orb_false_iff. split; [apply Z.eqb_neq|apply Z.ltb_ge]; lia.
Qed.

Lemma Parse_exact e o : Parse e = Ok o ↔ Encode o = Ok e.
Proof.
  split.
  - unfold Parse. intros H. ok_inv H. destruct (Decode wireOffer_field e) as [w|]; [|done]. ok_inv H.
    destruct (hex_decode (w_Locator w)) as [l|] eqn:El; [|done].
    destruct (RawURLDecode (w_Proof w)) as [p|]; [|done]. destruct (RawURLDecode (w_Advertisement w)) as [ad|]; [|done].
    ok_inv H. apply Ok_inj in H as <-. unfold bad_wire in *. bool_prop. repeat match goal with H : (_ =? _)%nat = true |- _ => apply Nat.eqb_eq in H end.
    assert (length l = Size) as Hl by (replace (w_Locator w) with (hex_encode l) in * by done; rewrite length_hex_encode in *; lia).
    apply Encode_Ok; [assumption| |assumption]. unfold wire_of. cbn [Locator_of Proof_of Advertisement]. rewrite !arr_bytes_copy by done.
    destruct w as [ws wl wa wp]; cbn in *. by subst.
  - intros (Ha & -> & Hl)%Encode_inv. unfold Parse. rewrite (proj2 (Z.ltb_ge _ _)) by done.
    rewrite (proj2 (Z.eqb_neq _ _)) by (rewrite length_app; cbn [length]; lia). cbn [orb].
    rewrite (Decode_line wireOffer_field wireOffer_wf _ (wire_of_wf o)) by (by vm_compute). rewrite wire_sizes by done.
    rewrite !bool_decide_eq_true_2 by done. cbn [negb orb wire_of w_Locator w_Proof w_Advertisement].
    rewrite hex_decode_encode, !RawURLDecode_Encode, Ha, !bool_decide_eq_true_2, length_arr_bytes, Nat.eqb_refl by done.
    cbn [negb orb]. rewrite !arr_copy_bytes. by destruct o.
Qed.

Lemma length_code_payload s : length (code_payload s) = (Size + 4)%nat.
Proof. unfold code_payload. by rewrite length_app, length_take, !length_arr_bytes. Qed.
Lemma Secret_exact code s : Secret code = Ok s ↔ code = CodePrefix ++ RawURLEncode (code_payload s).
Proof.
  split.
  - unfold Secret. intros H. ok_inv H. destruct (CutPrefix code CodePrefix) as [body|] eqn:Ec; [|done].
    apply CutPrefix_Some in Ec as ->. destruct (RawURLDecode body) as [payload|]; [|done]. ok_inv H. apply Ok_inj in H as <-.
    bool_prop. match goal with H : (length payload =? _)%nat = true |- _ => apply Nat.eqb_eq in H; rename H into Hl end.
    unfold code_payload. rewrite arr_bytes_copy by (rewrite length_take; lia).
    match goal with H : take 4 _ = _ |- _ => rewrite H end. by rewrite take_drop; congruence.
  - intros ->. unfold Secret. rewrite length_app, length_RawURLEncode, length_code_payload. change (_ =? CodeSize)%nat with true. cbn [negb].
    rewrite (proj2 (CutPrefix_Some _ _ _) eq_refl), RawURLDecode_Encode, length_code_payload, Nat.eqb_refl. cbn [negb].
    assert (take Size (code_payload s) = arr_bytes s) as ->
      by (unfold code_payload; apply take_app_length', (eq_sym (length_arr_bytes s))).
    rewrite arr_copy_bytes, !bool_decide_eq_true_2; [done| |done].
    unfold code_payload. by rewrite drop_app_length' by (by rewrite length_arr_bytes).
Qed.

(** ** Properties *)

(** [Verify] accepts exactly what [New] publishes: a code and an offer give an advertisement
    if and only if both are what [New] makes of one secret and this advertisement. So the
    accepted encodings are unique and no offer is accepted under the code of another secret. *)
Theorem offer_exact code e ad : Verify code e = Ok ad ↔ ∃ secret : arr Size, New secret ad = Ok (code, e).
Proof.
  split.
  - unfold Verify. intros H. ok_inv H. rename a into secret, a0 into o. apply Ok_inj in H as <-. bool_prop.
    apply Secret_exact in E as ->. apply Parse_exact in E0. exists secret. unfold New.
    destruct (Encode_inv _ _ E0) as (Ha & _ & _). rewrite Ha.
    match goal with H1 : digest _ _ = _, H2 : makeProof _ _ = _ |- _ => rewrite H1, H2 end.
    replace (MkOffer _ _ _) with o by (by destruct o). by rewrite E0.
  - intros [secret H]. unfold New in H. ok_inv H. rename a into encoded. apply Ok_inj in H.
    pose proof (f_equal fst H) as Hc. pose proof (f_equal snd H) as He. cbn [fst snd] in Hc, He. subst code e. unfold Verify.
    rewrite (proj2 (Secret_exact _ secret) eq_refl), (proj2 (Parse_exact _ _) E). cbn [mbind result_bind Locator_of Advertisement Proof_of].
    by rewrite !bool_decide_eq_true_2.
Qed.
