(* ===== verification/PairingData.v ===== *)
(** * Receiver pairing: the records and their JSON

    The structs of [internal/receiverpairing] that are encoded, from [pairing.go],
    [store.go], [private.go] and [renewal_status.go], and the laws of their encodings. Two
    shapes are added to [StrictJson]: pointers with [omitempty], and byte slices, which are
    base64 strings. *)

From S2P Require Import Prelude GoIO Text Runes Sha256 Base64 Protocol StrictJson StrictJsonSafety JsonText.
Open Scope Z_scope.

(** ** Pointers and byte slices *)

(** A pointer is set to nil by [null]; any other value is assigned to what it points to. *)
#[export] Instance pointer_field {A} (F : Field A) : Field (option A) := {
  to_json o := match o with None => JNull | Some a => to_json a end;
  zero_value := None;
  assign v old := match v with JNull => Some None | _ => Some <$> assign v (default zero_value old) end }.
(** [omitempty] on a pointer *)
Definition member_pointer {A} (name : string) (F : Field A) (o : option A) : list (text * json) :=
  match o with None => [] | Some a => member name F a end.

Definition byte_field : Field byte := {|
  to_json := λ b, JNumber (FormatInt (b2z b));
  zero_value := Byte.x00;
  assign := λ v old, match v with JNumber l => z2b <$> ParseUint l 8 | JNull => Some old | _ => None end |}.
(** [[]byte] is written in base64; an array of numbers is read as well. *)
#[export] Instance bytes_field : Field (gslice byte) := {
  to_json s := match s with None => JNull | Some l => JString (StdEncode l) end;
  zero_value := None;
  assign v old := match v with
                  | JNull => Some None
                  | JString s => Some <$> StdDecode s
                  | JArray vs => Some <$> assign_elements byte_field vs (elems old)
                  | _ => None
                  end }.

(** ** Records *)

Record Trust := MkTrust {
  tr_RelayServerSPKI : text; tr_OuterEndpointCAPEM : text; tr_InnerConnectorCAPEM : text; tr_InnerClientCAPEM : text }.
#[export] Instance Trust_eq_dec : EqDecision Trust.
Proof. solve_decision. Defined.
#[export] Instance Trust_eta : Eta Trust := λ t,
  MkTrust (tr_RelayServerSPKI t) (tr_OuterEndpointCAPEM t)
    (tr_InnerConnectorCAPEM t) (tr_InnerClientCAPEM t).
#[export] Instance Trust_field : Field Trust := {
  to_json t := JObject (member "relay_server_spki_sha256" text_field (tr_RelayServerSPKI t)
    ++ member "outer_endpoint_ca_pem" text_field (tr_OuterEndpointCAPEM t)
    ++ member "inner_connector_ca_pem" text_field (tr_InnerConnectorCAPEM t)
    ++ member "inner_client_ca_pem" text_field (tr_InnerClientCAPEM t) ++ []);
  zero_value := MkTrust [] [] [] [];
  assign := assign_struct [
    field_at "relay_server_spki_sha256" text_field tr_RelayServerSPKI (λ u t, t <| tr_RelayServerSPKI := u |>);
    field_at "outer_endpoint_ca_pem" text_field tr_OuterEndpointCAPEM (λ u t, t <| tr_OuterEndpointCAPEM := u |>);
    field_at "inner_connector_ca_pem" text_field tr_InnerConnectorCAPEM (λ u t, t <| tr_InnerConnectorCAPEM := u |>);
    field_at "inner_client_ca_pem" text_field tr_InnerClientCAPEM (λ u t, t <| tr_InnerClientCAPEM := u |>)] }.

Record signedEnvelope := MkSigned {
  sg_Schema : text; sg_Payload : text; sg_Signature : text }.
#[export] Instance signedEnvelope_eq_dec : EqDecision signedEnvelope.
Proof. solve_decision. Defined.
#[export] Instance signedEnvelope_eta : Eta signedEnvelope := λ s,
  MkSigned (sg_Schema s) (sg_Payload s) (sg_Signature s).
#[export] Instance signedEnvelope_field : Field signedEnvelope := {
  to_json s := JObject (member "schema" text_field (sg_Schema s) ++ member "payload" text_field (sg_Payload s)
    ++ member "signature" text_field (sg_Signature s) ++ []);
  zero_value := MkSigned [] [] [];
  assign := assign_struct [
    field_at "schema" text_field sg_Schema (λ u s, s <| sg_Schema := u |>);
    field_at "payload" text_field sg_Payload (λ u s, s <| sg_Payload := u |>);
    field_at "signature" text_field sg_Signature (λ u s, s <| sg_Signature := u |>)] }.

Record cipherEnvelope := MkCipher {
  ce_Schema : text; ce_Ciphertext : text }.
#[export] Instance cipherEnvelope_eq_dec : EqDecision cipherEnvelope.
Proof. solve_decision. Defined.
#[export] Instance cipherEnvelope_eta : Eta cipherEnvelope := λ c,
  MkCipher (ce_Schema c) (ce_Ciphertext c).
#[export] Instance cipherEnvelope_field : Field cipherEnvelope := {
  to_json c := JObject (member "schema" text_field (ce_Schema c) ++ member "ciphertext" text_field (ce_Ciphertext c) ++ []);
  zero_value := MkCipher [] [];
  assign := assign_struct [
    field_at "schema" text_field ce_Schema (λ u c, c <| ce_Schema := u |>);
    field_at "ciphertext" text_field ce_Ciphertext (λ u c, c <| ce_Ciphertext := u |>)] }.

Record advertisementPayload := MkAdvert {
  av_Schema : text; av_Profile : text; av_ReceiverID : text; av_RouteID : text; av_RelayOrigin : text; av_AttemptID : text;
  av_CreatedUnix : Z; av_ExpiresUnix : Z; av_ReceiverSigningPublic : text; av_ReceiverAgeRecipient : text; av_Trust : Trust }.
#[export] Instance advertisementPayload_eq_dec : EqDecision advertisementPayload.
Proof. solve_decision. Defined.
#[export] Instance advertisementPayload_eta : Eta advertisementPayload := λ a,
  MkAdvert (av_Schema a) (av_Profile a)
    (av_ReceiverID a) (av_RouteID a) (av_RelayOrigin a) (av_AttemptID a) (av_CreatedUnix a) (av_ExpiresUnix a)
    (av_ReceiverSigningPublic a) (av_ReceiverAgeRecipient a) (av_Trust a).
#[export] Instance advertisementPayload_field : Field advertisementPayload := {
  to_json a := JObject (member "schema" text_field (av_Schema a) ++ member "profile" text_field (av_Profile a)
    ++ member "receiver_id" text_field (av_ReceiverID a) ++ member "route_id" text_field (av_RouteID a)
    ++ member "relay_origin" text_field (av_RelayOrigin a) ++ member "attempt_id" text_field (av_AttemptID a)
    ++ member "created_unix" (int_field 64) (av_CreatedUnix a) ++ member "expires_unix" (int_field 64) (av_ExpiresUnix a)
    ++ member "receiver_signing_public_key_pem" text_field (av_ReceiverSigningPublic a)
    ++ member "receiver_request_recipient" text_field (av_ReceiverAgeRecipient a) ++ member "trust" Trust_field (av_Trust a) ++ []);
  zero_value := MkAdvert [] [] [] [] [] [] 0 0 [] [] zero_value;
  assign := assign_struct [
    field_at "schema" text_field av_Schema (λ u a, a <| av_Schema := u |>);
    field_at "profile" text_field av_Profile (λ u a, a <| av_Profile := u |>);
    field_at "receiver_id" text_field av_ReceiverID (λ u a, a <| av_ReceiverID := u |>);
    field_at "route_id" text_field av_RouteID (λ u a, a <| av_RouteID := u |>);
    field_at "relay_origin" text_field av_RelayOrigin (λ u a, a <| av_RelayOrigin := u |>);
    field_at "attempt_id" text_field av_AttemptID (λ u a, a <| av_AttemptID := u |>);
    field_at "created_unix" (int_field 64) av_CreatedUnix (λ u a, a <| av_CreatedUnix := u |>);
    field_at "expires_unix" (int_field 64) av_ExpiresUnix (λ u a, a <| av_ExpiresUnix := u |>);
    field_at "receiver_signing_public_key_pem" text_field av_ReceiverSigningPublic (λ u a, a <| av_ReceiverSigningPublic := u |>);
    field_at "receiver_request_recipient" text_field av_ReceiverAgeRecipient (λ u a, a <| av_ReceiverAgeRecipient := u |>);
    field_at "trust" Trust_field av_Trust (λ u a, a <| av_Trust := u |>)] }.

Record codePayload := MkCode {
  cp_Schema : text; cp_ReceiverID : text; cp_AttemptID : text; cp_ExpiresUnix : Z; cp_AdvertisementSHA256 : text;
  cp_Secret : text }.
#[export] Instance codePayload_eq_dec : EqDecision codePayload.
Proof. solve_decision. Defined.
#[export] Instance codePayload_eta : Eta codePayload := λ c,
  MkCode (cp_Schema c) (cp_ReceiverID c) (cp_AttemptID c)
    (cp_ExpiresUnix c) (cp_AdvertisementSHA256 c) (cp_Secret c).
#[export] Instance codePayload_field : Field codePayload := {
  to_json c := JObject (member "schema" text_field (cp_Schema c) ++ member "receiver_id" text_field (cp_ReceiverID c)
    ++ member "attempt_id" text_field (cp_AttemptID c) ++ member "expires_unix" (int_field 64) (cp_ExpiresUnix c)
    ++ member "advertisement_sha256" text_field (cp_AdvertisementSHA256 c) ++ member "secret" text_field (cp_Secret c) ++ []);
  zero_value := MkCode [] [] [] 0 [] [];
  assign := assign_struct [
    field_at "schema" text_field cp_Schema (λ u c, c <| cp_Schema := u |>);
    field_at "receiver_id" text_field cp_ReceiverID (λ u c, c <| cp_ReceiverID := u |>);
    field_at "attempt_id" text_field cp_AttemptID (λ u c, c <| cp_AttemptID := u |>);
    field_at "expires_unix" (int_field 64) cp_ExpiresUnix (λ u c, c <| cp_ExpiresUnix := u |>);
    field_at "advertisement_sha256" text_field cp_AdvertisementSHA256 (λ u c, c <| cp_AdvertisementSHA256 := u |>);
    field_at "secret" text_field cp_Secret (λ u c, c <| cp_Secret := u |>)] }.

Record requestPayload := MkRequest {
  rq_Schema : text; rq_Profile : text; rq_ReceiverID : text; rq_RouteID : text; rq_RelayOrigin : text; rq_AttemptID : text;
  rq_AdvertisementSHA256 : text; rq_ClientID : text; rq_Nonce : text; rq_CreatedUnix : Z; rq_ExpiresUnix : Z;
  rq_PairingPublicKeyPEM : text; rq_ResponseRecipient : text; rq_PublicPayload : text; rq_Code : text }.
#[export] Instance requestPayload_eq_dec : EqDecision requestPayload.
Proof. solve_decision. Defined.
#[export] Instance requestPayload_eta : Eta requestPayload := λ r,
  MkRequest (rq_Schema r) (rq_Profile r) (rq_ReceiverID r)
    (rq_RouteID r) (rq_RelayOrigin r) (rq_AttemptID r) (rq_AdvertisementSHA256 r) (rq_ClientID r) (rq_Nonce r)
    (rq_CreatedUnix r) (rq_ExpiresUnix r) (rq_PairingPublicKeyPEM r) (rq_ResponseRecipient r) (rq_PublicPayload r) (rq_Code r).
#[export] Instance requestPayload_field : Field requestPayload := {
  to_json r := JObject (member "schema" text_field (rq_Schema r) ++ member "profile" text_field (rq_Profile r)
    ++ member "receiver_id" text_field (rq_ReceiverID r) ++ member "route_id" text_field (rq_RouteID r)
    ++ member "relay_origin" text_field (rq_RelayOrigin r) ++ member "attempt_id" text_field (rq_AttemptID r)
    ++ member "advertisement_sha256" text_field (rq_AdvertisementSHA256 r) ++ member "client_id" text_field (rq_ClientID r)
    ++ member "nonce" text_field (rq_Nonce r) ++ member "created_unix" (int_field 64) (rq_CreatedUnix r)
    ++ member "expires_unix" (int_field 64) (rq_ExpiresUnix r)
    ++ member "pairing_public_key_pem" text_field (rq_PairingPublicKeyPEM r)
    ++ member "response_recipient" text_field (rq_ResponseRecipient r)
    ++ member "public_payload" text_field (rq_PublicPayload r) ++ member "private_code" text_field (rq_Code r) ++ []);
  zero_value := MkRequest [] [] [] [] [] [] [] [] [] 0 0 [] [] [] [];
  assign := assign_struct [
    field_at "schema" text_field rq_Schema (λ u r, r <| rq_Schema := u |>);
    field_at "profile" text_field rq_Profile (λ u r, r <| rq_Profile := u |>);
    field_at "receiver_id" text_field rq_ReceiverID (λ u r, r <| rq_ReceiverID := u |>);
    field_at "route_id" text_field rq_RouteID (λ u r, r <| rq_RouteID := u |>);
    field_at "relay_origin" text_field rq_RelayOrigin (λ u r, r <| rq_RelayOrigin := u |>);
    field_at "attempt_id" text_field rq_AttemptID (λ u r, r <| rq_AttemptID := u |>);
    field_at "advertisement_sha256" text_field rq_AdvertisementSHA256 (λ u r, r <| rq_AdvertisementSHA256 := u |>);
    field_at "client_id" text_field rq_ClientID (λ u r, r <| rq_ClientID := u |>);
    field_at "nonce" text_field rq_Nonce (λ u r, r <| rq_Nonce := u |>);
    field_at "created_unix" (int_field 64) rq_CreatedUnix (λ u r, r <| rq_CreatedUnix := u |>);
    field_at "expires_unix" (int_field 64) rq_ExpiresUnix (λ u r, r <| rq_ExpiresUnix := u |>);
    field_at "pairing_public_key_pem" text_field rq_PairingPublicKeyPEM (λ u r, r <| rq_PairingPublicKeyPEM := u |>);
    field_at "response_recipient" text_field rq_ResponseRecipient (λ u r, r <| rq_ResponseRecipient := u |>);
    field_at "public_payload" text_field rq_PublicPayload (λ u r, r <| rq_PublicPayload := u |>);
    field_at "private_code" text_field rq_Code (λ u r, r <| rq_Code := u |>)] }.

Record responsePayload := MkResponse {
  rp_Schema : text; rp_Profile : text; rp_Kind : text; rp_ReceiverID : text; rp_RouteID : text; rp_RelayOrigin : text;
  rp_AttemptID : text; rp_ClientID : text; rp_RequestSHA256 : text; rp_PairingPublicKeyPEM : text; rp_CredentialGeneration : Z;
  rp_IssuedUnix : Z; rp_ExpiresUnix : Z; rp_Authorization : text }.
#[export] Instance responsePayload_eq_dec : EqDecision responsePayload.
Proof. solve_decision. Defined.
#[export] Instance responsePayload_eta : Eta responsePayload := λ r,
  MkResponse (rp_Schema r) (rp_Profile r) (rp_Kind r)
    (rp_ReceiverID r) (rp_RouteID r) (rp_RelayOrigin r) (rp_AttemptID r) (rp_ClientID r) (rp_RequestSHA256 r)
    (rp_PairingPublicKeyPEM r) (rp_CredentialGeneration r) (rp_IssuedUnix r) (rp_ExpiresUnix r) (rp_Authorization r).
#[export] Instance responsePayload_field : Field responsePayload := {
  to_json r := JObject (member "schema" text_field (rp_Schema r) ++ member "profile" text_field (rp_Profile r)
    ++ member "kind" text_field (rp_Kind r) ++ member "receiver_id" text_field (rp_ReceiverID r)
    ++ member "route_id" text_field (rp_RouteID r) ++ member "relay_origin" text_field (rp_RelayOrigin r)
    ++ member_omitempty "attempt_id" (rp_AttemptID r) ++ member "client_id" text_field (rp_ClientID r)
    ++ member "request_sha256" text_field (rp_RequestSHA256 r)
    ++ member "pairing_public_key_pem" text_field (rp_PairingPublicKeyPEM r)
    ++ member "credential_generation" (uint_field 64) (rp_CredentialGeneration r)
    ++ member "issued_unix" (int_field 64) (rp_IssuedUnix r) ++ member "expires_unix" (int_field 64) (rp_ExpiresUnix r)
    ++ member "authorization" text_field (rp_Authorization r) ++ []);
  zero_value := MkResponse [] [] [] [] [] [] [] [] [] [] 0 0 0 [];
  assign := assign_struct [
    field_at "schema" text_field rp_Schema (λ u r, r <| rp_Schema := u |>);
    field_at "profile" text_field rp_Profile (λ u r, r <| rp_Profile := u |>);
    field_at "kind" text_field rp_Kind (λ u r, r <| rp_Kind := u |>);
    field_at "receiver_id" text_field rp_ReceiverID (λ u r, r <| rp_ReceiverID := u |>);
    field_at "route_id" text_field rp_RouteID (λ u r, r <| rp_RouteID := u |>);
    field_at "relay_origin" text_field rp_RelayOrigin (λ u r, r <| rp_RelayOrigin := u |>);
    field_at "attempt_id" text_field rp_AttemptID (λ u r, r <| rp_AttemptID := u |>);
    field_at "client_id" text_field rp_ClientID (λ u r, r <| rp_ClientID := u |>);
    field_at "request_sha256" text_field rp_RequestSHA256 (λ u r, r <| rp_RequestSHA256 := u |>);
    field_at "pairing_public_key_pem" text_field rp_PairingPublicKeyPEM (λ u r, r <| rp_PairingPublicKeyPEM := u |>);
    field_at "credential_generation" (uint_field 64) rp_CredentialGeneration (λ u r, r <| rp_CredentialGeneration := u |>);
    field_at "issued_unix" (int_field 64) rp_IssuedUnix (λ u r, r <| rp_IssuedUnix := u |>);
    field_at "expires_unix" (int_field 64) rp_ExpiresUnix (λ u r, r <| rp_ExpiresUnix := u |>);
    field_at "authorization" text_field rp_Authorization (λ u r, r <| rp_Authorization := u |>)] }.

Record renewalPayload := MkRenewal {
  rn_Schema : text; rn_Profile : text; rn_ReceiverID : text; rn_RouteID : text; rn_RelayOrigin : text; rn_ClientID : text;
  rn_Nonce : text; rn_CredentialGeneration : Z; rn_CreatedUnix : Z; rn_ExpiresUnix : Z; rn_PairingPublicKeyPEM : text;
  rn_ResponseRecipient : text; rn_PublicPayload : text }.
#[export] Instance renewalPayload_eq_dec : EqDecision renewalPayload.
Proof. solve_decision. Defined.
#[export] Instance renewalPayload_eta : Eta renewalPayload := λ r,
  MkRenewal (rn_Schema r) (rn_Profile r) (rn_ReceiverID r)
    (rn_RouteID r) (rn_RelayOrigin r) (rn_ClientID r) (rn_Nonce r) (rn_CredentialGeneration r) (rn_CreatedUnix r)
    (rn_ExpiresUnix r) (rn_PairingPublicKeyPEM r) (rn_ResponseRecipient r) (rn_PublicPayload r).
#[export] Instance renewalPayload_field : Field renewalPayload := {
  to_json r := JObject (member "schema" text_field (rn_Schema r) ++ member "profile" text_field (rn_Profile r)
    ++ member "receiver_id" text_field (rn_ReceiverID r) ++ member "route_id" text_field (rn_RouteID r)
    ++ member "relay_origin" text_field (rn_RelayOrigin r) ++ member "client_id" text_field (rn_ClientID r)
    ++ member "nonce" text_field (rn_Nonce r) ++ member "credential_generation" (uint_field 64) (rn_CredentialGeneration r)
    ++ member "created_unix" (int_field 64) (rn_CreatedUnix r) ++ member "expires_unix" (int_field 64) (rn_ExpiresUnix r)
    ++ member "pairing_public_key_pem" text_field (rn_PairingPublicKeyPEM r)
    ++ member "response_recipient" text_field (rn_ResponseRecipient r)
    ++ member "public_payload" text_field (rn_PublicPayload r) ++ []);
  zero_value := MkRenewal [] [] [] [] [] [] [] 0 0 0 [] [] [];
  assign := assign_struct [
    field_at "schema" text_field rn_Schema (λ u r, r <| rn_Schema := u |>);
    field_at "profile" text_field rn_Profile (λ u r, r <| rn_Profile := u |>);
    field_at "receiver_id" text_field rn_ReceiverID (λ u r, r <| rn_ReceiverID := u |>);
    field_at "route_id" text_field rn_RouteID (λ u r, r <| rn_RouteID := u |>);
    field_at "relay_origin" text_field rn_RelayOrigin (λ u r, r <| rn_RelayOrigin := u |>);
    field_at "client_id" text_field rn_ClientID (λ u r, r <| rn_ClientID := u |>);
    field_at "nonce" text_field rn_Nonce (λ u r, r <| rn_Nonce := u |>);
    field_at "credential_generation" (uint_field 64) rn_CredentialGeneration (λ u r, r <| rn_CredentialGeneration := u |>);
    field_at "created_unix" (int_field 64) rn_CreatedUnix (λ u r, r <| rn_CreatedUnix := u |>);
    field_at "expires_unix" (int_field 64) rn_ExpiresUnix (λ u r, r <| rn_ExpiresUnix := u |>);
    field_at "pairing_public_key_pem" text_field rn_PairingPublicKeyPEM (λ u r, r <| rn_PairingPublicKeyPEM := u |>);
    field_at "response_recipient" text_field rn_ResponseRecipient (λ u r, r <| rn_ResponseRecipient := u |>);
    field_at "public_payload" text_field rn_PublicPayload (λ u r, r <| rn_PublicPayload := u |>)] }.

Record encodedClientMaterial := MkEncMaterial {
  ecm_Schema : text; ecm_Profile : text; ecm_ReceiverID : text; ecm_RouteID : text; ecm_RelayOrigin : text; ecm_AttemptID : text;
  ecm_AdvertisementSHA256 : text; ecm_ClientID : text; ecm_RequestSHA256 : text; ecm_Request : text;
  ecm_PairingPrivateKeyPEM : text; ecm_ResponseAgeIdentity : text; ecm_ReceiverPublicKeyPEM : text;
  ecm_ReceiverAgeRecipient : text }.
#[export] Instance encodedClientMaterial_eq_dec : EqDecision encodedClientMaterial.
Proof. solve_decision. Defined.
#[export] Instance encodedClientMaterial_eta : Eta encodedClientMaterial := λ e,
  MkEncMaterial (ecm_Schema e) (ecm_Profile e)
    (ecm_ReceiverID e) (ecm_RouteID e) (ecm_RelayOrigin e) (ecm_AttemptID e) (ecm_AdvertisementSHA256 e) (ecm_ClientID e)
    (ecm_RequestSHA256 e) (ecm_Request e) (ecm_PairingPrivateKeyPEM e) (ecm_ResponseAgeIdentity e) (ecm_ReceiverPublicKeyPEM e)
    (ecm_ReceiverAgeRecipient e).
#[export] Instance encodedClientMaterial_field : Field encodedClientMaterial := {
  to_json e := JObject (member "schema" text_field (ecm_Schema e) ++ member "profile" text_field (ecm_Profile e)
    ++ member "receiver_id" text_field (ecm_ReceiverID e) ++ member "route_id" text_field (ecm_RouteID e)
    ++ member "relay_origin" text_field (ecm_RelayOrigin e) ++ member "attempt_id" text_field (ecm_AttemptID e)
    ++ member "advertisement_sha256" text_field (ecm_AdvertisementSHA256 e) ++ member "client_id" text_field (ecm_ClientID e)
    ++ member "request_sha256" text_field (ecm_RequestSHA256 e) ++ member "encrypted_request" text_field (ecm_Request e)
    ++ member "pairing_private_key_pem" text_field (ecm_PairingPrivateKeyPEM e)
    ++ member "response_age_identity" text_field (ecm_ResponseAgeIdentity e)
    ++ member "receiver_public_key_pem" text_field (ecm_ReceiverPublicKeyPEM e)
    ++ member "receiver_age_recipient" text_field (ecm_ReceiverAgeRecipient e) ++ []);
  zero_value := MkEncMaterial [] [] [] [] [] [] [] [] [] [] [] [] [] [];
  assign := assign_struct [
    field_at "schema" text_field ecm_Schema (λ u e, e <| ecm_Schema := u |>);
    field_at "profile" text_field ecm_Profile (λ u e, e <| ecm_Profile := u |>);
    field_at "receiver_id" text_field ecm_ReceiverID (λ u e, e <| ecm_ReceiverID := u |>);
    field_at "route_id" text_field ecm_RouteID (λ u e, e <| ecm_RouteID := u |>);
    field_at "relay_origin" text_field ecm_RelayOrigin (λ u e, e <| ecm_RelayOrigin := u |>);
    field_at "attempt_id" text_field ecm_AttemptID (λ u e, e <| ecm_AttemptID := u |>);
    field_at "advertisement_sha256" text_field ecm_AdvertisementSHA256 (λ u e, e <| ecm_AdvertisementSHA256 := u |>);
    field_at "client_id" text_field ecm_ClientID (λ u e, e <| ecm_ClientID := u |>);
    field_at "request_sha256" text_field ecm_RequestSHA256 (λ u e, e <| ecm_RequestSHA256 := u |>);
    field_at "encrypted_request" text_field ecm_Request (λ u e, e <| ecm_Request := u |>);
    field_at "pairing_private_key_pem" text_field ecm_PairingPrivateKeyPEM (λ u e, e <| ecm_PairingPrivateKeyPEM := u |>);
    field_at "response_age_identity" text_field ecm_ResponseAgeIdentity (λ u e, e <| ecm_ResponseAgeIdentity := u |>);
    field_at "receiver_public_key_pem" text_field ecm_ReceiverPublicKeyPEM (λ u e, e <| ecm_ReceiverPublicKeyPEM := u |>);
    field_at "receiver_age_recipient" text_field ecm_ReceiverAgeRecipient (λ u e, e <| ecm_ReceiverAgeRecipient := u |>)] }.

Record encodedPairing := MkEncPairing {
  epg_Schema : text; epg_Profile : text; epg_ReceiverID : text; epg_RouteID : text; epg_RelayOrigin : text; epg_ClientID : text;
  epg_CredentialGeneration : Z; epg_PairingPrivateKeyPEM : text; epg_ReceiverPublicKeyPEM : text;
  epg_ReceiverAgeRecipient : text }.
#[export] Instance encodedPairing_eq_dec : EqDecision encodedPairing.
Proof. solve_decision. Defined.
#[export] Instance encodedPairing_eta : Eta encodedPairing := λ e,
  MkEncPairing (epg_Schema e) (epg_Profile e)
    (epg_ReceiverID e) (epg_RouteID e) (epg_RelayOrigin e) (epg_ClientID e) (epg_CredentialGeneration e)
    (epg_PairingPrivateKeyPEM e) (epg_ReceiverPublicKeyPEM e) (epg_ReceiverAgeRecipient e).
#[export] Instance encodedPairing_field : Field encodedPairing := {
  to_json e := JObject (member "schema" text_field (epg_Schema e) ++ member "profile" text_field (epg_Profile e)
    ++ member "receiver_id" text_field (epg_ReceiverID e) ++ member "route_id" text_field (epg_RouteID e)
    ++ member "relay_origin" text_field (epg_RelayOrigin e) ++ member "client_id" text_field (epg_ClientID e)
    ++ member "credential_generation" (uint_field 64) (epg_CredentialGeneration e)
    ++ member "pairing_private_key_pem" text_field (epg_PairingPrivateKeyPEM e)
    ++ member "receiver_public_key_pem" text_field (epg_ReceiverPublicKeyPEM e)
    ++ member "receiver_age_recipient" text_field (epg_ReceiverAgeRecipient e) ++ []);
  zero_value := MkEncPairing [] [] [] [] [] [] 0 [] [] [];
  assign := assign_struct [
    field_at "schema" text_field epg_Schema (λ u e, e <| epg_Schema := u |>);
    field_at "profile" text_field epg_Profile (λ u e, e <| epg_Profile := u |>);
    field_at "receiver_id" text_field epg_ReceiverID (λ u e, e <| epg_ReceiverID := u |>);
    field_at "route_id" text_field epg_RouteID (λ u e, e <| epg_RouteID := u |>);
    field_at "relay_origin" text_field epg_RelayOrigin (λ u e, e <| epg_RelayOrigin := u |>);
    field_at "client_id" text_field epg_ClientID (λ u e, e <| epg_ClientID := u |>);
    field_at "credential_generation" (uint_field 64) epg_CredentialGeneration (λ u e, e <| epg_CredentialGeneration := u |>);
    field_at "pairing_private_key_pem" text_field epg_PairingPrivateKeyPEM (λ u e, e <| epg_PairingPrivateKeyPEM := u |>);
    field_at "receiver_public_key_pem" text_field epg_ReceiverPublicKeyPEM (λ u e, e <| epg_ReceiverPublicKeyPEM := u |>);
    field_at "receiver_age_recipient" text_field epg_ReceiverAgeRecipient (λ u e, e <| epg_ReceiverAgeRecipient := u |>)] }.

Record encodedRenewalMaterial := MkEncRenewal {
  erm_Schema : text; erm_Profile : text; erm_Pairing : text; erm_RequestSHA256 : text; erm_Request : text;
  erm_ResponseAgeIdentity : text; erm_NextGeneration : Z }.
#[export] Instance encodedRenewalMaterial_eq_dec : EqDecision encodedRenewalMaterial.
Proof. solve_decision. Defined.
#[export] Instance encodedRenewalMaterial_eta : Eta encodedRenewalMaterial := λ e,
  MkEncRenewal (erm_Schema e) (erm_Profile e)
    (erm_Pairing e) (erm_RequestSHA256 e) (erm_Request e) (erm_ResponseAgeIdentity e) (erm_NextGeneration e).
#[export] Instance encodedRenewalMaterial_field : Field encodedRenewalMaterial := {
  to_json e := JObject (member "schema" text_field (erm_Schema e) ++ member "profile" text_field (erm_Profile e)
    ++ member "pairing" text_field (erm_Pairing e) ++ member "request_sha256" text_field (erm_RequestSHA256 e)
    ++ member "encrypted_request" text_field (erm_Request e)
    ++ member "response_age_identity" text_field (erm_ResponseAgeIdentity e)
    ++ member "next_generation" (uint_field 64) (erm_NextGeneration e) ++ []);
  zero_value := MkEncRenewal [] [] [] [] [] [] 0;
  assign := assign_struct [
    field_at "schema" text_field erm_Schema (λ u e, e <| erm_Schema := u |>);
    field_at "profile" text_field erm_Profile (λ u e, e <| erm_Profile := u |>);
    field_at "pairing" text_field erm_Pairing (λ u e, e <| erm_Pairing := u |>);
    field_at "request_sha256" text_field erm_RequestSHA256 (λ u e, e <| erm_RequestSHA256 := u |>);
    field_at "encrypted_request" text_field erm_Request (λ u e, e <| erm_Request := u |>);
    field_at "response_age_identity" text_field erm_ResponseAgeIdentity (λ u e, e <| erm_ResponseAgeIdentity := u |>);
    field_at "next_generation" (uint_field 64) erm_NextGeneration (λ u e, e <| erm_NextGeneration := u |>)] }.

Record renewalStatusPayload := MkStatusQuery {
  sq_Schema : text; sq_Profile : text; sq_ReceiverID : text; sq_RouteID : text; sq_RelayOrigin : text; sq_ClientID : text;
  sq_PendingSHA256 : text; sq_KnownGeneration : Z; sq_Nonce : text; sq_ResponseRecipient : text; sq_CreatedUnix : Z;
  sq_ExpiresUnix : Z }.
#[export] Instance renewalStatusPayload_eq_dec : EqDecision renewalStatusPayload.
Proof. solve_decision. Defined.
#[export] Instance renewalStatusPayload_eta : Eta renewalStatusPayload := λ s,
  MkStatusQuery (sq_Schema s) (sq_Profile s)
    (sq_ReceiverID s) (sq_RouteID s) (sq_RelayOrigin s) (sq_ClientID s) (sq_PendingSHA256 s) (sq_KnownGeneration s) (sq_Nonce s)
    (sq_ResponseRecipient s) (sq_CreatedUnix s) (sq_ExpiresUnix s).
#[export] Instance renewalStatusPayload_field : Field renewalStatusPayload := {
  to_json s := JObject (member "schema" text_field (sq_Schema s) ++ member "profile" text_field (sq_Profile s)
    ++ member "receiver_id" text_field (sq_ReceiverID s) ++ member "route_id" text_field (sq_RouteID s)
    ++ member "relay_origin" text_field (sq_RelayOrigin s) ++ member "client_id" text_field (sq_ClientID s)
    ++ member "pending_sha256" text_field (sq_PendingSHA256 s)
    ++ member "known_generation" (uint_field 64) (sq_KnownGeneration s) ++ member "nonce" text_field (sq_Nonce s)
    ++ member "response_recipient" text_field (sq_ResponseRecipient s)
    ++ member "created_unix" (int_field 64) (sq_CreatedUnix s) ++ member "expires_unix" (int_field 64) (sq_ExpiresUnix s) ++ []);
  zero_value := MkStatusQuery [] [] [] [] [] [] [] 0 [] [] 0 0;
  assign := assign_struct [
    field_at "schema" text_field sq_Schema (λ u s, s <| sq_Schema := u |>);
    field_at "profile" text_field sq_Profile (λ u s, s <| sq_Profile := u |>);
    field_at "receiver_id" text_field sq_ReceiverID (λ u s, s <| sq_ReceiverID := u |>);
    field_at "route_id" text_field sq_RouteID (λ u s, s <| sq_RouteID := u |>);
    field_at "relay_origin" text_field sq_RelayOrigin (λ u s, s <| sq_RelayOrigin := u |>);
    field_at "client_id" text_field sq_ClientID (λ u s, s <| sq_ClientID := u |>);
    field_at "pending_sha256" text_field sq_PendingSHA256 (λ u s, s <| sq_PendingSHA256 := u |>);
    field_at "known_generation" (uint_field 64) sq_KnownGeneration (λ u s, s <| sq_KnownGeneration := u |>);
    field_at "nonce" text_field sq_Nonce (λ u s, s <| sq_Nonce := u |>);
    field_at "response_recipient" text_field sq_ResponseRecipient (λ u s, s <| sq_ResponseRecipient := u |>);
    field_at "created_unix" (int_field 64) sq_CreatedUnix (λ u s, s <| sq_CreatedUnix := u |>);
    field_at "expires_unix" (int_field 64) sq_ExpiresUnix (λ u s, s <| sq_ExpiresUnix := u |>)] }.

Record renewalStatusResponse := MkStatusReply {
  sr_Schema : text; sr_Profile : text; sr_ReceiverID : text; sr_RouteID : text; sr_RelayOrigin : text; sr_ClientID : text;
  sr_QuerySHA256 : text; sr_PendingSHA256 : text; sr_Generation : Z; sr_IssuedUnix : Z; sr_ExpiresUnix : Z }.
#[export] Instance renewalStatusResponse_eq_dec : EqDecision renewalStatusResponse.
Proof. solve_decision. Defined.
#[export] Instance renewalStatusResponse_eta : Eta renewalStatusResponse := λ s,
  MkStatusReply (sr_Schema s) (sr_Profile s)
    (sr_ReceiverID s) (sr_RouteID s) (sr_RelayOrigin s) (sr_ClientID s) (sr_QuerySHA256 s) (sr_PendingSHA256 s)
    (sr_Generation s) (sr_IssuedUnix s) (sr_ExpiresUnix s).
#[export] Instance renewalStatusResponse_field : Field renewalStatusResponse := {
  to_json s := JObject (member "schema" text_field (sr_Schema s) ++ member "profile" text_field (sr_Profile s)
    ++ member "receiver_id" text_field (sr_ReceiverID s) ++ member "route_id" text_field (sr_RouteID s)
    ++ member "relay_origin" text_field (sr_RelayOrigin s) ++ member "client_id" text_field (sr_ClientID s)
    ++ member "query_sha256" text_field (sr_QuerySHA256 s) ++ member "pending_sha256" text_field (sr_PendingSHA256 s)
    ++ member "generation" (uint_field 64) (sr_Generation s) ++ member "issued_unix" (int_field 64) (sr_IssuedUnix s)
    ++ member "expires_unix" (int_field 64) (sr_ExpiresUnix s) ++ []);
  zero_value := MkStatusReply [] [] [] [] [] [] [] [] 0 0 0;
  assign := assign_struct [
    field_at "schema" text_field sr_Schema (λ u s, s <| sr_Schema := u |>);
    field_at "profile" text_field sr_Profile (λ u s, s <| sr_Profile := u |>);
    field_at "receiver_id" text_field sr_ReceiverID (λ u s, s <| sr_ReceiverID := u |>);
    field_at "route_id" text_field sr_RouteID (λ u s, s <| sr_RouteID := u |>);
    field_at "relay_origin" text_field sr_RelayOrigin (λ u s, s <| sr_RelayOrigin := u |>);
    field_at "client_id" text_field sr_ClientID (λ u s, s <| sr_ClientID := u |>);
    field_at "query_sha256" text_field sr_QuerySHA256 (λ u s, s <| sr_QuerySHA256 := u |>);
    field_at "pending_sha256" text_field sr_PendingSHA256 (λ u s, s <| sr_PendingSHA256 := u |>);
    field_at "generation" (uint_field 64) sr_Generation (λ u s, s <| sr_Generation := u |>);
    field_at "issued_unix" (int_field 64) sr_IssuedUnix (λ u s, s <| sr_IssuedUnix := u |>);
    field_at "expires_unix" (int_field 64) sr_ExpiresUnix (λ u s, s <| sr_ExpiresUnix := u |>)] }.

Record attemptRecord := MkAttempt {
  at_AttemptID : text; at_ExpiresUnix : Z; at_Advertisement : text; at_AdvertisementSHA256 : text; at_CodeSHA256 : text }.
#[export] Instance attemptRecord_eq_dec : EqDecision attemptRecord.
Proof. solve_decision. Defined.
#[export] Instance attemptRecord_eta : Eta attemptRecord := λ a,
  MkAttempt (at_AttemptID a) (at_ExpiresUnix a)
    (at_Advertisement a) (at_AdvertisementSHA256 a) (at_CodeSHA256 a).
#[export] Instance attemptRecord_field : Field attemptRecord := {
  to_json a := JObject (member "attempt_id" text_field (at_AttemptID a)
    ++ member "expires_unix" (int_field 64) (at_ExpiresUnix a) ++ member "advertisement" text_field (at_Advertisement a)
    ++ member "advertisement_sha256" text_field (at_AdvertisementSHA256 a) ++ member "code_sha256" text_field (at_CodeSHA256 a) ++ []);
  zero_value := MkAttempt [] 0 [] [] [];
  assign := assign_struct [
    field_at "attempt_id" text_field at_AttemptID (λ u a, a <| at_AttemptID := u |>);
    field_at "expires_unix" (int_field 64) at_ExpiresUnix (λ u a, a <| at_ExpiresUnix := u |>);
    field_at "advertisement" text_field at_Advertisement (λ u a, a <| at_Advertisement := u |>);
    field_at "advertisement_sha256" text_field at_AdvertisementSHA256 (λ u a, a <| at_AdvertisementSHA256 := u |>);
    field_at "code_sha256" text_field at_CodeSHA256 (λ u a, a <| at_CodeSHA256 := u |>)] }.

Record peerRecord := MkPeer {
  pr_Authorization : gslice byte; pr_ClientID : text; pr_PairingPublicKeyPEM : text; pr_AttemptID : text;
  pr_InitialRequestSHA256 : text; pr_InitialResponse : text; pr_CredentialGeneration : Z; pr_Locked : bool; pr_Revoked : bool;
  pr_LastRenewalRequestSHA256 : text; pr_LastRenewalResponse : text }.
#[export] Instance peerRecord_eq_dec : EqDecision peerRecord.
Proof. solve_decision. Defined.
#[export] Instance peerRecord_eta : Eta peerRecord := λ p,
  MkPeer (pr_Authorization p) (pr_ClientID p)
    (pr_PairingPublicKeyPEM p) (pr_AttemptID p) (pr_InitialRequestSHA256 p) (pr_InitialResponse p) (pr_CredentialGeneration p)
    (pr_Locked p) (pr_Revoked p) (pr_LastRenewalRequestSHA256 p) (pr_LastRenewalResponse p).
#[export] Instance peerRecord_field : Field peerRecord := {
  to_json p := JObject (member "authorization" bytes_field (pr_Authorization p) ++ member "client_id" text_field (pr_ClientID p)
    ++ member "pairing_public_key_pem" text_field (pr_PairingPublicKeyPEM p) ++ member "attempt_id" text_field (pr_AttemptID p)
    ++ member "initial_request_sha256" text_field (pr_InitialRequestSHA256 p)
    ++ member "initial_response" text_field (pr_InitialResponse p)
    ++ member "credential_generation" (uint_field 64) (pr_CredentialGeneration p) ++ member "locked" bool_field (pr_Locked p)
    ++ member "revoked" bool_field (pr_Revoked p)
    ++ member_omitempty "last_renewal_request_sha256" (pr_LastRenewalRequestSHA256 p)
    ++ member_omitempty "last_renewal_response" (pr_LastRenewalResponse p) ++ []);
  zero_value := MkPeer None [] [] [] [] [] 0 false false [] [];
  assign := assign_struct [
    field_at "authorization" bytes_field pr_Authorization (λ u p, p <| pr_Authorization := u |>);
    field_at "client_id" text_field pr_ClientID (λ u p, p <| pr_ClientID := u |>);
    field_at "pairing_public_key_pem" text_field pr_PairingPublicKeyPEM (λ u p, p <| pr_PairingPublicKeyPEM := u |>);
    field_at "attempt_id" text_field pr_AttemptID (λ u p, p <| pr_AttemptID := u |>);
    field_at "initial_request_sha256" text_field pr_InitialRequestSHA256 (λ u p, p <| pr_InitialRequestSHA256 := u |>);
    field_at "initial_response" text_field pr_InitialResponse (λ u p, p <| pr_InitialResponse := u |>);
    field_at "credential_generation" (uint_field 64) pr_CredentialGeneration (λ u p, p <| pr_CredentialGeneration := u |>);
    field_at "locked" bool_field pr_Locked (λ u p, p <| pr_Locked := u |>);
    field_at "revoked" bool_field pr_Revoked (λ u p, p <| pr_Revoked := u |>);
    field_at "last_renewal_request_sha256" text_field pr_LastRenewalRequestSHA256 (λ u p, p <| pr_LastRenewalRequestSHA256 := u |>);
    field_at "last_renewal_response" text_field pr_LastRenewalResponse (λ u p, p <| pr_LastRenewalResponse := u |>)] }.

Record stateRecord := MkState {
  sd_Schema : text; sd_Profile : text; sd_Generation : Z; sd_ReceiverID : text; sd_RouteID : text; sd_RelayOrigin : text;
  sd_RelayServerSPKI : text; sd_LocalLocked : bool; sd_Attempt : option attemptRecord; sd_Peer : option peerRecord;
  sd_RetiredCodeSHA256 : gslice text }.
#[export] Instance stateRecord_eq_dec : EqDecision stateRecord.
Proof. solve_decision. Defined.
#[export] Instance stateRecord_eta : Eta stateRecord := λ s,
  MkState (sd_Schema s) (sd_Profile s) (sd_Generation s)
    (sd_ReceiverID s) (sd_RouteID s) (sd_RelayOrigin s) (sd_RelayServerSPKI s) (sd_LocalLocked s) (sd_Attempt s) (sd_Peer s)
    (sd_RetiredCodeSHA256 s).
#[export] Instance stateRecord_field : Field stateRecord := {
  to_json s := JObject (member "schema" text_field (sd_Schema s) ++ member "profile" text_field (sd_Profile s)
    ++ member "generation" (uint_field 64) (sd_Generation s) ++ member "receiver_id" text_field (sd_ReceiverID s)
    ++ member "route_id" text_field (sd_RouteID s) ++ member "relay_origin" text_field (sd_RelayOrigin s)
    ++ member "relay_server_spki_sha256" text_field (sd_RelayServerSPKI s)
    ++ member "local_locked" bool_field (sd_LocalLocked s) ++ member_pointer "attempt" attemptRecord_field (sd_Attempt s)
    ++ member_pointer "peer" peerRecord_field (sd_Peer s)
    ++ member "retired_code_sha256" (slice_field text_field) (sd_RetiredCodeSHA256 s) ++ []);
  zero_value := MkState [] [] 0 [] [] [] [] false None None None;
  assign := assign_struct [
    field_at "schema" text_field sd_Schema (λ u s, s <| sd_Schema := u |>);
    field_at "profile" text_field sd_Profile (λ u s, s <| sd_Profile := u |>);
    field_at "generation" (uint_field 64) sd_Generation (λ u s, s <| sd_Generation := u |>);
    field_at "receiver_id" text_field sd_ReceiverID (λ u s, s <| sd_ReceiverID := u |>);
    field_at "route_id" text_field sd_RouteID (λ u s, s <| sd_RouteID := u |>);
    field_at "relay_origin" text_field sd_RelayOrigin (λ u s, s <| sd_RelayOrigin := u |>);
    field_at "relay_server_spki_sha256" text_field sd_RelayServerSPKI (λ u s, s <| sd_RelayServerSPKI := u |>);
    field_at "local_locked" bool_field sd_LocalLocked (λ u s, s <| sd_LocalLocked := u |>);
    field_at "attempt" (pointer_field attemptRecord_field) sd_Attempt (λ u s, s <| sd_Attempt := u |>);
    field_at "peer" (pointer_field peerRecord_field) sd_Peer (λ u s, s <| sd_Peer := u |>);
    field_at "retired_code_sha256" (slice_field text_field) sd_RetiredCodeSHA256 (λ u s, s <| sd_RetiredCodeSHA256 := u |>)] }.


(** ** Laws *)

#[export] Instance bytes_lawful : LawfulField bytes_field (λ _, True).
Proof.
  refine {| field_height := 0 |}.
  - intros [l|] depth _ _; [|done]. cbn. apply plain_valid, plain_StdEncode.
  - by intros [l|] _.
  - intros [l|] _; [|done]. cbn. by rewrite StdDecode_Encode.
Defined.

Definition pointed {A} (wf : A → Prop) (o : option A) : Prop := match o with Some a => wf a | None => True end.
Section Pointer.
Context {R A : Type} (name : string) (F : Field A) (wf : A → Prop) `{!LawfulField F wf} (o : option A).
Lemma assign_pointer (fields : list (setter_of R)) get set i ms r :
  find_name (fst <$> fields) (ascii_bytes name) = Some i → fields !! i = Some (field_at name (pointer_field F) get set) →
  get r = None → pointed wf o → (∀ a, to_json a ≠ JNull) → (o = None → set o r = r) →
  assign_members fields (member_pointer name F o ++ ms) r = assign_members fields ms (set o r).
Proof.
  intros Hi Hf Hg Ha Hn H0. destruct o as [a|]; [|by rewrite H0]. cbn [member_pointer member app assign_members]. unfold find_field.
  rewrite Hi. cbn [mbind option_bind]. rewrite Hf. cbn [fmap option_fmap option_map mbind option_bind field_at snd].
  rewrite Hg. cbn [assign pointer_field default]. pose proof (field_assign (wf := wf) a Ha) as E. pose proof (Hn a) as Hj.
  destruct (to_json a); [done|..]; by cbn [to_json] in *; rewrite E.
Qed.
Lemma pointer_ok depth ms :
  ValidString (ascii_bytes name) → pointed wf o → depth + field_height <= maxNestingDepth → members_ok depth ms →
  members_ok depth (member_pointer name F o ++ ms).
Proof. intros Hn Ha Hd H. destruct o as [a|]; [|done]. by apply (member_ok name F wf). Qed.
Lemma keys_pointer ms names : pointed wf o → members_keys ms names →
  members_keys (member_pointer name F o ++ ms) (ascii_bytes name :: names).
Proof.
  intros Ha H. destruct o as [a|]; [by apply (keys_member name F wf)|]. destruct H. split; [by apply sublist_cons|done].
Qed.
End Pointer.

Ltac lawful_assign ::=
  repeat match goal with
  | |- context [assign_members ?fs (member ?n ?F ?a ++ ?ms) ?r] =>
      let i := eval vm_compute in (default O (find_name (fst <$> fs) (ascii_bytes n))) in
      erewrite (assign_member fs n F _ _ _ i a ms r); [|vm_compute; reflexivity|reflexivity|reflexivity|lawful_wf]; cbv beta; lawful_record
  | |- context [assign_members ?fs (member_omitempty ?n ?a ++ ?ms) ?r] =>
      let i := eval vm_compute in (default O (find_name (fst <$> fs) (ascii_bytes n))) in
      erewrite (assign_omitempty fs n _ _ i a ms r); [|vm_compute; reflexivity|reflexivity|reflexivity|lawful_wf|intros ->; reflexivity]; cbv beta; lawful_record
  | |- context [assign_members ?fs (member_pointer ?n ?F ?o ++ ?ms) ?r] =>
      let i := eval vm_compute in (default O (find_name (fst <$> fs) (ascii_bytes n))) in
      erewrite (assign_pointer n F _ o fs _ _ i ms r);
        [|vm_compute; reflexivity|reflexivity|reflexivity|lawful_wf|by intros []|intros ->; reflexivity]; cbv beta; lawful_record
  end.
Ltac lawful_members ::=
  repeat first
    [ eapply member_ok; [vm_compute; reflexivity|lawful_wf|lawful_height; lia|]
    | eapply omitempty_ok; [vm_compute; reflexivity|lawful_wf|]
    | eapply pointer_ok; [vm_compute; reflexivity|lawful_wf|lawful_height; lia|] ]; try apply Forall_nil_2.
Ltac lawful_keys ::=
  eapply object_keys; [repeat first [eapply keys_member; [typeclasses eauto|lawful_wf|]|eapply keys_omitempty|eapply keys_pointer; [typeclasses eauto|lawful_wf|]]; apply keys_nil|vm_compute; reflexivity].

Definition Trust_wf (t : Trust) : Prop :=
  ValidString (tr_RelayServerSPKI t) ∧ ValidString (tr_OuterEndpointCAPEM t)
  ∧ ValidString (tr_InnerConnectorCAPEM t) ∧ ValidString (tr_InnerClientCAPEM t).
#[export] Instance Trust_lawful : LawfulField Trust_field Trust_wf.
Proof. lawful_struct Trust_field 1. Defined.

Definition signedEnvelope_wf (s : signedEnvelope) : Prop :=
  ValidString (sg_Schema s) ∧ ValidString (sg_Payload s)
  ∧ ValidString (sg_Signature s).
#[export] Instance signedEnvelope_lawful : LawfulField signedEnvelope_field signedEnvelope_wf.
Proof. lawful_struct signedEnvelope_field 1. Defined.

Definition cipherEnvelope_wf (c : cipherEnvelope) : Prop :=
  ValidString (ce_Schema c) ∧ ValidString (ce_Ciphertext c).
#[export] Instance cipherEnvelope_lawful : LawfulField cipherEnvelope_field cipherEnvelope_wf.
Proof. lawful_struct cipherEnvelope_field 1. Defined.

Definition advertisementPayload_wf (a : advertisementPayload) : Prop :=
  ValidString (av_Schema a) ∧ ValidString (av_Profile a)
  ∧ ValidString (av_ReceiverID a) ∧ ValidString (av_RouteID a) ∧ ValidString (av_RelayOrigin a) ∧ ValidString (av_AttemptID a)
  ∧ int64 (av_CreatedUnix a) ∧ int64 (av_ExpiresUnix a) ∧ ValidString (av_ReceiverSigningPublic a)
  ∧ ValidString (av_ReceiverAgeRecipient a) ∧ Trust_wf (av_Trust a).
#[export] Instance advertisementPayload_lawful : LawfulField advertisementPayload_field advertisementPayload_wf.
Proof. lawful_struct advertisementPayload_field 2. Defined.

Definition codePayload_wf (c : codePayload) : Prop :=
  ValidString (cp_Schema c) ∧ ValidString (cp_ReceiverID c)
  ∧ ValidString (cp_AttemptID c) ∧ int64 (cp_ExpiresUnix c) ∧ ValidString (cp_AdvertisementSHA256 c) ∧ ValidString (cp_Secret c).
#[export] Instance codePayload_lawful : LawfulField codePayload_field codePayload_wf.
Proof. lawful_struct codePayload_field 1. Defined.

Definition requestPayload_wf (r : requestPayload) : Prop :=
  ValidString (rq_Schema r) ∧ ValidString (rq_Profile r)
  ∧ ValidString (rq_ReceiverID r) ∧ ValidString (rq_RouteID r) ∧ ValidString (rq_RelayOrigin r) ∧ ValidString (rq_AttemptID r)
  ∧ ValidString (rq_AdvertisementSHA256 r) ∧ ValidString (rq_ClientID r) ∧ ValidString (rq_Nonce r) ∧ int64 (rq_CreatedUnix r)
  ∧ int64 (rq_ExpiresUnix r) ∧ ValidString (rq_PairingPublicKeyPEM r) ∧ ValidString (rq_ResponseRecipient r)
  ∧ ValidString (rq_PublicPayload r) ∧ ValidString (rq_Code r).
#[export] Instance requestPayload_lawful : LawfulField requestPayload_field requestPayload_wf.
Proof. lawful_struct requestPayload_field 1. Defined.

Definition responsePayload_wf (r : responsePayload) : Prop :=
  ValidString (rp_Schema r) ∧ ValidString (rp_Profile r)
  ∧ ValidString (rp_Kind r) ∧ ValidString (rp_ReceiverID r) ∧ ValidString (rp_RouteID r) ∧ ValidString (rp_RelayOrigin r)
  ∧ ValidString (rp_AttemptID r) ∧ ValidString (rp_ClientID r) ∧ ValidString (rp_RequestSHA256 r)
  ∧ ValidString (rp_PairingPublicKeyPEM r) ∧ uint64 (rp_CredentialGeneration r) ∧ int64 (rp_IssuedUnix r)
  ∧ int64 (rp_ExpiresUnix r) ∧ ValidString (rp_Authorization r).
#[export] Instance responsePayload_lawful : LawfulField responsePayload_field responsePayload_wf.
Proof. lawful_struct responsePayload_field 1. Defined.

Definition renewalPayload_wf (r : renewalPayload) : Prop :=
  ValidString (rn_Schema r) ∧ ValidString (rn_Profile r)
  ∧ ValidString (rn_ReceiverID r) ∧ ValidString (rn_RouteID r) ∧ ValidString (rn_RelayOrigin r) ∧ ValidString (rn_ClientID r)
  ∧ ValidString (rn_Nonce r) ∧ uint64 (rn_CredentialGeneration r) ∧ int64 (rn_CreatedUnix r) ∧ int64 (rn_ExpiresUnix r)
  ∧ ValidString (rn_PairingPublicKeyPEM r) ∧ ValidString (rn_ResponseRecipient r) ∧ ValidString (rn_PublicPayload r).
#[export] Instance renewalPayload_lawful : LawfulField renewalPayload_field renewalPayload_wf.
Proof. lawful_struct renewalPayload_field 1. Defined.

Definition encodedClientMaterial_wf (e : encodedClientMaterial) : Prop :=
  ValidString (ecm_Schema e)
  ∧ ValidString (ecm_Profile e) ∧ ValidString (ecm_ReceiverID e) ∧ ValidString (ecm_RouteID e) ∧ ValidString (ecm_RelayOrigin e)
  ∧ ValidString (ecm_AttemptID e) ∧ ValidString (ecm_AdvertisementSHA256 e) ∧ ValidString (ecm_ClientID e)
  ∧ ValidString (ecm_RequestSHA256 e) ∧ ValidString (ecm_Request e) ∧ ValidString (ecm_PairingPrivateKeyPEM e)
  ∧ ValidString (ecm_ResponseAgeIdentity e) ∧ ValidString (ecm_ReceiverPublicKeyPEM e)
  ∧ ValidString (ecm_ReceiverAgeRecipient e).
#[export] Instance encodedClientMaterial_lawful : LawfulField encodedClientMaterial_field encodedClientMaterial_wf.
Proof. lawful_struct encodedClientMaterial_field 1. Defined.

Definition encodedPairing_wf (e : encodedPairing) : Prop :=
  ValidString (epg_Schema e) ∧ ValidString (epg_Profile e)
  ∧ ValidString (epg_ReceiverID e) ∧ ValidString (epg_RouteID e) ∧ ValidString (epg_RelayOrigin e)
  ∧ ValidString (epg_ClientID e) ∧ uint64 (epg_CredentialGeneration e) ∧ ValidString (epg_PairingPrivateKeyPEM e)
  ∧ ValidString (epg_ReceiverPublicKeyPEM e) ∧ ValidString (epg_ReceiverAgeRecipient e).
#[export] Instance encodedPairing_lawful : LawfulField encodedPairing_field encodedPairing_wf.
Proof. lawful_struct encodedPairing_field 1. Defined.

Definition encodedRenewalMaterial_wf (e : encodedRenewalMaterial) : Prop :=
  ValidString (erm_Schema e)
  ∧ ValidString (erm_Profile e) ∧ ValidString (erm_Pairing e) ∧ ValidString (erm_RequestSHA256 e) ∧ ValidString (erm_Request e)
  ∧ ValidString (erm_ResponseAgeIdentity e) ∧ uint64 (erm_NextGeneration e).
#[export] Instance encodedRenewalMaterial_lawful : LawfulField encodedRenewalMaterial_field encodedRenewalMaterial_wf.
Proof. lawful_struct encodedRenewalMaterial_field 1. Defined.

Definition renewalStatusPayload_wf (s : renewalStatusPayload) : Prop :=
  ValidString (sq_Schema s) ∧ ValidString (sq_Profile s)
  ∧ ValidString (sq_ReceiverID s) ∧ ValidString (sq_RouteID s) ∧ ValidString (sq_RelayOrigin s) ∧ ValidString (sq_ClientID s)
  ∧ ValidString (sq_PendingSHA256 s) ∧ uint64 (sq_KnownGeneration s) ∧ ValidString (sq_Nonce s)
  ∧ ValidString (sq_ResponseRecipient s) ∧ int64 (sq_CreatedUnix s) ∧ int64 (sq_ExpiresUnix s).
#[export] Instance renewalStatusPayload_lawful : LawfulField renewalStatusPayload_field renewalStatusPayload_wf.
Proof. lawful_struct renewalStatusPayload_field 1. Defined.

Definition renewalStatusResponse_wf (s : renewalStatusResponse) : Prop :=
  ValidString (sr_Schema s)
  ∧ ValidString (sr_Profile s) ∧ ValidString (sr_ReceiverID s) ∧ ValidString (sr_RouteID s) ∧ ValidString (sr_RelayOrigin s)
  ∧ ValidString (sr_ClientID s) ∧ ValidString (sr_QuerySHA256 s) ∧ ValidString (sr_PendingSHA256 s) ∧ uint64 (sr_Generation s)
  ∧ int64 (sr_IssuedUnix s) ∧ int64 (sr_ExpiresUnix s).
#[export] Instance renewalStatusResponse_lawful : LawfulField renewalStatusResponse_field renewalStatusResponse_wf.
Proof. lawful_struct renewalStatusResponse_field 1. Defined.

Definition attemptRecord_wf (a : attemptRecord) : Prop :=
  ValidString (at_AttemptID a) ∧ int64 (at_ExpiresUnix a)
  ∧ ValidString (at_Advertisement a) ∧ ValidString (at_AdvertisementSHA256 a) ∧ ValidString (at_CodeSHA256 a).
#[export] Instance attemptRecord_lawful : LawfulField attemptRecord_field attemptRecord_wf.
Proof. lawful_struct attemptRecord_field 1. Defined.

Definition peerRecord_wf (p : peerRecord) : Prop :=
  ValidString (pr_ClientID p) ∧ ValidString (pr_PairingPublicKeyPEM p)
  ∧ ValidString (pr_AttemptID p) ∧ ValidString (pr_InitialRequestSHA256 p) ∧ ValidString (pr_InitialResponse p)
  ∧ uint64 (pr_CredentialGeneration p) ∧ ValidString (pr_LastRenewalRequestSHA256 p) ∧ ValidString (pr_LastRenewalResponse p).
#[export] Instance peerRecord_lawful : LawfulField peerRecord_field peerRecord_wf.
Proof. lawful_struct peerRecord_field 1. Defined.

Definition stateRecord_wf (s : stateRecord) : Prop :=
  ValidString (sd_Schema s) ∧ ValidString (sd_Profile s)
  ∧ uint64 (sd_Generation s) ∧ ValidString (sd_ReceiverID s) ∧ ValidString (sd_RouteID s) ∧ ValidString (sd_RelayOrigin s)
  ∧ ValidString (sd_RelayServerSPKI s) ∧ pointed attemptRecord_wf (sd_Attempt s) ∧ pointed peerRecord_wf (sd_Peer s)
  ∧ Forall (λ t, ValidString t) (elems (sd_RetiredCodeSHA256 s)).
#[export] Instance stateRecord_lawful : LawfulField stateRecord_field stateRecord_wf.
Proof. lawful_struct stateRecord_field 2. Defined.

