(* ===== verification/PairingWire.v ===== *)
(** * Receiver pairing: messages

    [internal/receiverpairing/pairing.go], the openers and makers of messages in [exchange.go]:
    canonical JSON, signed and encrypted envelopes, padding, advertisements,
    private codes, requests, renewals and responses. PEM with X.509, [url.Parse], age and the
    validation of authorities are parameters, a [pairing_env]. *)

From S2P Require Import Prelude GoIO Text Runes Sha256 Base64 Protocol Identifiers Signing PairToken EnrollRequest Invitation Identity StrictJson PairingData.
Open Scope Z_scope.

(** ** Constants *)

Definition Profile : text := ascii_bytes "owntransit-receiver-pairing/1".
Definition advertisementSchema : text := ascii_bytes "owntransit.receiver-pairing.advertisement.v1".
Definition advertEnvelopeSchema : text := ascii_bytes "owntransit.receiver-pairing.advertisement-envelope.v1".
Definition codeSchema : text := ascii_bytes "owntransit.receiver-pairing.code.v1".
Definition requestSchema : text := ascii_bytes "owntransit.receiver-pairing.request.v1".
Definition requestEnvelopeSchema : text := ascii_bytes "owntransit.receiver-pairing.request-envelope.v1".
Definition requestCipherSchema : text := ascii_bytes "owntransit.receiver-pairing.request-ciphertext.v1".
Definition responseSchema : text := ascii_bytes "owntransit.receiver-pairing.response.v1".
Definition responseEnvelopeSchema : text := ascii_bytes "owntransit.receiver-pairing.response-envelope.v1".
Definition responseCipherSchema : text := ascii_bytes "owntransit.receiver-pairing.response-ciphertext.v1".
Definition renewalSchema : text := ascii_bytes "owntransit.receiver-pairing.renewal.v1".
Definition renewalEnvelopeSchema : text := ascii_bytes "owntransit.receiver-pairing.renewal-envelope.v1".
Definition renewalCipherSchema : text := ascii_bytes "owntransit.receiver-pairing.renewal-ciphertext.v1".
Definition advertisementDomain : text := ascii_bytes "OwnTransit receiver pairing advertisement v1".
Definition requestDomain : text := ascii_bytes "OwnTransit receiver pairing request v1".
Definition responseDomain : text := ascii_bytes "OwnTransit receiver pairing response v1".
Definition renewalDomain : text := ascii_bytes "OwnTransit receiver pairing renewal v1".
Definition codePrefix : text := ascii_bytes "otpair1.".
Definition secretSize : nat := 32.
Definition MaxAdvertisementSize : Z := 128 * 2 ^ 10.
Definition MaxCodeSize : Z := 4 * 2 ^ 10.
Definition MaxRequestSize : Z := 2 ^ 20.
Definition MaxResponseSize : Z := 2 ^ 20.
Definition MaxAuthorizationSize : Z := 256 * 2 ^ 10.
Definition MaxAttemptValidity : Z := 24 * Hour.
Definition MaxMessageValidity : Z := Hour.
Definition paddedPlaintextSize : Z := 512 * 2 ^ 10.
Definition paddedHeaderSize : Z := 12.
Definition paddedMagic : list byte := ascii_bytes "OTRP".
Definition pair : text := ascii_bytes "pair".
Definition renew : text := ascii_bytes "renew".

Inductive pairing_err :=
| EncodedBound | EncodedSize | StrictDecode | NotCanonical | EnvelopeUnsupported | PSigning (e : signing_err) | NotBase64
| SignatureInvalid | PayloadDecode | PayloadNotCanonical | RecipientInvalid | PlaintextSize | RandomFailed | EncryptFailed
| CipherUnsupported | IdentityInvalid | DecryptFailed | PaddedSize | PaddedHeader | PaddedLength
| BadIdentifier | BadRoute | BadOrigin | BadWindow | NotLive | BadPin | BadTrust | BadAuthorities | BadKey | AdvertisementFields
| CodePayloadInvalid | CodeInvalid | CodeExpired | RequestFields | RequestPayloadInvalid | RenewalFields | RenewalKeyChanged
| NotExpired | ResponseFields | InitialFields | RenewedFields | AuthorizationInvalid | ShortOffer
| MaterialBinding | MaterialKey | MaterialSchema | PairingBinding | PairingKey | RenewalBinding
| RequestOptions | OriginMismatch | CodeNotBound | PayloadBuild | PayloadBound | KeyGeneration | ResponseBinding | RequestNotBound
| RenewalOptions | GenerationExhausted | RenewalNotBound | RenewalResponseBinding | StatusContext | StatusQuery | StatusGeneration | StatusBinding.
#[export] Instance pairing_err_eq_dec : EqDecision pairing_err.
Proof. solve_decision. Defined.

Record pairing_env := {
  pe_ed : ed25519;
  (** [signing.ParsePublic], [signing.ParsePrivate], [signingPublicPEM] and the private PEM of [signing.Generate]. *)
  ParsePublic : list byte → option (list byte);
  ParsePrivate : list byte → option (list byte);
  signingPublicPEM : list byte → list byte;
  signingPrivatePEM : list byte → list byte;
  parse_origin : text → option URL;
  (** The canonical text of a recipient; of an identity, with its recipient. *)
  recipient_text : text → option text;
  identity_text : text → option (text * text);
  (** [age.Encrypt] to a recipient, with the randomness of the call. *)
  encrypt : list byte → text → list byte → option (list byte);
  (** [age.Decrypt] with an identity, and [io.ReadAll] of at most so many bytes. *)
  decrypt : text → list byte → Z → option (list byte);
  (** [enrollment.ValidateBootstrapAuthorities] for a signer, at a time. *)
  authorities_ok : PairingData.Trust → list byte → Z → bool }.

(** ** Canonical encodings *)

(** [strictjson.Decode] into a variable that holds [old]. *)
Definition DecodeInto {A} (F : Field A) (encoded : list byte) (old : A) : option A :=
  if bool_decide (encoded = []) || negb (ValidString encoded) then None
  else v ← parse_json encoded;
       if rejectDuplicateKeys v then None else assign v old.

Definition encodeCanonical {A} (F : Field A) (value : A) (maximum : Z) : result pairing_err (list byte) :=
  let encoded := Marshal F value ++ [newline] in
  reject maximum <? Z.of_nat (length encoded) with EncodedBound;;
  Ok encoded.
Definition bad_size (encoded : list byte) (maximum : Z) : bool :=
  (Z.of_nat (length encoded) =? 0) || (maximum <? Z.of_nat (length encoded)).
Definition decodeCanonical {A} (F : Field A) (encoded : list byte) (maximum : Z) : result pairing_err A :=
  reject bad_size encoded maximum with EncodedSize;;
  match Decode F encoded with
  | None => Err StrictDecode
  | Some value =>
      reject negb (bool_decide (encoded = Marshal F value ++ [newline])) with NotCanonical;;
      Ok value
  end.
Definition decodeBase64 (value : text) : result pairing_err (list byte) :=
  match StdDecode value with
  | None => Err NotBase64
  | Some decoded => reject negb (bool_decide (StdEncode decoded = value)) with NotBase64;; Ok decoded
  end.
Definition digestText (value : list byte) : text := hex_encode (Sum256 value).
Definition validDigest (value : text) : bool :=
  match hex_decode value with
  | Some decoded => (length decoded =? Size)%nat && bool_decide (hex_encode decoded = value)
  | None => false
  end.
Definition constantDigestEqual (first second : text) : bool :=
  (length first =? Size * 2)%nat && (length second =? Size * 2)%nat && bool_decide (first = second).
Definition validateID (value : text) : bool :=
  match ParseID value with Ok id => negb (bool_decide (id = arr_zero IDSize)) | Err _ => false end.
Definition validateRoute (value : text) : bool :=
  match ParseRouteID value with Ok route => negb (bool_decide (route = arr_zero IDSize)) | Err _ => false end.
Definition identityPin (value : text) : result pairing_err () :=
  match ParseSPKIPin value with Ok _ => Ok () | Err _ => Err BadPin end.
Definition signed {A} (r : result signing_err A) : result pairing_err A := match r with Ok a => Ok a | Err e => Err (PSigning e) end.

(** [now.UTC().Truncate(time.Second)] *)
Definition truncated_time (now : Z) : Z := unix_sec now * Second.
Definition Unix (now : Z) : Z := wrap64 (unix_sec now).
Definition before_unix (now sec : Z) : bool := now_before now (unix_time sec).
Definition validateWindow (created expires now maximum : Z) : result pairing_err () :=
  reject (created <=? 0) || (expires <=? created) || (maximum / Second <? expires - created) with BadWindow;;
  reject is_zero now || now_before now (five_minutes_before (unix_time created)) || negb (before_unix now expires) with NotLive;;
  Ok ().

Definition padPlaintext (plaintext : list byte) (rand : reader) : result pairing_err (list byte) * reader :=
  let size := Z.of_nat (length plaintext) in
  if (size =? 0) || (paddedPlaintextSize - paddedHeaderSize <? size) then (Err PlaintextSize, rand)
  else
    match read_full (Z.to_nat (paddedPlaintextSize - paddedHeaderSize - size)) rand with
    | (Err _, rand) => (Err RandomFailed, rand)
    | (Ok filling, rand) =>
        (Ok (paddedMagic ++ [Byte.x01; Byte.x00; Byte.x00; Byte.x00] ++ be_put 4 size ++ plaintext ++ filling), rand)
    end.
Definition unpadPlaintext (padded : list byte) : result pairing_err (list byte) :=
  reject negb (Z.of_nat (length padded) =? paddedPlaintextSize) || negb (bool_decide (take 4 padded = paddedMagic))
      || negb (bool_decide (slice 4 4 padded = [Byte.x01; Byte.x00; Byte.x00; Byte.x00])) with PaddedHeader;;
  let size := be_get (slice 8 4 padded) in
  reject (size <=? 0) || (Z.of_nat (length padded) - paddedHeaderSize <? size) with PaddedLength;;
  Ok (slice 12 (Z.to_nat size) padded).

Definition encodeCode (payload : codePayload) : result pairing_err (list byte) :=
  let encoded := Marshal codePayload_field payload in
  reject MaxCodeSize / 2 <? Z.of_nat (length encoded) with CodePayloadInvalid;;
  Ok (codePrefix ++ RawURLEncode encoded).
(** The checks of [parseCode] on the decoded payload. *)
Definition code_fields (payload : codePayload) : bool :=
  bool_decide (cp_Schema payload = codeSchema) && validateID (cp_ReceiverID payload) && validateID (cp_AttemptID payload)
  && validDigest (cp_AdvertisementSHA256 payload)
  && match RawURLDecode (cp_Secret payload) with
     | Some secret => (length secret =? secretSize)%nat && bool_decide (RawURLEncode secret = cp_Secret payload)
     | None => false
     end.
Definition parseCode (encoded : list byte) : result pairing_err codePayload :=
  reject (Z.of_nat (length encoded) <=? Z.of_nat (length codePrefix)) || (MaxCodeSize <? Z.of_nat (length encoded)) with CodeInvalid;;
  match CutPrefix encoded codePrefix with
  | None => Err CodeInvalid
  | Some body =>
      match RawURLDecode body with
      | None => Err CodeInvalid
      | Some payloadBytes =>
          reject negb (bool_decide (codePrefix ++ RawURLEncode payloadBytes = encoded)) with CodeInvalid;;
          match Decode codePayload_field payloadBytes with
          | None => Err CodeInvalid
          | Some payload =>
              reject negb (bool_decide (Marshal codePayload_field payload = payloadBytes)) || negb (code_fields payload) with CodeInvalid;;
              Ok payload
          end
      end
  end.
Definition ValidateCodeInput (encoded : list byte) (now : Z) : result pairing_err () :=
  p ← parseCode encoded;
  reject cp_ExpiresUnix p <=? Unix now with CodeExpired;;
  Ok ().

Section Env.
Context (x : pairing_env).

(** ** Keys and places *)

(** Letters outside of ASCII never come back from [String], so lowering ASCII decides. *)
Definition validateRelayOrigin (value : text) : bool :=
  match parse_origin x value with
  | None => false
  | Some parsed =>
      bool_decide (value = to_lower <$> value) && bool_decide (Scheme parsed = ascii_bytes "wss")
      && negb (bool_decide (Host parsed = [])) && negb (has_User parsed) && bool_decide (RawQuery parsed = [])
      && bool_decide (Fragment parsed = []) && bool_decide (RawPath parsed = [])
      && bool_decide (Path parsed = ascii_bytes "/connects") && bool_decide (url_String parsed = value)
  end.
Definition validateTrust (trust : PairingData.Trust) : result pairing_err () :=
  _ ← identityPin (tr_RelayServerSPKI trust);
  reject existsb (λ encoded, bool_decide (encoded = []) || (64 * 2 ^ 10 <? Z.of_nat (length encoded)))
    [tr_OuterEndpointCAPEM trust; tr_InnerConnectorCAPEM trust; tr_InnerClientCAPEM trust] with BadTrust;;
  Ok ().
Definition validateGeneratedTrust (trust : PairingData.Trust) (signer : list byte) (now : Z) : result pairing_err () :=
  _ ← validateTrust trust;
  reject negb (authorities_ok x trust signer now) with BadAuthorities;;
  Ok ().
Definition public_key (pem : list byte) : result pairing_err (list byte) :=
  match ParsePublic x pem with Some k => Ok k | None => Err BadKey end.
Definition private_key (pem : list byte) : result pairing_err (list byte) :=
  match ParsePrivate x pem with Some k => Ok k | None => Err BadKey end.
Definition canonical_recipient (t : text) : bool := bool_decide (recipient_text x t = Some t).
Definition canonical_identity (t : text) : bool := bool_decide (fst <$> identity_text x t = Some t).

(** ** Envelopes *)

Definition signPayload {A} (schema domain : text) (F : Field A) (payload : A) (private : list byte) (maximum : Z)
    : result pairing_err (list byte) :=
  let payloadBytes := Marshal F payload in
  signature ← signed (Sign (pe_ed x) domain payloadBytes private);
  encodeCanonical signedEnvelope_field (MkSigned schema (StdEncode payloadBytes) (StdEncode signature)) maximum.

Definition openSigned {A} (F : Field A) (encoded : list byte) (envelopeSchema domain : text) (public : list byte) (maximum : Z)
    (target : A) : result pairing_err A :=
  envelope ← decodeCanonical signedEnvelope_field encoded maximum;
  reject negb (bool_decide (sg_Schema envelope = envelopeSchema)) with EnvelopeUnsupported;;
  payload ← decodeBase64 (sg_Payload envelope);
  match decodeBase64 (sg_Signature envelope) with
  | Err _ => Err SignatureInvalid
  | Ok signature =>
      reject negb (length signature =? SignatureSize)%nat with SignatureInvalid;;
      _ ← signed (Verify (pe_ed x) domain payload signature public);
      match DecodeInto F payload target with
      | None => Err PayloadDecode
      | Some value =>
          reject negb (bool_decide (Marshal F value = payload)) with PayloadNotCanonical;;
          Ok value
      end
  end.

Definition sealAge (schema : text) (plaintext : list byte) (recipientText : text) (maximum : Z) (seed : list byte) (rand : reader)
    : result pairing_err (list byte) :=
  reject negb (canonical_recipient recipientText) with RecipientInvalid;;
  padded ← (padPlaintext plaintext rand).1;
  match encrypt x seed recipientText padded with
  | None => Err EncryptFailed
  | Some ciphertext => encodeCanonical cipherEnvelope_field (MkCipher schema (StdEncode ciphertext)) maximum
  end.
Definition openAge (encoded : list byte) (schema identityText : text) (maximum : Z) : result pairing_err (list byte) :=
  envelope ← decodeCanonical cipherEnvelope_field encoded maximum;
  reject negb (bool_decide (ce_Schema envelope = schema)) with CipherUnsupported;;
  ciphertext ← decodeBase64 (ce_Ciphertext envelope);
  reject negb (canonical_identity identityText) with IdentityInvalid;;
  match decrypt x identityText ciphertext (paddedPlaintextSize + 1) with
  | None => Err DecryptFailed
  | Some padded =>
      reject negb (Z.of_nat (length padded) =? paddedPlaintextSize) with PaddedSize;;
      unpadPlaintext padded
  end.

(** ** Advertisements and codes *)

Definition advertisement_fields (payload : advertisementPayload) (public : list byte) (now : Z) : bool :=
  bool_decide (av_Schema payload = advertisementSchema) && bool_decide (av_Profile payload = Profile)
  && validateID (av_ReceiverID payload) && validateRoute (av_RouteID payload) && validateRelayOrigin (av_RelayOrigin payload)
  && is_ok (validateWindow (av_CreatedUnix payload) (av_ExpiresUnix payload) now MaxAttemptValidity)
  && is_ok (validateGeneratedTrust (av_Trust payload) public now).
Definition parseAdvertisement (encoded : list byte) (now : Z) : result pairing_err (advertisementPayload * list byte) :=
  envelope ← decodeCanonical signedEnvelope_field encoded MaxAdvertisementSize;
  reject negb (bool_decide (sg_Schema envelope = advertEnvelopeSchema)) with EnvelopeUnsupported;;
  payloadBytes ← decodeBase64 (sg_Payload envelope);
  match Decode advertisementPayload_field payloadBytes with
  | None => Err PayloadDecode
  | Some payload =>
      reject negb (bool_decide (Marshal advertisementPayload_field payload = payloadBytes)) with PayloadNotCanonical;;
      public ← public_key (av_ReceiverSigningPublic payload);
      payload ← openSigned advertisementPayload_field encoded advertEnvelopeSchema advertisementDomain public MaxAdvertisementSize payload;
      reject negb (advertisement_fields payload public now) with AdvertisementFields;;
      reject negb (validateID (av_AttemptID payload)) with BadIdentifier;;
      reject negb (canonical_recipient (av_ReceiverAgeRecipient payload)) with RecipientInvalid;;
      Ok (payload, public)
  end.

(** ** Requests, renewals and responses *)

Definition request_fields (request : requestPayload) (now : Z) : bool :=
  bool_decide (rq_Schema request = requestSchema) && bool_decide (rq_Profile request = Profile)
  && validateID (rq_ReceiverID request) && validateRoute (rq_RouteID request) && validateRelayOrigin (rq_RelayOrigin request)
  && validateID (rq_AttemptID request) && validateID (rq_ClientID request) && validateID (rq_Nonce request)
  && validDigest (rq_AdvertisementSHA256 request)
  && is_ok (validateWindow (rq_CreatedUnix request) (rq_ExpiresUnix request) now MaxMessageValidity).
Definition public_payload (value : text) (e : pairing_err) : result pairing_err (list byte) :=
  match decodeBase64 value with
  | Err _ => Err e
  | Ok payload => reject MaxAuthorizationSize <? Z.of_nat (length payload) with e;; Ok payload
  end.
Definition openPairRequest (encoded : list byte) (receiverIdentity : text) (now : Z)
    : result pairing_err (requestPayload * list byte * codePayload * list byte) :=
  plaintext ← openAge encoded requestCipherSchema receiverIdentity MaxRequestSize;
  envelope ← decodeCanonical signedEnvelope_field plaintext MaxRequestSize;
  payloadBytes ← decodeBase64 (sg_Payload envelope);
  match Decode requestPayload_field payloadBytes with
  | None => Err PayloadDecode
  | Some request =>
      public ← public_key (rq_PairingPublicKeyPEM request);
      request ← openSigned requestPayload_field plaintext requestEnvelopeSchema requestDomain public MaxRequestSize request;
      reject negb (request_fields request now) with RequestFields;;
      reject negb (canonical_recipient (rq_ResponseRecipient request)) with RecipientInvalid;;
      code ← parseCode (rq_Code request);
      publicPayload ← public_payload (rq_PublicPayload request) RequestPayloadInvalid;
      Ok (request, public, code, publicPayload)
  end.

Definition renewal_fields (renewal : renewalPayload) (now : Z) : bool :=
  bool_decide (rn_Schema renewal = renewalSchema) && bool_decide (rn_Profile renewal = Profile)
  && validateID (rn_ReceiverID renewal) && validateRoute (rn_RouteID renewal) && validateRelayOrigin (rn_RelayOrigin renewal)
  && validateID (rn_ClientID renewal) && validateID (rn_Nonce renewal) && negb (rn_CredentialGeneration renewal <? 2)
  && is_ok (validateWindow (rn_CreatedUnix renewal) (rn_ExpiresUnix renewal) now MaxMessageValidity).
Definition openRenewalRequest (encoded : list byte) (receiverIdentity : text) (pairingPublic : list byte) (now : Z)
    : result pairing_err (renewalPayload * list byte) :=
  plaintext ← openAge encoded renewalCipherSchema receiverIdentity MaxRequestSize;
  renewal ← openSigned renewalPayload_field plaintext renewalEnvelopeSchema renewalDomain pairingPublic MaxRequestSize zero_value;
  reject negb (renewal_fields renewal now) with RenewalFields;;
  reject negb (bool_decide (rn_PairingPublicKeyPEM renewal = signingPublicPEM x pairingPublic)) with RenewalKeyChanged;;
  reject negb (canonical_recipient (rn_ResponseRecipient renewal)) with RecipientInvalid;;
  publicPayload ← public_payload (rn_PublicPayload renewal) RequestPayloadInvalid;
  Ok (renewal, publicPayload).

Definition makeResponse (payload : responsePayload) (recipient : text) (private seed : list byte) (rand : reader)
    : result pairing_err (list byte) :=
  signed ← signPayload responseEnvelopeSchema responseDomain responsePayload_field payload private MaxResponseSize;
  sealAge responseCipherSchema signed recipient MaxResponseSize seed rand.

Definition response_fields (response : responsePayload) (now : Z) : bool :=
  bool_decide (rp_Schema response = responseSchema) && bool_decide (rp_Profile response = Profile)
  && (bool_decide (rp_Kind response = pair) || bool_decide (rp_Kind response = renew))
  && validateID (rp_ReceiverID response) && validateRoute (rp_RouteID response) && validateRelayOrigin (rp_RelayOrigin response)
  && validateID (rp_ClientID response) && validDigest (rp_RequestSHA256 response) && negb (rp_CredentialGeneration response =? 0)
  && is_ok (validateWindow (rp_IssuedUnix response) (rp_ExpiresUnix response) now MaxMessageValidity).
(** [time.Unix(sec, 0)] as an instant. *)
Definition instant_of (sec : Z) : Z := (unix_time sec - unixToInternal) * Second.
Definition openPairResponseMode (encoded : list byte) (responseIdentity : text) (receiverPublic : list byte) (now : Z)
    (expiredReceipt : bool) : result pairing_err (responsePayload * list byte) :=
  plaintext ← openAge encoded responseCipherSchema responseIdentity MaxResponseSize;
  response ← openSigned responsePayload_field plaintext responseEnvelopeSchema responseDomain receiverPublic MaxResponseSize zero_value;
  reject expiredReceipt && (is_zero now || before_unix now (rp_ExpiresUnix response)) with NotExpired;;
  let validationTime := if expiredReceipt then instant_of (rp_IssuedUnix response) else now in
  reject negb (response_fields response validationTime) with ResponseFields;;
  _ ← (if bool_decide (rp_Kind response = pair)
       then reject negb (validateID (rp_AttemptID response)) || negb (rp_CredentialGeneration response =? 1) with InitialFields;; Ok ()
       else reject negb (bool_decide (rp_AttemptID response = [])) || (rp_CredentialGeneration response <? 2) with RenewedFields;; Ok ());
  _ ← public_key (rp_PairingPublicKeyPEM response);
  match decodeBase64 (rp_Authorization response) with
  | Err _ => Err AuthorizationInvalid
  | Ok authorization =>
      reject bad_size authorization MaxAuthorizationSize with AuthorizationInvalid;;
      Ok (response, authorization)
  end.
Definition openPairResponse (encoded : list byte) (responseIdentity : text) (receiverPublic : list byte) (now : Z)
    : result pairing_err (responsePayload * list byte) :=
  openPairResponseMode encoded responseIdentity receiverPublic now false.
End Env.
