(* ===== verification/PairingWireSafety.v ===== *)
(** * Properties of the pairing messages

    What is encoded, signed, padded or encrypted is read back, and what is read was encoded,
    signed or encrypted: the round trips and the inversions that the proofs on pairing share. *)

From S2P Require Import Prelude GoIO Text Runes Sha256 Base64 Protocol Identifiers Signing PairToken EnrollRequest Invitation Identity StrictJson StrictJsonSafety JsonText PairingData PairingWire.
Open Scope Z_scope.

(** The documented laws of the parameters: keys are read from the PEM of the same package, whose
    text is ASCII, as are the texts of age and those of URLs with a path (so not an opaque part)
    and without a query, of which all that remains is escaped; an identity decrypts what was
    encrypted to its recipient. *)
Record pairing_law (x : pairing_env) : Prop := {
  pl_ed : ed25519_law (pe_ed x);
  pl_public k : length k = PublicKeySize → ParsePublic x (signingPublicPEM x k) = Some k;
  pl_public_size pem k : ParsePublic x pem = Some k → length k = PublicKeySize;
  pl_public_text k : ValidString (signingPublicPEM x k);
  pl_url t u : parse_origin x t = Some u → Path u ≠ [] → RawQuery u = [] → ValidString (url_String u);
  pl_recipient t r : recipient_text x t = Some r → ValidString r;
  pl_identity t i r : identity_text x t = Some (i, r) → ValidString i ∧ recipient_text x r = Some r;
  pl_private k : generated (pe_ed x) k → ParsePrivate x (signingPrivatePEM x k) = Some k;
  pl_age identity recipient seed padded ciphertext n :
    identity_text x identity = Some (identity, recipient) → encrypt x seed recipient padded = Some ciphertext →
    decrypt x identity ciphertext n = Some (take (Z.to_nat n) padded) }.

(** ** JSON and base64 *)

Lemma DecodeInto_zero {A} (F : Field A) b : DecodeInto F b zero_value = Decode F b.
Proof. done. Qed.
Lemma DecodeInto_inv {A} (F : Field A) b old a : DecodeInto F b old = Some a → b ≠ [].
Proof. unfold DecodeInto. destruct (decide (b = [])) as [->|]; [by rewrite bool_decide_eq_true_2|done]. Qed.

Section Canonical.
Context {A : Type} (F : Field A) (wf : A → Prop) `{!LawfulField F wf}.
Lemma encodeCanonical_inv a b n : encodeCanonical F a n = Ok b → b = Marshal F a ++ [newline] ∧ Z.of_nat (length b) <= n.
Proof. unfold encodeCanonical. intros H. ok_inv H. apply Ok_inj in H as <-. by bool_prop. Qed.
Lemma line_size a n : Z.of_nat (length (Marshal F a ++ [newline])) <= n → bad_size (Marshal F a ++ [newline]) n = false.
Proof.
  intros H. unfold bad_size. rewrite (proj2 (Z.ltb_ge _ _)), orb_false_r by done. apply Z.eqb_neq. rewrite length_app. cbn [length]. lia.
Qed.
Lemma decode_encode_canonical a b n : wf a → field_height <= maxNestingDepth → encodeCanonical F a n = Ok b → decodeCanonical F b n = Ok a.
Proof.
  intros Ha Hh [-> Hn]%encodeCanonical_inv. unfold decodeCanonical. rewrite line_size by done. rewrite (Decode_line F wf) by done.
  by rewrite bool_decide_eq_true_2.
Qed.
Lemma decodeCanonical_inv a b n : decodeCanonical F b n = Ok a → encodeCanonical F a n = Ok b.
Proof.
  unfold decodeCanonical. intros H. ok_inv H. destruct (Decode F b) as [a'|]; [|done]. ok_inv H. apply Ok_inj in H as <-.
  unfold bad_size in *. bool_prop. unfold encodeCanonical. subst b. by rewrite (proj2 (Z.ltb_ge _ _)).
Qed.
End Canonical.

Lemma decodeBase64_encode b : decodeBase64 (StdEncode b) = Ok b.
Proof. unfold decodeBase64. by rewrite StdDecode_Encode, bool_decide_eq_true_2. Qed.
Lemma decodeBase64_inv t b : decodeBase64 t = Ok b → t = StdEncode b.
Proof.
  unfold decodeBase64. destruct (StdDecode t) as [b'|]; [|done]. intros H. ok_inv H. apply Ok_inj in H as <-. by bool_prop.
Qed.

(** ** Digests and identifiers *)

Lemma plain_digestText b : plain (digestText b).
Proof. apply plain_hex. Qed.
Lemma validDigest_digestText b : validDigest (digestText b) = true.
Proof.
  unfold validDigest, digestText. rewrite hex_decode_encode, length_Sum256, Nat.eqb_refl. by rewrite bool_decide_eq_true_2.
Qed.
Lemma plain_validDigest t : validDigest t = true → plain t.
Proof. unfold validDigest. destruct (hex_decode t) as [d|]; [|done]. intros H. bool_prop. subst t. apply plain_hex. Qed.
Lemma length_digestText b : length (digestText b) = (Size * 2)%nat.
Proof. unfold digestText. rewrite length_hex_encode, length_Sum256. lia. Qed.
Lemma constantDigestEqual_eq s t : constantDigestEqual s t = true → s = t.
Proof. unfold constantDigestEqual. intros H. by bool_prop. Qed.
Lemma constantDigestEqual_refl b : constantDigestEqual (digestText b) (digestText b) = true.
Proof. unfold constantDigestEqual. rewrite length_digestText, Nat.eqb_refl. by rewrite bool_decide_eq_true_2. Qed.
Lemma constantDigestEqual_same t : validDigest t = true → constantDigestEqual t t = true.
Proof.
  unfold validDigest, constantDigestEqual. destruct (hex_decode t) as [d|] eqn:E; [|done]. intros H. bool_prop.
  match goal with H : (_ =? _)%nat = true |- _ => apply Nat.eqb_eq in H; rename H into Hd end. subst t.
  rewrite length_hex_encode, Hd, (Nat.mul_comm 2), Nat.eqb_refl. by rewrite bool_decide_eq_true_2.
Qed.
Lemma validateID_inv t : validateID t = true → ∃ id : ID, id ≠ arr_zero IDSize ∧ t = ID_String id.
Proof.
  unfold validateID. destruct (ParseID t) as [id|] eqn:E; [|done]. intros H. bool_prop. exists id. split; [done|]. by apply parseID_spec.
Qed.
Lemma plain_validateID t : validateID t = true → plain t.
Proof. intros (id & _ & ->)%validateID_inv. apply plain_formatID. Qed.

Section Env.
Context (x : pairing_env).

(** ** Signed envelopes *)

(** A signature by the key of [public] on these bytes in a domain. *)
Definition signed_by (public : list byte) (domain : text) (payload : list byte) : Prop :=
  ∃ signature, Verify (pe_ed x) domain payload signature public = Ok ().

Section Payload.
Context {A : Type} (F : Field A) (wf : A → Prop) `{!LawfulField F wf}.
Lemma openSigned_inv encoded schema domain public n old a :
  openSigned x F encoded schema domain public n old = Ok a → signed_by public domain (Marshal F a).
Proof.
  unfold openSigned. intros H. ok_inv H. destruct (decodeBase64 (sg_Signature a0)) as [s|]; [|done]. ok_inv H.
  destruct (DecodeInto F a1 old) as [v|]; [|done]. ok_inv H. apply Ok_inj in H as <-. bool_prop. exists s.
  match goal with H : Marshal F v = a1 |- _ => rewrite H end.
  match goal with H : signed _ = Ok _ |- _ => unfold signed in H; destruct (Verify _ _ _ _ _) as [[]|]; [done|discriminate H] end.
Qed.
Lemma signPayload_inv schema domain a private n b :
  signPayload x schema domain F a private n = Ok b →
  ∃ signature, Sign (pe_ed x) domain (Marshal F a) private = Ok signature
    ∧ encodeCanonical signedEnvelope_field (MkSigned schema (StdEncode (Marshal F a)) (StdEncode signature)) n = Ok b.
Proof.
  unfold signPayload. intros H. ok_inv H. exists a0. split; [|done]. unfold signed in E. by destruct (Sign _ _ _ _); [injection E as ->|].
Qed.
Lemma envelope_wf schema payload signature : plain schema → signedEnvelope_wf (MkSigned schema (StdEncode payload) (StdEncode signature)).
Proof. intros H. split_and!; apply plain_valid; [done|apply plain_StdEncode..]. Qed.
Lemma open_signed schema domain a private n m b :
  ed25519_law (pe_ed x) → generated (pe_ed x) private → plain schema → n <= m → signPayload x schema domain F a private n = Ok b →
  ∃ signature, decodeCanonical signedEnvelope_field b m = Ok (MkSigned schema (StdEncode (Marshal F a)) (StdEncode signature))
    ∧ ∀ old, DecodeInto F (Marshal F a) old = Some a → openSigned x F b schema domain (ed_public (pe_ed x) private) m old = Ok a.
Proof.
  intros Hlaw Hgen Hs Hnm (sig & Hsig & He)%signPayload_inv. exists sig.
  set (e := MkSigned schema (StdEncode (Marshal F a)) (StdEncode sig)) in *.
  assert (decodeCanonical signedEnvelope_field b m = Ok e) as Hd.
  { apply (decode_encode_canonical signedEnvelope_field signedEnvelope_wf); [by apply envelope_wf|by vm_compute|].
    apply encodeCanonical_inv in He as [-> Hn]. unfold encodeCanonical. by rewrite (proj2 (Z.ltb_ge _ _)) by lia. }
  split; [exact Hd|]. intros old Hold. pose proof (Verify_Sign _ _ _ _ _ Hlaw Hgen Hsig) as Hv. pose proof (Sign_size _ _ _ _ _ Hlaw Hsig) as Hl.
  unfold openSigned. rewrite Hd. cbn [mbind result_bind sg_Schema sg_Payload sg_Signature e]. rewrite bool_decide_eq_true_2 by done. cbn [negb].
  rewrite !decodeBase64_encode. cbn [mbind result_bind]. rewrite Hl, Nat.eqb_refl. cbn [negb]. rewrite Hv. cbn [signed mbind result_bind].
  by rewrite Hold, bool_decide_eq_true_2.
Qed.
End Payload.

(** ** Encryption *)

Lemma be4_size z : 0 <= z < 2 ^ 32 → be_get (be_put 4 z) = z.
Proof. intros H. rewrite be_get_put. by apply Z.mod_small. Qed.
Lemma pad_inv plaintext rand padded rest :
  padPlaintext plaintext rand = (Ok padded, rest) →
  0 < Z.of_nat (length plaintext) <= paddedPlaintextSize - paddedHeaderSize
  ∧ ∃ filling, padded = paddedMagic ++ [Byte.x01; Byte.x00; Byte.x00; Byte.x00] ++ be_put 4 (Z.of_nat (length plaintext)) ++ plaintext ++ filling
      ∧ Z.of_nat (length padded) = paddedPlaintextSize.
Proof.
  unfold padPlaintext. case_guard G; [done|]. apply orb_false_iff in G as [G1%Z.eqb_neq G2%Z.ltb_ge].
  destruct (read_full _ rand) as [[filling|] r] eqn:E; [|done]. intros H. pose proof (f_equal fst H) as Hp. cbn [fst] in Hp. apply Ok_inj in Hp as <-.
  apply read_full_ok in E as [Hl _]. split; [lia|]. exists filling. split; [done|].
  rewrite !length_app, length_be_put, Hl. change (length paddedMagic) with 4%nat. cbn [length].
  clear -G1 G2. unfold paddedPlaintextSize, paddedHeaderSize in *. lia.
Qed.
Lemma unpad_padded plaintext rand padded rest : padPlaintext plaintext rand = (Ok padded, rest) → unpadPlaintext padded = Ok plaintext.
Proof.
  intros (Hn & filling & Hp & Hl)%pad_inv. unfold unpadPlaintext. rewrite Hl, Z.eqb_refl.
  assert (take 4 padded = paddedMagic) as -> by (rewrite Hp; reflexivity).
  assert (slice 4 4 padded = [Byte.x01; Byte.x00; Byte.x00; Byte.x00]) as -> by (rewrite Hp; reflexivity).
  rewrite !bool_decide_eq_true_2 by done. cbn [negb orb].
  assert (slice 8 4 padded = be_put 4 (Z.of_nat (length plaintext))) as ->.
  { rewrite Hp, app_assoc. apply slice_at; [reflexivity|by rewrite length_be_put]. }
  rewrite be4_size by (clear -Hn; unfold paddedPlaintextSize, paddedHeaderSize in Hn; lia).
  rewrite (proj2 (Z.leb_gt _ _)) by lia. rewrite (proj2 (Z.ltb_ge _ _)) by lia. cbn [orb]. f_equal.
  rewrite Nat2Z.id, Hp. rewrite 2!app_assoc. apply slice_at; [|done]. by rewrite !length_app, length_be_put.
Qed.

Lemma sealAge_inv schema plaintext recipient n seed rand b :
  sealAge x schema plaintext recipient n seed rand = Ok b →
  canonical_recipient x recipient = true
  ∧ ∃ padded rest ciphertext, padPlaintext plaintext rand = (Ok padded, rest) ∧ encrypt x seed recipient padded = Some ciphertext
    ∧ encodeCanonical cipherEnvelope_field (MkCipher schema (StdEncode ciphertext)) n = Ok b.
Proof.
  unfold sealAge. intros H. ok_inv H. bool_prop. split; [done|]. destruct (padPlaintext plaintext rand) as [[p|] rest] eqn:Ep; [|done].
  cbn [fst] in E. apply Ok_inj in E as ->. destruct (encrypt x seed recipient a) as [c|] eqn:Ec; [|done]. by exists a, rest, c.
Qed.
Lemma open_padded schema plaintext identity recipient n m seed rand b :
  pairing_law x → plain schema → n <= m → identity_text x identity = Some (identity, recipient) →
  sealAge x schema plaintext recipient n seed rand = Ok b → openAge x b schema identity m = Ok plaintext.
Proof.
  intros Hlaw Hs Hnm Hid (_ & padded & rest & c & Hp & Hc & He)%sealAge_inv. unfold openAge.
  assert (decodeCanonical cipherEnvelope_field b m = Ok (MkCipher schema (StdEncode c))) as ->.
  { apply (decode_encode_canonical cipherEnvelope_field cipherEnvelope_wf); [|by vm_compute|].
    - split; apply plain_valid; [done|apply plain_StdEncode].
    - apply encodeCanonical_inv in He as [-> Hn]. unfold encodeCanonical. by rewrite (proj2 (Z.ltb_ge _ _)) by lia. }
  cbn [mbind result_bind ce_Schema ce_Ciphertext]. rewrite bool_decide_eq_true_2 by done. cbn [negb]. rewrite decodeBase64_encode.
  cbn [mbind result_bind]. unfold canonical_identity. rewrite Hid. rewrite bool_decide_eq_true_2 by done. cbn [negb].
  rewrite (pl_age _ Hlaw _ _ _ _ _ _ Hid Hc). pose proof (pad_inv _ _ _ _ Hp) as (_ & _ & _ & Hl).
  rewrite take_ge by (apply Nat2Z.inj_le; rewrite Hl; by vm_compute). rewrite Hl, Z.eqb_refl. cbn [negb]. by apply (unpad_padded _ rand _ rest).
Qed.
End Env.
