(* ===== verification/PairingClient.v ===== *)
(** * Receiver pairing: the client

    The client's half of [exchange.go], its private records in [private.go], the client of
    [renewal_status.go], and [short_code.go]. What the operating system draws for a call, its
    random bytes, a key pair, an age identity, is an argument of type [draws]. *)

From S2P Require Import Prelude GoIO Text Runes Sha256 Base64 Protocol Identifiers Signing PairToken EnrollRequest Invitation Identity StrictJson PairingData PairOffer PairingWire.
Open Scope Z_scope.

(** ** Data *)

Record Attempt := { ap_Advertisement : list byte; ap_Code : list byte; ap_ReceiverID : text; ap_AttemptID : text; ap_Expires : Z }.
Record AdvertisementInfo := {
  ai_ReceiverID : text; ai_RouteID : text; ai_RelayOrigin : text; ai_AttemptID : text; ai_Trust : PairingData.Trust;
  ReceiverSigningPublicKeyPEM : list byte; ReceiverAgeRecipient : text; ai_Expires : Z }.
Record CreateRequestOptions := {
  co_Advertisement : list byte; co_Code : list byte; co_RelayOrigin : text; co_Now : Z; co_Validity : Z }.
Record ClientIdentity := {
  ci_ReceiverID : text; ci_RouteID : text; ci_RelayOrigin : text; ci_ClientID : text; ci_CredentialGeneration : Z }.
(** [PayloadBuilder], which may be nil; [None] of a call is an error. *)
Definition PayloadBuilder : Type := option (ClientIdentity → option (list byte)).
Record ClientMaterial := MkMaterial {
  cm_receiverID : text; cm_routeID : text; cm_relayOrigin : text; cm_attemptID : text; cm_advertisementSHA : text; cm_clientID : text;
  cm_requestSHA : text; cm_pairingPrivate : list byte; cm_responseIdentity : text; cm_receiverPublic : list byte;
  cm_receiverRecipient : text; cm_request : list byte }.
Record ClientRequest := { cr_Encrypted : list byte; cr_Material : ClientMaterial }.
Record Pairing := MkPairing {
  pg_receiverID : text; pg_routeID : text; pg_relayOrigin : text; pg_clientID : text; pg_generation : Z;
  pg_pairingPrivate : list byte; pg_receiverPublic : list byte; pg_receiverRecipient : text }.
#[export] Instance Pairing_eta : Eta Pairing := λ p,
  MkPairing (pg_receiverID p) (pg_routeID p) (pg_relayOrigin p) (pg_clientID p) (pg_generation p) (pg_pairingPrivate p)
    (pg_receiverPublic p) (pg_receiverRecipient p).
Record OpenResponseResult := { or_Pairing : Pairing; or_Authorization : list byte }.
Record RenewalMaterial := {
  rm_pairing : Pairing; rm_requestSHA : text; rm_responseIdentity : text; rm_nextGeneration : Z; rm_request : list byte }.
Record RenewalRequest := { rr_Encrypted : list byte; rr_Material : RenewalMaterial }.
Record RenewalStatusRequest := {
  rs_Encrypted : list byte; rs_material : RenewalMaterial; rs_responseIdentity : text; rs_requestSHA : text; rs_createdUnix : Z; rs_expiresUnix : Z }.

(** [rand.Reader], the key of [signing.Generate], the identity of [age.GenerateX25519Identity] with
    its recipient, and the randomness of [age.Encrypt]. *)
Record draws := {
  dr_rand : reader; dr_key : option (list byte); dr_identity : option (text * text); dr_seed : list byte }.

Definition clientMaterialSchema : text := ascii_bytes "owntransit.receiver-pairing.client-material.v1".
Definition pairingPrivateSchema : text := ascii_bytes "owntransit.receiver-pairing.client-identity.v1".
Definition renewalMaterialSchema : text := ascii_bytes "owntransit.receiver-pairing.renewal-material.v1".
Definition maxPrivateStateSize : Z := 2 * 2 ^ 20.
Definition statusProfile : text := ascii_bytes "owntransit-renewal-status/1".
Definition statusRequestSchema : text := ascii_bytes "owntransit.renewal-status.request.v1".
Definition statusRequestEnvelope : text := ascii_bytes "owntransit.renewal-status.request-envelope.v1".
Definition statusRequestCipher : text := ascii_bytes "owntransit.renewal-status.request-ciphertext.v1".
Definition statusResponseSchema : text := ascii_bytes "owntransit.renewal-status.response.v1".
Definition statusResponseEnvelope : text := ascii_bytes "owntransit.renewal-status.response-envelope.v1".
Definition statusResponseCipher : text := ascii_bytes "owntransit.renewal-status.response-ciphertext.v1".
Definition statusRequestDomain : text := ascii_bytes "OwnTransit renewal status request v1".
Definition statusResponseDomain : text := ascii_bytes "OwnTransit renewal status response v1".
Definition statusValidity : Z := Minute.
Definition maxGeneration : Z := 2 ^ 64 - 1.

(** [randomID]: an identifier of fresh random bytes. *)
Definition random_id (rand : reader) : result pairing_err text * reader :=
  match randomID rand with
  | (Err _, rand) => (Err RandomFailed, rand)
  | (Ok id, rand) => (Ok (ID_String id), rand)
  end.
Definition drawn {A} (o : option A) : result pairing_err A := match o with Some a => Ok a | None => Err KeyGeneration end.
Definition build_payload (build : PayloadBuilder) (identity : ClientIdentity) : result pairing_err (list byte) :=
  match build with
  | None => Ok []
  | Some build =>
      match build identity with
      | None => Err PayloadBuild
      | Some payload => Ok payload
      end
  end.

Section Env.
Context (x : pairing_env).

(** ** Advertisements and short codes *)

Definition VerifyAdvertisement (encoded : list byte) (now : Z) : result pairing_err AdvertisementInfo :=
  '(payload, _) ← parseAdvertisement x encoded (truncated_time now);
  Ok {| ai_ReceiverID := av_ReceiverID payload; ai_RouteID := av_RouteID payload; ai_RelayOrigin := av_RelayOrigin payload;
        ai_AttemptID := av_AttemptID payload; ai_Trust := av_Trust payload;
        ReceiverSigningPublicKeyPEM := av_ReceiverSigningPublic payload; ReceiverAgeRecipient := av_ReceiverAgeRecipient payload;
        ai_Expires := instant_of (av_ExpiresUnix payload) |}.

(** A code for this advertisement, still live. *)
Definition code_binds (code : codePayload) (ad : advertisementPayload) (advertisement : list byte) (now : Z) : bool :=
  bool_decide (cp_ReceiverID code = av_ReceiverID ad) && bool_decide (cp_AttemptID code = av_AttemptID ad)
  && (cp_ExpiresUnix code =? av_ExpiresUnix ad) && constantDigestEqual (cp_AdvertisementSHA256 code) (digestText advertisement)
  && before_unix now (cp_ExpiresUnix code).
(** The legacy code of a secret. *)
Definition code_of (ad : advertisementPayload) (advertisement secret : list byte) : codePayload := {|
  cp_Schema := codeSchema; cp_ReceiverID := av_ReceiverID ad; cp_AttemptID := av_AttemptID ad; cp_ExpiresUnix := av_ExpiresUnix ad;
  cp_AdvertisementSHA256 := digestText advertisement; cp_Secret := RawURLEncode secret |}.
(** [errShortOffer] *)
Definition short {E A} (r : result E A) : result pairing_err A := match r with Ok a => Ok a | Err _ => Err ShortOffer end.

Definition CreateShortOffer (attempt : Attempt) (now : Z) : result pairing_err (list byte * list byte) :=
  let now := truncated_time now in
  '(ad, _) ← short (parseAdvertisement x (ap_Advertisement attempt) now);
  code ← short (parseCode (ap_Code attempt));
  reject negb (code_binds code ad (ap_Advertisement attempt) now) || negb (bool_decide (ap_ReceiverID attempt = av_ReceiverID ad))
      || negb (bool_decide (ap_AttemptID attempt = av_AttemptID ad))
      || negb (ap_Expires attempt =? instant_of (av_ExpiresUnix ad)) with ShortOffer;;
  match RawURLDecode (cp_Secret code) with
  | None => Err ShortOffer
  | Some decoded =>
      reject negb (length decoded =? secretSize)%nat with ShortOffer;;
      short (PairOffer.New (arr_copy Size decoded) (ap_Advertisement attempt))
  end.
Definition RecoverLegacyCode (shortCode offer : list byte) (origin : text) (now : Z) : result pairing_err (list byte) :=
  encoded ← short (PairOffer.Verify shortCode offer);
  let now := truncated_time now in
  '(ad, _) ← short (parseAdvertisement x encoded now);
  reject negb (validateRelayOrigin x origin) || negb (bool_decide (av_RelayOrigin ad = origin)) with ShortOffer;;
  secret ← short (PairOffer.Secret shortCode);
  short (encodeCode (code_of ad encoded (arr_bytes secret))).

(** ** Validation of private material *)

Definition validateClientMaterial (m : ClientMaterial) : result pairing_err () :=
  reject negb (validateID (cm_receiverID m)) || negb (validateRoute (cm_routeID m)) || negb (validateRelayOrigin x (cm_relayOrigin m))
      || negb (validateID (cm_attemptID m)) || negb (validateID (cm_clientID m)) || negb (validDigest (cm_advertisementSHA m))
      || negb (validDigest (cm_requestSHA m)) || negb (bool_decide (digestText (cm_request m) = cm_requestSHA m)) with MaterialBinding;;
  match ParsePrivate x (cm_pairingPrivate m) with
  | None => Err MaterialKey
  | Some private =>
      reject negb (is_ok (public_key x (cm_receiverPublic m))) with BadKey;;
      reject negb (canonical_identity x (cm_responseIdentity m)) with IdentityInvalid;;
      reject negb (canonical_recipient x (cm_receiverRecipient m)) || negb (length private =? PrivateKeySize)%nat with RecipientInvalid;;
      Ok ()
  end.
Definition validatePairing (p : Pairing) : result pairing_err () :=
  reject negb (validateID (pg_receiverID p)) || negb (validateRoute (pg_routeID p)) || negb (validateRelayOrigin x (pg_relayOrigin p))
      || negb (validateID (pg_clientID p)) || (pg_generation p =? 0) with PairingBinding;;
  match ParsePrivate x (pg_pairingPrivate p) with
  | None => Err PairingKey
  | Some private =>
      reject negb (length private =? PrivateKeySize)%nat with PairingKey;;
      reject negb (is_ok (public_key x (pg_receiverPublic p))) with BadKey;;
      reject negb (canonical_recipient x (pg_receiverRecipient p)) with RecipientInvalid;;
      Ok ()
  end.
Definition validateRenewalMaterial (m : RenewalMaterial) : result pairing_err () :=
  reject negb (is_ok (validatePairing (rm_pairing m))) || negb (validDigest (rm_requestSHA m))
      || negb (rm_nextGeneration m =? wrapu64 (pg_generation (rm_pairing m) + 1))
      || negb (bool_decide (digestText (rm_request m) = rm_requestSHA m)) with RenewalBinding;;
  reject negb (canonical_identity x (rm_responseIdentity m)) with IdentityInvalid;;
  Ok ().

(** ** The first exchange *)

Definition CreateRequestWithPayload (options : CreateRequestOptions) (build : PayloadBuilder) (d : draws)
    : result pairing_err ClientRequest :=
  let now := truncated_time (co_Now options) in
  reject is_zero now || (co_Validity options <=? 0) || (MaxMessageValidity <? co_Validity options)
      || negb (validateRelayOrigin x (co_RelayOrigin options)) with RequestOptions;;
  '(ad, receiverPublic) ← parseAdvertisement x (co_Advertisement options) now;
  reject negb (bool_decide (av_RelayOrigin ad = co_RelayOrigin options)) with OriginMismatch;;
  code ← parseCode (co_Code options);
  reject negb (code_binds code ad (co_Advertisement options) now) with CodeNotBound;;
  let '(clientID, rand) := random_id (dr_rand d) in
  clientID ← clientID;
  let '(nonce, rand) := random_id rand in
  nonce ← nonce;
  pairingKey ← drawn (dr_key d);
  '(responseIdentity, responseRecipient) ← drawn (dr_identity d);
  let expires := now + co_Validity options in
  let expiresUnix := if av_ExpiresUnix ad <? Unix expires then av_ExpiresUnix ad else Unix expires in
  publicPayload ← build_payload build {| ci_ReceiverID := av_ReceiverID ad; ci_RouteID := av_RouteID ad;
    ci_RelayOrigin := av_RelayOrigin ad; ci_ClientID := clientID; ci_CredentialGeneration := 1 |};
  reject MaxAuthorizationSize <? Z.of_nat (length publicPayload) with PayloadBound;;
  let payload := {|
    rq_Schema := requestSchema; rq_Profile := Profile; rq_ReceiverID := av_ReceiverID ad; rq_RouteID := av_RouteID ad;
    rq_RelayOrigin := av_RelayOrigin ad; rq_AttemptID := av_AttemptID ad;
    rq_AdvertisementSHA256 := digestText (co_Advertisement options); rq_ClientID := clientID; rq_Nonce := nonce;
    rq_CreatedUnix := Unix now; rq_ExpiresUnix := expiresUnix;
    rq_PairingPublicKeyPEM := signingPublicPEM x (ed_public (pe_ed x) pairingKey);
    rq_ResponseRecipient := responseRecipient; rq_PublicPayload := StdEncode publicPayload; rq_Code := co_Code options |} in
  signed ← signPayload x requestEnvelopeSchema requestDomain requestPayload_field payload pairingKey MaxRequestSize;
  encrypted ← sealAge x requestCipherSchema signed (av_ReceiverAgeRecipient ad) MaxRequestSize (dr_seed d) rand;
  let material := {|
    cm_receiverID := av_ReceiverID ad; cm_routeID := av_RouteID ad; cm_relayOrigin := av_RelayOrigin ad; cm_attemptID := av_AttemptID ad;
    cm_advertisementSHA := digestText (co_Advertisement options); cm_clientID := clientID; cm_requestSHA := digestText encrypted;
    cm_pairingPrivate := signingPrivatePEM x pairingKey; cm_responseIdentity := responseIdentity;
    cm_receiverPublic := av_ReceiverSigningPublic ad; cm_receiverRecipient := av_ReceiverAgeRecipient ad; cm_request := encrypted |} in
  _ ← validateClientMaterial material;
  Ok {| cr_Encrypted := encrypted; cr_Material := material |}.
Definition CreateRequest (options : CreateRequestOptions) (d : draws) : result pairing_err ClientRequest :=
  CreateRequestWithPayload options None d.

(** What a first response must repeat. *)
Definition response_binds (payload : responsePayload) (m : ClientMaterial) (publicPEM : text) : bool :=
  bool_decide (rp_Kind payload = pair) && bool_decide (rp_ReceiverID payload = cm_receiverID m)
  && bool_decide (rp_RouteID payload = cm_routeID m) && bool_decide (rp_RelayOrigin payload = cm_relayOrigin m)
  && bool_decide (rp_AttemptID payload = cm_attemptID m) && bool_decide (rp_ClientID payload = cm_clientID m)
  && bool_decide (rp_RequestSHA256 payload = cm_requestSHA m) && bool_decide (rp_PairingPublicKeyPEM payload = publicPEM)
  && (rp_CredentialGeneration payload =? 1).
Definition OpenResponse (advertisementBytes response : list byte) (m : ClientMaterial) (expectedOrigin : text) (now : Z)
    : result pairing_err OpenResponseResult :=
  let now := truncated_time now in
  _ ← validateClientMaterial m;
  '(ad, receiverPublic) ← parseAdvertisement x advertisementBytes now;
  reject negb (bool_decide (expectedOrigin = cm_relayOrigin m)) || negb (bool_decide (av_RelayOrigin ad = expectedOrigin))
      || negb (bool_decide (digestText advertisementBytes = cm_advertisementSHA m))
      || negb (bool_decide (cm_receiverPublic m = av_ReceiverSigningPublic ad))
      || negb (bool_decide (cm_receiverRecipient m = av_ReceiverAgeRecipient ad)) with ResponseBinding;;
  '(payload, authorization) ← openPairResponse x response (cm_responseIdentity m) receiverPublic now;
  pairingKey ← private_key x (cm_pairingPrivate m);
  reject negb (response_binds payload m (signingPublicPEM x (ed_public (pe_ed x) pairingKey))) with RequestNotBound;;
  Ok {| or_Pairing := {| pg_receiverID := cm_receiverID m; pg_routeID := cm_routeID m; pg_relayOrigin := cm_relayOrigin m;
          pg_clientID := cm_clientID m; pg_generation := 1; pg_pairingPrivate := cm_pairingPrivate m;
          pg_receiverPublic := cm_receiverPublic m; pg_receiverRecipient := cm_receiverRecipient m |};
        or_Authorization := authorization |}.

(** ** Renewals *)

Definition CreateRenewalWithPayload (p : Pairing) (relayOrigin : text) (now validity : Z) (build : PayloadBuilder) (d : draws)
    : result pairing_err RenewalRequest :=
  let now := truncated_time now in
  reject negb (is_ok (validatePairing p)) || negb (bool_decide (relayOrigin = pg_relayOrigin p)) || (validity <=? 0)
      || (MaxMessageValidity <? validity) || is_zero now with RenewalOptions;;
  reject pg_generation p =? maxGeneration with GenerationExhausted;;
  let '(nonce, rand) := random_id (dr_rand d) in
  nonce ← nonce;
  '(responseIdentity, responseRecipient) ← drawn (dr_identity d);
  let next := wrapu64 (pg_generation p + 1) in
  publicPayload ← build_payload build {| ci_ReceiverID := pg_receiverID p; ci_RouteID := pg_routeID p;
    ci_RelayOrigin := pg_relayOrigin p; ci_ClientID := pg_clientID p; ci_CredentialGeneration := next |};
  reject MaxAuthorizationSize <? Z.of_nat (length publicPayload) with PayloadBound;;
  private ← private_key x (pg_pairingPrivate p);
  let payload := {|
    rn_Schema := renewalSchema; rn_Profile := Profile; rn_ReceiverID := pg_receiverID p; rn_RouteID := pg_routeID p;
    rn_RelayOrigin := pg_relayOrigin p; rn_ClientID := pg_clientID p; rn_Nonce := nonce; rn_CredentialGeneration := next;
    rn_CreatedUnix := Unix now; rn_ExpiresUnix := Unix (now + validity);
    rn_PairingPublicKeyPEM := signingPublicPEM x (ed_public (pe_ed x) private);
    rn_ResponseRecipient := responseRecipient; rn_PublicPayload := StdEncode publicPayload |} in
  signed ← signPayload x renewalEnvelopeSchema renewalDomain renewalPayload_field payload private MaxRequestSize;
  encrypted ← sealAge x renewalCipherSchema signed (pg_receiverRecipient p) MaxRequestSize (dr_seed d) rand;
  Ok {| rr_Encrypted := encrypted; rr_Material := {| rm_pairing := p; rm_requestSHA := digestText encrypted;
          rm_responseIdentity := responseIdentity; rm_nextGeneration := next; rm_request := encrypted |} |}.
Definition CreateRenewal (p : Pairing) (relayOrigin : text) (now validity : Z) (d : draws) : result pairing_err RenewalRequest :=
  CreateRenewalWithPayload p relayOrigin now validity None d.

Definition renewal_binds (payload : responsePayload) (m : RenewalMaterial) (publicPEM expectedOrigin : text) : bool :=
  bool_decide (expectedOrigin = pg_relayOrigin (rm_pairing m)) && bool_decide (rp_Kind payload = renew)
  && bool_decide (rp_ReceiverID payload = pg_receiverID (rm_pairing m)) && bool_decide (rp_RouteID payload = pg_routeID (rm_pairing m))
  && bool_decide (rp_RelayOrigin payload = pg_relayOrigin (rm_pairing m)) && bool_decide (rp_ClientID payload = pg_clientID (rm_pairing m))
  && bool_decide (rp_RequestSHA256 payload = rm_requestSHA m) && bool_decide (rp_PairingPublicKeyPEM payload = publicPEM)
  && (rp_CredentialGeneration payload =? rm_nextGeneration m).
(** The key was read by the validation, so that reading it again succeeds. *)
Definition openRenewalResponse (response : list byte) (m : RenewalMaterial) (expectedOrigin : text) (now : Z) (expiredReceipt : bool)
    : result pairing_err OpenResponseResult :=
  let now := truncated_time now in
  reject negb (is_ok (validateRenewalMaterial m)) with RenewalBinding;;
  receiverPublic ← public_key x (pg_receiverPublic (rm_pairing m));
  '(payload, authorization) ← openPairResponseMode x response (rm_responseIdentity m) receiverPublic now expiredReceipt;
  private ← private_key x (pg_pairingPrivate (rm_pairing m));
  reject negb (renewal_binds payload m (signingPublicPEM x (ed_public (pe_ed x) private)) expectedOrigin) with RenewalResponseBinding;;
  Ok {| or_Pairing := (rm_pairing m) <| pg_generation := rm_nextGeneration m |>; or_Authorization := authorization |}.
Definition OpenRenewalResponse (response : list byte) (m : RenewalMaterial) (expectedOrigin : text) (now : Z)
    : result pairing_err OpenResponseResult :=
  openRenewalResponse response m expectedOrigin now false.
Definition RecoverExpiredRenewal (response : list byte) (m : RenewalMaterial) (expectedOrigin : text) (now validity : Z)
    (build : PayloadBuilder) (d : draws) : result pairing_err RenewalRequest :=
  committed ← openRenewalResponse response m expectedOrigin now true;
  CreateRenewalWithPayload (or_Pairing committed) expectedOrigin now validity build d.

(** ** The renewal status *)

Definition CreateRenewalStatus (m : RenewalMaterial) (origin : text) (now : Z) (d : draws) : result pairing_err RenewalStatusRequest :=
  let now := truncated_time now in
  let p := rm_pairing m in
  reject negb (is_ok (validateRenewalMaterial m)) || is_zero now || negb (bool_decide (origin = pg_relayOrigin p))
      || (pg_generation p =? maxGeneration) with StatusContext;;
  '(identity, recipient) ← drawn (dr_identity d);
  let '(nonce, rand) := random_id (dr_rand d) in
  nonce ← nonce;
  let req := {|
    sq_Schema := statusRequestSchema; sq_Profile := statusProfile; sq_ReceiverID := pg_receiverID p; sq_RouteID := pg_routeID p;
    sq_RelayOrigin := pg_relayOrigin p; sq_ClientID := pg_clientID p; sq_PendingSHA256 := rm_requestSHA m;
    sq_KnownGeneration := pg_generation p; sq_Nonce := nonce; sq_ResponseRecipient := recipient; sq_CreatedUnix := Unix now;
    sq_ExpiresUnix := Unix (now + statusValidity) |} in
  key ← private_key x (pg_pairingPrivate p);
  signed ← signPayload x statusRequestEnvelope statusRequestDomain renewalStatusPayload_field req key MaxRequestSize;
  wire ← sealAge x statusRequestCipher signed (pg_receiverRecipient p) MaxRequestSize (dr_seed d) rand;
  Ok {| rs_Encrypted := wire; rs_material := m; rs_responseIdentity := identity; rs_requestSHA := digestText wire;
        rs_createdUnix := sq_CreatedUnix req; rs_expiresUnix := sq_ExpiresUnix req |}.

Definition status_binds (response : renewalStatusResponse) (query : RenewalStatusRequest) (now : Z) : bool :=
  let m := rs_material query in
  let p := rm_pairing m in
  bool_decide (sr_Schema response = statusResponseSchema) && bool_decide (sr_Profile response = statusProfile)
  && bool_decide (sr_ReceiverID response = pg_receiverID p) && bool_decide (sr_RouteID response = pg_routeID p)
  && bool_decide (sr_RelayOrigin response = pg_relayOrigin p) && bool_decide (sr_ClientID response = pg_clientID p)
  && bool_decide (sr_QuerySHA256 response = rs_requestSHA query) && bool_decide (sr_PendingSHA256 response = rm_requestSHA m)
  && (sr_IssuedUnix response =? rs_createdUnix query) && (sr_ExpiresUnix response =? rs_expiresUnix query)
  && is_ok (validateWindow (sr_IssuedUnix response) (sr_ExpiresUnix response) now statusValidity)
  && ((sr_Generation response =? pg_generation p) || (sr_Generation response =? rm_nextGeneration m)).
Definition RecoverRenewalStatus (encoded : list byte) (query : RenewalStatusRequest) (origin : text) (now : Z) (build : PayloadBuilder)
    (d : draws) : result pairing_err RenewalRequest :=
  let now := truncated_time now in
  let m := rs_material query in
  reject negb (is_ok (validateRenewalMaterial m)) || negb (bool_decide (origin = pg_relayOrigin (rm_pairing m)))
      || negb (validDigest (rs_requestSHA query)) || negb (bool_decide (digestText (rs_Encrypted query) = rs_requestSHA query))
      || negb (is_ok (validateWindow (rs_createdUnix query) (rs_expiresUnix query) now statusValidity)) with StatusContext;;
  public ← public_key x (pg_receiverPublic (rm_pairing m));
  plain ← openAge x encoded statusResponseCipher (rs_responseIdentity query) MaxResponseSize;
  response ← openSigned x renewalStatusResponse_field plain statusResponseEnvelope statusResponseDomain public MaxResponseSize zero_value;
  reject negb (status_binds response query now) with StatusBinding;;
  CreateRenewalWithPayload ((rm_pairing m) <| pg_generation := sr_Generation response |>) origin now MaxMessageValidity build d.

(** ** Private records: [private.go] *)

Definition encoded_material (m : ClientMaterial) : encodedClientMaterial := {|
  ecm_Schema := clientMaterialSchema; ecm_Profile := Profile; ecm_ReceiverID := cm_receiverID m; ecm_RouteID := cm_routeID m;
  ecm_RelayOrigin := cm_relayOrigin m; ecm_AttemptID := cm_attemptID m; ecm_AdvertisementSHA256 := cm_advertisementSHA m;
  ecm_ClientID := cm_clientID m; ecm_RequestSHA256 := cm_requestSHA m; ecm_Request := StdEncode (cm_request m);
  ecm_PairingPrivateKeyPEM := StdEncode (cm_pairingPrivate m); ecm_ResponseAgeIdentity := cm_responseIdentity m;
  ecm_ReceiverPublicKeyPEM := StdEncode (cm_receiverPublic m); ecm_ReceiverAgeRecipient := cm_receiverRecipient m |}.
Definition MarshalMaterial (m : ClientMaterial) : result pairing_err (list byte) :=
  _ ← validateClientMaterial m;
  encodeCanonical encodedClientMaterial_field (encoded_material m) maxPrivateStateSize.
Definition ParseClientMaterial (encoded : list byte) : result pairing_err ClientMaterial :=
  value ← decodeCanonical encodedClientMaterial_field encoded maxPrivateStateSize;
  reject negb (bool_decide (ecm_Schema value = clientMaterialSchema)) || negb (bool_decide (ecm_Profile value = Profile)) with MaterialSchema;;
  request ← decodeBase64 (ecm_Request value);
  private ← decodeBase64 (ecm_PairingPrivateKeyPEM value);
  receiverPublic ← decodeBase64 (ecm_ReceiverPublicKeyPEM value);
  let material := {|
    cm_receiverID := ecm_ReceiverID value; cm_routeID := ecm_RouteID value; cm_relayOrigin := ecm_RelayOrigin value;
    cm_attemptID := ecm_AttemptID value; cm_advertisementSHA := ecm_AdvertisementSHA256 value; cm_clientID := ecm_ClientID value;
    cm_requestSHA := ecm_RequestSHA256 value; cm_pairingPrivate := private; cm_responseIdentity := ecm_ResponseAgeIdentity value;
    cm_receiverPublic := receiverPublic; cm_receiverRecipient := ecm_ReceiverAgeRecipient value; cm_request := request |} in
  _ ← validateClientMaterial material;
  Ok material.

Definition encoded_pairing (p : Pairing) : encodedPairing := {|
  epg_Schema := pairingPrivateSchema; epg_Profile := Profile; epg_ReceiverID := pg_receiverID p; epg_RouteID := pg_routeID p;
  epg_RelayOrigin := pg_relayOrigin p; epg_ClientID := pg_clientID p; epg_CredentialGeneration := pg_generation p;
  epg_PairingPrivateKeyPEM := StdEncode (pg_pairingPrivate p); epg_ReceiverPublicKeyPEM := StdEncode (pg_receiverPublic p);
  epg_ReceiverAgeRecipient := pg_receiverRecipient p |}.
Definition MarshalPairing (p : Pairing) : result pairing_err (list byte) :=
  _ ← validatePairing p;
  encodeCanonical encodedPairing_field (encoded_pairing p) maxPrivateStateSize.
Definition ParsePairing (encoded : list byte) : result pairing_err Pairing :=
  value ← decodeCanonical encodedPairing_field encoded maxPrivateStateSize;
  reject negb (bool_decide (epg_Schema value = pairingPrivateSchema)) || negb (bool_decide (epg_Profile value = Profile)) with MaterialSchema;;
  private ← decodeBase64 (epg_PairingPrivateKeyPEM value);
  receiverPublic ← decodeBase64 (epg_ReceiverPublicKeyPEM value);
  let pairing := {|
    pg_receiverID := epg_ReceiverID value; pg_routeID := epg_RouteID value; pg_relayOrigin := epg_RelayOrigin value;
    pg_clientID := epg_ClientID value; pg_generation := epg_CredentialGeneration value; pg_pairingPrivate := private;
    pg_receiverPublic := receiverPublic; pg_receiverRecipient := epg_ReceiverAgeRecipient value |} in
  _ ← validatePairing pairing;
  Ok pairing.

Definition MarshalRenewal (m : RenewalMaterial) : result pairing_err (list byte) :=
  _ ← validateRenewalMaterial m;
  pairing ← MarshalPairing (rm_pairing m);
  encodeCanonical encodedRenewalMaterial_field {|
    erm_Schema := renewalMaterialSchema; erm_Profile := Profile; erm_Pairing := StdEncode pairing; erm_RequestSHA256 := rm_requestSHA m;
    erm_Request := StdEncode (rm_request m); erm_ResponseAgeIdentity := rm_responseIdentity m;
    erm_NextGeneration := rm_nextGeneration m |} maxPrivateStateSize.
Definition ParseRenewalMaterial (encoded : list byte) : result pairing_err RenewalMaterial :=
  value ← decodeCanonical encodedRenewalMaterial_field encoded maxPrivateStateSize;
  reject negb (bool_decide (erm_Schema value = renewalMaterialSchema)) || negb (bool_decide (erm_Profile value = Profile)) with MaterialSchema;;
  pairingBytes ← decodeBase64 (erm_Pairing value);
  pairing ← ParsePairing pairingBytes;
  request ← decodeBase64 (erm_Request value);
  let material := {|
    rm_pairing := pairing; rm_requestSHA := erm_RequestSHA256 value; rm_responseIdentity := erm_ResponseAgeIdentity value;
    rm_nextGeneration := erm_NextGeneration value; rm_request := request |} in
  _ ← validateRenewalMaterial material;
  Ok material.
End Env.
