(* ===== verification/PairingClientSafety.v ===== *)
(** * Properties of the pairing client

    The private records of the client have one encoding: what is parsed is what is marshalled of
    the result, so a saved record cannot be spelled in another way. *)

From S2P Require Import Prelude GoIO Text Runes Sha256 Base64 Protocol Identifiers Signing PairToken EnrollRequest Invitation Identity StrictJson StrictJsonSafety JsonText PairingData PairingWire PairingWireSafety PairingClient.
Open Scope Z_scope.

(** The identifiers that the client draws *)
Lemma random_id_plain rand t rest : random_id rand = (Ok t, rest) → plain t.
Proof.
  unfold random_id. destruct (randomID rand) as [[id|] r]; [|done]. intros H. apply (f_equal fst) in H. cbn [fst] in H.
  apply Ok_inj in H as <-. apply plain_formatID.
Qed.

Section Env.
Context (x : pairing_env).

(** What a canonical record was decoded from, with its base64 members. *)
#[local] Ltac canonical :=
  repeat match goal with
  | H : decodeCanonical _ _ _ = Ok _ |- _ => apply decodeCanonical_inv in H
  | H : decodeBase64 _ = Ok _ |- _ => apply decodeBase64_inv in H
  | H : Ok _ = Ok _ |- _ => apply Ok_inj in H
  end; bool_prop.

Lemma ParseClientMaterial_canonical b m : ParseClientMaterial x b = Ok m → MarshalMaterial x m = Ok b.
Proof.
  unfold ParseClientMaterial, MarshalMaterial. intros H. ok_inv H. canonical. subst m.
  match goal with H : validateClientMaterial _ _ = Ok _ |- _ => rewrite H end. cbn [mbind result_bind].
  etransitivity; [|eassumption]. f_equal. destruct a; cbn in *; unfold encoded_material; cbn; by f_equal.
Qed.
Lemma ParsePairing_canonical b p : ParsePairing x b = Ok p → MarshalPairing x p = Ok b.
Proof.
  unfold ParsePairing, MarshalPairing. intros H. ok_inv H. canonical. subst p.
  match goal with H : validatePairing _ _ = Ok _ |- _ => rewrite H end. cbn [mbind result_bind].
  etransitivity; [|eassumption]. f_equal. destruct a; cbn in *; unfold encoded_pairing; cbn; by f_equal.
Qed.
Lemma ParseRenewalMaterial_canonical b m : ParseRenewalMaterial x b = Ok m → MarshalRenewal x m = Ok b.
Proof.
  unfold ParseRenewalMaterial, MarshalRenewal. intros H. ok_inv H. canonical. subst m.
  match goal with H : validateRenewalMaterial _ _ = Ok _ |- _ => rewrite H end. cbn [mbind result_bind rm_pairing].
  match goal with H : ParsePairing _ _ = Ok _ |- _ => rewrite (ParsePairing_canonical _ _ H) end. cbn [mbind result_bind].
  etransitivity; [|eassumption]. f_equal. destruct a; cbn in *; by f_equal.
Qed.
End Env.
