(* ===== verification/PairingReceiver.v ===== *)
(** * Receiver pairing: the receiver

    [store.go], the receiver's half of [exchange.go], [pending_code.go] and the receiver of
    [renewal_status.go]: the durable state of a receiver, a file of a private directory of
    [SecureFS], and every method of [Receiver] as a program over [Syscalls]. A method that
    changes the state computes the new one with a function of this file ([claimed], [renewed],
    [cancelled], ...) and writes it with [writeState], under the lock. *)

From S2P Require Import Prelude GoIO Text Runes Sha256 Base64 Protocol Identifiers Signing PairToken EnrollRequest Invitation Identity StrictJson Syscalls SecureFS PairingData PairingWire PairingClient.
Open Scope Z_scope.

(** ** Data *)

(** [pki.Material], as far as it is read. *)
Record Material := { CertPEM : list byte; KeyPEM : list byte }.
Record receiverSecrets := {
  signingPrivate : list byte; signingPublic : list byte; ageIdentity : text; ageRecipient : text; trust : PairingData.Trust;
  outerIssuer : Material; connectorIssuer : Material; clientIssuer : Material }.
Record AuthorityMaterial := { OuterEndpoint : Material; InnerConnector : Material; InnerClient : Material }.
Record ReceiverStatus := {
  rv_ReceiverID : text; rv_RouteID : text; rv_RelayOrigin : text; rv_Generation : Z; rv_LocalLocked : bool; rv_PendingAttemptID : text;
  rv_PairedClientID : text; rv_CredentialGeneration : Z; rv_PeerLocked : bool; rv_PeerRevoked : bool }.
Record PeerRequest := {
  pq_Kind : text; pq_ReceiverID : text; pq_RouteID : text; pq_RelayOrigin : text; pq_ClientID : text; pq_PairingPublicKeyPEM : list byte;
  pq_PublicPayload : list byte; pq_CredentialGeneration : Z; pq_RequestSHA256 : text }.
(** [IssueFunc]; [None] of a call is an error. *)
Definition IssueFunc : Type := option (PeerRequest → option (list byte)).
Record ClaimResult := {
  cl_Response : list byte; cl_ReceiverID : text; cl_ClientID : text; cl_CredentialGeneration : Z; cl_Idempotent : bool }.
Record InitializeOptions := {
  io_RootPath : text; io_ReceiverID : text; io_RouteID : text; io_RelayOrigin : text; io_RelayServerSPKI : text; io_Now : Z }.
(** The draws of [Initialize]; [in_CA] is [pki.NewCA] of a name, at its time and validity. *)
Record init_draws := {
  in_rand : reader; in_key : option (list byte); in_identity : option (text * text); in_CA : text → option Material }.
Record receiver_env := {
  rv_pairing : pairing_env;
  (** [pki.ParseIssuer] *)
  ParseIssuer : list byte → list byte → Z → option Material }.

Inductive receiver_err :=
| RFs (e : fs_err) | RPairing (e : pairing_err)
| RootInvalid | Unavailable | StateInvalid | RetiredInvalid | RetiredDuplicate | StateConflict | AttemptInvalid | PeerInvalid | InitialInvalid
| RevokedUnlocked | RetryIncomplete | RetryDigest | RetryInvalid | AgeInvalid | AuthorityInvalid | AuthorizationCommitted
| TimeInvalid | LocallyLocked | AlreadyPaired | AttemptPending | NoAttempt | AttemptDiffers | PeerChanged | NoPeer | RevokedPeer
| PeerLocked | OtherRequest | NotBound | NoIssuer | IssueFailed | IssuedSize | RequestInvalid | StatusUnavailable | StatusInvalid
| GenerationOutside | Exhausted | PendingUnavailable.
#[export] Instance receiver_err_eq_dec : EqDecision receiver_err.
Proof. solve_decision. Defined.
Definition fs {A} (m : IO (result fs_err A)) : IO (result receiver_err A) :=
  r ← m; mret (match r with Ok a => Ok a | Err e => Err (RFs e) end).
Definition paired {A} (r : result pairing_err A) : result receiver_err A := match r with Ok a => Ok a | Err e => Err (RPairing e) end.
Definition pairing {A} (r : result pairing_err A) : IO (result receiver_err A) := mret (paired r).

Definition stateSchema : text := ascii_bytes "owntransit.receiver-pairing.state.v1".
Definition stateFile : text := ascii_bytes "state.json".
Definition lockFile : text := ascii_bytes "state.lock".
Definition receiverSigningKeyFile : text := ascii_bytes "receiver-signing-key.pem".
Definition receiverAgeIdentityFile : text := ascii_bytes "receiver-age-identity.txt".
Definition outerCACertFile : text := ascii_bytes "outer-endpoint-ca-cert.pem".
Definition outerCAKeyFile : text := ascii_bytes "outer-endpoint-ca-key.pem".
Definition innerConnectorCACertFile : text := ascii_bytes "inner-connector-ca-cert.pem".
Definition innerConnectorCAKeyFile : text := ascii_bytes "inner-connector-ca-key.pem".
Definition innerClientCACertFile : text := ascii_bytes "inner-client-ca-cert.pem".
Definition innerClientCAKeyFile : text := ascii_bytes "inner-client-ca-key.pem".
Definition pendingCodeFile : text := ascii_bytes "private-pairing-code.v1".
Definition maxStateSize : Z := 2 * 2 ^ 20.
Definition maxPrivateKeySize : Z := 16 * 2 ^ 10.
Definition maxAgeIdentity : Z := 4 * 2 ^ 10.
Definition maxRetiredCodes : nat := 64.

(** ** The durable state *)

Fixpoint check_retired (seen : list text) (digests : list text) : result receiver_err () :=
  match digests with
  | [] => Ok ()
  | digest :: rest =>
      reject negb (validDigest digest) with RetiredInvalid;;
      reject bool_decide (digest ∈ seen) with RetiredDuplicate;;
      check_retired (digest :: seen) rest
  end.
Definition check_attempt (a : attemptRecord) : bool :=
  match decodeBase64 (at_Advertisement a) with
  | Err _ => false
  | Ok advertisement =>
      validateID (at_AttemptID a) && negb (at_ExpiresUnix a <=? 0)
      && constantDigestEqual (digestText advertisement) (at_AdvertisementSHA256 a) && validDigest (at_CodeSHA256 a)
  end.
Definition appendRetiredCode (values : gslice text) (value : text) : gslice text :=
  let l := elems values in
  if existsb (λ existing, constantDigestEqual existing value) l then values
  else Some ((if (length l =? maxRetiredCodes)%nat then drop 1 l else l) ++ [value]).
Definition statusFromState (s : stateRecord) : ReceiverStatus := {|
  rv_ReceiverID := sd_ReceiverID s; rv_RouteID := sd_RouteID s; rv_RelayOrigin := sd_RelayOrigin s; rv_Generation := sd_Generation s;
  rv_LocalLocked := sd_LocalLocked s;
  rv_PendingAttemptID := match sd_Attempt s with Some a => at_AttemptID a | None => [] end;
  rv_PairedClientID := match sd_Peer s with Some p => pr_ClientID p | None => [] end;
  rv_CredentialGeneration := match sd_Peer s with Some p => pr_CredentialGeneration p | None => 0 end;
  rv_PeerLocked := match sd_Peer s with Some p => pr_Locked p | None => false end;
  rv_PeerRevoked := match sd_Peer s with Some p => pr_Revoked p | None => false end |}.

Section Env.
Context (x : receiver_env).
#[local] Notation px := (rv_pairing x).

Definition check_peer (p : peerRecord) : result receiver_err () :=
  match ParsePublic px (pr_PairingPublicKeyPEM p) with
  | None => Err PeerInvalid
  | Some public =>
      reject negb (length public =? PublicKeySize)%nat || negb (validateID (pr_ClientID p)) || negb (validateID (pr_AttemptID p))
          || negb (validDigest (pr_InitialRequestSHA256 p)) || (pr_CredentialGeneration p =? 0) with PeerInvalid;;
      reject negb (is_ok (decodeBase64 (pr_InitialResponse p))) with InitialInvalid;;
      reject pr_Revoked p && negb (pr_Locked p) with RevokedUnlocked;;
      reject xorb (bool_decide (pr_LastRenewalRequestSHA256 p = [])) (bool_decide (pr_LastRenewalResponse p = [])) with RetryIncomplete;;
      if bool_decide (pr_LastRenewalRequestSHA256 p = []) then Ok ()
      else
        reject negb (validDigest (pr_LastRenewalRequestSHA256 p)) with RetryDigest;;
        reject negb (is_ok (decodeBase64 (pr_LastRenewalResponse p))) with RetryInvalid;;
        Ok ()
  end.
(** [stateRecord.validate] *)
Definition validate (s : stateRecord) : result receiver_err () :=
  reject negb (bool_decide (sd_Schema s = stateSchema)) || negb (bool_decide (sd_Profile s = Profile)) || (sd_Generation s =? 0)
      || negb (validateID (sd_ReceiverID s)) || negb (validateRoute (sd_RouteID s)) || negb (validateRelayOrigin px (sd_RelayOrigin s))
      || (maxRetiredCodes <? length (elems (sd_RetiredCodeSHA256 s)))%nat with StateInvalid;;
  _ ← paired (identityPin (sd_RelayServerSPKI s));
  _ ← check_retired [] (elems (sd_RetiredCodeSHA256 s));
  reject match sd_Attempt s, sd_Peer s with Some _, Some _ => true | _, _ => false end with StateConflict;;
  reject match sd_Attempt s with Some a => negb (check_attempt a) | None => false end with AttemptInvalid;;
  match sd_Peer s with Some p => check_peer p | None => Ok () end.

Definition encodeState (s : stateRecord) : result receiver_err (list byte) :=
  _ ← validate s;
  paired (encodeCanonical stateRecord_field s maxStateSize).
(** What [readState] makes of the file. *)
Definition decodeState (encoded : list byte) : result receiver_err stateRecord :=
  s ← paired (decodeCanonical stateRecord_field encoded maxStateSize);
  _ ← validate s;
  Ok s.
Definition readState (root : Root) : IO (result receiver_err stateRecord) :=
  must encoded := fs (ReadFile root stateFile maxStateSize);;
  mret (decodeState encoded).
(** The sidecar is removed when the state denies it; a failure to do so is not reported. *)
Definition writeState (root : Root) (s : stateRecord) : IO (result receiver_err ()) :=
  must encoded := mret (encodeState s);;
  must _ := fs (ReplaceFile root stateFile encoded 0x180);;
  if bool_decide (sd_Attempt s = None) || sd_LocalLocked s
  then _ ← UnlinkFile root pendingCodeFile; mret (Ok ())
  else mret (Ok ()).

(** ** Secrets *)

Definition readIssuer (root : Root) (certificateFile keyFile : text) (now : Z) : IO (result receiver_err Material) :=
  must certificate := fs (ReadFile root certificateFile (64 * 2 ^ 10));;
  must privateKey := fs (ReadFile root keyFile maxPrivateKeySize);;
  match ParseIssuer x certificate privateKey now with
  | None => mret (Err AuthorityInvalid)
  | Some issuer => mret (Ok issuer)
  end.
(** The identity in a file of one line. *)
Definition age_line (contents : list byte) : option (text * text) :=
  if (length contents <? 2)%nat || negb (bool_decide (list.last contents = Some newline)) then None
  else identity_text px (removelast contents).
Definition readSecrets (root : Root) (s : stateRecord) (now : Z) : IO (result receiver_err receiverSecrets) :=
  must privatePEM := fs (ReadFile root receiverSigningKeyFile maxPrivateKeySize);;
  must private := pairing (private_key px privatePEM);;
  let public := ed_public (pe_ed px) private in
  ageBytes ← ReadFile root receiverAgeIdentityFile maxAgeIdentity;
  match age_line (match ageBytes with Ok contents => contents | Err _ => [] end) with
  | None => mret (Err AgeInvalid)
  | Some (identity, recipient) =>
      must outer := readIssuer root outerCACertFile outerCAKeyFile now;;
      must innerConnector := readIssuer root innerConnectorCACertFile innerConnectorCAKeyFile now;;
      must innerClient := readIssuer root innerClientCACertFile innerClientCAKeyFile now;;
      let trust := {| tr_RelayServerSPKI := sd_RelayServerSPKI s; tr_OuterEndpointCAPEM := CertPEM outer;
                      tr_InnerConnectorCAPEM := CertPEM innerConnector; tr_InnerClientCAPEM := CertPEM innerClient |} in
      must _ := pairing (validateGeneratedTrust px trust public now);;
      mret (Ok {| signingPrivate := private; signingPublic := signingPublicPEM px public; ageIdentity := identity; ageRecipient := recipient;
                  trust := trust; outerIssuer := outer; connectorIssuer := innerConnector; clientIssuer := innerClient |})
  end.

(** ** Sessions of the store *)

(** A method that only reads, on an opened root. *)
Definition with_state {A} (rootPath : text) (k : Root → stateRecord → IO (result receiver_err A)) : IO (result receiver_err A) :=
  must root := fs (OpenRoot rootPath);;
  deferring (closeRoot root) (must s := readState root;; k root s).
(** [lockedState] on an opened root, and what its caller does before the deferred closes. *)
Definition critical {A} (root : Root) (k : Root → stateRecord → IO (result receiver_err A)) : IO (result receiver_err A) :=
  must lock := fs (TryLock root lockFile);;
  deferring (closeLock lock) (must s := readState root;; k root s).
Definition lockedState {A} (rootPath : text) (k : Root → stateRecord → IO (result receiver_err A)) : IO (result receiver_err A) :=
  refuse bool_decide (rootPath = []) with Unavailable;;
  must root := fs (OpenRoot rootPath);;
  deferring (closeRoot root) (critical root k).

(** ** Transitions of the state *)

Definition started (s : stateRecord) (a : attemptRecord) : stateRecord :=
  s <| sd_RetiredCodeSHA256 := match sd_Attempt s with
                               | Some old => appendRetiredCode (sd_RetiredCodeSHA256 s) (at_CodeSHA256 old)
                               | None => sd_RetiredCodeSHA256 s end |>
    <| sd_Generation := wrapu64 (sd_Generation s + 1) |> <| sd_Attempt := Some a |>.
Definition cancelled (s : stateRecord) (a : attemptRecord) : stateRecord :=
  s <| sd_RetiredCodeSHA256 := appendRetiredCode (sd_RetiredCodeSHA256 s) (at_CodeSHA256 a) |> <| sd_Attempt := None |>
    <| sd_Generation := wrapu64 (sd_Generation s + 1) |>.
Definition claimed (s : stateRecord) (a : attemptRecord) (request : requestPayload) (publicKey authorization response : list byte)
    (requestSHA : text) : stateRecord :=
  s <| sd_Generation := wrapu64 (sd_Generation s + 1) |>
    <| sd_RetiredCodeSHA256 := appendRetiredCode (sd_RetiredCodeSHA256 s) (at_CodeSHA256 a) |>
    <| sd_Peer := Some {| pr_Authorization := append_nil authorization; pr_ClientID := rq_ClientID request;
         pr_PairingPublicKeyPEM := signingPublicPEM px publicKey; pr_AttemptID := at_AttemptID a; pr_InitialRequestSHA256 := requestSHA;
         pr_InitialResponse := StdEncode response; pr_CredentialGeneration := 1; pr_Locked := false; pr_Revoked := false;
         pr_LastRenewalRequestSHA256 := []; pr_LastRenewalResponse := [] |} |>
    <| sd_Attempt := None |>.
Definition renewed (s : stateRecord) (p : peerRecord) (renewal : renewalPayload) (authorization response : list byte) (requestSHA : text)
    : stateRecord :=
  s <| sd_Generation := wrapu64 (sd_Generation s + 1) |>
    <| sd_Peer := Some (p <| pr_CredentialGeneration := rn_CredentialGeneration renewal |>
         <| pr_Authorization := append_nil authorization |> <| pr_LastRenewalRequestSHA256 := requestSHA |>
         <| pr_LastRenewalResponse := StdEncode response |>) |>.

(** The changes that [updateState] applies. *)
Definition set_local (locked : bool) (s : stateRecord) : result receiver_err stateRecord := Ok (s <| sd_LocalLocked := locked |>).
Definition retire (expectedPeer : text) (s : stateRecord) : result receiver_err stateRecord :=
  reject negb (bool_decide (match sd_Peer s with Some p => pr_ClientID p | None => [] end = expectedPeer)) with PeerChanged;;
  Ok (s <| sd_LocalLocked := true |>
        <| sd_Peer := match sd_Peer s with Some p => Some (p <| pr_Locked := true |> <| pr_Revoked := true |>) | None => None end |>).
Definition set_peer (locked : bool) (s : stateRecord) : result receiver_err stateRecord :=
  match sd_Peer s with
  | None => Err NoPeer
  | Some p =>
      reject pr_Revoked p && negb locked with RevokedPeer;;
      Ok (s <| sd_Peer := Some (p <| pr_Locked := locked |>) |>)
  end.
Definition revoke (s : stateRecord) : result receiver_err stateRecord :=
  match sd_Peer s with
  | None => Err NoPeer
  | Some p => Ok (s <| sd_Peer := Some (p <| pr_Locked := true |> <| pr_Revoked := true |>) |>)
  end.

(** ** Reading *)

Definition PeerAuthorization (rootPath : text) : IO (result receiver_err (list byte)) :=
  with_state rootPath (λ _ s,
    match sd_Peer s with
    | None => mret (Ok [])
    | Some p =>
        let authorization := elems (pr_Authorization p) in
        refuse bad_size authorization MaxAuthorizationSize with AuthorizationCommitted;;
        mret (Ok authorization)
    end).
Definition Status (rootPath : text) : IO (result receiver_err ReceiverStatus) :=
  with_state rootPath (λ _ s, mret (Ok (statusFromState s))).
Definition RuntimeSnapshot (rootPath : text) (now : Z) : IO (result receiver_err (ReceiverStatus * PairingData.Trust * list byte)) :=
  with_state rootPath (λ root s,
    must secrets := readSecrets root s now;;
    mret (Ok (statusFromState s, trust secrets, match sd_Peer s with Some p => elems (pr_Authorization p) | None => [] end))).
Definition bad_root (rootPath : text) : bool :=
  bool_decide (rootPath = []) || negb (IsAbs rootPath) || negb (bool_decide (Clean_rooted rootPath = rootPath)).
(** The receiver of an opened root is its path. *)
Definition Open (rootPath : text) (now : Z) : IO (result receiver_err text) :=
  refuse bad_root rootPath with RootInvalid;;
  with_state rootPath (λ root s, must _ := readSecrets root s now;; mret (Ok rootPath)).
Definition load_authority (now : Z) (root : Root) (s : stateRecord) : IO (result receiver_err AuthorityMaterial) :=
  must secrets := readSecrets root s (truncated_time now);;
  mret (Ok {| OuterEndpoint := outerIssuer secrets; InnerConnector := connectorIssuer secrets; InnerClient := clientIssuer secrets |}).
Definition LoadPrivateAuthority (rootPath : text) (now : Z) : IO (result receiver_err AuthorityMaterial) :=
  lockedState rootPath (load_authority now).
Definition public_trust (now : Z) (root : Root) (s : stateRecord) : IO (result receiver_err PairingData.Trust) :=
  must secrets := readSecrets root s (truncated_time now);;
  mret (Ok (trust secrets)).
Definition PublicTrust (rootPath : text) (now : Z) : IO (result receiver_err PairingData.Trust) := lockedState rootPath (public_trust now).
Definition current_advertisement (now : Z) (root : Root) (s : stateRecord) : IO (result receiver_err (list byte)) :=
  match sd_Attempt s with
  | None => mret (Err NoAttempt)
  | Some a =>
      must encoded := pairing (decodeBase64 (at_Advertisement a));;
      match VerifyAdvertisement px encoded now with
      | Err _ => mret (Err AttemptDiffers)
      | Ok info =>
          refuse negb (bool_decide (ai_ReceiverID info = sd_ReceiverID s)) || negb (bool_decide (ai_AttemptID info = at_AttemptID a))
            with AttemptDiffers;;
          mret (Ok encoded)
      end
  end.
Definition CurrentAdvertisement (rootPath : text) (now : Z) : IO (result receiver_err (list byte)) :=
  lockedState rootPath (current_advertisement now).

(** ** Attempts *)

(** A new attempt from the secrets: its advertisement, its code and the next state. *)
Definition new_attempt (secrets : receiverSecrets) (s : stateRecord) (now validity : Z) (rand : reader)
    : result receiver_err (stateRecord * Attempt) :=
  let '(attemptID, rand) := random_id rand in
  attemptID ← paired attemptID;
  let expires := now + validity in
  advertisement ← paired (signPayload px advertEnvelopeSchema advertisementDomain advertisementPayload_field
    {| av_Schema := advertisementSchema; av_Profile := Profile; av_ReceiverID := sd_ReceiverID s; av_RouteID := sd_RouteID s;
       av_RelayOrigin := sd_RelayOrigin s; av_AttemptID := attemptID; av_CreatedUnix := Unix now; av_ExpiresUnix := Unix expires;
       av_ReceiverSigningPublic := signingPublic secrets; av_ReceiverAgeRecipient := ageRecipient secrets; av_Trust := trust secrets |}
    (signingPrivate secrets) MaxAdvertisementSize);
  match (read_full secretSize rand).1 with
  | Err _ => Err (RPairing RandomFailed)
  | Ok secret =>
      code ← paired (encodeCode {| cp_Schema := codeSchema; cp_ReceiverID := sd_ReceiverID s; cp_AttemptID := attemptID;
        cp_ExpiresUnix := Unix expires; cp_AdvertisementSHA256 := digestText advertisement; cp_Secret := RawURLEncode secret |});
      Ok (started s {| at_AttemptID := attemptID; at_ExpiresUnix := Unix expires; at_Advertisement := StdEncode advertisement;
                       at_AdvertisementSHA256 := digestText advertisement; at_CodeSHA256 := digestText code |},
          {| ap_Advertisement := advertisement; ap_Code := code; ap_ReceiverID := sd_ReceiverID s; ap_AttemptID := attemptID;
             ap_Expires := expires |})
  end.
Definition create_attempt (now validity : Z) (rand : reader) (root : Root) (s : stateRecord) : IO (result receiver_err Attempt) :=
  refuse sd_LocalLocked s with LocallyLocked;;
  refuse bool_decide (is_Some (sd_Peer s)) with AlreadyPaired;;
  refuse match sd_Attempt s with Some a => Unix now <? at_ExpiresUnix a | None => false end with AttemptPending;;
  refuse sd_Generation s =? maxGeneration with Exhausted;;
  must secrets := readSecrets root s now;;
  must created := mret (new_attempt secrets s now validity rand);;
  must _ := writeState root created.1;;
  mret (Ok created.2).
Definition CreateAttempt (rootPath : text) (now validity : Z) (rand : reader) : IO (result receiver_err Attempt) :=
  let now := truncated_time now in
  refuse is_zero now || (validity <=? 0) || (MaxAttemptValidity <? validity) with TimeInvalid;;
  lockedState rootPath (create_attempt now validity rand).

Definition cancel_attempt (root : Root) (s : stateRecord) : IO (result receiver_err ReceiverStatus) :=
  match sd_Attempt s with
  | None => mret (Err NoAttempt)
  | Some a =>
      refuse sd_Generation s =? maxGeneration with Exhausted;;
      must _ := writeState root (cancelled s a);;
      mret (Ok (statusFromState (cancelled s a)))
  end.
Definition CancelAttempt (rootPath : text) : IO (result receiver_err ReceiverStatus) := lockedState rootPath cancel_attempt.

Definition update_state (change : stateRecord → result receiver_err stateRecord) (root : Root) (s : stateRecord)
    : IO (result receiver_err ReceiverStatus) :=
  refuse sd_Generation s =? maxGeneration with Exhausted;;
  must s := mret (change s);;
  let s := s <| sd_Generation := wrapu64 (sd_Generation s + 1) |> in
  must _ := writeState root s;;
  mret (Ok (statusFromState s)).
Definition updateState (rootPath : text) (change : stateRecord → result receiver_err stateRecord) : IO (result receiver_err ReceiverStatus) :=
  lockedState rootPath (update_state change).
Definition SetLocalLocked (rootPath : text) (locked : bool) := updateState rootPath (set_local locked).
Definition RetireForReplacement (rootPath : text) (expectedPeer : text) := updateState rootPath (retire expectedPeer).
Definition SetPeerLocked (rootPath : text) (locked : bool) := updateState rootPath (set_peer locked).
Definition RevokePeer (rootPath : text) := updateState rootPath revoke.

(** ** [Claim] and [Renew] *)

Definition bad_input (encoded : list byte) (now : Z) (issue : IssueFunc) : bool :=
  is_zero now || bad_size encoded MaxRequestSize || bool_decide (issue = None).
(** The answer that was stored for a request. *)
Definition stored_answer (s : stateRecord) (p : peerRecord) (response : text) : result receiver_err ClaimResult :=
  response ← paired (decodeBase64 response);
  Ok {| cl_Response := response; cl_ReceiverID := sd_ReceiverID s; cl_ClientID := pr_ClientID p;
        cl_CredentialGeneration := pr_CredentialGeneration p; cl_Idempotent := true |}.
Definition issued (issue : IssueFunc) (request : PeerRequest) : result receiver_err (list byte) :=
  match issue with
  | None => Err NoIssuer
  | Some issue =>
      match issue request with
      | None => Err IssueFailed
      | Some authorization => reject bad_size authorization MaxAuthorizationSize with IssuedSize;; Ok authorization
      end
  end.
(** The request is for the pending attempt, and its code is the one that was handed out. *)
Definition request_binds (s : stateRecord) (a : attemptRecord) (request : requestPayload) (code : codePayload) (advertisement : list byte)
    (now : Z) : bool :=
  bool_decide (rq_ReceiverID request = sd_ReceiverID s) && bool_decide (rq_RouteID request = sd_RouteID s)
  && bool_decide (rq_RelayOrigin request = sd_RelayOrigin s) && bool_decide (rq_AttemptID request = at_AttemptID a)
  && bool_decide (rq_AdvertisementSHA256 request = at_AdvertisementSHA256 a) && bool_decide (cp_ReceiverID code = sd_ReceiverID s)
  && bool_decide (cp_AttemptID code = at_AttemptID a)
  && constantDigestEqual (cp_AdvertisementSHA256 code) (at_AdvertisementSHA256 a)
  && constantDigestEqual (digestText (rq_Code request)) (at_CodeSHA256 a)
  && constantDigestEqual (digestText advertisement) (at_AdvertisementSHA256 a)
  && negb (at_ExpiresUnix a <? rq_ExpiresUnix request) && (cp_ExpiresUnix code =? at_ExpiresUnix a)
  && before_unix now (at_ExpiresUnix a).
(** What a first request for the pending attempt [a] makes of the state, and its answer. *)
Definition accept_request (secrets : receiverSecrets) (s : stateRecord) (a : attemptRecord) (encoded : list byte) (now : Z)
    (issue : IssueFunc) (seed : list byte) (rand : reader) : result receiver_err (stateRecord * ClaimResult) :=
  let requestSHA := digestText encoded in
  '(request, publicKey, code, publicPayload) ← paired (openPairRequest px encoded (ageIdentity secrets) now);
  advertisement ← paired (decodeBase64 (at_Advertisement a));
  reject negb (request_binds s a request code advertisement now) with NotBound;;
  reject sd_Generation s =? maxGeneration with Exhausted;;
  authorization ← issued issue {| pq_Kind := pair; pq_ReceiverID := sd_ReceiverID s; pq_RouteID := sd_RouteID s;
    pq_RelayOrigin := sd_RelayOrigin s; pq_ClientID := rq_ClientID request;
    pq_PairingPublicKeyPEM := rq_PairingPublicKeyPEM request; pq_PublicPayload := publicPayload; pq_CredentialGeneration := 1;
    pq_RequestSHA256 := requestSHA |};
  response ← paired (makeResponse px {| rp_Schema := responseSchema; rp_Profile := Profile; rp_Kind := pair;
    rp_ReceiverID := sd_ReceiverID s; rp_RouteID := sd_RouteID s; rp_RelayOrigin := sd_RelayOrigin s; rp_AttemptID := at_AttemptID a;
    rp_ClientID := rq_ClientID request; rp_RequestSHA256 := requestSHA; rp_PairingPublicKeyPEM := rq_PairingPublicKeyPEM request;
    rp_CredentialGeneration := 1; rp_IssuedUnix := Unix now; rp_ExpiresUnix := rq_ExpiresUnix request;
    rp_Authorization := StdEncode authorization |} (rq_ResponseRecipient request) (signingPrivate secrets) seed rand);
  Ok (claimed s a request publicKey authorization response requestSHA,
      {| cl_Response := response; cl_ReceiverID := sd_ReceiverID s; cl_ClientID := rq_ClientID request;
         cl_CredentialGeneration := 1; cl_Idempotent := false |}).
Definition claim (encoded : list byte) (now : Z) (issue : IssueFunc) (seed : list byte) (rand : reader) (root : Root) (s : stateRecord)
    : IO (result receiver_err ClaimResult) :=
  refuse sd_LocalLocked s with LocallyLocked;;
  match sd_Peer s with
  | Some p =>
      refuse pr_Locked p || pr_Revoked p with PeerLocked;;
      if constantDigestEqual (digestText encoded) (pr_InitialRequestSHA256 p) then mret (stored_answer s p (pr_InitialResponse p))
      else mret (Err OtherRequest)
  | None =>
      match sd_Attempt s with
      | None => mret (Err NoAttempt)
      | Some a =>
          must secrets := readSecrets root s now;;
          must accepted := mret (accept_request secrets s a encoded now issue seed rand);;
          must _ := writeState root accepted.1;;
          mret (Ok accepted.2)
      end
  end.
Definition Claim (rootPath : text) (encoded : list byte) (now : Z) (issue : IssueFunc) (seed : list byte) (rand : reader)
    : IO (result receiver_err ClaimResult) :=
  let now := truncated_time now in
  refuse bad_input encoded now issue with RequestInvalid;;
  lockedState rootPath (claim encoded now issue seed rand).

(** The renewal is of the paired identity and of the next generation. *)
Definition renewal_request_binds (s : stateRecord) (p : peerRecord) (renewal : renewalPayload) : bool :=
  bool_decide (rn_ReceiverID renewal = sd_ReceiverID s) && bool_decide (rn_RouteID renewal = sd_RouteID s)
  && bool_decide (rn_RelayOrigin renewal = sd_RelayOrigin s) && bool_decide (rn_ClientID renewal = pr_ClientID p)
  && bool_decide (rn_PairingPublicKeyPEM renewal = pr_PairingPublicKeyPEM p)
  && (rn_CredentialGeneration renewal =? wrapu64 (pr_CredentialGeneration p + 1)).
(** What a renewal makes of the state, and its answer. *)
Definition accept_renewal (secrets : receiverSecrets) (s : stateRecord) (p : peerRecord) (encoded : list byte) (now : Z)
    (issue : IssueFunc) (seed : list byte) (rand : reader) : result receiver_err (stateRecord * ClaimResult) :=
  let requestSHA := digestText encoded in
  pairingPublic ← paired (public_key px (pr_PairingPublicKeyPEM p));
  '(renewal, publicPayload) ← paired (openRenewalRequest px encoded (ageIdentity secrets) pairingPublic now);
  reject negb (renewal_request_binds s p renewal) with NotBound;;
  reject sd_Generation s =? maxGeneration with Exhausted;;
  authorization ← issued issue {| pq_Kind := renew; pq_ReceiverID := sd_ReceiverID s; pq_RouteID := sd_RouteID s;
    pq_RelayOrigin := sd_RelayOrigin s; pq_ClientID := pr_ClientID p; pq_PairingPublicKeyPEM := pr_PairingPublicKeyPEM p;
    pq_PublicPayload := publicPayload; pq_CredentialGeneration := rn_CredentialGeneration renewal; pq_RequestSHA256 := requestSHA |};
  response ← paired (makeResponse px {| rp_Schema := responseSchema; rp_Profile := Profile; rp_Kind := renew;
    rp_ReceiverID := sd_ReceiverID s; rp_RouteID := sd_RouteID s; rp_RelayOrigin := sd_RelayOrigin s; rp_AttemptID := [];
    rp_ClientID := pr_ClientID p; rp_RequestSHA256 := requestSHA; rp_PairingPublicKeyPEM := pr_PairingPublicKeyPEM p;
    rp_CredentialGeneration := rn_CredentialGeneration renewal; rp_IssuedUnix := Unix now; rp_ExpiresUnix := rn_ExpiresUnix renewal;
    rp_Authorization := StdEncode authorization |} (rn_ResponseRecipient renewal) (signingPrivate secrets) seed rand);
  Ok (renewed s p renewal authorization response requestSHA,
      {| cl_Response := response; cl_ReceiverID := sd_ReceiverID s; cl_ClientID := pr_ClientID p;
         cl_CredentialGeneration := rn_CredentialGeneration renewal; cl_Idempotent := false |}).
Definition renew_peer (encoded : list byte) (now : Z) (issue : IssueFunc) (seed : list byte) (rand : reader) (root : Root) (s : stateRecord)
    : IO (result receiver_err ClaimResult) :=
  refuse sd_LocalLocked s with LocallyLocked;;
  match sd_Peer s with
  | None => mret (Err NoPeer)
  | Some p =>
      refuse pr_Locked p || pr_Revoked p with PeerLocked;;
      if negb (bool_decide (pr_LastRenewalRequestSHA256 p = [])) && constantDigestEqual (digestText encoded) (pr_LastRenewalRequestSHA256 p)
      then mret (stored_answer s p (pr_LastRenewalResponse p))
      else
        must secrets := readSecrets root s now;;
        must accepted := mret (accept_renewal secrets s p encoded now issue seed rand);;
        must _ := writeState root accepted.1;;
        mret (Ok accepted.2)
  end.
Definition Renew (rootPath : text) (encoded : list byte) (now : Z) (issue : IssueFunc) (seed : list byte) (rand : reader)
    : IO (result receiver_err ClaimResult) :=
  let now := truncated_time now in
  refuse bad_input encoded now issue with RequestInvalid;;
  lockedState rootPath (renew_peer encoded now issue seed rand).

(** ** The renewal status *)

Definition status_request_binds (s : stateRecord) (p : peerRecord) (req : renewalStatusPayload) (now : Z) : bool :=
  bool_decide (sq_Schema req = statusRequestSchema) && bool_decide (sq_Profile req = statusProfile)
  && bool_decide (sq_ReceiverID req = sd_ReceiverID s) && bool_decide (sq_RouteID req = sd_RouteID s)
  && bool_decide (sq_RelayOrigin req = sd_RelayOrigin s) && bool_decide (sq_ClientID req = pr_ClientID p)
  && validDigest (sq_PendingSHA256 req) && validateID (sq_Nonce req) && negb (sq_KnownGeneration req =? 0)
  && negb (sq_KnownGeneration req =? maxGeneration)
  && is_ok (validateWindow (sq_CreatedUnix req) (sq_ExpiresUnix req) now statusValidity).
Definition renewal_status (encoded : list byte) (now : Z) (seed : list byte) (rand : reader) (root : Root) (s : stateRecord)
    : IO (result receiver_err (list byte)) :=
  match sd_Peer s with
  | None => mret (Err StatusUnavailable)
  | Some p =>
      refuse sd_LocalLocked s || pr_Locked p || pr_Revoked p with StatusUnavailable;;
      must secrets := readSecrets root s now;;
      must public := pairing (public_key px (pr_PairingPublicKeyPEM p));;
      must plain := pairing (openAge px encoded statusRequestCipher (ageIdentity secrets) MaxRequestSize);;
      must req := pairing (openSigned px renewalStatusPayload_field plain statusRequestEnvelope statusRequestDomain public MaxRequestSize zero_value);;
      refuse negb (status_request_binds s p req now) with StatusInvalid;;
      let generation := pr_CredentialGeneration p in
      refuse negb (generation =? sq_KnownGeneration req) && negb (generation =? wrapu64 (sq_KnownGeneration req + 1)) with GenerationOutside;;
      must signed := pairing (signPayload px statusResponseEnvelope statusResponseDomain renewalStatusResponse_field
        {| sr_Schema := statusResponseSchema; sr_Profile := statusProfile; sr_ReceiverID := sd_ReceiverID s; sr_RouteID := sd_RouteID s;
           sr_RelayOrigin := sd_RelayOrigin s; sr_ClientID := pr_ClientID p; sr_QuerySHA256 := digestText encoded;
           sr_PendingSHA256 := sq_PendingSHA256 req; sr_Generation := generation; sr_IssuedUnix := sq_CreatedUnix req;
           sr_ExpiresUnix := sq_ExpiresUnix req |} (signingPrivate secrets) MaxResponseSize);;
      pairing (sealAge px statusResponseCipher signed (sq_ResponseRecipient req) MaxResponseSize seed rand)
  end.
Definition RenewalStatus (rootPath : text) (encoded : list byte) (now : Z) (seed : list byte) (rand : reader)
    : IO (result receiver_err (list byte)) :=
  let now := truncated_time now in
  refuse is_zero now || bad_size encoded MaxRequestSize with RequestInvalid;;
  lockedState rootPath (renewal_status encoded now seed rand).

(** ** The pending code *)

Definition code_denied (s : stateRecord) (now : Z) : bool :=
  sd_LocalLocked s || bool_decide (is_Some (sd_Peer s)) || is_zero now
  || match sd_Attempt s with None => true | Some a => negb (before_unix now (at_ExpiresUnix a)) end.
Definition pendingCodeAttempt (s : stateRecord) (code : list byte) (now : Z) : result receiver_err Attempt :=
  reject code_denied s now with PendingUnavailable;;
  match sd_Attempt s, parseCode code with
  | Some a, Ok value =>
      reject negb (constantDigestEqual (digestText code) (at_CodeSHA256 a)) || negb (bool_decide (cp_ReceiverID value = sd_ReceiverID s))
          || negb (bool_decide (cp_AttemptID value = at_AttemptID a)) || negb (cp_ExpiresUnix value =? at_ExpiresUnix a)
          || negb (constantDigestEqual (cp_AdvertisementSHA256 value) (at_AdvertisementSHA256 a)) with PendingUnavailable;;
      match decodeBase64 (at_Advertisement a) with
      | Err _ => Err PendingUnavailable
      | Ok ad =>
          match parseAdvertisement px ad (truncated_time now) with
          | Err _ => Err PendingUnavailable
          | Ok (info, _) =>
              reject negb (bool_decide (av_ReceiverID info = sd_ReceiverID s)) || negb (bool_decide (av_AttemptID info = at_AttemptID a))
                  || negb (bool_decide (av_RelayOrigin info = sd_RelayOrigin s)) || negb (av_ExpiresUnix info =? cp_ExpiresUnix value)
                  || negb (constantDigestEqual (digestText ad) (cp_AdvertisementSHA256 value)) with PendingUnavailable;;
              Ok {| ap_Advertisement := ad; ap_Code := []; ap_ReceiverID := sd_ReceiverID s; ap_AttemptID := at_AttemptID a;
                    ap_Expires := instant_of (cp_ExpiresUnix value) |}
          end
      end
  | _, _ => Err PendingUnavailable
  end.
Definition retain_code (code : list byte) (now : Z) (root : Root) (s : stateRecord) : IO (result receiver_err ()) :=
  must _ := mret (pendingCodeAttempt s code now);;
  fs (EnsureFile root pendingCodeFile code 0x180).
Definition RetainPendingCode (rootPath : text) (code : list byte) (now : Z) : IO (result receiver_err ()) :=
  lockedState rootPath (retain_code code now).
Definition pending_code (now : Z) (root : Root) (s : stateRecord) : IO (result receiver_err Attempt) :=
  refuse code_denied s now with PendingUnavailable;;
  code ← ReadPrivateFile root pendingCodeFile MaxCodeSize;
  match code with
  | Err e => mret (Err (if is_errno ENOENT e then PendingUnavailable else RFs e))
  | Ok code =>
      must attempt := mret (pendingCodeAttempt s code now);;
      mret (Ok {| ap_Advertisement := ap_Advertisement attempt; ap_Code := code; ap_ReceiverID := ap_ReceiverID attempt;
                  ap_AttemptID := ap_AttemptID attempt; ap_Expires := ap_Expires attempt |})
  end.
Definition PendingCode (rootPath : text) (now : Z) : IO (result receiver_err Attempt) := lockedState rootPath (pending_code now).

(** ** [Initialize] *)

Definition initial_state (options : InitializeOptions) (receiverID routeID : text) : stateRecord := {|
  sd_Schema := stateSchema; sd_Profile := Profile; sd_Generation := 1; sd_ReceiverID := receiverID; sd_RouteID := routeID;
  sd_RelayOrigin := io_RelayOrigin options; sd_RelayServerSPKI := io_RelayServerSPKI options; sd_LocalLocked := false;
  sd_Attempt := None; sd_Peer := None; sd_RetiredCodeSHA256 := Some [] |}.
Definition ca_name (receiverID : text) (role : string) : text :=
  ascii_bytes "OwnTransit receiver " ++ receiverID ++ ascii_bytes " " ++ ascii_bytes role ++ ascii_bytes " CA".
Fixpoint create_files (root : Root) (l : list (text * list byte)) : IO (result receiver_err ()) :=
  match l with
  | [] => mret (Ok ())
  | (name, data) :: rest => must _ := fs (CreateExclusive root name data 0x180);; create_files root rest
  end.
(** Everything that is decided before the directory is made: the state, its bytes, the files. *)
Definition initialize (options : InitializeOptions) (d : init_draws)
    : result receiver_err (stateRecord * list byte * list (text * list byte)) :=
  let now := truncated_time (io_Now options) in
  reject is_zero now || bad_root (io_RootPath options) with RootInvalid;;
  reject negb (validateRelayOrigin px (io_RelayOrigin options)) with RPairing BadOrigin;;
  _ ← paired (identityPin (io_RelayServerSPKI options));
  let '(receiverID, rand) := if bool_decide (io_ReceiverID options = []) then random_id (in_rand d) else (Ok (io_ReceiverID options), in_rand d) in
  receiverID ← paired receiverID;
  reject negb (validateID receiverID) with RPairing BadIdentifier;;
  let '(routeID, _) := if bool_decide (io_RouteID options = []) then random_id rand else (Ok (io_RouteID options), rand) in
  routeID ← paired routeID;
  reject negb (validateRoute routeID) with RPairing BadRoute;;
  key ← paired (drawn (in_key d));
  '(identity, _) ← paired (drawn (in_identity d));
  outer ← paired (drawn (in_CA d (ca_name receiverID "outer endpoint")));
  connector ← paired (drawn (in_CA d (ca_name receiverID "inner connector")));
  client ← paired (drawn (in_CA d (ca_name receiverID "inner client")));
  let trust := {| tr_RelayServerSPKI := io_RelayServerSPKI options; tr_OuterEndpointCAPEM := CertPEM outer;
                  tr_InnerConnectorCAPEM := CertPEM connector; tr_InnerClientCAPEM := CertPEM client |} in
  _ ← paired (validateGeneratedTrust px trust (ed_public (pe_ed px) key) now);
  let s := initial_state options receiverID routeID in
  encoded ← encodeState s;
  Ok (s, encoded, [
    (receiverSigningKeyFile, signingPrivatePEM px key); (receiverAgeIdentityFile, identity ++ [newline]);
    (outerCACertFile, CertPEM outer); (outerCAKeyFile, KeyPEM outer);
    (innerConnectorCACertFile, CertPEM connector); (innerConnectorCAKeyFile, KeyPEM connector);
    (innerClientCACertFile, CertPEM client); (innerClientCAKeyFile, KeyPEM client)]).
(** The state file comes last, so that a directory without it is not a receiver. *)
Definition Initialize (options : InitializeOptions) (d : init_draws) : IO (result receiver_err ReceiverStatus) :=
  must prepared := mret (initialize options d);;
  let '(s, encoded, files) := prepared in
  must root := fs (CreateRoot (io_RootPath options));;
  deferring (closeRoot root)
    (must _ := create_files root files;;
     must _ := fs (CreateExclusive root stateFile encoded 0x180);;
     mret (Ok (statusFromState s))).
End Env.
