(* ===== verification/PairingMessages.v ===== *)
(** * One's own pairing messages

    The messages of a pairing as their makers and readers see them: what an attempt and a
    request are made of, and that each is read as it was made, at any time at which it is
    live. *)

From S2P Require Import Prelude GoIO Text Runes Sha256 Base64 Protocol Identifiers Signing PairToken EnrollRequest Invitation Identity StrictJson StrictJsonSafety Syscalls SecureFS JsonText PairingData PairingWire PairingWireSafety PairingClient PairingClientSafety PairingReceiver.
Open Scope Z_scope.

(** ** Decoding into a variable that is not zero *)

(** [openSigned] decodes again into the record that named the key. *)
Section Overwrite.
Context {R A : Type} (fields : list (setter_of R)) (name : string) (F : Field A) (get : R → A) (set : A → R → R).
Lemma assign_overwrite i a ms r :
  find_name (fst <$> fields) (ascii_bytes name) = Some i → fields !! i = Some (field_at name F get set) →
  assign (to_json a) (get r) = Some a →
  assign_members fields (member name F a ++ ms) r = assign_members fields ms (set a r).
Proof.
  intros Hi Hf Hg. cbn [member app assign_members]. unfold find_field. rewrite Hi. cbn [mbind option_bind]. rewrite Hf.
  cbn [fmap option_fmap option_map mbind option_bind field_at snd]. by rewrite Hg.
Qed.
End Overwrite.
Lemma overwrite_text (t old : text) : assign (to_json t) old = Some t.
Proof. done. Qed.
Lemma overwrite_int z old : int64 z → @assign _ (int_field 64) (@to_json _ (int_field 64) z) old = Some z.
Proof. intros Hz. exact (field_assign (F := int_field 64) z Hz). Qed.
Ltac overwrite_record :=
  repeat match goal with
  | |- context [assign_members ?fs (member ?n ?F ?a ++ ?ms) ?r] =>
      let i := eval vm_compute in (default O (find_name (fst <$> fs) (ascii_bytes n))) in
      erewrite (assign_overwrite fs n F _ _ i a ms r); [|vm_compute; reflexivity|reflexivity|solve [reflexivity|by apply overwrite_int|assumption]];
      cbv beta; lawful_record
  end; reflexivity.
Lemma overwrite_Trust (t old : PairingData.Trust) : assign (to_json t) old = Some t.
Proof. destruct t, old. cbn [Trust_field to_json assign assign_struct]. overwrite_record. Qed.
Lemma overwrite_advertisement (a old : advertisementPayload) : advertisementPayload_wf a → assign (to_json a) old = Some a.
Proof.
  intros Ha. hnf in Ha. destruct_and? Ha. pose proof (overwrite_Trust (av_Trust a) (av_Trust old)). destruct a, old.
  cbn [advertisementPayload_field to_json assign assign_struct]. overwrite_record.
Qed.
Lemma overwrite_request (r old : requestPayload) : requestPayload_wf r → assign (to_json r) old = Some r.
Proof.
  intros Hr. hnf in Hr. destruct_and? Hr. destruct r, old. cbn [requestPayload_field to_json assign assign_struct]. overwrite_record.
Qed.
Lemma DecodeInto_over {A} (F : Field A) wf `{!LawfulField F wf} a old :
  wf a → field_height <= maxNestingDepth → assign (to_json a) old = Some a → DecodeInto F (Marshal F a) old = Some a.
Proof.
  intros Ha Hh Hold. unfold DecodeInto, Marshal. assert (printable 0 (to_json a)) as Hp by (by apply field_printable; [|lia]).
  pose proof (parse_print _ [] Hp ltac:(constructor)) as Hj. rewrite app_nil_r in Hj.
  rewrite bool_decide_eq_false_2, (Is_true_true_1 _ (print_valid _ _ Hp)), Hj.
  - cbn [negb orb mbind option_bind]. unfold rejectDuplicateKeys. by rewrite field_keys.
  - intros E. pose proof (print_starts _ _ [] Hp) as Hs. by rewrite app_nil_r, E in Hs.
Qed.

(** ** Clocks *)

(** An instant at a whole second, far from the ends of 64-bit time. *)
Definition sane (t : Z) : Prop := 0 < t < 2 ^ 61.
Lemma sane_unix t : sane t → unix_time t = t + unixToInternal.
Proof. unfold sane, unix_time, wrap64, unixToInternal. intros H. rewrite Z.mod_small; lia. Qed.
Lemma truncated_second t : truncated_time (t * Second) = t * Second.
Proof. unfold truncated_time, unix_sec. by rewrite Z.div_mul by done. Qed.
Lemma Unix_second t : sane t → Unix (t * Second) = t.
Proof. unfold Unix, unix_sec, sane, wrap64. intros H. rewrite Z.div_mul by done. rewrite Z.mod_small; lia. Qed.
Lemma before_second t s : sane s → before_unix (t * Second) s = (t <? s).
Proof.
  intros Hs. unfold before_unix, now_before. rewrite sane_unix by done. unfold Second, unixToInternal.
  destruct (Z.ltb_spec t s); [apply Z.ltb_lt|apply Z.ltb_ge]; lia.
Qed.
Lemma second_not_zero t : sane t → is_zero (t * Second) = false.
Proof. unfold sane, is_zero, unixToInternal, Second. intros H. apply Z.eqb_neq. lia. Qed.
Lemma window_second c e t m : sane t → sane c → sane e → validateWindow c e (t * Second) m = Ok () ↔
  c < e ∧ e - c <= m / Second ∧ c - 300 <= t < e.
Proof.
  intros Ht Hc He. unfold validateWindow. rewrite before_second, second_not_zero by done. unfold now_before, five_minutes_before.
  rewrite sane_unix by done. rewrite (proj2 (Z.ltb_ge (c + unixToInternal - 300) _)) by (unfold sane, unixToInternal in *; lia).
  rewrite (proj2 (Z.leb_gt _ _)) by apply Hc. cbn [orb].
  destruct (Z.leb_spec e c), (Z.ltb_spec (m / Second) (e - c)); cbn [orb mbind result_bind]; try (split; [done|lia]).
  destruct (Z.ltb_spec t e); cbn [negb]; rewrite ?orb_true_r, ?orb_false_r; [|split; [done|lia]].
  unfold unixToInternal, Second in *. destruct (Z.ltb_spec (t * 1000000000 + 62135596800 * 1000000000) ((c + 62135596800 - 300) * 1000000000)); split; (done || lia).
Qed.
Lemma window_long c e now m : m / Second < e - c → is_ok (validateWindow c e now m) = false.
Proof. intros H. unfold validateWindow. by rewrite (proj2 (Z.ltb_lt _ _) H), orb_true_r. Qed.

Section Env.
Context (x : receiver_env) (Hlaw : pairing_law (rv_pairing x)).
#[local] Notation px := (rv_pairing x).

(** ** The attempt *)

(** What the secrets of a receiver are to each other. *)
Record own_secrets (k : receiverSecrets) : Prop := {
  os_private : generated (pe_ed px) (signingPrivate k);
  os_public : signingPublic k = signingPublicPEM px (ed_public (pe_ed px) (signingPrivate k));
  os_age : identity_text px (ageIdentity k) = Some (ageIdentity k, ageRecipient k);
  os_trust : Trust_wf (trust k) }.
Definition signer (k : receiverSecrets) : list byte := ed_public (pe_ed px) (signingPrivate k).
Definition advertised (k : receiverSecrets) (s : stateRecord) (attemptID : text) (created expires : Z) : advertisementPayload := {|
  av_Schema := advertisementSchema; av_Profile := Profile; av_ReceiverID := sd_ReceiverID s; av_RouteID := sd_RouteID s;
  av_RelayOrigin := sd_RelayOrigin s; av_AttemptID := attemptID; av_CreatedUnix := created; av_ExpiresUnix := expires;
  av_ReceiverSigningPublic := signingPublic k; av_ReceiverAgeRecipient := ageRecipient k; av_Trust := trust k |}.
Definition pending (attemptID : text) (expires : Z) (advertisement code : list byte) : attemptRecord := {|
  at_AttemptID := attemptID; at_ExpiresUnix := expires; at_Advertisement := StdEncode advertisement;
  at_AdvertisementSHA256 := digestText advertisement; at_CodeSHA256 := digestText code |}.
Lemma new_attempt_made k s now validity rand s1 attempt :
  new_attempt x k s now validity rand = Ok (s1, attempt) →
  ∃ id secret, plain id ∧ length secret = secretSize
    ∧ (let ad := advertised k s id (Unix now) (Unix (now + validity)) in
       signPayload px advertEnvelopeSchema advertisementDomain advertisementPayload_field ad (signingPrivate k) MaxAdvertisementSize
         = Ok (ap_Advertisement attempt)
       ∧ encodeCode (code_of ad (ap_Advertisement attempt) secret) = Ok (ap_Code attempt))
    ∧ s1 = started s (pending id (Unix (now + validity)) (ap_Advertisement attempt) (ap_Code attempt))
    ∧ ap_ReceiverID attempt = sd_ReceiverID s ∧ ap_AttemptID attempt = id ∧ ap_Expires attempt = now + validity.
Proof.
  unfold new_attempt, random_id. destruct (randomID rand) as [[id|] r]; [|done]. cbn [paired mbind result_bind]. intros H. ok_inv H.
  destruct (signPayload _ _ _ _ _ _ _) as [ad|] eqn:Es; [|done]. cbn [paired] in E. apply Ok_inj in E as ->.
  destruct (read_full secretSize r) as [[secret|] r'] eqn:Er; [|done]. cbn [fst] in H. ok_inv H.
  destruct (encodeCode _) as [code|] eqn:Ec; [|done]. cbn [paired] in E. apply Ok_inj in E as ->. apply Ok_inj in H.
  pose proof (f_equal fst H) as H1. pose proof (f_equal snd H) as H2. cbn [fst snd] in H1, H2. subst s1 attempt.
  apply read_full_ok in Er as [Hl _]. exists (ID_String id), secret. split_and!; first [reflexivity|assumption|apply plain_formatID].
Qed.

(** The same, forwards. *)
Lemma attempt_makes k s now validity rand id secret r advertisement code :
  let ad := advertised k s id (Unix now) (Unix (now + validity)) in
  random_id rand = (Ok id, r) → (read_full secretSize r).1 = Ok secret →
  signPayload px advertEnvelopeSchema advertisementDomain advertisementPayload_field ad (signingPrivate k) MaxAdvertisementSize = Ok advertisement →
  encodeCode (code_of ad advertisement secret) = Ok code →
  new_attempt x k s now validity rand = Ok (started s (pending id (Unix (now + validity)) advertisement code),
    {| ap_Advertisement := advertisement; ap_Code := code; ap_ReceiverID := sd_ReceiverID s; ap_AttemptID := id; ap_Expires := now + validity |}).
Proof.
  intros ad Hr Hs Ha Hc. unfold new_attempt. rewrite Hr. cbn [paired mbind result_bind]. unfold ad, advertised in Ha. rewrite Ha. cbn [paired mbind result_bind].
  rewrite Hs. unfold ad, code_of in Hc. cbn [advertised av_ReceiverID av_AttemptID av_ExpiresUnix] in Hc. by rewrite Hc.
Qed.

(** ** Reading one's own messages *)

Lemma own_key pem private :
  generated (pe_ed px) private → pem = signingPublicPEM px (ed_public (pe_ed px) private) →
  public_key px pem = Ok (ed_public (pe_ed px) private).
Proof. intros Hp ->. unfold public_key. by rewrite (pl_public _ Hlaw) by apply (ed_public_size _ (pl_ed _ Hlaw)), (generated_size _ _ (pl_ed _ Hlaw) Hp). Qed.
Lemma read_advertisement a private b now :
  advertisementPayload_wf a → generated (pe_ed px) private →
  av_ReceiverSigningPublic a = signingPublicPEM px (ed_public (pe_ed px) private) →
  signPayload px advertEnvelopeSchema advertisementDomain advertisementPayload_field a private MaxAdvertisementSize = Ok b →
  parseAdvertisement px b now =
    (let public := ed_public (pe_ed px) private in
     reject negb (advertisement_fields px a public now) with AdvertisementFields;;
     reject negb (validateID (av_AttemptID a)) with BadIdentifier;;
     reject negb (canonical_recipient px (av_ReceiverAgeRecipient a)) with RecipientInvalid;;
     Ok (a, public)).
Proof.
  intros Ha Hp Hk Hs. destruct (open_signed px advertisementPayload_field advertEnvelopeSchema advertisementDomain a private
    MaxAdvertisementSize MaxAdvertisementSize b (pl_ed _ Hlaw) Hp (plain_const advertEnvelopeSchema eq_refl) ltac:(done) Hs) as (sig & Hd & Ho).
  unfold parseAdvertisement. rewrite Hd. cbn [mbind result_bind sg_Schema sg_Payload]. rewrite bool_decide_eq_true_2 by done. cbn [negb].
  rewrite decodeBase64_encode. cbn [mbind result_bind].
  rewrite (Decode_printed advertisementPayload_field advertisementPayload_wf a Ha) by (by vm_compute).
  rewrite bool_decide_eq_true_2 by done. cbn [negb mbind result_bind]. rewrite (own_key _ _ Hp Hk). cbn [mbind result_bind].
  rewrite Ho; [done|]. apply (DecodeInto_over advertisementPayload_field advertisementPayload_wf); [done|by vm_compute|by apply overwrite_advertisement].
Qed.
Lemma read_code c b c' : codePayload_wf c → encodeCode c = Ok b → parseCode b = Ok c' → c' = c.
Proof.
  intros Hc He H. unfold encodeCode in He. ok_inv He. apply Ok_inj in He as <-. unfold parseCode in H. ok_inv H.
  rewrite (proj2 (CutPrefix_Some _ _ _) eq_refl), RawURLDecode_Encode in H. ok_inv H.
  rewrite (Decode_printed codePayload_field codePayload_wf c Hc) in H by (by vm_compute). ok_inv H. by apply Ok_inj in H.
Qed.
Lemma code_plain c b : encodeCode c = Ok b → plain b.
Proof.
  intros He. unfold encodeCode in He. ok_inv He. apply Ok_inj in He as <-. apply plain_app; [by apply plain_const|apply plain_RawURLEncode].
Qed.
Lemma read_request q private b recipient seed rand encoded identity now :
  requestPayload_wf q → generated (pe_ed px) private →
  rq_PairingPublicKeyPEM q = signingPublicPEM px (ed_public (pe_ed px) private) →
  signPayload px requestEnvelopeSchema requestDomain requestPayload_field q private MaxRequestSize = Ok b →
  identity_text px identity = Some (identity, recipient) → sealAge px requestCipherSchema b recipient MaxRequestSize seed rand = Ok encoded →
  openPairRequest px encoded identity now =
    (reject negb (request_fields px q now) with RequestFields;;
     reject negb (canonical_recipient px (rq_ResponseRecipient q)) with RecipientInvalid;;
     code ← parseCode (rq_Code q);
     publicPayload ← public_payload (rq_PublicPayload q) RequestPayloadInvalid;
     Ok (q, ed_public (pe_ed px) private, code, publicPayload)).
Proof.
  intros Hq Hp Hk Hs Hi Hsl. destruct (open_signed px requestPayload_field requestEnvelopeSchema requestDomain q private
    MaxRequestSize MaxRequestSize b (pl_ed _ Hlaw) Hp (plain_const requestEnvelopeSchema eq_refl) ltac:(done) Hs) as (sig & Hd & Ho).
  unfold openPairRequest. rewrite (open_padded px requestCipherSchema b identity recipient MaxRequestSize MaxRequestSize seed rand encoded Hlaw (plain_const requestCipherSchema eq_refl) ltac:(done) Hi Hsl).
  cbn [mbind result_bind]. rewrite Hd. cbn [mbind result_bind sg_Payload]. rewrite decodeBase64_encode. cbn [mbind result_bind].
  rewrite (Decode_printed requestPayload_field requestPayload_wf q Hq) by (by vm_compute). rewrite (own_key _ _ Hp Hk). cbn [mbind result_bind].
  rewrite Ho; [done|]. apply (DecodeInto_over requestPayload_field requestPayload_wf); [done|by vm_compute|by apply overwrite_request].
Qed.
Lemma read_response p private recipient seed rand encoded identity now :
  responsePayload_wf p → generated (pe_ed px) private → identity_text px identity = Some (identity, recipient) →
  makeResponse px p recipient private seed rand = Ok encoded →
  openPairResponse px encoded identity (ed_public (pe_ed px) private) now =
    (reject negb (response_fields px p now) with ResponseFields;;
     _ ← (if bool_decide (rp_Kind p = pair)
          then reject negb (validateID (rp_AttemptID p)) || negb (rp_CredentialGeneration p =? 1) with InitialFields;; Ok ()
          else reject negb (bool_decide (rp_AttemptID p = [])) || (rp_CredentialGeneration p <? 2) with RenewedFields;; Ok ());
     _ ← public_key px (rp_PairingPublicKeyPEM p);
     match decodeBase64 (rp_Authorization p) with
     | Err _ => Err AuthorizationInvalid
     | Ok authorization => reject bad_size authorization MaxAuthorizationSize with AuthorizationInvalid;; Ok (p, authorization)
     end).
Proof.
  intros Hwf Hp Hi H. unfold makeResponse in H. ok_inv H. unfold openPairResponse, openPairResponseMode.
  rewrite (open_padded px responseCipherSchema a identity recipient MaxResponseSize MaxResponseSize seed rand encoded Hlaw (plain_const responseCipherSchema eq_refl) ltac:(done) Hi H).
  destruct (open_signed px responsePayload_field responseEnvelopeSchema responseDomain p private
    MaxResponseSize MaxResponseSize a (pl_ed _ Hlaw) Hp (plain_const responseEnvelopeSchema eq_refl) ltac:(done) E) as (sig & Hd & Ho).
  cbn [mbind result_bind]. rewrite Ho; [done|]. rewrite DecodeInto_zero. by apply (Decode_printed responsePayload_field responsePayload_wf).
Qed.

(** ** The request *)

Definition request_expiry (ad : advertisementPayload) (now validity : Z) : Z :=
  if av_ExpiresUnix ad <? Unix (now + validity) then av_ExpiresUnix ad else Unix (now + validity).
Definition requested (ad : advertisementPayload) (advertisement code : list byte) (clientID nonce : text) (now validity : Z)
    (key : list byte) (recipient : text) (payload : list byte) : requestPayload := {|
  rq_Schema := requestSchema; rq_Profile := Profile; rq_ReceiverID := av_ReceiverID ad; rq_RouteID := av_RouteID ad;
  rq_RelayOrigin := av_RelayOrigin ad; rq_AttemptID := av_AttemptID ad; rq_AdvertisementSHA256 := digestText advertisement;
  rq_ClientID := clientID; rq_Nonce := nonce; rq_CreatedUnix := Unix now; rq_ExpiresUnix := request_expiry ad now validity;
  rq_PairingPublicKeyPEM := signingPublicPEM px (ed_public (pe_ed px) key); rq_ResponseRecipient := recipient;
  rq_PublicPayload := StdEncode payload; rq_Code := code |}.
Definition kept_material (ad : advertisementPayload) (advertisement encrypted : list byte) (clientID : text) (key : list byte)
    (identity : text) : ClientMaterial := {|
  cm_receiverID := av_ReceiverID ad; cm_routeID := av_RouteID ad; cm_relayOrigin := av_RelayOrigin ad; cm_attemptID := av_AttemptID ad;
  cm_advertisementSHA := digestText advertisement; cm_clientID := clientID; cm_requestSHA := digestText encrypted;
  cm_pairingPrivate := signingPrivatePEM px key; cm_responseIdentity := identity; cm_receiverPublic := av_ReceiverSigningPublic ad;
  cm_receiverRecipient := av_ReceiverAgeRecipient ad; cm_request := encrypted |}.
(** The second identifier that a call draws is its nonce. *)
Definition drawn_nonce (d : draws) : result pairing_err text := (random_id (random_id (dr_rand d)).2).1.

Lemma request_made options build d cr now :
  co_Now options = now → truncated_time now = now → CreateRequestWithPayload px options build d = Ok cr →
  ∃ ad public code clientID nonce key identity recipient payload signed rest,
    parseAdvertisement px (co_Advertisement options) now = Ok (ad, public)
    ∧ parseCode (co_Code options) = Ok code ∧ code_binds code ad (co_Advertisement options) now = true
    ∧ av_RelayOrigin ad = co_RelayOrigin options ∧ co_Validity options <= MaxMessageValidity
    ∧ plain clientID ∧ plain nonce ∧ drawn_nonce d = Ok nonce ∧ dr_key d = Some key ∧ dr_identity d = Some (identity, recipient)
    ∧ build_payload build {| ci_ReceiverID := av_ReceiverID ad; ci_RouteID := av_RouteID ad; ci_RelayOrigin := av_RelayOrigin ad;
        ci_ClientID := clientID; ci_CredentialGeneration := 1 |} = Ok payload
    ∧ Z.of_nat (length payload) <= MaxAuthorizationSize
    ∧ signPayload px requestEnvelopeSchema requestDomain requestPayload_field
        (requested ad (co_Advertisement options) (co_Code options) clientID nonce now (co_Validity options) key recipient payload) key MaxRequestSize = Ok signed
    ∧ sealAge px requestCipherSchema signed (av_ReceiverAgeRecipient ad) MaxRequestSize (dr_seed d) rest = Ok (cr_Encrypted cr)
    ∧ cr_Material cr = kept_material ad (co_Advertisement options) (cr_Encrypted cr) clientID key identity
    ∧ validateClientMaterial px (cr_Material cr) = Ok ().
Proof.
  intros <- Ht H. unfold CreateRequestWithPayload in H. rewrite Ht in H. ok_inv H. destruct a as [ad public]. ok_inv H.
  destruct (random_id (dr_rand d)) as [id1 r1] eqn:Hr1. ok_inv H. destruct (random_id r1) as [id2 r2] eqn:Hr2. ok_inv H.
  destruct (dr_key d) as [key|] eqn:Hkey; [|done]. destruct (dr_identity d) as [[identity recipient]|] eqn:Ei; [|done].
  repeat match goal with E : drawn (Some _) = Ok _ |- _ => apply Ok_inj in E as <- end. ok_inv H. apply Ok_inj in H as <-. bool_prop.
  subst. eexists ad, public, _, _, _, key, identity, recipient, _, _, r2. split_and!; try first [eassumption|reflexivity].
  - by eapply random_id_plain.
  - by eapply random_id_plain.
  - unfold drawn_nonce. rewrite Hr1. cbn [snd]. by rewrite Hr2.
  - match goal with H : validateClientMaterial _ _ = Ok ?u |- _ => by destruct u end.
Qed.
(** The same, forwards. *)
Lemma request_makes options build d now ad public code clientID nonce key identity recipient payload signed encrypted r1 r2 :
  co_Now options = now → truncated_time now = now → is_zero now = false → 0 < co_Validity options <= MaxMessageValidity →
  validateRelayOrigin px (co_RelayOrigin options) = true →
  parseAdvertisement px (co_Advertisement options) now = Ok (ad, public) → av_RelayOrigin ad = co_RelayOrigin options →
  parseCode (co_Code options) = Ok code → code_binds code ad (co_Advertisement options) now = true →
  random_id (dr_rand d) = (Ok clientID, r1) → random_id r1 = (Ok nonce, r2) → dr_key d = Some key → dr_identity d = Some (identity, recipient) →
  build_payload build {| ci_ReceiverID := av_ReceiverID ad; ci_RouteID := av_RouteID ad; ci_RelayOrigin := av_RelayOrigin ad;
    ci_ClientID := clientID; ci_CredentialGeneration := 1 |} = Ok payload →
  Z.of_nat (length payload) <= MaxAuthorizationSize →
  signPayload px requestEnvelopeSchema requestDomain requestPayload_field
    (requested ad (co_Advertisement options) (co_Code options) clientID nonce now (co_Validity options) key recipient payload) key MaxRequestSize = Ok signed →
  sealAge px requestCipherSchema signed (av_ReceiverAgeRecipient ad) MaxRequestSize (dr_seed d) r2 = Ok encrypted →
  let material := kept_material ad (co_Advertisement options) encrypted clientID key identity in
  validateClientMaterial px material = Ok () →
  CreateRequestWithPayload px options build d = Ok {| cr_Encrypted := encrypted; cr_Material := material |}.
Proof.
  intros <- Ht Hz [Hv1 Hv2] Ho Hpa Hor Hpc Hcb Hr1 Hr2 Hk Hi Hb Hsz Hsg Hsl material Hm. unfold CreateRequestWithPayload.
  rewrite Ht, Hz, (proj2 (Z.leb_gt _ _) Hv1), (proj2 (Z.ltb_ge _ _) Hv2), Ho. cbn [negb orb]. rewrite Hpa. cbn [mbind result_bind].
  rewrite Hor, bool_decide_eq_true_2 by done. cbn [negb]. rewrite Hpc. cbn [mbind result_bind]. rewrite Hcb. cbn [negb].
  rewrite Hr1. cbn [mbind result_bind]. rewrite Hr2. cbn [mbind result_bind]. rewrite Hk, Hi. cbn [drawn mbind result_bind].
  rewrite Hor in Hb. rewrite Hb. cbn [mbind result_bind]. rewrite (proj2 (Z.ltb_ge _ _) Hsz).
  unfold requested in Hsg. rewrite Hor in Hsg. unfold request_expiry in Hsg. rewrite Hsg. cbn [mbind result_bind]. rewrite Hsl. cbn [mbind result_bind].
  unfold material, kept_material in *. rewrite Hor in *. by rewrite Hm.
Qed.
End Env.
