(* ===== verification/PairingDemo.v ===== *)
(** * A concrete pairing

    An instance of the parameters of [PairingWire], and a paired receiver: the inputs of the
    witnesses. Its keys are written in hexadecimal; its cipher drops the zeros at the end
    of the plaintext and notes how many there were. *)

From stdpp Require Import sorting.
From S2P Require Import Prelude GoIO Text Runes Sha256 Base64 Protocol Identifiers Signing PairToken EnrollRequest Invitation Identity StrictJson StrictJsonSafety JsonText PairingData PairingWire PairingWireSafety PairingClient PairingReceiver.
Open Scope Z_scope.

Definition demo_origin : text := ascii_bytes "wss://relay.example/connects".
Definition demo_relay : URL := {|
  Scheme := ascii_bytes "wss"; Host := ascii_bytes "relay.example"; Hostname := ascii_bytes "relay.example"; Port := []; has_User := false;
  RawQuery := []; Fragment := []; ForceQuery := false; Opaque_part := []; RawPath := []; Path := ascii_bytes "/connects";
  url_String := demo_origin |}.
(** A list without the zeros at its end, and their number. *)
Fixpoint strip (l : list byte) : list byte * nat :=
  match l with
  | [] => ([], O)
  | b :: l => match strip l with
              | ([], n) => if bool_decide (b = Byte.x00) then ([], S n) else ([b], n)
              | (k, n) => (b :: k, n)
              end
  end.
Lemma strip_back l : (strip l).1 ++ replicate (strip l).2 Byte.x00 = l.
Proof.
  induction l as [|b l IH]; [done|]. cbn [strip]. destruct (strip l) as [[|a k] n]; cbn [fst snd app] in *; [|by rewrite <-IH].
  case_bool_decide; cbn; by rewrite <-IH; subst.
Qed.
Lemma strip_zeros k b n : b ≠ Byte.x00 → strip (k ++ [b] ++ replicate n Byte.x00) = (k ++ [b], n).
Proof.
  intros Hb. assert (strip (replicate n Byte.x00) = ([], n)) as Hn by (induction n as [|n IH]; [done|]; cbn [replicate strip]; by rewrite IH).
  induction k as [|a k IH]; cbn [app strip].
  - cbn in Hn. rewrite Hn. by rewrite bool_decide_eq_false_2.
  - cbn [app] in IH. rewrite IH. by destruct k.
Qed.
Definition demo_encrypt (padded : list byte) : option (list byte) :=
  let '(k, n) := strip padded in if 2 ^ 64 <=? Z.of_nat n then None else Some (be_put 8 (Z.of_nat n) ++ k).
Definition demo_decrypt (ciphertext : list byte) (n : Z) : option (list byte) :=
  Some (take (Z.to_nat n) (drop 8 ciphertext ++ replicate (Z.to_nat (be_get (take 8 ciphertext))) Byte.x00)).
Definition demo_key (size : nat) (pem : list byte) : option (list byte) :=
  match hex_decode pem with Some k => if (length k =? size)%nat then Some k else None | None => None end.
Definition demo_pairing : pairing_env := {|
  pe_ed := demo_ed; ParsePublic := demo_key PublicKeySize; ParsePrivate := demo_key PrivateKeySize;
  signingPublicPEM := hex_encode; signingPrivatePEM := hex_encode;
  parse_origin t := if bool_decide (t = demo_origin) then Some demo_relay else None;
  recipient_text t := if ValidString t then Some t else None; identity_text t := if ValidString t then Some (t, t) else None; encrypt _ _ := demo_encrypt; decrypt _ := demo_decrypt;
  authorities_ok _ _ _ := true |}.
Definition demo_receiver : receiver_env := {| rv_pairing := demo_pairing; ParseIssuer c k _ := Some {| CertPEM := c; KeyPEM := k |} |}.
Lemma demo_pairing_law : pairing_law demo_pairing.
Proof.
  split; cbn [pe_ed ParsePublic ParsePrivate signingPublicPEM signingPrivatePEM encrypt decrypt demo_pairing].
  - exact demo_ed_law.
  - intros k Hk. unfold demo_key. by rewrite hex_decode_encode, Hk, Nat.eqb_refl.
  - intros pem k. unfold demo_key. destruct (hex_decode pem) as [k'|]; [|done]. destruct (_ =? _)%nat eqn:E; [|done].
    intros [= <-]. by apply Nat.eqb_eq.
  - intros k. apply plain_valid, plain_hex.
  - intros t u. cbn [parse_origin demo_pairing]. case_bool_decide; [|done]. intros <-%Some_inj _ _. by vm_compute.
  - intros t r. cbn [recipient_text demo_pairing]. destruct (ValidString t) eqn:E; [|done]. intros <-%Some_inj. by rewrite E.
  - intros t i r. cbn [identity_text recipient_text demo_pairing]. destruct (ValidString t) eqn:E; [|done]. intros [= <- <-]. by rewrite E.
  - intros k Hk%(generated_size _ _ demo_ed_law). unfold demo_key. by rewrite hex_decode_encode, Hk, Nat.eqb_refl.
  - intros identity recipient _ padded ciphertext n _. unfold demo_encrypt, demo_decrypt. pose proof (strip_back padded) as Hs.
    destruct (strip padded) as [k m]. cbn [fst snd] in Hs. case_guard G; [done|]. apply Z.leb_gt in G. intros <-%Some_inj.
    rewrite (take_app_length' (be_put 8 (Z.of_nat m)) k), (drop_app_length' (be_put 8 (Z.of_nat m)) k) by by rewrite length_be_put. rewrite be_get_put, Z.mod_small, Nat2Z.id by lia.
    by rewrite Hs.
Qed.

(** ** A paired receiver *)

Definition demo_id (n : Z) : text := formatID (replicate 31 Byte.x00 ++ [z2b n]).
Definition demo_digest : text := hex_encode (replicate 32 Byte.x07).
Definition demo_pin : text := FormatSPKIPin (arr_copy Size (replicate 32 Byte.x07)).
Definition demo_peer : peerRecord := {|
  pr_Authorization := Some [Byte.x01]; pr_ClientID := demo_id 3; pr_PairingPublicKeyPEM := hex_encode (replicate 32 Byte.x05);
  pr_AttemptID := demo_id 4; pr_InitialRequestSHA256 := demo_digest; pr_InitialResponse := StdEncode [Byte.x02];
  pr_CredentialGeneration := 1; pr_Locked := false; pr_Revoked := false; pr_LastRenewalRequestSHA256 := []; pr_LastRenewalResponse := [] |}.
Definition demo_initial : stateRecord := {|
  sd_Schema := stateSchema; sd_Profile := Profile; sd_Generation := 1; sd_ReceiverID := demo_id 1; sd_RouteID := demo_id 2;
  sd_RelayOrigin := demo_origin; sd_RelayServerSPKI := demo_pin; sd_LocalLocked := false; sd_Attempt := None; sd_Peer := None;
  sd_RetiredCodeSHA256 := Some [] |}.
Definition demo_paired : stateRecord := demo_initial <| sd_Generation := 3 |> <| sd_Peer := Some demo_peer |>.
Definition demo_bytes : list byte := Eval vm_compute in match encodeState demo_receiver demo_paired with Ok b => b | Err _ => [] end.
Lemma demo_encoded : encodeState demo_receiver demo_paired = Ok demo_bytes.
Proof. vm_compute. reflexivity. Qed.
Lemma demo_paired_wf : stateRecord_wf demo_paired.
Proof.
  unfold stateRecord_wf, uint64. cbn [demo_paired demo_initial sd_Schema sd_Profile sd_Generation sd_ReceiverID sd_RouteID sd_RelayOrigin sd_RelayServerSPKI sd_Attempt sd_Peer sd_RetiredCodeSHA256 pointed elems default].
  split_and!; [by vm_compute..|].
  constructor.
Qed.
