(* ===== verification/PairingStore.v ===== *)
(** * The durable state of a receiver

    The client of [DirectoryView] for [PairingReceiver]: every critical section of a receiver
    leaves in its state file the state it found or the result of one of the transitions of
    [step], wherever it is killed; so what holds along the transitions holds of the directory. *)

From S2P Require Import Prelude GoIO Text Runes Sha256 Base64 Protocol Identifiers Signing PairToken EnrollRequest Invitation Identity StrictJson StrictJsonSafety Syscalls SecureFS CrashLogic SecureFSSafety KernelDemo DirectoryView JsonText PairingData PairingWire PairingWireSafety PairingClient PairingClientSafety PairingReceiver PairingDemo.
Open Scope Z_scope.

Section Env.
Context (x : receiver_env).
#[local] Notation px := (rv_pairing x).

(** ** Transitions *)

(** The changes of [updateState]. *)
Inductive change := ChangeLocal (locked : bool) | Retire (expectedPeer : text) | ChangePeer (locked : bool) | Revoke.
Definition apply_change (c : change) : stateRecord → result receiver_err stateRecord :=
  match c with
  | ChangeLocal locked => set_local locked
  | Retire expectedPeer => retire expectedPeer
  | ChangePeer locked => set_peer locked
  | Revoke => revoke
  end.
(** What the methods may do to a state that is not exhausted: which transition, and its guards. *)
Inductive step (s : stateRecord) : stateRecord → Prop :=
| step_started a :
    sd_LocalLocked s = false → sd_Peer s = None → sd_Generation s ≠ maxGeneration → step s (started s a)
| step_cancelled a : sd_Attempt s = Some a → sd_Generation s ≠ maxGeneration → step s (cancelled s a)
| step_claimed a request publicKey authorization response requestSHA :
    sd_LocalLocked s = false → sd_Peer s = None → sd_Attempt s = Some a → sd_Generation s ≠ maxGeneration →
    digestText (rq_Code request) = at_CodeSHA256 a → rq_AttemptID request = at_AttemptID a →
    step s (claimed x s a request publicKey authorization response requestSHA)
| step_renewed p renewal authorization response requestSHA :
    sd_LocalLocked s = false → sd_Peer s = Some p → pr_Locked p = false → pr_Revoked p = false → sd_Generation s ≠ maxGeneration →
    rn_CredentialGeneration renewal = wrapu64 (pr_CredentialGeneration p + 1) → 2 <= rn_CredentialGeneration renewal →
    step s (renewed s p renewal authorization response requestSHA)
| step_changed c s' :
    apply_change c s = Ok s' → sd_Generation s ≠ maxGeneration → step s (s' <| sd_Generation := wrapu64 (sd_Generation s' + 1) |>).

(** The methods that take the lock, and what they do with the state: results aside, programs
    of one type. *)
Inductive method :=
| MAuthority (now : Z) | MTrust (now : Z) | MAdvertisement (now : Z)
| MCreate (now validity : Z) (rand : reader) | MCancel | MChange (c : change)
| MClaim (encoded : list byte) (now : Z) (issue : IssueFunc) (seed : list byte) (rand : reader)
| MRenew (encoded : list byte) (now : Z) (issue : IssueFunc) (seed : list byte) (rand : reader)
| MStatus (encoded : list byte) (now : Z) (seed : list byte) (rand : reader)
| MRetain (code : list byte) (now : Z) | MPending (now : Z).
Definition erase {A} (m : IO (result receiver_err A)) : IO (result receiver_err ()) :=
  r ← m; mret (match r with Ok _ => Ok () | Err e => Err e end).
Definition section_of (m : method) (root : Root) (s : stateRecord) : IO (result receiver_err ()) :=
  match m with
  | MAuthority now => erase (load_authority x now root s)
  | MTrust now => erase (public_trust x now root s)
  | MAdvertisement now => erase (current_advertisement x now root s)
  | MCreate now validity rand => erase (create_attempt x now validity rand root s)
  | MCancel => erase (cancel_attempt x root s)
  | MChange c => erase (update_state x (apply_change c) root s)
  | MClaim encoded now issue seed rand => erase (claim x encoded now issue seed rand root s)
  | MRenew encoded now issue seed rand => erase (renew_peer x encoded now issue seed rand root s)
  | MStatus encoded now seed rand => erase (renewal_status x encoded now seed rand root s)
  | MRetain code now => erase (retain_code x code now root s)
  | MPending now => erase (pending_code x now root s)
  end.

(** ** The bytes of a state *)

Lemma decode_encode_state s b : stateRecord_wf s → encodeState x s = Ok b → decodeState x b = Ok s.
Proof.
  intros Hw H. unfold encodeState in H. ok_inv H. unfold decodeState.
  destruct (encodeCanonical stateRecord_field s maxStateSize) as [b'|] eqn:Ec; [|done]. cbn [paired] in H. apply Ok_inj in H as ->.
  rewrite (decode_encode_canonical stateRecord_field stateRecord_wf s b maxStateSize Hw) by (done || by vm_compute).
  cbn [paired mbind result_bind]. by rewrite E.
Qed.

(** The state file of a world holds a state. *)
Definition state_file (w : world) (c : option (list byte)) : Prop := ∃ v, visible w v ∧ v !! stateFile = c.
Definition stores (w : world) (s : stateRecord) : Prop := ∃ b, state_file w (Some b) ∧ decodeState x b = Ok s.

(** ** Well-formed successors *)

Lemma retired_wf l t : Forall (λ t, ValidString t) (elems l) → ValidString t → Forall (λ t, ValidString t) (elems (appendRetiredCode l t)).
Proof.
  intros Hl Ht. unfold appendRetiredCode. destruct (existsb _ _); [done|]. cbn [elems default]. apply Forall_app. split; [|by constructor].
  case_match; [by apply Forall_drop|done].
Qed.
Ltac texts := first [assumption|apply plain_valid; first [apply plain_digestText|apply plain_StdEncode|assumption]|apply wrap64_range|apply wrapu64_range|done].

Lemma new_attempt_inv secrets s now validity rand s' attempt :
  new_attempt x secrets s now validity rand = Ok (s', attempt) →
  ∃ a, s' = started s a ∧ attemptRecord_wf a ∧ at_CodeSHA256 a = digestText (ap_Code attempt)
    ∧ at_AttemptID a = ap_AttemptID attempt ∧ at_Advertisement a = StdEncode (ap_Advertisement attempt).
Proof.
  unfold new_attempt. destruct (random_id rand) as [[id|] r] eqn:Er; [|done]. cbn [paired mbind result_bind].
  intros H. ok_inv H. destruct (read_full secretSize r).1 as [secret|]; [|done]. ok_inv H. apply Ok_inj in H.
  pose proof (f_equal fst H) as H1. pose proof (f_equal snd H) as H2. cbn [fst snd] in H1, H2. subst s' attempt.
  eexists. split; [done|]. split_and!; [|done..]. apply random_id_plain in Er. split_and!; cbn; texts.
Qed.
Lemma started_wf s a : stateRecord_wf s → attemptRecord_wf a → stateRecord_wf (started s a).
Proof.
  intros (H1 & H2 & H3 & H4 & H5 & H6 & H7 & H8 & H9 & H10) Ha. unfold started.
  split_and!; cbn; try done; [apply wrapu64_range|]. destruct (sd_Attempt s) as [old|]; [|done]. apply retired_wf; [done|apply H8].
Qed.
Lemma cancelled_wf s a : stateRecord_wf s → sd_Attempt s = Some a → stateRecord_wf (cancelled s a).
Proof.
  intros (H1 & H2 & H3 & H4 & H5 & H6 & H7 & H8 & H9 & H10) Ha. rewrite Ha in H8. unfold cancelled.
  split_and!; cbn; try done; [apply wrapu64_range|]. apply retired_wf; [done|apply H8].
Qed.
Lemma stored_key pem k : pairing_law px → ParsePublic px pem = Some k → ValidString (signingPublicPEM px k).
Proof. intros Hl _. apply (pl_public_text _ Hl). Qed.

Lemma accept_request_inv secrets s a encoded now issue seed rand s' r :
  accept_request x secrets s a encoded now issue seed rand = Ok (s', r) →
  ∃ request publicKey code payload advertisement authorization response,
    openPairRequest px encoded (ageIdentity secrets) now = Ok (request, publicKey, code, payload)
    ∧ decodeBase64 (at_Advertisement a) = Ok advertisement
    ∧ request_binds s a request code advertisement now = true ∧ sd_Generation s ≠ maxGeneration
    ∧ issued issue {| pq_Kind := pair; pq_ReceiverID := sd_ReceiverID s; pq_RouteID := sd_RouteID s;
        pq_RelayOrigin := sd_RelayOrigin s; pq_ClientID := rq_ClientID request;
        pq_PairingPublicKeyPEM := rq_PairingPublicKeyPEM request; pq_PublicPayload := payload; pq_CredentialGeneration := 1;
        pq_RequestSHA256 := digestText encoded |} = Ok authorization
    ∧ makeResponse px {| rp_Schema := responseSchema; rp_Profile := Profile; rp_Kind := pair;
        rp_ReceiverID := sd_ReceiverID s; rp_RouteID := sd_RouteID s; rp_RelayOrigin := sd_RelayOrigin s; rp_AttemptID := at_AttemptID a;
        rp_ClientID := rq_ClientID request; rp_RequestSHA256 := digestText encoded;
        rp_PairingPublicKeyPEM := rq_PairingPublicKeyPEM request;
        rp_CredentialGeneration := 1; rp_IssuedUnix := Unix now; rp_ExpiresUnix := rq_ExpiresUnix request;
        rp_Authorization := StdEncode authorization |} (rq_ResponseRecipient request) (signingPrivate secrets) seed rand = Ok response
    ∧ s' = claimed x s a request publicKey authorization response (digestText encoded)
    ∧ r = {| cl_Response := response; cl_ReceiverID := sd_ReceiverID s; cl_ClientID := rq_ClientID request;
             cl_CredentialGeneration := 1; cl_Idempotent := false |}.
Proof.
  unfold accept_request. intros H. ok_inv H. destruct a0 as [[[request key] code] payload]. ok_inv H.
  destruct (openPairRequest _ _ _ _) as [q|]; [|done]. cbn [paired] in E. apply Ok_inj in E as ->.
  destruct (decodeBase64 (at_Advertisement a)) as [ad|]; [|done]. cbn [paired] in E0. apply Ok_inj in E0 as ->.
  destruct (makeResponse _ _ _ _ _ _) as [response|] eqn:Em; [|done]. cbn [paired] in E2. apply Ok_inj in E2 as ->.
  apply Ok_inj in H. pose proof (f_equal fst H) as H1. pose proof (f_equal snd H) as H2. cbn [fst snd] in H1, H2. subst s' r. bool_prop.
  exists request, key, code, payload, a0, a1, a2. split_and!; first [reflexivity|assumption].
Qed.
Lemma openPairRequest_inv encoded identity now request key code payload :
  openPairRequest px encoded identity now = Ok (request, key, code, payload) →
  request_fields px request now = true ∧ length key = PublicKeySize
  ∧ signed_by px key requestDomain (Marshal requestPayload_field request) ∧ parseCode (rq_Code request) = Ok code
  ∧ canonical_recipient px (rq_ResponseRecipient request) = true.
Proof.
  unfold openPairRequest. intros H. ok_inv H. destruct (Decode requestPayload_field _) as [request'|]; [|done]. ok_inv H.
  apply Ok_inj in H. injection H as -> -> -> ->. bool_prop.
  match goal with H : openSigned _ _ _ _ _ _ _ _ = _ |- _ => apply openSigned_inv in H; rename H into Hs end.
  split_and!; try done. destruct Hs as [sig Hv]. unfold Verify in Hv. ok_inv Hv. bool_prop. by apply Nat.eqb_eq.
Qed.
Lemma claimed_wf s a request key authorization response encoded now :
  pairing_law px → stateRecord_wf s → sd_Attempt s = Some a → request_fields px request now = true →
  stateRecord_wf (claimed x s a request key authorization response (digestText encoded)).
Proof.
  intros Hl (H1 & H2 & H3 & H4 & H5 & H6 & H7 & H8 & H9 & H10) Ha Hr. rewrite Ha in H8. destruct H8 as (A1 & A2 & A3 & A4 & A5).
  unfold request_fields in Hr. bool_prop. unfold claimed.
  split_and!; cbn; try done; [apply wrapu64_range| |by apply retired_wf].
  split_and!; cbn; try done; first [by apply plain_valid, plain_validateID|apply (pl_public_text _ Hl)|texts].
Qed.
Lemma accept_renewal_inv secrets s p encoded now issue seed rand s' r :
  accept_renewal x secrets s p encoded now issue seed rand = Ok (s', r) →
  ∃ public renewal payload authorization response,
    ParsePublic px (pr_PairingPublicKeyPEM p) = Some public
    ∧ openRenewalRequest px encoded (ageIdentity secrets) public now = Ok (renewal, payload)
    ∧ renewal_request_binds s p renewal = true ∧ sd_Generation s ≠ maxGeneration
    ∧ issued issue {| pq_Kind := renew; pq_ReceiverID := sd_ReceiverID s; pq_RouteID := sd_RouteID s;
        pq_RelayOrigin := sd_RelayOrigin s; pq_ClientID := pr_ClientID p; pq_PairingPublicKeyPEM := pr_PairingPublicKeyPEM p;
        pq_PublicPayload := payload; pq_CredentialGeneration := rn_CredentialGeneration renewal; pq_RequestSHA256 := digestText encoded |}
      = Ok authorization
    ∧ makeResponse px {| rp_Schema := responseSchema; rp_Profile := Profile; rp_Kind := renew;
        rp_ReceiverID := sd_ReceiverID s; rp_RouteID := sd_RouteID s; rp_RelayOrigin := sd_RelayOrigin s; rp_AttemptID := [];
        rp_ClientID := pr_ClientID p; rp_RequestSHA256 := digestText encoded; rp_PairingPublicKeyPEM := pr_PairingPublicKeyPEM p;
        rp_CredentialGeneration := rn_CredentialGeneration renewal; rp_IssuedUnix := Unix now; rp_ExpiresUnix := rn_ExpiresUnix renewal;
        rp_Authorization := StdEncode authorization |} (rn_ResponseRecipient renewal) (signingPrivate secrets) seed rand = Ok response
    ∧ s' = renewed s p renewal authorization response (digestText encoded)
    ∧ r = {| cl_Response := response; cl_ReceiverID := sd_ReceiverID s; cl_ClientID := pr_ClientID p;
             cl_CredentialGeneration := rn_CredentialGeneration renewal; cl_Idempotent := false |}.
Proof.
  unfold accept_renewal. intros H. ok_inv H. destruct a0 as [renewal payload]. ok_inv H. unfold public_key in E.
  destruct (ParsePublic px (pr_PairingPublicKeyPEM p)) as [k|]; [|done]. cbn [paired] in E. apply Ok_inj in E as ->.
  destruct (openRenewalRequest _ _ _ _ _) as [q|] eqn:Eo; [|done]. cbn [paired] in E0. apply Ok_inj in E0 as ->.
  destruct (makeResponse _ _ _ _ _ _) as [response|] eqn:Em; [|done]. cbn [paired] in E2. apply Ok_inj in E2 as ->.
  apply Ok_inj in H. pose proof (f_equal fst H) as H1. pose proof (f_equal snd H) as H2. cbn [fst snd] in H1, H2. subst s' r. bool_prop.
  exists a, renewal, payload, a0, a1. split_and!; first [reflexivity|assumption].
Qed.
Lemma openRenewalRequest_inv encoded identity public now renewal payload :
  openRenewalRequest px encoded identity public now = Ok (renewal, payload) →
  renewal_fields px renewal now = true ∧ signed_by px public renewalDomain (Marshal renewalPayload_field renewal).
Proof.
  unfold openRenewalRequest. intros H. ok_inv H. apply Ok_inj in H. injection H as -> ->. bool_prop.
  match goal with H : openSigned _ _ _ _ _ _ _ _ = _ |- _ => apply openSigned_inv in H end. done.
Qed.
Lemma renewed_wf s p renewal authorization response encoded g :
  stateRecord_wf s → sd_Peer s = Some p → rn_CredentialGeneration renewal = wrapu64 g →
  stateRecord_wf (renewed s p renewal authorization response (digestText encoded)).
Proof.
  intros (H1 & H2 & H3 & H4 & H5 & H6 & H7 & H8 & H9 & H10) Hp Hg. rewrite Hp in H9. destruct H9 as (P1 & P2 & P3 & P4 & P5 & P6 & P7 & P8).
  unfold renewed. split_and!; cbn; try done; [apply wrapu64_range|]. rewrite Hg. split_and!; cbn; try done; texts.
Qed.
Lemma changed_wf s c s' : stateRecord_wf s → apply_change c s = Ok s' →
  stateRecord_wf (s' <| sd_Generation := wrapu64 (sd_Generation s' + 1) |>).
Proof.
  intros (H1 & H2 & H3 & H4 & H5 & H6 & H7 & H8 & H9 & H10).
  assert (∀ f, (∀ p, peerRecord_wf p → peerRecord_wf (f p)) → pointed peerRecord_wf (f <$> sd_Peer s)) as Hp
    by (intros f Hf; destruct (sd_Peer s); [by apply Hf|done]).
  destruct c as [l|e|l|]; cbn; unfold retire, set_peer, revoke; intros H.
  - apply Ok_inj in H as <-. split_and!; cbn; try done; apply wrapu64_range.
  - ok_inv H. apply Ok_inj in H as <-. split_and!; cbn; try done; [apply wrapu64_range|]. by destruct (sd_Peer s).
  - destruct (sd_Peer s) as [p|]; [|done]. ok_inv H. apply Ok_inj in H as <-. split_and!; cbn; try done; apply wrapu64_range.
  - destruct (sd_Peer s) as [p|]; [|done]. apply Ok_inj in H as <-. split_and!; cbn; try done; apply wrapu64_range.
Qed.

Section Directory.
Context (dir : Z) (root : Root) (Hroot : root_fd root = dir).
#[local] Notation triple := (crash_triple dir).

Lemma state_not_temporary : ¬ temporary_name stateFile.
Proof. intros [k Hk]. by vm_compute in Hk. Qed.
Lemma state_file_undisturbed c : undisturbed dir (λ w, state_file w c).
Proof. intros k r w Hq (v & Hv & Hc). exists v. split; [by apply visible_undisturbed|done]. Qed.
Lemma stores_undisturbed s : undisturbed dir (λ w, stores w s).
Proof. intros k r w Hq (b & Hb & Hd). exists b. split; [by apply state_file_undisturbed|done]. Qed.

(** ** Programs that leave the state file alone *)

Definition silent {A} (m : IO A) : Prop := ∀ c, triple (λ w, state_file w c) m (λ w, state_file w c) (λ _ w, state_file w c).
Lemma silent_visible {A} (m : IO A) (Q : view → world → Prop) :
  (∀ v, triple (λ w, visible w v) m (Q v) (λ _, Q v)) → (∀ v w, Q v w → state_file w (v !! stateFile)) → silent m.
Proof.
  intros Hm HQ c. apply triple_pre. intros w0 (v & Hv & <-). eapply triple_weaken; [apply (Hm v)|by intros w ->|apply HQ|]. intros ? w. apply HQ.
Qed.
Lemma silent_ret {A} (a : A) : silent (mret a).
Proof. intros c. by apply triple_stop. Qed.
Lemma silent_bind {A B} (m : IO A) (f : A → IO B) : silent m → (∀ a, silent (f a)) → silent (m ≫= f).
Proof. intros Hm Hf c. eapply triple_bind; [apply Hm|]. intros a. apply Hf. Qed.
Lemma silent_then {A B E} (m : IO (result E A)) (f : A → IO (result E B)) : silent m → (∀ a, silent (f a)) → silent (and_then m f).
Proof. intros Hm Hf. apply silent_bind; [exact Hm|]. intros [a|e]; [apply Hf|apply silent_ret]. Qed.
Lemma silent_fs {A} (m : IO (result fs_err A)) : silent m → silent (fs m).
Proof. intros Hm. apply silent_bind; [exact Hm|]. intros r. apply silent_ret. Qed.
Lemma silent_read name limit mode : ¬ temporary_name name → silent (readFile root name limit mode).
Proof.
  intros Hn. apply (silent_visible _ (λ v w, visible w v)); [|by intros v w Hw; exists v].
  intros v. eapply triple_weaken; [by apply (readFile_visible dir v root name limit mode)|done|done|by intros r w [? _]].
Qed.
Lemma silent_ensure name data mode : ¬ temporary_name name → name ≠ stateFile → silent (EnsureFile root name data mode).
Proof.
  intros Hn Hne. assert (∀ v k, (<[name := k]> v : view) !! stateFile = v !! stateFile) as Hl by (intros v k; by rewrite lookup_insert_ne).
  apply (silent_visible _ (λ v w, ensuring v name w ∨ visible w (<[name := data]> v))).
  - intros v. eapply triple_weaken; [by apply (EnsureFile_visible dir v root name data mode)|done|by left|].
    intros [u|e] w H; [by right; destruct H|by left].
  - intros v w [[H|[_ [H|[k H]]]]|H]; [by exists v|by exists v|by exists (<[name := k]> v)|by exists (<[name := data]> v)].
Qed.
Lemma silent_unlink name : ¬ temporary_name name → name ≠ stateFile → silent (UnlinkFile root name).
Proof.
  intros Hn Hne. apply (silent_visible _ (λ v w, unlinking v name w)).
  - intros v. eapply triple_weaken; [by apply (UnlinkFile_visible dir v root name)|done|done|]. intros [u|e] w H; [by right|done].
  - intros v w [H|H]; [by exists v|]. exists (delete name v). by rewrite lookup_delete_ne.
Qed.
Lemma silent_file_lock name : ¬ temporary_name name → name ≠ stateFile → silent (TryLock root name).
Proof.
  intros Hn Hne. apply (silent_visible _ (λ v w, locking v name w)).
  - intros v. by apply (TryLock_visible dir v root name).
  - intros v w [H|[_ H]]; [by exists v|]. exists (<[name := []]> v). by rewrite lookup_insert_ne.
Qed.

(** The files of a receiver. *)
Lemma not_temporary name : bool_decide (take (length temporary_prefix) name = temporary_prefix) = false → ¬ temporary_name name.
Proof.
  intros H%bool_decide_eq_false [k ->]. apply H. by rewrite take_app_length.
Qed.
Ltac silent_step :=
  first [ apply silent_ret
        | apply silent_fs
        | apply silent_read; apply not_temporary; by vm_compute
        | apply silent_ensure; [apply not_temporary; by vm_compute|by vm_compute]
        | apply silent_unlink; [apply not_temporary; by vm_compute|by vm_compute]
        | apply silent_then; [|intros ?]
        | apply silent_bind; [|intros ?]
        | progress cbv beta zeta
        | case_match ].
Ltac silent_go := repeat silent_step.
Lemma silent_readIssuer certificateFile keyFile now :
  ¬ temporary_name certificateFile → ¬ temporary_name keyFile → silent (readIssuer x root certificateFile keyFile now).
Proof.
  intros H1 H2. unfold readIssuer, ReadFile.
  apply silent_then; [by apply silent_fs, silent_read|intros c]. apply silent_then; [by apply silent_fs, silent_read|intros k]. silent_go.
Qed.
Lemma silent_readSecrets s now : silent (readSecrets x root s now).
Proof.
  unfold readSecrets, ReadFile, pairing.
  repeat first [apply silent_readIssuer; apply not_temporary; by vm_compute|silent_step].
Qed.

(** ** Programs that write at most one successor *)

Section State.
Context (s : stateRecord) (b : list byte) (Hb : decodeState x b = Ok s) (Hwf : stateRecord_wf s).
Definition outcome (w : world) : Prop := ∃ s', stores w s' ∧ stateRecord_wf s' ∧ (s' = s ∨ step s s').
Definition atomic {A} (m : IO A) : Prop := triple (λ w, state_file w (Some b)) m outcome (λ _, outcome).

Lemma outcome_same w : state_file w (Some b) → outcome w.
Proof. intros H. exists s. split; [by exists b|]. split; [done|by left]. Qed.
Lemma outcome_undisturbed : undisturbed dir outcome.
Proof. intros c r w Hq (s' & Hs & H). exists s'. split; [by apply stores_undisturbed|done]. Qed.
Lemma atomic_silent {A} (m : IO A) : silent m → atomic m.
Proof. intros H. eapply triple_weaken; [apply (H (Some b))|done|apply outcome_same|intros ? w; apply outcome_same]. Qed.
Lemma atomic_ret {A} (a : A) : atomic (mret a).
Proof. apply atomic_silent, silent_ret. Qed.
Lemma atomic_bind {A B} (m : IO A) (f : A → IO B) : silent m → (∀ a, atomic (f a)) → atomic (m ≫= f).
Proof. intros Hm Hf. eapply triple_bind; [|exact Hf]. eapply triple_weaken; [apply (Hm (Some b))|done|apply outcome_same|done]. Qed.
Lemma atomic_then {A B E} (m : IO (result E A)) (f : A → IO (result E B)) : silent m → (∀ a, atomic (f a)) → atomic (and_then m f).
Proof. intros Hm Hf. apply atomic_bind; [exact Hm|]. intros [a|e]; [apply Hf|apply atomic_ret]. Qed.
Lemma atomic_pure {A B E} (r : result E A) (f : A → IO (result E B)) : (∀ a, r = Ok a → atomic (f a)) → atomic (and_then (mret r) f).
Proof.
  intros Hf. unfold and_then, atomic. eapply (triple_bind _ _ _ _ _ (λ r' w, r' = r ∧ state_file w (Some b))).
  - apply triple_stop. intros w Hw. split; [by apply outcome_same|done].
  - intros r'. apply triple_pre. intros w [-> Hw]. destruct r as [a|e].
    + eapply triple_weaken; [by apply (Hf a)|by intros ? ->|done|done].
    + apply triple_stop. intros ? ->. pose proof (outcome_same _ Hw). done.
Qed.
Lemma atomic_write {A} s' (a : A) : stateRecord_wf s' → step s s' → atomic (and_then (writeState x root s') (λ _, mret (Ok a))).
Proof.
  intros Hw Hs. apply (triple_then _ _ _ _ _ (λ _, outcome)); [|done|done|by intros _; apply triple_stop].
  unfold writeState. apply atomic_pure. intros b' Hb'. apply triple_pre. intros w0 (v & Hv & Hc).
  assert (∀ w, state_file w (Some b') → outcome w) as Hnew.
  { intros w H. exists s'. split; [exists b'; split; [done|by apply decode_encode_state]|]. split; [done|by right]. }
  assert (∀ w, visible w v → outcome w) as Hold by (intros w H; apply outcome_same; by exists v).
  assert (∀ w, visible w (<[stateFile := b']> v) → state_file w (Some b')) as Hin.
  { intros w H. exists (<[stateFile := b']> v). by rewrite lookup_insert_eq. }
  set (R := λ (r : result receiver_err ()) w, match r with Ok _ => state_file w (Some b') | Err _ => outcome w end).
  apply (triple_then _ _ _ _ _ R); [|done|done|].
  - unfold fs. eapply triple_bind.
    + eapply triple_weaken; [by apply (replace_visible dir v root stateFile b' 0x180 Hroot state_not_temporary)|by intros w ->| |intros ? ? H; exact H].
      intros w [H|H]; [by apply Hold|by apply Hnew, Hin].
    + intros [u|e]; apply triple_stop; intros w H.
      * pose proof (Hin _ H). split; [by apply Hnew|done].
      * assert (outcome w) by (destruct H as [H|H]; [by apply Hold|by apply Hnew, Hin]). done.
  - intros ?. eapply triple_weaken; [|intros w H; exact H|exact Hnew|intros ? w; apply Hnew].
    assert (silent (if bool_decide (sd_Attempt s' = None) || sd_LocalLocked s'
      then _ ← UnlinkFile root pendingCodeFile; mret (Ok ()) else mret (Ok ()) : IO (result receiver_err ()))) as Hsil by silent_go.
    apply Hsil.
Qed.

(** ** Critical sections *)

Lemma atomic_erase {A} (m : IO (result receiver_err A)) : atomic m → atomic (erase m).
Proof.
  intros Hm. eapply triple_bind; [exact Hm|]. intros r. by apply triple_stop.
Qed.
Context (Hlaw : pairing_law px).
Lemma create_atomic now validity rand : atomic (create_attempt x now validity rand root s).
Proof.
  unfold create_attempt. case_guard G1; [apply atomic_ret|]. case_guard G2; [apply atomic_ret|]. case_guard G3; [apply atomic_ret|].
  case_guard G4; [apply atomic_ret|]. apply atomic_then; [apply silent_readSecrets|intros secrets].
  apply atomic_pure. intros [s' attempt] Hs. destruct (new_attempt_inv _ _ _ _ _ _ _ Hs) as (a & -> & Ha & _). bool_prop.
  apply atomic_write; [by apply started_wf|]. apply step_started; [done| |done].
  destruct (sd_Peer s); [|done]. destruct G2. by eexists.
Qed.
Lemma cancel_atomic : atomic (cancel_attempt x root s).
Proof.
  unfold cancel_attempt. destruct (sd_Attempt s) as [a|] eqn:Ea; [|apply atomic_ret]. case_guard G; [apply atomic_ret|]. bool_prop.
  apply atomic_write; [by apply cancelled_wf|by apply step_cancelled].
Qed.
Lemma update_atomic c : atomic (update_state x (apply_change c) root s).
Proof.
  unfold update_state. case_guard G; [apply atomic_ret|]. apply atomic_pure. intros s' Hs. bool_prop.
  apply atomic_write; [by apply (changed_wf s c)|by apply (step_changed s c)].
Qed.
Lemma claim_atomic encoded now issue seed rand : atomic (claim x encoded now issue seed rand root s).
Proof.
  unfold claim. case_guard G; [apply atomic_ret|]. destruct (sd_Peer s) eqn:Ep; [repeat case_match; apply atomic_ret|].
  destruct (sd_Attempt s) as [a|] eqn:Ea; [|apply atomic_ret]. apply atomic_then; [apply silent_readSecrets|intros secrets].
  apply atomic_pure. intros [s' r] Hs.
  destruct (accept_request_inv _ _ _ _ _ _ _ _ _ _ Hs) as (q & k & code & pl & ad & au & rs & Ho & _ & Hb' & Hg & _ & _ & -> & _).
  apply openPairRequest_inv in Ho as (Hr & _). apply atomic_write; [by eapply claimed_wf|].
  unfold request_binds in Hb'. bool_prop. apply step_claimed; try done. by apply constantDigestEqual_eq.
Qed.
Lemma renew_atomic encoded now issue seed rand : atomic (renew_peer x encoded now issue seed rand root s).
Proof.
  unfold renew_peer. case_guard G; [apply atomic_ret|]. destruct (sd_Peer s) as [p|] eqn:Ep; [|apply atomic_ret].
  case_guard G1; [apply atomic_ret|]. case_guard G2; [apply atomic_ret|]. apply atomic_then; [apply silent_readSecrets|intros secrets].
  apply atomic_pure. intros [s' r] Hs.
  destruct (accept_renewal_inv _ _ _ _ _ _ _ _ _ _ Hs) as (k & q & pl & au & rs & _ & Ho & Hb' & Hg & _ & _ & -> & _).
  apply openRenewalRequest_inv in Ho as (Hr & _). unfold renewal_request_binds in Hb'. unfold renewal_fields in Hr. bool_prop.
  apply atomic_write; [by eapply renewed_wf|]. by apply step_renewed.
Qed.
Lemma section_atomic m : atomic (section_of m root s).
Proof.
  destruct m; cbn [section_of]; try apply atomic_erase;
    [|..|apply create_atomic|apply cancel_atomic|apply update_atomic|apply claim_atomic|apply renew_atomic| | |].
  all: apply atomic_silent.
  all: unfold load_authority, public_trust, current_advertisement, renewal_status, retain_code, pending_code, pairing, ReadPrivateFile;
    repeat first [apply silent_readSecrets|silent_step].
Qed.
End State.

Lemma critical_atomic {A} s b (k : Root → stateRecord → IO (result receiver_err A)) :
  decodeState x b = Ok s → stateRecord_wf s → atomic s b (k root s) →
  triple (λ w, state_file w (Some b)) (critical x root k) (outcome s) (λ _, outcome s).
Proof.
  intros Hb Hwf Hk. unfold critical. apply (atomic_then s b Hb Hwf).
  - apply silent_fs, silent_file_lock; [apply not_temporary; by vm_compute|by vm_compute].
  - intros lock. apply triple_deferring.
    + apply (triple_then _ _ _ _ _ (λ r w, match r with Ok s' => s' = s ∧ state_file w (Some b) | Err _ => outcome s w end)); [|done|done|].
      * unfold readState. apply triple_pre. intros w0 (v & Hv & Hc).
        assert (∀ w, visible w v → outcome s w) as Hold by (intros w H; apply (outcome_same s b); [done|done|by exists v]).
        apply (triple_then _ _ _ _ _ (λ r w, visible w v ∧ match r with Ok l => l = b | Err _ => True end)).
        -- unfold fs. eapply triple_bind.
           ++ eapply triple_weaken; [by apply (read_visible dir v root stateFile maxStateSize Hroot state_not_temporary)|by intros w ->|exact Hold|intros ? ? H; exact H].
           ++ intros [l|e]; apply triple_stop; intros w [Hw Hl]; (split; [by apply Hold|split; [done|]]); [destruct Hl; congruence|done].
        -- by intros e w [?%Hold _].
        -- by intros e w [?%Hold _].
        -- intros l. apply triple_stop. intros w [Hw ->]. split; [by apply Hold|]. rewrite Hb. split; [done|]. by exists v.
      * intros s'. apply triple_pre. intros w [-> Hw]. eapply triple_weaken; [exact Hk|by intros ? ->|done|done].
    + done.
    + intros _. apply outcome_undisturbed.
    + intros P' HP'. by apply quiet_closeLock.
Qed.
End Directory.

(** ** Properties *)

(** The state of a receiver is changed atomically and only along its transitions: a
    critical section of any method, killed at any point, failed or finished, leaves in the state
    file the state it found or one successor, whole and accepted by its readers. *)
Theorem receiver_atomic (m : method) (root : Root) (w : world) (t : list event) (s : stateRecord) :
  pairing_law px → stateRecord_wf s → stores w s → conforms (root_fd root) t w →
  prefix_of_run (critical x root (section_of m)) t →
  ∃ s', stores (run (root_fd root) t w) s' ∧ stateRecord_wf s' ∧ (s' = s ∨ step s s').
Proof.
  intros Hl Hwf (b & Hw & Hb) Hc Hp.
  apply (critical_atomic (root_fd root) root eq_refl s b (section_of m) Hb Hwf (section_atomic _ root eq_refl s b Hb Hwf Hl m) w t Hw Hc).
  exact Hp.
Qed.
End Env.

(** ** A concrete revocation *)

(** The directory is node 1, open as descriptor 3; the state is node 2. *)
Definition demo_machine : kernel := {|
  descriptors := {[3 := 1]}; offsets := ∅; entries := {[(1, stateFile) := 2]};
  nodes := list_to_map [(1, MkNode S_IFDIR 0x1c0 0 0 2 1 []); (2, MkNode S_IFREG 0x180 0 0 1 2 demo_bytes)];
  next_fd := 4; next_inode := 3 |}.
Definition demo_world : world := {|
  names := {[stateFile := 2]}; durable := {[stateFile := 2]}; inodes := {[2 := demo_bytes]}; synced := {[2 := demo_bytes]};
  handles := ∅; fresh := 3 |}.
Definition demo_root : Root := {| root_fd := 3; root_open := true |}.
Definition revocation : IO (result receiver_err ()) := critical demo_receiver demo_root (section_of demo_receiver (MChange Revoke)).
Definition revocation_script : list reply := Eval vm_compute in play 100 revocation [] demo_machine.
Definition revocation_trace : list event := Eval vm_compute in (revocation revocation_script).1.1.
Lemma revocation_runs : prefix_of_run revocation revocation_trace.
Proof. exists revocation_script. eexists _, _. vm_compute. reflexivity. Qed.
(** Killed before the new state takes its name. *)
Definition killed_trace : list event := Eval vm_compute in take 20 revocation_trace.
Lemma killed_runs : prefix_of_run revocation killed_trace.
Proof. exists (take 20 revocation_script). eexists _, _. vm_compute. reflexivity. Qed.
Lemma revocation_conforms : conforms 3 revocation_trace demo_world.
Proof. unfold revocation_trace. cbn [conforms]. vm_compute. solve_conforms. Qed.
Lemma killed_conforms : conforms 3 killed_trace demo_world.
Proof.
  change killed_trace with (take 20 revocation_trace). pose proof revocation_conforms as H.
  rewrite <-(take_drop 20 revocation_trace) in H. by apply conforms_app in H as [H _].
Qed.
Lemma demo_stores : stores demo_receiver demo_world demo_paired.
Proof.
  exists demo_bytes. split; [|exact (decode_encode_state _ _ _ demo_paired_wf demo_encoded)].
  exists {[stateFile := demo_bytes]}. split; [|by rewrite lookup_singleton_eq]. intros m _. unfold demo_world. cbn [names].
  destruct (decide (m = stateFile)) as [->|Hne]; [rewrite !lookup_singleton_eq; split; [vm_compute; reflexivity|by exists demo_bytes]|by rewrite !lookup_singleton_ne].
Qed.
Lemma receiver_atomic_witness :
  ∃ s', stores demo_receiver (run 3 killed_trace demo_world) s' ∧ stateRecord_wf s' ∧ (s' = demo_paired ∨ step demo_receiver demo_paired s').
Proof.
  exact (receiver_atomic demo_receiver (MChange Revoke) demo_root demo_world killed_trace demo_paired demo_pairing_law demo_paired_wf
    demo_stores killed_conforms killed_runs).
Defined.
