(* ===== verification/PairingHistory.v ===== *)
(** * Histories of a receiver

    What holds of the state of a receiver over any sequence of its methods, each of them
    finished, failed or killed: the consequences of the transitions of [PairingStore]. *)

From S2P Require Import Prelude GoIO Text Runes Sha256 Base64 Protocol Identifiers Signing PairToken Identity StrictJson Syscalls SecureFS CrashLogic SecureFSSafety DirectoryView JsonText PairingData PairingWire PairingWireSafety PairingClient PairingReceiver PairingDemo PairingStore.
Open Scope Z_scope.

(** ** Later states *)

(** The same peer, later: its identity, its key and the answer to its claim are fixed, its
    credential generation is never taken back and names one authorization, and a locked peer that was
    revoked is frozen. *)
Record peer_later (p p' : peerRecord) : Prop := {
  pl_ClientID : pr_ClientID p' = pr_ClientID p;
  pl_Key : pr_PairingPublicKeyPEM p' = pr_PairingPublicKeyPEM p;
  pl_AttemptID : pr_AttemptID p' = pr_AttemptID p;
  pl_Request : pr_InitialRequestSHA256 p' = pr_InitialRequestSHA256 p;
  pl_Response : pr_InitialResponse p' = pr_InitialResponse p;
  pl_Credential : pr_CredentialGeneration p <= pr_CredentialGeneration p';
  pl_Authorization : pr_CredentialGeneration p' = pr_CredentialGeneration p →
    pr_Authorization p' = pr_Authorization p ∧ pr_LastRenewalRequestSHA256 p' = pr_LastRenewalRequestSHA256 p
    ∧ pr_LastRenewalResponse p' = pr_LastRenewalResponse p;
  pl_Frozen : pr_Revoked p = true → pr_Locked p = true → p' = p }.
#[export] Instance peer_later_preorder : PreOrder peer_later.
Proof.
  split; [by constructor|]. intros p1 p2 p3 [] []. constructor; try congruence; [lia| |].
  - intros H. assert (pr_CredentialGeneration p2 = pr_CredentialGeneration p1) as E by lia.
    destruct (pl_Authorization0 E) as (? & ? & ?), pl_Authorization1 as (? & ? & ?); [lia|]. split_and!; congruence.
  - intros H1 H2. pose proof (pl_Frozen0 H1 H2) as ->. auto.
Qed.

(** The same receiver, later: its identity is fixed, its generation counts the changes, and
    its peer, once it has one, stays. *)
Record later (s s' : stateRecord) : Prop := {
  lt_ReceiverID : sd_ReceiverID s' = sd_ReceiverID s;
  lt_RouteID : sd_RouteID s' = sd_RouteID s;
  lt_RelayOrigin : sd_RelayOrigin s' = sd_RelayOrigin s;
  lt_RelayServerSPKI : sd_RelayServerSPKI s' = sd_RelayServerSPKI s;
  lt_Generation : sd_Generation s <= sd_Generation s';
  lt_Changed : sd_Generation s' = sd_Generation s → s' = s;
  lt_Peer p : sd_Peer s = Some p → ∃ p', sd_Peer s' = Some p' ∧ peer_later p p' }.
#[export] Instance later_preorder : PreOrder later.
Proof.
  split; [intros s; constructor; naive_solver lia|]. intros s1 s2 s3 [] []. constructor; try congruence; [lia| |].
  - intros H. assert (sd_Generation s2 = sd_Generation s1) as E by lia. rewrite (lt_Changed0 E) in *. auto.
  - intros p (p2 & Hp2 & H2)%lt_Peer0. destruct (lt_Peer1 p2 Hp2) as (p3 & Hp3 & H3). exists p3. split; [done|by transitivity p2].
Qed.

Lemma later_count s s' :
  uint64 (sd_Generation s) → sd_Generation s ≠ maxGeneration → sd_Generation s' = wrapu64 (sd_Generation s + 1) →
  sd_ReceiverID s' = sd_ReceiverID s → sd_RouteID s' = sd_RouteID s → sd_RelayOrigin s' = sd_RelayOrigin s →
  sd_RelayServerSPKI s' = sd_RelayServerSPKI s → (∀ p, sd_Peer s = Some p → ∃ p', sd_Peer s' = Some p' ∧ peer_later p p') →
  later s s'.
Proof.
  intros Hg Hm Hs H1 H2 H3 H4 Hp. assert (sd_Generation s' = sd_Generation s + 1) as E.
  { rewrite Hs. apply Z.mod_small. unfold uint64, maxGeneration in *. lia. }
  constructor; try done; lia.
Qed.
Lemma peer_marked p locked revoked :
  (pr_Revoked p = true → locked = true) → (pr_Revoked p = true → revoked = true) →
  peer_later p (p <| pr_Locked := locked |> <| pr_Revoked := revoked |>).
Proof. intros Hl Hr. constructor; try done. intros H1 H2. destruct p. cbn in *. subst. by rewrite Hl, Hr. Qed.

Section Env.
Context (x : receiver_env).

Lemma changed_later s c s' : uint64 (sd_Generation s) → sd_Generation s ≠ maxGeneration → apply_change c s = Ok s' →
  later s (s' <| sd_Generation := wrapu64 (sd_Generation s' + 1) |>).
Proof.
  intros Hg Hm. destruct c as [l|e|l|]; cbn [apply_change]; unfold set_local, retire, set_peer, revoke; intros H.
  - apply Ok_inj in H as <-. apply later_count; try done. intros p Hp. by exists p.
  - ok_inv H. apply Ok_inj in H as <-. apply later_count; try done. intros p Hp. cbn. rewrite Hp. eexists. split; [done|by apply (peer_marked p true true)].
  - destruct (sd_Peer s) as [p|] eqn:Ep; [|done]. ok_inv H. apply Ok_inj in H as <-. apply later_count; try done.
    rewrite Ep. intros ? [= <-]. eexists. split; [done|]. destruct p as [????? ? ? ? r ??]. apply (peer_marked (MkPeer _ _ _ _ _ _ _ _ r _ _) l r); [|done].
    cbn in *. intros ->. by destruct l.
  - destruct (sd_Peer s) as [p|] eqn:Ep; [|done]. apply Ok_inj in H as <-. apply later_count; try done.
    rewrite Ep. intros ? [= <-]. eexists. split; [done|by apply (peer_marked p true true)].
Qed.
Lemma step_later s s' : stateRecord_wf s → step x s s' → later s s'.
Proof.
  intros Hw H. assert (uint64 (sd_Generation s)) as Hg by apply Hw.
  destruct H as [a Hl Hp Hm|a Ha Hm|a q k au rs sha Hl Hp Ha Hm|p n au rs sha Hl Hp Hk Hr Hm Hn Hn2|c s' Hc Hm].
  - apply later_count; try done. by rewrite Hp.
  - apply later_count; try done. intros p Hp. by exists p.
  - apply later_count; try done. by rewrite Hp.
  - apply later_count; try done. rewrite Hp. intros ? [= <-]. eexists. split; [reflexivity|].
    assert (uint64 (pr_CredentialGeneration p)) as Hc.
    { destruct Hw as (_ & _ & _ & _ & _ & _ & _ & _ & Hw & _). rewrite Hp in Hw. apply Hw. }
    assert (rn_CredentialGeneration n = pr_CredentialGeneration p + 1) as E.
    { rewrite Hn in Hn2 |- *. unfold wrapu64, uint64 in *. destruct (decide (pr_CredentialGeneration p = 2 ^ 64 - 1)) as [E|].
      - rewrite E in Hn2. exfalso. by vm_compute in Hn2.
      - apply Z.mod_small. lia. }
    constructor; cbn; try done; [lia..|]. intros Hr'. congruence.
  - by apply changed_later with c.
Qed.

(** ** Histories *)

Definition new_process (w : world) (h : gmap Z (Z * nat)) : world := w <| handles := h |>.
Lemma new_process_stores w h s : stores x w s → stores x (new_process w h) s.
Proof. intros (b & (v & Hv & Hf) & Hb). exists b. split; [by exists v|done]. Qed.
(** Critical sections one after the other, as the lock makes them: each starts from what the
    one before left, wherever that was killed, in a process with its own descriptors. *)
Inductive history (dir : Z) (w0 : world) : world → Prop :=
| history_start : history dir w0 w0
| history_section w handles m root t :
    history dir w0 w → root_fd root = dir → conforms dir t (new_process w handles) →
    prefix_of_run (critical x root (section_of x m)) t → history dir w0 (run dir t (new_process w handles)).

Lemma decoded_valid b s : decodeState x b = Ok s → validate x s = Ok ().
Proof.
  unfold decodeState. intros H. ok_inv H. destruct (validate x a) as [[]|] eqn:E'; [|done]. apply Ok_inj in H as <-. done.
Qed.
(** What the validation says of a peer. *)
Lemma valid_peer s p : validate x s = Ok () → sd_Peer s = Some p →
  sd_Attempt s = None ∧ (pr_Revoked p = true → pr_Locked p = true).
Proof.
  unfold validate. intros H Hp. ok_inv H. rewrite Hp in *. split; [by destruct (sd_Attempt s)|]. unfold check_peer in H.
  destruct (ParsePublic _ _); [|done]. ok_inv H. intros Hr. by rewrite Hr in *; destruct (pr_Locked p).
Qed.

(** The pairing of a receiver is permanent. Over any sequence of critical sections of its
    methods, one at a time under the lock, each finished, failed or killed at any point, the state file holds a whole state, reached from the
    first one by transitions, of the same receiver; the generation counts the changes; and once a
    peer is paired no attempt is ever pending again, its identity, its key and the answer to its claim never
    change, its credential generation is never taken back, and revoking it is final. *)
Theorem peer_permanent (dir : Z) (w0 w : world) (s0 : stateRecord) :
  pairing_law (rv_pairing x) → stateRecord_wf s0 → stores x w0 s0 → history dir w0 w →
  ∃ s, stores x w s ∧ stateRecord_wf s ∧ rtc (step x) s0 s ∧ later s0 s
    ∧ ∀ p0, sd_Peer s0 = Some p0 →
        ∃ p, sd_Peer s = Some p ∧ peer_later p0 p ∧ sd_Attempt s = None ∧ (pr_Revoked p0 = true → p = p0).
Proof.
  intros Hl Hw0 Hs0 Hh. assert (∃ s, stores x w s ∧ stateRecord_wf s ∧ rtc (step x) s0 s ∧ later s0 s) as (s & Hs & Hw & Hr & Ht).
  { induction Hh as [|w h m root t _ (s & Hs & Hw & Hr & Ht) Hd Hc Hp]; [by exists s0|]. subst dir.
    apply (new_process_stores _ h) in Hs. destruct Hs as (b & Hf & Hb).
    assert (outcome x s (run (root_fd root) t (new_process w h))) as (s' & Hs' & Hw' & [->|Hstep]).
    { by apply (critical_atomic x (root_fd root) root eq_refl s b (section_of x m) Hb Hw (section_atomic x _ root eq_refl s b Hb Hw Hl m) _ t Hf Hc). }
    { by exists s. }
    exists s'. split_and!; [done..|by eapply rtc_r|]. etransitivity; [exact Ht|by apply step_later]. }
  exists s. split_and!; try done. intros p0 Hp0. destruct (lt_Peer _ _ Ht p0 Hp0) as (p & Hp & Hlater).
  destruct Hs as (b & _ & Hb). destruct Hs0 as (b0 & _ & Hb0). exists p. split_and!; try done.
  - by apply (valid_peer s p (decoded_valid _ _ Hb)).
  - intros Hrev. apply (pl_Frozen _ _ Hlater); [done|]. by apply (valid_peer s0 p0 (decoded_valid _ _ Hb0)).
Qed.
End Env.

(** The revocation of [PairingStore], by a process without open files. *)
Lemma peer_permanent_witness :
  ∃ s, stores demo_receiver (run 3 revocation_trace (new_process demo_world ∅)) s ∧ stateRecord_wf s ∧ rtc (step demo_receiver) demo_paired s
    ∧ later demo_paired s
    ∧ ∀ p0, sd_Peer demo_paired = Some p0 →
        ∃ p, sd_Peer s = Some p ∧ peer_later p0 p ∧ sd_Attempt s = None ∧ (pr_Revoked p0 = true → p = p0).
Proof.
  apply (peer_permanent demo_receiver 3 demo_world _ demo_paired demo_pairing_law demo_paired_wf demo_stores).
  exact (history_section demo_receiver 3 demo_world demo_world ∅ (MChange Revoke) demo_root revocation_trace
    (history_start _ _ _) eq_refl revocation_conforms revocation_runs).
Defined.
