(* ===== verification/PairingExchange.v ===== *)
(** * The first exchange of a pairing

    Both ends of [exchange.go] put together: the receiver's attempt, the client's request,
    the receiver's claim and the client's opening of the response, with honest ends and any
    clocks. *)

From S2P Require Import Prelude GoIO Text Runes Sha256 Base64 Protocol Identifiers Signing PairToken EnrollRequest Invitation Identity StrictJson StrictJsonSafety Syscalls SecureFS JsonText PairingData PairingWire PairingWireSafety PairingClient PairingClientSafety PairingReceiver PairingDemo PairingMessages.
Open Scope Z_scope.

Section Env.
Context (x : receiver_env) (Hlaw : pairing_law (rv_pairing x)).
#[local] Notation px := (rv_pairing x).

(** ** An honest exchange *)

Record exchange := {
  ex_secrets : receiverSecrets;  ex_state : stateRecord;     (* the receiver, before the attempt *)
  ex_created : Z; ex_validity : Z; ex_rand : reader;         (* its second, and the validity of the attempt *)
  ex_pending : stateRecord; ex_attempt : Attempt;            (* what the attempt made *)
  ex_asked : Z; ex_asking : Z; ex_build : PayloadBuilder; ex_draws : draws;
  ex_request : ClientRequest }.
Definition exchange_options (e : exchange) : CreateRequestOptions := {|
  co_Advertisement := ap_Advertisement (ex_attempt e); co_Code := ap_Code (ex_attempt e); co_RelayOrigin := sd_RelayOrigin (ex_state e);
  co_Now := ex_asked e * Second; co_Validity := ex_asking e |}.
Definition exchange_expiry (e : exchange) : Z :=
  Z.min (ex_created e + ex_validity e / Second) (ex_asked e + ex_asking e / Second).
Record honest (e : exchange) : Prop := {
  hn_secrets : own_secrets x (ex_secrets e);
  hn_state : stateRecord_wf (ex_state e);
  hn_created : sane (ex_created e);
  hn_validity : 0 < ex_validity e <= MaxAttemptValidity;
  hn_expires : sane (ex_created e + ex_validity e / Second);
  hn_attempt : new_attempt x (ex_secrets e) (ex_state e) (ex_created e * Second) (ex_validity e) (ex_rand e) = Ok (ex_pending e, ex_attempt e);
  hn_asked : sane (ex_asked e);
  hn_asking : Second <= ex_asking e;
  hn_key key : dr_key (ex_draws e) = Some key → generated (pe_ed px) key;
  hn_identity i r : dr_identity (ex_draws e) = Some (i, r) → identity_text px i = Some (i, r);
  hn_nonce nonce : drawn_nonce (ex_draws e) = Ok nonce → validateID nonce = true;
  hn_request : CreateRequestWithPayload px (exchange_options e) (ex_build e) (ex_draws e) = Ok (ex_request e) }.

Lemma seconds_after t d : sane t → 0 <= d <= MaxAttemptValidity → Unix (t * Second + d) = t + d / Second ∧ 0 <= d / Second <= 86400.
Proof.
  intros Ht Hd. assert (0 <= d / Second <= 86400) as Hs.
  { unfold MaxAttemptValidity, Hour, Minute, Second in *. split; [apply Z.div_pos; lia|]. apply Z.div_le_upper_bound; lia. }
  split; [|done]. unfold Unix, unix_sec, sane, wrap64 in *. rewrite Z.div_add_l by done. rewrite Z.mod_small; lia.
Qed.
Lemma origin_valid t : validateRelayOrigin px t = true → ValidString t.
Proof.
  unfold validateRelayOrigin. destruct (parse_origin px t) as [u|] eqn:E; [|done]. intros H. bool_prop. subst t.
  apply (pl_url _ Hlaw) in E; [done| |done]. match goal with H : Path u = _ |- _ => by rewrite H end.
Qed.
Lemma identity_valid t i r : identity_text px t = Some (i, r) → ValidString i ∧ ValidString r ∧ canonical_recipient px r = true.
Proof.
  intros [Hi Hr]%(pl_identity _ Hlaw). split; [done|]. split; [by apply (pl_recipient _ Hlaw) in Hr|]. by apply bool_decide_eq_true.
Qed.

Section Honest.
Context (e : exchange) (He : honest e).
#[local] Notation k := (ex_secrets e).
#[local] Notation s0 := (ex_state e).
#[local] Notation advertisement := (ap_Advertisement (ex_attempt e)).
#[local] Notation code := (ap_Code (ex_attempt e)).

Definition exchange_ad (id : text) : advertisementPayload := advertised k s0 id (ex_created e) (ex_created e + ex_validity e / Second).
Definition exchange_pending (id : text) : attemptRecord := pending id (ex_created e + ex_validity e / Second) advertisement code.

Lemma advertised_wf id c v : plain id → int64 c → int64 v → advertisementPayload_wf (advertised k s0 id c v).
Proof.
  intros Hid Hc Hv. destruct (hn_state _ He) as (_ & _ & _ & H4 & H5 & H6 & _). destruct (hn_secrets _ He) as [_ Hp Ha Ht].
  destruct (identity_valid _ _ _ Ha) as (_ & Hr & _). split_and!; cbn; try done; [by apply plain_valid|]. rewrite Hp. apply (pl_public_text _ Hlaw).
Qed.
(** What an honest exchange has drawn and made when the request is sent. *)
Record made (id : text) (secret : list byte) (clientID nonce : text) (key : list byte) (identity recipient : text) (payload signed : list byte)
    (rest : reader) : Prop := {
  md_id : plain id;
  md_pending : ex_pending e = started s0 (exchange_pending id);
  md_advertisement now : parseAdvertisement px advertisement now =
    (reject negb (advertisement_fields px (exchange_ad id) (signer x k) now) with AdvertisementFields;; Ok (exchange_ad id, signer x k));
  md_ad_fields : advertisement_fields px (exchange_ad id) (signer x k) (ex_asked e * Second) = true;
  md_attempt : validateID id = true;
  md_code : parseCode code = Ok (code_of (exchange_ad id) advertisement secret);
  md_code_plain : plain code;
  md_live : ex_asked e < ex_created e + ex_validity e / Second;
  md_asking : 1 <= ex_asking e / Second <= 3600;
  md_client : plain clientID ∧ validateID clientID = true;
  md_nonce : plain nonce ∧ validateID nonce = true;
  md_key : generated (pe_ed px) key;
  md_identity : identity_text px identity = Some (identity, recipient);
  md_size : Z.of_nat (length payload) <= MaxAuthorizationSize;
  md_payload : build_payload (ex_build e) {| ci_ReceiverID := sd_ReceiverID s0; ci_RouteID := sd_RouteID s0; ci_RelayOrigin := sd_RelayOrigin s0;
    ci_ClientID := clientID; ci_CredentialGeneration := 1 |} = Ok payload;
  md_signed : signPayload px requestEnvelopeSchema requestDomain requestPayload_field
    (requested x (exchange_ad id) advertisement code clientID nonce (ex_asked e * Second) (ex_asking e) key recipient payload) key MaxRequestSize = Ok signed;
  md_sealed : sealAge px requestCipherSchema signed (ageRecipient k) MaxRequestSize (dr_seed (ex_draws e)) rest = Ok (cr_Encrypted (ex_request e));
  md_material : cr_Material (ex_request e) = kept_material x (exchange_ad id) advertisement (cr_Encrypted (ex_request e)) clientID key identity;
  md_valid : validateClientMaterial px (cr_Material (ex_request e)) = Ok () }.

Lemma asking_seconds : ex_asking e <= MaxMessageValidity → 1 <= ex_asking e / Second <= 3600.
Proof.
  intros H. pose proof (hn_asking _ He) as Hm. unfold MaxMessageValidity, Hour, Minute, Second in *. split.
  - apply Z.div_le_lower_bound; lia.
  - apply Z.div_le_upper_bound; lia.
Qed.
Lemma exchange_made : ∃ id secret clientID nonce key identity recipient payload signed rest,
  made id secret clientID nonce key identity recipient payload signed rest.
Proof.
  destruct (new_attempt_made x _ _ _ _ _ _ _ (hn_attempt _ He)) as (id & secret & Hid & Hsec & (Hsign & Hcode) & Hs1 & _ & Eid & _).
  destruct (seconds_after _ (ex_validity e) (hn_created _ He)) as [Eu Hv]; [pose proof (hn_validity _ He); lia|].
  rewrite (Unix_second _ (hn_created _ He)), Eu in Hsign, Hcode. rewrite Eu in Hs1.
  fold (exchange_ad id) in Hsign, Hcode. fold (exchange_pending id) in Hs1.
  assert (int64 (ex_created e) ∧ int64 (ex_created e + ex_validity e / Second)) as [Hc64 He64].
  { pose proof (hn_created _ He) as Hc. unfold sane in Hc. unfold int64. lia. }
  pose proof (advertised_wf id _ _ Hid Hc64 He64) as Hwf. fold (exchange_ad id) in Hwf.
  destruct (hn_secrets _ He) as [Hp64 Hpub Hage Htrust].
  assert (canonical_recipient px (ageRecipient k) = true) as Hrec by (by destruct (identity_valid _ _ _ Hage) as (_ & _ & ?)).
  destruct (request_made x (exchange_options e) (ex_build e) (ex_draws e) (ex_request e) (ex_asked e * Second) eq_refl (truncated_second _) (hn_request _ He))
    as (ad & public & c & clientID & nonce & key & identity & recipient & payload & signed & rest & Hpa & Hpc & Hcb & Ho & Hbound & Hcl & Hn & Hdn & Hdk & Hdi & Hb & Hsz & Hsg & Hsl & Hm & Hv').
  cbn [exchange_options co_Advertisement co_Code co_RelayOrigin co_Validity] in *.
  pose proof (read_advertisement x Hlaw (exchange_ad id) (signingPrivate k) advertisement) as Hread.
  rewrite (Hread _ Hwf Hp64 Hpub Hsign) in Hpa. fold (signer x k) in Hpa. cbv zeta in Hpa. ok_inv Hpa. apply Ok_inj in Hpa. injection Hpa as <- <-.
  assert (code_of (exchange_ad id) advertisement secret = c) as <-.
  { symmetry. apply (read_code _ code); [|exact Hcode|exact Hpc]. destruct Hwf as (_ & _ & W1 & _ & _ & W2 & _ & W3 & _).
    split_and!; cbn [code_of cp_Schema cp_ReceiverID cp_AttemptID cp_ExpiresUnix cp_AdvertisementSHA256 cp_Secret]; try assumption; apply plain_valid;
      [by apply plain_const|apply plain_digestText|apply plain_RawURLEncode]. }
  bool_prop. unfold code_binds in Hcb. bool_prop. rewrite before_second in * by apply (hn_expires _ He). bool_prop.
  exists id, secret, clientID, nonce, key, identity, recipient, payload, signed, rest. split; try assumption.
  - intros now. rewrite (Hread now Hwf Hp64 Hpub Hsign). cbv zeta. fold (signer x k). change (av_AttemptID (exchange_ad id)) with id in *.
    change (av_ReceiverAgeRecipient (exchange_ad id)) with (ageRecipient k). rewrite Hrec.
    match goal with H : validateID id = true |- _ => rewrite H end. done.
  - by eapply code_plain.
  - by apply asking_seconds.
  - split; [done|]. rewrite Hm in Hv'. unfold validateClientMaterial in Hv'. ok_inv Hv'. by bool_prop.
  - split; [done|]. by apply (hn_nonce _ He).
  - by apply (hn_key _ He).
  - by apply (hn_identity _ He).
Qed.

Lemma exchange_seconds a b : 0 <= b → b / Second <= 3600 → sane a → Unix (a * Second + b) = a + b / Second.
Proof.
  intros Hb Hs Ha. apply seconds_after; [done|]. split; [done|]. pose proof (Z_div_mod_eq_full b Second). pose proof (Z.mod_pos_bound b Second ltac:(done)).
  unfold MaxAttemptValidity, Hour, Minute, Second in *. lia.
Qed.
Lemma asking_positive : 0 <= ex_asking e.
Proof. pose proof (hn_asking _ He). unfold Second in *. lia. Qed.
Lemma expiry_eq id : ex_asking e / Second <= 3600 →
  request_expiry (exchange_ad id) (ex_asked e * Second) (ex_asking e) = exchange_expiry e.
Proof.
  intros H. unfold request_expiry, exchange_expiry. rewrite exchange_seconds by (apply asking_positive || apply (hn_asked _ He) || done).
  cbn [av_ExpiresUnix exchange_ad advertised]. destruct (Z.ltb_spec (ex_created e + ex_validity e / Second) (ex_asked e + ex_asking e / Second)); lia.
Qed.

Section Made.
Context (id : text) (secret : list byte) (clientID nonce : text) (key : list byte) (identity recipient : text) (payload signed : list byte) (rest : reader)
  (Hm : made id secret clientID nonce key identity recipient payload signed rest).
#[local] Notation request := (cr_Encrypted (ex_request e)).
#[local] Notation public := (ed_public (pe_ed px) key).

Definition exchange_requested : requestPayload :=
  requested x (exchange_ad id) advertisement code clientID nonce (ex_asked e * Second) (ex_asking e) key recipient payload.
Lemma exchange_sane : sane (exchange_expiry e) ∧ ex_asked e < exchange_expiry e <= ex_asked e + 3600
  ∧ exchange_expiry e <= ex_created e + ex_validity e / Second.
Proof.
  pose proof (md_live _ _ _ _ _ _ _ _ _ _ Hm). pose proof (md_asking _ _ _ _ _ _ _ _ _ _ Hm). pose proof (hn_asked _ He). pose proof (hn_expires _ He).
  unfold exchange_expiry, sane in *. lia.
Qed.
Lemma sane_int64 t : sane t → int64 t.
Proof. unfold sane, int64. lia. Qed.
Lemma exchange_requested_wf : requestPayload_wf exchange_requested.
Proof.
  destruct (hn_state _ He) as (_ & _ & _ & H4 & H5 & H6 & _). destruct (identity_valid _ _ _ (md_identity _ _ _ _ _ _ _ _ _ _ Hm)) as (_ & Hr & _).
  unfold requestPayload_wf, exchange_requested. cbn [requested rq_Schema rq_Profile rq_ReceiverID rq_RouteID rq_RelayOrigin rq_AttemptID
    rq_AdvertisementSHA256 rq_ClientID rq_Nonce rq_CreatedUnix rq_ExpiresUnix rq_PairingPublicKeyPEM rq_ResponseRecipient rq_PublicPayload rq_Code
    exchange_ad advertised av_ReceiverID av_RouteID av_RelayOrigin av_AttemptID].
  rewrite expiry_eq by apply Hm. rewrite (Unix_second _ (hn_asked _ He)).
  split_and!; [by apply plain_valid, plain_const|by apply plain_valid, plain_const|exact H4|exact H5|exact H6|apply plain_valid, Hm
    |apply plain_valid, plain_digestText|apply plain_valid, Hm|apply plain_valid, Hm|apply sane_int64, (hn_asked _ He)|apply sane_int64, exchange_sane
    |apply (pl_public_text _ Hlaw)|exact Hr|apply plain_valid, plain_StdEncode|apply plain_valid, Hm].
Qed.

(** ** The claim *)

Definition exchange_query : PeerRequest := {|
  pq_Kind := pair; pq_ReceiverID := sd_ReceiverID s0; pq_RouteID := sd_RouteID s0; pq_RelayOrigin := sd_RelayOrigin s0; pq_ClientID := clientID;
  pq_PairingPublicKeyPEM := signingPublicPEM px public; pq_PublicPayload := payload; pq_CredentialGeneration := 1;
  pq_RequestSHA256 := digestText request |}.
Definition exchange_answer (claimed : Z) (authorization : list byte) : responsePayload := {|
  rp_Schema := responseSchema; rp_Profile := Profile; rp_Kind := pair; rp_ReceiverID := sd_ReceiverID s0; rp_RouteID := sd_RouteID s0;
  rp_RelayOrigin := sd_RelayOrigin s0; rp_AttemptID := id; rp_ClientID := clientID; rp_RequestSHA256 := digestText request;
  rp_PairingPublicKeyPEM := signingPublicPEM px public; rp_CredentialGeneration := 1; rp_IssuedUnix := claimed;
  rp_ExpiresUnix := exchange_expiry e; rp_Authorization := StdEncode authorization |}.
Definition exchange_result (response : list byte) : ClaimResult := {|
  cl_Response := response; cl_ReceiverID := sd_ReceiverID s0; cl_ClientID := clientID; cl_CredentialGeneration := 1; cl_Idempotent := false |}.

Lemma exchange_fields t : sane t → ex_asked e - 300 <= t < exchange_expiry e → request_fields px exchange_requested (t * Second) = true.
Proof.
  intros Ht Hw. pose proof (md_ad_fields _ _ _ _ _ _ _ _ _ _ Hm) as Ha. unfold advertisement_fields in Ha. bool_prop.
  destruct exchange_sane as (Hs & Hlen & _). unfold request_fields, exchange_requested.
  cbn [requested rq_Schema rq_Profile rq_ReceiverID rq_RouteID rq_RelayOrigin rq_AttemptID rq_AdvertisementSHA256 rq_ClientID rq_Nonce rq_CreatedUnix rq_ExpiresUnix].
  rewrite expiry_eq by apply Hm. rewrite (Unix_second _ (hn_asked _ He)), validDigest_digestText.
  rewrite (proj2 (window_second _ _ _ MaxMessageValidity Ht (hn_asked _ He) Hs)) by (change (MaxMessageValidity / Second) with 3600; lia).
  change (av_AttemptID (exchange_ad id)) with id. rewrite (md_attempt _ _ _ _ _ _ _ _ _ _ Hm), (proj2 (md_client _ _ _ _ _ _ _ _ _ _ Hm)), (proj2 (md_nonce _ _ _ _ _ _ _ _ _ _ Hm)).
  rewrite !bool_decide_eq_true_2 by reflexivity.
  repeat match goal with H : ?b = true |- context [?b] => rewrite H end. reflexivity.
Qed.
Lemma exchange_binds t : sane t → ex_asked e - 300 <= t < exchange_expiry e →
  request_binds (ex_pending e) (exchange_pending id) exchange_requested (code_of (exchange_ad id) advertisement secret) advertisement (t * Second) = true.
Proof.
  intros Ht Hw. destruct exchange_sane as (_ & _ & Hle). rewrite (md_pending _ _ _ _ _ _ _ _ _ _ Hm). unfold request_binds, exchange_requested, exchange_pending.
  cbn [pending at_AttemptID at_ExpiresUnix at_AdvertisementSHA256 at_CodeSHA256 requested rq_ReceiverID rq_RouteID rq_RelayOrigin rq_AttemptID
    rq_AdvertisementSHA256 rq_Code rq_ExpiresUnix code_of cp_ReceiverID cp_AttemptID cp_AdvertisementSHA256 cp_ExpiresUnix exchange_ad advertised
    av_ReceiverID av_RouteID av_RelayOrigin av_AttemptID av_ExpiresUnix].
  rewrite expiry_eq by apply Hm. rewrite !constantDigestEqual_refl, Z.eqb_refl, before_second by apply (hn_expires _ He).
  rewrite !bool_decide_eq_true_2 by reflexivity. rewrite (proj2 (Z.ltb_ge _ _) Hle). cbn [andb negb]. apply Z.ltb_lt. lia.
Qed.
Lemma accept_own t issue seed rand :
  sane t → ex_asked e - 300 <= t < exchange_expiry e → sd_Generation (ex_pending e) ≠ maxGeneration →
  accept_request x k (ex_pending e) (exchange_pending id) request (t * Second) issue seed rand =
    (authorization ← issued issue exchange_query;
     response ← paired (makeResponse px (exchange_answer t authorization) recipient (signingPrivate k) seed rand);
     Ok (claimed x (ex_pending e) (exchange_pending id) exchange_requested public authorization response (digestText request),
         exchange_result response)).
Proof.
  intros Ht Hw Hg. unfold accept_request.
  rewrite (read_request x Hlaw exchange_requested key signed (ageRecipient k) (dr_seed (ex_draws e)) rest request (ageIdentity k) (t * Second)
    exchange_requested_wf (md_key _ _ _ _ _ _ _ _ _ _ Hm) eq_refl (md_signed _ _ _ _ _ _ _ _ _ _ Hm) (os_age x _ (hn_secrets _ He)) (md_sealed _ _ _ _ _ _ _ _ _ _ Hm)).
  rewrite (exchange_fields t Ht Hw). cbn [negb].
  destruct (identity_valid _ _ _ (md_identity _ _ _ _ _ _ _ _ _ _ Hm)) as (_ & _ & Hr).
  change (rq_ResponseRecipient exchange_requested) with recipient. rewrite Hr. cbn [negb].
  change (rq_Code exchange_requested) with code. rewrite (md_code _ _ _ _ _ _ _ _ _ _ Hm). cbn [mbind result_bind].
  unfold public_payload. change (rq_PublicPayload exchange_requested) with (StdEncode payload). rewrite decodeBase64_encode.
  rewrite (proj2 (Z.ltb_ge _ _) (md_size _ _ _ _ _ _ _ _ _ _ Hm)). cbn [mbind result_bind paired].
  change (at_Advertisement (exchange_pending id)) with (StdEncode advertisement). rewrite decodeBase64_encode. cbn [mbind result_bind paired].
  rewrite (exchange_binds t Ht Hw). cbn [negb]. rewrite (proj2 (Z.eqb_neq _ _) Hg).
  rewrite (md_pending _ _ _ _ _ _ _ _ _ _ Hm), (Unix_second t Ht).
  assert (rq_ExpiresUnix exchange_requested = exchange_expiry e) as -> by (apply expiry_eq, Hm). reflexivity.
Qed.

(** ** The response *)

Lemma ad_fields_later t :
  sane t → ex_created e - 300 <= t < ex_created e + ex_validity e / Second → authorities_ok px (trust k) (signer x k) (t * Second) = true →
  advertisement_fields px (exchange_ad id) (signer x k) (t * Second) = true.
Proof.
  intros Ht Hw Hau. pose proof (md_ad_fields _ _ _ _ _ _ _ _ _ _ Hm) as Ha. unfold advertisement_fields in *. bool_prop.
  match goal with H : is_ok (validateWindow _ _ _ _) = true |- _ => destruct (validateWindow _ _ _ _) as [[]|] eqn:E; [clear H|discriminate H] end.
  apply (window_second _ _ _ _ (hn_asked _ He) (hn_created _ He) (hn_expires _ He)) in E.
  match goal with H : is_ok (validateGeneratedTrust _ _ _ _) = true |- _ => rename H into Htr end. unfold validateGeneratedTrust in *.
  cbn [exchange_ad advertised av_Trust] in *. destruct (validateTrust (trust k)); [|done]. cbn [mbind result_bind] in *. rewrite Hau.
  cbn [av_CreatedUnix av_ExpiresUnix exchange_ad advertised]. rewrite (proj2 (window_second _ _ _ MaxAttemptValidity Ht (hn_created _ He) (hn_expires _ He))) by tauto.
  rewrite !bool_decide_eq_true_2 by reflexivity. repeat match goal with H : ?b = true |- context [?b] => rewrite H end. reflexivity.
Qed.
Lemma exchange_answer_wf t authorization : sane t → responsePayload_wf (exchange_answer t authorization).
Proof.
  intros Ht. destruct (hn_state _ He) as (_ & _ & _ & H4 & H5 & H6 & _). unfold responsePayload_wf, exchange_answer.
  cbn [rp_Schema rp_Profile rp_Kind rp_ReceiverID rp_RouteID rp_RelayOrigin rp_AttemptID rp_ClientID rp_RequestSHA256 rp_PairingPublicKeyPEM
    rp_CredentialGeneration rp_IssuedUnix rp_ExpiresUnix rp_Authorization].
  split_and!; [by apply plain_valid, plain_const..|exact H4|exact H5|exact H6|apply plain_valid, Hm|apply plain_valid, Hm|apply plain_valid, plain_digestText
    |apply (pl_public_text _ Hlaw)|done|by apply sane_int64|apply sane_int64, exchange_sane|apply plain_valid, plain_StdEncode].
Qed.
Lemma answer_fields t t3 authorization :
  sane t → sane t3 → response_fields px (exchange_answer t authorization) (t3 * Second) =
    is_ok (validateWindow t (exchange_expiry e) (t3 * Second) MaxMessageValidity).
Proof.
  intros Ht Ht3. pose proof (md_ad_fields _ _ _ _ _ _ _ _ _ _ Hm) as Ha. unfold advertisement_fields in Ha. bool_prop. unfold response_fields, exchange_answer.
  cbn [rp_Schema rp_Profile rp_Kind rp_ReceiverID rp_RouteID rp_RelayOrigin rp_ClientID rp_RequestSHA256 rp_CredentialGeneration rp_IssuedUnix rp_ExpiresUnix].
  rewrite validDigest_digestText, (proj2 (md_client _ _ _ _ _ _ _ _ _ _ Hm)). rewrite !bool_decide_eq_true_2 by reflexivity.
  cbn [exchange_ad advertised av_ReceiverID av_RouteID av_RelayOrigin] in *.
  repeat match goal with H : ?b = true |- context [?b] => rewrite H end. reflexivity.
Qed.
Definition exchange_pairing : Pairing := {|
  pg_receiverID := sd_ReceiverID s0; pg_routeID := sd_RouteID s0; pg_relayOrigin := sd_RelayOrigin s0; pg_clientID := clientID; pg_generation := 1;
  pg_pairingPrivate := signingPrivatePEM px key; pg_receiverPublic := signingPublicPEM px (signer x k); pg_receiverRecipient := ageRecipient k |}.
Lemma open_own t t3 authorization seed rand response :
  sane t → sane t3 → makeResponse px (exchange_answer t authorization) recipient (signingPrivate k) seed rand = Ok response →
  bad_size authorization MaxAuthorizationSize = false → ex_created e - 300 <= t3 < exchange_expiry e →
  authorities_ok px (trust k) (signer x k) (t3 * Second) = true →
  OpenResponse px advertisement response (cr_Material (ex_request e)) (sd_RelayOrigin s0) (t3 * Second) =
    (reject negb (is_ok (validateWindow t (exchange_expiry e) (t3 * Second) MaxMessageValidity)) with ResponseFields;;
     Ok {| or_Pairing := exchange_pairing; or_Authorization := authorization |}).
Proof.
  intros Ht Ht3 Hr Hsz Hw Hau. destruct exchange_sane as (_ & _ & Hle). unfold OpenResponse. rewrite truncated_second, (md_valid _ _ _ _ _ _ _ _ _ _ Hm).
  cbn [mbind result_bind]. rewrite (md_advertisement _ _ _ _ _ _ _ _ _ _ Hm), ad_fields_later by (done || lia). cbn [negb mbind result_bind].
  rewrite (md_material _ _ _ _ _ _ _ _ _ _ Hm). cbn [kept_material cm_relayOrigin cm_advertisementSHA cm_receiverPublic cm_receiverRecipient cm_responseIdentity
    cm_receiverID cm_routeID cm_attemptID cm_clientID cm_requestSHA cm_pairingPrivate exchange_ad advertised av_ReceiverID av_RouteID av_RelayOrigin av_AttemptID
    av_ReceiverSigningPublic av_ReceiverAgeRecipient].
  rewrite !bool_decide_eq_true_2 by reflexivity. cbn [negb orb]. unfold signer.
  rewrite (read_response x Hlaw (exchange_answer t authorization) (signingPrivate k) recipient seed rand response identity (t3 * Second) (exchange_answer_wf t authorization Ht)
    (os_private x _ (hn_secrets _ He)) (md_identity _ _ _ _ _ _ _ _ _ _ Hm) Hr).
  rewrite (answer_fields t t3 authorization Ht Ht3). destruct (is_ok _); [|reflexivity]. cbn [negb].
  change (bool_decide (rp_Kind (exchange_answer t authorization) = pair)) with true. change (rp_AttemptID (exchange_answer t authorization)) with id.
  rewrite (md_attempt _ _ _ _ _ _ _ _ _ _ Hm). cbn [negb orb mbind result_bind exchange_answer rp_CredentialGeneration Z.eqb Pos.eqb rp_PairingPublicKeyPEM rp_Authorization].
  rewrite (own_key x Hlaw _ _ (md_key _ _ _ _ _ _ _ _ _ _ Hm) eq_refl). cbn [mbind result_bind]. rewrite decodeBase64_encode, Hsz. cbn [mbind result_bind].
  unfold private_key. rewrite (pl_private _ Hlaw) by apply Hm. cbn [mbind result_bind].
  unfold response_binds. cbn [rp_Kind rp_ReceiverID rp_RouteID rp_RelayOrigin rp_AttemptID rp_ClientID rp_RequestSHA256 rp_PairingPublicKeyPEM rp_CredentialGeneration
    cm_receiverID cm_routeID cm_relayOrigin cm_attemptID cm_clientID cm_requestSHA].
  rewrite !bool_decide_eq_true_2 by reflexivity. cbn [negb andb Z.eqb Pos.eqb]. unfold exchange_pairing. by rewrite (os_public x _ (hn_secrets _ He)).
Qed.
End Made.
End Honest.

(** ** Properties *)

(** What the receiver has in its state and what the client got out of the response agree. *)
Record agreed (k : receiverSecrets) (s : stateRecord) (o : OpenResponseResult) : Prop := {
  ag_receiver : pg_receiverID (or_Pairing o) = sd_ReceiverID s ∧ pg_routeID (or_Pairing o) = sd_RouteID s
    ∧ pg_relayOrigin (or_Pairing o) = sd_RelayOrigin s;
  ag_signer : pg_receiverPublic (or_Pairing o) = signingPublicPEM px (signer x k) ∧ pg_receiverRecipient (or_Pairing o) = ageRecipient k;
  ag_attempt : sd_Attempt s = None;
  ag_peer : ∃ p key, sd_Peer s = Some p ∧ pr_ClientID p = pg_clientID (or_Pairing o)
    ∧ pr_CredentialGeneration p = pg_generation (or_Pairing o) ∧ elems (pr_Authorization p) = or_Authorization o
    ∧ ParsePrivate px (pg_pairingPrivate (or_Pairing o)) = Some key
    ∧ pr_PairingPublicKeyPEM p = signingPublicPEM px (ed_public (pe_ed px) key) ∧ pr_Locked p = false ∧ pr_Revoked p = false }.
(** The claim of the request of [e] at a second, against the pending attempt [a]. *)
Definition claimed_at (e : exchange) (a : attemptRecord) (t : Z) (issue : IssueFunc) (seed : list byte) (rand : reader)
    : result receiver_err (stateRecord * ClaimResult) :=
  accept_request x (ex_secrets e) (ex_pending e) a (cr_Encrypted (ex_request e)) (t * Second) issue seed rand.
(** A retry of the claim is answered with the same response. *)
Definition retried (e : exchange) (s : stateRecord) (r : ClaimResult) : Prop :=
  ∀ now issue seed rand root, sd_LocalLocked (ex_pending e) = false →
    claim x (cr_Encrypted (ex_request e)) now issue seed rand root s =
      mret (Ok {| cl_Response := cl_Response r; cl_ReceiverID := cl_ReceiverID r; cl_ClientID := cl_ClientID r;
                  cl_CredentialGeneration := cl_CredentialGeneration r; cl_Idempotent := true |}).
Lemma claimed_retried e a q public authorization response :
  retried e (claimed x (ex_pending e) a q public authorization response (digestText (cr_Encrypted (ex_request e))))
    {| cl_Response := response; cl_ReceiverID := sd_ReceiverID (ex_pending e); cl_ClientID := rq_ClientID q; cl_CredentialGeneration := 1;
       cl_Idempotent := false |}.
Proof.
  intros now issue seed rand root Hl. unfold claim, claimed. cbn. rewrite Hl, constantDigestEqual_refl. unfold stored_answer. cbn.
  by rewrite decodeBase64_encode.
Qed.

(** A response that is live for more than an hour opens at no time. *)
Lemma stranded e id secret clientID nonce key identity recipient payload signed rest t authorization seed rand response :
  honest e → made e id secret clientID nonce key identity recipient payload signed rest → sane t → t + 3600 < exchange_expiry e →
  makeResponse px (exchange_answer e id clientID key t authorization) recipient (signingPrivate (ex_secrets e)) seed rand = Ok response →
  ∀ now, is_ok (OpenResponse px (ap_Advertisement (ex_attempt e)) response (cr_Material (ex_request e)) (sd_RelayOrigin (ex_state e)) now) = false.
Proof.
  intros He Hm Ht Hlate Er now. unfold OpenResponse. rewrite (md_valid _ _ _ _ _ _ _ _ _ _ _ Hm). cbn [mbind result_bind].
  rewrite (md_advertisement _ _ _ _ _ _ _ _ _ _ _ Hm). destruct (advertisement_fields _ _ _ _); [|done]. cbn [negb mbind result_bind].
  case_guard G; [done|]. rewrite (md_material _ _ _ _ _ _ _ _ _ _ _ Hm). cbn [kept_material cm_responseIdentity]. unfold signer.
  rewrite (read_response x Hlaw (exchange_answer e id clientID key t authorization) (signingPrivate (ex_secrets e)) recipient seed rand response identity _
    (exchange_answer_wf e He id secret clientID nonce key identity recipient payload signed rest Hm t authorization Ht) (os_private x _ (hn_secrets _ He)) (md_identity _ _ _ _ _ _ _ _ _ _ _ Hm) Er).
  unfold response_fields. rewrite window_long, andb_false_r; [done|]. cbn [exchange_answer rp_IssuedUnix rp_ExpiresUnix].
  change (MaxMessageValidity / Second) with 3600. lia.
Qed.

End Env.

(** ** A concrete exchange *)

(** What the demonstration cipher makes of a plaintext that is filled up with zeros. *)
Definition demo_filling : list byte := replicate (Z.to_nat (paddedPlaintextSize - paddedHeaderSize)) Byte.x00.
Definition demo_ciphertext (plaintext : list byte) : list byte :=
  be_put 8 (paddedPlaintextSize - paddedHeaderSize - Z.of_nat (length plaintext))
  ++ paddedMagic ++ [Byte.x01; Byte.x00; Byte.x00; Byte.x00] ++ be_put 4 (Z.of_nat (length plaintext)) ++ plaintext.
Lemma demo_padded plaintext :
  let size := Z.of_nat (length plaintext) in
  0 < size <= paddedPlaintextSize - paddedHeaderSize →
  (padPlaintext plaintext [(demo_filling, None)]).1 =
    Ok (paddedMagic ++ [Byte.x01; Byte.x00; Byte.x00; Byte.x00] ++ be_put 4 size ++ plaintext
        ++ replicate (Z.to_nat (paddedPlaintextSize - paddedHeaderSize - size)) Byte.x00).
Proof.
  intros size H. unfold padPlaintext. fold size. rewrite (proj2 (Z.eqb_neq _ _)), (proj2 (Z.ltb_ge _ _)) by lia. cbn [orb].
  destruct (read_full_enough (Z.to_nat (paddedPlaintextSize - paddedHeaderSize - size)) [(demo_filling, None)]) as (r & -> & _).
  - by repeat constructor.
  - unfold rbytes, demo_filling. cbn [fmap list_fmap fst concat]. rewrite app_nil_r, length_replicate. apply Z2Nat.inj_le; lia.
  - cbn [fst]. unfold rbytes. cbn [fmap list_fmap fst concat]. rewrite app_nil_r. unfold demo_filling. by rewrite take_replicate, Nat.min_l by (apply Z2Nat.inj_le; lia).
Qed.
Lemma demo_sealed schema text recipient maximum seed :
  ValidString recipient → let plaintext := text ++ [newline] in
  Z.of_nat (length plaintext) <= paddedPlaintextSize - paddedHeaderSize →
  sealAge demo_pairing schema plaintext recipient maximum seed [(demo_filling, None)] =
    encodeCanonical cipherEnvelope_field (MkCipher schema (StdEncode (demo_ciphertext plaintext))) maximum.
Proof.
  intros Hr plaintext Hn. assert (0 < Z.of_nat (length plaintext)) as Hp by (unfold plaintext; rewrite length_app; cbn [length]; lia).
  unfold sealAge, canonical_recipient. cbn [recipient_text demo_pairing]. rewrite (Is_true_true_1 _ Hr), bool_decide_eq_true_2 by done. cbn [negb].
  rewrite demo_padded by lia. cbn [mbind result_bind encrypt demo_pairing]. unfold demo_encrypt.
  set (n := Z.to_nat (paddedPlaintextSize - paddedHeaderSize - Z.of_nat (length plaintext))).
  set (header := paddedMagic ++ [Byte.x01; Byte.x00; Byte.x00; Byte.x00] ++ be_put 4 (Z.of_nat (length plaintext))).
  assert (strip (paddedMagic ++ [Byte.x01; Byte.x00; Byte.x00; Byte.x00] ++ be_put 4 (Z.of_nat (length plaintext)) ++ plaintext ++ replicate n Byte.x00)
    = (header ++ plaintext, n)) as ->.
  { pose proof (strip_zeros (header ++ text) newline n ltac:(done)) as Hs. unfold plaintext, header in *. by rewrite <-!app_assoc in *. }
  rewrite (proj2 (Z.leb_gt _ _)) by (unfold n, paddedPlaintextSize, paddedHeaderSize in *; lia).
  unfold demo_ciphertext, n. rewrite Z2Nat.id by lia. unfold header. by rewrite <-!app_assoc.
Qed.

Definition demo_age : text := ascii_bytes "receiver age identity".
Definition demo_client_age : text := ascii_bytes "client age identity".
Definition demo_secrets : receiverSecrets := {|
  signingPrivate := replicate 64 Byte.x05; signingPublic := hex_encode (replicate 32 Byte.x05); ageIdentity := demo_age; ageRecipient := demo_age;
  trust := {| tr_RelayServerSPKI := demo_pin; tr_OuterEndpointCAPEM := ascii_bytes "outer"; tr_InnerConnectorCAPEM := ascii_bytes "connector";
              tr_InnerClientCAPEM := ascii_bytes "client" |};
  outerIssuer := {| CertPEM := []; KeyPEM := [] |}; connectorIssuer := {| CertPEM := []; KeyPEM := [] |};
  clientIssuer := {| CertPEM := []; KeyPEM := [] |} |}.
Definition demo_created : Z := 1700000000.
Definition demo_asked : Z := 1700000060.
Definition demo_attempt_rand : reader := [(replicate 32 Byte.x11 ++ replicate 32 Byte.x12, None)].
Definition demo_attempt_id : text := Eval vm_compute in formatID (replicate 32 Byte.x11).
Definition demo_secret : list byte := replicate 32 Byte.x12.
Definition demo_ad : advertisementPayload := Eval vm_compute in advertised demo_secrets demo_initial demo_attempt_id demo_created (demo_created + 7200).
Definition demo_advertisement : list byte := Eval vm_compute in
  match signPayload demo_pairing advertEnvelopeSchema advertisementDomain advertisementPayload_field demo_ad (replicate 64 Byte.x05) MaxAdvertisementSize with
  | Ok b => b
  | Err _ => []
  end.
Definition demo_ad_sha : text := Eval vm_compute in digestText demo_advertisement.
Lemma demo_ad_digest : digestText demo_advertisement = demo_ad_sha.
Proof. vm_compute. reflexivity. Qed.
Definition demo_code_payload : codePayload := {|
  cp_Schema := codeSchema; cp_ReceiverID := demo_id 1; cp_AttemptID := demo_attempt_id; cp_ExpiresUnix := demo_created + 7200;
  cp_AdvertisementSHA256 := demo_ad_sha; cp_Secret := RawURLEncode demo_secret |}.
Lemma demo_code_of : code_of demo_ad demo_advertisement demo_secret = demo_code_payload.
Proof. unfold code_of. rewrite demo_ad_digest. vm_compute. reflexivity. Qed.
Definition demo_code : list byte := Eval vm_compute in match encodeCode demo_code_payload with Ok b => b | Err _ => [] end.
Definition demo_attempt : Attempt := {|
  ap_Advertisement := demo_advertisement; ap_Code := demo_code; ap_ReceiverID := demo_id 1; ap_AttemptID := demo_attempt_id;
  ap_Expires := demo_created * Second + 2 * Hour |}.
Definition demo_pending : stateRecord := started demo_initial (pending demo_attempt_id (demo_created + 7200) demo_advertisement demo_code).
Lemma demo_attempted :
  new_attempt demo_receiver demo_secrets demo_initial (demo_created * Second) (2 * Hour) demo_attempt_rand = Ok (demo_pending, demo_attempt).
Proof.
  apply (attempt_makes demo_receiver demo_secrets demo_initial (demo_created * Second) (2 * Hour) demo_attempt_rand demo_attempt_id demo_secret
    [(demo_secret, None)] demo_advertisement demo_code); [vm_compute; reflexivity..|].
  change (encodeCode (code_of demo_ad demo_advertisement demo_secret) = Ok demo_code). rewrite demo_code_of. vm_compute. reflexivity.
Qed.
Lemma demo_read : parseAdvertisement demo_pairing demo_advertisement (demo_asked * Second) = Ok (demo_ad, replicate 32 Byte.x05).
Proof.
  rewrite (read_advertisement demo_receiver demo_pairing_law demo_ad (replicate 64 Byte.x05) demo_advertisement); [vm_compute; reflexivity| |apply demo_generated|vm_compute; reflexivity..].
  unfold advertisementPayload_wf, Trust_wf, int64. split_and!; by vm_compute.
Qed.

Definition demo_client_key : list byte := replicate 64 Byte.x06.
Definition demo_client : text := Eval vm_compute in formatID (replicate 32 Byte.x21).
Definition demo_nonce : text := Eval vm_compute in formatID (replicate 32 Byte.x22).
Definition demo_draws : draws := {|
  dr_rand := [(replicate 32 Byte.x21 ++ replicate 32 Byte.x22, None); (demo_filling, None)]; dr_key := Some demo_client_key;
  dr_identity := Some (demo_client_age, demo_client_age); dr_seed := [] |}.
Lemma demo_drawn :
  random_id (dr_rand demo_draws) = (Ok demo_client, [(replicate 32 Byte.x22, None); (demo_filling, None)])
  ∧ random_id [(replicate 32 Byte.x22, None); (demo_filling, None)] = (Ok demo_nonce, [(demo_filling, None)]).
Proof. cbn [demo_draws dr_rand]. generalize demo_filling. intros filling. split; vm_compute; reflexivity. Qed.
Definition demo_requested : requestPayload :=
  MkRequest requestSchema Profile (demo_id 1) (demo_id 2) demo_origin demo_attempt_id demo_ad_sha demo_client demo_nonce demo_asked (demo_asked + 3600)
    (hex_encode (replicate 32 Byte.x06)) demo_client_age [] demo_code.
Lemma demo_requested_made :
  requested demo_receiver demo_ad demo_advertisement demo_code demo_client demo_nonce (demo_asked * Second) Hour demo_client_key demo_client_age [] = demo_requested.
Proof. unfold requested. rewrite demo_ad_digest. vm_compute. reflexivity. Qed.
Definition demo_signed_text : list byte := Eval vm_compute in
  match signPayload demo_pairing requestEnvelopeSchema requestDomain requestPayload_field demo_requested demo_client_key MaxRequestSize with
  | Ok b => removelast b
  | Err _ => []
  end.
Definition demo_encrypted : list byte := Eval vm_compute in
  match encodeCanonical cipherEnvelope_field (MkCipher requestCipherSchema (StdEncode (demo_ciphertext (demo_signed_text ++ [newline])))) MaxRequestSize with
  | Ok b => b
  | Err _ => []
  end.
Lemma demo_sealed_request :
  sealAge demo_pairing requestCipherSchema (demo_signed_text ++ [newline]) demo_age MaxRequestSize [] [(demo_filling, None)] = Ok demo_encrypted.
Proof. rewrite demo_sealed; [vm_compute; reflexivity|by vm_compute|by vm_compute]. Qed.
Definition demo_request_sha : text := Eval vm_compute in digestText demo_encrypted.
Lemma demo_request_digest : digestText demo_encrypted = demo_request_sha.
Proof. vm_compute. reflexivity. Qed.
Definition demo_material : ClientMaterial := kept_material demo_receiver demo_ad demo_advertisement demo_encrypted demo_client demo_client_key demo_client_age.
Definition demo_options : CreateRequestOptions := {|
  co_Advertisement := demo_advertisement; co_Code := demo_code; co_RelayOrigin := demo_origin; co_Now := demo_asked * Second; co_Validity := Hour |}.
Lemma demo_code_binds : code_binds demo_code_payload demo_ad demo_advertisement (demo_asked * Second) = true.
Proof. unfold code_binds. rewrite demo_ad_digest. vm_compute. reflexivity. Qed.
Lemma demo_request_signed :
  signPayload demo_pairing requestEnvelopeSchema requestDomain requestPayload_field
    (requested demo_receiver demo_ad demo_advertisement demo_code demo_client demo_nonce (demo_asked * Second) Hour demo_client_key demo_client_age [])
    demo_client_key MaxRequestSize = Ok (demo_signed_text ++ [newline]).
Proof. rewrite demo_requested_made. vm_compute. reflexivity. Qed.
Lemma demo_material_ok : validateClientMaterial demo_pairing demo_material = Ok ().
Proof.
  unfold demo_material, validateClientMaterial, kept_material.
  cbn [cm_receiverID cm_routeID cm_relayOrigin cm_attemptID cm_advertisementSHA cm_clientID cm_requestSHA cm_pairingPrivate cm_responseIdentity
      cm_receiverPublic cm_receiverRecipient cm_request].
  rewrite demo_ad_digest, demo_request_digest. vm_compute. reflexivity.
Qed.
Lemma demo_truncated : truncated_time (demo_asked * Second) = demo_asked * Second.
Proof. vm_compute. reflexivity. Qed.
Lemma demo_parsed_code : parseCode demo_code = Ok demo_code_payload.
Proof. vm_compute. reflexivity. Qed.
Lemma demo_requests :
  CreateRequestWithPayload demo_pairing demo_options None demo_draws = Ok {| cr_Encrypted := demo_encrypted; cr_Material := demo_material |}.
Proof.
  destruct demo_drawn as [Hr1 Hr2]. pose proof demo_read as Hread. pose proof demo_code_binds as Hbinds.
  pose proof demo_request_signed as Hsigned. pose proof demo_sealed_request as Hsealed. pose proof demo_material_ok as Hok.
  pose proof demo_parsed_code as Hcode. unfold demo_material in *. revert Hread Hbinds Hsigned Hsealed Hok Hcode.
  change demo_options with {| co_Advertisement := demo_advertisement; co_Code := demo_code; co_RelayOrigin := demo_origin; co_Now := demo_asked * Second; co_Validity := Hour |}.
  change demo_draws with {| dr_rand := dr_rand demo_draws; dr_key := Some demo_client_key; dr_identity := Some (demo_client_age, demo_client_age); dr_seed := [] |}.
  revert Hr1 Hr2. generalize demo_encrypted as encrypted. generalize (demo_signed_text ++ [newline]) as signed. generalize demo_advertisement as advertisement.
  generalize demo_code as code. generalize (dr_rand demo_draws) as rand. intros rand code advertisement signed encrypted Hr1 Hr2 Hread Hbinds Hsigned Hsealed Hok Hcode.
  refine (request_makes demo_receiver {| co_Advertisement := advertisement; co_Code := code; co_RelayOrigin := demo_origin; co_Now := demo_asked * Second; co_Validity := Hour |}
    None {| dr_rand := rand; dr_key := Some demo_client_key; dr_identity := Some (demo_client_age, demo_client_age); dr_seed := [] |} (demo_asked * Second) demo_ad (replicate 32 Byte.x05) demo_code_payload
    demo_client demo_nonce demo_client_key demo_client_age demo_client_age [] signed encrypted
    [(replicate 32 Byte.x22, None); (demo_filling, None)] [(demo_filling, None)] eq_refl demo_truncated _ _ _ Hread _ Hcode Hbinds Hr1 Hr2 eq_refl eq_refl eq_refl _ Hsigned Hsealed Hok).
  - vm_compute. reflexivity.
  - clear. split; vm_compute; [reflexivity|discriminate].
  - vm_compute. reflexivity.
  - vm_compute. reflexivity.
  - clear. vm_compute. discriminate.
Qed.
Definition demo_exchange : exchange := {|
  ex_secrets := demo_secrets; ex_state := demo_initial; ex_created := demo_created; ex_validity := 2 * Hour; ex_rand := demo_attempt_rand;
  ex_pending := demo_pending; ex_attempt := demo_attempt; ex_asked := demo_asked; ex_asking := Hour; ex_build := None; ex_draws := demo_draws;
  ex_request := {| cr_Encrypted := demo_encrypted; cr_Material := demo_material |} |}.
Lemma demo_initial_wf : stateRecord_wf demo_initial.
Proof.
  unfold stateRecord_wf, uint64. cbn [demo_initial sd_Schema sd_Profile sd_Generation sd_ReceiverID sd_RouteID sd_RelayOrigin sd_RelayServerSPKI
    sd_Attempt sd_Peer sd_RetiredCodeSHA256 pointed elems default].
  split_and!; [by vm_compute..|]. constructor.
Qed.
Lemma demo_honest : honest demo_receiver demo_exchange.
Proof.
  split; cbn [demo_exchange ex_secrets ex_state ex_created ex_validity ex_rand ex_pending ex_attempt ex_asked ex_asking ex_build ex_draws ex_request].
  - split; [apply demo_generated|vm_compute; reflexivity|vm_compute; reflexivity|]. unfold Trust_wf. split_and!; by vm_compute.
  - exact demo_initial_wf.
  - by vm_compute.
  - by vm_compute.
  - by vm_compute.
  - exact demo_attempted.
  - by vm_compute.
  - by vm_compute.
  - intros key. cbn [demo_draws dr_key]. intros [= <-]. apply demo_generated.
  - intros i r. cbn [demo_draws dr_identity]. intros [= <- <-]. vm_compute. reflexivity.
  - intros nonce. unfold drawn_nonce. destruct demo_drawn as [E1 E2]. rewrite E1. cbn [snd]. rewrite E2. cbn [fst]. intros <-%Ok_inj.
    vm_compute. reflexivity.
  - exact demo_requests.
Qed.

(** The claim at the second of the request. *)
Definition demo_record : attemptRecord := Eval cbn [demo_created Z.add Pos.add Pos.add_carry Pos.succ] in pending demo_attempt_id (demo_created + 7200) demo_advertisement demo_code.
Definition demo_issue : IssueFunc := Some (λ _, Some [Byte.x01]).
Definition demo_answer : responsePayload := {|
  rp_Schema := responseSchema; rp_Profile := Profile; rp_Kind := pair; rp_ReceiverID := demo_id 1; rp_RouteID := demo_id 2;
  rp_RelayOrigin := demo_origin; rp_AttemptID := demo_attempt_id; rp_ClientID := demo_client; rp_RequestSHA256 := demo_request_sha;
  rp_PairingPublicKeyPEM := hex_encode (replicate 32 Byte.x06); rp_CredentialGeneration := 1; rp_IssuedUnix := demo_asked;
  rp_ExpiresUnix := demo_asked + 3600; rp_Authorization := StdEncode [Byte.x01] |}.
Definition demo_answer_text : list byte := Eval vm_compute in
  match signPayload demo_pairing responseEnvelopeSchema responseDomain responsePayload_field demo_answer (replicate 64 Byte.x05) MaxResponseSize with
  | Ok b => removelast b
  | Err _ => []
  end.
Lemma demo_answer_signed :
  signPayload demo_pairing responseEnvelopeSchema responseDomain responsePayload_field demo_answer (replicate 64 Byte.x05) MaxResponseSize
  = Ok (demo_answer_text ++ [newline]).
Proof. vm_compute. reflexivity. Qed.
Lemma demo_answer_sealed : ∃ response,
  sealAge demo_pairing responseCipherSchema (demo_answer_text ++ [newline]) demo_client_age MaxResponseSize [] [(demo_filling, None)] = Ok response.
Proof. rewrite demo_sealed; [|by vm_compute|by vm_compute]. eexists. vm_compute. reflexivity. Qed.
Lemma demo_made id secret clientID nonce key identity recipient payload signed rest :
  made demo_receiver demo_exchange id secret clientID nonce key identity recipient payload signed rest →
  id = demo_attempt_id ∧ clientID = demo_client ∧ key = demo_client_key ∧ recipient = demo_client_age.
Proof.
  intros [_ Hp _ _ _ _ _ _ _ _ _ _ Hi _ _ _ _ Hmat _]. split; [|split; [|split]].
  - pose proof (f_equal (λ s, at_AttemptID <$> sd_Attempt s) Hp) as E. change (Some demo_attempt_id = Some id) in E. by injection E.
  - pose proof (f_equal cm_clientID Hmat) as E. change (demo_client = clientID) in E. done.
  - pose proof (f_equal cm_pairingPrivate Hmat) as E. change (hex_encode demo_client_key = hex_encode key) in E.
    apply (f_equal hex_decode) in E. rewrite !hex_decode_encode in E. apply Some_inj in E. done.
  - pose proof (f_equal cm_responseIdentity Hmat) as E. change (demo_client_age = identity) in E. rewrite <-E in Hi.
    clear -Hi. change (identity_text demo_pairing demo_client_age) with (Some (demo_client_age, demo_client_age)) in Hi. by injection Hi.
Qed.
#[local] Opaque digestText.
Lemma demo_live : ex_asked demo_exchange - 300 <= demo_asked < exchange_expiry demo_exchange.
Proof. by vm_compute. Qed.
Lemma demo_room : sd_Generation (ex_pending demo_exchange) ≠ maxGeneration.
Proof. by vm_compute. Qed.
Lemma demo_sane : sane demo_asked.
Proof. by vm_compute. Qed.
Lemma demo_claims : ∃ s r,
  claimed_at demo_receiver demo_exchange demo_record demo_asked demo_issue [] [(demo_filling, None)] = Ok (s, r).
Proof.
  destruct (exchange_made demo_receiver demo_pairing_law demo_exchange demo_honest)
    as (id & secret & clientID & nonce & key & identity & recipient & payload & signed & rest & Hm).
  destruct (demo_made _ _ _ _ _ _ _ _ _ _ Hm) as (-> & -> & -> & ->). unfold claimed_at.
  change demo_record with (exchange_pending demo_exchange demo_attempt_id).
  rewrite (accept_own demo_receiver demo_pairing_law demo_exchange demo_honest demo_attempt_id secret demo_client nonce demo_client_key identity demo_client_age
    payload signed rest Hm demo_asked demo_issue [] [(demo_filling, None)] demo_sane demo_live demo_room).
  change (issued demo_issue _) with (Ok (E := receiver_err) [Byte.x01]). cbn [mbind result_bind].
  assert (exchange_answer demo_receiver demo_exchange demo_attempt_id demo_client demo_client_key demo_asked [Byte.x01] = demo_answer) as ->.
  { unfold exchange_answer. cbn [demo_exchange ex_request cr_Encrypted]. rewrite demo_request_digest. vm_compute. reflexivity. }
  unfold makeResponse. change (signingPrivate (ex_secrets demo_exchange)) with (replicate 64 Byte.x05).
  change (rv_pairing demo_receiver) with demo_pairing. rewrite demo_answer_signed. cbn [mbind result_bind].
  destruct demo_answer_sealed as [response ->]. cbn [paired mbind result_bind]. by eexists _, _.
Qed.
